(* ===== verification/_CoqProject ===== *)
-Q . S2P
Prelude.v
Fcntl.v
Spinlock.v
Sleeplock.v
Peterson.v
Ladder.v
LadderProgress.v
Tournament.v
Mem.v
Kalloc.v
UserMem.v
Ring.v
Pipe.v
Uart.v
Console.v
Block.v
Bio.v
BioClients.v
BlockStore.v
Log.v
BlockLog.v
Virtio.v
VirtioTheorems.v
VirtioRefine.v
Fs.v
FsBlocks.v
FsInode.v
FsFile.v
FsData.v
FsTrunc.v
FsTheorems.v
Dir.v
DirTheorems.v
File.v
Sysfile.v
Descriptors.v
FileTheorems.v
Vm.v
VmSpace.v
VmOps.v
VmFree.v
VmCopy.v
VmFork.v
Proc.v
ProcTable.v
ProcLife.v
ProcMem.v
Exec.v
MachineTypes.v
ExecMem.v
ExecTheorems.v
ExecCall.v
Grep.v
ShParse.v
ShLex.v
ShGrammar.v
ShTheorems.v
ShRun.v
Umalloc.v
UmallocTheorems.v
UmallocSafe.v
Trap.v
TrapTheorems.v
TrapDevices.v
TrapSafe.v
