(* ===== verification/Prelude.v ===== *)
(** * A verification of the xv6 kernel with Peterson locks

    The program is a teaching operating system for RISC-V: the xv6 kernel
    ([src/kernel]), its user programs ([src/user]), and two additions, Peterson
    locks in the kernel with system calls on them and a tournament tree of such
    locks as a user library.  Each C function is translated into a Rocq function;
    the theorems are about these functions and, where several processes, CPUs or
    devices act at once, about every interleaving of their steps.

    ** How C is represented

    Numbers are [Z]; where the width matters the wrap-around is written out
    ([u32], [u64], [i32]).  An array or table is a list accessed by [zget] and
    [zset]; a pointer to an entry of a table is its index, and a null test is on
    [option].  Physical memory maps addresses to bytes ([Mem]), and page tables,
    trap frames and the free list of pages live in it.

    Kernel code runs in the monad [M S A]: a run returns a value and a state
    ([Ok]), stops in [panic] ([Panic]) or goes to sleep on a channel ([Sleep]).
    What a lock makes atomic is one step; what a lock does not protect is
    interleaved, one access at a time in the locks themselves.  A function
    that sleeps is resumed by a definition of its own or is run again from the
    loop it sleeps in.  Reachability of a step relation is [reach], and
    [reach_inv] proves invariants over it.

    ** The parts

    Locks.  [Spinlock] ([spinlock.c]) interleaves acquire and release of all
    CPUs; [Sleeplock] ([sleeplock.c]).  [Peterson] ([petersonlock.c]) has the
    lock table and machines of one memory access per step; [Ladder] and
    [LadderProgress] are processes that climb a sequence of such locks, and
    [Tournament] ([user/libtournament.c]) is the instance the tree of locks gives.
    Shown: mutual exclusion, freedom from deadlock, bounded overtaking, and what
    creation does when the locks run out.

    Memory.  [Mem] ([string.c]); [Kalloc] ([kalloc.c]); [Vm], [VmSpace], [VmOps],
    [VmFree], [VmCopy], [VmFork] ([vm.c]): page tables in physical memory refine
    finite maps, no page is lost or used twice on any path, errors are undone, and
    copying between kernel and user works byte by byte.  [UserMem] is the interface
    through which the other components move bytes to and from a process, and
    [VmCopy] provides it.

    Devices.  [Ring] has the ring buffers of [Pipe] ([pipe.c]), [Uart] ([uart.c])
    and [Console] ([console.c]): queues that survive the wrap of their counters,
    and no lost wakeup but for one case in [pipewrite].  [Virtio],
    [VirtioTheorems] and [VirtioRefine] ([virtio_disk.c]): driver and device
    together are an atomic disk, the driver does not panic, and every request
    completes, as long as the device reports no error.

    Files.  [Block], [Bio] and [BioClients] ([bio.c]) and [Log] ([log.c]): the cache
    is coherent for processes that share it, sleeping in [bread] included, and
    a transaction is atomic for a crash at any disk write.  [BlockStore] is what
    they promise to the file system and [BlockLog] proves it.  [Fs], with
    [FsBlocks], [FsInode], [FsFile], [FsData], [FsTrunc] and [FsTheorems], and
    [Dir] with [DirTheorems] ([fs.c]): reading and writing a file refine a sequence
    of bytes, blocks and inodes are accounted for, directories and paths.
    [File] ([file.c]), [Sysfile] ([sysfile.c]) and [Fcntl] ([fcntl.h]) are the
    file table and the system calls, [Descriptors] their reference counts, and
    [FileTheorems] the transactions of a write.

    Processes.  [Proc] ([proc.c]) on memory and files; [ProcTable] reduces it to
    the table of states, parents and channels, [ProcLife] has the invariant of all
    reachable tables, [fork] being three steps between which others run, and [ProcMem] the memory of a process.  [Exec], [ExecMem],
    [ExecTheorems] and [ExecCall] ([exec.c] and [sys_exec]): loading a program
    replaces the image or changes nothing.  [MachineTypes] has the widths of the
    C types that [exec] relies on, and that memory allocation keeps them.  [Trap],
    [TrapTheorems], [TrapDevices] and [TrapSafe]
    ([trap.c], [sysproc.c], [syscall.c]) join processes, clock, locks and devices:
    the table invariant holds through every system call, fault and interrupt,
    and a trap ends in user mode as it should, at the right instruction, or with
    the process on no CPU.

    User programs.  [ShParse], [ShLex], [ShGrammar], [ShTheorems] and [ShRun]
    ([sh.c]): the parser decides the grammar of command lines, and a line runs its
    commands with the right descriptors.  [Grep] ([grep.c]): the matcher decides
    its regular expressions and the loop prints the lines that match.  [Umalloc],
    [UmallocTheorems] and [UmallocSafe] ([umalloc.c]): blocks in use are disjoint
    and kept, and free memory is merged.

    ** Assumptions

    What lies outside a component is an argument of its definitions, as a class:
    [UserMem], [BlockStore] (both have their implementations here), [ProcFiles],
    [ForkFiles] and [ExecFiles] (the files as processes see them), [TrapCalls]
    (file system calls and interrupt handlers as traps see them, with the models of
    the drivers as its instance in [TrapDevices]), [Reader] (the input of grep).  Addresses that the linker chooses ([kend],
    [etext], [trampoline], [forkret] and others) are variables.  Every theorem
    with a hypothesis is followed by an instance on a concrete state.

    The fences of the Peterson locks are taken to order all accesses, and a
    spin lock to exclude other CPUs; the latter is shown in [Spinlock].

    ** Fuel

    Loops that count are recursions on the number of iterations left.  The others
    take a fuel that the code cannot use up: pages to the end of memory in
    [freerange_loop], the bytes of the line in [kill_line], the bytes not yet read
    in [grep], the length of the line in the shell's parser, twice the headers
    below the break in [malloc] and [free].  [strlen] takes a bound on the length
    of the string.  [loadseg] has fuel for every page of the segment; only a
    32-bit index that wraps would need more, and such a run is a panic of the
    model, excluded by the theorems on [exec].  The theorems state
    that the result is reached: the parser stops on every line, [grep] on every
    input, the scan of [namex] on every path, and [malloc] on every heap.

    ** Not modelled

    Boot ([entry.S], [start.c], [main.c]), the assembly of [swtch.S],
    [trampoline.S] and [kernelvec.S], and the registers of the interrupt controller
    ([plic.c]) are hardware set-up with no C state to speak of.  [printf.c], in
    the kernel and for users, uses varargs and produces messages only.  [forkret]
    and [procdump] of [proc.c], [main] of [grep.c], and most of [ulib.c] are left
    out.  [ramdisk.c] is not built.  [mkfs.c] runs on the host through its C
    library.  The file utilities, [init.c], and the test programs make system
    calls and print results.

    ** This file

    Shared vocabulary: machine-width integers, arrays indexed by [Z], the
    state/panic/sleep monad, reachability of step relations, and the automation
    used by every component. *)

From Stdlib Require Import ZArith Lia.
From stdpp Require Export base list gmap strings numbers.

#[export] Set Default Goal Selector "!".
Global Open Scope Z_scope.

(** ** Machine integers

    A C object of width [w] is a [Z] kept in range by an explicit
    wrap-around. *)

Definition u8 (x : Z) : Z := x mod 2 ^ 8.
Definition u16 (x : Z) : Z := x mod 2 ^ 16.
Definition u32 (x : Z) : Z := x mod 2 ^ 32.
Definition u64 (x : Z) : Z := x mod 2 ^ 64.
Definition i16 (x : Z) : Z := (x + 2 ^ 15) mod 2 ^ 16 - 2 ^ 15.
Definition i32 (x : Z) : Z := (x + 2 ^ 31) mod 2 ^ 32 - 2 ^ 31.

(** ** Arrays

    [zget] and [zset] are C array accesses: [None] is an access outside the
    array, which C leaves undefined. *)

Definition zget {A} (l : list A) (i : Z) : option A :=
  if decide (0 <= i) then l !! Z.to_nat i else None.

Definition zset {A} (l : list A) (i : Z) (x : A) : option (list A) :=
  if decide (0 <= i < Z.of_nat (length l)) then Some (<[Z.to_nat i := x]> l)
  else None.

(** The C string in the bytes [l]: those before the first NUL. *)
Fixpoint cstring (l : list Z) : list Z :=
  match l with
  | [] => []
  | c :: l => if c =? 0 then [] else c :: cstring l
  end.

(** ** Kernel computations

    A wait channel is the address a process sleeps on, kept here as the name
    of the object and an index. *)

Record chan : Type := Chan { chan_obj : string; chan_idx : Z }.

#[export] Instance chan_eq_dec : EqDecision chan.
Proof. solve_decision. Defined.

(** The outcome of running kernel code from a state: it returns, it calls
    [panic], or it reaches a [sleep] and gives up the processor in the state
    it has at that point. *)

Inductive res (S A : Type) : Type :=
| Ok (a : A) (s : S)
| Panic (msg : string)
| Sleep (c : chan) (s : S).
Arguments Ok {S A} a s.
Arguments Panic {S A} msg.
Arguments Sleep {S A} c s.

Definition M (S A : Type) : Type := S -> res S A.

Definition kret {S A} (a : A) : M S A := fun s => Ok a s.

Definition kbind {S A B} (m : M S A) (k : A -> M S B) : M S B := fun s =>
  match m s with
  | Ok a s' => k a s'
  | Panic msg => Panic msg
  | Sleep c s' => Sleep c s'
  end.

Definition kget {S} : M S S := fun s => Ok s s.
Definition kput {S} (s' : S) : M S unit := fun _ => Ok tt s'.
Definition kmodify {S} (f : S -> S) : M S unit := fun s => Ok tt (f s).
Definition kgets {S A} (f : S -> A) : M S A := fun s => Ok (f s) s.
Definition panic {S A} (msg : string) : M S A := fun _ => Panic msg.
Definition ksleep {S A} (c : chan) : M S A := fun s => Sleep c s.

(** A pointer or index the source dereferences without a check. *)
Definition kopt {S A} (o : option A) : M S A :=
  match o with Some a => kret a | None => panic "undefined access" end.

Declare Scope kernel_scope.
Delimit Scope kernel_scope with K.
Notation "'let!' x ':=' c 'in' k" := (kbind c (fun x => k))
  (at level 10, x pattern, c at level 100, k at level 200,
   format "'let!'  x  ':='  c  'in' '//' k") : kernel_scope.
Notation "c ';;;' k" := (kbind c (fun _ => k))
  (at level 199, right associativity, format "c  ';;;' '//' k") : kernel_scope.
Global Open Scope kernel_scope.

(** ** Reachability *)

Section Reach.
Context {S : Type} (step : S -> S -> Prop).

Inductive reach (s0 : S) : S -> Prop :=
| reach_refl : reach s0 s0
| reach_step s s' : reach s0 s -> step s s' -> reach s0 s'.

(** A state predicate that holds initially and is preserved by every step
    holds in every reachable state. *)
Lemma reach_inv (I : S -> Prop) s0 :
  I s0 -> (forall s s', I s -> step s s' -> I s') ->
  forall s, reach s0 s -> I s.
Proof. intros H0 Hstep s Hr. induction Hr; eauto. Qed.

Lemma reach_trans a b c : reach a b -> reach b c -> reach a c.
Proof. intros Hab Hbc. induction Hbc; eauto using reach. Qed.
End Reach.

(** ** C strings and machine integers *)

Lemma cstring_upto l t : Forall (fun c => c <> 0) l -> cstring (l ++ 0 :: t) = l.
Proof.
  induction 1 as [|c l Hc _ IH]; [done|]. simpl. rewrite IH.
  by destruct (Z.eqb_spec c 0).
Qed.

Lemma i32_small x : 0 <= x < 2 ^ 31 -> i32 x = x.
Proof. intros Hx. unfold i32. rewrite Z.mod_small; lia. Qed.

(** ** Lemmas on arrays *)

Section Arrays.
Context {A : Type}.
Implicit Types (l : list A) (i : Z) (x : A).

Lemma zget_Some l i x :
  zget l i = Some x <-> 0 <= i < Z.of_nat (length l) /\ l !! Z.to_nat i = Some x.
Proof.
  unfold zget. case_decide as Hi; split.
  - intros Hx. pose proof (lookup_lt_Some _ _ _ Hx). split; [lia|done].
  - by intros [_ Hx].
  - done.
  - intros [? _]; lia.
Qed.

Lemma zget_is_Some l i : 0 <= i < Z.of_nat (length l) -> is_Some (zget l i).
Proof.
  intros Hi. unfold zget. rewrite decide_True by lia.
  apply lookup_lt_is_Some. lia.
Qed.

Lemma zget_cons_ne x l i : i <> 0 -> zget (x :: l) i = zget l (i - 1).
Proof.
  intros Hi. unfold zget. repeat case_decide; try done; try lia.
  by replace (Z.to_nat i) with (S (Z.to_nat (i - 1))) by lia.
Qed.

(** A search from [k] on that did not stop at the first element. *)
Lemma zget_later x l k j y : zget l (j - (k + 1)) = Some y -> zget (x :: l) (j - k) = Some y.
Proof.
  intros Hy. pose proof Hy as Hb. unfold zget in Hb. case_decide; [|done].
  rewrite zget_cons_ne by lia. by replace (j - k - 1) with (j - (k + 1)) by lia.
Qed.

Lemma zset_Some l i x l' :
  zset l i x = Some l' ->
  0 <= i < Z.of_nat (length l) /\ l' = <[Z.to_nat i := x]> l.
Proof. unfold zset. case_decide; [|done]. by intros [= <-]. Qed.

Lemma zset_in l i x :
  0 <= i < Z.of_nat (length l) -> zset l i x = Some (<[Z.to_nat i := x]> l).
Proof. intros Hi. unfold zset. by rewrite decide_True. Qed.

Lemma zset_length l i x l' : zset l i x = Some l' -> length l' = length l.
Proof. intros [_ ->]%zset_Some. apply length_insert. Qed.

Lemma zget_zset_eq l i x l' : zset l i x = Some l' -> zget l' i = Some x.
Proof.
  intros [Hi ->]%zset_Some. apply zget_Some. rewrite length_insert.
  split; [done|]. apply list_lookup_insert_eq. lia.
Qed.

Lemma zget_zset_ne l i j x l' :
  zset l i x = Some l' -> i <> j -> zget l' j = zget l j.
Proof.
  intros [Hi ->]%zset_Some Hij. unfold zget. case_decide; [|done].
  apply list_lookup_insert_ne. lia.
Qed.
Lemma zget_insert l i j x y :
  zget l i = Some y -> zget (<[Z.to_nat i := x]> l) j = if decide (j = i) then Some x else zget l j.
Proof.
  intros [Hi _]%zget_Some. pose proof (zset_in l i x Hi) as Hs. case_decide as Hj.
  - subst j. by apply zget_zset_eq in Hs.
  - by apply (zget_zset_ne _ _ _ _ _ Hs).
Qed.
End Arrays.

(** ** Lemmas on the monad *)

Section MonadLemmas.
Context {S A B : Type}.

Lemma kbind_Ok_inv (m : M S A) (k : A -> M S B) s b s' :
  kbind m k s = Ok b s' -> exists a s1, m s = Ok a s1 /\ k a s1 = Ok b s'.
Proof. unfold kbind. destruct (m s) eqn:E; [eauto|done|done]. Qed.

Lemma kbind_Ok (m : M S A) (k : A -> M S B) s a s1 :
  m s = Ok a s1 -> kbind m k s = k a s1.
Proof. unfold kbind. by intros ->. Qed.
End MonadLemmas.

(** ** Automation *)

Create HintDb kernel discriminated.
#[export] Hint Resolve reach_refl reach_step zget_zset_eq zset_in : kernel.

(** Case on every boolean comparison of integers in the goal. *)
Ltac zcases :=
  repeat match goal with
  | |- context [Z.eqb ?a ?b] => destruct (Z.eqb_spec a b)
  | |- context [Z.ltb ?a ?b] => destruct (Z.ltb_spec a b)
  | |- context [Z.leb ?a ?b] => destruct (Z.leb_spec a b)
  end.

(** Turn boolean comparisons of hypotheses into propositions. *)
Ltac zbool :=
  repeat match goal with
  | H : (_ && _)%bool = true |- _ => apply andb_prop in H; destruct H
  | H : (_ || _)%bool = false |- _ => apply orb_false_elim in H; destruct H
  | H : (_ =? _)%Z = true |- _ => apply Z.eqb_eq in H
  | H : (_ =? _)%Z = false |- _ => apply Z.eqb_neq in H
  | H : (_ <? _)%Z = true |- _ => apply Z.ltb_lt in H
  | H : (_ <? _)%Z = false |- _ => apply Z.ltb_ge in H
  | H : (_ <=? _)%Z = true |- _ => apply Z.leb_le in H
  | H : (_ <=? _)%Z = false |- _ => apply Z.leb_gt in H
  end.

(** Invert a successful run of a sequence of kernel computations. *)
Ltac kinv H :=
  repeat match type of H with
  | kbind _ _ _ = Ok _ _ =>
      let a := fresh "r" in let s := fresh "st" in let H1 := fresh "Hrun" in
      apply kbind_Ok_inv in H as (a & s & H1 & H)
  end.
