(* ===== verification/Fcntl.v ===== *)
(** The open modes of [kernel/fcntl.h], shared by the system calls and the
    user programs. *)

From S2P Require Import Prelude.

Definition O_RDONLY : Z := 0x000.
Definition O_WRONLY : Z := 0x001.
Definition O_RDWR : Z := 0x002.
Definition O_CREATE : Z := 0x200.
Definition O_TRUNC : Z := 0x400.
