(* ===== verification/Spinlock.v ===== *)
(** Spin locks ([kernel/spinlock.c]).

    Every CPU runs [acquire] and [release] one shared-memory access at a time,
    and the CPUs interleave arbitrarily.  [push_off] and [pop_off] touch only
    the CPU's own state, so each is one step.  A CPU record also carries the
    set of locks whose [acquire] has returned and whose [release] has not yet
    given up ownership; no operation reads it, the theorems are stated
    with it.

    Shown: mutual exclusion; [holding] answers exactly whether this CPU
    holds the lock, so the panics of [acquire] and [release] are raised on
    misuse only; interrupts are off on a CPU from the start of [acquire] to the
    end of the matching [release], whatever the nesting order, and come back
    to what they were before the outermost [acquire]. *)

From stdpp Require Import functions.
From S2P Require Import Prelude.

(** ** Data *)

Record cpu : Type := Cpu { noff : Z; intena : bool; sie : bool }.

Record spinlock : Type :=
  Spinlock { locked : Z; name : string; lk_cpu : option Z }.

Definition initlock (nm : string) : spinlock :=
  {| locked := 0; name := nm; lk_cpu := None |}.

Definition NCPU : Z := 8.

(** ** Interrupt nesting *)

Definition push_off : M cpu unit := fun c =>
  let old := sie c in
  Ok tt {| noff := noff c + 1;
           intena := if noff c =? 0 then old else intena c;
           sie := false |}.

Definition pop_off : M cpu unit := fun c =>
  if sie c then Panic "pop_off - interruptible"
  else if noff c <? 1 then Panic "pop_off"
  else
    let n := noff c - 1 in
    Ok tt {| noff := n; intena := intena c;
             sie := if (n =? 0) && intena c then true else sie c |}.

(** ** Lock operations

    The program counter names the next shared-memory access.  [AcqLocked] and
    [AcqCpu] are the two reads of [holding] inside [acquire], [RelLocked] and
    [RelCpu] those inside [release]. *)

Inductive lock_pc : Type :=
| Run
| AcqLocked (l : Z)
| AcqCpu (l : Z)
| AcqSwap (l : Z)
| AcqOwner (l : Z)
| RelLocked (l : Z)
| RelCpu (l : Z)
| RelClear (l : Z)
| RelUnlock (l : Z)
| RelPop
| Panicked (msg : string).

Record thread : Type := Thread { t_cpu : cpu; t_pc : lock_pc; held : gset Z }.

Record machine : Type :=
  Machine { locks : Z -> spinlock; threads : Z -> thread }.

Definition upd_thread (m : machine) (me : Z) (t : thread) : machine :=
  {| locks := locks m; threads := <[me := t]> (threads m) |}.

Definition upd_lock (m : machine) (l : Z) (k : spinlock) : machine :=
  {| locks := <[l := k]> (locks m); threads := threads m |}.

Definition set_pc (t : thread) (p : lock_pc) : thread :=
  {| t_cpu := t_cpu t; t_pc := p; held := held t |}.

Definition set_cpu (l : spinlock) (o : option Z) : spinlock :=
  {| locked := locked l; name := name l; lk_cpu := o |}.

Definition set_locked (l : spinlock) (v : Z) : spinlock :=
  {| locked := v; name := name l; lk_cpu := lk_cpu l |}.

(** [acquire] begins with [push_off]; [release] with the test of [holding]. *)
Definition acquire (m : machine) (me l : Z) : option machine :=
  let t := threads m me in
  match t_pc t, push_off (t_cpu t) with
  | Run, Ok _ c =>
      Some (upd_thread m me {| t_cpu := c; t_pc := AcqLocked l; held := held t |})
  | _, _ => None
  end.

Definition release (m : machine) (me l : Z) : option machine :=
  let t := threads m me in
  match t_pc t with
  | Run => Some (upd_thread m me (set_pc t (RelLocked l)))
  | _ => None
  end.

(** One shared-memory access of the operation CPU [me] is executing. *)
Definition spin_step (m : machine) (me : Z) : option machine :=
  let t := threads m me in
  let goto p := Some (upd_thread m me (set_pc t p)) in
  match t_pc t with
  | Run | Panicked _ => None
  | AcqLocked l =>
      goto (if locked (locks m l) =? 0 then AcqSwap l else AcqCpu l)
  | AcqCpu l =>
      goto (if decide (lk_cpu (locks m l) = Some me)
            then Panicked "acquire" else AcqSwap l)
  | AcqSwap l =>
      let old := locked (locks m l) in
      let m' := upd_lock m l (set_locked (locks m l) 1) in
      Some (upd_thread m' me (set_pc t (if old =? 0 then AcqOwner l else AcqSwap l)))
  | AcqOwner l =>
      let m' := upd_lock m l (set_cpu (locks m l) (Some me)) in
      Some (upd_thread m' me
        {| t_cpu := t_cpu t; t_pc := Run; held := {[l]} ∪ held t |})
  | RelLocked l =>
      goto (if locked (locks m l) =? 0 then Panicked "release" else RelCpu l)
  | RelCpu l =>
      goto (if decide (lk_cpu (locks m l) = Some me)
            then RelClear l else Panicked "release")
  | RelClear l =>
      let m' := upd_lock m l (set_cpu (locks m l) None) in
      Some (upd_thread m' me
        {| t_cpu := t_cpu t; t_pc := RelUnlock l; held := held t ∖ {[l]} |})
  | RelUnlock l =>
      let m' := upd_lock m l (set_locked (locks m l) 0) in
      Some (upd_thread m' me (set_pc t RelPop))
  | RelPop =>
      match pop_off (t_cpu t) with
      | Ok _ c => Some (upd_thread m me {| t_cpu := c; t_pc := Run; held := held t |})
      | Panic msg => goto (Panicked msg)
      | Sleep _ _ => None
      end
  end.

Inductive step (m : machine) : machine -> Prop :=
| step_acquire me l m' :
    0 <= me < NCPU -> acquire m me l = Some m' -> step m m'
| step_release me l m' :
    0 <= me < NCPU -> release m me l = Some m' -> step m m'
| step_run me m' :
    0 <= me < NCPU -> spin_step m me = Some m' -> step m m'.

(** [holding] as CPU [me] evaluates it. *)
Definition holding (m : machine) (me l : Z) : bool :=
  negb (locked (locks m l) =? 0) && bool_decide (lk_cpu (locks m l) = Some me).

(** A schedule names the CPU that moves next and what it does. *)
Inductive action : Type :=
| DoAcquire (me l : Z)
| DoRelease (me l : Z)
| DoStep (me : Z).

Definition act (m : machine) (a : action) : option machine :=
  match a with
  | DoAcquire me l => acquire m me l
  | DoRelease me l => release m me l
  | DoStep me => spin_step m me
  end.

Fixpoint run_schedule (m : machine) (sched : list action) : option machine :=
  match sched with
  | [] => Some m
  | a :: rest =>
      match act m a with Some m' => run_schedule m' rest | None => None end
  end.

(** All CPUs between lock calls with interrupts on, all locks free. *)
Definition cpu_on : cpu := {| noff := 0; intena := false; sie := true |}.

Definition boot_machine : machine :=
  {| locks := fun _ => initlock "lock";
     threads := fun _ => {| t_cpu := cpu_on; t_pc := Run; held := ∅ |} |}.

(** ** Invariant *)

Definition t_owns (t : thread) (l : Z) : Prop :=
  l ∈ held t \/ t_pc t = AcqOwner l \/ t_pc t = RelUnlock l.

Definition owns (m : machine) (c l : Z) : Prop := t_owns (threads m c) l.

(** Locks whose [push_off] is in effect though they are not in [held]. *)
Definition pending (p : lock_pc) : Z :=
  match p with
  | AcqLocked _ | AcqCpu _ | AcqSwap _ | AcqOwner _ | RelUnlock _ | RelPop => 1
  | Panicked msg => if String.eqb msg "acquire" then 1 else 0
  | _ => 0
  end.

Definition depth (t : thread) : Z := Z.of_nat (size (held t)) + pending (t_pc t).

(** A CPU that was started with [noff] and interrupt flag of [c0]. *)
Definition cpu_ok (c0 : cpu) (t : thread) : Prop :=
  noff (t_cpu t) = noff c0 + depth t /\
  (0 < noff (t_cpu t) -> sie (t_cpu t) = false) /\
  (noff c0 = 0 -> noff (t_cpu t) = 0 -> sie (t_cpu t) = sie c0) /\
  (noff c0 = 0 -> 0 < noff (t_cpu t) -> intena (t_cpu t) = sie c0).

(** What a CPU's program counter asserts: the lock whose ownership field is
    about to change hands, and the reason of a panic. *)
Definition pc_ok (t : thread) : Prop :=
  match t_pc t with
  | AcqOwner l | RelUnlock l => l ∉ held t
  | RelClear l => l ∈ held t
  | AcqSwap l => l ∉ held t
  | Panicked msg => msg = "acquire" \/ msg = "release"
  | _ => True
  end.

Record inv (c0 : Z -> cpu) (m : machine) : Prop := {
  inv_own : forall c l, owns m c l -> locked (locks m l) = 1;
  inv_unique : forall c d l, owns m c l -> owns m d l -> c = d;
  inv_owner : forall l, locked (locks m l) <> 0 -> exists c, owns m c l;
  inv_field : forall c l, lk_cpu (locks m l) = Some c <-> l ∈ held (threads m c);
  inv_cpu : forall c, cpu_ok (c0 c) (threads m c);
  inv_pc : forall c, pc_ok (threads m c)
}.

(** The machine before any lock is taken: all locks initialised, every CPU
    between lock calls with some [noff] and interrupt flag. *)
Record boot (c0 : Z -> cpu) (m : machine) : Prop := {
  boot_lock : forall l, locks m l = initlock (name (locks m l));
  boot_thread : forall c, threads m c = {| t_cpu := c0 c; t_pc := Run; held := ∅ |};
  boot_noff : forall c, 0 <= noff (c0 c);
  boot_sie : forall c, 0 < noff (c0 c) -> sie (c0 c) = false
}.

(** ** Preservation *)

Section Preservation.
Context (c0 : Z -> cpu).
Context (c0_noff : forall c, 0 <= noff (c0 c)).
Context (c0_sie : forall c, 0 < noff (c0 c) -> sie (c0 c) = false).
Implicit Types (m : machine) (t : thread).

Lemma threads_upd m me t : threads (upd_thread m me t) me = t.
Proof. apply fn_lookup_insert. Qed.

Lemma threads_upd_ne m me t c : c <> me -> threads (upd_thread m me t) c = threads m c.
Proof. intros. by apply fn_lookup_insert_ne. Qed.

Lemma locks_upd m l k : locks (upd_lock m l k) l = k.
Proof. apply fn_lookup_insert. Qed.

Lemma locks_upd_ne m l k l' : l' <> l -> locks (upd_lock m l k) l' = locks m l'.
Proof. intros. by apply fn_lookup_insert_ne. Qed.

(** A step that leaves the locks and the ownership of its CPU as they were. *)
Lemma inv_goto m me t' :
  inv c0 m ->
  (forall l, t_owns t' l <-> t_owns (threads m me) l) ->
  held t' = held (threads m me) ->
  cpu_ok (c0 me) t' -> pc_ok t' ->
  inv c0 (upd_thread m me t').
Proof.
  intros [Hown Huni Hex Hfld Hcpu Hpc] Ho Hh Hc Hp.
  assert (Hsame : forall c l, owns (upd_thread m me t') c l <-> owns m c l).
  { intros c l. unfold owns. destruct (decide (c = me)) as [->|?].
    - by rewrite threads_upd.
    - by rewrite threads_upd_ne. }
  split.
  - intros c l ?%Hsame. by apply (Hown c).
  - intros c d l ?%Hsame ?%Hsame. by apply (Huni c d l).
  - intros l [c ?]%Hex. exists c. by apply Hsame.
  - intros c l. cbn [locks upd_thread]. rewrite Hfld.
    destruct (decide (c = me)) as [->|?].
    + by rewrite threads_upd, Hh.
    + by rewrite threads_upd_ne.
  - intros c. destruct (decide (c = me)) as [->|?].
    + by rewrite threads_upd.
    + by rewrite threads_upd_ne.
  - intros c. destruct (decide (c = me)) as [->|?].
    + by rewrite threads_upd.
    + by rewrite threads_upd_ne.
Qed.

(** A step that changes lock [l] and the CPU that works on it. *)
Lemma inv_set m me t' l k' :
  inv c0 m ->
  (forall l', l' <> l -> t_owns t' l' <-> t_owns (threads m me) l') ->
  (forall l', l' <> l -> l' ∈ held t' <-> l' ∈ held (threads m me)) ->
  (t_owns t' l -> forall c, c <> me -> ~ owns m c l) ->
  (locked k' = 1 <-> t_owns t' l \/ exists c, c <> me /\ owns m c l) ->
  (locked k' = 0 \/ locked k' = 1) ->
  (lk_cpu k' = Some me <-> l ∈ held t') ->
  (forall c, c <> me -> lk_cpu k' = Some c <-> lk_cpu (locks m l) = Some c) ->
  cpu_ok (c0 me) t' -> pc_ok t' ->
  inv c0 (upd_thread (upd_lock m l k') me t').
Proof.
  intros [Hown Huni Hex Hfld Hcpu Hpc] Ho Hh Hexcl Hlk Hbit Hme Hoth Hc Hp.
  set (m' := upd_thread _ _ _).
  assert (Hmine : forall l', owns m' me l' <-> t_owns t' l').
  { intros l'. unfold owns, m'. by rewrite threads_upd. }
  assert (Hothers : forall c l', c <> me -> owns m' c l' <-> owns m c l').
  { intros c l' ?. unfold owns, m'. by rewrite threads_upd_ne. }
  assert (Hlocks : forall l', l' <> l -> locks m' l' = locks m l').
  { intros l' ?. by apply (locks_upd_ne m l k'). }
  assert (Hl : locks m' l = k') by apply (locks_upd m l k').
  assert (Hother_l : forall c l', l' <> l -> owns m' c l' <-> owns m c l').
  { intros c l' ?. destruct (decide (c = me)) as [->|?]; [|by apply Hothers].
    rewrite Hmine. by apply Ho. }
  split.
  - intros c l' Hcl. destruct (decide (l' = l)) as [->|?].
    + rewrite Hl. apply Hlk. destruct (decide (c = me)) as [->|?].
      * left. by apply Hmine.
      * right. exists c. split; [done|]. by apply Hothers.
    + rewrite Hlocks by done. apply (Hown c). by apply Hother_l.
  - intros c d l' Hcl Hdl. destruct (decide (l' = l)) as [->|?].
    + destruct (decide (c = me)) as [->|?], (decide (d = me)) as [->|?]; [done| | |].
      * exfalso. apply Hmine in Hcl. apply (Hexcl Hcl d); [done|]. by apply Hothers.
      * exfalso. apply Hmine in Hdl. apply (Hexcl Hdl c); [done|]. by apply Hothers.
      * apply (Huni c d l); by apply Hothers.
    + apply (Huni c d l'); by apply Hother_l.
  - intros l' Hl'. destruct (decide (l' = l)) as [->|?].
    + rewrite Hl in Hl'. destruct Hbit as [?|Hb]; [done|].
      apply Hlk in Hb as [?|[c [??]]].
      * exists me. by apply Hmine.
      * exists c. by apply Hothers.
    + rewrite Hlocks in Hl' by done. destruct (Hex l' Hl') as [c ?].
      exists c. by apply Hother_l.
  - intros c l'. destruct (decide (l' = l)) as [->|?].
    + rewrite Hl. unfold m'. destruct (decide (c = me)) as [->|?].
      * by rewrite threads_upd.
      * rewrite threads_upd_ne by done. rewrite Hoth by done. apply Hfld.
    + rewrite Hlocks by done. rewrite Hfld. unfold m'.
      destruct (decide (c = me)) as [->|?].
      * rewrite threads_upd. symmetry. by apply Hh.
      * by rewrite threads_upd_ne.
  - intros c. unfold m'. destruct (decide (c = me)) as [->|?].
    + by rewrite threads_upd.
    + rewrite threads_upd_ne by done. apply Hcpu.
  - intros c. unfold m'. destruct (decide (c = me)) as [->|?].
    + by rewrite threads_upd.
    + rewrite threads_upd_ne by done. apply Hpc.
Qed.

(** [owns] of a CPU whose program counter is known. *)
Lemma t_owns_pc t p l :
  t_pc t = p -> t_owns t l <-> l ∈ held t \/ p = AcqOwner l \/ p = RelUnlock l.
Proof. intros <-. done. Qed.

Lemma not_owned m l : inv c0 m -> locked (locks m l) = 0 -> forall c, ~ owns m c l.
Proof. intros Hi H0 c Hc. apply (inv_own _ _ Hi) in Hc. lia. Qed.

Lemma locked_bit m l : inv c0 m -> locked (locks m l) = 0 \/ locked (locks m l) = 1.
Proof.
  intros Hi. destruct (decide (locked (locks m l) = 0)) as [?|Hn]; [by left|].
  right. destruct (inv_owner _ _ Hi l Hn) as [c Hc]. by apply (inv_own _ _ Hi c).
Qed.

Lemma cpu_ok_pc me t p :
  cpu_ok (c0 me) t -> pending p = pending (t_pc t) -> cpu_ok (c0 me) (set_pc t p).
Proof. unfold cpu_ok, depth. cbn. by intros ? ->. Qed.

Lemma push_off_ok me t l :
  cpu_ok (c0 me) t -> t_pc t = Run ->
  exists c, push_off (t_cpu t) = Ok tt c /\
    cpu_ok (c0 me) {| t_cpu := c; t_pc := AcqLocked l; held := held t |}.
Proof.
  intros (Hn & Hs & Hz & Hi) Hr. eexists. split; [reflexivity|].
  pose proof (c0_noff me). unfold cpu_ok, depth in *. rewrite Hr in Hn. cbn in *.
  split_and!; [lia|done|lia|]. intros H0 _.
  destruct (Z.eqb_spec (noff (t_cpu t)) 0); [by apply Hz|apply Hi; lia].
Qed.

Lemma pop_off_ok me t :
  cpu_ok (c0 me) t -> t_pc t = RelPop ->
  exists c, pop_off (t_cpu t) = Ok tt c /\
    cpu_ok (c0 me) {| t_cpu := c; t_pc := Run; held := held t |}.
Proof.
  intros (Hn & Hs & Hz & Hi) Hr. pose proof (c0_noff me) as H0.
  unfold cpu_ok, depth in *. rewrite Hr in Hn. cbn in Hn.
  assert (Hsie : sie (t_cpu t) = false) by (apply Hs; lia).
  unfold pop_off. rewrite Hsie. destruct (Z.ltb_spec (noff (t_cpu t)) 1); [lia|].
  eexists. split; [reflexivity|]. cbn. split_and!; [lia| | |].
  - intros. destruct (Z.eqb_spec (noff (t_cpu t) - 1) 0); [lia|done].
  - intros ??. destruct (Z.eqb_spec (noff (t_cpu t) - 1) 0); [|lia].
    rewrite Hi by lia. by destruct (sie (c0 me)).
  - intros. apply Hi; lia.
Qed.

Lemma inv_acquire m me l m' :
  inv c0 m -> acquire m me l = Some m' -> inv c0 m'.
Proof.
  intros Hi Ha. unfold acquire in Ha.
  destruct (t_pc (threads m me)) eqn:Hpc; try done.
  destruct (push_off_ok me _ l (inv_cpu _ _ Hi me) Hpc) as (c & Hp & Hc).
  rewrite Hp in Ha. injection Ha as <-.
  apply inv_goto; [done| |done|done|exact I].
  intros l'. rewrite (t_owns_pc _ _ _ Hpc). unfold t_owns. naive_solver.
Qed.

(** A step that only moves the program counter between points where no lock
    is half taken. *)
Lemma inv_move m me p q :
  inv c0 m -> t_pc (threads m me) = p ->
  (forall l, p <> AcqOwner l /\ p <> RelUnlock l) ->
  (forall l, q <> AcqOwner l /\ q <> RelUnlock l) ->
  pending q = pending p -> pc_ok (set_pc (threads m me) q) ->
  inv c0 (upd_thread m me (set_pc (threads m me) q)).
Proof.
  intros Hi Hp Hp' Hq Hpend Hok.
  apply inv_goto; [done| |done| |done].
  - intros l. rewrite (t_owns_pc _ _ _ Hp). unfold t_owns. cbn.
    specialize (Hp' l). specialize (Hq l). naive_solver.
  - apply cpu_ok_pc; [apply Hi|]. by rewrite Hp.
Qed.

Lemma inv_release m me l m' :
  inv c0 m -> release m me l = Some m' -> inv c0 m'.
Proof.
  intros Hi Ha. unfold release in Ha.
  destruct (t_pc (threads m me)) eqn:Hpc; try done.
  injection Ha as <-. by eapply inv_move.
Qed.

Lemma inv_swap m me l :
  inv c0 m -> t_pc (threads m me) = AcqSwap l ->
  inv c0 (upd_thread (upd_lock m l (set_locked (locks m l) 1)) me
    (set_pc (threads m me)
       (if locked (locks m l) =? 0 then AcqOwner l else AcqSwap l))).
Proof.
  intros Hi Hpc. pose proof (inv_pc _ _ Hi me) as Hnot. unfold pc_ok in Hnot.
  rewrite Hpc in Hnot.
  apply inv_set; [done| | | | | | | | |]; cbn.
  - intros l' ?. rewrite (t_owns_pc _ _ _ Hpc). unfold t_owns. cbn.
    destruct (_ =? _); naive_solver.
  - done.
  - intros Ho c Hne. destruct (Z.eqb_spec (locked (locks m l)) 0) as [H0|H0].
    + by apply not_owned.
    + unfold t_owns in Ho. cbn in Ho. naive_solver.
  - split; [intros _|done].
    destruct (Z.eqb_spec (locked (locks m l)) 0) as [H0|H0].
    + left. unfold t_owns. cbn. auto.
    + right. destruct (inv_owner _ _ Hi l H0) as [c Hc]. exists c.
      split; [|done]. intros ->. unfold owns in Hc.
      apply (t_owns_pc _ _ _ Hpc) in Hc. naive_solver.
  - by right.
  - apply (inv_field _ _ Hi).
  - done.
  - apply cpu_ok_pc; [apply Hi|]. rewrite Hpc. by destruct (_ =? _).
  - unfold pc_ok. cbn. by destruct (_ =? _).
Qed.

Lemma inv_owner_set m me l :
  inv c0 m -> t_pc (threads m me) = AcqOwner l ->
  inv c0 (upd_thread (upd_lock m l (set_cpu (locks m l) (Some me))) me
    {| t_cpu := t_cpu (threads m me); t_pc := Run;
       held := {[l]} ∪ held (threads m me) |}).
Proof.
  intros Hi Hpc. pose proof (inv_pc _ _ Hi me) as Hnot. unfold pc_ok in Hnot.
  rewrite Hpc in Hnot.
  assert (Hme : owns m me l) by (apply (t_owns_pc _ _ _ Hpc); auto).
  assert (Hno : forall c, c <> me -> ~ owns m c l).
  { intros c Hne Hc. by apply Hne, (inv_unique _ _ Hi c me l). }
  apply inv_set; [done| | | | | | | | |]; cbn.
  - intros l' ?. rewrite (t_owns_pc _ _ _ Hpc). unfold t_owns. cbn. set_solver.
  - set_solver.
  - done.
  - rewrite (inv_own _ _ Hi me l Hme). split; [|done]. intros _. left. left. set_solver.
  - by apply locked_bit.
  - set_solver.
  - intros c Hne. split; [congruence|]. intros Hf%(inv_field _ _ Hi).
    exfalso. apply (Hno c Hne). by left.
  - destruct (inv_cpu _ _ Hi me) as (Hn & Hs). unfold cpu_ok, depth in *. cbn.
    rewrite Hpc in Hn. cbn in Hn. split; [|done].
    rewrite size_union, size_singleton by set_solver. lia.
  - exact I.
Qed.

Lemma inv_clear m me l :
  inv c0 m -> t_pc (threads m me) = RelClear l ->
  inv c0 (upd_thread (upd_lock m l (set_cpu (locks m l) None)) me
    {| t_cpu := t_cpu (threads m me); t_pc := RelUnlock l;
       held := held (threads m me) ∖ {[l]} |}).
Proof.
  intros Hi Hpc. pose proof (inv_pc _ _ Hi me) as Hin. unfold pc_ok in Hin.
  rewrite Hpc in Hin. assert (Hme : owns m me l) by (by left).
  assert (Hno : forall c, c <> me -> ~ owns m c l).
  { intros c Hne Hc. by apply Hne, (inv_unique _ _ Hi c me l). }
  apply inv_set; [done| | | | | | | | |]; cbn.
  - intros l' ?. rewrite (t_owns_pc _ _ _ Hpc). unfold t_owns. cbn. set_solver.
  - set_solver.
  - done.
  - rewrite (inv_own _ _ Hi me l Hme). split; [|done]. intros _. left.
    unfold t_owns. cbn. auto.
  - by apply locked_bit.
  - set_solver.
  - intros c Hne. split; [done|]. intros Hf%(inv_field _ _ Hi).
    exfalso. apply (Hno c Hne). by left.
  - destruct (inv_cpu _ _ Hi me) as (Hn & Hs). unfold cpu_ok, depth in *. cbn.
    rewrite Hpc in Hn. cbn in Hn. split; [|done].
    pose proof (size_union_alt {[l]} (held (threads m me))) as Hu.
    rewrite size_singleton, (subseteq_union_1_L {[l]} (held (threads m me))) in Hu
      by set_solver. lia.
  - unfold pc_ok. cbn. set_solver.
Qed.

Lemma inv_unlock m me l :
  inv c0 m -> t_pc (threads m me) = RelUnlock l ->
  inv c0 (upd_thread (upd_lock m l (set_locked (locks m l) 0)) me
    (set_pc (threads m me) RelPop)).
Proof.
  intros Hi Hpc. pose proof (inv_pc _ _ Hi me) as Hnot. unfold pc_ok in Hnot.
  rewrite Hpc in Hnot.
  assert (Hme : owns m me l) by (apply (t_owns_pc _ _ _ Hpc); auto).
  assert (Hno : forall c, c <> me -> ~ owns m c l).
  { intros c Hne Hc. by apply Hne, (inv_unique _ _ Hi c me l). }
  apply inv_set; [done| | | | | | | | |]; cbn.
  - intros l' ?. rewrite (t_owns_pc _ _ _ Hpc). unfold t_owns. cbn. naive_solver.
  - done.
  - done.
  - split; [done|]. intros [Ho|[c [Hne Hc]]]; [|by destruct (Hno c)].
    unfold t_owns in Ho. cbn in Ho. naive_solver.
  - by left.
  - apply (inv_field _ _ Hi).
  - done.
  - apply cpu_ok_pc; [apply Hi|]. by rewrite Hpc.
  - exact I.
Qed.

Lemma inv_spin_step m me m' : inv c0 m -> spin_step m me = Some m' -> inv c0 m'.
Proof.
  intros Hi Hs. unfold spin_step in Hs.
  destruct (t_pc (threads m me)) as [|l|l|l|l|l|l|l|l| |msg] eqn:Hpc;
    [done| | | | | | | | | |done];
    try (injection Hs as <-); eauto using inv_swap, inv_owner_set, inv_clear, inv_unlock.
  - destruct (Z.eqb_spec (locked (locks m l)) 0); eapply inv_move; try done.
    intros Hin. apply (not_owned m l Hi) with me; [done|by left].
  - case_decide as Hd; eapply inv_move; try done; [by left|].
    intros Hin. by apply Hd, (inv_field _ _ Hi).
  - destruct (Z.eqb_spec (locked (locks m l)) 0); eapply inv_move; try done. by right.
  - case_decide as Hd; eapply inv_move; try done; [|by right].
    by apply (inv_field _ _ Hi).
  - destruct (pop_off_ok me _ (inv_cpu _ _ Hi me) Hpc) as (c & Hp & Hc).
    rewrite Hp in Hs. injection Hs as <-.
    apply inv_goto; [done| |done|done|exact I].
    intros l'. rewrite (t_owns_pc _ _ _ Hpc). unfold t_owns. naive_solver.
Qed.

Lemma spin_inv_step m m' : inv c0 m -> step m m' -> inv c0 m'.
Proof. intros ? []; eauto using inv_acquire, inv_release, inv_spin_step. Qed.
End Preservation.

Lemma inv_boot c0 m : boot c0 m -> inv c0 m.
Proof.
  intros [Hl Ht Hn Hs].
  assert (Hno : forall c l, ~ owns m c l).
  { intros c l. unfold owns, t_owns. rewrite Ht. cbn. set_solver. }
  split.
  - intros c l []%Hno.
  - intros c d l []%Hno.
  - intros l Hl'. by rewrite Hl in Hl'.
  - intros c l. rewrite Hl, Ht. cbn. set_solver.
  - intros c. rewrite Ht. unfold cpu_ok, depth. cbn. rewrite size_empty.
    pose proof (Hn c). split_and!; [lia|auto|done|lia].
  - intros c. by rewrite Ht.
Qed.

Lemma inv_reach c0 m0 m : boot c0 m0 -> reach step m0 m -> inv c0 m.
Proof.
  intros Hb. apply (reach_inv step (inv c0)).
  - by apply inv_boot.
  - intros ??. apply spin_inv_step; apply Hb.
Qed.

Definition act_cpu (a : action) : Z :=
  match a with DoAcquire me _ | DoRelease me _ | DoStep me => me end.

Lemma spin_schedule_reach sched m m' :
  Forall (fun a => 0 <= act_cpu a < NCPU) sched ->
  run_schedule m sched = Some m' -> reach step m m'.
Proof.
  revert m. induction sched as [|a sched IH]; intros m Hok Hr; cbn in Hr.
  - injection Hr as <-. apply reach_refl.
  - destruct (act m a) as [m1|] eqn:Ha; [|done].
    apply Forall_cons_1 in Hok as [Ha' Hok].
    apply reach_trans with m1; [|by apply IH].
    apply reach_step with m; [apply reach_refl|].
    destruct a; [eapply step_acquire|eapply step_release|eapply step_run]; eauto.
Qed.

Lemma boot_machine_boot : boot (fun _ => cpu_on) boot_machine.
Proof. split; [done|done|done|]. cbn. lia. Qed.

(** CPU 1 takes locks 4 and 7 and gives back lock 4 while CPU 2 spins on it. *)
Definition demo_schedule : list action :=
  [DoAcquire 1 4; DoStep 1; DoStep 1; DoStep 1;
   DoAcquire 1 7; DoStep 1; DoStep 1; DoStep 1;
   DoAcquire 2 4; DoStep 2; DoStep 2; DoStep 2;
   DoRelease 1 4; DoStep 1; DoStep 1; DoStep 1; DoStep 1; DoStep 1].

Definition demo_machine : machine :=
  match run_schedule boot_machine demo_schedule with
  | Some m => m
  | None => boot_machine
  end.

Lemma demo_reach : reach step boot_machine demo_machine.
Proof.
  apply (spin_schedule_reach demo_schedule).
  - apply (bool_decide_unpack _). vm_compute. exact I.
  - reflexivity.
Qed.

(** ** Theorems *)

(** C23. Spin locks exclude: in every interleaving of [acquire] and [release]
    on any number of locks, two CPUs that both hold a lock are the same
    CPU, and a CPU that holds it finds [locked] set. *)
Theorem spinlock_mutual_exclusion c0 m0 m c d l :
  boot c0 m0 -> reach step m0 m ->
  l ∈ held (threads m c) -> l ∈ held (threads m d) ->
  c = d /\ locked (locks m l) = 1.
Proof.
  intros Hb Hr Hc Hd. pose proof (inv_reach _ _ _ Hb Hr) as Hi. split.
  - apply (inv_unique _ _ Hi c d l); by left.
  - apply (inv_own _ _ Hi c). by left.
Qed.

Lemma spinlock_mutual_exclusion_witness :
  7 ∈ held (threads demo_machine 1) /\ locked (locks demo_machine 7) = 1.
Proof.
  assert (H : 7 ∈ held (threads demo_machine 1)) by (by apply (bool_decide_unpack _); vm_compute).
  split; [done|].
  exact (proj2 (spinlock_mutual_exclusion (fun _ => cpu_on) boot_machine
    demo_machine 1 1 7 boot_machine_boot demo_reach H H)).
Defined.

(** [holding] is exact: a CPU evaluating it gets true if and only if it
    holds the lock.  A CPU therefore stops with a panic only on misuse, and
    then only with the message of [acquire] or [release], never with one of
    [pop_off]. *)
Theorem holding_exact c0 m0 m c l :
  boot c0 m0 -> reach step m0 m ->
  (holding m c l = true <-> l ∈ held (threads m c)) /\
  (forall msg, t_pc (threads m c) = Panicked msg -> msg = "acquire" \/ msg = "release").
Proof.
  intros Hb Hr. pose proof (inv_reach _ _ _ Hb Hr) as Hi. split.
  - unfold holding. rewrite andb_true_iff, bool_decide_eq_true, (inv_field _ _ Hi).
    split; [by intros [_ ?]|]. intros Hc. split; [|done].
    by rewrite (inv_own _ _ Hi c l) by (by left).
  - intros msg Hp. pose proof (inv_pc _ _ Hi c) as Hok. unfold pc_ok in Hok.
    by rewrite Hp in Hok.
Qed.

Lemma holding_exact_witness :
  holding demo_machine 1 7 = true /\ 7 ∈ held (threads demo_machine 1).
Proof.
  split; [reflexivity|].
  apply (holding_exact (fun _ => cpu_on) boot_machine demo_machine 1 7
    boot_machine_boot demo_reach). reflexivity.
Defined.

(** [push_off]/[pop_off] nesting: on a CPU whose counter started at 0,
    interrupts are off as long as it holds a lock or is inside [acquire],
    in whatever order the locks are released, and once it holds none and runs
    outside the lock code the counter is 0 and the interrupt flag is the
    one it started with. *)
Theorem interrupts_nest c0 m0 m c :
  boot c0 m0 -> reach step m0 m -> noff (c0 c) = 0 ->
  (0 < depth (threads m c) -> sie (t_cpu (threads m c)) = false) /\
  (held (threads m c) = ∅ -> t_pc (threads m c) = Run ->
     noff (t_cpu (threads m c)) = 0 /\ sie (t_cpu (threads m c)) = sie (c0 c)).
Proof.
  intros Hb Hr H0. destruct (inv_cpu _ _ (inv_reach _ _ _ Hb Hr) c) as (Hn & Hs & Hz & _).
  split.
  - intros. apply Hs. lia.
  - intros Hh Hp. unfold depth in Hn. rewrite Hh, Hp, size_empty in Hn. cbn in Hn.
    split; [lia|]. apply Hz; lia.
Qed.

Lemma interrupts_nest_witness :
  depth (threads demo_machine 1) = 1 /\
  sie (t_cpu (threads demo_machine 1)) = false.
Proof.
  split; [reflexivity|].
  apply (interrupts_nest (fun _ => cpu_on) boot_machine demo_machine 1
    boot_machine_boot demo_reach); reflexivity.
Defined.
