(* ===== verification/Sleeplock.v ===== *)
(** Sleep locks ([kernel/sleeplock.c]).

    The inner spin lock makes each operation up to its [sleep] one step.
    Besides the lock word the system keeps the processes asleep on the lock
    and the processes whose [acquiresleep] has returned and that have not called
    [releasesleep].

    Shown: at most one process holds the lock, [holdingsleep] tells it, and a
    process sleeps only while another one holds the lock. *)

From S2P Require Import Prelude.

Record sleeplock : Type := Sleeplock { sl_locked : bool; sl_pid : Z }.

Definition initsleeplock : sleeplock := {| sl_locked := false; sl_pid := 0 |}.

(** [acquiresleep] by process [me]: it sleeps on the lock while it is taken. *)
Definition acquiresleep (me : Z) (c : chan) : M sleeplock unit := fun lk =>
  if sl_locked lk then Sleep c lk
  else Ok tt {| sl_locked := true; sl_pid := me |}.

(** [releasesleep] of the lock whose channel is [c]: it returns the channels it
    passes to [wakeup]. *)
Definition releasesleep (c : chan) : M sleeplock (list chan) := fun _ =>
  Ok [c] {| sl_locked := false; sl_pid := 0 |}.

Definition holdingsleep (me : Z) (lk : sleeplock) : bool :=
  sl_locked lk && (sl_pid lk =? me).

(** ** Processes sharing one lock *)

Record lsys : Type := Lsys { lk : sleeplock; waiting : gset Z; holders : gset Z }.

Definition lock_chan : chan := Chan "sleeplock" 0.

(** [wakeup] of the channels [woken]: the sleepers on the lock run again when
    its channel is one of them. *)
Definition wake_waiting (woken : list chan) (w : gset Z) : gset Z :=
  if decide (lock_chan ∈ woken) then ∅ else w.

Inductive lstep (s : lsys) : lsys -> Prop :=
| lstep_acquire me l' :
    me ∉ waiting s -> acquiresleep me lock_chan (lk s) = Ok tt l' ->
    lstep s {| lk := l'; waiting := waiting s; holders := {[me]} ∪ holders s |}
| lstep_sleep me c l' :
    me ∉ waiting s -> acquiresleep me lock_chan (lk s) = Sleep c l' ->
    lstep s {| lk := l'; waiting := {[me]} ∪ waiting s; holders := holders s |}
| lstep_release me woken l' :
    me ∈ holders s -> me ∉ waiting s -> releasesleep lock_chan (lk s) = Ok woken l' ->
    lstep s {| lk := l'; waiting := wake_waiting woken (waiting s); holders := holders s ∖ {[me]} |}.

Definition lsys_init : lsys := {| lk := initsleeplock; waiting := ∅; holders := ∅ |}.

Definition lock_inv (s : lsys) : Prop :=
  if sl_locked (lk s) then holders s = {[sl_pid (lk s)]}
  else holders s = ∅ /\ waiting s = ∅.

Lemma lock_inv_step s s' : lock_inv s -> lstep s s' -> lock_inv s'.
Proof.
  unfold lock_inv. intros Hi Hs. destruct Hs as [me l' Hw Ha|me c l' Hw Ha|me woken l' Hh Hw Ha];
    unfold acquiresleep, releasesleep in Ha; cbn.
  - destruct (sl_locked (lk s)); [done|]. injection Ha as <-. cbn.
    destruct Hi as [-> _]. set_solver.
  - destruct (sl_locked (lk s)) eqn:Hl; [|done]. simplify_eq. by rewrite Hl.
  - injection Ha as <- <-. cbn. split; [|unfold wake_waiting; by rewrite decide_True by set_solver].
    destruct (sl_locked (lk s)); [rewrite Hi in *|destruct Hi as [Hi _]]; set_solver.
Qed.

Lemma lock_inv_reach s : reach lstep lsys_init s -> lock_inv s.
Proof. apply reach_inv; [done|]. intros ??. apply lock_inv_step. Qed.

(** ** Theorems *)

(** C24. Sleep locks exclude and lose no wakeup: in every interleaving, two
    processes whose [acquiresleep] returned and that have not released are the
    same process, [holdingsleep] is true for exactly that process, and
    processes are asleep on the lock only while somebody holds it. *)
Theorem sleeplock_excludes s p q :
  reach lstep lsys_init s ->
  (p ∈ holders s -> q ∈ holders s -> p = q) /\
  (holdingsleep p (lk s) = true <-> p ∈ holders s) /\
  (waiting s <> ∅ -> holders s <> ∅).
Proof.
  intros Hi%lock_inv_reach. unfold lock_inv, holdingsleep in *.
  destruct (sl_locked (lk s)) eqn:Hl; cbn [andb].
  - rewrite Hi, Z.eqb_eq. split_and!; set_solver.
  - destruct Hi as [-> ->]. split_and!; set_solver.
Qed.

Lemma sleeplock_excludes_witness :
  5 ∈ holders {| lk := {| sl_locked := true; sl_pid := 5 |}; waiting := ∅;
                 holders := {[5]} ∪ ∅ |}.
Proof.
  apply (sleeplock_excludes {| lk := {| sl_locked := true; sl_pid := 5 |}; waiting := ∅;
                 holders := {[5]} ∪ ∅ |} 5 5).
  - eapply reach_step; [apply reach_refl|].
    exact (lstep_acquire lsys_init 5 _ (not_elem_of_empty 5) eq_refl).
  - reflexivity.
Defined.
