(* ===== verification/Peterson.v ===== *)
(** The Peterson locks of the kernel: [kernel/petersonlock.h] and
    [kernel/petersonlock.c].

    [peterson_locks] is a table of [MAX_PETERSON_LOCKS] locks.  Creation and
    destruction are sequential operations on it.  Acquire and release are
    modelled twice: as machines that perform one shared-memory access per
    step ([acquire_step], [release_step]), which is what other processes can
    interleave with, and as the runs of those machines with nothing
    interleaved ([petersonlock_acquire], [petersonlock_release]).  The fences
    of the source order every access, so the interleaving semantics is
    sequentially consistent. *)

From S2P Require Import Prelude.

(** ** Data *)

Definition MAX_PETERSON_LOCKS : Z := 15.

Record peterson_lock : Type := PLock {
  active : Z;
  flag : list Z;
  turn : Z
}.

#[export] Instance peterson_lock_eq_dec : EqDecision peterson_lock.
Proof. solve_decision. Defined.

Abbreviation table := (list peterson_lock).

(** The table is a zeroed C global: [flag] has two entries. *)
Definition zeroed_table : table :=
  replicate (Z.to_nat MAX_PETERSON_LOCKS) (PLock 0 [0; 0] 0).

Definition set_active (lk : peterson_lock) (v : Z) : peterson_lock :=
  PLock v (flag lk) (turn lk).
Definition set_turn (lk : peterson_lock) (v : Z) : peterson_lock :=
  PLock (active lk) (flag lk) v.
Definition set_flag (lk : peterson_lock) (i v : Z) : option peterson_lock :=
  f ← zset (flag lk) i v; Some (PLock (active lk) f (turn lk)).

(** ** Creation and destruction *)

Definition petersonlock_init (t : table) : table :=
  (fun lk => set_active lk 0) <$> t.

(** The loop of [petersonlock_create] from index [i]: the atomic
    test-and-set marks the entry active and tells whether it was free. *)
Fixpoint create_from (i : Z) (t : table) : Z * table :=
  match t with
  | [] => (-1, [])
  | lk :: rest =>
      if active lk =? 0 then (i, PLock 1 [0; 0] 0 :: rest)
      else
        let '(r, rest') := create_from (i + 1) rest in
        (r, set_active lk 1 :: rest')
  end.

Definition petersonlock_create (t : table) : Z * table := create_from 0 t.

(** The guard shared by acquire, release and destroy. *)
Definition bad_lock (t : table) (lock_id : Z) : bool :=
  (lock_id <? 0) || (MAX_PETERSON_LOCKS <=? lock_id) ||
  match zget t lock_id with
  | Some lk => active lk =? 0
  | None => true
  end.

Definition petersonlock_destroy (t : table) (lock_id : Z) : Z * table :=
  if bad_lock t lock_id then (-1, t)
  else match zget t lock_id with
       | Some lk => (0, <[Z.to_nat lock_id := set_active lk 0]> t)
       | None => (-1, t)
       end.

(** ** Acquire and release, one memory access per step *)

Inductive acquire_pc : Type :=
| ACheck
| ASetFlag
| ASetTurn
| AReadFlag
| AReadTurn
| AYield
| ADone (rv : Z).

Inductive release_pc : Type :=
| RCheck
| RClearFlag
| RDone (rv : Z).

Definition other (role : Z) : Z := i32 (1 - role).

(** [None]: the access is outside the lock structure, which the source does
    not prevent for a [role] other than 0 and 1, or the call has returned. *)
Definition acquire_step (t : table) (lock_id role : Z) (pc : acquire_pc)
  : option (table * acquire_pc) :=
  match pc with
  | ACheck =>
      Some (t, if bad_lock t lock_id then ADone (-1) else ASetFlag)
  | ASetFlag =>
      lk ← zget t lock_id; lk' ← set_flag lk role 1;
      t' ← zset t lock_id lk'; Some (t', ASetTurn)
  | ASetTurn =>
      lk ← zget t lock_id;
      t' ← zset t lock_id (set_turn lk (other role)); Some (t', AReadFlag)
  | AReadFlag =>
      lk ← zget t lock_id; f ← zget (flag lk) (other role);
      Some (t, if f =? 0 then ADone 0 else AReadTurn)
  | AReadTurn =>
      lk ← zget t lock_id;
      Some (t, if turn lk =? other role then AYield else ADone 0)
  | AYield => Some (t, AReadFlag)
  | ADone _ => None
  end.

Definition release_step (t : table) (lock_id role : Z) (pc : release_pc)
  : option (table * release_pc) :=
  match pc with
  | RCheck =>
      Some (t, if bad_lock t lock_id then RDone (-1) else RClearFlag)
  | RClearFlag =>
      lk ← zget t lock_id; lk' ← set_flag lk role 0;
      t' ← zset t lock_id lk'; Some (t', RDone 0)
  | RDone _ => None
  end.

(** ** Uninterrupted runs *)

Inductive run_result : Type :=
| Returns (rv : Z) (t : table)
| Yields (t : table)
| Undefined.

(** Run acquire from its entry until it returns or calls [yield()]; four
    accesses after the check reach one of the two. *)
Fixpoint run_acquire (n : nat) (t : table) (lock_id role : Z) (pc : acquire_pc)
  : run_result :=
  match pc, n with
  | ADone rv, _ => Returns rv t
  | AYield, _ => Yields t
  | _, O => Undefined
  | _, S n =>
      match acquire_step t lock_id role pc with
      | Some (t', pc') => run_acquire n t' lock_id role pc'
      | None => Undefined
      end
  end.

Definition petersonlock_acquire (t : table) (lock_id role : Z) : run_result :=
  run_acquire 5 t lock_id role ACheck.

Definition petersonlock_release (t : table) (lock_id role : Z) : run_result :=
  match release_step t lock_id role RCheck with
  | Some (t', RClearFlag) =>
      match release_step t' lock_id role RClearFlag with
      | Some (t'', RDone rv) => Returns rv t''
      | _ => Undefined
      end
  | Some (t', RDone rv) => Returns rv t'
  | _ => Undefined
  end.

(** ** Well-formed tables *)

Definition lock_ok (lk : peterson_lock) : Prop := length (flag lk) = 2%nat.

Definition table_ok (t : table) : Prop :=
  length t = Z.to_nat MAX_PETERSON_LOCKS /\ Forall lock_ok t.

Definition is_role (r : Z) : Prop := r = 0 \/ r = 1.

(** The lock numbers in use. *)
Definition is_active (t : table) (i : Z) : Prop :=
  exists lk, zget t i = Some lk /\ active lk <> 0.

Lemma zget_table_ok t i lk : table_ok t -> zget t i = Some lk -> lock_ok lk.
Proof.
  intros [_ Hall] [_ Hlk]%zget_Some. by eapply Forall_lookup_1 in Hall.
Qed.

Lemma other_role r : is_role r -> other r = 1 - r /\ is_role (other r).
Proof. intros [-> | ->]; cbv; auto. Qed.

Lemma other_ne r : is_role r -> other r <> r.
Proof. intros [-> | ->]; discriminate. Qed.

Lemma role_dichotomy r s : is_role r -> is_role s -> r = s \/ other r = s.
Proof. intros [-> | ->] [-> | ->]; cbv; auto. Qed.

Lemma zget_flag_ok lk r : lock_ok lk -> is_role r -> is_Some (zget (flag lk) r).
Proof. intros Hl Hr. apply zget_is_Some. rewrite Hl. destruct Hr; lia. Qed.

Lemma set_flag_ok lk r v :
  lock_ok lk -> is_role r ->
  exists lk', set_flag lk r v = Some lk' /\ lock_ok lk' /\
    active lk' = active lk /\ turn lk' = turn lk /\
    zget (flag lk') r = Some v /\
    (forall s, s <> r -> zget (flag lk') s = zget (flag lk) s).
Proof.
  intros Hl Hr.
  assert (0 <= r < Z.of_nat (length (flag lk))) as Hin
    by (rewrite Hl; destruct Hr; lia).
  unfold set_flag.
  rewrite zset_in by done. simpl.
  eexists; split; [done|]. unfold lock_ok; simpl.
  rewrite length_insert. repeat split; [done| |].
  - eapply zget_zset_eq, zset_in, Hin.
  - intros s Hs. eapply zget_zset_ne; [by apply zset_in|congruence].
Qed.

Lemma bad_lock_false t i :
  bad_lock t i = false <->
  0 <= i < MAX_PETERSON_LOCKS /\ is_active t i.
Proof.
  unfold bad_lock, is_active. split.
  - intros H. destruct (zget t i) as [lk|] eqn:E; zbool; [|done].
    split; [lia|]. eauto.
  - intros [Hi (lk & -> & Ha)].
    apply Z.eqb_neq in Ha. rewrite Ha. zcases; done || lia.
Qed.

Lemma table_ok_insert t (i : nat) lk :
  table_ok t -> lock_ok lk -> table_ok (<[i := lk]> t).
Proof.
  intros [Hlen Hall] Hlk. split; [by rewrite length_insert|].
  by apply Forall_insert.
Qed.

(** ** Creation and destruction: properties *)

Lemma create_from_spec (t : table) i :
  Forall (fun lk => active lk = 0 \/ active lk = 1) t ->
  (Forall (fun lk => active lk <> 0) t /\ create_from i t = (-1, t)) \/
  (exists k lk, t !! k = Some lk /\ active lk = 0 /\
     Forall (fun lk => active lk <> 0) (take k t) /\
     create_from i t = (i + Z.of_nat k, <[k := PLock 1 [0; 0] 0]> t)).
Proof.
  revert i. induction t as [|lk t IH]; intros i Hall; [by left|].
  apply Forall_cons_1 in Hall as [Hlk Hall]. simpl.
  destruct (Z.eqb_spec (active lk) 0) as [E|E].
  - right. exists 0%nat, lk. simpl.
    repeat split; [done|by constructor|]. by rewrite Z.add_0_r.
  - destruct Hlk as [?|Hlk]; [done|].
    assert (set_active lk 1 = lk) as -> by (destruct lk; simpl in *; by subst).
    destruct (IH (i + 1) Hall) as [[Hf ->]|(k & lk' & Hk & Ha & Hf & ->)].
    + left. split; [by constructor|done].
    + right. exists (S k), lk'. simpl.
      repeat split; [done|done|by constructor|]. f_equal. lia.
Qed.

Lemma create_from_full (t : table) i :
  Forall (fun lk => active lk <> 0) t -> (create_from i t).1 = -1.
Proof.
  revert i. induction t as [|lk t IH]; intros i Hall; [done|].
  apply Forall_cons_1 in Hall as [Hlk Hall]. simpl.
  rewrite (proj2 (Z.eqb_neq _ _) Hlk). specialize (IH (i + 1) Hall).
  by destruct (create_from (i + 1) t).
Qed.

(** [petersonlock_create] either finds every entry in use, returns -1 and
    leaves the table alone, or returns the lowest free lock number, and the
    only entry it changes is that one, which becomes active with both flags
    and the turn cleared. *)
Theorem create_lowest_free (t : table) :
  table_ok t -> Forall (fun lk => active lk = 0 \/ active lk = 1) t ->
  (petersonlock_create t = (-1, t) /\
     forall i, 0 <= i < MAX_PETERSON_LOCKS -> is_active t i) \/
  (exists r, petersonlock_create t
             = (r, <[Z.to_nat r := PLock 1 [0; 0] 0]> t) /\
     0 <= r < MAX_PETERSON_LOCKS /\ ~ is_active t r /\
     forall i, 0 <= i < r -> is_active t i).
Proof.
  intros [Hlen Hok] Hbin. unfold petersonlock_create.
  destruct (create_from_spec t 0 Hbin) as [[Hf ->]|(k & lk & Hk & Ha & Hf & ->)].
  - left. split; [done|]. intros i Hi.
    destruct (zget_is_Some t i) as [lk Hlk]; [rewrite Hlen; lia|].
    exists lk. split; [done|]. apply zget_Some in Hlk as [_ Hlk].
    by eapply Forall_lookup_1 in Hf.
  - right. exists (Z.of_nat k). rewrite Nat2Z.id. pose proof (lookup_lt_Some _ _ _ Hk).
    repeat split; [lia|unfold MAX_PETERSON_LOCKS in *; lia| |].
    + intros (lk' & [_ Hlk']%zget_Some & Hne). rewrite Nat2Z.id in Hlk'. congruence.
    + intros i Hi. destruct (zget_is_Some t i) as [lk' Hlk']; [lia|].
      exists lk'. split; [done|]. apply zget_Some in Hlk' as [_ Hlk'].
      eapply Forall_lookup_1 in Hf; [exact Hf|].
      rewrite lookup_take_lt; [exact Hlk'|lia].
Qed.

Lemma create_lowest_free_witness :
  exists r, petersonlock_create (petersonlock_init zeroed_table)
    = (r, <[Z.to_nat r := PLock 1 [0; 0] 0]> (petersonlock_init zeroed_table)) /\ r = 0.
Proof.
  destruct (create_lowest_free (petersonlock_init zeroed_table))
    as [[H _]|(r & H & _)].
  - split; [reflexivity|]. repeat constructor.
  - repeat constructor; by left.
  - vm_compute in H. discriminate H.
  - exists r. split; [exact H|]. vm_compute in H. congruence.
Defined.

(** Entry [i] of the table after acquire has written the flag of [role] and
    given the turn away. *)
Definition requested (t : table) (i role : Z) (t' : table) : Prop :=
  exists lk lk', zget t i = Some lk /\ t' = <[Z.to_nat i := lk']> t /\
    active lk' = active lk /\ turn lk' = other role /\ lock_ok lk' /\
    zget (flag lk') role = Some 1 /\
    zget (flag lk') (other role) = zget (flag lk) (other role).

(** An uninterrupted [petersonlock_acquire] refuses a bad lock number or
    an inactive lock with -1 and no effect; otherwise it raises the caller's
    flag and gives the turn away, and then returns 0 exactly when the other
    role's flag is down, and yields the processor when it is up. *)
Theorem acquire_uncontended (t : table) (lock_id role : Z) :
  table_ok t -> is_role role ->
  (bad_lock t lock_id = true /\
     petersonlock_acquire t lock_id role = Returns (-1) t) \/
  (bad_lock t lock_id = false /\
     exists t' lk f, requested t lock_id role t' /\
       zget t lock_id = Some lk /\ zget (flag lk) (other role) = Some f /\
       petersonlock_acquire t lock_id role =
         if f =? 0 then Returns 0 t' else Yields t').
Proof.
  intros Hok Hr. destruct (bad_lock t lock_id) eqn:Hb; [left|right].
  { split; [done|]. unfold petersonlock_acquire; simpl. by rewrite Hb. }
  split; [done|]. apply bad_lock_false in Hb as Hb'.
  destruct Hb' as [Hi (lk & Hlk & Ha)].
  pose proof (zget_table_ok _ _ _ Hok Hlk) as Hlok.
  destruct (set_flag_ok lk role 1 Hlok Hr)
    as (lk1 & Hset & Hlok1 & Ha1 & Ht1 & Hf1 & Hfo).
  destruct (other_role role Hr) as [_ Ho].
  destruct (zget_flag_ok lk (other role) Hlok Ho) as [f Hf].
  pose proof (proj1 (zget_Some _ _ _) Hlk) as [Hin _].
  set (t1 := <[Z.to_nat lock_id := lk1]> t).
  assert (Hz1 : zset t lock_id lk1 = Some t1) by by apply zset_in.
  assert (Hg1 : zget t1 lock_id = Some lk1) by eauto with kernel.
  pose proof (zset_length _ _ _ _ Hz1) as Hlen1.
  set (lk2 := set_turn lk1 (other role)).
  set (t2 := <[Z.to_nat lock_id := lk2]> t1).
  assert (Hz2 : zset t1 lock_id lk2 = Some t2) by (apply zset_in; lia).
  assert (Hg2 : zget t2 lock_id = Some lk2) by eauto with kernel.
  assert (Hfo2 : zget (flag lk2) (other role) = Some f)
    by (unfold lk2; simpl; rewrite Hfo by (by apply other_ne); done).
  exists t2, lk, f. repeat split; [|done|done|].
  - exists lk, lk2. repeat split; try done.
    + unfold t2, t1. apply list_insert_insert_eq.
    + unfold lk2; simpl. apply Hfo. by apply other_ne.
  - unfold petersonlock_acquire; simpl. rewrite Hb. simpl.
    rewrite Hlk. simpl. rewrite Hset. simpl. rewrite Hz1. simpl.
    rewrite Hg1. simpl. fold lk2. rewrite Hz2. simpl.
    rewrite Hg2. simpl. change (flag lk1) with (flag lk2). rewrite Hfo2. simpl.
    destruct (f =? 0); simpl; [done|]. rewrite Hg2. simpl.
    by rewrite Z.eqb_refl.
Qed.

Lemma acquire_uncontended_witness :
  let t := (petersonlock_create zeroed_table).2 in
  table_ok t /\ exists t', petersonlock_acquire t 0 1 = Returns 0 t'.
Proof.
  assert (Hok : table_ok (petersonlock_create zeroed_table).2)
    by (split; [reflexivity|vm_compute; repeat constructor]).
  split; [exact Hok|].
  destruct (acquire_uncontended (petersonlock_create zeroed_table).2 0 1 Hok)
    as [[Hb _]|(_ & t' & lk & f & _ & Hlk & Hf & H)].
  - by right.
  - discriminate Hb.
  - exists t'. vm_compute in Hlk. injection Hlk as <-.
    vm_compute in Hf. injection Hf as <-. exact H.
Defined.

(** The role argument is never validated: for an active lock and any role
    other than 0 and 1, acquire and release index [flag] out of its bounds,
    which the machine reports as undefined. *)
Theorem bad_role_undefined (t : table) (lock_id role : Z) :
  table_ok t -> bad_lock t lock_id = false -> ~ is_role role ->
  petersonlock_acquire t lock_id role = Undefined /\
  petersonlock_release t lock_id role = Undefined.
Proof.
  intros Hok Hb Hr. apply bad_lock_false in Hb as Hb'.
  destruct Hb' as [Hi (lk & Hlk & Ha)].
  pose proof (zget_table_ok _ _ _ Hok Hlk) as Hlok.
  assert (forall v, set_flag lk role v = None) as Hset.
  { intros v. unfold set_flag, zset. rewrite decide_False; [done|].
    rewrite Hlok. intros ?. apply Hr. unfold is_role. lia. }
  unfold petersonlock_acquire, petersonlock_release. simpl. rewrite Hb. simpl.
  rewrite Hlk. simpl. by rewrite !Hset.
Qed.

Lemma bad_role_undefined_witness :
  petersonlock_release (petersonlock_create zeroed_table).2 0 (-1) = Undefined.
Proof.
  apply (bad_role_undefined (petersonlock_create zeroed_table).2 0 (-1)).
  - split; [reflexivity|vm_compute; repeat constructor].
  - reflexivity.
  - intros [H|H]; discriminate H.
Defined.

(** Destroying a lock undoes its creation: on a table with a free entry,
    create followed by destroy of the returned number succeeds and leaves
    the same lock numbers in use; a second destroy is refused. *)
Theorem create_destroy_roundtrip (t : table) (r : Z) (t1 : table) :
  table_ok t -> Forall (fun lk => active lk = 0 \/ active lk = 1) t ->
  petersonlock_create t = (r, t1) -> r <> -1 ->
  exists t2, petersonlock_destroy t1 r = (0, t2) /\
    (forall i, is_active t2 i <-> is_active t i) /\
    petersonlock_destroy t2 r = (-1, t2).
Proof.
  intros [Hlen Hok] Hbin Hc Hr. unfold petersonlock_create in Hc.
  destruct (create_from_spec t 0 Hbin) as [[_ E]|(k & lk & Hk & Ha & _ & E)];
    rewrite E in Hc; injection Hc as <- <-; [done|].
  pose proof (lookup_lt_Some _ _ _ Hk) as Hlt.
  rewrite Z.add_0_l in *. set (n := PLock 1 [0; 0] 0).
  assert (Hg : forall v, zget (<[k:=v]> t) (Z.of_nat k) = Some v).
  { intros v. apply zget_Some. rewrite length_insert, Nat2Z.id.
    split; [lia|]. by apply list_lookup_insert_eq. }
  unfold petersonlock_destroy.
  assert (bad_lock (<[k:=n]> t) (Z.of_nat k) = false) as ->.
  { apply bad_lock_false. split; [unfold MAX_PETERSON_LOCKS in *; lia|].
    exists n. by rewrite Hg. }
  rewrite Hg, Nat2Z.id, list_insert_insert_eq.
  exists (<[k:=set_active n 0]> t). split; [done|]. split.
  - intros i. unfold is_active.
    destruct (decide (i = Z.of_nat k)) as [->|Hne].
    + rewrite Hg. unfold zget. rewrite decide_True, Nat2Z.id, Hk by lia. naive_solver.
    + assert (zget (<[k:=set_active n 0]> t) i = zget t i) as ->; [|done].
      eapply (zget_zset_ne t (Z.of_nat k) i (set_active n 0)); [|done].
      rewrite zset_in, Nat2Z.id by lia. done.
  - destruct (bad_lock (<[k:=set_active n 0]> t) (Z.of_nat k)) eqn:E'; [done|].
    apply bad_lock_false in E' as [_ (lk' & Hlk' & Hne)].
    rewrite Hg in Hlk'. by injection Hlk' as <-.
Qed.

Lemma create_destroy_roundtrip_witness :
  exists t2, petersonlock_destroy (petersonlock_create zeroed_table).2 0 = (0, t2).
Proof.
  destruct (create_destroy_roundtrip zeroed_table 0 (petersonlock_create zeroed_table).2)
    as (t2 & H & _).
  - split; [reflexivity|vm_compute; repeat constructor].
  - vm_compute; repeat constructor.
  - reflexivity.
  - discriminate.
  - exists t2. exact H.
Defined.

(** ** The fields of a table, and how one step changes them *)

Definition active_at (t : table) (n : Z) : option Z :=
  lk ← zget t n; Some (active lk).
Definition flag_at (t : table) (n r : Z) : option Z :=
  lk ← zget t n; zget (flag lk) r.
Definition turn_at (t : table) (n : Z) : option Z :=
  lk ← zget t n; Some (turn lk).

(** The table invariant of locks in use, at the level of fields. *)
Definition live (t : table) (n : Z) : Prop :=
  0 <= n < MAX_PETERSON_LOCKS /\ exists a, active_at t n = Some a /\ a <> 0.

Lemma live_bad_lock t n : live t n -> bad_lock t n = false.
Proof.
  intros [Hn (a & Ha & Hne)]. apply bad_lock_false. split; [done|].
  unfold active_at in Ha. destruct (zget t n) as [lk|] eqn:E; [|done].
  injection Ha as <-. by exists lk.
Qed.

Lemma live_fields t n r :
  table_ok t -> live t n -> is_role r ->
  exists f k, flag_at t n r = Some f /\ turn_at t n = Some k.
Proof.
  intros Hok [Hn (a & Ha & _)] Hr. unfold active_at, flag_at, turn_at in *.
  destruct (zget t n) as [lk|] eqn:E; [|done]. simpl.
  destruct (zget_flag_ok lk r) as [f ->]; eauto using zget_table_ok.
Qed.

(** Replacing entry [n] leaves the fields of other entries alone. *)
Lemma fields_zset t n lk t' :
  zset t n lk = Some t' ->
  (forall m, active_at t' m = if decide (m = n) then Some (active lk) else active_at t m) /\
  (forall m r, flag_at t' m r = if decide (m = n) then zget (flag lk) r else flag_at t m r) /\
  (forall m, turn_at t' m = if decide (m = n) then Some (turn lk) else turn_at t m).
Proof.
  intros Hz. unfold active_at, flag_at, turn_at.
  repeat split; intros m; try intros r; case_decide as Hm;
    (subst; rewrite (zget_zset_eq _ _ _ _ Hz); done) ||
    (rewrite (zget_zset_ne _ _ m _ _ Hz) by done; done).
Qed.

Lemma zset_table_ok t n lk t' :
  table_ok t -> lock_ok lk -> zset t n lk = Some t' -> table_ok t'.
Proof. intros ? ? [_ ->]%zset_Some. by apply table_ok_insert. Qed.

(** What one step of a call on lock [n] in role [r] does to the fields: only
    the caller's flag and the turn of that lock can change. *)
Record step_effect (t t' : table) (n r : Z) (newflag newturn : option Z) : Prop :=
  StepEffect {
    effect_ok : table_ok t';
    effect_active : forall m, active_at t' m = active_at t m;
    effect_flag : forall m s, flag_at t' m s =
      match newflag with
      | Some v => if decide (m = n /\ s = r) then Some v else flag_at t m s
      | None => flag_at t m s
      end;
    effect_turn : forall m, turn_at t' m =
      match newturn with
      | Some v => if decide (m = n) then Some v else turn_at t m
      | None => turn_at t m
      end
  }.

Lemma step_effect_refl t n r : table_ok t -> step_effect t t n r None None.
Proof. by constructor. Qed.

Lemma set_flag_effect t n r lk v lk' t' :
  table_ok t -> is_role r -> zget t n = Some lk ->
  set_flag lk r v = Some lk' -> zset t n lk' = Some t' ->
  step_effect t t' n r (Some v) None.
Proof.
  intros Hok Hr Hlk Hset Hz.
  destruct (set_flag_ok lk r v) as (lk1 & E & Hl & Ha & Ht & Hf & Hfo);
    eauto using zget_table_ok.
  rewrite E in Hset. injection Hset as ->.
  destruct (fields_zset _ _ _ _ Hz) as (HA & HF & HT).
  constructor; [eauto using zset_table_ok| | |].
  - intros m. rewrite HA. case_decide; [|done]. subst.
    unfold active_at. rewrite Hlk. simpl. by rewrite Ha.
  - intros m s. rewrite HF. repeat case_decide; subst; try naive_solver.
    unfold flag_at. rewrite Hlk. simpl. apply Hfo. naive_solver.
  - intros m. rewrite HT. case_decide; [|done]. subst.
    unfold turn_at. rewrite Hlk. simpl. by rewrite Ht.
Qed.

Lemma set_turn_effect t n r lk v t' :
  table_ok t -> zget t n = Some lk -> zset t n (set_turn lk v) = Some t' ->
  step_effect t t' n r None (Some v).
Proof.
  intros Hok Hlk Hz. destruct (fields_zset _ _ _ _ Hz) as (HA & HF & HT).
  constructor.
  - eapply zset_table_ok; [done| |done]. unfold lock_ok; simpl.
    by eapply zget_table_ok.
  - intros m. rewrite HA. case_decide; [|done]. subst.
    unfold active_at. by rewrite Hlk.
  - intros m s. rewrite HF. case_decide; [|done]. subst.
    unfold flag_at. by rewrite Hlk.
  - intros m. rewrite HT. by case_decide.
Qed.

(** The successor of each program point of acquire, and its effect. *)
Definition acquire_next (t : table) (n r : Z) (a a' : acquire_pc) : Prop :=
  match a with
  | ACheck => a' = ASetFlag
  | ASetFlag => a' = ASetTurn
  | ASetTurn => a' = AReadFlag
  | AReadFlag => (flag_at t n (other r) = Some 0 /\ a' = ADone 0) \/
                 (flag_at t n (other r) <> Some 0 /\ a' = AReadTurn)
  | AReadTurn => (turn_at t n = Some (other r) /\ a' = AYield) \/
                 (turn_at t n <> Some (other r) /\ a' = ADone 0)
  | AYield => a' = AReadFlag
  | ADone _ => False
  end.

Definition acquire_newflag (a : acquire_pc) : option Z :=
  match a with ASetFlag => Some 1 | _ => None end.
Definition acquire_newturn (a : acquire_pc) (r : Z) : option Z :=
  match a with ASetTurn => Some (other r) | _ => None end.

Lemma acquire_step_effect t n r a t' a' :
  table_ok t -> live t n -> is_role r ->
  acquire_step t n r a = Some (t', a') ->
  acquire_next t n r a a' /\
  step_effect t t' n r (acquire_newflag a) (acquire_newturn a r).
Proof.
  intros Hok Hlive Hr. pose proof (live_bad_lock _ _ Hlive) as Hb.
  destruct a; simpl; intros H.
  - rewrite Hb in H. injection H as <- <-. auto using step_effect_refl.
  - destruct (zget t n) as [lk|] eqn:Hlk; [simpl in H|done].
    destruct (set_flag lk r 1) as [lk'|] eqn:Hs; [simpl in H|done].
    destruct (zset t n lk') as [t1|] eqn:Hz; [simpl in H|done].
    injection H as <- <-. eauto using set_flag_effect.
  - destruct (zget t n) as [lk|] eqn:Hlk; [simpl in H|done].
    destruct (zset t n _) as [t1|] eqn:Hz; [simpl in H|done].
    injection H as <- <-. eauto using set_turn_effect.
  - unfold flag_at. destruct (zget t n) as [lk|] eqn:Hlk; [simpl in *|done].
    destruct (zget (flag lk) (other r)) as [f|] eqn:Hf; [simpl in *|done].
    injection H as <- <-. split; [|by apply step_effect_refl].
    destruct (Z.eqb_spec f 0) as [E|E];
      [left; by rewrite E|right; split; [congruence|done]].
  - unfold turn_at. destruct (zget t n) as [lk|] eqn:Hlk; [simpl in *|done].
    injection H as <- <-. split; [|by apply step_effect_refl].
    destruct (Z.eqb_spec (turn lk) (other r)) as [E|E];
      [left; by rewrite E|right; split; [congruence|done]].
  - injection H as <- <-. auto using step_effect_refl.
  - done.
Qed.

Lemma acquire_step_reads t n r a t' a' :
  acquire_step t n r a = Some (t', a') ->
  acquire_newflag a = None -> acquire_newturn a r = None -> t' = t.
Proof.
  destruct a; simpl; intros H; try done; try congruence.
  - destruct (zget t n) as [lk|]; [simpl in H|done].
    destruct (zget (flag lk) (other r)); [simpl in H|done]. congruence.
  - destruct (zget t n); [simpl in H|done]. congruence.
Qed.

Lemma acquire_step_total t n r a :
  table_ok t -> live t n -> is_role r -> (forall rv, a <> ADone rv) ->
  is_Some (acquire_step t n r a).
Proof.
  intros Hok Hlive Hr Hne.
  destruct (other_role r Hr) as [_ Ho].
  assert (exists lk, zget t n = Some lk) as [lk Hlk].
  { destruct Hlive as [_ (a0 & Ha & _)]. unfold active_at in Ha.
    destruct (zget t n); [eauto|done]. }
  pose proof (proj1 (zget_Some _ _ _) Hlk) as [Hin _].
  pose proof (zget_table_ok _ _ _ Hok Hlk) as Hlok.
  destruct a; simpl; try done; rewrite ?Hlk; simpl; eauto.
  - destruct (set_flag_ok lk r 1 Hlok Hr) as (lk' & -> & _). simpl.
    rewrite zset_in by done. simpl. eauto.
  - rewrite zset_in by done. simpl. eauto.
  - destruct (zget_flag_ok lk (other r) Hlok Ho) as [f ->]. simpl. eauto.
  - naive_solver.
Qed.

Definition release_newflag (r : release_pc) : option Z :=
  match r with RClearFlag => Some 0 | _ => None end.

Lemma release_step_effect t n r c t' c' :
  table_ok t -> live t n -> is_role r ->
  release_step t n r c = Some (t', c') ->
  ((c = RCheck /\ c' = RClearFlag) \/ (c = RClearFlag /\ c' = RDone 0)) /\
  step_effect t t' n r (release_newflag c) None.
Proof.
  intros Hok Hlive Hr. pose proof (live_bad_lock _ _ Hlive) as Hb.
  destruct c; simpl; intros H.
  - rewrite Hb in H. injection H as <- <-. auto using step_effect_refl.
  - destruct (zget t n) as [lk|] eqn:Hlk; [simpl in H|done].
    destruct (set_flag lk r 0) as [lk'|] eqn:Hs; [simpl in H|done].
    destruct (zset t n lk') as [t1|] eqn:Hz; [simpl in H|done].
    injection H as <- <-. eauto using set_flag_effect.
  - done.
Qed.
