(* ===== verification/Ladder.v ===== *)
(** Processes that climb a ladder of Peterson locks.

    This is the control structure of [tournament_acquire] and
    [tournament_release] ([user/libtournament.c]) run by several processes at
    once, each step being one shared-memory access of [Peterson].  It is
    parameterised by which lock and which role process [p] uses at level
    [i]; [Layout] is what that assignment has to promise.  A single lock used
    by two processes ([user/test_peterson.c]) is a ladder of one level, the
    tournament tree is the instance proved in [Tournament]. *)

From S2P Require Import Prelude Peterson.

(** The state of one process. *)
Inductive pstate : Type :=
| PIdle                                (** outside the library *)
| PAcq (i : Z) (a : acquire_pc)        (** acquiring the lock of level [i] *)
| PCrit                                (** tournament_acquire returned 0 *)
| PRel (i : Z) (c : release_pc)        (** releasing the lock of level [i] *)
| PUndo (j : Z) (c : release_pc)       (** releasing after a failed acquire *)
| PFailed.                             (** the call returned -1 *)

Record sys : Type := Sys { tbl : table; procs : list pstate }.

(** What a process holds, per level. *)
Definition holds (L : Z) (ps : pstate) (j : Z) : Prop :=
  match ps with
  | PAcq i a => i < j < L \/ (j = i /\ a = ADone 0)
  | PCrit => 0 <= j < L
  | PRel i c => i < j < L \/ (j = i /\ (c = RCheck \/ c = RClearFlag))
  | _ => False
  end.

Definition waiting (ps : pstate) (j : Z) : Prop :=
  match ps with
  | PAcq i a => j = i /\ (a = AReadFlag \/ a = AReadTurn \/ a = AYield)
  | _ => False
  end.

Definition flagged (L : Z) (ps : pstate) (j : Z) : Prop :=
  holds L ps j \/ waiting ps j \/ ps = PAcq j ASetTurn.

(** The process is the current user of its slot (lock and role) at level [j]. *)
Definition competes (L : Z) (ps : pstate) (j : Z) : Prop :=
  flagged L ps j \/ ps = PAcq j ACheck \/ ps = PAcq j ASetFlag.

Section Ladder.
Context (nproc : nat) (L : Z) (node role : Z -> Z -> Z).

Definition is_proc (p : Z) : Prop := 0 <= p < Z.of_nat nproc.
Definition is_level (j : Z) : Prop := 0 <= j < L.

(** One access by process [p].  Level indices run as in the source: acquire
    from [L - 1] down to 0, release from 0 up to [L - 1]. *)
Definition proc_step (p : Z) (t : table) (ps : pstate)
  : option (table * pstate) :=
  match ps with
  | PIdle => Some (t, if L <=? 0 then PFailed else PAcq (L - 1) ACheck)
  | PAcq i (ADone rv) =>
      Some (t, if rv <? 0 then PUndo i RCheck
               else if i - 1 <? 0 then PCrit else PAcq (i - 1) ACheck)
  | PAcq i a =>
      '(t', a') ← acquire_step t (node p i) (role p i) a; Some (t', PAcq i a')
  | PCrit => Some (t, if 0 <? L then PRel 0 RCheck else PIdle)
  | PRel i (RDone rv) =>
      Some (t, if rv <? 0 then PFailed
               else if i + 1 <? L then PRel (i + 1) RCheck else PIdle)
  | PRel i c =>
      '(t', c') ← release_step t (node p i) (role p i) c; Some (t', PRel i c')
  | PUndo j (RDone rv) =>
      Some (t, if rv <? 0 then PFailed
               else if j + 1 <? L then PUndo (j + 1) RCheck else PFailed)
  | PUndo j c =>
      '(t', c') ← release_step t (node p j) (role p j) c; Some (t', PUndo j c')
  | PFailed => None
  end.

Inductive sys_step_by (p : Z) : sys -> sys -> Prop :=
| SysStep s ps t' ps' procs' :
    zget (procs s) p = Some ps ->
    proc_step p (tbl s) ps = Some (t', ps') ->
    zset (procs s) p ps' = Some procs' ->
    sys_step_by p s (Sys t' procs').

Definition sys_step (s s' : sys) : Prop := exists p, sys_step_by p s s'.

(** What the assignment of locks and roles promises. *)
Class Layout : Prop := {
  layout_role p j : is_proc p -> is_level j -> is_role (role p j);
  layout_node p j : is_proc p -> is_level j -> 0 <= node p j < MAX_PETERSON_LOCKS;
  layout_level p q j k :
    is_proc p -> is_proc q -> is_level j -> is_level k ->
    node p j = node q k -> j = k;
  layout_up p q j :
    is_proc p -> is_proc q -> is_level j -> is_level (j + 1) ->
    node p j = node q j -> role p j = role q j -> node p (j + 1) = node q (j + 1);
  layout_leaf p q :
    is_proc p -> is_proc q -> is_level (L - 1) ->
    node p (L - 1) = node q (L - 1) -> role p (L - 1) = role q (L - 1) -> p = q
}.

(** Control states that occur when every lock stays active. *)
Definition pc_ok (ps : pstate) : Prop :=
  match ps with
  | PIdle | PCrit => True
  | PAcq i a => is_level i /\ (forall rv, a = ADone rv -> rv = 0)
  | PRel i c => is_level i /\ (forall rv, c = RDone rv -> rv = 0)
  | PUndo _ _ | PFailed => False
  end.

Record inv (s : sys) : Prop := Inv {
  inv_len : length (procs s) = nproc;
  inv_tbl : table_ok (tbl s);
  inv_live p j : is_proc p -> is_level j -> live (tbl s) (node p j);
  inv_pc p ps : zget (procs s) p = Some ps -> pc_ok ps;
  inv_flag p ps j :
    zget (procs s) p = Some ps -> is_level j -> flagged L ps j ->
    flag_at (tbl s) (node p j) (role p j) = Some 1;
  inv_mutex p q ps qs j :
    zget (procs s) p = Some ps -> zget (procs s) q = Some qs -> p <> q ->
    is_level j -> node p j = node q j -> holds L ps j -> ~ holds L qs j;
  inv_turn p q ps qs j :
    zget (procs s) p = Some ps -> zget (procs s) q = Some qs -> p <> q ->
    is_level j -> node p j = node q j -> holds L ps j -> waiting qs j ->
    turn_at (tbl s) (node p j) = Some (role p j);
  inv_trole p j : is_proc p -> is_level j ->
    exists k, turn_at (tbl s) (node p j) = Some k /\ is_role k;
  inv_raised p j r f :
    is_proc p -> is_level j -> is_role r ->
    flag_at (tbl s) (node p j) r = Some f -> f <> 0 ->
    exists q qs, zget (procs s) q = Some qs /\ node q j = node p j /\
      role q j = r /\ flagged L qs j
}.

(** The initial states: every lock of the ladder is active with both flags
    down, and nobody has called the library yet. *)
Record init (s : sys) : Prop := Init {
  init_level : 0 < L;
  init_procs : procs s = replicate nproc PIdle;
  init_tbl : table_ok (tbl s);
  init_live p j : is_proc p -> is_level j -> live (tbl s) (node p j);
  init_flag p j r : is_proc p -> is_level j -> is_role r ->
    flag_at (tbl s) (node p j) r = Some 0;
  init_turn p j : is_proc p -> is_level j ->
    exists k, turn_at (tbl s) (node p j) = Some k /\ is_role k
}.

(** ** Preservation of the invariant *)

Context {HL : Layout}.

Lemma zget_is_proc s p ps :
  inv s -> zget (procs s) p = Some ps -> is_proc p.
Proof.
  intros Hinv [Hp _]%zget_Some. unfold is_proc.
  rewrite <- (inv_len _ Hinv). done.
Qed.

Lemma holds_flagged ps j : holds L ps j -> flagged L ps j.
Proof. by left. Qed.

Lemma waiting_flagged ps j : waiting ps j -> flagged L ps j.
Proof. by right; left. Qed.

Lemma flagged_competes ps j : flagged L ps j -> competes L ps j.
Proof. by left. Qed.

Lemma competes_holds_above ps j :
  pc_ok ps -> competes L ps j -> is_level j -> is_level (j + 1) ->
  holds L ps (j + 1).
Proof.
  unfold is_level. intros Hok Hc Hj Hj'.
  destruct ps; destruct Hc as [[H|[H|H]]|[H|H]]; simplify_eq/=; naive_solver lia.
Qed.

(** Two processes never use the same role of the same lock. *)
Lemma slot_unique s p q ps qs j :
  inv s -> zget (procs s) p = Some ps -> zget (procs s) q = Some qs ->
  p <> q -> is_level j -> node p j = node q j ->
  competes L ps j -> competes L qs j -> other (role p j) = role q j.
Proof.
  intros Hinv Hp Hq Hpq Hj Hn Hcp Hcq.
  pose proof (zget_is_proc _ _ _ Hinv Hp) as Pp.
  pose proof (zget_is_proc _ _ _ Hinv Hq) as Pq.
  destruct (role_dichotomy (role p j) (role q j)) as [Heq|?];
    [by apply layout_role|by apply layout_role| |done].
  exfalso. destruct (decide (j = L - 1)) as [->|Hlast].
  - by apply Hpq, layout_leaf.
  - assert (is_level (j + 1)) as Hj' by (unfold is_level in *; lia).
    assert (node p (j + 1) = node q (j + 1)) as Hn' by by apply layout_up.
    eapply (inv_mutex _ Hinv p q); eauto using competes_holds_above, inv_pc.
Qed.

Lemma same_slot s p q ps qs j :
  inv s -> zget (procs s) p = Some ps -> zget (procs s) q = Some qs ->
  p <> q -> is_level j -> node p j = node q j -> role p j = role q j ->
  competes L ps j -> competes L qs j -> False.
Proof.
  intros Hinv Hp Hq Hpq Hj Hn Hr Hcp Hcq.
  apply (other_ne (role p j)); [by apply layout_role; [eapply zget_is_proc|]|].
  rewrite Hr at 2. by eapply slot_unique.
Qed.

(** A lock has at most two users at a time. *)
Lemma three_users s p x y ps xs ys j :
  inv s -> zget (procs s) p = Some ps -> zget (procs s) x = Some xs ->
  zget (procs s) y = Some ys -> p <> x -> p <> y -> x <> y -> is_level j ->
  node p j = node x j -> node x j = node y j ->
  competes L ps j -> competes L xs j -> competes L ys j -> False.
Proof.
  intros Hinv Hp Hx Hy Hpx Hpy Hxy Hj Hn1 Hn2 Cp Cx Cy.
  eapply (same_slot s x y); eauto.
  rewrite <- (slot_unique s p x ps xs j), <- (slot_unique s p y ps ys j); try done.
  congruence.
Qed.

(** The components of a step: process [p] moves from [ps] to [ps']. *)
Lemma zget_procs_step s p ps' procs' q :
  zset (procs s) p ps' = Some procs' ->
  zget procs' q = if decide (q = p) then Some ps' else zget (procs s) q.
Proof.
  intros Hz. case_decide as E; [subst; eauto with kernel|].
  by apply (zget_zset_ne _ _ _ _ _ Hz).
Qed.

Definition same_view (ps ps' : pstate) : Prop :=
  forall j, is_level j ->
    (holds L ps' j <-> holds L ps j) /\ (waiting ps' j <-> waiting ps j) /\
    (flagged L ps' j <-> flagged L ps j).

(** In the state after a step of [p], the process [x] is [p] in its new
    state, or it is unchanged. *)
Ltac who x p Hx Hz :=
  rewrite (zget_procs_step _ _ _ _ x Hz) in Hx;
  destruct (decide (x = p)) as [->|]; [injection Hx as <-|].

(** To re-establish the invariant after process [p] moved to [ps'] and the
    table became [t'], it is enough to look at [p] against one other
    process at a time. *)
Lemma inv_intro s p ps ps' t' procs' :
  inv s -> zget (procs s) p = Some ps -> zset (procs s) p ps' = Some procs' ->
  table_ok t' -> (forall m, active_at t' m = active_at (tbl s) m) -> pc_ok ps' ->
  (forall x xs j, zget procs' x = Some xs -> is_level j -> flagged L xs j ->
     flag_at t' (node x j) (role x j) = Some 1) ->
  (forall q qs j, zget (procs s) q = Some qs -> q <> p -> is_level j ->
     node p j = node q j -> holds L ps' j -> ~ holds L qs j) ->
  (forall x y xs ys j, zget procs' x = Some xs -> zget procs' y = Some ys ->
     x <> y -> is_level j -> node x j = node y j ->
     holds L xs j -> waiting ys j -> turn_at t' (node x j) = Some (role x j)) ->
  (forall x j, is_proc x -> is_level j ->
     exists k, turn_at t' (node x j) = Some k /\ is_role k) ->
  (forall x j r f, is_proc x -> is_level j -> is_role r ->
     flag_at t' (node x j) r = Some f -> f <> 0 ->
     (node p j = node x j /\ role p j = r /\ flagged L ps' j) \/
     (flag_at (tbl s) (node x j) r = Some f /\
      ~ (node p j = node x j /\ role p j = r /\ flagged L ps j))) ->
  inv (Sys t' procs').
Proof.
  intros [H1 H2 H3 H4 H5 H6 H7 H8 H9] Hp Hz Ht Ha Hok Hf Hm Hturn Htr Hraised.
  constructor; simpl; try done.
  - by rewrite (zset_length _ _ _ _ Hz).
  - intros x j Hx Hj. destruct (H3 x j Hx Hj) as [? ?]. split; [done|]. by rewrite Ha.
  - intros x xs Hx. who x p Hx Hz; eauto.
  - intros x y xs ys j Hx Hy Hxy Hj Hn Hhx Hhy. who x p Hx Hz; who y p Hy Hz; [done|..].
    + by eapply (Hm y ys j).
    + by eapply (Hm x xs j).
    + by apply (H6 x y xs ys j).
  - intros x j r f Hx Hj Hr Hfl Hne.
    destruct (Hraised x j r f) as [(Hn & Hro & Hfp)|[Hold Hno]]; [done..| |].
    + exists p, ps'. by rewrite (zget_procs_step _ _ _ _ _ Hz), decide_True by done.
    + destruct (H9 x j r f) as (q & qs & Hq & Hqn & Hro & Hfq); [done..|].
      assert (q <> p) by (intros ->; rewrite Hp in Hq; naive_solver).
      exists q, qs. by rewrite (zget_procs_step _ _ _ _ _ Hz), decide_False by done.
Qed.

(** A step that changes neither the table nor what the process shows to
    the others. *)
Lemma inv_quiet s p ps ps' procs' :
  inv s -> zget (procs s) p = Some ps -> zset (procs s) p ps' = Some procs' ->
  pc_ok ps' -> same_view ps ps' -> inv (Sys (tbl s) procs').
Proof.
  intros Hinv Hp Hz Hok Hv. pose proof Hinv as [H1 H2 H3 H4 H5 H6 H7 H8 H9].
  eapply inv_intro; try done.
  - intros x xs j Hx Hj Hf. who x p Hx Hz; [|eauto].
    eapply H5; [done|done|]. by apply Hv.
  - intros q qs j Hq Hqp Hj Hn Hh. apply (H6 p q ps qs j); try done. by apply Hv.
  - intros x y xs ys j Hx Hy Hxy Hj Hn Hhx Hwy. who x p Hx Hz; who y p Hy Hz; [done|..].
    + apply (H7 p y ps ys j); try done. by apply Hv.
    + apply (H7 x p xs ps j); try done. by apply Hv.
    + by apply (H7 x y xs ys j).
  - intros x j r f Hx Hj Hr Hf Hne.
    destruct (H9 x j r f) as (q & qs & Hq & Hn & Hro & Hfl); [done..|].
    destruct (decide (q = p)) as [->|Hqp].
    + left. rewrite Hp in Hq. injection Hq as <-. repeat split; try done. by apply Hv.
    + right. split; [done|]. intros (Hn' & Hro' & Hfp).
      apply (same_slot s p q ps qs j); auto using flagged_competes; congruence.
Qed.

Lemma inv_set_flag s p i t' procs' :
  inv s -> zget (procs s) p = Some (PAcq i ASetFlag) -> is_level i ->
  step_effect (tbl s) t' (node p i) (role p i) (Some 1) None ->
  zset (procs s) p (PAcq i ASetTurn) = Some procs' ->
  inv (Sys t' procs').
Proof.
  intros Hinv Hp Hi [E1 E2 E3 E4] Hz. pose proof (zget_is_proc _ _ _ Hinv Hp) as Pp.
  pose proof Hinv as [H1 H2 H3 H4 H5 H6 H7 H8 H9].
  assert (forall j, flagged L (PAcq i ASetTurn) j <->
                    flagged L (PAcq i ASetFlag) j \/ j = i) as Hfl
    by (unfold flagged; simpl; naive_solver).
  assert (forall j, holds L (PAcq i ASetTurn) j -> holds L (PAcq i ASetFlag) j) as Hh
    by (simpl; naive_solver).
  eapply inv_intro; try done.
  - intros x xs j Hx Hj Hf. rewrite E3. case_decide; [done|].
    who x p Hx Hz; [|eauto]. apply Hfl in Hf as [Hf| ->]; [eauto|tauto].
  - intros q qs j Hq Hqp Hj Hn Hhp. eapply (H6 p q); eauto.
  - intros x y xs ys j Hx Hy Hxy Hj Hn Hhx Hwy. rewrite E4.
    who x p Hx Hz; who y p Hy Hz; [done| | |by eapply (H7 x y)].
    + eapply (H7 p y); eauto.
    + by destruct Hwy as [_ [[=]|[[=]|[=]]]].
  - intros x j Hx Hj. rewrite E4. auto.
  - intros x j r f Hx Hj Hr Hf Hne. rewrite E3 in Hf. case_decide as Hs.
    + destruct Hs as [Hn ->].
      assert (j = i) as -> by (eapply (layout_level x p); eassumption).
      left. repeat split; [done|]. by apply Hfl; right.
    + destruct (decide (node p j = node x j /\ role p j = r)) as [[Hn Hro]|Hno].
      * destruct (decide (j = i)) as [->|Hji];
          [exfalso; apply Hs; split; congruence|].
        destruct (decide (i < j)); [left|right].
        -- repeat split; try done. unfold is_level in Hj. left. left. lia.
        -- split; [done|]. intros (_ & _ & [Hfp|[Hfp|Hfp]]); simpl in Hfp; clear - Hfp n; naive_solver lia.
      * right. tauto.
Qed.

Lemma inv_set_turn s p i t' procs' :
  inv s -> zget (procs s) p = Some (PAcq i ASetTurn) -> is_level i ->
  step_effect (tbl s) t' (node p i) (role p i) None (Some (other (role p i))) ->
  zset (procs s) p (PAcq i AReadFlag) = Some procs' ->
  inv (Sys t' procs').
Proof.
  intros Hinv Hp Hi [E1 E2 E3 E4] Hz. pose proof (zget_is_proc _ _ _ Hinv Hp) as Pp.
  pose proof Hinv as [H1 H2 H3 H4 H5 H6 H7 H8 H9].
  assert (forall j, flagged L (PAcq i AReadFlag) j <->
                    flagged L (PAcq i ASetTurn) j) as Hfl
    by (unfold flagged; simpl; naive_solver).
  assert (forall j, holds L (PAcq i AReadFlag) j -> holds L (PAcq i ASetTurn) j) as Hh
    by (simpl; naive_solver).
  assert (competes L (PAcq i ASetTurn) i) as Hcp by (by left; right; right).
  eapply inv_intro; try done.
  - intros x xs j Hx Hj Hf. rewrite E3. who x p Hx Hz; [|eauto].
    apply Hfl in Hf. eauto.
  - intros q qs j Hq Hqp Hj Hn Hhp. eapply (H6 p q); eauto.
  - intros x y xs ys j Hx Hy Hxy Hj Hn Hhx Hwy. rewrite E4.
    case_decide as Hd.
    + assert (j = i) as ->.
      { who x p Hx Hz; [by eapply layout_level|].
        eapply (layout_level x p); eauto using zget_is_proc. }
      who x p Hx Hz; [simpl in Hhx; clear - Hhx; naive_solver lia|].
      f_equal. who y p Hy Hz.
      * eapply (slot_unique s p x); eauto using holds_flagged, flagged_competes.
      * exfalso. eapply (three_users s p x y);
          eauto using holds_flagged, waiting_flagged, flagged_competes; congruence.
    + who x p Hx Hz; who y p Hy Hz; [done| | |by eapply (H7 x y)].
      * eapply (H7 p y); eauto.
      * simpl in Hwy. destruct Hwy as [-> _]. congruence.
  - intros x j Hx Hj. rewrite E4. case_decide; [|eauto].
    eexists; split; [done|]. by apply other_role, layout_role.
  - intros x j r f Hx Hj Hr Hf Hne. rewrite E3 in Hf. rewrite Hfl. 
    destruct (decide (node p j = node x j /\ role p j = r)) as [[Hn Hro]|Hno];
      [|right; tauto].
    destruct (decide (i <= j)); [left|right].
    + repeat split; try done. unfold is_level in Hj.
      destruct (decide (i = j)) as [->|]; [by right; right|left; left; lia].
    + split; [done|]. intros (_ & _ & [Hfp|[Hfp|Hfp]]); simpl in Hfp; clear - Hfp n; naive_solver lia.
Qed.

(** Entering: the check of the wait loop succeeded. *)
Lemma inv_enter s p i a procs' :
  inv s -> zget (procs s) p = Some (PAcq i a) -> is_level i ->
  (a = AReadFlag /\ flag_at (tbl s) (node p i) (other (role p i)) = Some 0 \/
   a = AReadTurn /\ turn_at (tbl s) (node p i) <> Some (other (role p i))) ->
  zset (procs s) p (PAcq i (ADone 0)) = Some procs' ->
  inv (Sys (tbl s) procs').
Proof.
  intros Hinv Hp Hi Hcheck Hz. pose proof (zget_is_proc _ _ _ Hinv Hp) as Pp.
  pose proof Hinv as [H1 H2 H3 H4 H5 H6 H7 H8 H9].
  assert (waiting (PAcq i a) i) as Hwp by (simpl; clear - Hcheck; naive_solver).
  assert (forall j, holds L (PAcq i (ADone 0)) j -> j = i \/ holds L (PAcq i a) j) as Hh
    by (simpl; clear; naive_solver).
  assert (forall j, flagged L (PAcq i (ADone 0)) j <-> flagged L (PAcq i a) j) as Hfl.
  { intros j. unfold flagged. simpl. clear - Hcheck. naive_solver. }
  (* the opponent on the lock of level i is neither inside nor, unless the
     turn is ours, waiting *)
  assert (forall q qs, zget (procs s) q = Some qs -> q <> p ->
            node p i = node q i -> flagged L qs i ->
            a = AReadTurn /\ ~ holds L qs i /\
            turn_at (tbl s) (node p i) = Some (role p i)) as Hopp.
  { intros q qs Hq Hqp Hn Hfq.
    assert (other (role p i) = role q i) as Ho.
    { apply (slot_unique s p q (PAcq i a) qs); auto using waiting_flagged, flagged_competes. }
    destruct Hcheck as [[-> Hf]|[-> Ht]].
    - specialize (H5 q qs i Hq Hi Hfq). rewrite <- Hn, <- Ho in H5. congruence.
    - split; [done|]. split.
      + intros Hhq. apply Ht. rewrite Ho, Hn.
        by apply (H7 q p qs (PAcq i AReadTurn)).
      + destruct (H8 p i Pp Hi) as (k & Hk & Hrk). rewrite Hk in *. f_equal.
        destruct (role_dichotomy (role p i) k); try done; [by apply layout_role|].
        congruence. }
  eapply inv_intro; try done.
  - split; [done|]. by intros ? [= <-].
  - intros x xs j Hx Hj Hf. who x p Hx Hz; [|eauto]. apply Hfl in Hf. eauto.
  - intros q qs j Hq Hqp Hj Hn Hhp Hhq. apply Hh in Hhp as [->|Hhp].
    + destruct (Hopp q qs) as (_ & Hno & _); auto using holds_flagged.
    + by eapply (H6 p q).
  - intros x y xs ys j Hx Hy Hxy Hj Hn Hhx Hwy.
    who x p Hx Hz; who y p Hy Hz; [done| | |by eapply (H7 x y)].
    + apply Hh in Hhx as [->|Hhx]; [|by eapply (H7 p y)].
      apply (Hopp y ys); auto using waiting_flagged.
    + by destruct Hwy as [_ [[=]|[[=]|[=]]]].
  - intros x j r f Hx Hj Hr Hf Hne. rewrite Hfl.
    destruct (H9 x j r f) as (q & qs & Hq & Hn & Hro & Hfq); [done..|].
    destruct (decide (q = p)) as [->|Hqp].
    + left. rewrite Hp in Hq. injection Hq as <-. done.
    + right. split; [done|]. intros (Hn' & Hro' & Hfp).
      apply (same_slot s p q (PAcq i a) qs j); auto using flagged_competes; congruence.
Qed.

Lemma inv_clear_flag s p i t' procs' :
  inv s -> zget (procs s) p = Some (PRel i RClearFlag) -> is_level i ->
  step_effect (tbl s) t' (node p i) (role p i) (Some 0) None ->
  zset (procs s) p (PRel i (RDone 0)) = Some procs' ->
  inv (Sys t' procs').
Proof.
  intros Hinv Hp Hi [E1 E2 E3 E4] Hz. pose proof (zget_is_proc _ _ _ Hinv Hp) as Pp.
  pose proof Hinv as [H1 H2 H3 H4 H5 H6 H7 H8 H9].
  assert (forall j, holds L (PRel i (RDone 0)) j <->
                    holds L (PRel i RClearFlag) j /\ j <> i) as Hh
    by (simpl; clear; naive_solver lia).
  assert (forall j, flagged L (PRel i (RDone 0)) j <->
                    flagged L (PRel i RClearFlag) j /\ j <> i) as Hfl
    by (unfold flagged; simpl; clear; naive_solver lia).
  assert (flagged L (PRel i RClearFlag) i) as Hfi by (left; simpl; auto).
  eapply inv_intro; try done.
  - split; [done|]. by intros ? [= <-].
  - intros x xs j Hx Hj Hf. rewrite E3. who x p Hx Hz.
    + apply Hfl in Hf as [Hf Hji]. rewrite decide_False; [eauto|].
      intros [Hn _]. by apply Hji, (layout_level p p).
    + rewrite decide_False; [eauto|]. intros [Hn Hro].
      assert (j = i) as -> by (eapply (layout_level x p); eauto using zget_is_proc).
      eapply (same_slot s p x); eauto using flagged_competes.
  - intros q qs j Hq Hqp Hj Hn [Hhp _]%Hh. by eapply (H6 p q).
  - intros x y xs ys j Hx Hy Hxy Hj Hn Hhx Hwy. rewrite E4.
    who x p Hx Hz; who y p Hy Hz; [done| |done|by eapply (H7 x y)].
    apply Hh in Hhx as [Hhx _]. by eapply (H7 p y).
  - intros x j Hx Hj. rewrite E4. auto.
  - intros x j r f Hx Hj Hr Hf Hne. rewrite E3 in Hf. case_decide as Hd; [congruence|].
    destruct (H9 x j r f) as (q & qs & Hq & Hn & Hro & Hfq); [done..|].
    destruct (decide (q = p)) as [->|Hqp].
    + left. rewrite Hp in Hq. injection Hq as <-. repeat split; try done.
      apply Hfl. split; [done|]. intros ->. apply Hd. split; congruence.
    + right. split; [done|]. intros (Hn' & Hro' & Hfp).
      apply (same_slot s p q (PRel i RClearFlag) qs j); auto using flagged_competes; congruence.
Qed.

Lemma quiet_step s p ps ps' procs' :
  inv s -> zget (procs s) p = Some ps -> zset (procs s) p ps' = Some procs' ->
  pc_ok ps -> same_view ps ps' -> (pc_ok ps -> pc_ok ps') ->
  inv (Sys (tbl s) procs').
Proof. eauto using inv_quiet. Qed.

Ltac or_lia :=
  solve [lia | done | split; or_lia | left; or_lia | right; or_lia].
Ltac view_lia :=
  (split; [|split]); split; intros;
  repeat progress (destruct_or?; destruct_and?); simplify_eq;
  or_lia.

(** Control transitions that touch no shared memory, and the reads that
    leave the process where it was for the others. *)
Lemma same_view_next i a a' :
  (a = ACheck /\ a' = ASetFlag) \/
  (waiting (PAcq i a) i /\ waiting (PAcq i a') i) ->
  same_view (PAcq i a) (PAcq i a').
Proof.
  intros H j _. unfold flagged. simpl in *. repeat split; intros; naive_solver.
Qed.

Lemma same_view_climb i :
  is_level i -> same_view (PAcq i (ADone 0)) (if i - 1 <? 0 then PCrit else PAcq (i - 1) ACheck).
Proof.
  unfold is_level. intros Hi j Hj. unfold is_level in Hj.
  destruct (Z.ltb_spec (i - 1) 0), (decide (j = i)); unfold flagged; simpl;
    view_lia.
Qed.

Lemma same_view_rel i :
  is_level i ->
  same_view (PRel i (RDone 0)) (if i + 1 <? L then PRel (i + 1) RCheck else PIdle).
Proof.
  unfold is_level. intros Hi j Hj. unfold is_level in Hj.
  destruct (Z.ltb_spec (i + 1) L), (decide (j = i + 1)); unfold flagged; simpl;
    view_lia.
Qed.

Lemma same_view_check i : same_view (PRel i RCheck) (PRel i RClearFlag).
Proof. intros j _. unfold flagged. simpl. view_lia. Qed.

Lemma same_view_start : 0 < L -> same_view PIdle (PAcq (L - 1) ACheck).
Proof.
  intros HL0 j Hj. unfold is_level in Hj. unfold flagged. simpl.
  view_lia.
Qed.

Lemma same_view_crit : 0 < L -> same_view PCrit (PRel 0 RCheck).
Proof.
  intros HL0 j Hj. unfold is_level in Hj. unfold flagged. simpl.
  destruct (decide (j = 0)); view_lia.
Qed.

Lemma inv_acquire_step s p i a t' a' procs' :
  inv s -> zget (procs s) p = Some (PAcq i a) ->
  acquire_step (tbl s) (node p i) (role p i) a = Some (t', a') ->
  zset (procs s) p (PAcq i a') = Some procs' ->
  inv (Sys t' procs').
Proof.
  intros Hinv Hp Hstep Hz. pose proof (zget_is_proc _ _ _ Hinv Hp) as Pp.
  destruct (inv_pc _ Hinv _ _ Hp) as [Hi Hrv].
  destruct (acquire_step_effect _ _ _ _ _ _ (inv_tbl _ Hinv)
              (inv_live _ Hinv p i Pp Hi) (layout_role p i Pp Hi) Hstep) as [Hn He].
  pose proof (acquire_step_reads _ _ _ _ _ _ Hstep) as Hread.
  assert (t' = tbl s -> same_view (PAcq i a) (PAcq i a') ->
          (forall rv, a' <> ADone rv) -> inv (Sys t' procs')) as Hquiet.
  { intros -> Hv Hne. eapply inv_quiet; try done. split; [done|]. naive_solver. }
  destruct a; simpl in Hn, He, Hread; try done; try rewrite Hn in *; clear Hstep.
  - apply Hquiet; [by apply Hread|apply same_view_next; by left|done].
  - by eapply inv_set_flag.
  - by eapply inv_set_turn.
  - rewrite Hread in * by done.
    destruct Hn as [[Hf ->]|[Hf ->]]; [eapply inv_enter; eauto|].
    apply Hquiet; [done|apply same_view_next; right; simpl; tauto|done].
  - rewrite Hread in * by done.
    destruct Hn as [[Ht ->]|[Ht ->]]; [|eapply inv_enter; eauto].
    apply Hquiet; [done|apply same_view_next; right; simpl; tauto|done].
  - apply Hquiet; [by apply Hread|apply same_view_next; right; simpl; tauto|done].
Qed.

Lemma inv_release_step s p i c t' c' procs' :
  inv s -> zget (procs s) p = Some (PRel i c) ->
  release_step (tbl s) (node p i) (role p i) c = Some (t', c') ->
  zset (procs s) p (PRel i c') = Some procs' ->
  inv (Sys t' procs').
Proof.
  intros Hinv Hp Hstep Hz. pose proof (zget_is_proc _ _ _ Hinv Hp) as Pp.
  destruct (inv_pc _ Hinv _ _ Hp) as [Hi Hrv].
  destruct (release_step_effect _ _ _ _ _ _ (inv_tbl _ Hinv)
              (inv_live _ Hinv p i Pp Hi) (layout_role p i Pp Hi) Hstep)
    as [[[-> ->]|[-> ->]] He].
  - simpl in Hstep. assert (t' = tbl s) as -> by (by simplify_eq/=).
    eapply inv_quiet; eauto using same_view_check. by split.
  - by eapply inv_clear_flag.
Qed.

Lemma proc_step_acq p t i a t' ps' :
  proc_step p t (PAcq i a) = Some (t', ps') ->
  (exists rv, a = ADone rv /\ t' = t /\
     ps' = if rv <? 0 then PUndo i RCheck
           else if i - 1 <? 0 then PCrit else PAcq (i - 1) ACheck) \/
  (exists a', acquire_step t (node p i) (role p i) a = Some (t', a') /\
     ps' = PAcq i a').
Proof.
  destruct a; cbn [proc_step]; intros H; [right..|left; naive_solver];
    destruct (acquire_step _ _ _ _) as [[t1 a1]|]; simplify_eq/=; eauto.
Qed.

Lemma proc_step_rel p t i c t' ps' :
  proc_step p t (PRel i c) = Some (t', ps') ->
  (exists rv, c = RDone rv /\ t' = t /\
     ps' = if rv <? 0 then PFailed
           else if i + 1 <? L then PRel (i + 1) RCheck else PIdle) \/
  (exists c', release_step t (node p i) (role p i) c = Some (t', c') /\
     ps' = PRel i c').
Proof.
  destruct c; cbn [proc_step]; intros H; [right..|left; naive_solver];
    destruct (release_step _ _ _ _) as [[t1 c1]|]; simplify_eq/=; eauto.
Qed.

(** Every access of every process preserves the invariant. *)
Lemma inv_step p s s' : 0 < L -> inv s -> sys_step_by p s s' -> inv s'.
Proof.
  intros HL0 Hinv Hs. destruct Hs as [s ps t' ps' procs' Hp Hstep Hz].
  pose proof (inv_pc _ Hinv _ _ Hp) as Hok.
  destruct ps as [|i a| |i c|j c|]; simpl in Hok; try done.
  - simpl in Hstep. rewrite (proj2 (Z.leb_gt L 0)) in Hstep by lia.
    injection Hstep as <- <-. eapply inv_quiet; eauto using same_view_start.
    split; [unfold is_level; lia|done].
  - destruct Hok as [Hi Hrv].
    apply proc_step_acq in Hstep as [(rv & -> & -> & ->)|(a' & Hstep & ->)];
      [|by eapply inv_acquire_step].
    rewrite (Hrv rv eq_refl) in *. simpl in Hz.
    eapply inv_quiet; eauto using same_view_climb. unfold is_level in *.
    destruct (Z.ltb_spec (i - 1) 0); [done|]. split; [unfold is_level; lia|done].
  - simpl in Hstep. rewrite (proj2 (Z.ltb_lt 0 L)) in Hstep by lia.
    injection Hstep as <- <-. eapply inv_quiet; eauto using same_view_crit.
    split; [unfold is_level; lia|done].
  - destruct Hok as [Hi Hrv].
    apply proc_step_rel in Hstep as [(rv & -> & -> & ->)|(c' & Hstep & ->)];
      [|by eapply inv_release_step].
    rewrite (Hrv rv eq_refl) in *. simpl in Hz.
    eapply inv_quiet; eauto using same_view_rel. unfold is_level in *.
    destruct (Z.ltb_spec (i + 1) L); [|done]. split; [unfold is_level; lia|done].
Qed.

Lemma inv_init s : init s -> inv s.
Proof.
  intros [Hpos Hprocs Htbl Hlive Hflag Hturn].
  assert (forall p ps, zget (procs s) p = Some ps -> ps = PIdle) as Hidle.
  { intros p ps [_ Hp]%zget_Some. rewrite Hprocs in Hp.
    by apply lookup_replicate_1 in Hp as [-> _]. }
  assert (forall p ps j, zget (procs s) p = Some ps ->
            ~ holds L ps j /\ ~ flagged L ps j) as Hnone.
  { intros p ps j Hp. rewrite (Hidle _ _ Hp). unfold flagged. simpl. naive_solver. }
  constructor; try done.
  - by rewrite Hprocs, length_replicate.
  - intros p ps Hp. by rewrite (Hidle _ _ Hp).
  - intros p ps j Hp _ Hf. by destruct (Hnone p ps j Hp) as [_ []].
  - intros p q ps qs j Hp _ _ _ _ Hh. by destruct (Hnone p ps j Hp) as [[] _].
  - intros p q ps qs j Hp _ _ _ _ Hh. by destruct (Hnone p ps j Hp) as [[] _].
  - intros p j r f Hp Hj Hr Hf Hne. rewrite Hflag in Hf; congruence.
Qed.

Lemma inv_reachable s0 s : init s0 -> reach sys_step s0 s -> inv s.
Proof.
  intros H0. apply reach_inv; [by apply inv_init|].
  intros s1 s2 Hi [p Hp]. eapply inv_step; eauto. by destruct H0.
Qed.
End Ladder.
