(* ===== verification/LadderProgress.v ===== *)
(** Liveness of the lock ladder: a waiting process is overtaken at most once
    on the lock it waits for, and a system with pending requests and nobody
    inside can always let somebody in. *)

From S2P Require Import Prelude Peterson Ladder.

(** [bypass q j s n s']: a run from [s] to [s'] during which process [q]
    waits for the lock of level [j] all along, and in which some other user
    of that lock got it [n] times. *)
Section Bypass.
Context (nproc : nat) (L : Z) (node role : Z -> Z -> Z).

Definition waits (q j : Z) (s : sys) : Prop :=
  exists qs, zget (procs s) q = Some qs /\ waiting qs j.

(** The step from [s] to [s'] gave [x] the lock of level [j]. *)
Definition enters (x j : Z) (s s' : sys) : Prop :=
  exists xs xs', zget (procs s) x = Some xs /\ zget (procs s') x = Some xs' /\
    ~ holds L xs j /\ holds L xs' j.

Inductive bypass (q j : Z) : sys -> nat -> sys -> Prop :=
| bypass_refl s : waits q j s -> bypass q j s 0 s
| bypass_other s s1 s' x n :
    waits q j s -> sys_step_by L node role x s s1 ->
    ~ (x <> q /\ node x j = node q j /\ enters x j s s1) ->
    bypass q j s1 n s' -> bypass q j s n s'
| bypass_enter s s1 s' x n :
    waits q j s -> sys_step_by L node role x s s1 ->
    x <> q -> node x j = node q j -> enters x j s s1 ->
    bypass q j s1 n s' -> bypass q j s (S n) s'.

(** Somebody may still overtake [q]. *)
Definition can_bypass (q j : Z) (s : sys) : Prop :=
  exists x xs, zget (procs s) x = Some xs /\ x <> q /\ node x j = node q j /\
    waiting xs j /\ turn_at (tbl s) (node q j) <> Some (role q j).

Context {HL : Layout nproc L node role}.

Lemma bypass_waits q j s n s' : bypass q j s n s' -> waits q j s.
Proof. by destruct 1. Qed.

(** What the step of [x] says about [x] on level [j]. *)
Lemma step_to_waiting x s s1 xs xs' j :
  inv nproc L node role s -> is_level L j ->
  sys_step_by L node role x s s1 ->
  zget (procs s) x = Some xs -> zget (procs s1) x = Some xs' ->
  waiting xs' j ->
  (waiting xs j /\ tbl s1 = tbl s) \/
  (xs = PAcq j ASetTurn /\ turn_at (tbl s1) (node x j) = Some (other (role x j))).
Proof.
  intros Hinv Hj Hs Hx Hx1 Hw. destruct Hs as [s ps t' ps' procs' Hp Hstep Hz].
  rewrite Hp in Hx. injection Hx as ->. simpl in Hx1.
  rewrite (zget_zset_eq _ _ _ _ Hz) in Hx1. injection Hx1 as ->.
  pose proof (zget_is_proc _ _ _ _ _ _ _ Hinv Hp) as Px.
  pose proof (inv_pc _ _ _ _ _ Hinv _ _ Hp) as Hok.
  destruct xs as [|i a| |i c|i c|]; simpl in Hok; try done.
  - simpl in Hstep. destruct (L <=? 0); simplify_eq/=; naive_solver.
  - destruct Hok as [Hi Hrv].
    apply proc_step_acq in Hstep as [(rv & -> & -> & ->)|(a' & Hstep & ->)].
    + rewrite (Hrv rv eq_refl) in Hw. simpl in Hw.
      destruct (i - 1 <? 0); simpl in Hw; naive_solver.
    + destruct Hw as [-> Hw]. pose proof Hstep as Hstep'.
      apply acquire_step_effect in Hstep as [Hn [E1 E2 E3 E4]];
        [|by apply (inv_tbl _ _ _ _ _ Hinv)|by eapply inv_live|by eapply layout_role].
      pose proof (acquire_step_reads _ _ _ _ _ _ Hstep') as Hread.
      destruct a; simpl in Hn, E4, Hread; try (exfalso; clear - Hn Hw; naive_solver).
      * right. split; [done|]. simpl. by rewrite E4, decide_True.
      * left. split; [simpl; tauto|]. by apply Hread.
      * left. split; [simpl; tauto|]. by apply Hread.
      * left. split; [simpl; tauto|]. by apply Hread.
  - simpl in Hstep. destruct (0 <? L); simplify_eq/=; done.
  - apply proc_step_rel in Hstep as [(rv & -> & -> & ->)|(c' & Hstep & ->)]; [|done].
    destruct (rv <? 0), (i + 1 <? L); simpl in Hw; done.
Qed.

Lemma step_to_holds x s s1 xs xs' j :
  inv nproc L node role s -> is_level L j ->
  sys_step_by L node role x s s1 ->
  zget (procs s) x = Some xs -> zget (procs s1) x = Some xs' ->
  ~ holds L xs j -> holds L xs' j ->
  waiting xs j /\ tbl s1 = tbl s /\
  (flag_at (tbl s) (node x j) (other (role x j)) = Some 0 \/
   turn_at (tbl s) (node x j) <> Some (other (role x j))).
Proof.
  intros Hinv Hj Hs Hx Hx1 Hno Hh. destruct Hs as [s ps t' ps' procs' Hp Hstep Hz].
  rewrite Hp in Hx. injection Hx as ->. simpl in Hx1.
  rewrite (zget_zset_eq _ _ _ _ Hz) in Hx1. injection Hx1 as ->.
  pose proof (zget_is_proc _ _ _ _ _ _ _ Hinv Hp) as Px.
  pose proof (inv_pc _ _ _ _ _ Hinv _ _ Hp) as Hok. unfold is_level in Hj.
  destruct xs as [|i a| |i c|i c|]; simpl in Hok; try done.
  - simpl in Hstep. destruct (L <=? 0); simplify_eq/=; [done|]. naive_solver lia.
  - destruct Hok as [Hi Hrv].
    apply proc_step_acq in Hstep as [(rv & -> & -> & ->)|(a' & Hstep & ->)].
    + exfalso. apply Hno. rewrite (Hrv rv eq_refl) in *.
      by apply (same_view_climb L i Hi j Hj).
    + simpl in Hh, Hno. destruct Hh as [Hh|[-> ->]]; [tauto|].
      pose proof Hstep as Hstep'.
      apply acquire_step_effect in Hstep as [Hn _];
        [|by apply (inv_tbl _ _ _ _ _ Hinv)|by eapply inv_live|by eapply layout_role].
      pose proof (acquire_step_reads _ _ _ _ _ _ Hstep') as Hread.
      destruct a; simpl in Hn, Hread; try done; simpl;
        (split; [tauto|split; [by apply Hread|]]).
      * left. destruct Hn as [[? _]|[_ ?]]; done.
      * right. destruct Hn as [[_ ?]|[? _]]; done.
  - exfalso. apply Hno. destruct Hok as [Hi Hrv].
    apply proc_step_rel in Hstep as [(rv & -> & -> & ->)|(c' & Hstep & ->)].
    + rewrite (Hrv rv eq_refl) in *. by apply (same_view_rel L i Hi j Hj).
    + simpl in Hh |- *. destruct Hh as [?|[-> Hc]]; [tauto|]. right.
      split; [done|]. destruct c; simpl in Hstep; tauto || naive_solver.
Qed.

(** The turn of a lock only changes when its user reaches [ASetTurn]. *)
Lemma step_turn x s s1 xs m :
  inv nproc L node role s -> sys_step_by L node role x s s1 ->
  zget (procs s) x = Some xs ->
  turn_at (tbl s1) m = turn_at (tbl s) m \/
  exists i, xs = PAcq i ASetTurn /\ is_level L i /\ m = node x i.
Proof.
  intros Hinv Hs Hx. destruct Hs as [s ps t' xs' procs' Hp Hstep Hz].
  rewrite Hp in Hx. injection Hx as ->. simpl.
  pose proof (zget_is_proc _ _ _ _ _ _ _ Hinv Hp) as Px.
  pose proof (inv_pc _ _ _ _ _ Hinv _ _ Hp) as Hok.
  destruct xs as [|i a| |i c|i c|]; simpl in Hok; try done.
  - left. simpl in Hstep. by destruct (L <=? 0); simplify_eq/=.
  - destruct Hok as [Hi Hrv].
    apply proc_step_acq in Hstep as [(rv & -> & -> & _)|(a' & Hstep & ->)]; [by left|].
    apply acquire_step_effect in Hstep as [Hn' [E1 E2 E3 E4]];
      [|by apply (inv_tbl _ _ _ _ _ Hinv)|by eapply inv_live|by eapply layout_role].
    rewrite E4. destruct a; simpl; auto. case_decide; eauto.
  - left. simpl in Hstep. by destruct (0 <? L); simplify_eq/=.
  - left. destruct Hok as [Hi Hrv].
    apply proc_step_rel in Hstep as [(rv & -> & -> & _)|(c' & Hstep & ->)]; [done|].
    apply release_step_effect in Hstep as [_ [E1 E2 E3 E4]];
      [|by apply (inv_tbl _ _ _ _ _ Hinv)|by eapply inv_live|by eapply layout_role].
    by rewrite E4.
Qed.

(** A step with [q] waiting before and after it leaves at most as many
    overtakings as before, one less if it is one. *)
Lemma bypass_step q j x s s1 :
  inv nproc L node role s -> is_level L j ->
  sys_step_by L node role x s s1 -> waits q j s -> waits q j s1 ->
  (can_bypass q j s1 -> can_bypass q j s) /\
  (x <> q -> node x j = node q j -> enters x j s s1 ->
   can_bypass q j s /\ ~ can_bypass q j s1).
Proof.
  intros Hinv Hj Hs (qs & Hq & Hwq) (qs1 & Hq1 & Hwq1).
  pose proof Hs as Hs0. destruct Hs0 as [s xs t' xs' procs' Hx Hstep Hz].
  pose proof (zget_is_proc _ _ _ _ _ _ _ Hinv Hx) as Px.
  pose proof (zget_is_proc _ _ _ _ _ _ _ Hinv Hq) as Pq.
  assert (Hx1 : zget (procs (Sys t' procs')) x = Some xs') by eauto with kernel.
  assert (Hsame : forall y, y <> x ->
            zget (procs (Sys t' procs')) y = zget (procs s) y)
    by (intros y Hy; simpl; by apply (zget_zset_ne _ _ _ _ _ Hz)).
  split.
  - intros (y & ys & Hy & Hyq & Hn & Hwy & Ht).
    destruct (decide (y = x)) as [->|Hyx].
    + rewrite Hx1 in Hy. injection Hy as <-.
      destruct (step_to_waiting x s _ xs xs' j Hinv Hj Hs Hx Hx1 Hwy)
        as [[Hw E]|[-> E]].
      * rewrite E in Ht. by exists x, xs.
      * exfalso. apply Ht. rewrite <- Hn, E. f_equal.
        eapply (slot_unique nproc L node role s x q); eauto using waiting_flagged, flagged_competes.
        by left; right; right.
    + exists y, ys. rewrite Hsame in Hy by done. repeat split; try done.
      intros Ht0. apply Ht. simpl.
      destruct (step_turn x s _ xs (node q j) Hinv Hs Hx) as [E|(i & -> & Hi & Hni)];
        [simpl in E; congruence|]. exfalso.
      assert (j = i) as -> by (eapply (layout_level nproc L node role q x); eauto).
      destruct (decide (x = q)) as [->|Hxq].
      * rewrite Hx in Hq. injection Hq as <-. by destruct Hwq as [_ [[=]|[[=]|[=]]]].
      * eapply (three_users nproc L node role s x q y);
          eauto using waiting_flagged, flagged_competes. by left; right; right.
  - intros Hxq Hn (xs0 & xs1 & Hx0 & Hx1' & Hno & Hh).
    rewrite Hx in Hx0. injection Hx0 as <-. rewrite Hx1 in Hx1'. injection Hx1' as <-.
    destruct (step_to_holds x s _ xs xs' j Hinv Hj Hs Hx Hx1 Hno Hh) as (Hw & E & Hchk).
    assert (other (role x j) = role q j) as Ho
      by (eapply (slot_unique nproc L node role s x q); eauto using waiting_flagged, flagged_competes).
    rewrite Hn, Ho in Hchk. split.
    + exists x, xs. repeat split; try done. destruct Hchk as [Hf|Ht]; [|done].
      pose proof (inv_flag _ _ _ _ _ Hinv q qs j Hq Hj (waiting_flagged L qs j Hwq)).
      congruence.
    + intros (y & ys & Hy & Hyq & Hn' & Hwy & _).
      destruct (decide (y = x)) as [->|Hyx].
      * rewrite Hx1 in Hy. injection Hy as <-.
        destruct xs'; simpl in Hwy, Hh; try done.
        destruct Hwy as [-> Hwy]. clear - Hwy Hh. naive_solver lia.
      * rewrite Hsame in Hy by done.
        eapply (three_users nproc L node role s x q y);
          eauto using waiting_flagged, flagged_competes; congruence.
Qed.

Lemma bypass_bound q j s n s' :
  0 < L -> inv nproc L node role s -> is_level L j -> bypass q j s n s' ->
  (n <= 1)%nat /\ (~ can_bypass q j s -> n = 0%nat).
Proof.
  intros HL0 Hinv Hj Hb.
  induction Hb as [s Hw|s s1 s' x n Hw Hs Hno Hb IH|s s1 s' x n Hw Hs Hxq Hn He Hb IH].
  - auto.
  - destruct (bypass_step q j x s s1) as [Hmono _]; eauto using bypass_waits.
    destruct IH as [IH1 IH2]; [by eapply inv_step|]. split; [done|tauto].
  - destruct (bypass_step q j x s s1) as [_ Hent]; eauto using bypass_waits.
    destruct (Hent Hxq Hn He) as [Hcan Hnot].
    destruct IH as [IH1 IH2]; [by eapply inv_step|].
    rewrite (IH2 Hnot). split; [lia|tauto].
Qed.
End Bypass.

Section Progress.
Context (nproc : nat) (L : Z) (node role : Z -> Z -> Z).
Context {HL : Layout nproc L node role} (HL0 : 0 < L).

Local Abbreviation linv := (inv nproc L node role).
Local Abbreviation lreach := (reach (sys_step L node role)).

(** [s'] is [s] after steps of [p] only, which leave the others alone. *)
Record moved (p : Z) (s s' : sys) (ps' : pstate) : Prop := Moved {
  moved_reach : lreach s s';
  moved_inv : linv s';
  moved_self : zget (procs s') p = Some ps';
  moved_other q : q <> p -> zget (procs s') q = zget (procs s) q
}.

Lemma moved_trans p s s1 s2 ps1 ps2 :
  moved p s s1 ps1 -> moved p s1 s2 ps2 -> moved p s s2 ps2.
Proof.
  intros [R1 I1 S1 O1] [R2 I2 S2 O2].
  constructor; [by eapply reach_trans|done|done|].
  intros q Hq. rewrite O2, O1 by done. done.
Qed.

Lemma moved_refl p s ps : linv s -> zget (procs s) p = Some ps -> moved p s s ps.
Proof. constructor; eauto with kernel. Qed.

Lemma moved_one p s ps t' ps' :
  linv s -> zget (procs s) p = Some ps ->
  proc_step L node role p (tbl s) ps = Some (t', ps') ->
  exists s', moved p s s' ps' /\ tbl s' = t'.
Proof.
  intros Hinv Hp Hstep. pose proof (proj1 (zget_Some _ _ _) Hp) as [Hin _].
  exists (Sys t' (<[Z.to_nat p := ps']> (procs s))).
  assert (sys_step_by L node role p s (Sys t' (<[Z.to_nat p := ps']> (procs s)))) as Hs
    by (econstructor; eauto with kernel).
  split; [|done]. constructor; simpl.
  - eapply reach_step; [apply reach_refl|]. by exists p.
  - by eapply inv_step.
  - eapply zget_zset_eq. by apply zset_in.
  - intros q Hq. eapply zget_zset_ne; [by apply zset_in|done].
Qed.

(** One access of acquire. *)
Lemma moved_acquire p s i a :
  linv s -> zget (procs s) p = Some (PAcq i a) -> (forall rv, a <> ADone rv) ->
  exists s' a', moved p s s' (PAcq i a') /\
    acquire_next (tbl s) (node p i) (role p i) a a' /\
    step_effect (tbl s) (tbl s') (node p i) (role p i)
      (acquire_newflag a) (acquire_newturn a (role p i)).
Proof.
  intros Hinv Hp Hne. pose proof (zget_is_proc _ _ _ _ _ _ _ Hinv Hp) as Pp.
  destruct (inv_pc _ _ _ _ _ Hinv _ _ Hp) as [Hi _].
  pose proof (inv_tbl _ _ _ _ _ Hinv) as Ht.
  pose proof (inv_live _ _ _ _ _ Hinv p i Pp Hi) as Hl.
  pose proof (layout_role nproc L node role p i Pp Hi) as Hr.
  destruct (acquire_step_total (tbl s) (node p i) (role p i) a Ht Hl Hr Hne)
    as [[t' a'] Hstep].
  destruct (acquire_step_effect _ _ _ _ _ _ Ht Hl Hr Hstep) as [Hn He].
  destruct (moved_one p s (PAcq i a) t' (PAcq i a')) as (s' & Hm & <-); try done.
  - assert (forall t0, proc_step L node role p t0 (PAcq i a)
              = ('(t', a') ← acquire_step t0 (node p i) (role p i) a;
                 Some (t', PAcq i a'))) as -> by (destruct a; done || by destruct (Hne rv)).
    by rewrite Hstep.
  - eauto.
Qed.

(** A requesting process reaches the wait loop by itself. *)
Lemma moved_to_wait p s i a :
  linv s -> zget (procs s) p = Some (PAcq i a) -> (forall rv, a <> ADone rv) ->
  exists s' a', moved p s s' (PAcq i a') /\ waiting (PAcq i a') i.
Proof.
  intros Hinv Hp Hne.
  assert (forall s, linv s -> zget (procs s) p = Some (PAcq i ASetTurn) ->
    exists s', moved p s s' (PAcq i AReadFlag)) as Hturn.
  { intros s1 I1 P1. by destruct (moved_acquire p s1 i ASetTurn)
      as (s2 & a2 & Hm & -> & _); eauto. }
  assert (forall s, linv s -> zget (procs s) p = Some (PAcq i ASetFlag) ->
    exists s', moved p s s' (PAcq i AReadFlag)) as Hflag.
  { intros s1 I1 P1. destruct (moved_acquire p s1 i ASetFlag)
      as (s2 & a2 & Hm & -> & _); try done. 
    destruct (Hturn s2) as [s3 Hm3]; [by destruct Hm..|].
    eauto using moved_trans. }
  destruct a; try (exists s; eexists; split; [by apply moved_refl|simpl; tauto]).
  - destruct (moved_acquire p s i ACheck) as (s2 & a2 & Hm & -> & _); try done.
    destruct (Hflag s2) as [s3 Hm3]; [by destruct Hm..|].
    exists s3. eexists. split; [by eapply moved_trans|simpl; tauto].
  - destruct (Hflag s) as [s3 Hm3]; [done..|]. exists s3. eexists. split; [done|simpl; tauto].
  - destruct (Hturn s) as [s3 Hm3]; [done..|]. exists s3. eexists. split; [done|simpl; tauto].
  - by destruct (Hne rv).
Qed.

(** A waiting process whose check succeeds gets the lock by itself. *)
Lemma moved_win p s i a :
  linv s -> zget (procs s) p = Some (PAcq i a) -> waiting (PAcq i a) i ->
  flag_at (tbl s) (node p i) (other (role p i)) = Some 0 \/
  turn_at (tbl s) (node p i) <> Some (other (role p i)) ->
  exists s', moved p s s' (PAcq i (ADone 0)).
Proof.
  intros Hinv Hp Hw Hchk.
  set (good t := flag_at t (node p i) (other (role p i)) = Some 0 \/
                 turn_at t (node p i) <> Some (other (role p i))).
  assert (forall s, linv s -> zget (procs s) p = Some (PAcq i AReadTurn) ->
    turn_at (tbl s) (node p i) <> Some (other (role p i)) ->
    exists s', moved p s s' (PAcq i (ADone 0))) as Hturn.
  { intros s1 I1 P1 Ht. destruct (moved_acquire p s1 i AReadTurn)
      as (s2 & a2 & Hm & [[? _]|[_ ->]] & _); try done. eauto. }
  assert (forall s, linv s -> zget (procs s) p = Some (PAcq i AReadFlag) ->
    good (tbl s) -> exists s', moved p s s' (PAcq i (ADone 0))) as Hflag.
  { intros s1 I1 P1 Hg. destruct (moved_acquire p s1 i AReadFlag)
      as (s2 & a2 & Hm & [[Hf ->]|[Hf ->]] & [_ _ E3 E4]); try done; [eauto|].
    destruct (Hturn s2) as [s3 Hm3]; [by destruct Hm..| |eauto using moved_trans].
    simpl in E4. rewrite E4. destruct Hg; [congruence|done]. }
  assert (forall s, linv s -> zget (procs s) p = Some (PAcq i AYield) ->
    good (tbl s) -> exists s', moved p s s' (PAcq i (ADone 0))) as Hyield.
  { intros s1 I1 P1 Hg. destruct (moved_acquire p s1 i AYield)
      as (s2 & a2 & Hm & -> & [_ _ E3 E4]); try done.
    destruct (Hflag s2) as [s3 Hm3]; [by destruct Hm..| |eauto using moved_trans].
    simpl in E3, E4. unfold good. by rewrite E3, E4. }
  destruct Hw as [_ [->|[->| ->]]]; [by apply Hflag| |by apply Hyield].
  destruct (moved_acquire p s i AReadTurn)
    as (s2 & a2 & Hm & [[Ht ->]|[Ht ->]] & [_ _ E3 E4]); try done; [|eauto].
  destruct (Hyield s2) as [s3 Hm3]; [by destruct Hm..| |eauto using moved_trans].
  simpl in E3, E4. unfold good. by rewrite E3, E4.
Qed.

(** Nobody else has its flag up on the lock [p] uses at level [j]. *)
Definition alone (p j : Z) (s : sys) : Prop :=
  forall q qs, zget (procs s) q = Some qs -> q <> p -> node q j = node p j ->
    ~ flagged L qs j.

Lemma moved_alone p s s' ps' j : moved p s s' ps' -> alone p j s -> alone p j s'.
Proof. intros Hm Ha q qs Hq Hqp. rewrite (moved_other _ _ _ _ Hm) in Hq by done. eauto. Qed.

Lemma alone_flag p s ps j :
  linv s -> zget (procs s) p = Some ps -> is_level L j -> alone p j s ->
  flag_at (tbl s) (node p j) (other (role p j)) = Some 0.
Proof.
  intros Hinv Hp Hj Ha. pose proof (zget_is_proc _ _ _ _ _ _ _ Hinv Hp) as Pp.
  pose proof (layout_role nproc L node role p j Pp Hj) as Hr.
  destruct (other_role _ Hr) as [_ Ho].
  destruct (live_fields (tbl s) (node p j) (other (role p j))) as (f & k & Hf & _);
    [by apply (inv_tbl _ _ _ _ _ Hinv)|by eapply inv_live|done|].
  rewrite Hf. f_equal. destruct (decide (f = 0)) as [|Hne]; [done|exfalso].
  destruct (inv_raised _ _ _ _ _ Hinv p j (other (role p j)) f)
    as (q & qs & Hq & Hn & Hrq & Hfq); try done.
  apply (Ha q qs Hq); try done. intros ->. by apply (other_ne (role p j)).
Qed.

Lemma moved_level p s i a :
  linv s -> zget (procs s) p = Some (PAcq i a) -> (forall rv, a <> ADone rv) ->
  alone p i s -> exists s', moved p s s' (PAcq i (ADone 0)).
Proof.
  intros Hinv Hp Hne Ha.
  destruct (moved_to_wait p s i a Hinv Hp Hne) as (s1 & a1 & Hm & Hw).
  pose proof Hm as [_ I1 P1 _].
  destruct (inv_pc _ _ _ _ _ I1 _ _ P1) as [Hi _].
  destruct (moved_win p s1 i a1) as [s2 Hm2]; eauto using moved_trans.
  left. eapply alone_flag; eauto using moved_alone.
Qed.

Lemma moved_climb (n : nat) p s i :
  linv s -> i = Z.of_nat n -> zget (procs s) p = Some (PAcq i (ADone 0)) ->
  (forall j, 0 <= j < i -> alone p j s) -> exists s', moved p s s' PCrit.
Proof.
  revert s i. induction n as [|n IH]; intros s i Hinv Hi Hp Ha.
  - destruct (moved_one p s (PAcq i (ADone 0)) (tbl s) PCrit) as (s1 & Hm & _);
      [done|done| |eauto]. subst i. done.
  - destruct (moved_one p s (PAcq i (ADone 0)) (tbl s) (PAcq (i - 1) ACheck))
      as (s1 & Hm & _); [done|done| |].
    { simpl. by destruct (Z.ltb_spec (i - 1) 0); [lia|]. }
    pose proof Hm as [_ I1 P1 _].
    destruct (moved_level p s1 (i - 1) ACheck) as [s2 Hm2]; try done.
    { eapply moved_alone; [done|]. apply Ha. lia. }
    pose proof Hm2 as [_ I2 P2 _].
    destruct (IH s2 (i - 1)) as [s3 Hm3]; [done|lia|done| |eauto using moved_trans].
    intros j Hj. do 2 (eapply moved_alone; [done|]). apply Ha. lia.
Qed.

(** Nobody has its flag up below level [i]. *)
Definition low (i : Z) (s : sys) : Prop :=
  forall x xs j, zget (procs s) x = Some xs -> 0 <= j < i -> ~ flagged L xs j.

Lemma acq_not_below i a j : j < i -> ~ flagged L (PAcq i a) j.
Proof. intros Hj [[?|[? _]]|[[? _]|[=]]]; simpl in *; lia. Qed.

Lemma moved_low p s s' i a : moved p s s' (PAcq i a) -> low i s -> low i s'.
Proof.
  intros [_ _ Hp Ho] Hl x xs j Hx Hj. destruct (decide (x = p)) as [->|Hxp].
  - rewrite Hp in Hx. injection Hx as <-. apply acq_not_below. lia.
  - rewrite Ho in Hx by done. eauto.
Qed.

Lemma low_crit p s i :
  linv s -> low i s -> zget (procs s) p = Some (PAcq i (ADone 0)) ->
  exists s', moved p s s' PCrit.
Proof.
  intros Hinv Hl Hp. destruct (inv_pc _ _ _ _ _ Hinv _ _ Hp) as [Hi _].
  unfold is_level in Hi. apply (moved_climb (Z.to_nat i) p s i); try done; [lia|].
  intros j Hj q qs Hq _ _. by apply (Hl q).
Qed.

(** Among the acquiring processes one is at a lowest level. *)
Lemma lowest_level (n : nat) s p i a :
  linv s -> i <= Z.of_nat n -> zget (procs s) p = Some (PAcq i a) ->
  exists q j b, zget (procs s) q = Some (PAcq j b) /\
    forall x k c, zget (procs s) x = Some (PAcq k c) -> j <= k.
Proof.
  intros Hinv. revert p i a. induction n as [|n IH]; intros p i a Hi Hp.
  - exists p, i, a. split; [done|]. intros x k c Hx.
    destruct (inv_pc _ _ _ _ _ Hinv _ _ Hx) as [Hk _]. unfold is_level in Hk. lia.
  - destruct (existsb (fun ps => match ps with PAcq k _ => k <? i | _ => false end)
                (procs s)) eqn:E.
    + apply existsb_exists in E as (ps & Hin & Hlt). destruct ps as [|k c| | | |]; try done.
      apply list_elem_of_In, list_elem_of_lookup in Hin as [x Hx]. zbool.
      apply (IH (Z.of_nat x) k c); [lia|]. apply zget_Some. rewrite Nat2Z.id.
      split; [|done]. apply lookup_lt_Some in Hx. lia.
    + exists p, i, a. split; [done|]. intros x k c [_ Hx]%zget_Some.
      destruct (Z.le_gt_cases i k) as [|Hlt]; [done|exfalso].
      assert (existsb (fun ps => match ps with PAcq k _ => k <? i | _ => false end)
                (procs s) = true); [|congruence].
      apply existsb_exists. exists (PAcq k c).
      split; [by eapply list_elem_of_In, list_elem_of_lookup_2|by apply Z.ltb_lt].
Qed.

(** Two processes that want the same lock: one of them gets it. *)
Lemma duel s p q i a b :
  linv s -> p <> q -> node p i = node q i ->
  zget (procs s) p = Some (PAcq i a) -> (forall rv, a <> ADone rv) ->
  zget (procs s) q = Some (PAcq i b) -> (forall rv, b <> ADone rv) ->
  low i s ->
  exists s' w, lreach s s' /\ linv s' /\ low i s' /\
    zget (procs s') w = Some (PAcq i (ADone 0)).
Proof.
  intros Hinv Hpq Hn Hp Ha Hq Hb Hl.
  destruct (moved_to_wait p s i a Hinv Hp Ha) as (s1 & a1 & Hm1 & Hw1).
  pose proof Hm1 as [R1 I1 P1 O1]. rewrite <- (O1 q) in Hq by done.
  destruct (moved_to_wait q s1 i b I1 Hq Hb) as (s2 & b2 & Hm2 & Hw2).
  pose proof Hm2 as [R2 I2 Q2 O2]. rewrite <- (O2 p) in P1 by done.
  pose proof (zget_is_proc _ _ _ _ _ _ _ I2 P1) as Pp.
  destruct (inv_pc _ _ _ _ _ I2 _ _ P1) as [Hi _].
  assert (other (role p i) = role q i) as Ho
    by (eapply (slot_unique nproc L node role s2 p q);
        eauto using waiting_flagged, flagged_competes).
  assert (low i s2) as Hl2 by eauto using moved_low.
  destruct (inv_trole _ _ _ _ _ I2 p i Pp Hi) as (k & Hk & Hrk).
  pose proof (layout_role nproc L node role p i Pp Hi) as Hr.
  destruct (role_dichotomy (role p i) k Hr Hrk) as [<-|<-].
  - destruct (moved_win p s2 i a1) as [s3 Hm3]; try done.
    { right. rewrite Hk. intros [= E]. by apply (other_ne (role p i)). }
    pose proof Hm3 as [R3 I3 P3 _]. exists s3, p.
    split; [|by eauto using moved_low]. eauto using reach_trans.
  - destruct (moved_win q s2 i b2) as [s3 Hm3]; try done.
    { right. rewrite <- Hn, Hk, Ho. intros [= E].
      apply (other_ne (role q i)); [rewrite <- Ho; by apply other_role|done]. }
    pose proof Hm3 as [R3 I3 P3 _]. exists s3, q.
    split; [|by eauto using moved_low]. eauto using reach_trans.
Qed.

(** When somebody is acquiring and nobody is inside or leaving, there is a
    continuation in which somebody gets inside. *)
Lemma progress s p i a :
  linv s -> zget (procs s) p = Some (PAcq i a) ->
  (forall x xs, zget (procs s) x = Some xs -> xs = PIdle \/ exists k c, xs = PAcq k c) ->
  exists s' w, lreach s s' /\ zget (procs s') w = Some PCrit.
Proof.
  intros Hinv Hp0 Hall.
  destruct (lowest_level (Z.to_nat i) s p i a Hinv ltac:(lia) Hp0)
    as (q & j & b & Hq & Hmin). clear p i a Hp0.
  assert (low j s) as Hl.
  { intros x xs k Hx Hk Hf. destruct (Hall x xs Hx) as [->|(m & c & ->)].
    - destruct Hf as [?|[?|[=]]]; done.
    - pose proof (Hmin x m c Hx). apply (acq_not_below m c k); [lia|done]. }
  assert (exists s1 w, lreach s s1 /\ linv s1 /\ low j s1 /\
            zget (procs s1) w = Some (PAcq j (ADone 0)))
    as (s1 & w & R1 & I1 & L1 & W1).
  { pose proof (zget_is_proc _ _ _ _ _ _ _ Hinv Hq) as Pq.
    destruct (inv_pc _ _ _ _ _ Hinv _ _ Hq) as [Hj Hrv].
    assert (b = ADone 0 \/ forall rv, b <> ADone rv) as [->|Hb]
      by (destruct b; try (right; done); left; by rewrite (Hrv rv eq_refl)).
    { exists s, q. eauto using reach_refl. }
    pose proof (layout_role nproc L node role q j Pq Hj) as Hr.
    destruct (other_role _ Hr) as [_ Hro].
    destruct (live_fields (tbl s) (node q j) (other (role q j))) as (f & k & Hf & _);
      [by apply (inv_tbl _ _ _ _ _ Hinv)|by eapply inv_live|done|].
    destruct (decide (f = 0)) as [->|Hne].
    - destruct (moved_to_wait q s j b Hinv Hq Hb) as (s1 & b1 & Hm1 & Hw1).
      destruct (moved_level q s j b Hinv Hq Hb) as [s2 Hm2].
      + intros x xs Hx Hxq Hn Hfx.
        pose proof (inv_flag _ _ _ _ _ Hinv x xs j Hx Hj Hfx) as Hfx1.
        pose proof Hm1 as [R1 I1 Q1 O1].
        rewrite <- (slot_unique nproc L node role s1 q x _ xs j I1 Q1), Hn in Hfx1;
          try done; [congruence|by rewrite O1|auto using waiting_flagged, flagged_competes|
                     by apply flagged_competes].
      + pose proof Hm2 as [R2 I2 Q2 O2]. exists s2, q. eauto using moved_low.
    - destruct (inv_raised _ _ _ _ _ Hinv q j (other (role q j)) f)
        as (x & xs & Hx & Hn & Hrx & Hfx); try done.
      assert (x <> q) by (intros ->; by apply (other_ne (role q j))).
      destruct (Hall x xs Hx) as [->|(m & c & ->)];
        [by destruct Hfx as [?|[?|[=]]]|].
      assert (m = j) as ->.
      { pose proof (Hmin x m c Hx). destruct (Z.eq_dec m j) as [|Hmj]; [done|].
        exfalso. apply (acq_not_below m c j); [lia|done]. }
      destruct (inv_pc _ _ _ _ _ Hinv _ _ Hx) as [_ Hrvx].
      assert (c = ADone 0 \/ forall rv, c <> ADone rv) as [->|Hc]
        by (destruct c; try (right; done); left; by rewrite (Hrvx rv eq_refl)).
      + exists s, x. eauto using reach_refl.
      + eapply (duel s q x); eauto. }
  destruct (low_crit w s1 j I1 L1 W1) as [s2 Hm2].
  exists s2, w. split; [|by destruct Hm2]. eapply reach_trans; [done|by destruct Hm2].
Qed.
End Progress.
