(* ===== verification/Tournament.v ===== *)
(** The tournament tree of [user/libtournament.c] and the two-process use of
    one lock in [user/test_peterson.c].

    Processes climb a complete binary tree of Peterson locks.  The library
    state of a process is [tourn]; [tournament_create] allocates the locks
    and forks the processes, [tournament_step] is one memory access of
    [tournament_acquire] / [tournament_release], and [tsys_step] interleaves
    the processes.  Fork and malloc are arguments: whether each of them
    succeeds. *)

From S2P Require Import Prelude Peterson Ladder LadderProgress.

(** ** The library *)

Record tourn : Type := Tourn {
  proc_id : Z;
  num_processes : Z;
  num_levels : Z;
  lock_ids : option (list Z)     (** [None] is the null pointer *)
}.

Definition tourn0 : tourn := Tourn 0 0 0 None.

Definition bad_count (processes : Z) : bool :=
  (processes <=? 0) || (16 <? processes) ||
  negb (Z.land processes (processes - 1) =? 0).

Definition destroy_all (ids : list Z) (t : table) : table :=
  fold_left (fun t id => (petersonlock_destroy t id).2) ids t.

(** The loop that fills [lock_ids]: [n] locks are still to be created. *)
Fixpoint create_locks (n : nat) (ids : list Z) (t : table) : option (list Z) * table :=
  match n with
  | O => (Some ids, t)
  | S n =>
      let '(r, t1) := petersonlock_create t in
      if r <? 0 then (None, destroy_all ids t1)
      else create_locks n (ids ++ [r]) t1
  end.

(** [while (temp > 1) { temp >>= 1; num_levels++; }] *)
Fixpoint count_levels (fuel : nat) (temp levels : Z) : Z :=
  match fuel with
  | O => levels
  | S fuel =>
      if 1 <? temp then count_levels fuel (Z.shiftr temp 1) (levels + 1)
      else levels
  end.

(** A process that comes out of [tournament_create]: what the call returned
    in it, and its copy of the library state. *)
Definition outcome : Type := Z * tourn.

(** The fork loop from index [i] on, with [n] children to go: the parent's
    outcome and those of the children. *)
Fixpoint fork_loop (n : nat) (i : Z) (fork_ok : Z -> bool) (st : tourn)
  : outcome * list outcome :=
  match n with
  | O => ((proc_id st, st), [])
  | S n =>
      if fork_ok i then
        let '(parent, children) := fork_loop n (i + 1) fork_ok st in
        (parent, (i, Tourn i (num_processes st) (num_levels st) (lock_ids st)) :: children)
      else ((-1, st), [])
  end.

Definition tournament_create (processes : Z) (malloc_ok : bool)
    (fork_ok : Z -> bool) (st : tourn) (t : table)
  : (outcome * list outcome) * table :=
  if bad_count processes then ((-1, st, []), t)
  else if negb malloc_ok then
    ((-1, Tourn (proc_id st) processes (num_levels st) None, []), t)
  else
    match create_locks (Z.to_nat (processes - 1)) [] t with
    | (None, t') => ((-1, Tourn (proc_id st) processes (num_levels st) None, []), t')
    | (Some ids, t') =>
        let st' := Tourn (proc_id st) processes (count_levels 32 processes 0) (Some ids) in
        (fork_loop (Z.to_nat (processes - 1)) 1 fork_ok st', t')
    end.

(** Role and lock index of process [pid] at loop index [i] of a tree with
    [levels] levels. *)
Definition level_role (levels pid i : Z) : Z :=
  let shift := levels - i - 1 in
  Z.shiftr (Z.land pid (Z.shiftl 1 shift)) shift.

Definition level_node (levels pid i : Z) : Z :=
  let lock_level_idx := Z.shiftr pid (levels - i) in
  lock_level_idx + Z.shiftl 1 i - 1.

(** One access of the library code of a process with state [st]. *)
Definition tournament_step (st : tourn) (t : table) (ps : pstate)
  : option (table * pstate) :=
  match ps with
  | PIdle =>
      Some (t, if (num_processes st =? 0) || (num_levels st =? 0) ||
                  bool_decide (lock_ids st = None)
               then PFailed else PAcq (num_levels st - 1) ACheck)
  | _ =>
      proc_step (num_levels st) (level_node (num_levels st))
        (level_role (num_levels st)) (proc_id st) t ps
  end.

(** Several processes, each with its library state, on one lock table. *)
Inductive tsys_step (ts : list tourn) : sys -> sys -> Prop :=
| TsysStep s p st ps t' ps' procs' :
    zget ts p = Some st ->
    zget (procs s) p = Some ps ->
    tournament_step st (tbl s) ps = Some (t', ps') ->
    zset (procs s) p ps' = Some procs' ->
    tsys_step ts s (Sys t' procs').

(** The same, for a given schedule of process indices. *)
Fixpoint run_schedule (ts : list tourn) (sched : list Z) (s : sys) : option sys :=
  match sched with
  | [] => Some s
  | p :: sched =>
      st ← zget ts p; ps ← zget (procs s) p;
      '(t', ps') ← tournament_step st (tbl s) ps;
      procs' ← zset (procs s) p ps';
      run_schedule ts sched (Sys t' procs')
  end.

(** The processes of a created tournament. *)
Definition tournament_procs (r : (outcome * list outcome) * table) : list tourn :=
  r.1.1.2 :: (snd <$> r.1.2).

Definition start_sys (t : table) (n : nat) : sys := Sys t (replicate n PIdle).

(** A kernel that has just run [petersonlock_init]. *)
Definition boot_table : table := petersonlock_init zeroed_table.

(** ** The tree is a layout *)

Lemma level_role_bit k p i :
  0 <= i < k -> level_role k p i = Z.b2z (Z.testbit p (k - i - 1)).
Proof.
  intros Hi. unfold level_role. apply Z.bits_inj'. intros n Hn.
  rewrite Z.shiftr_spec, Z.land_spec, Z.shiftl_spec by lia.
  replace (n + (k - i - 1) - (k - i - 1)) with n by lia.
  destruct (decide (n = 0)) as [->|Hn0].
  - rewrite Z.add_0_l. by destruct (Z.testbit p (k - i - 1)).
  - assert (Z.testbit 1 n = false) as E by (apply Z.bits_above_log2; simpl; lia).
    rewrite E, andb_false_r. destruct (Z.testbit p (k - i - 1)); simpl;
      [done|by rewrite Z.testbit_0_l].
Qed.

Lemma level_node_div k p i :
  0 <= i < k -> level_node k p i = p / 2 ^ (k - i) + 2 ^ i - 1.
Proof.
  intros Hi. unfold level_node. rewrite Z.shiftr_div_pow2, Z.shiftl_1_l by lia. done.
Qed.

(** The locks of level [i] are numbered from [2^i - 1] on. *)
Lemma level_node_range k p i :
  0 <= i < k -> 0 <= p < 2 ^ k ->
  2 ^ i - 1 <= level_node k p i < 2 ^ (i + 1) - 1.
Proof.
  intros Hi Hp. rewrite level_node_div by done.
  assert (0 <= p / 2 ^ (k - i) < 2 ^ i); [|rewrite Z.pow_add_r by lia; lia].
  split; [apply Z.div_pos; lia|]. apply Z.div_lt_upper_bound; [lia|].
  rewrite <- Z.pow_add_r by lia. replace (k - i + i) with k by lia. lia.
Qed.

(** One bit of a process number lies between two consecutive levels. *)
Lemma half_step p m :
  0 <= m -> p / 2 ^ m = 2 * (p / 2 ^ (m + 1)) + Z.b2z (Z.testbit p m).
Proof.
  intros Hm. rewrite Z.testbit_spec' by done.
  rewrite Z.pow_add_r, Z.pow_1_r, <- Z.div_div by lia.
  apply Z.div_mod. lia.
Qed.

#[export] Instance tournament_layout (n : nat) k :
  1 <= k <= 4 -> Z.of_nat n <= 2 ^ k -> Layout n k (level_node k) (level_role k).
Proof.
  intros Hk Hn. unfold is_proc, is_level.
  constructor; unfold is_proc, is_level.
  - intros p j _ Hj. rewrite level_role_bit by done. unfold is_role.
    destruct (Z.testbit p (k - j - 1)); auto.
  - intros p j Hp Hj. pose proof (level_node_range k p j Hj ltac:(lia)).
    assert (2 ^ j >= 1 /\ 2 ^ (j + 1) <= 2 ^ 4); [|unfold MAX_PETERSON_LOCKS; lia].
    split; [|apply Z.pow_le_mono_r; lia]. pose proof (Z.pow_pos_nonneg 2 j). lia.
  - intros p q j i Hp Hq Hj Hi E.
    pose proof (level_node_range k p j Hj ltac:(lia)).
    pose proof (level_node_range k q i Hi ltac:(lia)).
    destruct (Z.lt_trichotomy j i) as [Hlt|[->|Hlt]]; [exfalso|done|exfalso].
    + pose proof (Z.pow_le_mono_r 2 (j + 1) i). lia.
    + pose proof (Z.pow_le_mono_r 2 (i + 1) j). lia.
  - intros p q j Hp Hq Hj Hj1 En Er.
    rewrite !level_node_div in * by lia. rewrite !level_role_bit in Er by lia.
    pose proof (half_step p (k - j - 1) ltac:(lia)) as Ep.
    pose proof (half_step q (k - j - 1) ltac:(lia)) as Eq.
    replace (k - (j + 1)) with (k - j - 1) by lia.
    replace (k - j - 1 + 1) with (k - j) in * by lia. lia.
  - intros p q Hp Hq Hk1 En Er.
    rewrite !level_node_div in * by lia. rewrite !level_role_bit in Er by lia.
    replace (k - (k - 1)) with 1 in * by lia. replace (1 - 1) with 0 in * by lia.
    pose proof (half_step p 0 ltac:(lia)) as Ep.
    pose proof (half_step q 0 ltac:(lia)) as Eq.
    rewrite Z.pow_0_r, Z.div_1_r, Z.add_0_l in Ep, Eq. lia.
Qed.

(** Two processes that use the two roles of one lock. *)
#[export] Instance pair_layout id :
  0 <= id < MAX_PETERSON_LOCKS -> Layout 2 1 (fun _ _ => id) (fun p _ => p).
Proof.
  intros Hid. constructor; unfold is_proc, is_level, is_role; intros; try done; lia.
Qed.

(** ** What [tournament_create] sets up *)

Lemma count_levels_pow2 (fuel : nat) (k : Z) l :
  0 <= k < Z.of_nat fuel -> count_levels fuel (2 ^ k) l = l + k.
Proof.
  revert k l. induction fuel as [|fuel IH]; intros k l Hk; [lia|].
  cbn [count_levels]. destruct (decide (k = 0)) as [->|Hk0]; [simpl; lia|].
  assert (1 < 2 ^ k) by (apply Z.pow_gt_1; lia).
  rewrite (proj2 (Z.ltb_lt 1 (2 ^ k))) by done.
  replace (Z.shiftr (2 ^ k) 1) with (2 ^ (k - 1)); [rewrite IH; lia|].
  rewrite Z.shiftr_div_pow2, Z.pow_1_r by lia. rewrite Z.pow_sub_r, Z.pow_1_r by lia. done.
Qed.

Definition fresh_lock : peterson_lock := PLock 1 [0; 0] 0.

(** The outcome of creating a tournament of [2^k] processes on a booted
    kernel when nothing fails. *)
Definition created (k : Z) : (outcome * list outcome) * table :=
  tournament_create (2 ^ k) true (fun _ => true) tourn0 boot_table.

Lemma created_spec k :
  1 <= k <= 4 ->
  table_ok (created k).2 /\
  (forall i, 0 <= i < 2 ^ k - 1 -> zget (created k).2 i = Some fresh_lock) /\
  length (tournament_procs (created k)) = Z.to_nat (2 ^ k) /\
  (forall p st, zget (tournament_procs (created k)) p = Some st ->
     st = Tourn p (2 ^ k) k (Some (seqZ 0 (2 ^ k - 1)))).
Proof.
  intros Hk.
  assert (Forall (fun k =>
      table_ok (created k).2 /\
      Forall (fun i => zget (created k).2 i = Some fresh_lock) (seqZ 0 (2 ^ k - 1)) /\
      length (tournament_procs (created k)) = Z.to_nat (2 ^ k) /\
      tournament_procs (created k) =
        (fun p => Tourn p (2 ^ k) k (Some (seqZ 0 (2 ^ k - 1)))) <$> seqZ 0 (2 ^ k))
    [1; 2; 3; 4]) as Hall.
  { repeat apply Forall_cons; [..|apply Forall_nil; done];
      (split; [split; [reflexivity|vm_compute; repeat constructor]|
       split; [vm_compute; repeat constructor|split; reflexivity]]). }
  rewrite Forall_forall in Hall. destruct (Hall k) as (H1 & H2 & H3 & H4).
  { assert (k = 1 \/ k = 2 \/ k = 3 \/ k = 4) by lia. set_solver. }
  rewrite Forall_forall in H2. split_and!; [done| |done|].
  - intros i Hi. apply H2, list_elem_of_In, elem_of_seqZ. lia.
  - intros p st [Hp Hst]%zget_Some. rewrite H4 in Hst.
    apply list_lookup_fmap_Some in Hst as (q & -> & Hq).
    apply lookup_seqZ in Hq as [-> Hq]. f_equal. lia.
Qed.

Lemma created_init k :
  1 <= k <= 4 ->
  init (Z.to_nat (2 ^ k)) k (level_node k)
    (start_sys (created k).2 (Z.to_nat (2 ^ k))).
Proof.
  intros Hk. destruct (created_spec k Hk) as (Hok & Hfresh & _ & _).
  assert (forall p j, is_proc (Z.to_nat (2 ^ k)) p -> is_level k j ->
            0 <= level_node k p j < MAX_PETERSON_LOCKS /\
            zget (created k).2 (level_node k p j) = Some fresh_lock) as Hnode.
  { unfold is_proc, is_level. intros p j Hp Hj.
    assert (0 < 2 ^ k) by (apply Z.pow_pos_nonneg; lia).
    pose proof (level_node_range k p j Hj ltac:(lia)) as Hr.
    pose proof (Z.pow_le_mono_r 2 (j + 1) k ltac:(lia) ltac:(lia)).
    pose proof (Z.pow_le_mono_r 2 k 4 ltac:(lia) ltac:(lia)).
    pose proof (Z.pow_pos_nonneg 2 j ltac:(lia) ltac:(lia)).
    split; [unfold MAX_PETERSON_LOCKS; lia|]. apply Hfresh. lia. }
  constructor; simpl; try done; [lia|..].
  - intros p j Hp Hj. destruct (Hnode p j Hp Hj) as [Hr Hz]. split; [done|].
    unfold active_at. rewrite Hz. by exists 1.
  - intros p j r Hp Hj Hr. destruct (Hnode p j Hp Hj) as [_ Hz].
    unfold flag_at. rewrite Hz. by destruct Hr as [->| ->].
  - intros p j Hp Hj. destruct (Hnode p j Hp Hj) as [_ Hz].
    unfold turn_at. rewrite Hz. exists 0. split; [done|by left].
Qed.

(** A step of the created processes is a step of the ladder. *)
Lemma tsys_ladder k s s' :
  1 <= k <= 4 -> tsys_step (tournament_procs (created k)) s s' ->
  sys_step k (level_node k) (level_role k) s s'.
Proof.
  intros Hk Hs. destruct Hs as [s p st ps t' ps' procs' Hst Hp Hstep Hz].
  destruct (created_spec k Hk) as (_ & _ & _ & Hids).
  rewrite (Hids p st Hst) in Hstep. exists p. econstructor; try done.
  destruct ps; try exact Hstep. simpl in Hstep |- *.
  rewrite (proj2 (Z.leb_gt k 0)) by lia. rewrite <- Hstep.
  assert (0 < 2 ^ k) by (apply Z.pow_pos_nonneg; lia).
  rewrite (proj2 (Z.eqb_neq (2 ^ k) 0)), (proj2 (Z.eqb_neq k 0)) by lia. done.
Qed.

Lemma tsys_reach_ladder k s0 s :
  1 <= k <= 4 -> reach (tsys_step (tournament_procs (created k))) s0 s ->
  reach (sys_step k (level_node k) (level_role k)) s0 s.
Proof. intros Hk Hr. induction Hr; eauto using reach, tsys_ladder. Qed.

Lemma tournament_inv k s :
  1 <= k <= 4 ->
  reach (tsys_step (tournament_procs (created k)))
    (start_sys (created k).2 (Z.to_nat (2 ^ k))) s ->
  inv (Z.to_nat (2 ^ k)) k (level_node k) (level_role k) s.
Proof.
  intros Hk Hr. eapply inv_reachable.
  - apply tournament_layout; [done|].
    rewrite Z2Nat.id by (apply Z.pow_nonneg; lia). lia.
  - by apply created_init.
  - by apply tsys_reach_ladder.
Qed.

(** ** Safety *)

Lemma level_node_root k p : 1 <= k -> 0 <= p < 2 ^ k -> level_node k p 0 = 0.
Proof.
  intros Hk Hp. rewrite level_node_div by lia.
  replace (k - 0) with k by lia. rewrite Z.div_small by done. done.
Qed.

(** C1. Mutual exclusion of the tournament: for 2, 4, 8 or 16 processes
    created on a freshly initialised lock table, in every interleaving of the
    memory accesses of [tournament_acquire] and [tournament_release], at most
    one process is between a successful acquire and its release. *)
Theorem tournament_mutual_exclusion (k : Z) (s : sys) (p q : Z) :
  1 <= k <= 4 ->
  reach (tsys_step (tournament_procs (created k)))
    (start_sys (created k).2 (Z.to_nat (2 ^ k))) s ->
  zget (procs s) p = Some PCrit -> zget (procs s) q = Some PCrit -> p = q.
Proof.
  intros Hk Hr Hp Hq. pose proof (tournament_inv k s Hk Hr) as Hinv.
  pose proof (zget_is_proc _ _ _ _ _ _ _ Hinv Hp) as Pp.
  pose proof (zget_is_proc _ _ _ _ _ _ _ Hinv Hq) as Pq.
  unfold is_proc in Pp, Pq. rewrite Z2Nat.id in Pp, Pq by (apply Z.pow_nonneg; lia).
  destruct (decide (p = q)) as [|Hpq]; [done|exfalso].
  apply (inv_mutex _ _ _ _ _ Hinv p q PCrit PCrit 0);
    unfold is_level; simpl; try done; try lia.
  by rewrite !level_node_root by lia.
Qed.

Lemma run_schedule_reach ts sched s s' :
  run_schedule ts sched s = Some s' -> reach (tsys_step ts) s s'.
Proof.
  revert s. induction sched as [|p sched IH]; intros s; simpl.
  - intros [= <-]. apply reach_refl.
  - destruct (zget ts p) as [st|] eqn:E1; [simpl|done].
    destruct (zget (procs s) p) as [ps|] eqn:E2; [simpl|done].
    destruct (tournament_step st (tbl s) ps) as [[t' ps']|] eqn:E3; [simpl|done].
    destruct (zset (procs s) p ps') as [procs'|] eqn:E4; [simpl|done].
    intros H. eapply reach_trans; [|by apply IH].
    eapply reach_step; [apply reach_refl|]. by econstructor.
Qed.

Definition solo_state : option sys :=
  run_schedule (tournament_procs (created 1)) (replicate 6 0) (start_sys (created 1).2 2).

Lemma tournament_mutual_exclusion_witness :
  exists s, zget (procs s) 0 = Some PCrit /\ (zget (procs s) 1 = Some PCrit -> 0 = 1).
Proof.
  destruct solo_state as [s|] eqn:E; [|vm_compute in E; discriminate E].
  exists s. split; [vm_compute in E; injection E as <-; reflexivity|].
  intros H1. apply (tournament_mutual_exclusion 1 s 0 1).
  - lia.
  - exact (run_schedule_reach _ _ _ _ E).
  - vm_compute in E; injection E as <-; reflexivity.
  - exact H1.
Defined.

(** With every lock created and none destroyed, the library calls never
    fail: no process ever sees -1 from [tournament_acquire] or
    [tournament_release], or is on the release path of a failed acquire. *)
Theorem tournament_never_fails (k : Z) (s : sys) (p : Z) (ps : pstate) :
  1 <= k <= 4 ->
  reach (tsys_step (tournament_procs (created k)))
    (start_sys (created k).2 (Z.to_nat (2 ^ k))) s ->
  zget (procs s) p = Some ps -> ps <> PFailed /\ forall j c, ps <> PUndo j c.
Proof.
  intros Hk Hr Hp. pose proof (tournament_inv k s Hk Hr) as Hinv.
  pose proof (inv_pc _ _ _ _ _ Hinv p ps Hp) as Hok. by destruct ps.
Qed.

Lemma tournament_never_fails_witness : PIdle <> PFailed.
Proof.
  apply (tournament_never_fails 2 (start_sys (created 2).2 4) 3 PIdle).
  - lia.
  - apply reach_refl.
  - reflexivity.
Defined.

(** C18. Deadlock freedom: whenever some process is in [tournament_acquire]
    and nobody is in the critical section or releasing, the execution can be
    continued so that a process enters the critical section. *)
Theorem tournament_deadlock_free (k : Z) (s : sys) (p i : Z) (a : acquire_pc) :
  1 <= k <= 4 ->
  reach (tsys_step (tournament_procs (created k)))
    (start_sys (created k).2 (Z.to_nat (2 ^ k))) s ->
  zget (procs s) p = Some (PAcq i a) ->
  (forall x xs, zget (procs s) x = Some xs -> xs = PIdle \/ exists j c, xs = PAcq j c) ->
  exists s' w,
    reach (sys_step k (level_node k) (level_role k)) s s' /\
    zget (procs s') w = Some PCrit.
Proof.
  intros Hk Hr Hp Hall.
  assert (Layout (Z.to_nat (2 ^ k)) k (level_node k) (level_role k))
    by (apply tournament_layout; [done|rewrite Z2Nat.id by (apply Z.pow_nonneg; lia); lia]).
  eapply (progress (Z.to_nat (2 ^ k)) k (level_node k) (level_role k)); try done; [lia|].
  by apply tournament_inv.
Qed.

Definition both_waiting : option sys :=
  run_schedule (tournament_procs (created 1)) [0; 1; 0; 1; 0; 1; 0; 1; 0; 1]
    (start_sys (created 1).2 2).

Lemma tournament_deadlock_free_witness :
  exists s s' w,
    zget (procs s) 0 = Some (PAcq 0 AReadTurn) /\
    zget (procs s) 1 = Some (PAcq 0 AReadTurn) /\
    reach (sys_step 1 (level_node 1) (level_role 1)) s s' /\
    zget (procs s') w = Some PCrit.
Proof.
  destruct both_waiting as [s|] eqn:E; [|vm_compute in E; discriminate E].
  pose proof (run_schedule_reach _ _ _ _ E) as Hr.
  vm_compute in E. injection E as <-.
  destruct (tournament_deadlock_free 1 _ 0 0 AReadTurn ltac:(lia) Hr eq_refl)
    as (s' & w & Hr' & Hw).
  - intros x xs [Hx Hl]%zget_Some. simpl in Hx, Hl.
    destruct (Z.to_nat x) as [|[|n]]; simpl in Hl; [right; injection Hl as <-; eauto..|].
    discriminate Hl.
  - eexists _, s', w. split; [|split; [|split; [exact Hr'|exact Hw]]]; reflexivity.
Defined.

(** C19. Bounded overtaking: while a process waits for the lock of one level,
    another process is given that lock at most once. *)
Theorem tournament_bounded_bypass (k : Z) (s s' : sys) (q j : Z) (n : nat) :
  1 <= k <= 4 -> 0 <= j < k ->
  reach (tsys_step (tournament_procs (created k)))
    (start_sys (created k).2 (Z.to_nat (2 ^ k))) s ->
  bypass k (level_node k) (level_role k) q j s n s' -> (n <= 1)%nat.
Proof.
  intros Hk Hj Hr Hb.
  assert (Layout (Z.to_nat (2 ^ k)) k (level_node k) (level_role k))
    by (apply tournament_layout; [done|rewrite Z2Nat.id by (apply Z.pow_nonneg; lia); lia]).
  eapply (bypass_bound (Z.to_nat (2 ^ k)) k (level_node k) (level_role k));
    [..|exact Hb]; [lia|by apply tournament_inv|done].
Qed.

Lemma tournament_bounded_bypass_witness : (1 <= 1)%nat.
Proof.
  destruct both_waiting as [s|] eqn:E; [|vm_compute in E; discriminate E].
  pose proof (run_schedule_reach _ _ _ _ E) as Hr. vm_compute in E.
  injection E as Es.
  apply (tournament_bounded_bypass 1 s
           (Sys (tbl s) [PAcq 0 (ADone 0); PAcq 0 AReadTurn]) 1 0 1).
  - lia.
  - lia.
  - exact Hr.
  - subst s. eapply (bypass_enter _ _ _ 1 0 _ _ _ 0 0).
    + exists (PAcq 0 AReadTurn). split; [reflexivity|simpl; tauto].
    + eapply (SysStep _ _ _ 0); reflexivity.
    + discriminate.
    + reflexivity.
    + eexists _, _. split; [reflexivity|]. split; [reflexivity|]. simpl.
      split; [intros [H|[_ H]]; [lia|discriminate H]|by right].
    + apply bypass_refl. exists (PAcq 0 AReadTurn). split; [reflexivity|simpl; tauto].
Defined.

(** Two processes that use the single lock [id], each in the role of its own
    number. *)
Definition pair_step (id : Z) : sys -> sys -> Prop :=
  sys_step 1 (fun _ _ => id) (fun p _ => p).

(** Peterson's lock between two processes: on any lock in use with both
    flags down, processes that stick to the roles 0 and 1 are never in the
    critical section together, whatever the interleaving of their accesses. *)
Theorem peterson_mutual_exclusion (id : Z) (s0 s : sys) :
  0 <= id < MAX_PETERSON_LOCKS ->
  init 2 1 (fun _ _ => id) s0 ->
  reach (pair_step id) s0 s ->
  ~ (zget (procs s) 0 = Some PCrit /\ zget (procs s) 1 = Some PCrit).
Proof.
  intros Hid H0 Hr [Hp Hq]. pose proof (pair_layout id Hid) as HL.
  pose proof (inv_reachable 2 1 _ _ s0 s H0 Hr) as Hinv.
  by apply (inv_mutex _ _ _ _ _ Hinv 0 1 PCrit PCrit 0).
Qed.

Lemma peterson_mutual_exclusion_witness :
  let s := start_sys (petersonlock_create zeroed_table).2 2 in
  ~ (zget (procs s) 0 = Some PCrit /\ zget (procs s) 1 = Some PCrit).
Proof.
  intros s. apply (peterson_mutual_exclusion 0 s s).
  - unfold MAX_PETERSON_LOCKS. lia.
  - constructor; try done.
    + split; [reflexivity|vm_compute; repeat constructor].
    + intros p j _ _. split; [unfold MAX_PETERSON_LOCKS; lia|]. by exists 1.
    + intros p j r _ _ [->| ->]; reflexivity.
    + intros p j _ _. exists 0. split; [reflexivity|by left].
  - apply reach_refl.
Defined.

(** ** Creation, and what it gets wrong *)

(** [tournament_create] accepts exactly the process counts 1, 2, 4, 8
    and 16, and rejects the others before it touches anything. *)
Theorem bad_count_spec (processes : Z) :
  bad_count processes = false <-> processes ∈ [1; 2; 4; 8; 16].
Proof.
  unfold bad_count. split.
  - intros H. zbool. apply negb_false_iff, Z.eqb_eq in H0.
    assert (processes = 1 \/ processes = 2 \/ processes = 3 \/ processes = 4 \/
      processes = 5 \/ processes = 6 \/ processes = 7 \/ processes = 8 \/
      processes = 9 \/ processes = 10 \/ processes = 11 \/ processes = 12 \/
      processes = 13 \/ processes = 14 \/ processes = 15 \/ processes = 16) as Hcase by lia.
    destruct_or! Hcase; subst; try (vm_compute in H0; discriminate H0); set_solver.
  - intros H. repeat (apply elem_of_cons in H as [->|H]; [reflexivity|]).
    by apply not_elem_of_nil in H.
Qed.

Lemma destroy_active (t : table) (r i : Z) :
  is_active (petersonlock_destroy t r).2 i <->
  is_active t i /\ ~ (i = r /\ bad_lock t r = false).
Proof.
  unfold petersonlock_destroy. destruct (bad_lock t r) eqn:Hb; simpl; [naive_solver|].
  apply bad_lock_false in Hb as [Hr (lk & Hlk & Ha)]. rewrite Hlk. simpl.
  pose proof (proj1 (zget_Some _ _ _) Hlk) as [Hin _].
  pose proof (zset_in t r (set_active lk 0) Hin) as Hz. unfold is_active.
  destruct (decide (i = r)) as [->|Hne].
  - rewrite (zget_zset_eq _ _ _ _ Hz). naive_solver.
  - rewrite (zget_zset_ne _ _ i _ _ Hz) by done. naive_solver.
Qed.

Lemma destroy_all_active (ids : list Z) (t : table) i :
  Forall (fun r => 0 <= r < MAX_PETERSON_LOCKS) ids ->
  is_active (destroy_all ids t) i <-> is_active t i /\ i ∉ ids.
Proof.
  revert t. induction ids as [|r ids IH]; intros t Hids; simpl.
  - split; [intros ?; split; [done|apply not_elem_of_nil]|by intros [? _]].
  - apply Forall_cons_1 in Hids as [Hr Hids]. unfold destroy_all in *.
    rewrite IH, destroy_active, not_elem_of_cons by done.
    destruct (bad_lock t r) eqn:Hb; [|naive_solver].
    destruct (decide (i = r)) as [->|]; [|naive_solver].
    split; [|naive_solver]. intros [[Ha _] _].
    assert (bad_lock t r = false); [by apply bad_lock_false|congruence].
Qed.

Lemma create_binary (t : table) :
  Forall (fun lk => active lk = 0 \/ active lk = 1) t ->
  Forall (fun lk => active lk = 0 \/ active lk = 1) (petersonlock_create t).2.
Proof.
  intros H. unfold petersonlock_create.
  destruct (create_from_spec t 0 H) as [[_ ->]|(k & lk & _ & _ & _ & ->)]; simpl; [done|].
  apply Forall_insert; [done|by right].
Qed.

(** Creating locks one by one: the numbers collected so far are exactly the
    ones that became active. *)
Lemma create_locks_restore n ids t0 t :
  table_ok t -> Forall (fun lk => active lk = 0 \/ active lk = 1) t ->
  Forall (fun r => 0 <= r < MAX_PETERSON_LOCKS) ids ->
  (forall i, is_active t i <-> is_active t0 i \/ i ∈ ids) ->
  (forall i, i ∈ ids -> ~ is_active t0 i) ->
  forall t', create_locks n ids t = (None, t') ->
  forall i, is_active t' i <-> is_active t0 i.
Proof.
  revert ids t. induction n as [|n IH]; intros ids t Hok Hbin Hids Hact Hnew t' Hc i; [done|].
  cbn [create_locks] in Hc. pose proof (create_binary t Hbin) as Hbin1.
  pose proof (create_from_spec t 0 Hbin) as Hspec. unfold petersonlock_create in *.
  destruct Hspec as [[_ E]|(k & lk & Hk & Ha & Hf & E)]; rewrite E in Hc, Hbin1; simpl in Hc.
  - injection Hc as <-. rewrite destroy_all_active by done. rewrite Hact.
    split; [naive_solver|]. intros H. split; [by left|]. intros Hi. by apply (Hnew i).
  - pose proof (lookup_lt_Some _ _ _ Hk) as Hlt. destruct Hok as [Hlen Hok].
    assert ((0 + Z.of_nat k <? 0) = false) as E1 by (apply Z.ltb_ge; lia).
    rewrite E1, Z.add_0_l in Hc. simpl in Hbin1.
    assert (~ is_active t (Z.of_nat k)) as Hfree.
    { intros (lk' & [_ Hlk']%zget_Some & Hne). rewrite Nat2Z.id in Hlk'. congruence. }
    eapply (IH _ _) with (t' := t'); [..|exact Hc].
    + apply table_ok_insert; [by split|done].
    + done.
    + apply Forall_app; split; [done|]. apply Forall_singleton.
      unfold MAX_PETERSON_LOCKS in *. lia.
    + intros x. rewrite elem_of_app, list_elem_of_singleton.
      assert (is_active (<[k:=PLock 1 [0; 0] 0]> t) x <-> x = Z.of_nat k \/ is_active t x) as ->.
      { pose proof (zset_in t (Z.of_nat k) (PLock 1 [0; 0] 0) ltac:(lia)) as Hz.
        rewrite Nat2Z.id in Hz. unfold is_active.
        destruct (decide (x = Z.of_nat k)) as [->|Hne].
        - rewrite (zget_zset_eq _ _ _ _ Hz). naive_solver.
        - rewrite (zget_zset_ne _ _ x _ _ Hz) by done. naive_solver. }
      rewrite Hact. naive_solver.
    + intros x [Hx|Hx]%elem_of_app; [by apply Hnew|].
      apply list_elem_of_singleton in Hx as ->. intros Ha0. apply Hfree, Hact. by left.
Qed.

Lemma destroy_all_other (ids : list Z) (t : table) i :
  i ∉ ids -> zget (destroy_all ids t) i = zget t i.
Proof.
  revert t. induction ids as [|r ids IH]; intros t Hi; [done|]. apply not_elem_of_cons in Hi as [Hne Hi].
  unfold destroy_all in *. cbn [fold_left]. rewrite IH by done. unfold petersonlock_destroy.
  destruct (bad_lock t r); [done|]. destruct (zget t r) as [lk|] eqn:Hr; [|done]. cbn [snd].
  apply (zget_zset_ne t r i (set_active lk 0)); [|done]. apply zget_Some in Hr as [Hin _]. by apply zset_in.
Qed.

(** Locks in use are not touched. *)
Lemma create_locks_keep n ids t i t' :
  Forall (fun lk => active lk = 0 \/ active lk = 1) t -> is_active t i -> i ∉ ids ->
  create_locks n ids t = (None, t') -> zget t' i = zget t i.
Proof.
  revert ids t. induction n as [|n IH]; intros ids t Hbin Hact Hi Hc; [done|].
  cbn [create_locks] in Hc. pose proof (create_binary t Hbin) as Hbin1.
  pose proof (create_from_spec t 0 Hbin) as Hspec. unfold petersonlock_create in *.
  destruct Hspec as [[_ E]|(k & lk & Hk & Ha & _ & E)]; rewrite E in Hc, Hbin1; simpl in Hc, Hbin1.
  - injection Hc as <-. by apply destroy_all_other.
  - rewrite Z.add_0_l in Hc. replace (Z.of_nat k <? 0) with false in Hc by (symmetry; apply Z.ltb_ge; lia).
    assert (i <> Z.of_nat k) as Hne.
    { intros ->. destruct Hact as (lk' & [_ Hlk']%zget_Some & Hn). rewrite Nat2Z.id in Hlk'. congruence. }
    assert (zget (<[k := PLock 1 [0; 0] 0]> t) i = zget t i) as Hsame.
    { eapply (zget_zset_ne t (Z.of_nat k) i); [|done]. pose proof (lookup_lt_Some _ _ _ Hk).
      rewrite zset_in, Nat2Z.id by lia. done. }
    rewrite <- Hsame. apply (IH (ids ++ [Z.of_nat k])); [exact Hbin1| |set_solver|exact Hc].
    unfold is_active. by rewrite Hsame.
Qed.

(** C22. When the kernel runs out of locks in the middle of
    [tournament_create], the call returns -1 in the caller, forks nobody and
    destroys every lock it had created: the same locks are in use as before,
    and their entries of the lock table are unchanged.  (An entry not in use
    may be left with the initial flags of a lock.) *)
Theorem create_failure_restores (n : Z) (fork_ok : Z -> bool) (st : tourn) (t : table)
    (t' : table) :
  table_ok t -> Forall (fun lk => active lk = 0 \/ active lk = 1) t ->
  bad_count n = false ->
  create_locks (Z.to_nat (n - 1)) [] t = (None, t') ->
  (exists st', tournament_create n true fork_ok st t = ((-1, st', []), t') /\
     lock_ids st' = None) /\
  forall i, (is_active t' i <-> is_active t i) /\ (is_active t i -> zget t' i = zget t i).
Proof.
  intros Hok Hbin Hn Hc. split.
  - unfold tournament_create. rewrite Hn, Hc. simpl. eauto.
  - intros i0. split; [|intros Ha; by eapply create_locks_keep; [| |apply not_elem_of_nil|]].
    revert i0. eapply create_locks_restore; [done|done|apply Forall_nil; done| | |done].
    + intros i. rewrite elem_of_nil. tauto.
    + intros i Hi. by apply not_elem_of_nil in Hi.
Qed.

Lemma create_failure_restores_witness :
  exists t', create_locks 3 [] (created 3).2 <> (None, t') /\
  forall i, (is_active (create_locks 15 [] (created 3).2).2 i <-> is_active (created 3).2 i) /\
    (is_active (created 3).2 i -> zget (create_locks 15 [] (created 3).2).2 i = zget (created 3).2 i).
Proof.
  exists (created 3).2. split; [vm_compute; discriminate|].
  apply (create_failure_restores 16 (fun _ => true) tourn0 (created 3).2
           (create_locks 15 [] (created 3).2).2).
  - split; [reflexivity|vm_compute; repeat constructor].
  - apply (bool_decide_unpack _). vm_compute. exact I.
  - reflexivity.
  - reflexivity.
Defined.

(** A second tournament of two processes, created while the first exists. *)
Definition second : (outcome * list outcome) * table :=
  tournament_create 2 true (fun _ => true) tourn0 (created 1).2.

Definition two_tournaments : list tourn :=
  tournament_procs (created 1) ++ tournament_procs second.

(** The library asks the kernel for lock numbers, stores them in
    [lock_ids] and then locks by tree position instead: a tournament whose
    root lock is number 1 acquires lock 0, which it does not own. *)
Theorem foreign_lock_used :
  Forall (fun st => lock_ids st = Some [1] /\
                    tournament_step st second.2 PIdle = Some (second.2, PAcq 0 ACheck) /\
                    level_node (num_levels st) (proc_id st) 0 = 0)
    (tournament_procs second).
Proof. repeat apply Forall_cons; [..|apply Forall_nil; done]; repeat split. Qed.

(** As a consequence two tournaments that run at the same time destroy
    each other's exclusion: both processes of the first one get into the
    critical section together. *)
Theorem concurrent_tournaments_break_exclusion :
  exists s, reach (tsys_step two_tournaments) (start_sys second.2 4) s /\
    zget (procs s) 0 = Some PCrit /\ zget (procs s) 1 = Some PCrit.
Proof.
  destruct (run_schedule two_tournaments
              (replicate 6 0 ++ replicate 6 2 ++ replicate 4 2 ++ replicate 6 1)
              (start_sys second.2 4)) as [s|] eqn:E; [|vm_compute in E; discriminate E].
  exists s. split; [exact (run_schedule_reach _ _ _ _ E)|].
  vm_compute in E. injection E as <-. by split.
Qed.

(** The tree of 16 processes uses every lock of the kernel. *)
Lemma tree16_cover i :
  0 <= i < 15 -> exists p j, is_proc 16 p /\ is_level 4 j /\ level_node 4 p j = i.
Proof.
  intros Hi. unfold is_proc, is_level.
  assert (i = 0 \/ 1 <= i < 3 \/ 3 <= i < 7 \/ 7 <= i < 15)
    as [->|[Hc|[Hc|Hc]]] by lia.
  - by exists 0, 0.
  - exists (8 * (i - 1)), 1. rewrite level_node_div by lia. repeat split; try lia.
    change (2 ^ (4 - 1)) with 8. rewrite Z.mul_comm, Z.div_mul; lia.
  - exists (4 * (i - 3)), 2. rewrite level_node_div by lia. repeat split; try lia.
    change (2 ^ (4 - 2)) with 4. rewrite Z.mul_comm, Z.div_mul; lia.
  - exists (2 * (i - 7)), 3. rewrite level_node_div by lia. repeat split; try lia.
    change (2 ^ (4 - 3)) with 2. rewrite Z.mul_comm, Z.div_mul; lia.
Qed.

(** Locks are never given back after a successful creation: once a
    tournament of 16 processes has been created, every later creation of a
    tournament of two or more processes fails, whatever the first one does
    with [tournament_acquire] and [tournament_release]. *)
Theorem locks_exhausted (n : Z) (fork_ok : Z -> bool) (s : sys) :
  bad_count n = false -> 2 <= n ->
  reach (tsys_step (tournament_procs (created 4))) (start_sys (created 4).2 16) s ->
  (tournament_create n true fork_ok tourn0 (tbl s)).1.1.1 = -1.
Proof.
  intros Hn H2 Hr. pose proof (tournament_inv 4 s ltac:(lia) Hr) as Hinv.
  assert (forall i, 0 <= i < 15 -> live (tbl s) i) as Hlive.
  { intros i Hi. destruct (tree16_cover i Hi) as (p & j & Hp & Hj & <-).
    by apply (inv_live _ _ _ _ _ Hinv). }
  assert (Hfull : (petersonlock_create (tbl s)).1 = -1).
  { apply create_from_full, Forall_lookup_2. intros i lk Hlk.
    pose proof (inv_tbl _ _ _ _ _ Hinv) as [Hlen _].
    pose proof (lookup_lt_Some _ _ _ Hlk) as Hlt. rewrite Hlen in Hlt.
    destruct (Hlive (Z.of_nat i)) as [_ (a & Ha & Hne)]; [vm_compute in Hlt; lia|].
    unfold active_at, zget in Ha. rewrite decide_True, Nat2Z.id, Hlk in Ha by lia.
    simpl in Ha. congruence. }
  unfold tournament_create. rewrite Hn. cbn [negb].
  destruct (Z.to_nat (n - 1)) as [|m] eqn:E; [lia|]. cbn [create_locks].
  destruct (petersonlock_create (tbl s)) as [r t1]. simpl in Hfull. by rewrite Hfull.
Qed.

Lemma locks_exhausted_witness :
  (tournament_create 2 true (fun _ => true) tourn0 (created 4).2).1.1.1 = -1.
Proof.
  apply (locks_exhausted 2 (fun _ => true) (start_sys (created 4).2 16)).
  - reflexivity.
  - lia.
  - apply reach_refl.
Defined.
