(* ===== verification/Mem.v ===== *)
(** Byte-addressed memory, and the kernel's [kernel/string.c].

    Memory maps addresses to bytes.  The loops of [string.c] count an unsigned
    [n] down to zero, so each is a recursion on the number of iterations
    left.  A C string is read through [cstr], the bytes before the first NUL.

    Shown: [memmove] copies as if through a temporary for every overlap;
    [memcmp] compares lexicographically; [strncmp], [strncpy] and
    [safestrcpy] have the specified effect on C strings and touch nothing outside their
    destination; [strlen] finds the first NUL. *)

From stdpp Require Import functions.
From S2P Require Import Prelude.

Abbreviation mem := (Z -> Z).

(** ** Loads and stores *)

Definition st8 (m : mem) (a v : Z) : mem := <[a := v]> m.

(** Little-endian values of [k] bytes. *)
Fixpoint ld_le (k : nat) (m : mem) (a : Z) : Z :=
  match k with
  | O => 0
  | S k => m a + 256 * ld_le k m (a + 1)
  end.

Fixpoint st_le (k : nat) (m : mem) (a v : Z) : mem :=
  match k with
  | O => m
  | S k => st_le k (st8 m a (v mod 256)) (a + 1) (v / 256)
  end.

Definition ld64 (m : mem) (a : Z) : Z := ld_le 8 m a.
Definition st64 (m : mem) (a v : Z) : mem := st_le 8 m a v.

Definition bytes_ok (m : mem) : Prop := forall a, 0 <= m a < 256.

(** ** [string.c] *)

Fixpoint memset_loop (k : nat) (m : mem) (dst c : Z) : mem :=
  match k with
  | O => m
  | S k => memset_loop k (st8 m dst (u8 c)) (dst + 1) c
  end.

Definition memset (m : mem) (dst c n : Z) : mem :=
  memset_loop (Z.to_nat n) m dst c.

Fixpoint memcmp_loop (k : nat) (m : mem) (s1 s2 : Z) : Z :=
  match k with
  | O => 0
  | S k =>
      if m s1 =? m s2 then memcmp_loop k m (s1 + 1) (s2 + 1) else m s1 - m s2
  end.

Definition memcmp (m : mem) (v1 v2 n : Z) : Z := memcmp_loop (Z.to_nat n) m v1 v2.

Fixpoint copy_forward (k : nat) (m : mem) (d s : Z) : mem :=
  match k with
  | O => m
  | S k => copy_forward k (st8 m d (m s)) (d + 1) (s + 1)
  end.

Fixpoint copy_backward (k : nat) (m : mem) (d s : Z) : mem :=
  match k with
  | O => m
  | S k => copy_backward k (st8 m (d - 1) (m (s - 1))) (d - 1) (s - 1)
  end.

Definition memmove (m : mem) (dst src n : Z) : mem :=
  if n =? 0 then m
  else if (src <? dst) && (dst <? src + n)
  then copy_backward (Z.to_nat n) m (dst + n) (src + n)
  else copy_forward (Z.to_nat n) m dst src.

Definition memcpy (m : mem) (dst src n : Z) : mem := memmove m dst src n.

Fixpoint strncmp_loop (k : nat) (m : mem) (p q : Z) : Z :=
  match k with
  | O => 0
  | S k =>
      if negb (m p =? 0) && (m p =? m q) then strncmp_loop k m (p + 1) (q + 1)
      else u8 (m p) - u8 (m q)
  end.

Definition strncmp (m : mem) (p q n : Z) : Z := strncmp_loop (Z.to_nat n) m p q.

Fixpoint zero_fill (k : nat) (m : mem) (s : Z) : mem :=
  match k with
  | O => m
  | S k => zero_fill k (st8 m s 0) (s + 1)
  end.

Fixpoint strncpy_loop (k : nat) (m : mem) (s t : Z) : mem :=
  match k with
  | O => m
  | S k =>
      let c := m t in
      let m := st8 m s c in
      if c =? 0 then zero_fill k m (s + 1) else strncpy_loop k m (s + 1) (t + 1)
  end.

Definition strncpy (m : mem) (s t n : Z) : mem := strncpy_loop (Z.to_nat n) m s t.

Fixpoint safestrcpy_loop (k : nat) (m : mem) (s t : Z) : mem :=
  match k with
  | O => st8 m s 0
  | S k =>
      let c := m t in
      let m := st8 m s c in
      if c =? 0 then st8 m (s + 1) 0 else safestrcpy_loop k m (s + 1) (t + 1)
  end.

Definition safestrcpy (m : mem) (s t n : Z) : mem :=
  if n <=? 0 then m else safestrcpy_loop (Z.to_nat (n - 1)) m s t.

(** [strlen] has no bound of its own; [fuel] bounds the scan. *)
Fixpoint strlen_loop (fuel : nat) (m : mem) (s n : Z) : option Z :=
  match fuel with
  | O => None
  | S fuel => if m (s + n) =? 0 then Some n else strlen_loop fuel m s (n + 1)
  end.

Definition strlen (fuel : nat) (m : mem) (s : Z) : option Z := strlen_loop fuel m s 0.

(** The C string at [s], cut at [k] bytes. *)
Fixpoint cstr (k : nat) (m : mem) (s : Z) : list Z :=
  match k with
  | O => []
  | S k => if m s =? 0 then [] else m s :: cstr k m (s + 1)
  end.

(** The [k] bytes at [a]. *)
Definition bytes_at (m : mem) (a : Z) (k : nat) : list Z :=
  (fun i => m (a + i)) <$> seqZ 0 (Z.of_nat k).

Definition disjoint (a n b k : Z) : Prop := a + n <= b \/ b + k <= a.

(** ** Stores *)

Section Stores.
Implicit Types (m : mem).

Lemma st8_eq m a v : st8 m a v a = v.
Proof. apply fn_lookup_insert. Qed.

Lemma st8_ne m a v b : b <> a -> st8 m a v b = m b.
Proof. intros. by apply fn_lookup_insert_ne. Qed.

Lemma st8_case m a v b : st8 m a v b = if b =? a then v else m b.
Proof. destruct (Z.eqb_spec b a) as [->|]; [apply st8_eq|by apply st8_ne]. Qed.

Lemma st_le_out k m a v b :
  b < a \/ a + Z.of_nat k <= b -> st_le k m a v b = m b.
Proof.
  revert m a v. induction k as [|k IH]; intros m a v Hb; cbn [st_le]; [done|].
  rewrite IH by lia. apply st8_ne. lia.
Qed.

Lemma ld_le_ext k m m' a :
  (forall b, a <= b < a + Z.of_nat k -> m b = m' b) -> ld_le k m a = ld_le k m' a.
Proof.
  revert a. induction k as [|k IH]; intros a Heq; cbn [ld_le]; [done|].
  rewrite (Heq a) by lia. by rewrite (IH (a + 1)) by (intros; apply Heq; lia).
Qed.

Lemma ld_st_le_eq k m a v :
  0 <= v < 256 ^ Z.of_nat k -> ld_le k (st_le k m a v) a = v.
Proof.
  revert m a v. induction k as [|k IH]; intros m a v Hv; cbn [ld_le st_le].
  - change (256 ^ Z.of_nat 0) with 1 in Hv. lia.
  - rewrite Nat2Z.inj_succ, Z.pow_succ_r in Hv by lia.
    rewrite IH by (split; [apply Z.div_pos|apply Z.div_lt_upper_bound]; lia).
    rewrite st_le_out by lia. rewrite st8_eq.
    pose proof (Z.div_mod v 256). lia.
Qed.

Lemma ld_st_le_ne k j m a b v :
  disjoint a (Z.of_nat k) b (Z.of_nat j) -> ld_le j (st_le k m a v) b = ld_le j m b.
Proof.
  intros Hd. apply ld_le_ext. intros c Hc. apply st_le_out.
  unfold disjoint in Hd. lia.
Qed.

Lemma st_le_bytes k m a v : bytes_ok m -> bytes_ok (st_le k m a v).
Proof.
  revert m a v. induction k as [|k IH]; intros m a v Hm; cbn [st_le]; [done|].
  apply IH. intros b. rewrite st8_case.
  destruct (b =? a); [apply Z.mod_pos_bound; lia|apply Hm].
Qed.

Lemma ld_le_bound k m a : bytes_ok m -> 0 <= ld_le k m a < 256 ^ Z.of_nat k.
Proof.
  intros Hm. revert a. induction k as [|k IH]; intros a; cbn [ld_le].
  - by change (256 ^ Z.of_nat 0) with 1.
  - rewrite Nat2Z.inj_succ, Z.pow_succ_r by lia.
    specialize (IH (a + 1)). specialize (Hm a). lia.
Qed.

Lemma ld64_st64_eq m a v : 0 <= v < 2 ^ 64 -> ld64 (st64 m a v) a = v.
Proof. intros. by apply ld_st_le_eq. Qed.

Lemma ld64_st64_ne m a b v : disjoint a 8 b 8 -> ld64 (st64 m a v) b = ld64 m b.
Proof. intros. by apply ld_st_le_ne. Qed.

Lemma ld64_bound m a : bytes_ok m -> 0 <= ld64 m a < 2 ^ 64.
Proof. apply ld_le_bound. Qed.
End Stores.

(** ** Loops *)

Section Loops.
Implicit Types (m : mem).

Lemma memset_loop_spec k m dst c a :
  memset_loop k m dst c a =
    if (dst <=? a) && (a <? dst + Z.of_nat k) then u8 c else m a.
Proof.
  revert m dst. induction k as [|k IH]; intros m dst; cbn [memset_loop].
  - zcases; try done; lia.
  - rewrite IH, st8_case. zcases; cbn [andb]; try done; lia.
Qed.

Lemma memset_bytes m dst c n : bytes_ok m -> bytes_ok (memset m dst c n).
Proof.
  intros Hm a. unfold memset. rewrite memset_loop_spec.
  destruct (_ && _); [apply Z.mod_pos_bound; lia|apply Hm].
Qed.

Lemma memset_out m dst c n a :
  a < dst \/ dst + n <= a -> 0 <= n -> memset m dst c n a = m a.
Proof.
  intros Ha Hn. unfold memset. rewrite memset_loop_spec. zcases; cbn; try done; lia.
Qed.

Lemma copy_forward_spec k m d s a :
  ~ (s < d < s + Z.of_nat k) ->
  copy_forward k m d s a =
    if (d <=? a) && (a <? d + Z.of_nat k) then m (s + (a - d)) else m a.
Proof.
  revert m d s. induction k as [|k IH]; intros m d s Hov; cbn [copy_forward].
  - zcases; try done; lia.
  - rewrite IH by lia. rewrite !st8_case. zcases; cbn [andb]; try lia; try done.
    all: f_equal; lia.
Qed.

Lemma copy_backward_spec k m d s a :
  s < d ->
  copy_backward k m d s a =
    if (d - Z.of_nat k <=? a) && (a <? d) then m (s + (a - d)) else m a.
Proof.
  revert m d s. induction k as [|k IH]; intros m d s Hov; cbn [copy_backward].
  - zcases; try done; lia.
  - rewrite IH by lia. rewrite !st8_case. zcases; cbn [andb]; try lia; try done.
    all: f_equal; lia.
Qed.

Lemma memmove_spec m dst src n a :
  0 <= n ->
  memmove m dst src n a =
    if (dst <=? a) && (a <? dst + n) then m (src + (a - dst)) else m a.
Proof.
  intros Hn. unfold memmove. destruct (Z.eqb_spec n 0) as [->|].
  { zcases; try done; lia. }
  destruct (Z.ltb_spec src dst), (Z.ltb_spec dst (src + n)); cbn [andb].
  1: rewrite copy_backward_spec by lia; rewrite Z2Nat.id by lia.
  1: replace (dst + n - n) with dst by lia.
  1: by replace (src + n + (a - (dst + n))) with (src + (a - dst)) by lia.
  all: rewrite copy_forward_spec by lia; by rewrite Z2Nat.id by lia.
Qed.

Lemma memmove_bytes m dst src n : bytes_ok m -> 0 <= n -> bytes_ok (memmove m dst src n).
Proof. intros Hm Hn a. rewrite memmove_spec by done. by destruct (_ && _). Qed.

Lemma memcmp_loop_spec k m s1 s2 :
  (memcmp_loop k m s1 s2 = 0 /\
     forall i, 0 <= i < Z.of_nat k -> m (s1 + i) = m (s2 + i)) \/
  (exists i, 0 <= i < Z.of_nat k /\
     (forall j, 0 <= j < i -> m (s1 + j) = m (s2 + j)) /\
     m (s1 + i) <> m (s2 + i) /\
     memcmp_loop k m s1 s2 = m (s1 + i) - m (s2 + i)).
Proof.
  revert s1 s2. induction k as [|k IH]; intros s1 s2; cbn [memcmp_loop].
  - left. split; [done|lia].
  - destruct (Z.eqb_spec (m s1) (m s2)) as [He|Hne].
    + destruct (IH (s1 + 1) (s2 + 1)) as [[H0 Hall]|(i & Hi & Hlt & Hd & Hr)].
      * left. split; [done|]. intros i Hi. destruct (decide (i = 0)) as [->|].
        -- by rewrite !Z.add_0_r.
        -- specialize (Hall (i - 1)).
           replace (s1 + 1 + (i - 1)) with (s1 + i) in Hall by lia.
           replace (s2 + 1 + (i - 1)) with (s2 + i) in Hall by lia. apply Hall. lia.
      * right. exists (i + 1). split; [lia|].
        replace (s1 + (i + 1)) with (s1 + 1 + i) by lia.
        replace (s2 + (i + 1)) with (s2 + 1 + i) by lia.
        split; [|done]. intros j Hj. destruct (decide (j = 0)) as [->|].
        -- by rewrite !Z.add_0_r.
        -- specialize (Hlt (j - 1)).
           replace (s1 + 1 + (j - 1)) with (s1 + j) in Hlt by lia.
           replace (s2 + 1 + (j - 1)) with (s2 + j) in Hlt by lia. apply Hlt. lia.
    + right. exists 0. rewrite !Z.add_0_r. split; [lia|]. split; [lia|done].
Qed.

Lemma strncmp_loop_zero k m p q :
  bytes_ok m -> strncmp_loop k m p q = 0 <-> cstr k m p = cstr k m q.
Proof.
  intros Hm. revert p q. induction k as [|k IH]; intros p q; cbn [strncmp_loop cstr]; [done|].
  destruct (Z.eqb_spec (m p) 0) as [Hp|Hp]; cbn [negb andb].
  - rewrite Hp. unfold u8. rewrite !Z.mod_small by (try apply Hm; lia).
    destruct (Z.eqb_spec (m q) 0); split; intros H; try done; lia.
  - destruct (Z.eqb_spec (m p) (m q)) as [He|He].
    + rewrite <- He. destruct (Z.eqb_spec (m p) 0); [done|]. rewrite IH.
      split; [by intros ->|by intros [=]].
    + unfold u8. rewrite !Z.mod_small by apply Hm.
      split; [lia|]. destruct (Z.eqb_spec (m q) 0); by intros [=].
Qed.

Lemma zero_fill_spec k m s a :
  zero_fill k m s a = if (s <=? a) && (a <? s + Z.of_nat k) then 0 else m a.
Proof.
  revert m s. induction k as [|k IH]; intros m s; cbn [zero_fill].
  - zcases; try done; lia.
  - rewrite IH, st8_case. zcases; cbn [andb]; try done; lia.
Qed.

Lemma cstr_ext k m m' s :
  (forall a, s <= a < s + Z.of_nat k -> m a = m' a) -> cstr k m s = cstr k m' s.
Proof.
  revert s. induction k as [|k IH]; intros s Heq; cbn [cstr]; [done|].
  rewrite <- (Heq s) by lia. rewrite (IH (s + 1)); [done|]. intros; apply Heq; lia.
Qed.

Lemma strncpy_loop_out k m s t a :
  a < s \/ s + Z.of_nat k <= a -> strncpy_loop k m s t a = m a.
Proof.
  revert m s t. induction k as [|k IH]; intros m s t Ha; cbn [strncpy_loop]; [done|].
  destruct (m t =? 0).
  - rewrite zero_fill_spec, st8_ne by lia. zcases; cbn; try done; lia.
  - rewrite IH by lia. apply st8_ne. lia.
Qed.

Lemma strncpy_loop_in k m s t i :
  disjoint s (Z.of_nat k) t (Z.of_nat k) -> (i < k)%nat ->
  strncpy_loop k m s t (s + Z.of_nat i) = default 0 (cstr k m t !! i).
Proof.
  unfold disjoint. revert m s t i.
  induction k as [|k IH]; intros m s t i Hd Hi; [lia|]. cbn [strncpy_loop cstr].
  destruct (Z.eqb_spec (m t) 0) as [H0|H0].
  - rewrite zero_fill_spec, st8_case. zcases; cbn; try done; lia.
  - destruct i as [|i]; cbn [lookup list_lookup default].
    + rewrite strncpy_loop_out by lia. rewrite Z.add_0_r. apply st8_eq.
    + replace (s + Z.of_nat (S i)) with (s + 1 + Z.of_nat i) by lia.
      rewrite IH by lia. f_equal. f_equal. apply cstr_ext.
      intros. apply st8_ne. lia.
Qed.

Lemma safestrcpy_loop_out k m s t a :
  a < s \/ s + Z.of_nat k < a -> safestrcpy_loop k m s t a = m a.
Proof.
  revert m s t. induction k as [|k IH]; intros m s t Ha; cbn [safestrcpy_loop].
  - apply st8_ne. lia.
  - destruct (m t =? 0); [|rewrite IH by lia]; rewrite !st8_ne by lia; done.
Qed.

Lemma safestrcpy_loop_cstr k m s t :
  disjoint s (Z.of_nat k + 1) t (Z.of_nat k + 1) ->
  cstr (S k) (safestrcpy_loop k m s t) s = cstr k m t.
Proof.
  unfold disjoint. revert m s t. induction k as [|k IH]; intros m s t Hd.
  - cbn. by rewrite st8_eq.
  - cbn [safestrcpy_loop]. destruct (Z.eqb_spec (m t) 0) as [H0|H0].
    + cbn [cstr]. rewrite st8_ne by lia. rewrite st8_eq, H0. done.
    + remember (S k) as k' eqn:Hk'. cbn [cstr]. subst k'.
      rewrite safestrcpy_loop_out by lia. rewrite st8_eq. cbn [cstr].
      destruct (Z.eqb_spec (m t) 0); [done|]. f_equal.
      etrans; [apply IH; lia|]. apply cstr_ext. intros. apply st8_ne. lia.
Qed.

Lemma strlen_loop_spec fuel m s n j :
  0 <= j < Z.of_nat fuel ->
  (forall i, n <= i < n + j -> m (s + i) <> 0) -> m (s + (n + j)) = 0 ->
  strlen_loop fuel m s n = Some (n + j).
Proof.
  revert n j. induction fuel as [|fuel IH]; intros n j Hj Hnz Hz; [lia|].
  cbn [strlen_loop]. destruct (Z.eqb_spec (m (s + n)) 0) as [H0|H0].
  - destruct (decide (j = 0)) as [->|]; [by rewrite Z.add_0_r|].
    exfalso. apply (Hnz n); [lia|done].
  - assert (j <> 0) by (intros ->; rewrite Z.add_0_r in Hz; done).
    rewrite (IH (n + 1) (j - 1)); [f_equal; lia|lia| |].
    + intros i Hi. apply Hnz. lia.
    + by replace (n + 1 + (j - 1)) with (n + j) by lia.
Qed.
End Loops.

(** ** Theorems *)

(** [memmove] is correct for every overlap of source and destination:
    afterwards each byte of the destination is the byte the source held before
    the call, and no other byte has changed. *)
Theorem memmove_copies m dst src n :
  0 <= n ->
  (forall i, 0 <= i < n -> memmove m dst src n (dst + i) = m (src + i)) /\
  (forall a, a < dst \/ dst + n <= a -> memmove m dst src n a = m a).
Proof.
  intros Hn. split.
  - intros i Hi. rewrite memmove_spec by done. zcases; cbn [andb]; try lia. f_equal. lia.
  - intros a Ha. rewrite memmove_spec by done. zcases; cbn [andb]; try lia; done.
Qed.

Lemma memmove_copies_witness :
  memmove (fun a => a mod 256) 12 10 5 16 = 14 /\
  memmove (fun a => a mod 256) 10 12 5 14 = 16.
Proof.
  split.
  - exact (proj1 (memmove_copies (fun a => a mod 256) 12 10 5 ltac:(lia)) 4 ltac:(lia)).
  - exact (proj1 (memmove_copies (fun a => a mod 256) 10 12 5 ltac:(lia)) 4 ltac:(lia)).
Defined.

(** [safestrcpy] always terminates its result: the [n]-byte destination
    then holds, as a C string shorter than [n], the source string cut at
    [n - 1] bytes, and no byte outside the destination has changed. *)
Theorem safestrcpy_terminates m s t n :
  0 < n -> disjoint s n t n ->
  cstr (Z.to_nat n) (safestrcpy m s t n) s = cstr (Z.to_nat (n - 1)) m t /\
  (length (cstr (Z.to_nat n) (safestrcpy m s t n) s) < Z.to_nat n)%nat /\
  (forall a, a < s \/ s + n <= a -> safestrcpy m s t n a = m a).
Proof.
  intros Hn Hd. unfold safestrcpy. destruct (Z.leb_spec n 0); [lia|].
  assert (Hk : Z.to_nat n = S (Z.to_nat (n - 1))) by lia.
  assert (Hlen : forall k m s, (length (cstr k m s) <= k)%nat).
  { clear. induction k as [|k IH]; intros m s; cbn [cstr]; [done|].
    destruct (m s =? 0); cbn; [lia|]. specialize (IH m (s + 1)). lia. }
  rewrite Hk, safestrcpy_loop_cstr; [split_and!; [done| |]|].
  - specialize (Hlen (Z.to_nat (n - 1)) m t). lia.
  - intros a Ha. apply safestrcpy_loop_out. lia.
  - rewrite Z2Nat.id by lia. unfold disjoint in *. lia.
Qed.

Lemma safestrcpy_terminates_witness :
  disjoint 0 3 100 3 /\
  cstr 3 (safestrcpy (fun a => if a <? 100 then 7 else 65) 0 100 3) 0 = [65; 65].
Proof.
  assert (H : disjoint 0 3 100 3) by (unfold disjoint; lia).
  split; [done|].
  exact (proj1 (safestrcpy_terminates (fun a => if a <? 100 then 7 else 65) 0 100 3
    ltac:(lia) H)).
Defined.

(** [memcmp] is lexicographic comparison: it is zero exactly when the two
    ranges agree, and otherwise is the difference of the first pair of bytes
    that differ. *)
Theorem memcmp_lexicographic m s1 s2 n :
  0 <= n ->
  (memcmp m s1 s2 n = 0 <-> forall i, 0 <= i < n -> m (s1 + i) = m (s2 + i)) /\
  (memcmp m s1 s2 n <> 0 -> exists i, 0 <= i < n /\
     (forall j, 0 <= j < i -> m (s1 + j) = m (s2 + j)) /\
     memcmp m s1 s2 n = m (s1 + i) - m (s2 + i)).
Proof.
  intros Hn. unfold memcmp.
  destruct (memcmp_loop_spec (Z.to_nat n) m s1 s2) as [[H0 Hall]|(i & Hi & Hlt & Hd & Hr)];
    rewrite Z2Nat.id in * by lia.
  - split; [split; [done|by intros]|by intros []].
  - split; [|eauto 6]. split; [lia|]. intros Hall. by destruct Hd; apply Hall.
Qed.

Lemma memcmp_lexicographic_witness :
  memcmp (fun a => if a =? 102 then 9 else 7) 0 100 5 = -2 /\
  exists i, 0 <= i < 5.
Proof.
  split; [reflexivity|].
  destruct (proj2 (memcmp_lexicographic (fun a => if a =? 102 then 9 else 7) 0 100 5
    ltac:(lia)) ltac:(vm_compute; discriminate)) as (i & Hi & _).
  exists i. exact Hi.
Defined.
