(* ===== verification/Kalloc.v ===== *)
(** The physical page allocator ([kernel/kalloc.c]).

    The free list is threaded through the free pages themselves: the first
    eight bytes of a free page hold the address of the next one.  The state is
    the physical memory and the list head; [kend] is the first address after
    the kernel image, which the linker script fixes.

    Shown: the linked list in memory refines a stack of page addresses;
    allocation and freeing keep free and allocated pages a partition of the
    pages [kinit] found, whatever the owners of allocated pages write into
    them; an allocated page is filled with junk and nothing else changes. *)

From stdpp Require Import functions.
From S2P Require Import Prelude Mem.

(** ** Constants of [riscv.h] and [memlayout.h] *)

Definition PGSIZE : Z := 4096.
Definition KERNBASE : Z := 0x80000000.
Definition PHYSTOP : Z := KERNBASE + 128 * 1024 * 1024.

Definition PGROUNDUP (sz : Z) : Z := Z.land (sz + PGSIZE - 1) (Z.lnot (PGSIZE - 1)).
Definition PGROUNDDOWN (a : Z) : Z := Z.land a (Z.lnot (PGSIZE - 1)).

(** ** Operations *)

Record kstate : Type := KState { kmem : mem; freelist : Z }.

Section Kalloc.
Context (kend : Z).

Definition kfree (pa : Z) : M kstate unit := fun s =>
  if negb (pa mod PGSIZE =? 0) || (pa <? kend) || (PHYSTOP <=? pa)
  then Panic "kfree"
  else
    let m := memset (kmem s) pa 1 PGSIZE in
    Ok tt {| kmem := st64 m pa (freelist s); freelist := pa |}.

Definition kalloc : M kstate Z := fun s =>
  let r := freelist s in
  if r =? 0 then Ok r s
  else
    let next := ld64 (kmem s) r in
    Ok r {| kmem := memset (kmem s) r 5 PGSIZE; freelist := next |}.

Fixpoint freerange_loop (fuel : nat) (p pa_end : Z) : M kstate unit :=
  match fuel with
  | O => kret tt
  | S fuel =>
      if p + PGSIZE <=? pa_end then
        kfree p ;;; freerange_loop fuel (p + PGSIZE) pa_end
      else kret tt
  end.

(** One iteration per page of the range, and the final test. *)
Definition freerange (pa_start pa_end : Z) : M kstate unit :=
  freerange_loop (Z.to_nat ((pa_end - pa_start) / PGSIZE + 1))
    (PGROUNDUP pa_start) pa_end.

Definition kinit : M kstate unit := freerange kend PHYSTOP.

(** ** Abstract view *)

Definition page_ok (a : Z) : Prop := a mod PGSIZE = 0 /\ kend <= a < PHYSTOP.

#[export] Instance page_ok_dec a : Decision (page_ok a).
Proof. apply _. Defined.

(** [chain m p l]: following the list from [p] visits the pages [l]. *)
Fixpoint chain (m : mem) (p : Z) (l : list Z) : Prop :=
  match l with
  | [] => p = 0
  | a :: l => p = a /\ page_ok a /\ chain m (ld64 m a) l
  end.

Definition free_pages (s : kstate) (l : list Z) : Prop :=
  chain (kmem s) (freelist s) l /\ NoDup l.

Definition in_page (pg a : Z) : Prop := pg <= a < pg + PGSIZE.

(** The allocator together with its clients: [owned] are the pages handed out.
    A client frees a page it owns or writes into it. *)
Record world : Type := World { alloc : kstate; owned : gset Z }.

Inductive client_step (w : world) : world -> Prop :=
| client_kalloc pg s' :
    kalloc (alloc w) = Ok pg s' ->
    client_step w {| alloc := s';
                     owned := if decide (pg = 0) then owned w else {[pg]} ∪ owned w |}
| client_kfree pg s' :
    pg ∈ owned w -> kfree pg (alloc w) = Ok tt s' ->
    client_step w {| alloc := s'; owned := owned w ∖ {[pg]} |}
| client_write pg a v :
    pg ∈ owned w -> in_page pg a ->
    client_step w {| alloc := {| kmem := st8 (kmem (alloc w)) a v;
                                 freelist := freelist (alloc w) |};
                     owned := owned w |}.

(** ** Lemmas *)

Lemma page_disjoint a b :
  a mod PGSIZE = 0 -> b mod PGSIZE = 0 -> a <> b -> disjoint a PGSIZE b PGSIZE.
Proof.
  unfold disjoint, PGSIZE. intros Ha Hb Hne.
  pose proof (Z.div_mod a 4096). pose proof (Z.div_mod b 4096). lia.
Qed.

Lemma ld64_eq (m m' : mem) a :
  (forall b, a <= b < a + 8 -> m b = m' b) -> ld64 m a = ld64 m' a.
Proof. apply (ld_le_ext 8). Qed.

(** A write that leaves the first words of the listed pages alone keeps the list. *)
Lemma chain_ext m m' p l :
  (forall a, a ∈ l -> ld64 m' a = ld64 m a) -> chain m p l -> chain m' p l.
Proof.
  revert p. induction l as [|a l IH]; intros p Heq; cbn [chain]; [done|].
  intros (-> & Hok & Hc). split_and!; [done|done|].
  rewrite Heq by set_solver. apply IH; set_solver.
Qed.

Lemma chain_page_ok m p l : chain m p l -> Forall page_ok l.
Proof.
  revert p. induction l as [|a l IH]; intros p; cbn [chain]; [constructor|].
  intros (_ & ? & ?). constructor; eauto.
Qed.

Lemma chain_head m p l : chain m p l -> p = default 0 (head l).
Proof. destruct l; cbn; [done|]. by intros [-> _]. Qed.

Context (kend_pos : 0 < kend).

Lemma ld64_memset m pg c a :
  a mod PGSIZE = 0 -> pg mod PGSIZE = 0 -> a <> pg ->
  ld64 (memset m pg c PGSIZE) a = ld64 m a.
Proof.
  intros Ha Hp Hne. apply ld64_eq. intros b Hb.
  pose proof (page_disjoint a pg Ha Hp Hne) as Hd. unfold disjoint in Hd.
  apply memset_out; unfold PGSIZE in *; lia.
Qed.

Lemma chain_bound m p l : chain m p l -> 0 <= p < 2 ^ 64.
Proof.
  destruct l as [|a l]; cbn [chain]; [intros ->; lia|].
  intros (-> & [_ Ha] & _). unfold PHYSTOP, KERNBASE in Ha. lia.
Qed.

Lemma kfree_free s l pg :
  free_pages s l -> page_ok pg -> pg ∉ l ->
  exists s', kfree pg s = Ok tt s' /\ free_pages s' (pg :: l) /\
    (forall a, ~ in_page pg a -> kmem s' a = kmem s a).
Proof.
  intros [Hc Hnd] [Hmod Hpg] Hin. unfold kfree.
  rewrite Hmod. cbn [negb orb Z.eqb].
  destruct (Z.ltb_spec pg kend); [lia|]. destruct (Z.leb_spec PHYSTOP pg); [lia|].
  eexists. split; [reflexivity|]. split_and!.
  - split; [|by constructor]. cbn [kmem freelist chain]. split_and!; [done|done|].
    rewrite ld64_st64_eq by (by eapply chain_bound).
    eapply chain_ext; [|exact Hc]. intros a Ha.
    assert (Hok : page_ok a).
    { apply chain_page_ok in Hc. rewrite Forall_forall in Hc.
      apply Hc. by apply list_elem_of_In. }
    assert (a <> pg) by (intros ->; done).
    rewrite ld64_st64_ne; [by apply ld64_memset; [apply Hok|..]|].
    pose proof (page_disjoint pg a Hmod (proj1 Hok) ltac:(done)) as Hd.
    unfold disjoint, PGSIZE in *. lia.
  - cbn [kmem]. intros a Ha. unfold in_page, PGSIZE in Ha.
    unfold st64. rewrite st_le_out by lia. apply memset_out; unfold PGSIZE; lia.
Qed.

Lemma kalloc_empty s : free_pages s [] -> kalloc s = Ok 0 s.
Proof. intros [Hc _]. cbn in Hc. unfold kalloc. by rewrite Hc. Qed.

Lemma kalloc_free s pg l :
  free_pages s (pg :: l) ->
  exists s', kalloc s = Ok pg s' /\ free_pages s' l /\ page_ok pg /\ (pg ∉ l) /\
    (forall a, ~ in_page pg a -> kmem s' a = kmem s a) /\
    (forall a, in_page pg a -> kmem s' a = 5).
Proof.
  intros [Hc Hnd]. cbn [chain] in Hc. destruct Hc as (Hf & Hok & Hc).
  pose proof (NoDup_cons_1_1 _ _ Hnd) as Hin. apply NoDup_cons_1_2 in Hnd.
  unfold kalloc. rewrite Hf. destruct (Z.eqb_spec pg 0); [destruct Hok; lia|].
  eexists. split; [reflexivity|]. split_and!; [split| | | |]; try done.
  - cbn [kmem freelist]. eapply chain_ext; [|exact Hc]. intros a Ha.
    apply chain_page_ok in Hc. rewrite Forall_forall in Hc.
    apply ld64_memset; [by apply Hc, list_elem_of_In|apply Hok|by intros ->].
  - cbn [kmem]. intros a Ha. unfold in_page, PGSIZE in Ha.
    apply memset_out; unfold PGSIZE; lia.
  - cbn [kmem]. intros a Ha. unfold in_page in Ha. unfold memset.
    rewrite memset_loop_spec. zcases; cbn [andb]; try done; unfold PGSIZE in *; lia.
Qed.
End Kalloc.

(** ** Page rounding *)

Lemma land_pagemask x : Z.land x (Z.lnot (PGSIZE - 1)) = x - x mod PGSIZE.
Proof.
  change (PGSIZE - 1) with (Z.ones 12). rewrite <- Z.ldiff_land.
  rewrite Z.ldiff_ones_r by lia. rewrite Z.shiftl_mul_pow2, Z.shiftr_div_pow2 by lia.
  change (2 ^ 12) with PGSIZE. pose proof (Z.div_mod x PGSIZE). unfold PGSIZE in *. lia.
Qed.

Lemma PGROUNDUP_spec sz :
  PGROUNDUP sz mod PGSIZE = 0 /\ sz <= PGROUNDUP sz < sz + PGSIZE.
Proof.
  unfold PGROUNDUP. rewrite land_pagemask. unfold PGSIZE.
  pose proof (Z.div_mod (sz + 4096 - 1) 4096). pose proof (Z.mod_pos_bound (sz + 4096 - 1) 4096).
  split; [|lia].
  replace (sz + 4096 - 1 - (sz + 4096 - 1) mod 4096) with ((sz + 4096 - 1) / 4096 * 4096) by lia.
  apply Z.mod_mul. lia.
Qed.

Lemma PGROUNDDOWN_spec a :
  PGROUNDDOWN a mod PGSIZE = 0 /\ a - PGSIZE < PGROUNDDOWN a <= a.
Proof.
  unfold PGROUNDDOWN. rewrite land_pagemask. unfold PGSIZE.
  pose proof (Z.div_mod a 4096). pose proof (Z.mod_pos_bound a 4096). split; [|lia].
  replace (a - a mod 4096) with (a / 4096 * 4096) by lia. apply Z.mod_mul. lia.
Qed.

(** ** Initialisation *)

Section Kinit.
Context (kend : Z) (kend_pos : 0 < kend).

(** The pages at or above [p] that lie entirely below [pa_end]. *)
Definition pages_from (p pa_end a : Z) : Prop :=
  a mod PGSIZE = 0 /\ p <= a /\ a + PGSIZE <= pa_end.

Lemma freerange_loop_spec fuel p pa_end s l :
  free_pages kend s l -> p mod PGSIZE = 0 -> kend <= p -> pa_end <= PHYSTOP ->
  pa_end - p < Z.of_nat fuel * PGSIZE ->
  (forall a, a ∈ l -> a < p) ->
  exists s' l', freerange_loop kend fuel p pa_end s = Ok tt s' /\
    free_pages kend s' l' /\ (forall a, a ∈ l' <-> a ∈ l \/ pages_from p pa_end a).
Proof.
  revert p s l. induction fuel as [|fuel IH]; intros p s l Hf Hp Hk He Hfuel Hl;
    cbn [freerange_loop].
  - exists s, l. split; [done|]. split; [done|].
    intros a. unfold pages_from, PGSIZE in *. split; [by left|].
    intros [?|[? ?]]; [done|lia].
  - destruct (Z.leb_spec (p + PGSIZE) pa_end) as [Hle|Hgt].
    + destruct (kfree_free kend kend_pos s l p Hf) as (s1 & Hs1 & Hf1 & _).
      { unfold PGSIZE in *. split; [done|]. lia. }
      { intros Hin. apply Hl in Hin. lia. }
      destruct (IH (p + PGSIZE) s1 (p :: l) Hf1) as (s2 & l2 & Hs2 & Hf2 & Hl2).
      * unfold PGSIZE in *. rewrite <- Zplus_mod_idemp_l, Hp. done.
      * unfold PGSIZE; lia.
      * done.
      * unfold PGSIZE in *. lia.
      * intros a [->|Ha]%elem_of_cons; [unfold PGSIZE; lia|].
        apply Hl in Ha. unfold PGSIZE. lia.
      * exists s2, l2. split; [by unfold kbind; rewrite Hs1|]. split; [done|].
        intros a. rewrite Hl2, elem_of_cons. unfold pages_from.
        split; [intros [[->|?]|?]; naive_solver (unfold PGSIZE in *; lia)|].
        intros [?|(Ha & Hpa & Hend)]; [by left; right|].
        destruct (decide (a = p)) as [->|Hne]; [by left; left|].
        right. split_and!; [done| |done].
        pose proof (page_disjoint a p Ha Hp Hne) as Hd. unfold disjoint, PGSIZE in *. lia.
    + exists s, l. split; [done|]. split; [done|]. intros a.
      split; [by left|]. unfold pages_from. intros [?|[? ?]]; [done|lia].
Qed.

Lemma kinit_spec m :
  exists s l, kinit kend {| kmem := m; freelist := 0 |} = Ok tt s /\
    free_pages kend s l /\ (forall a, a ∈ l <-> page_ok kend a).
Proof.
  destruct (PGROUNDUP_spec kend) as [Hmod Hup].
  destruct (freerange_loop_spec (Z.to_nat ((PHYSTOP - kend) / PGSIZE + 1))
    (PGROUNDUP kend) PHYSTOP {| kmem := m; freelist := 0 |} [])
    as (s & l & Hs & Hf & Hl).
  - split; [done|constructor].
  - done.
  - lia.
  - done.
  - destruct (decide (PHYSTOP < kend)).
    + assert (0 <= Z.of_nat (Z.to_nat ((PHYSTOP - kend) / PGSIZE + 1)) * PGSIZE)
        by (unfold PGSIZE; lia). lia.
    + pose proof (Z.div_mod (PHYSTOP - kend) PGSIZE ltac:(done)).
      pose proof (Z.mod_pos_bound (PHYSTOP - kend) PGSIZE ltac:(done)).
      assert (0 <= (PHYSTOP - kend) / PGSIZE) by (apply Z.div_pos; [lia|done]).
      rewrite Z2Nat.id by lia. unfold PGSIZE in *. lia.
  - set_solver.
  - exists s, l. split; [done|]. split; [done|]. intros a. rewrite Hl.
    unfold pages_from, page_ok. split.
    + intros [?|?]; [set_solver|]. split; [naive_solver|]. unfold PGSIZE in *. lia.
    + intros [Ha [Hk Ht]]. right. split; [done|].
      pose proof (Z.div_mod a PGSIZE ltac:(done)) as Hda.
      pose proof (Z.div_mod (PGROUNDUP kend) PGSIZE ltac:(done)) as Hdk.
      assert (PHYSTOP = 557056 * PGSIZE) as Htop by done.
      rewrite Ha in Hda. rewrite Hmod in Hdk. unfold PGSIZE in *. lia.
Qed.

(** Free and allocated pages partition the pages of [kinit]. *)
Definition partition (w : world) : Prop :=
  exists l, free_pages kend (alloc w) l /\ (forall a, a ∈ l -> a ∉ owned w) /\
    (forall a, a ∈ l \/ a ∈ owned w <-> page_ok kend a).

Lemma partition_step w w' : partition w -> client_step kend w w' -> partition w'.
Proof.
  intros (l & Hf & Hdisj & Hall) Hs. destruct Hs as [pg s' Hk|pg s' Ho Hk|pg a v Ho Ha].
  - destruct l as [|b l].
    + rewrite (kalloc_empty kend _ Hf) in Hk. injection Hk as <- <-.
      rewrite decide_True by done. exists []. done.
    + destruct (kalloc_free kend kend_pos _ _ _ Hf) as (s1 & Hk1 & Hf1 & Hok & Hnin & _).
      rewrite Hk1 in Hk. injection Hk as <- <-.
      rewrite decide_False by (destruct Hok; lia).
      exists l. cbn [alloc owned]. split; [done|]. split.
      * intros a Ha. assert (a <> b) by (by intros ->).
        specialize (Hdisj a). set_solver.
      * intros a. rewrite <- Hall. set_solver.
  - assert (Hpg : page_ok kend pg) by (apply Hall; by right).
    destruct (kfree_free kend kend_pos _ _ _ Hf Hpg) as (s1 & Hk1 & Hf1 & _).
    { intros Hin. by apply (Hdisj pg). }
    rewrite Hk1 in Hk. injection Hk as <-. exists (pg :: l). cbn [alloc owned].
    split; [done|]. split; [set_solver|]. intros a. rewrite <- Hall.
    destruct (decide (a = pg)); set_solver.
  - exists l. cbn [alloc owned]. split; [|done].
    destruct Hf as [Hc Hnd]. split; [|done]. cbn [kmem freelist].
    eapply chain_ext; [|exact Hc]. intros b Hb. apply ld64_eq. intros c Hc'.
    apply st8_ne. assert (Hne : b <> pg) by (intros ->; by apply (Hdisj pg)).
    assert (Hb' : page_ok kend b) by (apply Hall; by left).
    assert (Hp' : page_ok kend pg) by (apply Hall; by right).
    pose proof (page_disjoint b pg (proj1 Hb') (proj1 Hp') Hne) as Hd.
    unfold in_page, disjoint, PGSIZE in *. lia.
Qed.
End Kinit.

(** ** Theorems *)

(** C9. No page is handed out twice and none is lost: after [kinit], in every
    sequence of allocations, frees of owned pages and writes by owners into
    their pages, the free list in memory and the pages owned by clients are
    disjoint, and together are exactly the aligned pages between the end
    of the kernel and [PHYSTOP]. *)
Theorem kalloc_partition kend m s0 w :
  0 < kend -> kinit kend {| kmem := m; freelist := 0 |} = Ok tt s0 ->
  reach (client_step kend) {| alloc := s0; owned := ∅ |} w ->
  exists l, free_pages kend (alloc w) l /\ (forall a, a ∈ l -> a ∉ owned w) /\
    (forall a, a ∈ l \/ a ∈ owned w <-> page_ok kend a).
Proof.
  intros Hk Hi Hr. apply (reach_inv _ (partition kend) _ ) in Hr; [done| |].
  - destruct (kinit_spec kend Hk m) as (s & l & Hs & Hf & Hl).
    rewrite Hs in Hi. injection Hi as <-. exists l. cbn [alloc owned].
    split; [done|]. split; [set_solver|]. intros a. rewrite <- Hl. set_solver.
  - intros ??. by apply partition_step.
Qed.

(** [kalloc] on a non-empty free list returns its head, a valid page that
    was not otherwise on the list, fills it with the byte 5 and changes no
    other byte; on an empty one it returns 0 and changes nothing.  [kfree] of
    a valid page that is not on the list pushes it; freeing an address that
    is no page the allocator manages panics. *)
Theorem kalloc_kfree_stack kend s l :
  0 < kend -> free_pages kend s l ->
  match l with
  | [] => kalloc s = Ok 0 s
  | pg :: l' => exists s', kalloc s = Ok pg s' /\ free_pages kend s' l' /\
      page_ok kend pg /\ (forall a, in_page pg a -> kmem s' a = 5) /\
      (forall a, ~ in_page pg a -> kmem s' a = kmem s a)
  end /\
  (forall pg, page_ok kend pg -> pg ∉ l ->
     exists s', kfree kend pg s = Ok tt s' /\ free_pages kend s' (pg :: l)) /\
  (forall pg, ~ page_ok kend pg -> kfree kend pg s = Panic "kfree").
Proof.
  intros Hk Hf. split_and!.
  - destruct l as [|pg l]; [by apply kalloc_empty with kend|].
    destruct (kalloc_free kend Hk _ _ _ Hf) as (s' & ? & ? & ? & ? & ? & ?). eauto 8.
  - intros pg Hok Hnin. destruct (kfree_free kend Hk _ _ _ Hf Hok Hnin) as (s' & ? & ? & ?).
    eauto.
  - intros pg Hbad. unfold kfree, page_ok in *.
    destruct (Z.eqb_spec (pg mod PGSIZE) 0); cbn [negb orb]; [|done].
    destruct (Z.ltb_spec pg kend); cbn [orb]; [done|].
    destruct (Z.leb_spec PHYSTOP pg); [done|lia].
Qed.

(** Two pages above the kernel. *)
Definition small_end : Z := PHYSTOP - 2 * PGSIZE.

Lemma small_end_pos : 0 < small_end.
Proof. done. Qed.

Definition small_boot : kstate :=
  match kinit small_end {| kmem := fun _ => 0; freelist := 0 |} with
  | Ok _ s => s
  | _ => {| kmem := fun _ => 0; freelist := 0 |}
  end.

Lemma kalloc_partition_witness :
  exists l, free_pages small_end small_boot l /\ small_end ∈ l.
Proof.
  destruct (kalloc_partition small_end (fun _ => 0) small_boot
    {| alloc := small_boot; owned := ∅ |} small_end_pos eq_refl (reach_refl _ _))
    as (l & Hf & _ & Hall).
  exists l. split; [exact Hf|].
  destruct (proj2 (Hall small_end) ltac:(by apply (bool_decide_unpack _); vm_compute))
    as [H|H]; [exact H|by apply not_elem_of_empty in H].
Defined.

Lemma kalloc_kfree_stack_witness :
  free_pages small_end {| kmem := fun _ => 0; freelist := 0 |} [] /\
  exists s', kfree small_end small_end {| kmem := fun _ => 0; freelist := 0 |} = Ok tt s' /\
    free_pages small_end s' [small_end].
Proof.
  assert (Hf : free_pages small_end {| kmem := fun _ => 0; freelist := 0 |} [])
    by (split; [reflexivity|constructor]).
  split; [exact Hf|].
  apply (proj1 (proj2 (kalloc_kfree_stack small_end _ [] small_end_pos Hf))).
  - by apply (bool_decide_unpack _); vm_compute.
  - apply not_elem_of_nil.
Defined.
