(* ===== verification/UserMem.v ===== *)
(** What [copyin] and [copyout] promise to the rest of the kernel.

    The pipe, the console and the file system move bytes between the kernel
    and a process through [copyin], [copyout] and the [either_] variants of
    [proc.c].  Their models are written against this interface; [Vm.v] proves
    that the page-table implementation provides it. *)

From S2P Require Import Prelude.

(** [U] is one process's address space.  [copyin u va n] are the [n] bytes at
    [va], or [None] where the code returns -1; [copyin_part u va n] are the
    bytes that reached the destination in that case.  [copyout u va bs] stores
    what it can page by page: the new address space, and whether all of [bs]
    was stored. *)
Class UserMem (U : Type) : Type := {
  copyin : U -> Z -> Z -> option (list Z);
  copyin_part : U -> Z -> Z -> list Z;
  copyout : U -> Z -> list Z -> U * bool
}.

(** [copyinstr u va max]: the string at [va] without its NUL, which must come
    within [max] bytes, or [None] where the code returns -1. *)
Class UserStr (U : Type) : Type := { copyinstr : U -> Z -> Z -> option (list Z) }.

(** [uwf] is the well-formedness the laws need; [copyout] keeps it. *)
Class UserMemLaws (U : Type) `{UserMem U} : Type := {
  uwf : U -> Prop;
  copyin_length : forall u va n bs,
    0 <= n -> copyin u va n = Some bs -> Z.of_nat (length bs) = n;
  copyin_part_length : forall u va n,
    0 <= n -> copyin u va n = None -> Z.of_nat (length (copyin_part u va n)) <= n;
  copyout_wf : forall u va bs, uwf u -> uwf (copyout u va bs).1;
  copyout_copyin : forall u va bs u',
    uwf u -> copyout u va bs = (u', true) ->
    copyin u' va (Z.of_nat (length bs)) = Some bs;
  copyout_frame : forall u va bs u' b r va' n,
    uwf u -> copyout u va bs = (u', b) ->
    va + Z.of_nat (length bs) <= va' \/ va' + n <= va ->
    copyin u va' n = Some r -> copyin u' va' n = Some r;
  copyin_app : forall u va n m,
    uwf u -> 0 <= n -> 0 <= m ->
    copyin u va (n + m) =
      (xs ← copyin u va n; ys ← copyin u (va + n) m; Some (xs ++ ys));
  copyout_total : forall u va bs r,
    uwf u -> copyin u va (Z.of_nat (length bs)) = Some r -> (copyout u va bs).2 = true
}.

(** One byte, as [pipe.c] and [console.c] use the interface. *)
Definition copyin1 {U} `{UserMem U} (u : U) (va : Z) : option Z :=
  match copyin u va 1 with
  | Some (b :: _) => Some b
  | _ => None
  end.

Definition copyout1 {U} `{UserMem U} (u : U) (va b : Z) : U * bool :=
  copyout u va [b].

Section Byte.
Context {U : Type} `{UserMemLaws U}.

Lemma copyin1_Some u va b : copyin1 u va = Some b <-> copyin u va 1 = Some [b].
Proof.
  unfold copyin1. destruct (copyin u va 1) as [[|c bs]|] eqn:Hc.
  - apply copyin_length in Hc; [done|lia].
  - apply copyin_length in Hc; [|lia]. destruct bs; cbn in Hc; [|lia].
    split; by intros [= ->].
  - done.
Qed.

Lemma copyout1_read u va b u' :
  uwf u -> copyout1 u va b = (u', true) -> copyin1 u' va = Some b.
Proof. intros Hw Ho. apply copyin1_Some. by apply (copyout_copyin u va [b]). Qed.

Lemma copyout1_frame u va b u' ok va' c :
  uwf u -> copyout1 u va b = (u', ok) -> va' <> va ->
  copyin1 u va' = Some c -> copyin1 u' va' = Some c.
Proof.
  rewrite !copyin1_Some. intros Hw Ho Hne Hc.
  eapply (copyout_frame u va [b]); [done|done| |done]. cbn. lia.
Qed.
End Byte.

(** ** Either kind of memory

    [readi] and [writei] move bytes to and from a user address space or a
    kernel buffer, whose addresses are offsets. *)

Inductive anymem (U : Type) : Type :=
| User (u : U)
| Kernel (buf : list Z).

Arguments User {U} u.
Arguments Kernel {U} buf.

(** [bs] stored at offset [off] of [buf]. *)
Definition splice (buf : list Z) (off : Z) (bs : list Z) : list Z :=
  take (Z.to_nat off) buf ++ bs ++ drop (Z.to_nat off + length bs) buf.

Section Either.
Context {U : Type} `{UserMem U}.

(** The memory afterwards, and whether the result is 0. *)
Definition either_copyout (dst : anymem U) (addr : Z) (bs : list Z) : anymem U * bool :=
  match dst with
  | User u => let '(u', ok) := copyout u addr bs in (User u', ok)
  | Kernel buf => (Kernel (splice buf addr bs), true)
  end.

(** The bytes stored at the destination, and whether the result is 0. *)
Definition either_copyin (src : anymem U) (addr n : Z) : list Z * bool :=
  match src with
  | User u =>
      match copyin u addr n with
      | Some bs => (bs, true)
      | None => (copyin_part u addr n, false)
      end
  | Kernel buf => (take (Z.to_nat n) (drop (Z.to_nat addr) buf), true)
  end.
End Either.

(** ** A flat address space

    The simplest implementation: one array mapped at address 0. *)

Definition flat_copyin (u : list Z) (va n : Z) : option (list Z) :=
  if decide (0 <= va /\ 0 <= n /\ va + n <= Z.of_nat (length u))
  then Some (take (Z.to_nat n) (drop (Z.to_nat va) u)) else None.

Definition flat_copyout (u : list Z) (va : Z) (bs : list Z) : list Z * bool :=
  if decide (0 <= va /\ va + Z.of_nat (length bs) <= Z.of_nat (length u))
  then (take (Z.to_nat va) u ++ bs ++ drop (Z.to_nat va + length bs) u, true)
  else (u, false).

#[export] Instance flat_mem : UserMem (list Z) :=
  {| copyin := flat_copyin; copyin_part := fun _ _ _ => []; copyout := flat_copyout |}.

Lemma flat_copyout_length u va bs : length (flat_copyout u va bs).1 = length u.
Proof.
  unfold flat_copyout. case_decide; [|done]. cbn.
  rewrite !length_app, length_take, length_drop. lia.
Qed.

(** The bytes before the first NUL among the first [n]. *)
Fixpoint upto_nul (n : nat) (l : list Z) : option (list Z) :=
  match n, l with
  | S n, c :: l => if c =? 0 then Some [] else option_map (cons c) (upto_nul n l)
  | _, _ => None
  end.

#[export] Instance flat_str : UserStr (list Z) :=
  {| copyinstr u va max := upto_nul (Z.to_nat max) (drop (Z.to_nat va) u) |}.

#[export] Instance flat_laws : UserMemLaws (list Z).
Proof.
  refine {| uwf := fun _ => True |}; cbn.
  - intros u va n bs Hn. unfold flat_copyin. case_decide; [|done]. intros [= <-].
    rewrite length_take, length_drop. lia.
  - intros u va n Hn _. lia.
  - done.
  - intros u va bs u' _ Ho. pose proof (flat_copyout_length u va bs) as Hl.
    rewrite Ho in Hl. cbn in Hl. unfold flat_copyout in Ho. case_decide as Hd; [|done].
    injection Ho as <-. unfold flat_copyin. rewrite decide_True by lia.
    rewrite Nat2Z.id, drop_app_length' by (rewrite length_take; lia).
    by rewrite take_app_length.
  - intros u va bs u' b r va' n _ Ho Hdisj. pose proof (flat_copyout_length u va bs) as Hl.
    rewrite Ho in Hl. cbn in Hl. unfold flat_copyin. rewrite Hl.
    case_decide as Hd; [|done]. intros [= <-]. f_equal.
    unfold flat_copyout in Ho. case_decide as Hv; injection Ho as <- <-; [|done].
    apply list_eq. intros j. destruct (decide (j < Z.to_nat n)%nat) as [Hj|Hj].
    + rewrite !lookup_take_lt, !lookup_drop by lia.
      destruct Hdisj as [Hb|Hb].
      * rewrite app_assoc, lookup_app_r by (rewrite length_app, length_take; lia).
        rewrite lookup_drop, length_app, length_take. f_equal. lia.
      * rewrite lookup_app_l by (rewrite length_take; lia). by rewrite lookup_take_lt by lia.
    + rewrite !lookup_take_ge by lia. done.
  - intros u va n m _ Hn Hm. unfold flat_copyin. repeat case_decide; cbn; try done; try lia.
    rewrite Z2Nat.inj_add, <- (take_drop (Z.to_nat n) (take _ (drop _ u))) by done.
    rewrite take_take, skipn_firstn_comm, drop_drop. do 2 f_equal; [f_equal; lia|].
    f_equal; [lia|]. f_equal. lia.
  - intros u va bs r _. unfold flat_copyin, flat_copyout. case_decide; [|done].
    intros _. by rewrite decide_True by lia.
Defined.

(** ** Either kind of memory, as an address space *)

Section EitherLaws.
Context {U : Type} `{UserMemLaws U}.

(** The bytes at an address; a kernel buffer is accessed within its bounds. *)
Definition any_read (m : anymem U) (addr n : Z) : option (list Z) :=
  match m with
  | User u => copyin u addr n
  | Kernel buf => flat_copyin buf addr n
  end.

Definition any_wf (m : anymem U) : Prop :=
  match m with User u => uwf u | Kernel _ => True end.

Lemma any_read_app m addr n k :
  any_wf m -> 0 <= n -> 0 <= k ->
  any_read m addr (n + k) =
    (xs ← any_read m addr n; ys ← any_read m (addr + n) k; Some (xs ++ ys)).
Proof.
  destruct m as [u|buf]; cbn [any_read any_wf]; [apply copyin_app|].
  intros _. exact (copyin_app (UserMemLaws := flat_laws) buf addr n k I).
Qed.

Lemma any_read_length m addr n bs :
  0 <= n -> any_read m addr n = Some bs -> Z.of_nat (length bs) = n.
Proof.
  destruct m as [u|buf]; cbn [any_read]; [apply copyin_length|].
  apply (copyin_length (UserMemLaws := flat_laws)).
Qed.

Lemma either_copyin_ok m addr n bs :
  any_read m addr n = Some bs -> either_copyin m addr n = (bs, true).
Proof.
  destruct m as [u|buf]; cbn; [by intros ->|]. unfold flat_copyin. case_decide; [|done].
  by intros [= <-].
Qed.

(** Whether it is a kernel buffer, and of which size. *)
Definition any_shape (m : anymem U) : option nat :=
  match m with User _ => None | Kernel buf => Some (length buf) end.

(** Storing over memory that is there succeeds, is read back and changes
    nothing else. *)
Lemma either_copyout_ok m addr bs r :
  any_wf m -> any_read m addr (Z.of_nat (length bs)) = Some r ->
  exists m', either_copyout m addr bs = (m', true) /\ any_wf m' /\ any_shape m' = any_shape m /\
    any_read m' addr (Z.of_nat (length bs)) = Some bs /\
    forall a n x, addr + Z.of_nat (length bs) <= a \/ a + n <= addr ->
      any_read m a n = Some x -> any_read m' a n = Some x.
Proof.
  destruct m as [u|buf]; cbn [any_read any_wf either_copyout]; intros Hw Hr.
  - pose proof (copyout_total u addr bs r Hw Hr) as Hok. pose proof (copyout_wf u addr bs Hw) as Hw'.
    destruct (copyout u addr bs) as [u' ok] eqn:E. cbn in Hok, Hw'. subst ok.
    exists (User u'). split; [done|]. split; [done|]. split; [done|]. split; [exact (copyout_copyin u addr bs u' Hw E)|].
    intros a n x Hd Hx. exact (copyout_frame u addr bs u' _ x a n Hw E Hd Hx).
  - pose proof (copyout_total (UserMemLaws := flat_laws) buf addr bs r I Hr) as Hok.
    cbn in Hok. exists (Kernel (splice buf addr bs)).
    assert (flat_copyout buf addr bs = (splice buf addr bs, true)) as E.
    { unfold flat_copyout in Hok |- *. by case_decide. }
    split; [done|]. split; [done|]. split.
    { cbn. f_equal. pose proof (flat_copyout_length buf addr bs) as Hl. by rewrite E in Hl. }
    split; [exact (copyout_copyin (UserMemLaws := flat_laws) buf addr bs _ I E)|].
    intros a n x Hd Hx. exact (copyout_frame (UserMemLaws := flat_laws) buf addr bs _ _ x a n I E Hd Hx).
Qed.
End EitherLaws.
