(* ===== verification/Ring.v ===== *)
(** Ring buffers indexed by free-running counters.

    The pipe, the console input buffer and the UART transmit buffer all keep a
    [char] array of [size] bytes and unsigned counters that are reduced modulo
    [size] only at the access, and that wrap modulo [modulus].
    [window buf r n] are the [n] bytes from counter [r] on.  The lemmas hold
    across the wrap-around because [size] divides [modulus]. *)

From S2P Require Import Prelude.

Section Ring.
Context (size modulus : Z).
Context (size_pos : 0 < size) (size_div : (size | modulus)) (mod_pos : 0 < modulus).
Implicit Types (buf : list Z) (r n i v : Z).

Definition slot buf i : Z := buf !!! Z.to_nat (i mod size).

Definition put buf i v : list Z := <[Z.to_nat (i mod size) := v]> buf.

Definition window buf r n : list Z := (fun k => slot buf (r + k)) <$> seqZ 0 n.

(** The distance from counter [r] to counter [w]. *)
Definition used (r w : Z) : Z := (w - r) mod modulus.

Definition counter (x : Z) : Prop := 0 <= x < modulus.

Lemma put_length buf i v : length (put buf i v) = length buf.
Proof. apply length_insert. Qed.

Lemma mod_size i : (i mod modulus) mod size = i mod size.
Proof. by apply Z.mod_mod_divide. Qed.

Lemma slot_mod buf i : slot buf (i mod modulus) = slot buf i.
Proof. unfold slot. by rewrite mod_size. Qed.

Lemma slot_mod_add buf i k : slot buf (i mod modulus + k) = slot buf (i + k).
Proof. rewrite <- (slot_mod buf (i + k)), <- Zplus_mod_idemp_l, slot_mod. done. Qed.

Lemma put_mod buf i v : put buf (i mod modulus) v = put buf i v.
Proof. unfold put. by rewrite mod_size. Qed.

Lemma window_mod buf r n : window buf (r mod modulus) n = window buf r n.
Proof. unfold window. apply list_fmap_ext. intros. apply slot_mod_add. Qed.

Lemma slot_put_eq buf i v :
  Z.of_nat (length buf) = size -> slot (put buf i v) i = v.
Proof.
  intros Hl. unfold slot, put. apply list_lookup_total_insert_eq.
  pose proof (Z.mod_pos_bound i size). lia.
Qed.

Lemma slot_put_ne buf i j v :
  0 < Z.abs (i - j) < size -> slot (put buf i v) j = slot buf j.
Proof.
  intros Hd. unfold slot, put. apply list_lookup_total_insert_ne. intros He.
  pose proof (Z.mod_pos_bound i size). pose proof (Z.mod_pos_bound j size).
  assert (Hm : i mod size = j mod size) by lia.
  pose proof (Z.div_mod i size). pose proof (Z.div_mod j size).
  set (q := i / size - j / size).
  assert (i - j = size * q) by lia.
  destruct (Z.lt_trichotomy q 0) as [?|[?|?]]; nia.
Qed.

Lemma window_length buf r n : length (window buf r n) = Z.to_nat n.
Proof. unfold window. by rewrite length_fmap, length_seqZ. Qed.

Lemma window_nil buf r : window buf r 0 = [].
Proof. done. Qed.

Lemma window_pop buf r n :
  0 < n -> window buf r n = slot buf r :: window buf (r + 1) (n - 1).
Proof.
  intros Hn. unfold window. rewrite (seqZ_cons 0 n) by done. cbn [fmap list_fmap].
  rewrite Z.add_0_r. f_equal. rewrite <- (fmap_add_seqZ 1 0), <- list_fmap_compose.
  rewrite Z.sub_1_r. apply list_fmap_ext. intros. cbn. f_equal. lia.
Qed.

Lemma window_last buf r n :
  0 < n -> window buf r n = window buf r (n - 1) ++ [slot buf (r + (n - 1))].
Proof.
  intros Hn. unfold window. replace n with ((n - 1) + 1) at 1 by lia.
  rewrite seqZ_app by lia. rewrite fmap_app. done.
Qed.

Lemma window_put_out buf r n i v :
  (forall k, 0 <= k < n -> 0 < Z.abs (i - (r + k)) < size) ->
  window (put buf i v) r n = window buf r n.
Proof.
  intros Hout. unfold window. apply list_fmap_ext. intros k x Hx.
  apply lookup_seqZ in Hx. apply slot_put_ne. apply Hout. lia.
Qed.

Lemma window_push buf r n v :
  Z.of_nat (length buf) = size -> 0 <= n < size ->
  window (put buf (r + n) v) r (n + 1) = window buf r n ++ [v].
Proof.
  intros Hl Hn. rewrite window_last by lia. replace (n + 1 - 1) with n by lia.
  rewrite slot_put_eq by done. rewrite window_put_out; [done|]. intros; lia.
Qed.

Lemma used_bound r w : 0 <= used r w < modulus.
Proof. apply Z.mod_pos_bound. done. Qed.

Lemma used_refl r : used r r = 0.
Proof. unfold used. by rewrite Z.sub_diag. Qed.

Lemma used_zero r w : counter r -> counter w -> used r w = 0 <-> r = w.
Proof.
  unfold used, counter. intros Hr Hw. split; [|intros ->; by rewrite Z.sub_diag].
  intros H0. pose proof (Z.div_mod (w - r) modulus).
  set (q := (w - r) / modulus) in *. assert (w - r = modulus * q) by lia.
  destruct (Z.lt_trichotomy q 0) as [?|[?|?]]; nia.
Qed.

Lemma used_pos r w : counter r -> counter w -> r <> w -> 0 < used r w.
Proof.
  intros Hr Hw Hne. pose proof (used_bound r w). pose proof (used_zero r w Hr Hw) as Hz.
  destruct (decide (used r w = 0)) as [E|]; [|lia]. by apply Hz in E.
Qed.

Lemma used_add r w k :
  0 <= used r w + k < modulus -> used r ((w + k) mod modulus) = used r w + k.
Proof.
  unfold used. intros Hk. rewrite Zminus_mod_idemp_l.
  replace (w + k - r) with (w - r + k) by lia.
  rewrite <- Zplus_mod_idemp_l. by apply Z.mod_small.
Qed.

Lemma used_sub r w k :
  0 <= used r w - k < modulus -> used ((r + k) mod modulus) w = used r w - k.
Proof.
  unfold used. intros Hk. rewrite Zminus_mod_idemp_r.
  replace (w - (r + k)) with (w - r - k) by lia.
  rewrite <- Zminus_mod_idemp_l. by apply Z.mod_small.
Qed.

Lemma used_w r w : counter w -> w = (r + used r w) mod modulus.
Proof.
  intros Hw. unfold used. rewrite Zplus_mod_idemp_r.
  replace (r + (w - r)) with w by lia. symmetry. by apply Z.mod_small.
Qed.

Lemma counter_mod x : counter (x mod modulus).
Proof. apply Z.mod_pos_bound. done. Qed.

(** Equality of a counter with a counter [k] ahead of [r]. *)
Lemma used_eqb r w k :
  counter w -> 0 <= k < modulus -> (w =? (r + k) mod modulus) = (used r w =? k).
Proof.
  intros Hw Hk. apply eq_true_iff_eq. rewrite !Z.eqb_eq. split.
  - intros ->. unfold used. rewrite Zminus_mod_idemp_l.
    replace (r + k - r) with k by lia. by apply Z.mod_small.
  - intros <-. by apply used_w.
Qed.

(** The bytes between two counters, and how pushing and popping change them. *)
Definition contents buf r w : list Z := window buf r (used r w).

Lemma contents_push buf r w v :
  Z.of_nat (length buf) = size -> counter w -> used r w < size -> size < modulus ->
  contents (put buf w v) r ((w + 1) mod modulus) = contents buf r w ++ [v].
Proof.
  intros Hl Hw Hu Hs. unfold contents. pose proof (used_bound r w).
  rewrite used_add by lia.
  assert (put buf w v = put buf (r + used r w) v) as ->.
  { rewrite <- (put_mod buf (r + used r w)). by rewrite <- used_w. }
  apply window_push; [done|lia].
Qed.

Lemma contents_pop buf r w :
  0 < used r w ->
  contents buf r w = slot buf r :: contents buf ((r + 1) mod modulus) w.
Proof.
  intros Hu. unfold contents. pose proof (used_bound r w).
  rewrite used_sub by lia. rewrite window_mod. by apply window_pop.
Qed.

Lemma contents_unpush buf r w :
  0 < used r w -> counter w ->
  contents buf r w = contents buf r ((w - 1) mod modulus) ++ [slot buf (w - 1)].
Proof.
  intros Hu Hw. unfold contents. pose proof (used_bound r w).
  rewrite <- (Z.add_opp_r w 1), used_add by lia. rewrite Z.add_opp_r.
  rewrite window_last by done. do 2 f_equal.
  transitivity (slot buf ((r + used r w) mod modulus + -1)).
  - rewrite slot_mod_add. f_equal. lia.
  - by rewrite <- used_w.
Qed.

Lemma window_app buf r a b :
  0 <= a -> 0 <= b -> window buf r (a + b) = window buf r a ++ window buf (r + a) b.
Proof.
  intros Ha Hb. unfold window. rewrite seqZ_app, fmap_app by done. f_equal.
  rewrite Z.add_comm, <- (fmap_add_seqZ a 0), <- list_fmap_compose.
  apply list_fmap_ext. intros. cbn. f_equal. lia.
Qed.

Lemma contents_app buf r w e :
  counter w -> used r e = used r w + used w e ->
  contents buf r e = contents buf r w ++ contents buf w e.
Proof.
  intros Hw Hsum. unfold contents. rewrite Hsum.
  pose proof (used_bound r w). pose proof (used_bound w e).
  rewrite window_app by lia. f_equal. by rewrite <- window_mod, <- used_w.
Qed.

(** Storing at a counter outside the window leaves the window alone. *)
Lemma contents_put_out buf r w i v :
  counter i -> used r w <= used r i < size ->
  contents (put buf i v) r w = contents buf r w.
Proof.
  intros Hi Hu. unfold contents.
  assert (put buf i v = put buf (r + used r i) v) as ->.
  { rewrite <- (put_mod buf (r + used r i)). by rewrite <- used_w. }
  apply window_put_out. intros. lia.
Qed.

Lemma contents_length buf r w : Z.of_nat (length (contents buf r w)) = used r w.
Proof.
  unfold contents. rewrite window_length. pose proof (used_bound r w). lia.
Qed.

Lemma contents_empty buf r : contents buf r r = [].
Proof. unfold contents. by rewrite used_refl. Qed.
End Ring.
