(* ===== verification/Pipe.v ===== *)
(** Pipes ([kernel/pipe.c]).

    [pipewrite] and [piperead] hold [pi->lock] from one [sleep] to the next,
    so each such stretch is one atomic step; the loop index a sleeping process
    resumes with is part of the outcome.  [killed] is asked afresh in
    every iteration and can change between two of them: it is a function of
    the loop index.  [copyin] and [copyout] come through [UserMem].

    A system of readers and writers then steps by such stretches and by
    [pipeclose], with the sets of processes asleep on [nread] and [nwrite] as
    [sleep] and [wakeup] leave them, and with two histories: the bytes of the
    writers' memories that the calls report as written, and the bytes that
    the reads leave in the readers' memories.

    Shown: the pipe is a first-in first-out queue of at most 512 bytes, also
    when the 32-bit counters wrap; no wakeup is lost; a write that meets a
    reader and a read that returns transfer the bytes unchanged. *)

From S2P Require Import Prelude Ring UserMem.

Definition PIPESIZE : Z := 512.

Record pipe : Type := Pipe {
  data : list Z;
  nread : Z;
  nwrite : Z;
  readopen : bool;
  writeopen : bool
}.

(** The fields [pipealloc] initialises; [data] is whatever the page held. *)
Definition pipe_init (page : list Z) : pipe :=
  {| data := page; nread := 0; nwrite := 0; readopen := true; writeopen := true |}.

(** A stretch of pipe code ends by returning a value or by sleeping, with the
    loop index to resume from. *)
Inductive outcome : Type :=
| Return (r : Z)
| Blocked (i : Z).

(** The channels woken, true for [&pi->nread]. *)
Definition wakeups : Type := list bool.
Definition wake_nread : bool := true.
Definition wake_nwrite : bool := false.

(** [pipeclose]: the new pipe, the wakeup, and whether the page is freed. *)
Definition pipeclose (pi : pipe) (writable : bool) : pipe * wakeups * bool :=
  let '(pi', w) :=
    if writable
    then ({| data := data pi; nread := nread pi; nwrite := nwrite pi;
             readopen := readopen pi; writeopen := false |}, [wake_nread])
    else ({| data := data pi; nread := nread pi; nwrite := nwrite pi;
             readopen := false; writeopen := writeopen pi |}, [wake_nwrite]) in
  (pi', w, negb (readopen pi') && negb (writeopen pi')).

Section Operations.
Context {U : Type} `{UserMem U}.

(** One stretch of [pipewrite]'s loop from index [i], [k] bytes left. *)
Fixpoint pipewrite_loop (k : nat) (killed : Z -> bool) (u : U) (addr i : Z)
    (pi : pipe) : outcome * pipe * wakeups :=
  match k with
  | O => (Return i, pi, [wake_nread])
  | S k =>
      if negb (readopen pi) || killed i then (Return (-1), pi, [])
      else if nwrite pi =? u32 (nread pi + PIPESIZE)
      then (Blocked i, pi, [wake_nread])
      else
        match copyin1 u (addr + i) with
        | None => (Return i, pi, [wake_nread])
        | Some ch =>
            pipewrite_loop k killed u addr (i + 1)
              {| data := put PIPESIZE (data pi) (nwrite pi) ch;
                 nread := nread pi; nwrite := u32 (nwrite pi + 1);
                 readopen := readopen pi; writeopen := writeopen pi |}
        end
  end.

Definition pipewrite (killed : Z -> bool) (u : U) (addr n i : Z) (pi : pipe)
    : outcome * pipe * wakeups :=
  pipewrite_loop (Z.to_nat (n - i)) killed u addr i pi.

(** The copying loop of [piperead], [k] bytes still wanted. *)
Fixpoint piperead_loop (k : nat) (u : U) (addr i : Z) (pi : pipe) : Z * pipe * U :=
  match k with
  | O => (i, pi, u)
  | S k =>
      if nread pi =? nwrite pi then (i, pi, u)
      else
        let ch := slot PIPESIZE (data pi) (nread pi) in
        let pi' := {| data := data pi; nread := u32 (nread pi + 1);
                      nwrite := nwrite pi; readopen := readopen pi;
                      writeopen := writeopen pi |} in
        match copyout1 u (addr + i) ch with
        | (u', false) => (i, pi', u')
        | (u', true) => piperead_loop k u' addr (i + 1) pi'
        end
  end.

Definition piperead (killed : bool) (u : U) (addr n : Z) (pi : pipe)
    : outcome * pipe * U * wakeups :=
  if (nread pi =? nwrite pi) && writeopen pi
  then if killed then (Return (-1), pi, u, []) else (Blocked 0, pi, u, [])
  else
    let '(i, pi', u') := piperead_loop (Z.to_nat n) u addr 0 pi in
    (Return i, pi', u', [wake_nwrite]).
End Operations.

(** ** Abstract view *)

Definition queue (pi : pipe) : list Z :=
  contents PIPESIZE (2 ^ 32) (data pi) (nread pi) (nwrite pi).

Record pipe_ok (pi : pipe) : Prop := {
  pipe_data : Z.of_nat (length (data pi)) = PIPESIZE;
  pipe_nread : counter (2 ^ 32) (nread pi);
  pipe_nwrite : counter (2 ^ 32) (nwrite pi);
  pipe_used : used (2 ^ 32) (nread pi) (nwrite pi) <= PIPESIZE
}.

(** ** Readers and writers *)

Record psys : Type := Psys {
  pi : pipe;
  rsleep : gset Z;
  wsleep : gset Z;
  sent : list Z;
  taken : list (option Z)
}.

(** What a list of wakeups leaves asleep on a channel. *)
Definition after_wake (ch : bool) (ws : wakeups) (X : gset Z) : gset Z :=
  if bool_decide (ch ∈ ws) then ∅ else X.

(** The [n] bytes at [a] in a process's memory. *)
Definition user_bytes {U} `{UserMem U} (u : U) (a n : Z) : list Z := omap (copyin1 u) (seqZ a n).

(** The number of bytes by which a stretch has shortened the queue. *)
Definition fewer (p p' : pipe) : Z := Z.of_nat (length (queue p)) - Z.of_nat (length (queue p')).

(** The bytes a stretch of [pipewrite] from index [i] has written, as the
    caller knows it: those before the index it returns or resumes from.  The
    [return -1] of a killed process does not say how many there were. *)
Definition written {U} `{UserMem U} (u : U) (addr i : Z) (out : outcome) (p p' : pipe) : list Z :=
  user_bytes u (addr + i)
    match out with
    | Blocked j => j - i
    | Return r => if r =? -1 then - fewer p p' else r - i
    end.

(** What a stretch of [piperead] has taken: the bytes now in the caller's buffer,
    and [None] for a byte removed that is not there ([copyout] failed). *)
Definition received {U} `{UserMem U} (u' : U) (addr : Z) (out : outcome) (p p' : pipe) : list (option Z) :=
  let n := match out with Blocked _ => 0 | Return r => Z.max 0 r end in
  (Some <$> user_bytes u' addr n) ++ replicate (Z.to_nat (fewer p p' - n)) None.

(** [kill_ok killed i] restricts when [killed] may become true during a stretch
    that starts at index [i]: any time, or only between stretches; [mem_ok]
    restricts the readers' address spaces. *)
Definition any_time (killed : Z -> bool) (i : Z) : Prop := True.
Definition steady (killed : Z -> bool) (i : Z) : Prop :=
  forall j, i <= j -> killed j = killed i.

Section System.
Context {U : Type} `{UserMem U} (kill_ok : (Z -> bool) -> Z -> Prop) (mem_ok : U -> Prop).

Inductive pipe_step (s : psys) : psys -> Prop :=
| step_write pid killed (u : U) addr n i out p' ws :
    pid ∉ rsleep s ∪ wsleep s -> 0 <= i -> kill_ok killed i ->
    pipewrite killed u addr n i (pi s) = (out, p', ws) ->
    pipe_step s
      {| pi := p';
         rsleep := after_wake wake_nread ws (rsleep s);
         wsleep := match out with
                   | Blocked _ => {[pid]} ∪ after_wake wake_nwrite ws (wsleep s)
                   | Return _ => after_wake wake_nwrite ws (wsleep s)
                   end;
         sent := sent s ++ written u addr i out (pi s) p'; taken := taken s |}
| step_read pid killed (u : U) addr n out p' u' ws :
    pid ∉ rsleep s ∪ wsleep s -> mem_ok u ->
    piperead killed u addr n (pi s) = (out, p', u', ws) ->
    pipe_step s
      {| pi := p';
         rsleep := match out with
                   | Blocked _ => {[pid]} ∪ after_wake wake_nread ws (rsleep s)
                   | Return _ => after_wake wake_nread ws (rsleep s)
                   end;
         wsleep := after_wake wake_nwrite ws (wsleep s);
         sent := sent s; taken := taken s ++ received u' addr out (pi s) p' |}
| step_close writable p' ws freed :
    pipeclose (pi s) writable = (p', ws, freed) ->
    pipe_step s
      {| pi := p';
         rsleep := after_wake wake_nread ws (rsleep s);
         wsleep := after_wake wake_nwrite ws (wsleep s);
         sent := sent s; taken := taken s |}
| step_kill pid :
    pipe_step s
      {| pi := pi s; rsleep := rsleep s ∖ {[pid]}; wsleep := wsleep s ∖ {[pid]};
         sent := sent s; taken := taken s |}.
End System.

Definition psys_start (page : list Z) : psys :=
  {| pi := pipe_init page; rsleep := ∅; wsleep := ∅; sent := []; taken := [] |}.

(** ** Lemmas *)

Lemma ring_side : 0 < PIPESIZE /\ (PIPESIZE | 2 ^ 32) /\ 0 < 2 ^ 32.
Proof. split_and!; [done| |done]. by exists (2 ^ 23). Qed.

Lemma pipe_init_ok page :
  Z.of_nat (length page) = PIPESIZE -> pipe_ok (pipe_init page).
Proof. intros. split; cbn; unfold counter; done || lia. Qed.

Section Lemmas.
Context {U : Type} `{UserMem U}.
Implicit Types (p : pipe) (u : U).

Lemma queue_length p : Z.of_nat (length (queue p)) = used (2 ^ 32) (nread p) (nwrite p).
Proof. apply contents_length. done. Qed.

Lemma pipe_full p :
  pipe_ok p -> (nwrite p =? u32 (nread p + PIPESIZE)) = (Z.of_nat (length (queue p)) =? PIPESIZE).
Proof. intros Hp. rewrite queue_length. apply used_eqb; [apply Hp|done]. Qed.

Lemma pipe_empty p : pipe_ok p -> (nread p =? nwrite p) = true <-> queue p = [].
Proof.
  intros [_ Hr Hw _]. rewrite Z.eqb_eq, <- (used_zero (2 ^ 32)) by done.
  rewrite <- queue_length, <- length_zero_iff_nil. lia.
Qed.

(** Appending a byte to a pipe that is not full. *)
Definition push_byte p (ch : Z) : pipe :=
  {| data := put PIPESIZE (data p) (nwrite p) ch; nread := nread p;
     nwrite := u32 (nwrite p + 1); readopen := readopen p; writeopen := writeopen p |}.

Lemma push_byte_ok p ch :
  pipe_ok p -> Z.of_nat (length (queue p)) <> PIPESIZE ->
  pipe_ok (push_byte p ch) /\ queue (push_byte p ch) = queue p ++ [ch].
Proof.
  intros [Hd Hr Hw Hu] Hfull. rewrite queue_length in Hfull.
  destruct ring_side as (?&?&?). pose proof (used_bound (2 ^ 32) ltac:(done) (nread p) (nwrite p)).
  split; [split; cbn|].
  - by rewrite put_length.
  - done.
  - by apply counter_mod.
  - unfold u32. rewrite used_add by (unfold PIPESIZE in *; lia). lia.
  - unfold queue, push_byte, u32. cbn. by apply contents_push; try done; lia.
Qed.

(** Removing the first byte of a pipe that is not empty. *)
Definition pop_byte p : pipe :=
  {| data := data p; nread := u32 (nread p + 1); nwrite := nwrite p;
     readopen := readopen p; writeopen := writeopen p |}.

Lemma pop_byte_ok p :
  pipe_ok p -> queue p <> [] ->
  pipe_ok (pop_byte p) /\ queue p = slot PIPESIZE (data p) (nread p) :: queue (pop_byte p).
Proof.
  intros [Hd Hr Hw Hu] Hne. destruct ring_side as (?&?&?).
  assert (0 < used (2 ^ 32) (nread p) (nwrite p)).
  { rewrite <- queue_length. destruct (queue p); [done|cbn; lia]. }
  split; [split; cbn; try done|].
  - by apply counter_mod.
  - unfold u32. rewrite used_sub by (unfold PIPESIZE in *; lia). lia.
  - unfold queue, pop_byte, u32. cbn. by apply contents_pop.
Qed.

(** A stretch of [pipewrite] appends a run [bs] of the bytes at [addr + i]. *)
Lemma pipewrite_loop_spec k killed u addr i p out p' ws :
  pipe_ok p -> pipewrite_loop k killed u addr i p = (out, p', ws) ->
  pipe_ok p' /\ readopen p' = readopen p /\ writeopen p' = writeopen p /\
  exists bs, queue p' = queue p ++ bs /\ (length bs <= k)%nat /\
    (forall j b, bs !! j = Some b -> copyin1 u (addr + i + Z.of_nat j) = Some b) /\
    match out with
    | Blocked j => j = i + Z.of_nat (length bs) /\ ws = [wake_nread] /\
        readopen p = true /\ Z.of_nat (length (queue p')) = PIPESIZE
    | Return r =>
        (r = -1 /\ ws = [] /\ (readopen p = false /\ bs = [] \/
           killed (i + Z.of_nat (length bs)) = true)) \/
        (r = i + Z.of_nat (length bs) /\ ws = [wake_nread] /\
           (length bs = k \/ copyin1 u (addr + r) = None))
    end.
Proof.
  revert i p. induction k as [|k IH]; intros i p Hok Hrun; cbn [pipewrite_loop] in Hrun.
  - injection Hrun as <- <- <-. split_and!; [done..|]. exists [].
    rewrite app_nil_r. split_and!; [done|done|done|].
    right. cbn. split_and!; [lia|done|by left].
  - destruct (readopen p) eqn:Hro; cbn [negb orb] in Hrun;
      [destruct (killed i) eqn:Hk|].
    1, 3: injection Hrun as <- <- <-; split_and!; [done..|]; exists [];
      rewrite app_nil_r; split_and!; [done|cbn; lia|done|];
      left; rewrite ?Z.add_0_r; split_and!; [done|done|]; tauto || by left.
    + rewrite pipe_full in Hrun by done.
      destruct (Z.eqb_spec (Z.of_nat (length (queue p))) PIPESIZE) as [Hf|Hf].
      * injection Hrun as <- <- <-. split_and!; [done..|]. exists [].
        rewrite app_nil_r. cbn. split_and!; [done|lia|done|lia|done|done|done].
      * destruct (copyin1 u (addr + i)) as [ch|] eqn:Hc.
        -- destruct (push_byte_ok p ch Hok Hf) as [Hok1 Hq1].
           destruct (IH (i + 1) (push_byte p ch) Hok1)
             as (Hok' & Hr' & Hw' & bs & Hq & Hl & Hbs & Hout).
           { unfold push_byte. by rewrite Hro. }
           rewrite Hq1, <- app_assoc in Hq. cbn in Hr', Hw', Hout. rewrite Hro in *.
           split_and!; [done|done|done|]. exists (ch :: bs). cbn [length].
           split_and!; [done|lia| |].
           ++ intros [|j] b Hb; cbn in Hb.
              ** injection Hb as <-. by rewrite Z.add_0_r.
              ** specialize (Hbs j b Hb). by rewrite <- Hbs; f_equal; lia.
           ++ replace (i + Z.of_nat (S (length bs))) with (i + 1 + Z.of_nat (length bs)) by lia.
              destruct out; naive_solver lia.
        -- injection Hrun as <- <- <-. split_and!; [done..|]. exists [].
           rewrite app_nil_r. cbn. split_and!; [done|lia|done|].
           right. rewrite Z.add_0_r. split_and!; [done|done|by right].
Qed.
End Lemmas.

(** A run of [piperead]'s loop takes a run [bs] off the queue; with a lawful
    address space the bytes counted in the result are then at [addr + i]. *)
Section ReadLemmas.
Context {U : Type} `{UserMemLaws U}.

Lemma piperead_loop_queue k (u : U) addr i p r p' u' :
  pipe_ok p -> piperead_loop k u addr i p = (r, p', u') ->
  pipe_ok p' /\ readopen p' = readopen p /\ writeopen p' = writeopen p /\
  i <= r <= i + Z.of_nat k /\
  exists bs, queue p = bs ++ queue p' /\
    r - i <= Z.of_nat (length bs) <= r - i + 1 /\
    (Z.of_nat (length bs) = r - i -> queue p' = [] \/ r = i + Z.of_nat k).
Proof.
  revert u i p. induction k as [|k IH]; intros u i p Hok Hrun; cbn [piperead_loop] in Hrun.
  - injection Hrun as <- <- <-. split_and!; [done|done|done|lia|lia|].
    exists []. cbn. split_and!; [done|lia|lia|]. right. lia.
  - destruct (nread p =? nwrite p) eqn:He.
    + injection Hrun as <- <- <-. apply pipe_empty in He; [|done].
      split_and!; [done|done|done|lia|lia|]. exists []. cbn. split_and!; [done|lia|lia|by left].
    + assert (Hne : queue p <> []).
      { intros Hq. apply pipe_empty in Hq; [|done]. congruence. }
      destruct (pop_byte_ok p Hok Hne) as [Hok1 Hq1].
      destruct (copyout1 u (addr + i) _) as [u1 []] eqn:Hc.
      * destruct (IH u1 (i + 1) (pop_byte p) Hok1 Hrun)
          as (Hok' & Hr' & Hw' & Hb & bs & Hq & Hl & Hend).
        split_and!; [done|done|done|lia|lia|].
        exists (slot PIPESIZE (data p) (nread p) :: bs). cbn [length app].
        rewrite Hq1, Hq. split_and!; [done|lia|lia|].
        intros Hlen. destruct Hend as [?|?]; [lia|by left|right; lia].
      * injection Hrun as <- <- <-. split_and!; [done|done|done|lia|lia|].
        exists [slot PIPESIZE (data p) (nread p)]. cbn [length app].
        split_and!; [done|lia|lia|lia].
Qed.

Lemma piperead_loop_mem k (u : U) addr i p r p' u' :
  pipe_ok p -> uwf u -> piperead_loop k u addr i p = (r, p', u') ->
  uwf u' /\
  (forall a b, a < addr + i -> copyin1 u a = Some b -> copyin1 u' a = Some b) /\
  (forall j b, Z.of_nat j < r - i -> queue p !! j = Some b ->
     copyin1 u' (addr + i + Z.of_nat j) = Some b).
Proof.
  revert u i p. induction k as [|k IH]; intros u i p Hok Hwf Hrun; cbn [piperead_loop] in Hrun.
  - injection Hrun as <- <- <-. split_and!; [done|done|lia].
  - destruct (nread p =? nwrite p) eqn:He.
    { injection Hrun as <- <- <-. split_and!; [done|done|lia]. }
    assert (Hne : queue p <> []).
    { intros Hq. apply pipe_empty in Hq; [|done]. congruence. }
    destruct (pop_byte_ok p Hok Hne) as [Hok1 Hq1].
    destruct (copyout1 u (addr + i) _) as [u1 ok] eqn:Hc.
    assert (Hwf1 : uwf u1).
    { pose proof (copyout_wf u (addr + i) [slot PIPESIZE (data p) (nread p)] Hwf) as Hw.
      unfold copyout1 in Hc. by rewrite Hc in Hw. }
    destruct ok.
    + destruct (IH u1 (i + 1) (pop_byte p) Hok1 Hwf1 Hrun) as (Hwf' & Hfr & Hrd).
      split_and!; [done| |].
      * intros a b Ha Hb. apply Hfr; [lia|].
        apply (copyout1_frame u (addr + i) _ u1 true a b Hwf Hc); [lia|done].
      * intros [|j] b Hj Hb; rewrite Hq1 in Hb; cbn in Hb.
        -- injection Hb as <-. rewrite Z.add_0_r. apply Hfr; [lia|].
           exact (copyout1_read _ _ _ _ Hwf Hc).
        -- replace (addr + i + Z.of_nat (S j)) with (addr + (i + 1) + Z.of_nat j) by lia.
           apply Hrd; [lia|done].
    + injection Hrun as <- <- <-. split_and!; [done| |lia].
      intros a b Ha Hb.
      apply (copyout1_frame u (addr + i) _ u1 false a b Hwf Hc); [lia|done].
Qed.
End ReadLemmas.

(** ** The system of readers and writers *)

(** What readers have is what was written, but for bytes lost. *)
Definition same_or_lost (t : option Z) (b : Z) : Prop := t = Some b \/ t = None.

Definition fifo (s : psys) : Prop :=
  pipe_ok (pi s) /\ exists bs, sent s = bs ++ queue (pi s) /\ Forall2 same_or_lost (taken s) bs.

Definition no_lost_wakeup (s : psys) : Prop :=
  (rsleep s <> ∅ -> queue (pi s) = [] /\ writeopen (pi s) = true) /\
  (wsleep s <> ∅ -> Z.of_nat (length (queue (pi s))) = PIPESIZE /\ readopen (pi s) = true).

Lemma pipeclose_spec p w p' ws fr :
  pipeclose p w = (p', ws, fr) ->
  queue p' = queue p /\ (pipe_ok p -> pipe_ok p') /\
  if w then readopen p' = readopen p /\ ws = [wake_nread]
  else writeopen p' = writeopen p /\ ws = [wake_nwrite].
Proof.
  unfold pipeclose. destruct w; intros [= <- <- _]; (split; [done|]; split; [|done]);
    by intros [????]; split.
Qed.

Section Invariant.
Context {U : Type} `{UserMemLaws U}.

Lemma user_bytes_eq (u : U) a bs :
  (forall j b, bs !! j = Some b -> copyin1 u (a + Z.of_nat j) = Some b) ->
  user_bytes u a (Z.of_nat (length bs)) = bs.
Proof.
  unfold user_bytes. revert a. induction bs as [|b bs IH]; intros a Hbs; [done|].
  cbn [length]. rewrite seqZ_cons by lia. cbn [omap list_omap].
  pose proof (Hbs 0%nat b eq_refl) as Hb0. rewrite Z.add_0_r in Hb0. rewrite Hb0. f_equal.
  replace (Z.pred (Z.of_nat (S (length bs)))) with (Z.of_nat (length bs)) by lia. apply IH.
  intros j c Hj. specialize (Hbs (S j) c Hj). by replace (Z.succ a + Z.of_nat j) with (a + Z.of_nat (S j)) by lia.
Qed.

(** A stretch of [pipewrite] puts into the queue the bytes it has written. *)
Lemma pipewrite_queue killed (u : U) addr n i p out p' ws :
  pipe_ok p -> 0 <= i -> pipewrite killed u addr n i p = (out, p', ws) ->
  pipe_ok p' /\ queue p' = queue p ++ written u addr i out p p'.
Proof.
  intros Hok Hi Hrun. destruct (pipewrite_loop_spec _ _ _ _ _ _ _ _ _ Hok Hrun)
    as (Hok' & _ & _ & bs & Hq & _ & Hbs & Hout).
  split; [done|]. rewrite Hq. f_equal. rewrite <- (user_bytes_eq u (addr + i) bs Hbs) at 1.
  unfold written, fewer. f_equal. rewrite Hq, length_app.
  destruct out as [r|j]; [|lia]. destruct Hout as [(-> & _)|(-> & _)]; [cbn; lia|].
  destruct (Z.eqb_spec (i + Z.of_nat (length bs)) (-1)); lia.
Qed.

(** A stretch of [piperead] takes off the queue the bytes it delivers, and at
    most one more. *)
Lemma piperead_queue killed (u : U) addr n p out p' u' ws :
  pipe_ok p -> uwf u -> piperead killed u addr n p = (out, p', u', ws) ->
  pipe_ok p' /\ exists bs, queue p = bs ++ queue p' /\ Forall2 same_or_lost (received u' addr out p p') bs.
Proof.
  intros Hok Hwf Hrun. unfold piperead in Hrun. destruct (_ && _).
  { assert (p' = p /\ (out = Return (-1) \/ out = Blocked 0)) as [-> Ho] by (destruct killed; naive_solver).
    split; [done|]. exists []. split; [done|]. unfold received, fewer. rewrite Z.sub_diag.
    destruct Ho as [-> | ->]; constructor. }
  destruct (piperead_loop _ _ _ _ _) as [[r q] v] eqn:Hl. injection Hrun as <- <- <- _.
  destruct (piperead_loop_queue _ _ _ _ _ _ _ _ Hok Hl) as (Hok' & _ & _ & Hr & bs & Hq & Hlen & _).
  destruct (piperead_loop_mem _ _ _ _ _ _ _ _ Hok Hwf Hl) as (_ & _ & Hmem).
  split; [done|]. exists bs. split; [done|]. unfold received, fewer. rewrite Z.max_r by lia.
  assert (Htake : Z.of_nat (length (take (Z.to_nat r) bs)) = r) by (rewrite length_take; lia).
  assert (user_bytes v addr r = take (Z.to_nat r) bs) as ->.
  { rewrite <- Htake at 1. apply user_bytes_eq. intros j b Hb. pose proof (lookup_lt_Some _ _ _ Hb).
    rewrite lookup_take_lt in Hb by lia. replace (addr + Z.of_nat j) with (addr + 0 + Z.of_nat j) by lia.
    apply Hmem; [lia|]. rewrite Hq. by apply lookup_app_l_Some. }
  rewrite <- (take_drop (Z.to_nat r) bs) at 2. apply Forall2_app.
  - apply Forall2_fmap_l. apply Forall_Forall2_diag. apply list.Forall_forall. intros x _. by left.
  - rewrite Hq, length_app. apply Forall2_replicate_l; [rewrite length_drop; lia|]. apply list.Forall_forall. intros x _. by right.
Qed.

Lemma fifo_step kill_ok s s' : fifo s -> pipe_step (U := U) kill_ok uwf s s' -> fifo s'.
Proof.
  intros (Hok & bs & Hf & Ht) Hs. destruct Hs as
    [pid killed u addr n i out p' ws _ Hi _ Hrun
    |pid killed u addr n out p' u' ws _ Hwf Hrun|w p' ws fr Hrun|pid].
  - destruct (pipewrite_queue _ _ _ _ _ _ _ _ _ Hok Hi Hrun) as (Hok' & Hq).
    split; [done|]. exists bs. cbn. by rewrite Hq, Hf, app_assoc.
  - destruct (piperead_queue _ _ _ _ _ _ _ _ _ Hok Hwf Hrun) as (Hok' & cs & Hq & Hcs).
    split; [done|]. exists (bs ++ cs). cbn. split; [by rewrite Hf, Hq, app_assoc|by apply Forall2_app].
  - destruct (pipeclose_spec _ _ _ _ _ Hrun) as (Hq & Hok' & _).
    split; [by apply Hok'|]. exists bs. cbn. by rewrite Hq.
  - split; [done|]. by exists bs.
Qed.

Lemma after_wake_in ch ws X : ch ∈ ws -> after_wake ch ws X = ∅.
Proof. intros. unfold after_wake. by rewrite bool_decide_true. Qed.

Lemma after_wake_notin ch ws X : ch ∉ ws -> after_wake ch ws X = X.
Proof. intros. unfold after_wake. by rewrite bool_decide_false. Qed.

Lemma wakeup_write s pid killed (u : U) addr n i out p' ws :
  pipe_ok (pi s) -> no_lost_wakeup s -> steady killed i ->
  pipewrite killed u addr n i (pi s) = (out, p', ws) ->
  no_lost_wakeup
    {| pi := p';
       rsleep := after_wake wake_nread ws (rsleep s);
       wsleep := match out with
                 | Blocked _ => {[pid]} ∪ after_wake wake_nwrite ws (wsleep s)
                 | Return _ => after_wake wake_nwrite ws (wsleep s)
                 end;
       sent := sent s ++ written u addr i out (pi s) p'; taken := taken s |}.
Proof.
  intros Hok [Hrs Hws] Hst Hrun.
  assert (Hsame : forall bs, queue p' = queue (pi s) ++ bs -> pipe_ok p' ->
    wsleep s <> ∅ -> bs = []).
  { intros bs Hq Hok' Hne. destruct (Hws Hne) as [Hfull _].
    pose proof (pipe_used _ Hok') as Hu. rewrite <- queue_length, Hq, length_app in Hu.
    destruct bs; [done|]. cbn in Hu. lia. }
  destruct (Z.to_nat (n - i)) as [|k] eqn:Hk.
  { unfold pipewrite in Hrun. rewrite Hk in Hrun. injection Hrun as <- <- <-.
    split; cbn; [done|]. done. }
  unfold pipewrite in Hrun. rewrite Hk in Hrun.
  destruct (killed i) eqn:Hkill.
  { cbn [pipewrite_loop] in Hrun. rewrite Hkill, orb_true_r in Hrun.
    injection Hrun as <- <- <-. done. }
  destruct (pipewrite_loop_spec _ _ _ _ _ _ _ _ _ Hok Hrun)
    as (Hok' & Hro & Hwo & bs & Hq & _ & _ & Hout).
  destruct out as [r|j].
  - destruct Hout as [(-> & -> & [[Hc ->]|Hkl])|(-> & -> & _)].
    + rewrite app_nil_r in Hq. split; cbn; rewrite Hq, ?Hro, ?Hwo; [apply Hrs|apply Hws].
    + rewrite Hst in Hkl by lia. congruence.
    + split; cbn; [done|]. intros Hne. specialize (Hws Hne).
      rewrite Hq, (Hsame bs Hq Hok' Hne), app_nil_r, Hro. done.
  - destruct Hout as (-> & -> & Hop & Hfull). split; cbn; [done|].
    intros _. by rewrite Hro.
Qed.

Lemma wakeup_step mem_ok s s' :
  pipe_ok (pi s) -> no_lost_wakeup s -> pipe_step (U := U) steady mem_ok s s' -> no_lost_wakeup s'.
Proof.
  intros Hok Hinv Hs. destruct Hs as
    [pid killed u addr n i out p' ws _ Hi Hst Hrun
    |pid killed u addr n out p' u' ws _ _ Hrun|w p' ws fr Hrun|pid].
  - by eapply wakeup_write.
  - destruct Hinv as [Hrs Hws]. unfold piperead in Hrun.
    destruct (_ && _) eqn:Hempty.
    + apply andb_true_iff in Hempty as [He Hw]. apply pipe_empty in He; [|done].
      destruct killed; injection Hrun as <- <- <- <-; [done|].
      split; cbn; [done|]. intros Hne. specialize (Hws Hne) as [Hl _].
      by rewrite He in Hl.
    + destruct (piperead_loop _ _ _ _ _) as [[r q] v] eqn:Hl. injection Hrun as <- <- _ <-.
      destruct (piperead_loop_queue _ _ _ _ _ _ _ _ Hok Hl)
        as (Hok' & Hro & Hwo & _ & bs & Hq & _).
      split; cbn; [|by rewrite after_wake_in by set_solver].
      rewrite after_wake_notin by (by intros ?%list_elem_of_singleton).
      intros Hne. destruct (Hrs Hne) as [Hnil Hw]. rewrite Hnil in Hq.
      destruct bs; [|done]. by rewrite Hwo.
  - destruct Hinv as [Hrs Hws]. destruct (pipeclose_spec _ _ _ _ _ Hrun) as (Hq & _ & Hc).
    destruct w; destruct Hc as [Hc ->]; split; cbn; rewrite ?Hq, ?Hc; done.
  - destruct Hinv as [Hrs Hws]. split; cbn; intros Hne; [apply Hrs|apply Hws]; set_solver.
Qed.
End Invariant.

Section Reachable.
Context {U : Type} `{UserMemLaws U}.

Lemma fifo_reach kill_ok page s :
  Z.of_nat (length page) = PIPESIZE ->
  reach (pipe_step (U := U) kill_ok uwf) (psys_start page) s -> fifo s.
Proof.
  intros Hp. apply (reach_inv _ fifo).
  - split; [by apply pipe_init_ok|]. exists []. cbn. unfold queue, pipe_init. cbn.
    by rewrite contents_empty.
  - intros ??. apply fifo_step.
Qed.

Lemma ok_step kill_ok mem_ok s s' : pipe_ok (pi s) -> pipe_step (U := U) kill_ok mem_ok s s' -> pipe_ok (pi s').
Proof.
  intros Hok Hs. destruct Hs as
    [pid killed u addr n i out p' ws _ Hi _ Hrun
    |pid killed u addr n out p' u' ws _ _ Hrun|w p' ws fr Hrun|pid]; [| | |done].
  - by apply (pipewrite_loop_spec _ _ _ _ _ _ _ _ _ Hok Hrun).
  - cbn. unfold piperead in Hrun. destruct (_ && _); [destruct killed; naive_solver|].
    destruct (piperead_loop _ _ _ _ _) as [[r q] v] eqn:Hl. injection Hrun as _ <- _ _.
    by apply (piperead_loop_queue _ _ _ _ _ _ _ _ Hok Hl).
  - by apply (pipeclose_spec _ _ _ _ _ Hrun).
Qed.

Lemma wakeup_reach mem_ok page s :
  Z.of_nat (length page) = PIPESIZE ->
  reach (pipe_step (U := U) steady mem_ok) (psys_start page) s -> pipe_ok (pi s) /\ no_lost_wakeup s.
Proof.
  intros Hp. apply (reach_inv _ (fun s => pipe_ok (pi s) /\ no_lost_wakeup s)).
  - split; [by apply pipe_init_ok|done].
  - intros s1 s2 [Hok Hn] Hs. split; [by eapply ok_step|by eapply wakeup_step].
Qed.

(** A read into memory that is mapped loses no byte. *)
Lemma piperead_loop_mapped k (u : U) addr i p r p' u' :
  pipe_ok p -> uwf u -> (forall a, addr + i <= a < addr + i + Z.of_nat k -> is_Some (copyin1 u a)) ->
  piperead_loop k u addr i p = (r, p', u') ->
  Z.of_nat (length (queue p)) = r - i + Z.of_nat (length (queue p')).
Proof.
  revert u i p. induction k as [|k IH]; intros u i p Hok Hwf Hm Hrun; cbn [piperead_loop] in Hrun.
  { injection Hrun as <- <- <-. lia. }
  destruct (nread p =? nwrite p) eqn:He; [injection Hrun as <- <- <-; lia|].
  assert (Hne : queue p <> []) by (intros Hq%pipe_empty; [congruence|done]).
  destruct (pop_byte_ok p Hok Hne) as [Hok1 Hq1]. set (ch := slot _ _ _) in *.
  destruct (Hm (addr + i)) as [x Hx]; [lia|]. apply copyin1_Some in Hx.
  pose proof (copyout_total u (addr + i) [ch] _ Hwf Hx) as Ht.
  pose proof (copyout_wf u (addr + i) [ch] Hwf) as Hwf1.
  destruct (copyout1 u (addr + i) ch) as [u1 ok] eqn:Hc. unfold copyout1 in Hc. rewrite Hc in Ht, Hwf1.
  cbn in Ht, Hwf1. subst ok. apply (IH u1 (i + 1) (pop_byte p)) in Hrun; [rewrite Hq1; cbn [length]; lia|done|done|].
  intros a Ha. destruct (Hm a) as [y Hy]; [lia|]. exists y.
  apply (copyout1_frame u (addr + i) ch u1 true a y Hwf Hc); [lia|done].
Qed.

Lemma none_lost (l bs : list Z) : Forall2 same_or_lost (Some <$> l) bs -> bs = l.
Proof.
  revert bs. induction l as [|x l IH]; intros [|b bs] Hf; inversion_clear Hf as [|? ? ? ? Hx Hl]; [done|].
  destruct Hx as [[= ->]|?]; [|done]. f_equal. by apply IH.
Qed.

Lemma piperead_mapped killed (u : U) addr n p r p' u' ws :
  pipe_ok p -> uwf u -> (forall a, addr <= a < addr + n -> is_Some (copyin1 u a)) ->
  piperead killed u addr n p = (Return r, p', u', ws) -> queue p = user_bytes u' addr r ++ queue p'.
Proof.
  intros Hok Hwf Hm Hrun. destruct (piperead_queue _ _ _ _ _ _ _ _ _ Hok Hwf Hrun) as (_ & bs & Hq & Hf).
  enough (received u' addr (Return r) p p' = Some <$> user_bytes u' addr r) as Hr.
  { rewrite Hr in Hf. rewrite Hq. f_equal. by apply none_lost. }
  unfold piperead in Hrun. destruct (_ && _).
  { destruct killed; [|done]. injection Hrun as <- <- _ _. unfold received, fewer. by rewrite Z.sub_diag. }
  destruct (piperead_loop _ _ _ _ _) as [[r' q] v] eqn:Hl. injection Hrun as <- <- <- _.
  destruct (piperead_loop_queue _ _ _ _ _ _ _ _ Hok Hl) as (_ & _ & _ & Hr & _).
  assert (Z.of_nat (length (queue p)) = r' - 0 + Z.of_nat (length (queue q))).
  { eapply piperead_loop_mapped; [done|done| |exact Hl]. intros a Ha. apply Hm. lia. }
  unfold received, fewer. rewrite Z.max_r by lia.
  replace (Z.to_nat _) with 0%nat by lia. apply app_nil_r.
Qed.
End Reachable.

(** One system step taken by running the code: used to build example runs. *)
Definition do_write {U} `{UserMem U} (killed : Z -> bool) (u : U) (addr n i pid : Z)
    (s : psys) : psys :=
  let '(out, p', ws) := pipewrite killed u addr n i (pi s) in
  {| pi := p';
     rsleep := after_wake wake_nread ws (rsleep s);
     wsleep := match out with
               | Blocked _ => {[pid]} ∪ after_wake wake_nwrite ws (wsleep s)
               | Return _ => after_wake wake_nwrite ws (wsleep s)
               end;
     sent := sent s ++ written u addr i out (pi s) p'; taken := taken s |}.

Definition do_read {U} `{UserMem U} (u : U) (addr n pid : Z) (s : psys) : psys :=
  let '(out, p', u', ws) := piperead false u addr n (pi s) in
  {| pi := p';
     rsleep := match out with
               | Blocked _ => {[pid]} ∪ after_wake wake_nread ws (rsleep s)
               | Return _ => after_wake wake_nread ws (rsleep s)
               end;
     wsleep := after_wake wake_nwrite ws (wsleep s);
     sent := sent s; taken := taken s ++ received u' addr out (pi s) p' |}.

Section DoSteps.
Context {U : Type} `{UserMem U}.

Lemma do_write_step kill_ok mem_ok killed (u : U) addr n i pid s :
  pid ∉ rsleep s ∪ wsleep s -> 0 <= i -> kill_ok killed i ->
  pipe_step (U := U) kill_ok mem_ok s (do_write killed u addr n i pid s).
Proof.
  intros. unfold do_write. destruct (pipewrite _ _ _ _ _ _) as [[out p'] ws] eqn:Hr.
  by eapply step_write.
Qed.

Lemma do_read_step kill_ok mem_ok (u : U) addr n pid s :
  pid ∉ rsleep s ∪ wsleep s -> mem_ok u ->
  pipe_step (U := U) kill_ok mem_ok s (do_read u addr n pid s).
Proof.
  intros. unfold do_read. destruct (piperead _ _ _ _ _) as [[[out p'] u'] ws] eqn:Hr.
  by eapply step_read.
Qed.
End DoSteps.

(** A reader (process 1) finds the pipe empty and sleeps; a writer (process 2)
    puts bytes in and is killed after the first of them. *)
Definition zero_page : list Z := replicate 512 0.
Definition reader_asleep : psys := do_read [7; 8; 9] 0 3 1 (psys_start zero_page).
Definition writer_killed : psys :=
  do_write (fun i => 1 <=? i) [7; 8; 9] 0 3 0 2 reader_asleep.
Definition writer_done : psys :=
  do_write (fun _ => false) [7; 8; 9] 0 3 0 2 reader_asleep.

Lemma reader_asleep_reach kill_ok (mem_ok : list Z -> Prop) :
  mem_ok [7; 8; 9] -> reach (pipe_step (U := list Z) kill_ok mem_ok) (psys_start zero_page) reader_asleep.
Proof.
  intros Hm. apply reach_step with (psys_start zero_page); [apply reach_refl|].
  apply do_read_step; [|done]. by apply (bool_decide_unpack _); vm_compute.
Qed.

(** ** Theorems *)

(** C12. A pipe is a first-in first-out queue of at most [PIPESIZE] bytes: in
    every interleaving of readers, writers, closes and kills, the bytes that
    [pipewrite] has taken from the writers' memories, in order, are those that
    [piperead] has left in the readers' memories followed by the bytes in
    the buffer, however often the 32-bit counters have wrapped.  A byte is missing
    from a reader's memory only where [copyout] failed: a read into a
    mapped buffer delivers everything it removes. *)
Theorem pipe_fifo {U} `{UserMemLaws U} kill_ok page s :
  Z.of_nat (length page) = PIPESIZE ->
  reach (pipe_step (U := U) kill_ok uwf) (psys_start page) s ->
  (exists bs, sent s = bs ++ queue (pi s) /\ Forall2 same_or_lost (taken s) bs) /\
  Z.of_nat (length (queue (pi s))) <= PIPESIZE /\
  (forall killed (u : U) addr n r p' u' ws,
     uwf u -> (forall a, addr <= a < addr + n -> is_Some (copyin1 u a)) ->
     piperead killed u addr n (pi s) = (Return r, p', u', ws) ->
     queue (pi s) = user_bytes u' addr r ++ queue p').
Proof.
  intros Hp Hr. destruct (fifo_reach _ _ _ Hp Hr) as [Hok Hf].
  split; [done|]. split; [rewrite queue_length; apply Hok|].
  intros. by eapply piperead_mapped.
Qed.

(** The reader resumes and takes two of the three bytes. *)
Definition reader_done : psys := do_read [0; 0; 0; 0] 1 2 1 writer_done.

Lemma pipe_fifo_witness :
  sent reader_done = [7; 8; 9] /\ taken reader_done = [Some 7; Some 8] /\
  exists bs, sent reader_done = bs ++ queue (pi reader_done) /\ Forall2 same_or_lost (taken reader_done) bs.
Proof.
  split; [reflexivity|]. split; [reflexivity|].
  apply (pipe_fifo (U := list Z) steady zero_page reader_done); [reflexivity|].
  apply reach_step with writer_done; [apply reach_step with reader_asleep|].
  - apply reader_asleep_reach. exact I.
  - apply do_write_step; [by apply (bool_decide_unpack _); vm_compute|done|done].
  - apply do_read_step; [by apply (bool_decide_unpack _); vm_compute|exact I].
Defined.

(** C25. No wakeup is lost as long as no process is killed in the middle of
    a [pipewrite] loop: a process asleep in [piperead] faces an empty pipe
    whose write end is open, one asleep in [pipewrite] a full pipe whose
    read end is open, so the two never sleep at the same time. *)
Theorem pipe_no_lost_wakeup {U} `{UserMemLaws U} page s :
  Z.of_nat (length page) = PIPESIZE ->
  reach (pipe_step (U := U) steady (fun _ => True)) (psys_start page) s ->
  (rsleep s <> ∅ -> queue (pi s) = [] /\ writeopen (pi s) = true) /\
  (wsleep s <> ∅ -> Z.of_nat (length (queue (pi s))) = PIPESIZE /\ readopen (pi s) = true) /\
  (rsleep s = ∅ \/ wsleep s = ∅).
Proof.
  intros Hp Hr. destruct (wakeup_reach _ _ _ Hp Hr) as [_ [Hrs Hws]]. split_and!; [done|done|].
  destruct (decide (rsleep s = ∅)) as [?|Hne]; [by left|right].
  destruct (decide (wsleep s = ∅)) as [?|Hne']; [done|].
  destruct (Hrs Hne) as [Hq _]. destruct (Hws Hne') as [Hl _]. by rewrite Hq in Hl.
Qed.

Lemma pipe_no_lost_wakeup_witness :
  rsleep reader_asleep <> ∅ /\ queue (pi reader_asleep) = [].
Proof.
  assert (H : rsleep reader_asleep <> ∅) by (by apply (bool_decide_unpack _); vm_compute).
  split; [exact H|].
  exact (proj1 (proj1 (pipe_no_lost_wakeup (U := list Z) zero_page reader_asleep eq_refl
    (reader_asleep_reach steady (fun _ => True) I)) H)).
Defined.

(** The [return -1] of [pipewrite] for a killed process skips the wakeup:
    there is a run in which a reader stays asleep although the pipe holds a
    byte it could read, the writer having been killed between two bytes. *)
Theorem killed_writer_loses_wakeup :
  reach (pipe_step (U := list Z) any_time (fun _ => True)) (psys_start zero_page) writer_killed /\
  1 ∈ rsleep writer_killed /\ queue (pi writer_killed) = [7].
Proof.
  split_and!; [|by apply (bool_decide_unpack _); vm_compute|reflexivity].
  apply reach_step with reader_asleep; [by apply reader_asleep_reach|].
  apply do_write_step; [by apply (bool_decide_unpack _); vm_compute|done|done].
Qed.

(** Bytes travel through a pipe unchanged: a [pipewrite] of [n] bytes that
    returns [n] on an empty pipe, followed by a [piperead] that returns [m],
    leaves in the reader's memory the first [m] bytes of the writer's buffer. *)
Theorem pipe_transfer {U} `{UserMemLaws U} kw (u v v' : U) src dst n p p1 ws ws' kr m p2 :
  pipe_ok p -> queue p = [] -> uwf v -> 0 < n ->
  pipewrite kw u src n 0 p = (Return n, p1, ws) ->
  piperead kr v dst n p1 = (Return m, p2, v', ws') ->
  forall j, 0 <= j < m ->
    exists b, copyin1 u (src + j) = Some b /\ copyin1 v' (dst + j) = Some b.
Proof.
  intros Hok Hq Hwf Hn Hw Hr j Hj.
  destruct (pipewrite_loop_spec _ _ _ _ _ _ _ _ _ Hok Hw)
    as (Hok1 & _ & _ & bs & Hq1 & _ & Hbs & Hout).
  rewrite Hq in Hq1. cbn in Hq1, Hbs.
  unfold piperead in Hr. destruct (_ && _).
  { destruct kr; [|done]. injection Hr as <- _ _ _. lia. }
  destruct (piperead_loop _ _ _ _ _) as [[r q] w] eqn:Hl. injection Hr as <- <- <- _.
  destruct (piperead_loop_queue _ _ _ _ _ _ _ _ Hok1 Hl)
    as (_ & _ & _ & _ & bs' & Hq' & Hlen & _).
  destruct (piperead_loop_mem _ _ _ _ _ _ _ _ Hok1 Hwf Hl) as (_ & _ & Hmem).
  rewrite Hq1 in Hq', Hmem.
  destruct (lookup_lt_is_Some_2 bs (Z.to_nat j)) as [b Hb].
  { rewrite Hq', length_app. lia. }
  exists b. split.
  - specialize (Hbs _ _ Hb). rewrite Z2Nat.id in Hbs by lia. by rewrite Z.add_0_r in Hbs.
  - specialize (Hmem (Z.to_nat j) b ltac:(lia) Hb).
    rewrite Z2Nat.id in Hmem by lia. by rewrite Z.add_0_r in Hmem.
Qed.

Lemma pipe_transfer_witness :
  exists b, copyin1 [7; 8; 9] (0 + 2) = Some b /\ copyin1 [1; 7; 8; 9; 5] (1 + 2) = Some b.
Proof.
  eapply (pipe_transfer (U := list Z) (fun _ => false) [7; 8; 9] [1; 2; 3; 4; 5] _ 0 1 3
    (pipe_init zero_page)) with (m := 3) (kr := false).
  - apply pipe_init_ok. reflexivity.
  - reflexivity.
  - exact I.
  - reflexivity.
  - vm_compute. reflexivity.
  - vm_compute. reflexivity.
  - lia.
Defined.
