(* ===== verification/Uart.v ===== *)
(** The UART driver's transmit side ([kernel/uart.c]).

    [uartputc] appends to a 32-byte ring buffer and [uartstart] moves bytes from
    it to the device while the device is ready.  The device is a transcript of
    the bytes written to [THR]; how many bytes it is ready for during a call,
    that is how often [LSR_TX_IDLE] reads set, is an argument.  Both run under
    [uart_tx_lock], so a call up to its [sleep] is one step.

    Shown: bytes leave in the order they were handed to [uartputc], across
    the wrap of the 64-bit counters; the buffer never overflows; a process
    sleeps in [uartputc] only while the buffer is full. *)

From S2P Require Import Prelude Ring.

Definition UART_TX_BUF_SIZE : Z := 32.

(** Bytes reach the device through the ring buffer or directly, by
    [uartputc_sync]. *)
Inductive tx : Type :=
| Buffered (c : Z)
| Direct (c : Z).

Record uart : Type := Uart {
  uart_tx_buf : list Z;
  uart_tx_w : Z;
  uart_tx_r : Z;
  thr : list tx
}.

(** The device registers [uartinit] writes, in order. *)
Definition IER : Z := 1.
Definition FCR : Z := 2.
Definition LCR : Z := 3.
Definition IER_RX_ENABLE : Z := Z.shiftl 1 0.
Definition IER_TX_ENABLE : Z := Z.shiftl 1 1.
Definition FCR_FIFO_ENABLE : Z := Z.shiftl 1 0.
Definition FCR_FIFO_CLEAR : Z := Z.shiftl 3 1.
Definition LCR_EIGHT_BITS : Z := Z.shiftl 3 0.
Definition LCR_BAUD_LATCH : Z := Z.shiftl 1 7.

Definition uartinit : list (Z * Z) :=
  [(IER, 0); (LCR, LCR_BAUD_LATCH); (0, 3); (1, 0); (LCR, LCR_EIGHT_BITS);
   (FCR, Z.lor FCR_FIFO_ENABLE FCR_FIFO_CLEAR); (IER, Z.lor IER_TX_ENABLE IER_RX_ENABLE)].

(** [uartstart] with a device ready for [ready] bytes; the second component
    says whether it called [wakeup(&uart_tx_r)]. *)
Fixpoint uartstart (ready : nat) (s : uart) : uart * bool :=
  if uart_tx_w s =? uart_tx_r s then (s, false)
  else
    match ready with
    | O => (s, false)
    | S ready =>
        let c := slot UART_TX_BUF_SIZE (uart_tx_buf s) (uart_tx_r s) in
        let s1 := {| uart_tx_buf := uart_tx_buf s; uart_tx_w := uart_tx_w s;
                     uart_tx_r := u64 (uart_tx_r s + 1);
                     thr := thr s ++ [Buffered c] |} in
        ((uartstart ready s1).1, true)
    end.

(** [uartputc]: [None] when it sleeps on [&uart_tx_r] with the buffer full. *)
Definition uartputc (ready : nat) (c : Z) (s : uart) : option (uart * bool) :=
  if uart_tx_w s =? u64 (uart_tx_r s + UART_TX_BUF_SIZE) then None
  else
    Some (uartstart ready
      {| uart_tx_buf := put UART_TX_BUF_SIZE (uart_tx_buf s) (uart_tx_w s) (u8 c);
         uart_tx_w := u64 (uart_tx_w s + 1); uart_tx_r := uart_tx_r s; thr := thr s |}).

(** [uartputc_sync] waits for [LSR_TX_IDLE] and writes the byte itself. *)
Definition uartputc_sync (c : Z) (s : uart) : uart :=
  {| uart_tx_buf := uart_tx_buf s; uart_tx_w := uart_tx_w s;
     uart_tx_r := uart_tx_r s; thr := thr s ++ [Direct (u8 c)] |}.

(** ** Abstract view *)

Definition txq (s : uart) : list Z :=
  contents UART_TX_BUF_SIZE (2 ^ 64) (uart_tx_buf s) (uart_tx_r s) (uart_tx_w s).

Definition buffered (l : list tx) : list Z :=
  omap (fun t => match t with Buffered c => Some c | Direct _ => None end) l.

Record uart_ok (s : uart) : Prop := {
  uart_len : Z.of_nat (length (uart_tx_buf s)) = UART_TX_BUF_SIZE;
  uart_w : counter (2 ^ 64) (uart_tx_w s);
  uart_r : counter (2 ^ 64) (uart_tx_r s);
  uart_used : used (2 ^ 64) (uart_tx_r s) (uart_tx_w s) <= UART_TX_BUF_SIZE
}.

(** The driver with its callers: processes asleep in [uartputc], and the bytes
    accepted by it so far. *)
Record tty : Type := Tty { dev : uart; asleep : gset Z; accepted : list Z }.

Inductive tty_step (t : tty) : tty -> Prop :=
| tty_putc pid ready c s' w :
    pid ∉ asleep t -> uartputc ready c (dev t) = Some (s', w) ->
    tty_step t {| dev := s'; asleep := if w then ∅ else asleep t;
                  accepted := accepted t ++ [u8 c] |}
| tty_sleep pid ready c :
    pid ∉ asleep t -> uartputc ready c (dev t) = None ->
    tty_step t {| dev := dev t; asleep := {[pid]} ∪ asleep t; accepted := accepted t |}
| tty_start ready s' w :
    uartstart ready (dev t) = (s', w) ->
    tty_step t {| dev := s'; asleep := if w then ∅ else asleep t; accepted := accepted t |}
| tty_sync c :
    tty_step t {| dev := uartputc_sync c (dev t); asleep := asleep t; accepted := accepted t |}.

Definition tty_boot (buf : list Z) : tty :=
  {| dev := {| uart_tx_buf := buf; uart_tx_w := 0; uart_tx_r := 0; thr := [] |};
     asleep := ∅; accepted := [] |}.

(** ** Lemmas *)

Lemma uart_side :
  0 < UART_TX_BUF_SIZE /\ (UART_TX_BUF_SIZE | 2 ^ 64) /\ 0 < 2 ^ 64.
Proof. split_and!; [done| |done]. by exists (2 ^ 59). Qed.

Lemma txq_length s : Z.of_nat (length (txq s)) = used (2 ^ 64) (uart_tx_r s) (uart_tx_w s).
Proof. apply contents_length. done. Qed.

Lemma txq_empty s : uart_ok s -> (uart_tx_w s =? uart_tx_r s) = true <-> txq s = [].
Proof.
  intros [_ Hw Hr _]. rewrite Z.eqb_eq.
  rewrite <- length_zero_iff_nil.
  assert (uart_tx_r s = uart_tx_w s <-> used (2 ^ 64) (uart_tx_r s) (uart_tx_w s) = 0)
    by (symmetry; by apply used_zero).
  rewrite <- txq_length in *. split; [intros ?|intros ?]; naive_solver lia.
Qed.

(** [uartstart] sends a prefix of the queue. *)
Lemma uartstart_spec ready s s' w :
  uart_ok s -> uartstart ready s = (s', w) ->
  uart_ok s' /\ exists bs, txq s = bs ++ txq s' /\ thr s' = thr s ++ (Buffered <$> bs) /\
    (w = true <-> bs <> []) /\ length bs = Nat.min ready (length (txq s)).
Proof.
  revert s s' w. induction ready as [|ready IH]; intros s s' w Hok Hrun; cbn [uartstart] in Hrun;
    destruct (_ =? _) eqn:He.
  1, 3: injection Hrun as <- <-; apply txq_empty in He; [|done]; split; [done|];
    exists []; rewrite He; cbn; rewrite app_nil_r; split_and!; [done|done|naive_solver|lia].
  - injection Hrun as <- <-. split; [done|]. exists []. cbn. rewrite app_nil_r.
    split_and!; [done|done|naive_solver|done].
  - set (s1 := {| uart_tx_r := _ |}) in Hrun.
    assert (Hne : 0 < used (2 ^ 64) (uart_tx_r s) (uart_tx_w s)).
    { rewrite <- txq_length. destruct (txq s) eqn:Hq; [|cbn; lia].
      apply txq_empty in Hq; [congruence|done]. }
    destruct Hok as [Hl Hw Hr Hu]. destruct uart_side as (?&?&?).
    assert (Hq : txq s = slot UART_TX_BUF_SIZE (uart_tx_buf s) (uart_tx_r s) :: txq s1)
      by (by apply contents_pop).
    assert (Hok1 : uart_ok s1).
    { split; cbn; try done; [by apply counter_mod|].
      unfold u64. rewrite used_sub by (unfold UART_TX_BUF_SIZE in *; lia). lia. }
    destruct (uartstart ready s1) as [s2 w2] eqn:Hr2. injection Hrun as <- <-.
    destruct (IH s1 s2 w2 Hok1 Hr2) as (Hok2 & bs & Hq2 & Ht2 & _ & Hn).
    split; [done|]. exists (slot UART_TX_BUF_SIZE (uart_tx_buf s) (uart_tx_r s) :: bs).
    rewrite Hq, Hq2. split_and!; [done| |done|].
    + cbn. rewrite Ht2. cbn. by rewrite <- app_assoc.
    + cbn [length app]. rewrite <- Hq2. lia.
Qed.

Lemma uartputc_spec ready c s :
  uart_ok s ->
  match uartputc ready c s with
  | None => Z.of_nat (length (txq s)) = UART_TX_BUF_SIZE
  | Some (s', w) =>
      Z.of_nat (length (txq s)) < UART_TX_BUF_SIZE /\ uart_ok s' /\
      exists bs, txq s ++ [u8 c] = bs ++ txq s' /\ thr s' = thr s ++ (Buffered <$> bs) /\
        (w = true <-> bs <> [])
  end.
Proof.
  intros [Hl Hw Hr Hu]. unfold uartputc, u64. destruct uart_side as (?&?&?).
  rewrite used_eqb by done. pose proof (txq_length s) as Hlen. rewrite <- Hlen.
  destruct (Z.eqb_spec (Z.of_nat (length (txq s))) UART_TX_BUF_SIZE) as [|Hn]; [done|].
  set (s1 := {| uart_tx_r := _ |}).
  assert (Hq : txq s1 = txq s ++ [u8 c]).
  { unfold txq at 1. subst s1. cbn [uart_tx_buf uart_tx_r uart_tx_w].
    apply contents_push; try done. lia. }
  assert (Hok1 : uart_ok s1).
  { split; cbn; [by rewrite put_length|by apply counter_mod|done|].
    pose proof (used_bound (2 ^ 64) ltac:(done) (uart_tx_r s) (uart_tx_w s)).
    rewrite used_add by (unfold UART_TX_BUF_SIZE in *; lia). lia. }
  destruct (uartstart ready s1) as [s2 w] eqn:Hr2.
  destruct (uartstart_spec _ _ _ _ Hok1 Hr2) as (Hok2 & bs & Hq2 & Ht & Hwk & _).
  split; [lia|]. split; [done|]. exists bs. by rewrite <- Hq.
Qed.

Lemma buffered_app l l' : buffered (l ++ l') = buffered l ++ buffered l'.
Proof. apply omap_app. Qed.

Lemma buffered_fmap bs : buffered (Buffered <$> bs) = bs.
Proof. induction bs as [|b bs IH]; cbn; [done|]. by f_equal. Qed.

(** ** Theorems *)

Definition tty_inv (t : tty) : Prop :=
  uart_ok (dev t) /\ accepted t = buffered (thr (dev t)) ++ txq (dev t) /\
  (asleep t <> ∅ -> Z.of_nat (length (txq (dev t))) = UART_TX_BUF_SIZE).

Lemma tty_inv_step t t' : tty_inv t -> tty_step t t' -> tty_inv t'.
Proof.
  intros (Hok & Hf & Hs) Hstep. destruct Hstep as
    [pid ready c s' w _ Hp|pid ready c _ Hp|ready s' w Hp|c].
  - pose proof (uartputc_spec ready c _ Hok) as Hu. rewrite Hp in Hu.
    destruct Hu as (Hroom & Hok' & bs & Hq & Ht & Hw). split_and!; [done| |]; cbn.
    + rewrite Ht, buffered_app, buffered_fmap, Hf, <- !app_assoc. by f_equal.
    + intros Hne. exfalso. destruct w; [done|]. apply Hs in Hne. lia.
  - pose proof (uartputc_spec ready c _ Hok) as Hu. rewrite Hp in Hu.
    by split_and!.
  - destruct (uartstart_spec _ _ _ _ Hok Hp) as (Hok' & bs & Hq & Ht & Hw & _).
    split_and!; [done| |]; cbn.
    + rewrite Ht, buffered_app, buffered_fmap, Hf, Hq. by rewrite app_assoc.
    + destruct w; [done|]. intros Hne. specialize (Hs Hne).
      destruct bs; [by rewrite Hq in Hs|].
      assert (false = true) by (by apply Hw). done.
  - split_and!; cbn; [by destruct Hok; split| |done].
    rewrite buffered_app. cbn. by rewrite app_nil_r.
Qed.

(** C27. UART output is first-in first-out and bounded: in every interleaving
    of [uartputc], [uartstart] from interrupts and direct output, the bytes
    accepted so far are the buffered bytes already sent followed by the bytes in the ring
    buffer, there are at most 32 of the latter, and a process sleeps in
    [uartputc] only while all 32 places are taken. *)
Theorem uart_fifo buf t :
  Z.of_nat (length buf) = UART_TX_BUF_SIZE -> reach tty_step (tty_boot buf) t ->
  accepted t = buffered (thr (dev t)) ++ txq (dev t) /\
  Z.of_nat (length (txq (dev t))) <= UART_TX_BUF_SIZE /\
  (asleep t <> ∅ -> Z.of_nat (length (txq (dev t))) = UART_TX_BUF_SIZE).
Proof.
  intros Hl Hr. apply (reach_inv _ tty_inv) in Hr as (Hok & Hf & Hs).
  - split_and!; [done| |done]. rewrite txq_length. apply Hok.
  - split_and!; [split; cbn; unfold counter; done || lia| |done].
    unfold txq. cbn. by rewrite contents_empty.
  - intros ??. apply tty_inv_step.
Qed.

(** A byte put into the buffer of a busy device. *)
Definition busy_uart : uart :=
  match uartputc 0 65 (dev (tty_boot (replicate 32 0))) with
  | Some (s, _) => s
  | None => dev (tty_boot (replicate 32 0))
  end.

Lemma uart_fifo_witness :
  txq busy_uart = [65] /\ [65] = buffered (thr busy_uart) ++ txq busy_uart.
Proof.
  split; [reflexivity|].
  refine (proj1 (uart_fifo (replicate 32 0)
    {| dev := busy_uart; asleep := ∅; accepted := [65] |} eq_refl _)).
  eapply reach_step; [apply reach_refl|].
  exact (tty_putc (tty_boot (replicate 32 0)) 1 0 65 busy_uart false
    (not_elem_of_empty 1) eq_refl).
Defined.
