(* ===== verification/Console.v ===== *)
(** The console line discipline ([kernel/console.c]) and the UART interrupt
    handler that feeds it.

    [cons.buf] is a 128-byte ring with three counters: bytes from [r] to [w]
    are complete input waiting for [consoleread], bytes from [w] to [e] are
    the line being edited.  [consoleintr] runs under [cons.lock]; so does
    [consoleread] between two sleeps.  Echo goes to the UART through
    [consputc].

    Shown: the three counters stay ordered and within the buffer, across
    their wrap; [consoleintr] implements an editor on two lists, the committed
    input and the current line; [consoleread] delivers at most one line and
    keeps a pending end-of-file for the next call. *)

From S2P Require Import Prelude Ring UserMem Uart.

Definition BACKSPACE : Z := 0x100.
Definition INPUT_BUF_SIZE : Z := 128.
Definition NL : Z := 10.
Definition CR : Z := 13.
Definition DEL : Z := 0x7f.

(** [C(x)], Control-x. *)
Definition ctrl (x : Z) : Z := x - 64.
Definition ctrl_D : Z := ctrl 68.
Definition ctrl_H : Z := ctrl 72.
Definition ctrl_P : Z := ctrl 80.
Definition ctrl_U : Z := ctrl 85.

Record cons : Type := Cons { buf : list Z; r : Z; w : Z; e : Z }.

Definition consputc (c : Z) (u : uart) : uart :=
  if c =? BACKSPACE
  then uartputc_sync 8 (uartputc_sync 32 (uartputc_sync 8 u))
  else uartputc_sync c u.

(** What the handler did besides changing [cons] and the UART. *)
Inductive event : Type :=
| Quiet
| Procdump
| Wakeup_r.

Definition set_e (s : cons) (e' : Z) : cons :=
  {| buf := buf s; r := r s; w := w s; e := e' |}.

(** The loop of control-U; [fuel] bounds the number of bytes erased. *)
Fixpoint kill_line (fuel : nat) (s : cons) (u : uart) : cons * uart :=
  match fuel with
  | O => (s, u)
  | S fuel =>
      if negb (e s =? w s) && negb (slot INPUT_BUF_SIZE (buf s) (u32 (e s - 1)) =? NL)
      then kill_line fuel (set_e s (u32 (e s - 1))) (consputc BACKSPACE u)
      else (s, u)
  end.

(** The default case of the switch: a byte for the current line. *)
Definition console_type (c : Z) (s : cons) (u : uart) : cons * uart * event :=
  if negb (c =? 0) && (u32 (e s - r s) <? INPUT_BUF_SIZE) then
    let c := if c =? CR then NL else c in
    let u := consputc c u in
    let s := {| buf := put INPUT_BUF_SIZE (buf s) (e s) (u8 c); r := r s; w := w s;
                e := u32 (e s + 1) |} in
    if (c =? NL) || (c =? ctrl_D) || (u32 (e s - r s) =? INPUT_BUF_SIZE)
    then ({| buf := buf s; r := r s; w := e s; e := e s |}, u, Wakeup_r)
    else (s, u, Quiet)
  else (s, u, Quiet).

Definition consoleintr (c : Z) (s : cons) (u : uart) : cons * uart * event :=
  if c =? ctrl_P then (s, u, Procdump)
  else if c =? ctrl_U then
    let '(s', u') := kill_line (Z.to_nat INPUT_BUF_SIZE) s u in (s', u', Quiet)
  else if (c =? ctrl_H) || (c =? DEL) then
    if negb (e s =? w s)
    then (set_e s (u32 (e s - 1)), consputc BACKSPACE u, Quiet)
    else (s, u, Quiet)
  else console_type c s u.

(** [uartintr]: the input bytes waiting in the device, each given to
    [consoleintr], then [uartstart] with a device ready for [ready] bytes. *)
Fixpoint uartintr_loop (rx : list Z) (s : cons) (u : uart) : cons * uart * list event :=
  match rx with
  | [] => (s, u, [])
  | c :: rx =>
      let '(s, u, ev) := consoleintr c s u in
      let '(s, u, evs) := uartintr_loop rx s u in
      (s, u, ev :: evs)
  end.

Definition uartintr (rx : list Z) (ready : nat) (s : cons) (u : uart)
    : cons * uart * list event * bool :=
  let '(s, u, evs) := uartintr_loop rx s u in
  let '(u, wake) := uartstart ready u in
  (s, u, evs, wake).

(** A stretch of [consoleread] returns a value, or sleeps with the remaining
    count and destination to resume from. *)
Inductive cread : Type :=
| CReturn (v : Z)
| CBlocked (n dst : Z).

Section Read.
Context {U : Type} `{UserMem U}.

Fixpoint consoleread_loop (k : nat) (killed : bool) (target n : Z) (m : U) (dst : Z)
    (s : cons) : cread * cons * U :=
  match k with
  | O => (CReturn (target - n), s, m)
  | S k =>
      if r s =? w s then
        if killed then (CReturn (-1), s, m) else (CBlocked n dst, s, m)
      else
        let c := slot INPUT_BUF_SIZE (buf s) (r s) in
        let s1 := {| buf := buf s; r := u32 (r s + 1); w := w s; e := e s |} in
        if c =? ctrl_D then
          (CReturn (target - n),
           if n <? target
           then {| buf := buf s; r := u32 (r s1 - 1); w := w s; e := e s |} else s1, m)
        else
          match copyout1 m dst c with
          | (m, false) => (CReturn (target - n), s1, m)
          | (m, true) =>
              if c =? NL then (CReturn (target - (n - 1)), s1, m)
              else consoleread_loop k killed target (n - 1) m (dst + 1) s1
          end
  end.

(** One iteration per byte still wanted. *)
Definition consoleread (killed : bool) (target n : Z) (m : U) (dst : Z) (s : cons)
    : cread * cons * U :=
  consoleread_loop (Z.to_nat n) killed target n m dst s.

(** A stretch of [consolewrite]: the bytes written so far, or the index at
    which [uartputc] sleeps.  [ready i] is the device's readiness at byte [i]. *)
Fixpoint consolewrite_loop (k : nat) (ready : Z -> nat) (m : U) (src i : Z) (u : uart)
    : (Z + Z) * uart :=
  match k with
  | O => (inl i, u)
  | S k =>
      match copyin1 m (src + i) with
      | None => (inl i, u)
      | Some c =>
          match uartputc (ready i) c u with
          | None => (inr i, u)
          | Some (u, _) => consolewrite_loop k ready m src (i + 1) u
          end
      end
  end.

Definition consolewrite (ready : Z -> nat) (m : U) (src n i : Z) (u : uart)
    : (Z + Z) * uart :=
  consolewrite_loop (Z.to_nat (n - i)) ready m src i u.
End Read.

(** ** Abstract view: committed input and the line being edited *)

Definition committed (s : cons) : list Z :=
  contents INPUT_BUF_SIZE (2 ^ 32) (buf s) (r s) (w s).

Definition editing (s : cons) : list Z :=
  contents INPUT_BUF_SIZE (2 ^ 32) (buf s) (w s) (e s).

Record cons_ok (s : cons) : Prop := {
  cons_len : Z.of_nat (length (buf s)) = INPUT_BUF_SIZE;
  cons_r : counter (2 ^ 32) (r s);
  cons_w : counter (2 ^ 32) (w s);
  cons_e : counter (2 ^ 32) (e s);
  cons_sum : used (2 ^ 32) (r s) (e s) = used (2 ^ 32) (r s) (w s) + used (2 ^ 32) (w s) (e s);
  cons_fit : used (2 ^ 32) (r s) (e s) <= INPUT_BUF_SIZE;
  cons_nonl : NL ∉ editing s
}.

(** The line editor the handler implements: new lists, echoed bytes. *)
Record line : Type := Line { done_input : list Z; current : list Z }.

Definition echo (c : Z) : list Z := if c =? BACKSPACE then [8; 32; 8] else [u8 c].

Definition line_type (c : Z) (l : line) : line * list Z :=
  if negb (c =? 0) &&
     (Z.of_nat (length (done_input l) + length (current l)) <? INPUT_BUF_SIZE)
  then
    let c := if c =? CR then NL else c in
    let cur := current l ++ [c] in
    if (c =? NL) || (c =? ctrl_D) ||
       (Z.of_nat (length (done_input l) + length cur) =? INPUT_BUF_SIZE)
    then ({| done_input := done_input l ++ cur; current := [] |}, echo c)
    else ({| done_input := done_input l; current := cur |}, echo c)
  else (l, []).

Definition line_input (c : Z) (l : line) : line * list Z :=
  if c =? ctrl_P then (l, [])
  else if c =? ctrl_U then
    ({| done_input := done_input l; current := [] |},
     concat (replicate (length (current l)) (echo BACKSPACE)))
  else if (c =? ctrl_H) || (c =? DEL) then
    if decide (current l = []) then (l, [])
    else ({| done_input := done_input l; current := removelast (current l) |}, echo BACKSPACE)
  else line_type c l.

Definition abs_line (s : cons) : line :=
  {| done_input := committed s; current := editing s |}.

(** ** Lemmas *)

Lemma cons_side :
  0 < INPUT_BUF_SIZE /\ (INPUT_BUF_SIZE | 2 ^ 32) /\ 0 < 2 ^ 32.
Proof. split_and!; [done| |done]. by exists (2 ^ 25). Qed.

Lemma consputc_thr c u : thr (consputc c u) = thr u ++ (Direct <$> echo c).
Proof.
  unfold consputc, echo. destruct (c =? BACKSPACE); [|done].
  cbn. by rewrite <- !app_assoc.
Qed.

Lemma committed_length s : Z.of_nat (length (committed s)) = used (2 ^ 32) (r s) (w s).
Proof. apply contents_length. done. Qed.

Lemma editing_length s : Z.of_nat (length (editing s)) = used (2 ^ 32) (w s) (e s).
Proof. apply contents_length. done. Qed.

Lemma editing_nil s : cons_ok s -> (e s =? w s) = bool_decide (editing s = []).
Proof.
  intros Hok. apply eq_true_iff_eq. rewrite bool_decide_eq_true, Z.eqb_eq.
  rewrite <- length_zero_iff_nil.
  pose proof (used_zero (2 ^ 32) ltac:(done) (w s) (e s) (cons_w _ Hok) (cons_e _ Hok)).
  rewrite <- editing_length in *. split; intros; naive_solver lia.
Qed.

(** Erasing the last byte of the current line. *)
Lemma erase_spec s :
  cons_ok s -> editing s <> [] ->
  let s' := set_e s (u32 (e s - 1)) in
  cons_ok s' /\ committed s' = committed s /\
  editing s = editing s' ++ [slot INPUT_BUF_SIZE (buf s) (u32 (e s - 1))].
Proof.
  intros [Hl Hr Hw He Hsum Hfit Hnl] Hne s'. destruct cons_side as (?&?&?).
  assert (Hpos : 0 < used (2 ^ 32) (w s) (e s)).
  { rewrite <- editing_length. destruct (editing s); [done|cbn; lia]. }
  pose proof (used_bound (2 ^ 32) ltac:(done) (r s) (w s)).
  pose proof (used_bound (2 ^ 32) ltac:(done) (w s) (e s)).
  pose proof (used_bound (2 ^ 32) ltac:(done) (r s) (e s)).
  assert (Hed : editing s = editing s' ++ [slot INPUT_BUF_SIZE (buf s) (u32 (e s - 1))]).
  { unfold u32. rewrite slot_mod by done. by apply contents_unpush. }
  split; [|done]. split; cbn; try done.
  - by apply counter_mod.
  - unfold u32. rewrite <- !(Z.add_opp_r (e s) 1), !used_add by lia. lia.
  - unfold u32. rewrite <- !(Z.add_opp_r (e s) 1), used_add by lia. lia.
  - rewrite Hed in Hnl. set_solver.
Qed.

Lemma kill_line_spec fuel s u s' u' :
  cons_ok s -> (length (editing s) <= fuel)%nat -> kill_line fuel s u = (s', u') ->
  cons_ok s' /\ committed s' = committed s /\ editing s' = [] /\
  thr u' = thr u ++ (Direct <$> concat (replicate (length (editing s)) (echo BACKSPACE))).
Proof.
  revert s u. induction fuel as [|fuel IH]; intros s u Hok Hfuel Hrun; cbn [kill_line] in Hrun.
  - injection Hrun as <- <-. assert (editing s = []) as -> by (apply length_zero_iff_nil; lia).
    cbn. by rewrite app_nil_r.
  - rewrite editing_nil in Hrun by done. case_bool_decide as Hnil; cbn [negb andb] in Hrun.
    { injection Hrun as <- <-. rewrite Hnil. cbn. by rewrite app_nil_r. }
    destruct (erase_spec s Hok Hnil) as (Hok1 & Hc1 & He1).
    destruct (Z.eqb_spec (slot INPUT_BUF_SIZE (buf s) (u32 (e s - 1))) NL) as [Hx|Hx].
    { exfalso. apply (cons_nonl _ Hok). rewrite He1, Hx. set_solver. }
    cbn [negb] in Hrun.
    apply IH in Hrun as (Hok2 & Hc2 & He2 & Ht2); [|done|].
    2: { rewrite He1, length_app in Hfuel. cbn in Hfuel. lia. }
    split_and!; [done|congruence|done|].
    rewrite Ht2, consputc_thr, He1, length_app. cbn [length].
    rewrite Nat.add_1_r. cbn [replicate concat]. by rewrite fmap_app, <- app_assoc.
Qed.

(** Appending a byte to the current line. *)
Definition type_byte (s : cons) (c : Z) : cons :=
  {| buf := put INPUT_BUF_SIZE (buf s) (e s) c; r := r s; w := w s; e := u32 (e s + 1) |}.

Lemma type_byte_spec s c :
  cons_ok s -> used (2 ^ 32) (r s) (e s) < INPUT_BUF_SIZE ->
  let s' := type_byte s c in
  (c <> NL -> cons_ok s') /\ committed s' = committed s /\ editing s' = editing s ++ [c] /\
  Z.of_nat (length (buf s')) = INPUT_BUF_SIZE /\ counter (2 ^ 32) (e s') /\
  used (2 ^ 32) (r s') (e s') = used (2 ^ 32) (r s') (w s') + used (2 ^ 32) (w s') (e s') /\
  used (2 ^ 32) (r s') (e s') = used (2 ^ 32) (r s) (e s) + 1.
Proof.
  intros [Hl Hr Hw He Hsum Hfit Hnl] Hroom s'. destruct cons_side as (?&?&?).
  pose proof (used_bound (2 ^ 32) ltac:(done) (r s) (w s)).
  pose proof (used_bound (2 ^ 32) ltac:(done) (w s) (e s)).
  pose proof (used_bound (2 ^ 32) ltac:(done) (r s) (e s)).
  assert (INPUT_BUF_SIZE < 2 ^ 32) by done.
  assert (Hcom : committed s' = committed s) 
    by (unfold committed, s', type_byte; cbn [buf r w e]; apply contents_put_out; try done; lia).
  assert (Hed : editing s' = editing s ++ [c]) 
    by (unfold editing, s', type_byte; cbn [buf r w e]; apply contents_push; try done; lia).
  assert (Hlen : Z.of_nat (length (buf s')) = INPUT_BUF_SIZE) by (by cbn; rewrite put_length).
  assert (He' : counter (2 ^ 32) (e s')) by (by apply counter_mod).
  assert (Hre : used (2 ^ 32) (r s') (e s') = used (2 ^ 32) (r s) (e s) + 1).
  { cbn. unfold u32. apply used_add. lia. }
  assert (Hwe : used (2 ^ 32) (w s') (e s') = used (2 ^ 32) (w s) (e s) + 1).
  { cbn. unfold u32. apply used_add. lia. }
  cbn [r w type_byte s'] in Hre, Hwe |- *.
  assert (Hs' : used (2 ^ 32) (r s) (e s') =
    used (2 ^ 32) (r s) (w s) + used (2 ^ 32) (w s) (e s')) by lia.
  split_and!; try done. intros Hc. split; cbn [r w type_byte s']; try done; [lia|].
  rewrite Hed. set_solver.
Qed.

(** Handing the current line over to readers. *)
Lemma commit_line_spec s :
  Z.of_nat (length (buf s)) = INPUT_BUF_SIZE -> counter (2 ^ 32) (r s) ->
  counter (2 ^ 32) (w s) -> counter (2 ^ 32) (e s) ->
  used (2 ^ 32) (r s) (e s) = used (2 ^ 32) (r s) (w s) + used (2 ^ 32) (w s) (e s) ->
  used (2 ^ 32) (r s) (e s) <= INPUT_BUF_SIZE ->
  let s' := {| buf := buf s; r := r s; w := e s; e := e s |} in
  cons_ok s' /\ committed s' = committed s ++ editing s /\ editing s' = [].
Proof.
  intros Hl Hr Hw He Hsum Hfit s'. destruct cons_side as (?&?&?).
  assert (Hed : editing s' = []) by apply contents_empty.
  split; [|split; [by apply contents_app|done]]. split; cbn; try done.
  - rewrite used_refl. lia.
  - rewrite Hed. set_solver.
Qed.

(** Taking the first committed byte. *)
Definition take_byte (s : cons) : cons :=
  {| buf := buf s; r := u32 (r s + 1); w := w s; e := e s |}.

Lemma committed_nil s : cons_ok s -> (r s =? w s) = bool_decide (committed s = []).
Proof.
  intros Hok. apply eq_true_iff_eq. rewrite bool_decide_eq_true, Z.eqb_eq.
  rewrite <- length_zero_iff_nil.
  pose proof (used_zero (2 ^ 32) ltac:(done) (r s) (w s) (cons_r _ Hok) (cons_w _ Hok)).
  rewrite <- committed_length in *. split; intros; naive_solver lia.
Qed.

Lemma take_byte_spec s :
  cons_ok s -> committed s <> [] ->
  cons_ok (take_byte s) /\ editing (take_byte s) = editing s /\
  committed s = slot INPUT_BUF_SIZE (buf s) (r s) :: committed (take_byte s) /\
  u32 (r (take_byte s) - 1) = r s.
Proof.
  intros [Hl Hr Hw He Hsum Hfit Hnl] Hne. destruct cons_side as (?&?&?).
  assert (Hpos : 0 < used (2 ^ 32) (r s) (w s)).
  { rewrite <- committed_length. destruct (committed s); [done|cbn; lia]. }
  pose proof (used_bound (2 ^ 32) ltac:(done) (r s) (w s)).
  pose proof (used_bound (2 ^ 32) ltac:(done) (w s) (e s)).
  pose proof (used_bound (2 ^ 32) ltac:(done) (r s) (e s)).
  split; [|split; [done|split; [by apply contents_pop|]]].
  - split; cbn; try done; [by apply counter_mod| |]; unfold u32;
      rewrite !used_sub by lia; lia.
  - cbn. unfold u32. rewrite Zminus_mod_idemp_l. rewrite Z.add_simpl_r.
    by apply Z.mod_small.
Qed.

(** How a stretch of [consoleread] that wants [k] more bytes can end, having
    delivered [bs]. *)
Inductive read_end (killed : bool) (target n dst : Z) (k : nat) (s s' : cons) (bs : list Z)
    : cread -> Prop :=
| end_blocked : (length bs < k)%nat -> killed = false ->
    committed s = bs -> committed s' = [] -> NL ∉ bs ->
    read_end killed target n dst k s s' bs
      (CBlocked (n - Z.of_nat (length bs)) (dst + Z.of_nat (length bs)))
| end_killed : killed = true -> committed s = bs -> committed s' = [] -> NL ∉ bs ->
    read_end killed target n dst k s s' bs (CReturn (-1))
| end_full : length bs = k -> committed s = bs ++ committed s' -> NL ∉ bs ->
    read_end killed target n dst k s s' bs (CReturn (target - n + Z.of_nat (length bs)))
| end_line bs0 : bs = bs0 ++ [NL] -> NL ∉ bs0 -> committed s = bs ++ committed s' ->
    read_end killed target n dst k s s' bs (CReturn (target - n + Z.of_nat (length bs)))
| end_eof rest : (length bs < k)%nat -> NL ∉ bs -> committed s = bs ++ ctrl_D :: rest ->
    committed s' =
      (if n - Z.of_nat (length bs) <? target then ctrl_D :: rest else rest) ->
    read_end killed target n dst k s s' bs (CReturn (target - n + Z.of_nat (length bs)))
| end_fault c : (length bs < k)%nat -> NL ∉ bs -> committed s = bs ++ c :: committed s' ->
    read_end killed target n dst k s s' bs (CReturn (target - n + Z.of_nat (length bs))).

Lemma read_end_cons killed target n dst k s s1 s' c bs out :
  committed s = c :: committed s1 -> c <> NL ->
  read_end killed target (n - 1) (dst + 1) k s1 s' bs out ->
  read_end killed target n dst (S k) s s' (c :: bs) out.
Proof.
  intros Hs Hc Hend.
  assert (Hlen : Z.of_nat (length (c :: bs)) = Z.of_nat (length bs) + 1) by (cbn; lia).
  destruct Hend as [Hk Hkl Hcm He Hn|Hkl Hcm He Hn|Hk Hcm Hn|bs0 Hb Hn Hcm
                   |rest Hk Hn Hcm He|x Hk Hn Hcm].
  - replace (n - 1 - Z.of_nat (length bs)) with (n - Z.of_nat (length (c :: bs))) by lia.
    replace (dst + 1 + Z.of_nat (length bs)) with (dst + Z.of_nat (length (c :: bs))) by lia.
    apply end_blocked; cbn; try done; [lia|congruence|set_solver].
  - apply end_killed; try done; [congruence|set_solver].
  - replace (target - (n - 1) + Z.of_nat (length bs))
      with (target - n + Z.of_nat (length (c :: bs))) by lia.
    apply end_full; cbn; [lia|by rewrite Hs, Hcm|set_solver].
  - replace (target - (n - 1) + Z.of_nat (length bs))
      with (target - n + Z.of_nat (length (c :: bs))) by lia.
    apply (end_line _ _ _ _ _ _ _ _ (c :: bs0)); cbn; [by rewrite Hb|set_solver|by rewrite Hs, Hcm].
  - replace (target - (n - 1) + Z.of_nat (length bs))
      with (target - n + Z.of_nat (length (c :: bs))) by lia.
    apply (end_eof _ _ _ _ _ _ _ _ rest);
      [cbn; lia|set_solver|by rewrite Hs, Hcm|].
    rewrite He, Hlen. by replace (n - (Z.of_nat (length bs) + 1))
      with (n - 1 - Z.of_nat (length bs)) by lia.
  - replace (target - (n - 1) + Z.of_nat (length bs))
      with (target - n + Z.of_nat (length (c :: bs))) by lia.
    apply (end_fault _ _ _ _ _ _ _ _ x); cbn; [lia|set_solver|by rewrite Hs, Hcm].
Qed.

(** The end-of-file case: the byte is put back unless nothing has been
    delivered by this call. *)
Lemma read_eof killed target n dst k s :
  cons_ok s -> committed s <> [] -> slot INPUT_BUF_SIZE (buf s) (r s) = ctrl_D ->
  let s2 := if n <? target then {| buf := buf s; r := r s; w := w s; e := e s |}
            else take_byte s in
  cons_ok s2 /\ editing s2 = editing s /\
  read_end killed target n dst (S k) s s2 [] (CReturn (target - n)).
Proof.
  intros Hok Hnil HD s2. destruct (take_byte_spec s Hok Hnil) as (Hok1 & Hed1 & Hc1 & _).
  assert (Heta : {| buf := buf s; r := r s; w := w s; e := e s |} = s) by (by destruct s).
  assert (Hs2 : committed s2 = if n <? target then ctrl_D :: committed (take_byte s)
                               else committed (take_byte s)).
  { unfold s2. rewrite Heta. destruct (n <? target); [by rewrite Hc1, HD|done]. }
  split_and!.
  - unfold s2. rewrite Heta. by destruct (n <? target).
  - unfold s2. by destruct (n <? target).
  - replace (target - n) with (target - n + Z.of_nat (length (@nil Z))) by (cbn; lia).
    apply (end_eof _ _ _ _ _ _ _ _ (committed (take_byte s))); [cbn; lia|set_solver| |].
    + cbn. by rewrite Hc1, HD.
    + cbn [length Z.of_nat]. by rewrite Z.sub_0_r.
Qed.

Section ReadLemmas.
Context {U : Type} `{UserMemLaws U}.

Lemma consoleread_loop_spec k killed target n (m : U) dst s out s' m' :
  cons_ok s -> uwf m -> Z.of_nat k = n -> n <= target ->
  consoleread_loop k killed target n m dst s = (out, s', m') ->
  cons_ok s' /\ editing s' = editing s /\ uwf m' /\
  (forall a b, a < dst -> copyin1 m a = Some b -> copyin1 m' a = Some b) /\
  exists bs, (ctrl_D ∉ bs) /\ read_end killed target n dst k s s' bs out /\
    (forall j b, bs !! j = Some b -> copyin1 m' (dst + Z.of_nat j) = Some b).
Proof.
  revert n m dst s. induction k as [|k IH]; intros n m dst s Hok Hwf Hn Ht Hrun;
    cbn [consoleread_loop] in Hrun.
  { injection Hrun as <- <- <-. split_and!; try done. exists []. split_and!; [set_solver| |done].
    replace (target - n) with (target - n + Z.of_nat (length (@nil Z))) by (cbn; lia).
    apply end_full; set_solver. }
  rewrite committed_nil in Hrun by done. case_bool_decide as Hnil.
  { destruct killed; injection Hrun as <- <- <-; (split_and!; try done); exists [];
      (split_and!; [set_solver| |done]).
    - apply end_killed; set_solver.
    - rewrite <- (Z.sub_0_r n), <- (Z.add_0_r dst) at 2.
      apply (end_blocked _ _ _ _ _ _ _ []); set_solver || (cbn; lia). }
  destruct (take_byte_spec s Hok Hnil) as (Hok1 & Hed1 & Hc1 & Hr1).
  destruct (Z.eqb_spec (slot INPUT_BUF_SIZE (buf s) (r s)) ctrl_D) as [HD|HD].
  { injection Hrun as <- <- <-. cbn [r take_byte] in Hr1. cbn [r]. rewrite Hr1.
    destruct (read_eof killed target n dst k s Hok Hnil HD) as (Hok2 & Hed2 & Hend).
    split_and!; try done. exists []. split_and!; [set_solver|exact Hend|done]. }
  destruct (copyout1 m dst _) as [m1 ok] eqn:Hc.
  assert (Hwf1 : uwf m1).
  { pose proof (copyout_wf m dst [slot INPUT_BUF_SIZE (buf s) (r s)] Hwf) as Hw'.
    unfold copyout1 in Hc. by rewrite Hc in Hw'. }
  assert (Hfr1 : forall a b, a < dst -> copyin1 m a = Some b -> copyin1 m1 a = Some b).
  { intros a b Ha Hb. apply (copyout1_frame m dst _ m1 ok a b Hwf Hc); [lia|done]. }
  destruct ok.
  2: { injection Hrun as <- <- <-. split_and!; try done. exists []. split_and!; [set_solver| |done].
    replace (target - n) with (target - n + Z.of_nat (length (@nil Z))) by (cbn; lia).
    apply (end_fault _ _ _ _ _ _ _ _ (slot INPUT_BUF_SIZE (buf s) (r s)));
      [cbn; lia|set_solver|exact Hc1]. }
  pose proof (copyout1_read _ _ _ _ Hwf Hc) as Hrd.
  destruct (Z.eqb_spec (slot INPUT_BUF_SIZE (buf s) (r s)) NL) as [HN|HN].
  - injection Hrun as <- <- <-. split_and!; try done. exists [NL]. split_and!.
    + by apply not_elem_of_cons; split; [|set_solver].
    + replace (target - (n - 1)) with (target - n + Z.of_nat (length [NL])) by (cbn; lia).
      apply (end_line _ _ _ _ _ _ _ _ []); [done|set_solver|]. rewrite Hc1, HN. done.
    + intros [|j] b Hj; [|done]. injection Hj as <-. cbn. by rewrite Z.add_0_r, <- HN.
  - destruct (IH (n - 1) m1 (dst + 1) (take_byte s) Hok1 Hwf1 ltac:(lia) ltac:(lia) Hrun)
      as (Hok' & Hed' & Hwf' & Hfr' & bs & HbD & Hend & Hmem).
    split_and!; try done; [intros; apply Hfr'; [lia|]; auto|].
    exists (slot INPUT_BUF_SIZE (buf s) (r s) :: bs). split_and!.
    + apply not_elem_of_cons. done.
    + by eapply read_end_cons.
    + intros [|j] b Hj; cbn in Hj.
      * injection Hj as <-. rewrite Z.add_0_r. apply Hfr'; [lia|done].
      * replace (dst + Z.of_nat (S j)) with (dst + 1 + Z.of_nat j) by lia. by apply Hmem.
Qed.
End ReadLemmas.

Lemma console_type_spec c s u s' u' ev :
  cons_ok s -> 0 <= c < 256 -> console_type c s u = (s', u', ev) ->
  cons_ok s' /\ abs_line s' = (line_type c (abs_line s)).1 /\
  thr u' = thr u ++ (Direct <$> (line_type c (abs_line s)).2) /\
  (ev = Wakeup_r <-> committed s' <> committed s).
Proof.
  intros Hok Hc Hrun. unfold console_type in Hrun. unfold line_type.
  cbn [done_input current abs_line] in *.
  assert (Hroom : u32 (e s - r s) = Z.of_nat (length (committed s) + length (editing s))).
  { rewrite Nat2Z.inj_add, committed_length, editing_length. apply (cons_sum _ Hok). }
  rewrite Hroom in Hrun. destruct (negb (c =? 0) && _) eqn:Hg.
  2: { injection Hrun as <- <- <-. cbn. rewrite app_nil_r. naive_solver. }
  apply andb_true_iff in Hg as [_ Hlt%Z.ltb_lt].
  set (c' := if c =? CR then NL else c) in *.
  assert (Hu8 : u8 c' = c').
  { apply Z.mod_small. unfold c'. destruct (c =? CR); unfold NL; lia. }
  rewrite Hu8 in Hrun.
  destruct (type_byte_spec s c' Hok) as (Hok1 & Hc1 & He1 & Hb & Hce & Hsum & Hre).
  { change (used (2 ^ 32) (r s) (e s)) with (u32 (e s - r s)). lia. }
  fold (type_byte s c') in Hrun. change (u32 (e (type_byte s c') - r (type_byte s c')))
    with (used (2 ^ 32) (r (type_byte s c')) (e (type_byte s c'))) in Hrun.
  rewrite Hre in Hrun. rewrite length_app, Nat.add_assoc, Nat2Z.inj_add. cbn [length].
  change (used (2 ^ 32) (r s) (e s)) with (u32 (e s - r s)) in Hrun, Hre. rewrite Hroom in Hrun, Hre.
  destruct (_ || _ || _) eqn:Hcommit; injection Hrun as <- <- <-; cbn [fst snd];
    rewrite consputc_thr.
  - destruct (commit_line_spec (type_byte s c') Hb (cons_r _ Hok) (cons_w _ Hok) Hce Hsum)
      as (Hok2 & Hc2 & He2); [lia|].
    split; [exact Hok2|]. split; [|split; [done|]].
    + unfold abs_line. cbn [buf r w e type_byte] in Hc2, He2 |- *.
      rewrite Hc2, He2. f_equal. exact (f_equal2 app Hc1 He1).
    + split; [|done]. intros _ Heq. cbn [buf r w e type_byte] in Hc2, Heq.
      rewrite Hc2 in Heq. apply (f_equal length) in Heq. rewrite length_app in Heq.
      apply (f_equal length) in Hc1, He1. rewrite length_app in He1. cbn in *. lia.
  - assert (c' <> NL) by (intros ->; by rewrite Z.eqb_refl in Hcommit).
    split; [by apply Hok1|]. unfold abs_line. rewrite Hc1, He1. naive_solver.
Qed.

Lemma consoleintr_spec c s u s' u' ev :
  cons_ok s -> 0 <= c < 256 -> consoleintr c s u = (s', u', ev) ->
  cons_ok s' /\ abs_line s' = (line_input c (abs_line s)).1 /\
  thr u' = thr u ++ (Direct <$> (line_input c (abs_line s)).2) /\
  (ev = Wakeup_r <-> committed s' <> committed s).
Proof.
  intros Hok Hc Hrun. unfold consoleintr in Hrun. unfold line_input.
  destruct (c =? ctrl_P).
  { injection Hrun as <- <- <-. cbn. rewrite app_nil_r. naive_solver. }
  destruct (c =? ctrl_U).
  { destruct (kill_line _ _ _) as [s1 u1] eqn:Hk. injection Hrun as <- <- <-.
    pose proof (editing_length s) as Hl.
    pose proof (used_bound (2 ^ 32) ltac:(done) (r s) (w s)).
    apply kill_line_spec in Hk as (Hok1 & Hc1 & He1 & Ht1); [|done|].
    2: { pose proof (cons_sum _ Hok). pose proof (cons_fit _ Hok). lia. }
    unfold abs_line. cbn. rewrite Hc1, He1. naive_solver. }
  destruct ((c =? ctrl_H) || (c =? DEL)).
  { rewrite editing_nil in Hrun by done. cbn [current abs_line].
    case_bool_decide as Hnil; cbn [negb] in Hrun; injection Hrun as <- <- <-.
    - rewrite decide_True by done. cbn. rewrite app_nil_r. naive_solver.
    - rewrite decide_False by done. destruct (erase_spec s Hok Hnil) as (Hok1 & Hc1 & He1).
      cbn [fst snd]. rewrite consputc_thr. unfold abs_line.
      rewrite Hc1, He1, removelast_last. naive_solver. }
  by apply console_type_spec.
Qed.

(** ** Theorems *)

(** C26. [consoleintr] implements the line editor: for every input byte, the
    committed input and the current line afterwards are what the editor
    [line_input] makes of them (control-U empties the line, backspace and
    delete drop its last byte, carriage return is newline, a newline,
    end-of-file or a full buffer commits the line), the echoed bytes are the
    editor's, readers are woken exactly when committed input grows, and
    the counters stay consistent across their 32-bit wrap. *)
Theorem console_line_editor c s u s' u' ev :
  cons_ok s -> 0 <= c < 256 -> consoleintr c s u = (s', u', ev) ->
  cons_ok s' /\ abs_line s' = (line_input c (abs_line s)).1 /\
  thr u' = thr u ++ (Direct <$> (line_input c (abs_line s)).2) /\
  (ev = Wakeup_r <-> committed s' <> committed s).
Proof. apply consoleintr_spec. Qed.

(** Three bytes typed after boot. *)
Definition cons_boot : cons := {| buf := replicate 128 0; r := 0; w := 0; e := 0 |}.
Definition uart_boot : uart := dev (tty_boot (replicate 32 0)).
Definition cons_hi : cons := (uartintr_loop [104; 105; 13] cons_boot uart_boot).1.1.

Lemma cons_boot_ok : cons_ok cons_boot.
Proof. split; cbn; unfold counter; done || lia || apply not_elem_of_nil. Qed.

Lemma uartintr_loop_ok rx s u s' u' evs :
  cons_ok s -> Forall (fun c => 0 <= c < 256) rx ->
  uartintr_loop rx s u = (s', u', evs) -> cons_ok s'.
Proof.
  intros Hok Hrx. revert s u evs Hok. induction Hrx as [|c rx Hc Hrx IH];
    intros s u evs Hok Hrun; cbn [uartintr_loop] in Hrun; [by injection Hrun as <- _ _|].
  destruct (consoleintr c s u) as [[s1 u1] ev] eqn:Hi.
  destruct (uartintr_loop rx s1 u1) as [[s2 u2] evs2] eqn:Hl. injection Hrun as <- <- <-.
  apply (IH _ _ _) in Hl; [done|]. by apply consoleintr_spec in Hi as [? _].
Qed.

Lemma cons_hi_ok : cons_ok cons_hi.
Proof.
  destruct (uartintr_loop [104; 105; 13] cons_boot uart_boot) as [[s u] evs] eqn:Hr.
  assert (s = cons_hi) as <- by (unfold cons_hi; by rewrite Hr).
  apply (uartintr_loop_ok _ _ _ _ _ _ cons_boot_ok) in Hr; [done|].
  apply (bool_decide_unpack _). vm_compute. exact I.
Qed.

Lemma console_line_editor_witness :
  abs_line cons_boot = {| done_input := []; current := [] |} /\
  abs_line (consoleintr 104 cons_boot uart_boot).1.1
    = {| done_input := []; current := [104] |}.
Proof.
  split; [reflexivity|].
  exact (proj1 (proj2 (console_line_editor 104 cons_boot uart_boot _ _ _ cons_boot_ok
    ltac:(lia) (surjective_pairing _)))).
Defined.

(** [consoleread] delivers at most one line: a call on consistent buffers
    takes a prefix of the committed input and stores it at the destination, and
    ends in one of the ways of [read_end]: it sleeps or reports being killed
    with the input exhausted, it has [n] bytes, it has just delivered a
    newline, it met end-of-file (which stays in the buffer unless nothing was
    delivered, so that the next call returns 0), or the destination faulted.
    The line being edited is untouched. *)
Theorem consoleread_one_line {U} `{UserMemLaws U} killed n (m : U) dst s out s' m' :
  cons_ok s -> uwf m -> 0 < n -> consoleread killed n n m dst s = (out, s', m') ->
  cons_ok s' /\ editing s' = editing s /\
  exists bs, (ctrl_D ∉ bs) /\ read_end killed n n dst (Z.to_nat n) s s' bs out /\
    (forall j b, bs !! j = Some b -> copyin1 m' (dst + Z.of_nat j) = Some b).
Proof.
  intros Hok Hwf Hn Hrun. unfold consoleread in Hrun.
  apply consoleread_loop_spec in Hrun as (? & ? & _ & _ & ?); [|done|done|lia|lia].
  done.
Qed.

Lemma consoleread_one_line_witness :
  committed cons_hi = [104; 105; 10] /\
  exists out s' m', consoleread false 8 8 [0; 0; 0; 0] 0 cons_hi = (out, s', m') /\
    cons_ok s' /\ out = CReturn 3 /\ m' = [104; 105; 10; 0].
Proof.
  split; [reflexivity|].
  destruct (consoleread false 8 8 [0; 0; 0; 0] 0 cons_hi) as [[out s'] m'] eqn:Hr.
  exists out, s', m'. split; [reflexivity|].
  split; [exact (proj1 (consoleread_one_line (U := list Z) false 8 [0; 0; 0; 0] 0 cons_hi
    out s' m' cons_hi_ok I ltac:(lia) Hr))|].
  vm_compute in Hr. injection Hr as <- _ <-. split; reflexivity.
Defined.
