(* ===== verification/Block.v ===== *)
(** Disk blocks and the little-endian fields inside them.

    A block is a list of [BSIZE] bytes.  The file system and the log overlay C
    structs on [b->data]; a field access is a little-endian read or write of
    2 or 4 bytes at the field's offset. *)

From S2P Require Import Prelude Mem.

Definition BSIZE : Z := 1024.

(** The blocks one file system operation may log. *)
Definition MAXOPBLOCKS : Z := 10.

Abbreviation block := (list Z).

Definition get8 (b : block) (i : Z) : Z := default 0 (zget b i).
Definition set8 (b : block) (i v : Z) : block := default b (zset b i v).

Fixpoint get_le (k : nat) (b : block) (off : Z) : Z :=
  match k with
  | O => 0
  | S k => get8 b off + 256 * get_le k b (off + 1)
  end.

Fixpoint put_le (k : nat) (b : block) (off v : Z) : block :=
  match k with
  | O => b
  | S k => put_le k (set8 b off (v mod 256)) (off + 1) (v / 256)
  end.

Definition get16 (b : block) (off : Z) : Z := get_le 2 b off.
Definition put16 (b : block) (off v : Z) : block := put_le 2 b off v.
Definition get32 (b : block) (off : Z) : Z := get_le 4 b off.
Definition put32 (b : block) (off v : Z) : block := put_le 4 b off v.

(** Two strings in one memory: [s] at 0 and [t] at [FAR]. *)
Definition FAR : Z := 2 ^ 20.
Definition two (s t : list Z) : mem := fun a => if a <? FAR then get8 s a else get8 t (a - FAR).

Definition zero_block : block := replicate (Z.to_nat BSIZE) 0.

Definition block_ok (b : block) : Prop :=
  Z.of_nat (length b) = BSIZE /\ Forall (fun x => 0 <= x < 256) b.

Section Fields.
Implicit Types (b : block).

Lemma set8_length b i v : length (set8 b i v) = length b.
Proof.
  unfold set8. destruct (zset b i v) eqn:Hs; [|done]. cbn. by eapply zset_length.
Qed.

Lemma put_le_length k b off v : length (put_le k b off v) = length b.
Proof.
  revert b off v. induction k as [|k IH]; intros b off v; cbn [put_le]; [done|].
  by rewrite IH, set8_length.
Qed.

Lemma get8_set8_eq b i v :
  0 <= i < Z.of_nat (length b) -> get8 (set8 b i v) i = v.
Proof.
  intros Hi. unfold get8, set8. rewrite zset_in by done. cbn.
  rewrite (zget_zset_eq b i v); [done|]. by apply zset_in.
Qed.

Lemma get8_set8_ne b i j v : i <> j -> get8 (set8 b i v) j = get8 b j.
Proof.
  intros Hij. unfold get8, set8. destruct (zset b i v) eqn:Hs; [|done]. cbn.
  by rewrite (zget_zset_ne _ _ _ _ _ Hs Hij).
Qed.

Lemma get8_put_le k b off v i :
  i < off \/ off + Z.of_nat k <= i -> get8 (put_le k b off v) i = get8 b i.
Proof.
  revert b off v. induction k as [|k IH]; intros b off v Hi; cbn [put_le]; [done|].
  rewrite IH by lia. apply get8_set8_ne. lia.
Qed.

Lemma get_le_ext k b b' off :
  (forall i, off <= i < off + Z.of_nat k -> get8 b i = get8 b' i) ->
  get_le k b off = get_le k b' off.
Proof.
  revert off. induction k as [|k IH]; intros off Heq; cbn [get_le]; [done|].
  rewrite (Heq off) by lia. by rewrite (IH (off + 1)) by (intros; apply Heq; lia).
Qed.

Lemma get_put_eq k b off v :
  0 <= off -> off + Z.of_nat k <= Z.of_nat (length b) -> 0 <= v < 256 ^ Z.of_nat k ->
  get_le k (put_le k b off v) off = v.
Proof.
  revert b off v. induction k as [|k IH]; intros b off v Ho Hl Hv; cbn [get_le put_le].
  - change (256 ^ Z.of_nat 0) with 1 in Hv. lia.
  - rewrite Nat2Z.inj_succ, Z.pow_succ_r in Hv by lia.
    rewrite IH; [|lia|rewrite set8_length; lia|].
    + rewrite get8_put_le by lia. rewrite get8_set8_eq by lia.
      pose proof (Z.div_mod v 256). lia.
    + split; [apply Z.div_pos|apply Z.div_lt_upper_bound]; lia.
Qed.

Lemma get_put_ne k j b off off' v :
  disjoint off (Z.of_nat k) off' (Z.of_nat j) ->
  get_le j (put_le k b off v) off' = get_le j b off'.
Proof.
  intros Hd. apply get_le_ext. intros i Hi. apply get8_put_le.
  unfold disjoint in Hd. lia.
Qed.

Lemma get8_bound b i : Forall (fun x => 0 <= x < 256) b -> 0 <= get8 b i < 256.
Proof.
  intros Hb. unfold get8. destruct (zget b i) as [x|] eqn:Hx; cbn; [|lia].
  apply zget_Some in Hx as [_ Hx]. by apply (Forall_lookup_1 _ _ _ _ Hb Hx).
Qed.

Lemma get_le_bound k b off :
  Forall (fun x => 0 <= x < 256) b -> 0 <= get_le k b off < 256 ^ Z.of_nat k.
Proof.
  intros Hb. revert off. induction k as [|k IH]; intros off; cbn [get_le].
  - by change (256 ^ Z.of_nat 0) with 1.
  - rewrite Nat2Z.inj_succ, Z.pow_succ_r by lia.
    specialize (IH (off + 1)). pose proof (get8_bound b off Hb). lia.
Qed.

Lemma set8_bytes b i v :
  Forall (fun x => 0 <= x < 256) b -> 0 <= v < 256 ->
  Forall (fun x => 0 <= x < 256) (set8 b i v).
Proof.
  intros Hb Hv. unfold set8. destruct (zset b i v) eqn:Hs; [|done]. cbn.
  apply zset_Some in Hs as [_ ->]. by apply Forall_insert.
Qed.

Lemma put_le_bytes k b off v :
  Forall (fun x => 0 <= x < 256) b -> Forall (fun x => 0 <= x < 256) (put_le k b off v).
Proof.
  revert b off v. induction k as [|k IH]; intros b off v Hb; cbn [put_le]; [done|].
  apply IH, set8_bytes; [done|]. apply Z.mod_pos_bound. lia.
Qed.

Lemma put_le_ok k b off v : block_ok b -> block_ok (put_le k b off v).
Proof.
  intros [Hl Hb]. split; [by rewrite put_le_length|]. by apply put_le_bytes.
Qed.

Lemma zero_block_ok : block_ok zero_block.
Proof.
  split; [done|]. apply Forall_replicate. lia.
Qed.
End Fields.
