(* ===== verification/Bio.v ===== *)
(** The buffer cache ([kernel/bio.c]).

    The cache is an array of [NBUF] buffers and a recency order.  The circular
    list through [prev]/[next] is kept as the list of buffer indices met
    from [head.next] on, most recently used first.  Operations are the code
    between two sleeps: [bget] may sleep on the buffer's sleep lock and
    resumes there.  [virtio_disk_rw] is synchronous for its caller; here it
    copies a block between the buffer and the disk, and writes are also
    recorded in order.

    Shown: the effect of each operation on the cache seen by block (contents,
    references, lock).  The processes that share the cache are in the file
    BioClients. *)

From stdpp Require Import functions.
From S2P Require Import Prelude Mem Block Sleeplock.

Definition NBUF : Z := 30.
Definition ROOTDEV : Z := 1.

Record buf : Type := Buf {
  valid : bool;
  bdev : Z;
  blockno : Z;
  lock : sleeplock;
  refcnt : Z;
  bdata : block
}.

Record bstate : Type := BState {
  bufs : list buf;
  lru : list Z;
  disk : Z -> block;
  writes : list (Z * block)
}.

Definition buf0 : buf :=
  {| valid := false; bdev := 0; blockno := 0; lock := initsleeplock; refcnt := 0;
     bdata := zero_block |}.

(** [binit] inserts each buffer at the head. *)
Definition binit (d : Z -> block) : bstate :=
  {| bufs := replicate (Z.to_nat NBUF) buf0;
     lru := foldl (fun l i => i :: l) [] (seqZ 0 NBUF);
     disk := d; writes := [] |}.

(** ** Field updates *)

Definition nth_buf (s : bstate) (i : Z) : buf := default buf0 (zget (bufs s) i).

Definition set_buf (s : bstate) (i : Z) (b : buf) : bstate :=
  {| bufs := default (bufs s) (zset (bufs s) i b); lru := lru s; disk := disk s;
     writes := writes s |}.

Definition with_lock (b : buf) (l : sleeplock) : buf :=
  {| valid := valid b; bdev := bdev b; blockno := blockno b; lock := l;
     refcnt := refcnt b; bdata := bdata b |}.

Definition with_refcnt (b : buf) (n : Z) : buf :=
  {| valid := valid b; bdev := bdev b; blockno := blockno b; lock := lock b;
     refcnt := n; bdata := bdata b |}.

Definition with_data (b : buf) (v : bool) (d : block) : buf :=
  {| valid := v; bdev := bdev b; blockno := blockno b; lock := lock b;
     refcnt := refcnt b; bdata := d |}.

(** ** Operations *)

Definition is_block (dev bno : Z) (b : buf) : bool :=
  (bdev b =? dev) && (blockno b =? bno).

(** The two scans of [bget]. *)
Definition find_cached (s : bstate) (dev bno : Z) : option Z :=
  snd <$> list_find (fun i => is_block dev bno (nth_buf s i) = true) (lru s).

Definition find_unused (s : bstate) : option Z :=
  snd <$> list_find (fun i => refcnt (nth_buf s i) = 0) (reverse (lru s)).

Definition buf_chan (i : Z) : chan := Chan "buf" i.

(** [acquiresleep(&b->lock)]: the point where [bget] resumes. *)
Definition lock_buf (me i : Z) : M bstate unit := fun s =>
  match acquiresleep me (buf_chan i) (lock (nth_buf s i)) with
  | Ok _ l => Ok tt (set_buf s i (with_lock (nth_buf s i) l))
  | Panic msg => Panic msg
  | Sleep c _ => Sleep c s
  end.

Definition bget (me dev bno : Z) : M bstate Z := fun s =>
  match find_cached s dev bno with
  | Some i =>
      let b := nth_buf s i in
      (lock_buf me i ;;; kret i) (set_buf s i (with_refcnt b (u32 (refcnt b + 1))))
  | None =>
      match find_unused s with
      | Some i =>
          let b := nth_buf s i in
          (lock_buf me i ;;; kret i)
            (set_buf s i {| valid := false; bdev := dev; blockno := bno;
                            lock := lock b; refcnt := 1; bdata := bdata b |})
      | None => Panic "bget: no buffers"
      end
  end.

(** [virtio_disk_rw]: read the block into the buffer, or write it out. *)
Definition virtio_disk_rw (i : Z) (write : bool) : M bstate unit := fun s =>
  let b := nth_buf s i in
  if write
  then Ok tt {| bufs := bufs s; lru := lru s;
                disk := <[blockno b := bdata b]> (disk s);
                writes := writes s ++ [(blockno b, bdata b)] |}
  else Ok tt (set_buf s i (with_data b (valid b) (disk s (blockno b)))).

(** [bread] after [bget] has returned: fill an invalid buffer from the disk. *)
Definition bread_fill (i : Z) : M bstate unit :=
  let! b := kgets (fun s => nth_buf s i) in
  if valid b then kret tt
  else
    virtio_disk_rw i false ;;;
    kmodify (fun s => set_buf s i (with_data (nth_buf s i) true (bdata (nth_buf s i)))).

Definition bread (me dev bno : Z) : M bstate Z :=
  let! i := bget me dev bno in
  bread_fill i ;;;
  kret i.

Definition bwrite (me i : Z) : M bstate unit := fun s =>
  if negb (holdingsleep me (lock (nth_buf s i))) then Panic "bwrite"
  else virtio_disk_rw i true s.

(** Unlink buffer [i] and insert it at the head. *)
Definition move_to_head (l : list Z) (i : Z) : list Z :=
  i :: filter (fun j => j <> i) l.

(** The processes that [releasesleep] wakes try the lock again; a client below
    may do so at any time. *)
Definition brelse (me i : Z) : M bstate unit := fun s =>
  let b := nth_buf s i in
  if negb (holdingsleep me (lock b)) then Panic "brelse"
  else
    match releasesleep (buf_chan i) (lock b) with
    | Ok _ l =>
        let n := u32 (refcnt b - 1) in
        let s := set_buf s i (with_refcnt (with_lock b l) n) in
        Ok tt {| bufs := bufs s;
                 lru := if n =? 0 then move_to_head (lru s) i else lru s;
                 disk := disk s; writes := writes s |}
    | _ => Panic "brelse"
    end.

Definition bpin (i : Z) : M bstate unit := fun s =>
  let b := nth_buf s i in
  Ok tt (set_buf s i (with_refcnt b (u32 (refcnt b + 1)))).

Definition bunpin (i : Z) : M bstate unit := fun s =>
  let b := nth_buf s i in
  Ok tt (set_buf s i (with_refcnt b (u32 (refcnt b - 1)))).

(** The holder of a buffer assigns to [b->data]. *)
Definition bmodify (i : Z) (f : block -> block) : M bstate unit := fun s =>
  let b := nth_buf s i in
  Ok tt (set_buf s i (with_data b (valid b) (f (bdata b)))).

(** ** Invariant *)

Definition is_buf (i : Z) : Prop := 0 <= i < NBUF.

Definition key (b : buf) : Z * Z := (bdev b, blockno b).

(** The cache by block: contents as a reader should see them, references
    and lock of the block [k = (dev, blockno)]. *)
Definition view (s : bstate) (k : Z * Z) : block :=
  match find_cached s k.1 k.2 with
  | Some i => if valid (nth_buf s i) then bdata (nth_buf s i) else disk s k.2
  | None => disk s k.2
  end.

Definition refs (s : bstate) (k : Z * Z) : Z :=
  match find_cached s k.1 k.2 with Some i => refcnt (nth_buf s i) | None => 0 end.

Definition locked_by (s : bstate) (k : Z * Z) : option Z :=
  match find_cached s k.1 k.2 with
  | Some i => if sl_locked (lock (nth_buf s i)) then Some (sl_pid (lock (nth_buf s i))) else None
  | None => None
  end.

(** Well-formedness of the cache. *)
Record bcache_wf (s : bstate) : Prop := {
  ok_len : Z.of_nat (length (bufs s)) = NBUF;
  ok_lru : lru s ≡ₚ seqZ 0 NBUF;
  ok_unique : forall i j, is_buf i -> is_buf j -> bdev (nth_buf s i) <> 0 ->
    key (nth_buf s i) = key (nth_buf s j) -> i = j;
  ok_ref : forall i, is_buf i -> 0 <= refcnt (nth_buf s i);
  ok_dev : forall i, is_buf i -> 0 < refcnt (nth_buf s i) -> bdev (nth_buf s i) <> 0;
  ok_one : forall i, is_buf i -> bdev (nth_buf s i) = 0 \/ bdev (nth_buf s i) = ROOTDEV;
  ok_lock : forall i, is_buf i -> sl_locked (lock (nth_buf s i)) = true -> 0 < refcnt (nth_buf s i)
}.

(** Unreferenced buffers equal the disk, except those of the blocks in [X]. *)
Record bcache_but (X : Z -> Prop) (s : bstate) : Prop := {
  but_wf :> bcache_wf s;
  ok_clean : forall i, is_buf i -> bdev (nth_buf s i) <> 0 -> valid (nth_buf s i) = true ->
    refcnt (nth_buf s i) = 0 -> ~ X (blockno (nth_buf s i)) ->
    bdata (nth_buf s i) = disk s (blockno (nth_buf s i))
}.

Arguments ok_clean {X}.

#[export] Hint Extern 0 (bcache_wf _) => (eapply but_wf; eassumption) : core.

Abbreviation bcache_ok := (bcache_but (fun _ => False)).

(** Buffer [i] caches block [k] with contents [d], locked by [me]. *)
Definition holds (s : bstate) (me i : Z) (k : Z * Z) (d : block) : Prop :=
  is_buf i /\ k.1 = ROOTDEV /\ key (nth_buf s i) = k /\ valid (nth_buf s i) = true /\
  lock (nth_buf s i) = {| sl_locked := true; sl_pid := me |} /\ bdata (nth_buf s i) = d.

(** ** Lemmas *)

Section Lemmas.
Implicit Types (s : bstate) (b : buf) (i j : Z).

Lemma nth_set_eq s i b :
  bcache_wf s -> is_buf i -> nth_buf (set_buf s i b) i = b.
Proof.
  intros Hok Hi. unfold nth_buf, set_buf. cbn. unfold is_buf in *.
  rewrite zset_in by (rewrite (ok_len _ Hok); done). cbn.
  rewrite (zget_zset_eq (bufs s) i b); [done|]. apply zset_in. rewrite (ok_len _ Hok). done.
Qed.

Lemma nth_set_ne s i j b : i <> j -> nth_buf (set_buf s i b) j = nth_buf s j.
Proof.
  intros Hij. unfold nth_buf, set_buf. cbn. destruct (zset (bufs s) i b) eqn:Hs; [|done].
  cbn. by rewrite (zget_zset_ne _ _ _ _ _ Hs Hij).
Qed.

Lemma set_buf_length s i b : length (bufs (set_buf s i b)) = length (bufs s).
Proof.
  unfold set_buf. cbn. destruct (zset (bufs s) i b) eqn:Hs; [|done].
  cbn. by eapply zset_length.
Qed.

Lemma in_lru s i : bcache_wf s -> i ∈ lru s <-> is_buf i.
Proof. intros Hok. rewrite (ok_lru _ Hok), elem_of_seqZ. unfold is_buf. lia. Qed.

Lemma is_block_true k b : is_block k.1 k.2 b = true <-> key b = k.
Proof.
  unfold is_block, key. rewrite andb_true_iff, !Z.eqb_eq. destruct k. cbn.
  split; [by intros [-> ->]|by intros [= -> ->]].
Qed.

Lemma find_cached_Some s k i :
  bcache_wf s -> find_cached s k.1 k.2 = Some i -> is_buf i /\ key (nth_buf s i) = k.
Proof.
  intros Hok. unfold find_cached. intros (p & Hp & Heq)%fmap_Some.
  destruct p as [n x]. cbn in Heq. subst x.
  apply list_find_Some in Hp as (Hl & Hb & _). split.
  - apply (in_lru s i Hok). by eapply list_elem_of_lookup_2.
  - by apply is_block_true.
Qed.

Lemma find_cached_None s k i :
  bcache_wf s -> find_cached s k.1 k.2 = None -> is_buf i -> key (nth_buf s i) <> k.
Proof.
  intros Hok. unfold find_cached. rewrite fmap_None, list_find_None.
  intros Hall Hi Hk. rewrite Forall_forall in Hall. apply (Hall i).
  - apply list_elem_of_In. by apply in_lru.
  - by apply is_block_true.
Qed.

Lemma find_cached_eq s k i :
  bcache_wf s -> k.1 <> 0 -> is_buf i -> key (nth_buf s i) = k ->
  find_cached s k.1 k.2 = Some i.
Proof.
  intros Hok Hk Hi Hki. destruct (find_cached s k.1 k.2) as [j|] eqn:Hf.
  - apply find_cached_Some in Hf as [Hj Hkj]; [|done]. f_equal.
    symmetry. apply (ok_unique _ Hok); try done; [|congruence].
    by rewrite <- Hki in Hk.
  - by destruct (find_cached_None s k i Hok Hf Hi).
Qed.

Lemma find_unused_Some s i :
  bcache_wf s -> find_unused s = Some i -> is_buf i /\ refcnt (nth_buf s i) = 0.
Proof.
  intros Hok. unfold find_unused. intros (p & Hp & Heq)%fmap_Some.
  destruct p as [n x]. cbn in Heq. subst x.
  apply list_find_Some in Hp as (Hl & Hb & _). split; [|done].
  apply (in_lru s i Hok). rewrite <- (reverse_Permutation (lru s)).
  by eapply list_elem_of_lookup_2.
Qed.

(** A buffer is free as long as the referenced blocks are fewer than the
    buffers. *)
Lemma find_unused_total s (R : gset (Z * Z)) :
  bcache_wf s -> (forall k, 0 < refs s k -> k ∈ R) -> (size R < Z.to_nat NBUF)%nat ->
  exists i, find_unused s = Some i.
Proof.
  intros Hok HX Hsz. destruct (find_unused s) as [i|] eqn:Hf; [eauto|exfalso].
  unfold find_unused in Hf. rewrite fmap_None, list_find_None, Forall_forall in Hf.
  assert (Hpos : forall i, is_buf i -> 0 < refcnt (nth_buf s i)).
  { intros i Hi. pose proof (ok_ref _ Hok i Hi). assert (refcnt (nth_buf s i) <> 0); [|lia].
    apply Hf, list_elem_of_In. rewrite reverse_Permutation. by apply in_lru. }
  set (ks := (fun i => key (nth_buf s i)) <$> seqZ 0 NBUF).
  assert (Hnd : NoDup ks).
  { apply NoDup_fmap_2_strong; [|apply NoDup_seqZ]. intros i j Hi Hj Hk.
    apply elem_of_seqZ in Hi, Hj. apply (ok_unique _ Hok); unfold is_buf; try lia; [|done].
    apply (ok_dev _ Hok); [unfold is_buf; lia|]. apply Hpos. unfold is_buf. lia. }
  assert (Hsub : list_to_set ks ⊆ R).
  { intros k Hk. rewrite elem_of_list_to_set in Hk. apply list_elem_of_fmap in Hk as (i & -> & Hi).
    apply elem_of_seqZ in Hi. assert (Hi' : is_buf i) by (unfold is_buf; lia).
    apply HX. unfold refs. rewrite (find_cached_eq s _ i); try done; [by apply Hpos|].
    apply (ok_dev _ Hok); [done|by apply Hpos]. }
  apply subseteq_size in Hsub. rewrite size_list_to_set in Hsub by done.
  unfold ks in Hsub. rewrite length_fmap, length_seqZ in Hsub. lia.
Qed.
End Lemmas.

(** ** Effects by block *)

Section Effects.
Context {X : Z -> Prop}.
Implicit Types (s : bstate) (b : buf) (i j : Z) (k : Z * Z).

Lemma set_set s i b b' :
  bcache_wf s -> is_buf i -> set_buf (set_buf s i b) i b' = set_buf s i b'.
Proof.
  intros Hok Hi. unfold set_buf. cbn. f_equal. pose proof (ok_len _ Hok). unfold is_buf in *.
  rewrite (zset_in (bufs s) i b) by lia. cbn.
  rewrite !zset_in by (rewrite ?length_insert; lia). cbn. apply list_insert_insert_eq.
Qed.

Lemma find_cached_same_key s i b k :
  bcache_wf s -> is_buf i -> key b = key (nth_buf s i) ->
  find_cached (set_buf s i b) k.1 k.2 = find_cached s k.1 k.2.
Proof.
  intros Hok Hi Hk. unfold find_cached. f_equal. cbn. apply list_find_ext.
  intros j. rewrite !is_block_true. destruct (decide (i = j)) as [<-|Hne].
  - by rewrite nth_set_eq, Hk.
  - by rewrite nth_set_ne.
Qed.

(** Replacing the buffer of [k] keeps every other block as it was. *)
Lemma same_key_obs s i b k :
  bcache_wf s -> is_buf i -> key b = key (nth_buf s i) -> k <> key b ->
  view (set_buf s i b) k = view s k /\ refs (set_buf s i b) k = refs s k /\
  locked_by (set_buf s i b) k = locked_by s k.
Proof.
  intros Hok Hi Hk Hne. unfold view, refs, locked_by.
  rewrite (find_cached_same_key s i b k Hok Hi Hk).
  destruct (find_cached s k.1 k.2) as [j|] eqn:Hf; [|done].
  apply find_cached_Some in Hf as [Hj Hkj]; [|done].
  assert (i <> j) by congruence. by rewrite !nth_set_ne.
Qed.

Lemma own_key_obs s i b :
  bcache_wf (set_buf s i b) -> bcache_wf s -> is_buf i -> bdev b <> 0 ->
  view (set_buf s i b) (key b) = (if valid b then bdata b else disk s (blockno b)) /\
  refs (set_buf s i b) (key b) = refcnt b /\
  locked_by (set_buf s i b) (key b) =
    if sl_locked (lock b) then Some (sl_pid (lock b)) else None.
Proof.
  intros Hok' Hok Hi Hd. unfold view, refs, locked_by.
  rewrite (find_cached_eq _ (key b) i); try done; rewrite nth_set_eq; done.
Qed.

(** Well-formedness after changing the buffer of a block. *)
Lemma same_key_ok s i b :
  bcache_but X s -> is_buf i -> key b = key (nth_buf s i) -> 0 <= refcnt b ->
  (0 < refcnt b -> bdev b <> 0) ->
  (sl_locked (lock b) = true -> 0 < refcnt b) ->
  (bdev b <> 0 -> valid b = true -> refcnt b = 0 -> ~ X (blockno b) -> bdata b = disk s (blockno b)) ->
  bcache_but X (set_buf s i b).
Proof.
  intros Hok Hi Hk Hr Hd Hl Hc. split; [split|].
  - rewrite set_buf_length. apply Hok.
  - apply Hok.
  - assert (Hkey : forall j, key (nth_buf (set_buf s i b) j) = key (nth_buf s j)).
    { intros j. destruct (decide (i = j)) as [<-|?]; [by rewrite nth_set_eq|by rewrite nth_set_ne]. }
    intros j j' Hj Hj' Hdev Heq. apply (ok_unique _ Hok); [done|done| |congruence].
    specialize (Hkey j). unfold key in Hkey. congruence.
  - intros j Hj. destruct (decide (i = j)) as [<-|?]; [by rewrite nth_set_eq|].
    rewrite nth_set_ne by done. by apply Hok.
  - intros j Hj. destruct (decide (i = j)) as [<-|?]; [by rewrite nth_set_eq|].
    rewrite nth_set_ne by done. by apply Hok.
  - intros j Hj. destruct (decide (i = j)) as [<-|?].
    + rewrite nth_set_eq by done. injection Hk as -> _. by apply Hok.
    + rewrite nth_set_ne by done. by apply Hok.
  - intros j Hj. destruct (decide (i = j)) as [<-|?]; [by rewrite nth_set_eq|].
    rewrite nth_set_ne by done. by apply Hok.
  - intros j Hj. cbn [disk set_buf]. destruct (decide (i = j)) as [<-|?]; [by rewrite nth_set_eq|].
    rewrite nth_set_ne by done. by apply Hok.
Qed.

(** Recycling an unreferenced buffer for a block that is not cached. *)
Lemma recycle_ok s i b :
  bcache_but X s -> is_buf i -> refcnt (nth_buf s i) = 0 ->
  find_cached s (bdev b) (blockno b) = None -> bdev b = ROOTDEV -> 0 < refcnt b ->
  bcache_but X (set_buf s i b).
Proof.
  intros Hok Hi Hr Hf Hd Hpos.
  assert (Hnew : forall j, is_buf j -> key (nth_buf s j) <> key b).
  { intros j Hj. by apply find_cached_None. }
  split; [split|].
  - rewrite set_buf_length. apply Hok.
  - apply Hok.
  - intros j j' Hj Hj' Hdev Heq.
    destruct (decide (i = j)) as [<-|?], (decide (i = j')) as [<-|?]; [done| | |].
    + rewrite nth_set_eq, nth_set_ne in Heq by done. by destruct (Hnew j').
    + rewrite nth_set_eq, nth_set_ne in Heq by done. by destruct (Hnew j).
    + rewrite !nth_set_ne in * by done. by apply (ok_unique _ Hok).
  - intros j Hj. destruct (decide (i = j)) as [<-|?]; [rewrite nth_set_eq by done; lia|].
    rewrite nth_set_ne by done. by apply Hok.
  - intros j Hj. destruct (decide (i = j)) as [<-|?]; [by rewrite nth_set_eq, Hd|].
    rewrite nth_set_ne by done. by apply Hok.
  - intros j Hj. destruct (decide (i = j)) as [<-|?]; [rewrite nth_set_eq by done; by right|].
    rewrite nth_set_ne by done. by apply Hok.
  - intros j Hj. destruct (decide (i = j)) as [<-|?]; [by rewrite nth_set_eq|].
    rewrite nth_set_ne by done. by apply Hok.
  - intros j Hj. cbn [disk set_buf]. destruct (decide (i = j)) as [<-|?].
    + rewrite nth_set_eq by done. lia.
    + rewrite nth_set_ne by done. by apply Hok.
Qed.

Lemma recycle_obs s i b k :
  bcache_but X s -> is_buf i -> refcnt (nth_buf s i) = 0 ->
  find_cached s (bdev b) (blockno b) = None -> bcache_but X (set_buf s i b) ->
  k.1 <> 0 -> k <> key b ->
  (~ X k.2 -> view (set_buf s i b) k = view s k) /\ refs (set_buf s i b) k = refs s k /\
  locked_by (set_buf s i b) k = locked_by s k.
Proof.
  intros Hok Hi Hr Hf Hok' Hk Hne. unfold view, refs, locked_by.
  destruct (find_cached s k.1 k.2) as [j|] eqn:Hfk.
  - apply find_cached_Some in Hfk as [Hj Hkj]; [|done].
    destruct (decide (i = j)) as [<-|Hij].
    + destruct (find_cached (set_buf s i b) k.1 k.2) as [j'|] eqn:Hf'.
      * apply find_cached_Some in Hf' as [Hj' Hkj']; [|done].
        destruct (decide (i = j')) as [<-|Hij']; [rewrite nth_set_eq in Hkj'; done|].
        rewrite nth_set_ne in Hkj' by done. exfalso. apply Hij'.
        apply (ok_unique _ Hok); try done; [|congruence]. by rewrite <- Hkj in Hk.
      * rewrite Hr. split_and!; [|done|].
        -- intros HX. destruct (valid (nth_buf s i)) eqn:Hv; [|done]. cbn.
           rewrite (ok_clean _ Hok i) by (try done; by rewrite <- Hkj in Hk, HX).
           by rewrite <- Hkj.
        -- destruct (sl_locked (lock (nth_buf s i))) eqn:Hl; [|done].
           apply (ok_lock _ Hok) in Hl; [lia|done].
    + rewrite (find_cached_eq (set_buf s i b) k j); try done; rewrite ?nth_set_ne by done; done.
  - destruct (find_cached (set_buf s i b) k.1 k.2) as [j'|] eqn:Hf'; [|done].
    apply find_cached_Some in Hf' as [Hj' Hkj']; [|done].
    destruct (decide (i = j')) as [<-|Hij']; [rewrite nth_set_eq in Hkj'; done|].
    rewrite nth_set_ne in Hkj' by done. by destruct (find_cached_None s k j').
Qed.

(** The buffer [bread] returns. *)
Definition read_buf s me k : buf :=
  {| valid := true; bdev := k.1; blockno := k.2;
     lock := {| sl_locked := true; sl_pid := me |};
     refcnt := refs s k + 1; bdata := view s k |}.

Lemma bread_run s me k :
  bcache_wf s -> k.1 <> 0 -> locked_by s k = None -> refs s k < 2 ^ 32 - 1 ->
  (refs s k = 0 -> exists i, find_unused s = Some i) ->
  exists i, is_buf i /\ bread me k.1 k.2 s = Ok i (set_buf s i (read_buf s me k)) /\
    (find_cached s k.1 k.2 = Some i \/
     find_cached s k.1 k.2 = None /\ refcnt (nth_buf s i) = 0).
Proof.
  intros Hok Hk Hlk Hrf Hav.
  unfold bread, bread_fill, bget, kbind, kgets, kret, kmodify, virtio_disk_rw, lock_buf, acquiresleep.
  unfold locked_by, refs in Hlk, Hrf, Hav. unfold read_buf, view, refs.
  destruct (find_cached s k.1 k.2) as [i|] eqn:Hf.
  - destruct (find_cached_Some _ _ _ Hok Hf) as [Hi Hki]. exists i. split; [done|].
    split; [|by left].
    rewrite nth_set_eq by done. cbn [lock with_refcnt].
    destruct (sl_locked (lock (nth_buf s i))) eqn:Hl; [done|].
    pose proof (ok_ref _ Hok i Hi).
    rewrite set_set by done. rewrite nth_set_eq by done. cbn.
    assert (Hu : u32 (refcnt (nth_buf s i) + 1) = refcnt (nth_buf s i) + 1)
      by (apply Z.mod_small; lia).
    rewrite <- Hki. unfold key. cbn [fst snd].
    destruct (valid (nth_buf s i)) eqn:Hv; rewrite ?nth_set_eq by done; cbn; rewrite ?Hu.
    + f_equal. f_equal. unfold with_lock. cbn. by rewrite Hv.
    + by rewrite !(set_set s), nth_set_eq.
  - destruct Hav as [i Hu]; [done|]. rewrite Hu.
    destruct (find_unused_Some _ _ Hok Hu) as [Hi Hr]. exists i. split; [done|].
    split; [|by right].
    rewrite nth_set_eq by done. cbn [lock].
    destruct (sl_locked (lock (nth_buf s i))) eqn:Hl.
    { apply (ok_lock _ Hok) in Hl; [lia|done]. }
    rewrite (set_set s), nth_set_eq by done. cbn [valid with_lock].
    by rewrite !(set_set s), !nth_set_eq.
Qed.
End Effects.

(** ** Operations by block *)

(** Blocks other than [k] look the same in [s'] as in [s]. *)
Definition others (s s' : bstate) (k : Z * Z) : Prop :=
  forall k', k'.1 = ROOTDEV -> k' <> k ->
    view s' k' = view s k' /\ refs s' k' = refs s k' /\ locked_by s' k' = locked_by s k'.

(** Buffers other than [i] are the same in [s'] as in [s]. *)
Definition other_bufs (s s' : bstate) (i : Z) : Prop :=
  forall j, j <> i -> nth_buf s' j = nth_buf s j.

Section Specs.
Implicit Types (s : bstate) (b : buf) (i j : Z) (k : Z * Z).

Lemma holds_obs s me i k d :
  bcache_wf s -> holds s me i k d ->
  find_cached s k.1 k.2 = Some i /\ view s k = d /\ locked_by s k = Some me /\
  refs s k = refcnt (nth_buf s i) /\ 0 < refcnt (nth_buf s i).
Proof.
  intros Hok (Hi & Hd & Hk & Hv & Hl & Hdat).
  assert (Hf : find_cached s k.1 k.2 = Some i) by (apply find_cached_eq; try done; by rewrite Hd).
  unfold view, locked_by, refs. rewrite Hf, Hv, Hl. cbn. split_and!; try done.
  apply (ok_lock _ Hok); [done|by rewrite Hl].
Qed.

Lemma holds_other s s' me i j k d :
  other_bufs s s' i -> j <> i -> holds s me j k d -> holds s' me j k d.
Proof. intros Ho Hne. unfold holds. by rewrite Ho. Qed.

Lemma bread_spec s me k :
  bcache_ok s -> k.1 = ROOTDEV -> locked_by s k = None -> refs s k < 2 ^ 32 - 1 ->
  (refs s k = 0 -> exists i, find_unused s = Some i) ->
  exists i s', bread me k.1 k.2 s = Ok i s' /\ bcache_ok s' /\
    holds s' me i k (view s k) /\ refs s' k = refs s k + 1 /\
    others s s' k /\ other_bufs s s' i /\
    (forall me' j k' d, holds s me' j k' d -> j <> i) /\
    disk s' = disk s /\ writes s' = writes s.
Proof.
  intros Hok Hk Hlk Hrf Hav.
  assert (Hk0 : k.1 <> 0) by (by rewrite Hk).
  destruct (bread_run s me k Hok Hk0 Hlk Hrf Hav) as (i & Hi & Hrun & Hcase).
  assert (Hpos : 0 <= refs s k).
  { unfold refs. destruct (find_cached s k.1 k.2) as [j|] eqn:Hf; [|lia].
    apply find_cached_Some in Hf as [Hj _]; [|done]. by apply Hok. }
  assert (Hkey : key (read_buf s me k) = k) by (by destruct k).
  exists i, (set_buf s i (read_buf s me k)). split; [done|].
  assert (Hok' : bcache_ok (set_buf s i (read_buf s me k))).
  { destruct Hcase as [Hf|[Hf Hr]].
    - destruct (find_cached_Some _ _ _ Hok Hf) as [_ Hki].
      apply same_key_ok; try done; cbn [refcnt read_buf]; lia || congruence.
    - apply recycle_ok; try done. cbn. lia. }
  destruct (own_key_obs s i (read_buf s me k) Hok' Hok Hi Hk0) as (Hv & Hr & Hl).
  rewrite Hkey in Hv, Hr, Hl. split_and!; try done.
  - unfold holds. rewrite nth_set_eq by done. by rewrite Hkey.
  - intros k' Hk' Hne. destruct Hcase as [Hf|[Hf Hr0]].
    + destruct (find_cached_Some _ _ _ Hok Hf) as [_ Hki].
      apply same_key_obs; done || congruence.
    + destruct (recycle_obs s i (read_buf s me k) k' Hok) as (Hv' & ? & ?); try done; [by rewrite Hk'|congruence|].
      split_and!; [exact (Hv' (fun x => x))|done|done].
  - intros j Hj. by apply nth_set_ne.
  - intros me' j k' d Hh <-. destruct (holds_obs _ _ _ _ _ Hok Hh) as (Hf' & _ & Hlk' & Hrr & Hp).
    destruct Hcase as [Hf|[Hf Hr0]]; [|lia].
    destruct Hh as (_ & _ & Hkj & _).
    destruct (find_cached_Some _ _ _ Hok Hf) as [_ Hki]. congruence.
Qed.

Lemma bmodify_spec s me i k d f :
  bcache_ok s -> holds s me i k d ->
  exists s', bmodify i f s = Ok tt s' /\ bcache_ok s' /\ holds s' me i k (f d) /\
    refs s' k = refs s k /\ others s s' k /\ other_bufs s s' i /\
    disk s' = disk s /\ writes s' = writes s.
Proof.
  intros Hok Hh. destruct (holds_obs _ _ _ _ _ Hok Hh) as (Hf & _ & _ & Hr & Hp).
  destruct Hh as (Hi & Hd & Hk & Hv & Hl & Hdat).
  set (b' := with_data (nth_buf s i) (valid (nth_buf s i)) (f (bdata (nth_buf s i)))).
  assert (Hkey : key b' = key (nth_buf s i)) by done.
  assert (Hdev : bdev b' <> 0). { rewrite <- Hk in Hd. cbn in *. by rewrite Hd. }
  assert (Hok' : bcache_ok (set_buf s i b')).
  { apply same_key_ok; try done; cbn [refcnt b' with_data]; lia || done. }
  destruct (own_key_obs s i b' Hok' Hok Hi Hdev) as (Hv' & Hr' & _).
  rewrite Hkey, Hk in Hr'. exists (set_buf s i b'). split_and!; try done.
  - unfold holds. rewrite nth_set_eq by done. cbn. by rewrite Hdat, Hv.
  - by rewrite Hr'.
  - intros k' Hk' Hne. apply same_key_obs; done || congruence.
  - intros j Hj. by apply nth_set_ne.
Qed.

Lemma bwrite_spec {X : Z -> Prop} s me i k d :
  bcache_but X s -> holds s me i k d ->
  exists s', bwrite me i s = Ok tt s' /\ bcache_but X s' /\ bufs s' = bufs s /\ lru s' = lru s /\
    disk s' = <[k.2 := d]> (disk s) /\ writes s' = writes s ++ [(k.2, d)].
Proof.
  intros Hok Hh. destruct (holds_obs _ _ _ _ _ Hok Hh) as (Hf & _ & _ & Hr & Hp).
  destruct Hh as (Hi & Hd & Hk & Hv & Hl & Hdat).
  unfold bwrite, holdingsleep, virtio_disk_rw. rewrite Hl, Z.eqb_refl. cbn [andb negb].
  eexists. split; [reflexivity|]. cbn [bufs lru disk writes]. rewrite Hdat.
  assert (Hb : blockno (nth_buf s i) = k.2) by (by rewrite <- Hk). rewrite Hb.
  split_and!; try done. destruct Hok as [[H1 H2 H3 H4 H5 H6 H7] H8].
  split; [by split|]. intros j Hj Hdj Hvj Hrj HXj.
  change (nth_buf _ j) with (nth_buf s j) in *. cbn [disk].
  assert (blockno (nth_buf s j) <> k.2).
  { intros Hbj. assert (j = i) as ->; [|lia]. apply H3; try done.
    rewrite Hk. unfold key. destruct (H6 j Hj) as [Hz|Hz]; [done|]. rewrite Hz.
    rewrite Hbj. by destruct k; cbn in *; subst. }
  rewrite fn_lookup_insert_ne by done. by apply H8.
Qed.

Lemma find_cached_bufs s s' dev bno :
  bufs s' = bufs s -> lru s' = lru s -> find_cached s' dev bno = find_cached s dev bno.
Proof. intros Hb Hl. unfold find_cached, nth_buf. by rewrite Hb, Hl. Qed.

(** Writing the disk changes nothing a reader sees, the block being cached. *)
Lemma bwrite_obs s s' me i k d :
  bcache_wf s -> holds s me i k d ->
  bufs s' = bufs s -> lru s' = lru s -> disk s' = <[k.2 := d]> (disk s) ->
  holds s' me i k d /\ refs s' k = refs s k /\ others s s' k.
Proof.
  intros Hok Hh Hb Hl Hd. destruct (holds_obs _ _ _ _ _ Hok Hh) as (Hf & _).
  assert (Hnth : forall j, nth_buf s' j = nth_buf s j) by (intros; unfold nth_buf; by rewrite Hb).
  split_and!.
  - unfold holds. by rewrite Hnth.
  - unfold refs. rewrite (find_cached_bufs s s' _ _ Hb Hl). destruct (find_cached _ _ _); [|done].
    by rewrite Hnth.
  - intros k' Hk' Hne. unfold view, refs, locked_by.
    rewrite (find_cached_bufs s s' _ _ Hb Hl).
    assert (k'.2 <> k.2).
    { intros Heq. destruct Hh as (_ & Hk1 & _). apply Hne. destruct k, k'; cbn in *; congruence. }
    assert (Hdd : disk s' k'.2 = disk s k'.2) by (rewrite Hd; by apply fn_lookup_insert_ne).
    destruct (find_cached s k'.1 k'.2) as [j|]; rewrite ?Hnth, ?Hdd; done.
Qed.

Lemma move_to_head_perm (l : list Z) i : NoDup l -> i ∈ l -> move_to_head l i ≡ₚ l.
Proof.
  intros Hnd Hin. unfold move_to_head. apply NoDup_Permutation; [|done|].
  - apply NoDup_cons_2; [rewrite list_elem_of_filter; naive_solver|by apply list.NoDup_filter].
  - intros x. rewrite elem_of_cons, list_elem_of_filter. destruct (decide (x = i)); naive_solver.
Qed.

(** The recency order is not observable by block. *)
Lemma reorder_obs {X : Z -> Prop} s l :
  bcache_but X s -> l ≡ₚ lru s ->
  let s' := {| bufs := bufs s; lru := l; disk := disk s; writes := writes s |} in
  bcache_but X s' /\ forall k, k.1 = ROOTDEV ->
    view s' k = view s k /\ refs s' k = refs s k /\ locked_by s' k = locked_by s k.
Proof.
  intros Hok Hl s'. assert (Hok' : bcache_but X s').
  { destruct Hok as [[H1 H2 H3 H4 H5 H6 H7] H8]. split; [split|]; try done. cbn. by rewrite Hl. }
  split; [done|]. intros k Hk. unfold view, refs, locked_by.
  assert (find_cached s' k.1 k.2 = find_cached s k.1 k.2) as ->; [|done].
  destruct (find_cached s k.1 k.2) as [j|] eqn:Hf1.
  - apply find_cached_Some in Hf1 as [Hj Hkj]; [|done]. apply find_cached_eq; try done.
    by rewrite Hk.
  - destruct (find_cached s' k.1 k.2) as [j|] eqn:Hf2; [|done].
    apply find_cached_Some in Hf2 as [Hj Hkj]; [|done].
    by destruct (find_cached_None s k j Hok Hf1 Hj).
Qed.

(** Releasing the last reference requires the buffer to equal the disk. *)
Lemma brelse_spec s me i k d :
  bcache_ok s -> holds s me i k d -> refs s k < 2 ^ 32 ->
  (refs s k = 1 -> d = disk s k.2) ->
  exists s', brelse me i s = Ok tt s' /\ bcache_ok s' /\
    view s' k = d /\ refs s' k = refs s k - 1 /\ locked_by s' k = None /\
    others s s' k /\ other_bufs s s' i /\ disk s' = disk s /\ writes s' = writes s.
Proof.
  intros Hok Hh Hlt Hcl. destruct (holds_obs _ _ _ _ _ Hok Hh) as (Hf & _ & _ & Hr & Hp).
  destruct Hh as (Hi & Hd & Hk & Hv & Hl & Hdat).
  unfold brelse, holdingsleep, releasesleep. rewrite Hl, Z.eqb_refl. cbn [andb negb].
  assert (Hu : u32 (refcnt (nth_buf s i) - 1) = refcnt (nth_buf s i) - 1)
    by (apply Z.mod_small; lia).
  rewrite Hu. set (b' := with_refcnt _ _). eexists. split; [reflexivity|].
  set (s1 := set_buf s i b').
  assert (Hkey : key b' = key (nth_buf s i)) by done.
  assert (Hdev : bdev b' <> 0). { rewrite <- Hk in Hd. cbn in *. by rewrite Hd. }
  assert (Hok1 : bcache_ok s1).
  { apply same_key_ok; try done; cbn [refcnt b' with_refcnt]; try lia.
    intros _ _ Hz _. cbn. rewrite Hdat. assert (blockno (nth_buf s i) = k.2) as -> by (by rewrite <- Hk).
    apply Hcl. lia. }
  set (s2 := {| bufs := bufs s1 |}).
  destruct (reorder_obs s1 (lru s2) Hok1) as [Hok2 Hsame].
  { unfold s2. cbn [lru]. destruct (_ =? 0); [|done]. pose proof (ok_lru _ Hok1) as H2.
    apply move_to_head_perm; rewrite H2; [apply NoDup_seqZ|].
    apply elem_of_seqZ. unfold is_buf in Hi. lia. }
  change {| bufs := bufs s1; lru := lru s2 |} with s2 in Hok2, Hsame.
  destruct (own_key_obs s i b' Hok1 Hok Hi Hdev) as (Hv' & Hr' & Hl').
  rewrite Hkey, Hk in Hv', Hr', Hl'. fold s1 in Hv', Hr', Hl'. destruct (Hsame k Hd) as (Hs1 & Hs2 & Hs3).
  split_and!; try done.
  - rewrite Hs1, Hv'. cbn. by rewrite Hv.
  - rewrite Hs2, Hr'. cbn. lia.
  - by rewrite Hs3, Hl'.
  - intros k' Hk' Hne. destruct (Hsame k' Hk') as (-> & -> & ->).
    apply same_key_obs; done || congruence.
  - intros j Hj. by apply (nth_set_ne s i j b').
Qed.

Lemma set_refcnt_spec s me i k d n :
  bcache_ok s -> holds s me i k d -> 0 < n ->
  let s' := set_buf s i (with_refcnt (nth_buf s i) n) in
  bcache_ok s' /\ holds s' me i k d /\ refs s' k = n /\ others s s' k /\ other_bufs s s' i /\
  disk s' = disk s /\ writes s' = writes s.
Proof.
  intros Hok Hh Hn s'. destruct Hh as (Hi & Hd & Hk & Hv & Hl & Hdat).
  set (b' := with_refcnt (nth_buf s i) n) in *.
  assert (Hkey : key b' = key (nth_buf s i)) by done.
  assert (Hdev : bdev b' <> 0). { rewrite <- Hk in Hd. cbn in *. by rewrite Hd. }
  assert (Hok' : bcache_ok s').
  { apply same_key_ok; try done; cbn [refcnt b' with_refcnt]; lia. }
  destruct (own_key_obs s i b' Hok' Hok Hi Hdev) as (_ & Hr' & _).
  rewrite Hkey, Hk in Hr'. split_and!; try done.
  - unfold holds, s'. by rewrite nth_set_eq.
  - intros k' Hk' Hne. apply (same_key_obs s i b'); done || congruence.
  - intros j Hj. by apply (nth_set_ne s i j b').
Qed.

Lemma bpin_spec s me i k d :
  bcache_ok s -> holds s me i k d -> refs s k < 2 ^ 32 - 1 ->
  exists s', bpin i s = Ok tt s' /\ bcache_ok s' /\ holds s' me i k d /\
    refs s' k = refs s k + 1 /\ others s s' k /\ other_bufs s s' i /\
    disk s' = disk s /\ writes s' = writes s.
Proof.
  intros Hok Hh Hlt. destruct (holds_obs _ _ _ _ _ Hok Hh) as (_ & _ & _ & -> & Hp).
  unfold refs in Hlt. eexists. split; [reflexivity|].
  destruct (holds_obs _ _ _ _ _ Hok Hh) as (Hf & _). rewrite Hf in Hlt.
  assert (Hu : u32 (refcnt (nth_buf s i) + 1) = refcnt (nth_buf s i) + 1)
    by (apply Z.mod_small; lia).
  rewrite Hu. apply set_refcnt_spec; [done|done|lia].
Qed.

Lemma bunpin_spec s me i k d :
  bcache_ok s -> holds s me i k d -> 1 < refs s k < 2 ^ 32 ->
  exists s', bunpin i s = Ok tt s' /\ bcache_ok s' /\ holds s' me i k d /\
    refs s' k = refs s k - 1 /\ others s s' k /\ other_bufs s s' i /\
    disk s' = disk s /\ writes s' = writes s.
Proof.
  intros Hok Hh Hlt. destruct (holds_obs _ _ _ _ _ Hok Hh) as (_ & _ & _ & Hr & Hp).
  rewrite Hr in *. eexists. split; [reflexivity|].
  assert (Hu : u32 (refcnt (nth_buf s i) - 1) = refcnt (nth_buf s i) - 1)
    by (apply Z.mod_small; lia).
  rewrite Hu. apply set_refcnt_spec; [done|done|lia].
Qed.

Lemma nth_binit d i : nth_buf (binit d) i = buf0.
Proof.
  unfold nth_buf, binit, bufs. destruct (zget _ i) as [b|] eqn:Hz; [|done].
  apply zget_Some in Hz as [_ Hz]. by apply lookup_replicate in Hz as [-> _].
Qed.

Lemma binit_ok d : bcache_ok (binit d).
Proof.
  pose proof (nth_binit d) as Hn.
  split; [split|]; intros *; rewrite ?Hn; cbn; try done || lia.
  change (foldl _ _ _) with (reverse (seqZ 0 NBUF)). by rewrite reverse_Permutation.
Qed.
End Specs.

(** ** Effects as updates of the three observations *)

(** In [s'] block [k0] has contents [v], [r] references and lock [l]; all
    other blocks are as in [s]. *)
Definition effect (s s' : bstate) (k0 : Z * Z) (v : block) (r : Z) (l : option Z) : Prop :=
  forall k, k.1 = ROOTDEV ->
    view s' k = (if decide (k = k0) then v else view s k) /\
    refs s' k = (if decide (k = k0) then r else refs s k) /\
    locked_by s' k = (if decide (k = k0) then l else locked_by s k).

Section EffectSpecs.
Implicit Types (s : bstate) (i j : Z) (k : Z * Z).

Lemma effect_intro s s' k0 v r l :
  others s s' k0 -> view s' k0 = v -> refs s' k0 = r -> locked_by s' k0 = l ->
  effect s s' k0 v r l.
Proof. intros Ho <- <- <- k Hk. case_decide as Hd; [by subst|]. by apply Ho. Qed.

Lemma refs_nonneg s k : bcache_ok s -> 0 <= refs s k.
Proof.
  intros Hok. unfold refs. destruct (find_cached s k.1 k.2) as [j|] eqn:Hf; [|lia].
  apply find_cached_Some in Hf as [Hj _]; [|done]. by apply Hok.
Qed.

Lemma refs_rootdev s k : bcache_ok s -> 0 < refs s k -> k.1 = ROOTDEV.
Proof.
  intros Hok. unfold refs. destruct (find_cached s k.1 k.2) as [j|] eqn:Hf; [|lia].
  apply find_cached_Some in Hf as [Hj Hk]; [|done]. intros Hp.
  apply (ok_dev _ Hok) in Hp; [|done]. destruct (ok_one _ Hok j Hj); [done|]. by rewrite <- Hk.
Qed.

(** A block nobody references reads as on disk. *)
Lemma unreferenced_view s k :
  bcache_ok s -> k.1 = ROOTDEV -> refs s k = 0 -> view s k = disk s k.2.
Proof.
  intros Hok Hk Hr. unfold view, refs in *.
  destruct (find_cached s k.1 k.2) as [j|] eqn:Hf; [|done].
  apply find_cached_Some in Hf as [Hj Hkj]; [|done].
  destruct (valid (nth_buf s j)) eqn:Hv; [|done].
  rewrite (ok_clean _ Hok j) by (auto; rewrite <- Hkj in Hk; cbn in Hk; by rewrite Hk).
  by rewrite <- Hkj.
Qed.

Lemma bread_effect s me k :
  bcache_ok s -> k.1 = ROOTDEV -> locked_by s k = None -> refs s k < 2 ^ 32 - 1 ->
  (refs s k = 0 -> exists i, find_unused s = Some i) ->
  exists i s', bread me k.1 k.2 s = Ok i s' /\ bcache_ok s' /\
    holds s' me i k (view s k) /\ effect s s' k (view s k) (refs s k + 1) (Some me) /\
    (forall me' j k' d, holds s me' j k' d -> holds s' me' j k' d) /\
    disk s' = disk s /\ writes s' = writes s.
Proof.
  intros Hok Hk Hl Hlt Ha.
  destruct (bread_spec s me k Hok Hk Hl Hlt Ha)
    as (i & s' & Hr & Hok' & Hh & Hrf & Ho & Hb & Hne & Hd & Hw).
  destruct (holds_obs _ _ _ _ _ Hok' Hh) as (_ & Hv & Hlk & _).
  exists i, s'. split_and!; try done; [by apply effect_intro|].
  intros me' j k' d Hh'. eapply holds_other; [exact Hb| |exact Hh']. by eapply Hne.
Qed.

Lemma bmodify_effect s me i k d f :
  bcache_ok s -> holds s me i k d ->
  exists s', bmodify i f s = Ok tt s' /\ bcache_ok s' /\ holds s' me i k (f d) /\
    effect s s' k (f d) (refs s k) (Some me) /\
    (forall me' j k' d', j <> i -> holds s me' j k' d' -> holds s' me' j k' d') /\
    disk s' = disk s /\ writes s' = writes s.
Proof.
  intros Hok Hh. destruct (bmodify_spec s me i k d f Hok Hh)
    as (s' & Hr & Hok' & Hh' & Hrf & Ho & Hb & Hd & Hw).
  destruct (holds_obs _ _ _ _ _ Hok' Hh') as (_ & Hv & Hlk & _).
  exists s'. split_and!; try done; [by apply effect_intro|].
  intros. by eapply holds_other.
Qed.

Lemma bwrite_effect s me i k d :
  bcache_ok s -> holds s me i k d ->
  exists s', bwrite me i s = Ok tt s' /\ bcache_ok s' /\
    effect s s' k d (refs s k) (Some me) /\
    (forall me' j k' d', holds s me' j k' d' -> holds s' me' j k' d') /\
    disk s' = <[k.2 := d]> (disk s) /\ writes s' = writes s ++ [(k.2, d)].
Proof.
  intros Hok Hh. destruct (bwrite_spec s me i k d Hok Hh)
    as (s' & Hr & Hok' & Hb & Hl & Hd & Hw).
  destruct (bwrite_obs s s' me i k d Hok Hh Hb Hl Hd) as (Hh' & Hrf & Ho).
  destruct (holds_obs _ _ _ _ _ Hok' Hh') as (_ & Hv & Hlk & _).
  exists s'. split_and!; try done; [by apply effect_intro|].
  intros me' j k' d' Hj. unfold holds, nth_buf in *. by rewrite Hb.
Qed.

Lemma brelse_effect s me i k d :
  bcache_ok s -> holds s me i k d -> refs s k < 2 ^ 32 ->
  (refs s k = 1 -> d = disk s k.2) ->
  exists s', brelse me i s = Ok tt s' /\ bcache_ok s' /\
    effect s s' k d (refs s k - 1) None /\
    (forall me' j k' d', j <> i -> holds s me' j k' d' -> holds s' me' j k' d') /\
    disk s' = disk s /\ writes s' = writes s.
Proof.
  intros Hok Hh Hlt Hcl. destruct (brelse_spec s me i k d Hok Hh Hlt Hcl)
    as (s' & Hr & Hok' & Hv & Hrf & Hl & Ho & Hb & Hd & Hw).
  exists s'. split_and!; try done; [by apply effect_intro|].
  intros. by eapply holds_other.
Qed.

Lemma bpin_effect s me i k d :
  bcache_ok s -> holds s me i k d -> refs s k < 2 ^ 32 - 1 ->
  exists s', bpin i s = Ok tt s' /\ bcache_ok s' /\ holds s' me i k d /\
    effect s s' k d (refs s k + 1) (Some me) /\
    (forall me' j k' d', j <> i -> holds s me' j k' d' -> holds s' me' j k' d') /\
    disk s' = disk s /\ writes s' = writes s.
Proof.
  intros Hok Hh Hlt. destruct (bpin_spec s me i k d Hok Hh Hlt)
    as (s' & Hr & Hok' & Hh' & Hrf & Ho & Hb & Hd & Hw).
  destruct (holds_obs _ _ _ _ _ Hok' Hh') as (_ & Hv & Hlk & _).
  exists s'. split_and!; try done; [by apply effect_intro|].
  intros. by eapply holds_other.
Qed.

Lemma bunpin_effect s me i k d :
  bcache_ok s -> holds s me i k d -> 1 < refs s k < 2 ^ 32 ->
  exists s', bunpin i s = Ok tt s' /\ bcache_ok s' /\
    effect s s' k d (refs s k - 1) (Some me) /\
    (forall me' j k' d', holds s me' j k' d' -> holds s' me' j k' d') /\
    disk s' = disk s /\ writes s' = writes s.
Proof.
  intros Hok Hh Hlt. destruct (bunpin_spec s me i k d Hok Hh Hlt)
    as (s' & Hr & Hok' & Hh' & Hrf & Ho & Hb & Hd & Hw).
  destruct (holds_obs _ _ _ _ _ Hok' Hh') as (_ & Hv & Hlk & _).
  exists s'. split_and!; try done; [by apply effect_intro|].
  intros me' j k' d' Hj. destruct (decide (j = i)) as [->|]; [|by eapply holds_other].
  destruct Hj as (Hi & ? & <- & ? & Hlk1 & <-), Hh as (_ & _ & <- & _ & Hlk2 & <-).
  rewrite Hlk1 in Hlk2. injection Hlk2 as ->. done.
Qed.
End EffectSpecs.

Definition blank_disk : Z -> block := fun _ => zero_block.

(** ** Progress *)

Section Progress.
Implicit Types (s : bstate) (k : Z * Z).

(** [bread] returns only when the buffer is not locked and one is available. *)
Lemma bread_Ok s me k i s' :
  bcache_wf s -> k.1 = ROOTDEV -> refs s k < 2 ^ 32 - 1 -> bread me k.1 k.2 s = Ok i s' ->
  locked_by s k = None /\ (refs s k = 0 -> exists j, find_unused s = Some j).
Proof.
  intros Hok Hk Hlt Hrun. unfold bread, bget, kbind, lock_buf, acquiresleep in Hrun.
  unfold locked_by, refs.
  destruct (find_cached s k.1 k.2) as [j|] eqn:Hf.
  - destruct (find_cached_Some _ _ _ Hok Hf) as [Hj Hkj].
    rewrite nth_set_eq in Hrun by done. cbn in Hrun.
    destruct (sl_locked (lock (nth_buf s j))) eqn:Hl; [done|]. split; [done|].
    intros Hz. destruct (find_unused s) as [x|] eqn:Hu; [eauto|].
    exfalso. unfold find_unused in Hu. rewrite fmap_None, list_find_None, Forall_forall in Hu.
    apply (Hu j); [|done]. apply list_elem_of_In. rewrite reverse_Permutation. by apply in_lru.
  - split; [done|]. intros _. destruct (find_unused s); [eauto|done].
Qed.

(** The victim is the least recently used of the unreferenced buffers. *)
Lemma find_unused_lru s i :
  find_unused s = Some i ->
  exists l1 l2, lru s = l1 ++ i :: l2 /\ Forall (fun j => refcnt (nth_buf s j) <> 0) l2.
Proof.
  unfold find_unused. intros (p & Hp & Heq)%fmap_Some. destruct p as [n x]. cbn in Heq. subst x.
  apply list_find_Some in Hp as (Hl & _ & Hbefore).
  exists (reverse (drop (S n) (reverse (lru s)))), (reverse (take n (reverse (lru s)))).
  split.
  - rewrite <- (reverse_involutive (lru s)) at 1.
    rewrite <- (take_drop_middle _ _ _ Hl) at 1.
    rewrite reverse_app, reverse_cons, <- app_assoc. done.
  - apply list.Forall_forall. intros j Hj. rewrite elem_of_reverse in Hj.
    apply list_elem_of_lookup in Hj as [m Hm].
    pose proof (lookup_lt_Some _ _ _ Hm) as Hlt. rewrite length_take in Hlt.
    rewrite lookup_take_lt in Hm by lia. apply (Hbefore m); [done|lia].
Qed.
End Progress.
