(* ===== verification/BioClients.v ===== *)
(** Processes sharing the buffer cache ([kernel/bio.c]).

    The operations of Bio are interleaved where the code can sleep: [bread] is
    the scan of [bget], the wait for the buffer's sleep lock and the fill from
    the disk, and other processes run between these parts.  A process in
    [bread] is recorded with the buffer it waits for or fills; a pinned buffer
    with its number of pins.

    Shown: no block is cached twice; reference counts are exactly the lock
    holder, the waiting processes and the pins, so a buffer in use is never
    recycled; a process whose [bread] returns holds the block's buffer with
    the contents last written to it. *)

From stdpp Require Import functions.
From S2P Require Import Prelude Mem Block Sleeplock Bio.

(** ** The system *)

Record csys : Type := Csys {
  cs : bstate;
  waits : gmap Z (Z * (Z * Z));
  fills : gmap Z (Z * (Z * Z));
  pins : Z -> Z;
  dirty : gset Z
}.

Definition cinit (d : Z -> block) : csys :=
  {| cs := binit d; waits := ∅; fills := ∅; pins := fun _ => 0; dirty := ∅ |}.

(** Process [me] has locked buffer [i], which caches [k]. *)
Definition owns (s : bstate) (me i : Z) (k : Z * Z) : Prop :=
  is_buf i /\ k.1 = ROOTDEV /\ key (nth_buf s i) = k /\
  lock (nth_buf s i) = {| sl_locked := true; sl_pid := me |}.

(** [me] is not inside [bread]. *)
Definition idle (c : csys) (me : Z) : Prop := waits c !! me = None /\ fills c !! me = None.

(** The blocks whose last reference was dropped while the buffer differed from
    the disk, after dropping a reference of buffer [i]. *)
Definition dropped (D : gset Z) (s : bstate) (i : Z) : gset Z :=
  let b := nth_buf s i in
  if decide (refcnt b = 0 /\ bdata b <> disk s (blockno b)) then {[blockno b]} ∪ D else D.

(** What a step does as seen by its process: a [bread] returns, the holder
    of a buffer assigns to its data, or neither. *)
Inductive cact : Type :=
| CReturn (me i : Z) (k : Z * Z)
| CModify (k : Z * Z) (f : block -> block)
| CTau.

Inductive cstep (c : csys) : cact -> csys -> Prop :=
| c_bget me k i s' :
    idle c me -> k.1 = ROOTDEV -> refs (cs c) k < 2 ^ 32 - 1 ->
    bget me k.1 k.2 (cs c) = Ok i s' ->
    cstep c CTau {| cs := s'; waits := waits c; fills := <[me := (i, k)]> (fills c);
                    pins := pins c; dirty := dirty c |}
| c_sleep me k i s' :
    idle c me -> k.1 = ROOTDEV -> refs (cs c) k < 2 ^ 32 - 1 ->
    bget me k.1 k.2 (cs c) = Sleep (buf_chan i) s' ->
    cstep c CTau {| cs := s'; waits := <[me := (i, k)]> (waits c); fills := fills c;
                    pins := pins c; dirty := dirty c |}
| c_lock me k i s' :
    waits c !! me = Some (i, k) -> lock_buf me i (cs c) = Ok tt s' ->
    cstep c CTau {| cs := s'; waits := delete me (waits c); fills := <[me := (i, k)]> (fills c);
                    pins := pins c; dirty := dirty c |}
| c_fill me k i s' :
    fills c !! me = Some (i, k) -> bread_fill i (cs c) = Ok tt s' ->
    cstep c (CReturn me i k) {| cs := s'; waits := waits c; fills := delete me (fills c);
                    pins := pins c; dirty := dirty c |}
| c_modify me k i f s' :
    idle c me -> owns (cs c) me i k -> bmodify i f (cs c) = Ok tt s' ->
    cstep c (CModify k f) {| cs := s'; waits := waits c; fills := fills c;
                    pins := pins c; dirty := dirty c |}
| c_bwrite me k i s' :
    idle c me -> owns (cs c) me i k -> bwrite me i (cs c) = Ok tt s' ->
    cstep c CTau {| cs := s'; waits := waits c; fills := fills c;
                    pins := pins c; dirty := dirty c |}
| c_brelse me k i s' :
    idle c me -> owns (cs c) me i k -> brelse me i (cs c) = Ok tt s' ->
    cstep c CTau {| cs := s'; waits := waits c; fills := fills c;
                    pins := pins c; dirty := dropped (dirty c) s' i |}
| c_bpin me k i s' :
    idle c me -> owns (cs c) me i k -> refs (cs c) k < 2 ^ 32 - 1 -> bpin i (cs c) = Ok tt s' ->
    cstep c CTau {| cs := s'; waits := waits c; fills := fills c;
                    pins := <[i := pins c i + 1]> (pins c); dirty := dirty c |}
| c_bunpin i s' :
    is_buf i -> 0 < pins c i -> bunpin i (cs c) = Ok tt s' ->
    cstep c CTau {| cs := s'; waits := waits c; fills := fills c;
                    pins := <[i := pins c i - 1]> (pins c); dirty := dropped (dirty c) s' i |}.

Definition cany (c c' : csys) : Prop := exists a, cstep c a c'.

(** ** Invariant *)

(** The processes of [W] at buffer [i]. *)
Definition count_at (W : gmap Z (Z * (Z * Z))) (i : Z) : Z :=
  Z.of_nat (base.size (filter (fun p => p.2.1 = i) W)).

Record buf_inv (W F : gmap Z (Z * (Z * Z))) (n i : Z) (b : buf) : Prop := {
  bi_lt : refcnt b < 2 ^ 32;
  bi_cnt : refcnt b = Z.b2z (sl_locked (lock b)) + count_at W i + n;
  bi_pins : 0 <= n;
  bi_wait : forall p k, W !! p = Some (i, k) -> key b = k /\ k.1 = ROOTDEV;
  bi_fill : forall p k, F !! p = Some (i, k) ->
    key b = k /\ k.1 = ROOTDEV /\ lock b = {| sl_locked := true; sl_pid := p |};
  bi_valid : sl_locked (lock b) = true ->
    valid b = true \/ F !! sl_pid (lock b) = Some (i, key b)
}.

(** No process both waits for a buffer and fills one. *)
Definition once (W F : gmap Z (Z * (Z * Z))) : Prop := forall p x, W !! p = Some x -> F !! p = None.

Record cinv (c : csys) : Prop := {
  ci_ok : bcache_but (fun x => x ∈ dirty c) (cs c);
  ci_buf : forall i, is_buf i -> buf_inv (waits c) (fills c) (pins c i) i (nth_buf (cs c) i);
  ci_once : once (waits c) (fills c);
  ci_wait : forall p i k, waits c !! p = Some (i, k) -> is_buf i;
  ci_fill : forall p i k, fills c !! p = Some (i, k) -> is_buf i
}.

Section Agree.
Implicit Types (W F : gmap Z (Z * (Z * Z))).

(** [W'] has the same processes at buffer [j] as [W]. *)
Definition agree (j : Z) W W' : Prop := forall p k, W' !! p = Some (j, k) <-> W !! p = Some (j, k).

Lemma agree_insert W p i j k : W !! p = None -> i <> j -> agree j W (<[p := (i, k)]> W).
Proof.
  intros Hp Hij q k'. destruct (decide (p = q)) as [<-|Hne].
  - rewrite lookup_insert_eq, Hp. naive_solver.
  - by rewrite lookup_insert_ne.
Qed.

Lemma agree_delete W p i j k : W !! p = Some (i, k) -> i <> j -> agree j W (delete p W).
Proof.
  intros Hp Hij q k'. destruct (decide (p = q)) as [<-|Hne].
  - rewrite lookup_delete_eq, Hp. naive_solver.
  - by rewrite lookup_delete_ne.
Qed.

Lemma agree_count j W W' : agree j W W' -> count_at W' j = count_at W j.
Proof.
  intros Ha. unfold count_at. do 2 f_equal. apply map_eq. intros p. apply option_eq. intros [i k].
  rewrite !map_lookup_filter_Some. cbn. split; intros [H ->]; (split; [by apply Ha|done]).
Qed.

Lemma count_at_insert W p i k : W !! p = None -> count_at (<[p := (i, k)]> W) i = count_at W i + 1.
Proof.
  intros Hp. unfold count_at. rewrite map_filter_insert_True by done.
  rewrite map_size_insert_None; [lia|]. apply map_lookup_filter_None. by left.
Qed.

Lemma count_at_delete W p i k : W !! p = Some (i, k) -> count_at (delete p W) i = count_at W i - 1.
Proof.
  intros Hp. rewrite <- (insert_delete_id W p (i, k) Hp) at 2.
  rewrite count_at_insert; [lia|]. apply lookup_delete_eq.
Qed.

Lemma count_nonneg W i : 0 <= count_at W i.
Proof. unfold count_at. lia. Qed.

Lemma count_pos W p i k : W !! p = Some (i, k) -> 0 < count_at W i.
Proof. intros Hp. pose proof (count_at_delete W p i k Hp). pose proof (count_nonneg (delete p W) i). lia. Qed.

Lemma buf_inv_agree W W' F F' n j b :
  agree j W W' -> agree j F F' -> buf_inv W F n j b -> buf_inv W' F' n j b.
Proof.
  intros HW HF [H1 H2 H3 H4 H5 H6]. split; try done.
  - by rewrite (agree_count _ _ _ HW).
  - intros p k Hp. eapply H4, HW, Hp.
  - intros p k Hp. eapply H5, HF, Hp.
  - intros Hl. destruct (H6 Hl) as [?|Hf]; [by left|right]. by apply HF.
Qed.
End Agree.

(** ** Runs of the operations on one buffer *)

Section Runs.
Implicit Types (s : bstate) (b : buf) (k : Z * Z).

Lemma bget_run s me k :
  bcache_wf s -> refs s k < 2 ^ 32 - 1 ->
  match bget me k.1 k.2 s with
  | Ok i s' => is_buf i /\ sl_locked (lock (nth_buf s i)) = false /\
      ((key (nth_buf s i) = k /\
        s' = set_buf s i (with_lock (with_refcnt (nth_buf s i) (refcnt (nth_buf s i) + 1))
                            {| sl_locked := true; sl_pid := me |})) \/
       (find_cached s k.1 k.2 = None /\ refcnt (nth_buf s i) = 0 /\
        s' = set_buf s i {| valid := false; bdev := k.1; blockno := k.2;
               lock := {| sl_locked := true; sl_pid := me |}; refcnt := 1;
               bdata := bdata (nth_buf s i) |}))
  | Sleep ch s' => exists i, ch = buf_chan i /\ is_buf i /\ key (nth_buf s i) = k /\
      s' = set_buf s i (with_refcnt (nth_buf s i) (refcnt (nth_buf s i) + 1))
  | Panic _ => True
  end.
Proof.
  intros Hok Hlt. unfold bget, kbind, lock_buf, acquiresleep, kret. unfold refs in Hlt.
  destruct (find_cached s k.1 k.2) as [i|] eqn:Hf.
  - destruct (find_cached_Some _ _ _ Hok Hf) as [Hi Hk]. pose proof (ok_ref _ Hok i Hi).
    assert (u32 (refcnt (nth_buf s i) + 1) = refcnt (nth_buf s i) + 1) as -> by (apply Z.mod_small; lia).
    rewrite nth_set_eq by done. cbn [lock with_refcnt].
    destruct (sl_locked (lock (nth_buf s i))) eqn:Hl; [eauto 6|].
    rewrite set_set by done. eauto 7.
  - destruct (find_unused s) as [i|] eqn:Hu; [|done].
    destruct (find_unused_Some _ _ Hok Hu) as [Hi Hr]. rewrite nth_set_eq by done. cbn [lock].
    destruct (sl_locked (lock (nth_buf s i))) eqn:Hl.
    { apply (ok_lock _ Hok) in Hl; [lia|done]. }
    rewrite set_set by done. eauto 7.
Qed.

Lemma lock_buf_run s me i s' :
  lock_buf me i s = Ok tt s' ->
  sl_locked (lock (nth_buf s i)) = false /\
  s' = set_buf s i (with_lock (nth_buf s i) {| sl_locked := true; sl_pid := me |}).
Proof.
  unfold lock_buf, acquiresleep. destruct (sl_locked _); [done|]. by intros [= <-].
Qed.

Lemma bread_fill_run s i s' :
  bcache_wf s -> is_buf i -> bread_fill i s = Ok tt s' ->
  if valid (nth_buf s i) then s' = s
  else s' = set_buf s i (with_data (nth_buf s i) true (disk s (blockno (nth_buf s i)))).
Proof.
  intros Hok Hi. unfold bread_fill, kbind, kgets, kret, virtio_disk_rw, kmodify.
  destruct (valid (nth_buf s i)) eqn:Hv; [by intros [= <-]|]. intros [= <-].
  by rewrite nth_set_eq, set_set.
Qed.
End Runs.

(** ** Steps *)

Section Steps.
Implicit Types (c : csys) (s : bstate) (b : buf) (k : Z * Z).

(** The contents a reader of buffer [b] gets. *)
Definition shows s b : block := if valid b then bdata b else disk s (blockno b).

Definition after (a : cact) k (v : block) : block :=
  match a with
  | CModify k0 f => if decide (k = k0) then f v else v
  | _ => v
  end.

(** The invariant holds again, a block has the contents it had but for
    the assignments of its holder, and a [bread] that returns has them. *)
Definition good c (a : cact) c' : Prop :=
  cinv c' /\
  (forall k, k.1 = ROOTDEV -> k.2 ∉ dirty c -> view (cs c') k = after a k (view (cs c) k)) /\
  (forall me i k, a = CReturn me i k -> holds (cs c') me i k (view (cs c) k)).

(** [W], [F] and [P] say the same as in [c] about the buffers but [i]. *)
Definition framed c (i : Z) (W F : gmap Z (Z * (Z * Z))) (P : Z -> Z) : Prop :=
  (once (waits c) (fills c) -> once W F) /\
  forall j, j <> i -> agree j (waits c) W /\ agree j (fills c) F /\ P j = pins c j.

Lemma framed_same c i : framed c i (waits c) (fills c) (pins c).
Proof. done. Qed.

Lemma framed_pins c i n : framed c i (waits c) (fills c) (<[i := n]> (pins c)).
Proof. split; [done|]. intros j Hj. by rewrite fn_lookup_insert_ne. Qed.

Lemma cinv_upd c s' i W F P D :
  cinv c -> is_buf i -> bcache_but (fun x => x ∈ D) s' -> other_bufs (cs c) s' i ->
  framed c i W F P -> buf_inv W F (P i) i (nth_buf s' i) ->
  cinv {| cs := s'; waits := W; fills := F; pins := P; dirty := D |}.
Proof.
  intros [Hok Hb Hon Hw Hf] Hi Hok' Ho [Hon' Hfr] Hbi. split; cbn [cs waits fills pins dirty]; [done| |by apply Hon'| |].
  - intros j Hj. destruct (decide (j = i)) as [->|Hne]; [done|]. destruct (Hfr j Hne) as (HW & HF & ->).
    rewrite Ho by done. eapply buf_inv_agree; eauto.
  - intros p j k Hp. destruct (decide (j = i)) as [->|Hne]; [done|]. by eapply Hw, (Hfr j Hne).
  - intros p j k Hp. destruct (decide (j = i)) as [->|Hne]; [done|]. by eapply Hf, (Hfr j Hne).
Qed.

Lemma but_mono (D D' : gset Z) s :
  bcache_but (fun x => x ∈ D) s -> D ⊆ D' -> bcache_but (fun x => x ∈ D') s.
Proof. intros [Hwf Hc] Hs. split; [done|]. intros i Hi Hd Hv Hr Hx. apply Hc; set_solver. Qed.

Lemma view_buf s i : bcache_wf s -> is_buf i -> bdev (nth_buf s i) <> 0 ->
  view s (key (nth_buf s i)) = shows s (nth_buf s i).
Proof. intros Hok Hi Hd. unfold view. by rewrite (find_cached_eq s _ i). Qed.

(** Changing the fields of a buffer other than the block it caches. *)
Lemma same_key_step c i b W F P D :
  cinv c -> is_buf i -> key b = key (nth_buf (cs c) i) -> bdev b = ROOTDEV ->
  dirty c ⊆ D ->
  (valid b = true -> refcnt b = 0 -> blockno b ∉ D -> bdata b = disk (cs c) (blockno b)) ->
  framed c i W F P -> buf_inv W F (P i) i b ->
  let s' := set_buf (cs c) i b in
  cinv {| cs := s'; waits := W; fills := F; pins := P; dirty := D |} /\
  view (cs c) (key b) = shows (cs c) (nth_buf (cs c) i) /\ view s' (key b) = shows (cs c) b /\
  (forall k, k <> key b -> view s' k = view (cs c) k).
Proof.
  intros Hc Hi Hk Hd HD Hcl Hfr Hbi s'. pose proof (but_mono _ _ _ (ci_ok _ Hc) HD) as Hok.
  pose proof (bi_cnt _ _ _ _ _ Hbi). pose proof (bi_pins _ _ _ _ _ Hbi). pose proof (count_nonneg W i).
  assert (Hd0 : bdev b <> 0) by (by rewrite Hd).
  assert (Hok' : bcache_but (fun x => x ∈ D) s').
  { apply same_key_ok; try done; [destruct (sl_locked (lock b)); cbn in *; lia|].
    intros Hl. rewrite Hl in *. cbn in *. lia. }
  assert (Hnth : nth_buf s' i = b) by (by apply nth_set_eq).
  split_and!.
  - apply (cinv_upd c s' i); try done; [intros j Hj; by apply nth_set_ne|by rewrite Hnth].
  - rewrite Hk. apply view_buf; try done. injection Hk as <- _. done.
  - replace (key b) with (key (nth_buf s' i)) by (by rewrite Hnth). rewrite view_buf; rewrite ?Hnth; done.
  - intros k Hne. by apply same_key_obs.
Qed.

Lemma owns_dev s me i k : owns s me i k -> bdev (nth_buf s i) = ROOTDEV.
Proof. intros (_ & Hd & <- & _). exact Hd. Qed.

(** A step on one buffer that shows the same contents. *)
Lemma same_shown c i b W F P D :
  cinv c -> is_buf i -> key b = key (nth_buf (cs c) i) -> bdev b = ROOTDEV ->
  shows (cs c) b = shows (cs c) (nth_buf (cs c) i) -> dirty c ⊆ D ->
  (valid b = true -> refcnt b = 0 -> blockno b ∉ D -> bdata b = disk (cs c) (blockno b)) ->
  framed c i W F P -> buf_inv W F (P i) i b ->
  good c CTau {| cs := set_buf (cs c) i b; waits := W; fills := F; pins := P; dirty := D |}.
Proof.
  intros Hc Hi Hk Hd Hs HD Hcl Hfr Hbi.
  destruct (same_key_step c i b W F P D Hc Hi Hk Hd HD Hcl Hfr Hbi) as (Hc' & Hv & Hv' & Ho).
  split_and!; [done| |done]. intros k _ _. cbn [cs after].
  destruct (decide (k = key b)) as [->|Hne]; [congruence|by apply Ho].
Qed.

(** A buffer locked by a process outside [bread] is valid. *)
Lemma owned_valid c me k i :
  cinv c -> idle c me -> owns (cs c) me i k ->
  valid (nth_buf (cs c) i) = true /\ 0 < refcnt (nth_buf (cs c) i).
Proof.
  intros Hc [_ Hf] (Hi & _ & _ & Hl). pose proof (ci_buf _ Hc i Hi) as Hb. split.
  - destruct (bi_valid _ _ _ _ _ Hb) as [?|E]; rewrite ?Hl in *; [done|done|]. cbn in E. congruence.
  - apply (ok_lock _ (ci_ok _ Hc) i Hi). by rewrite Hl.
Qed.

Lemma set_buf_id s i : set_buf s i (nth_buf s i) = s.
Proof.
  destruct s as [l o d w]. unfold set_buf, nth_buf, zset, zget. cbn.
  f_equal. case_decide as Hd; cbn; [|done]. rewrite decide_True by lia. destruct (l !! Z.to_nat i) as [x|] eqn:E; cbn.
  - by rewrite list_insert_id.
  - apply list_insert_ge. by apply lookup_ge_None.
Qed.

Lemma refs_buf s i k :
  bcache_wf s -> is_buf i -> k.1 = ROOTDEV -> key (nth_buf s i) = k ->
  refs s k = refcnt (nth_buf s i).
Proof. intros Hok Hi Hd Hk. unfold refs. by rewrite (find_cached_eq s k i) by (try done; by rewrite Hd). Qed.

(** Nobody fills an unlocked buffer. *)
Lemma unlocked_no_fill W F n i b p k :
  buf_inv W F n i b -> sl_locked (lock b) = false -> F !! p <> Some (i, k).
Proof. intros Hb Hl Hp. apply (bi_fill _ _ _ _ _ Hb) in Hp as (_ & _ & E). by rewrite E in Hl. Qed.

(** [p] locks buffer [i], as a new reference or after waiting for it. *)
Lemma lock_inv W F n i b p k r :
  buf_inv W F n i b -> sl_locked (lock b) = false -> key b = k -> k.1 = ROOTDEV -> F !! p = None ->
  forall W', r = refcnt b + 1 + count_at W' i - count_at W i -> r < 2 ^ 32 ->
  (forall q k', W' !! q = Some (i, k') -> W !! q = Some (i, k')) ->
  buf_inv W' (<[p := (i, k)]> F) n i
    (with_lock (with_refcnt b r) {| sl_locked := true; sl_pid := p |}).
Proof.
  intros Hb Hl Hk Hd Hp W' Hr Hlt HW. pose proof (bi_cnt _ _ _ _ _ Hb) as Hcnt. rewrite Hl in Hcnt.
  split; cbn [refcnt lock valid sl_locked sl_pid with_lock with_refcnt Z.b2z] in *; try lia.
  - exact (bi_pins _ _ _ _ _ Hb).
  - intros q k' Hq. apply HW in Hq. by apply (bi_wait _ _ _ _ _ Hb) in Hq.
  - intros q k' Hq. destruct (decide (p = q)) as [<-|Hne].
    + rewrite lookup_insert_eq in Hq. injection Hq as <-. done.
    + rewrite lookup_insert_ne in Hq by done. by apply (unlocked_no_fill _ _ _ _ _ _ _ Hb) in Hq.
  - right. rewrite lookup_insert_eq. do 2 f_equal. rewrite <- Hk. done.
Qed.

Lemma framed_insert c i p k :
  idle c p -> framed c i (waits c) (<[p := (i, k)]> (fills c)) (pins c).
Proof.
  intros [Hw Hf]. split.
  - intros Hon q x Hq. rewrite lookup_insert_ne by congruence. by eapply Hon.
  - intros j Hj. split_and!; [done|by apply agree_insert|done].
Qed.

Lemma step_bget c me k i s' :
  cinv c -> idle c me -> k.1 = ROOTDEV -> refs (cs c) k < 2 ^ 32 - 1 ->
  bget me k.1 k.2 (cs c) = Ok i s' ->
  good c CTau {| cs := s'; waits := waits c; fills := <[me := (i, k)]> (fills c);
                 pins := pins c; dirty := dirty c |}.
Proof.
  intros Hc Hidle Hk Hlt Hrun. pose proof (ci_ok _ Hc) as Hok.
  pose proof (bget_run (cs c) me k Hok Hlt) as H. rewrite Hrun in H.
  destruct H as (Hi & Hl & [[Hki ->]|(Hf & Hr & ->)]); pose proof (ci_buf _ Hc i Hi) as Hb.
  - rewrite (refs_buf _ i) in Hlt by done.
    apply same_shown; try done; cbn [valid refcnt with_lock with_refcnt].
    + rewrite <- Hki in Hk. exact Hk.
    + pose proof (ok_ref _ Hok i Hi). lia.
    + by apply framed_insert.
    + apply (lock_inv (waits c)); try done; [apply Hidle|lia..].
  - set (b := {| valid := false |}).
    pose proof (bi_cnt _ _ _ _ _ Hb) as Hcnt. rewrite Hr, Hl in Hcnt. cbn in Hcnt.
    pose proof (bi_pins _ _ _ _ _ Hb). pose proof (count_nonneg (waits c) i).
    assert (Hok' : bcache_but (fun x => x ∈ dirty c) (set_buf (cs c) i b)) by (by apply recycle_ok).
    split_and!; [|intros k' Hk' Hx; cbn [cs after]|done].
    + apply (cinv_upd c _ i); try done; [intros j Hj; by apply nth_set_ne|by apply framed_insert|].
      rewrite nth_set_eq by done. split; cbn [b refcnt lock sl_locked sl_pid Z.b2z]; try lia.
      * intros p k' Hp%count_pos. lia.
      * intros p k' Hp. destruct (decide (me = p)) as [<-|Hne].
        -- rewrite lookup_insert_eq in Hp. injection Hp as <-. by destruct k.
        -- rewrite lookup_insert_ne in Hp by done. by apply (unlocked_no_fill _ _ _ _ _ _ _ Hb) in Hp.
      * right. rewrite lookup_insert_eq. by destruct k.
    + destruct (decide (k' = k)) as [->|Hne].
      * replace (view _ k) with (view (set_buf (cs c) i b) (key b)) by (by destruct k).
        assert (bdev b <> 0) by (cbn; by rewrite Hk).
        destruct (own_key_obs (cs c) i b) as (-> & _); try done. cbn. unfold view. by rewrite Hf.
      * destruct (recycle_obs (cs c) i b k' Hok) as (Hv & _); try done; [by rewrite Hk'|by destruct k|by apply Hv].
Qed.

Lemma step_sleep c me k i s' :
  cinv c -> idle c me -> k.1 = ROOTDEV -> refs (cs c) k < 2 ^ 32 - 1 ->
  bget me k.1 k.2 (cs c) = Sleep (buf_chan i) s' ->
  good c CTau {| cs := s'; waits := <[me := (i, k)]> (waits c); fills := fills c;
                 pins := pins c; dirty := dirty c |}.
Proof.
  intros Hc [Hidle Hnf] Hk Hlt Hrun. pose proof (ci_ok _ Hc) as Hok.
  pose proof (bget_run (cs c) me k Hok Hlt) as H. rewrite Hrun in H.
  destruct H as (j & [= <-] & Hi & Hki & ->). pose proof (ci_buf _ Hc i Hi) as Hb.
  rewrite (refs_buf _ i) in Hlt by done. pose proof (ok_ref _ Hok i Hi).
  apply same_shown; try done; cbn [valid refcnt with_refcnt].
  - rewrite <- Hki in Hk. exact Hk.
  - lia.
  - split; [|intros j Hj; split_and!; [by apply agree_insert|done|done]].
    intros Hon q x. destruct (decide (me = q)) as [<-|Hne]; [done|]. rewrite lookup_insert_ne by done. apply Hon.
  - pose proof (bi_cnt _ _ _ _ _ Hb). split; cbn [refcnt lock valid with_refcnt]; try apply Hb; [lia| |].
    + rewrite count_at_insert by done. lia.
    + intros p k' Hp. destruct (decide (me = p)) as [<-|Hne].
      * rewrite lookup_insert_eq in Hp. injection Hp as <-. done.
      * rewrite lookup_insert_ne in Hp by done. by apply (bi_wait _ _ _ _ _ Hb) in Hp.
Qed.

Lemma step_lock c me k i s' :
  cinv c -> waits c !! me = Some (i, k) -> lock_buf me i (cs c) = Ok tt s' ->
  good c CTau {| cs := s'; waits := delete me (waits c); fills := <[me := (i, k)]> (fills c);
                 pins := pins c; dirty := dirty c |}.
Proof.
  intros Hc Hw Hrun. pose proof (ci_once _ Hc _ _ Hw) as Hf. pose proof (ci_ok _ Hc) as Hok. pose proof (ci_wait _ Hc _ _ _ Hw) as Hi.
  pose proof (ci_buf _ Hc i Hi) as Hb. destruct (bi_wait _ _ _ _ _ Hb _ _ Hw) as [Hki Hd].
  apply lock_buf_run in Hrun as [Hl ->].
  replace (with_lock _ _) with (with_lock (with_refcnt (nth_buf (cs c) i) (refcnt (nth_buf (cs c) i)))
    {| sl_locked := true; sl_pid := me |}) by (by destruct (nth_buf (cs c) i)).
  pose proof (bi_cnt _ _ _ _ _ Hb). pose proof (bi_pins _ _ _ _ _ Hb). pose proof (count_pos _ _ _ _ Hw).
  rewrite Hl in *. cbn [Z.b2z] in *.
  apply same_shown; try done; cbn [valid refcnt with_lock with_refcnt].
  - rewrite <- Hki in Hd. exact Hd.
  - lia.
  - split; [|intros j Hj; split_and!; [by eapply agree_delete|by apply agree_insert|done]].
    intros Hon q x [Hne Hq]%lookup_delete_Some. rewrite lookup_insert_ne by done. by eapply Hon.
  - apply (lock_inv (waits c)); try done.
    + rewrite (count_at_delete _ _ _ _ Hw). lia.
    + apply Hb.
    + intros q k' Hq. by apply lookup_delete_Some in Hq as [_ Hq].
Qed.

Lemma step_fill c me k i s' :
  cinv c -> fills c !! me = Some (i, k) -> bread_fill i (cs c) = Ok tt s' ->
  good c (CReturn me i k) {| cs := s'; waits := waits c; fills := delete me (fills c);
                 pins := pins c; dirty := dirty c |}.
Proof.
  intros Hc Hf Hrun. pose proof (ci_ok _ Hc) as Hok. pose proof (ci_fill _ Hc _ _ _ Hf) as Hi.
  pose proof (ci_buf _ Hc i Hi) as Hb. destruct (bi_fill _ _ _ _ _ Hb _ _ Hf) as (Hki & Hd & Hl).
  pose proof (bread_fill_run _ _ _ Hok Hi Hrun) as Hs'. set (b := nth_buf (cs c) i) in *.
  set (b' := with_data b true (shows (cs c) b)).
  assert (s' = set_buf (cs c) i b') as ->.
  { unfold b', shows. destruct (valid b) eqn:Hv; [|exact Hs']. rewrite Hs'.
    rewrite <- (set_buf_id (cs c) i) at 1. fold b. f_equal. unfold with_data. destruct b; cbn in *. by subst. }
  pose proof (bi_cnt _ _ _ _ _ Hb). pose proof (bi_pins _ _ _ _ _ Hb). pose proof (count_nonneg (waits c) i).
  destruct (same_key_step c i b' (waits c) (delete me (fills c)) (pins c) (dirty c)) as (Hc' & Hv & Hv' & Ho);
    try done.
  - rewrite <- Hki in Hd. exact Hd.
  - cbn [refcnt b' with_data]. rewrite Hl in *. cbn in *. lia.
  - split; [|intros j Hj; split_and!; [done|by eapply agree_delete|done]].
    intros Hon q x Hq. apply lookup_delete_None. right. by eapply Hon.
  - split; cbn [refcnt lock valid b' with_data]; try apply Hb; [|by left].
    intros p k' Hp. apply lookup_delete_Some in Hp as [_ Hp]. by apply (bi_fill _ _ _ _ _ Hb) in Hp.
  - assert (Hkb : key b' = k) by exact Hki. rewrite Hkb in *. split_and!; [done| |].
    + intros k' _ _. cbn [cs after]. destruct (decide (k' = k)) as [->|Hne]; [by rewrite Hv, Hv'|by apply Ho].
    + intros ? ? ? [= <- <- <-]. cbn [cs]. unfold holds. rewrite nth_set_eq, Hv by done. done.
Qed.

Lemma step_modify c me k i f s' :
  cinv c -> idle c me -> owns (cs c) me i k -> bmodify i f (cs c) = Ok tt s' ->
  good c (CModify k f) {| cs := s'; waits := waits c; fills := fills c;
                 pins := pins c; dirty := dirty c |}.
Proof.
  intros Hc Hidle Ho [= <-]. destruct (owned_valid c me k i Hc Hidle Ho) as (Hv & Hr).
  pose proof Ho as (Hi & Hd & Hk & Hl). pose proof (ci_buf _ Hc i Hi) as Hb.
  set (b' := with_data _ _ _).
  destruct (same_key_step c i b' (waits c) (fills c) (pins c) (dirty c)) as (Hc' & Hw & Hw' & Hoth); try done.
  - exact (owns_dev _ _ _ _ Ho).
  - cbn [refcnt b' with_data]. lia.
  - destruct Hb. by split.
  - assert (Hkb : key b' = k) by exact Hk. rewrite Hkb in *. split_and!; [done| |done].
    intros k' _ _. cbn [cs after]. case_decide as Hkk; [subst k'|by apply Hoth].
    rewrite Hw, Hw'. unfold shows. cbn. by rewrite Hv.
Qed.

Lemma step_bpin c me k i s' :
  cinv c -> idle c me -> owns (cs c) me i k -> refs (cs c) k < 2 ^ 32 - 1 -> bpin i (cs c) = Ok tt s' ->
  good c CTau {| cs := s'; waits := waits c; fills := fills c;
                 pins := <[i := pins c i + 1]> (pins c); dirty := dirty c |}.
Proof.
  intros Hc Hidle Ho Hlt [= <-]. destruct (owned_valid c me k i Hc Hidle Ho) as (Hv & Hr).
  pose proof Ho as (Hi & Hd & Hk & Hl). pose proof (ci_buf _ Hc i Hi) as Hb.
  rewrite (refs_buf _ i) in Hlt by (done || apply Hc).
  assert (u32 (refcnt (nth_buf (cs c) i) + 1) = refcnt (nth_buf (cs c) i) + 1) as -> by (apply Z.mod_small; lia).
  apply same_shown; try done; cbn [valid refcnt with_refcnt].
  - exact (owns_dev _ _ _ _ Ho).
  - lia.
  - apply framed_pins.
  - rewrite fn_lookup_insert. destruct Hb. split; cbn [refcnt lock valid with_refcnt]; try done; lia.
Qed.

Lemma step_bwrite c me k i s' :
  cinv c -> idle c me -> owns (cs c) me i k -> bwrite me i (cs c) = Ok tt s' ->
  good c CTau {| cs := s'; waits := waits c; fills := fills c; pins := pins c; dirty := dirty c |}.
Proof.
  intros Hc Hidle Ho Hrun. destruct (owned_valid c me k i Hc Hidle Ho) as (Hv & _).
  pose proof Ho as (Hi & Hd & Hk & Hl).
  assert (Hh : holds (cs c) me i k (bdata (nth_buf (cs c) i))) by (by unfold holds).
  pose proof (ci_ok _ Hc) as Hok.
  destruct (bwrite_spec _ _ _ _ _ Hok Hh) as (s1 & Hrun' & Hok' & Hb & Hlru & Hdisk & _).
  rewrite Hrun in Hrun'. injection Hrun' as <-.
  destruct (bwrite_obs _ _ _ _ _ _ Hok Hh Hb Hlru Hdisk) as (Hh' & _ & Hoth).
  assert (Hnth : forall j, nth_buf s' j = nth_buf (cs c) j) by (intros; unfold nth_buf; by rewrite Hb).
  split_and!; [|intros k' Hk' _; cbn [cs after]|done].
  - split; cbn [cs waits fills pins dirty]; try apply Hc; [done|]. intros j Hj. rewrite Hnth. by apply Hc.
  - destruct (decide (k' = k)) as [->|Hne]; [|by apply Hoth].
    destruct (holds_obs _ _ _ _ _ Hok Hh) as (_ & -> & _). by destruct (holds_obs _ _ _ _ _ Hok' Hh') as (_ & -> & _).
Qed.

Lemma dropped_sub D s i : D ⊆ dropped D s i.
Proof. unfold dropped. case_decide; set_solver. Qed.

(** Dropping a reference: the buffer is clean unless it is recorded. *)
Lemma dropped_clean D s s' i b :
  nth_buf s' i = b -> disk s' = disk s ->
  valid b = true -> refcnt b = 0 -> blockno b ∉ dropped D s' i -> bdata b = disk s (blockno b).
Proof.
  unfold dropped. intros -> -> _ Hr. case_decide as Hd; [set_solver|]. intros _.
  destruct (decide (bdata b = disk s (blockno b))); [done|tauto].
Qed.

Lemma reorder_good c a l s' W F P D :
  good c a {| cs := s'; waits := W; fills := F; pins := P; dirty := D |} -> l ≡ₚ lru s' ->
  (forall me i k, a <> CReturn me i k) ->
  good c a {| cs := {| bufs := bufs s'; lru := l; disk := disk s'; writes := writes s' |};
              waits := W; fills := F; pins := P; dirty := D |}.
Proof.
  intros (Hc & Hv & _) Hl Ha. pose proof (ci_ok _ Hc) as Hok.
  destruct (reorder_obs s' l Hok Hl) as [Hok' Hsame]. split_and!.
  - split; try apply Hc. exact Hok'.
  - intros k Hk Hx. rewrite <- Hv by done. by apply Hsame.
  - intros me i k E. by apply Ha in E.
Qed.

Lemma step_brelse c me k i s' :
  cinv c -> idle c me -> owns (cs c) me i k -> brelse me i (cs c) = Ok tt s' ->
  good c CTau {| cs := s'; waits := waits c; fills := fills c; pins := pins c;
                 dirty := dropped (dirty c) s' i |}.
Proof.
  intros Hc Hidle Ho Hrun. destruct (owned_valid c me k i Hc Hidle Ho) as (Hv & Hr).
  pose proof Ho as (Hi & Hd & Hk & Hl). pose proof (ci_buf _ Hc i Hi) as Hb. pose proof (ci_ok _ Hc) as Hok.
  pose proof (bi_lt _ _ _ _ _ Hb). pose proof (bi_cnt _ _ _ _ _ Hb) as Hcnt. rewrite Hl in Hcnt.
  unfold brelse, holdingsleep, releasesleep in Hrun. rewrite Hl, Z.eqb_refl in Hrun. cbn [andb negb] in Hrun.
  assert (Hu : u32 (refcnt (nth_buf (cs c) i) - 1) = refcnt (nth_buf (cs c) i) - 1) by (apply Z.mod_small; lia).
  rewrite Hu in Hrun. set (b := with_refcnt _ _) in Hrun. injection Hrun as <-. set (s1 := set_buf (cs c) i b).
  change (dropped (dirty c) _ i) with (dropped (dirty c) s1 i).
  apply (reorder_good c CTau _ s1); [|destruct (_ =? 0); [|done]|done].
  - apply same_shown; try done.
    + exact (owns_dev _ _ _ _ Ho).
    + apply dropped_sub.
    + apply dropped_clean; [by apply nth_set_eq|done].
    + split; cbn [b refcnt lock sl_locked with_refcnt with_lock Z.b2z] in *; try done; try lia; try apply Hb.
      intros p k' Hp. exfalso. pose proof Hp as (_ & _ & E)%(bi_fill _ _ _ _ _ Hb).
      rewrite Hl in E. injection E as ->. destruct Hidle as [_ Hnf]. congruence.
  - cbn [s1 lru set_buf]. apply move_to_head_perm; rewrite (ok_lru _ Hok); [apply NoDup_seqZ|].
    apply elem_of_seqZ. unfold is_buf in Hi. lia.
Qed.

Lemma step_bunpin c i s' :
  cinv c -> is_buf i -> 0 < pins c i -> bunpin i (cs c) = Ok tt s' ->
  good c CTau {| cs := s'; waits := waits c; fills := fills c;
                 pins := <[i := pins c i - 1]> (pins c); dirty := dropped (dirty c) s' i |}.
Proof.
  intros Hc Hi Hp [= <-]. pose proof (ci_buf _ Hc i Hi) as Hb. pose proof (ci_ok _ Hc) as Hok.
  pose proof (bi_lt _ _ _ _ _ Hb). pose proof (bi_cnt _ _ _ _ _ Hb) as Hcnt. pose proof (count_nonneg (waits c) i).
  assert (0 <= Z.b2z (sl_locked (lock (nth_buf (cs c) i)))) by (destruct (sl_locked _); cbn; lia).
  assert (u32 (refcnt (nth_buf (cs c) i) - 1) = refcnt (nth_buf (cs c) i) - 1) as -> by (apply Z.mod_small; lia).
  apply same_shown; try done.
  - destruct (ok_one _ Hok i Hi) as [E|E]; [|exact E]. apply (ok_dev _ Hok) in E; [done|done|lia].
  - apply dropped_sub.
  - apply dropped_clean; [by apply nth_set_eq|done].
  - apply framed_pins.
  - rewrite fn_lookup_insert. destruct Hb. split; cbn [refcnt lock valid with_refcnt]; try done; lia.
Qed.

Lemma cstep_good c a c' : cinv c -> cstep c a c' -> good c a c'.
Proof.
  intros Hc Hs. destruct Hs.
  - by apply step_bget.
  - by apply step_sleep.
  - by apply step_lock.
  - by apply step_fill.
  - by eapply step_modify.
  - by eapply step_bwrite.
  - by eapply step_brelse.
  - by eapply step_bpin.
  - by apply step_bunpin.
Qed.

Lemma cinv_init d : cinv (cinit d).
Proof.
  split; cbn [cs waits fills pins dirty cinit]; [|intros i Hi|done..].
  - destruct (binit_ok d) as [Hwf Hcl]. split; [done|]. intros. apply Hcl; auto.
  - rewrite nth_binit. by split.
Qed.

Lemma reach_cinv d c : reach cany (cinit d) c -> cinv c.
Proof. apply reach_inv; [apply cinv_init|]. intros c1 c2 Hc [a Hs]. by apply (cstep_good _ _ _ Hc Hs). Qed.
End Steps.

(** ** Theorems *)


(** Process 7 is inside [bread] of block 5, which it has locked. *)
Definition seven_fills (s : bstate) : csys :=
  {| cs := s; waits := ∅; fills := {[7 := (0, (1, 5))]}; pins := fun _ => 0; dirty := ∅ |}.


(** [bread] makes progress and replaces by recency: as long as fewer than
    [NBUF] blocks are referenced it never panics, it returns at once unless the
    block's buffer is locked, and a buffer it recycles is unreferenced and
    the least recently released such buffer. *)
Theorem bread_progress_lru (d : Z -> block) (c : csys) (me : Z) (k : Z * Z) (X : gset (Z * Z)) :
  reach cany (cinit d) c -> k.1 = ROOTDEV -> refs (cs c) k < 2 ^ 32 - 1 ->
  (forall k', 0 < refs (cs c) k' -> k' ∈ X) -> (base.size X < Z.to_nat NBUF)%nat ->
  locked_by (cs c) k = None ->
  exists i s', bread me k.1 k.2 (cs c) = Ok i s' /\
    (find_cached (cs c) k.1 k.2 = Some i \/
     exists l1 l2, lru (cs c) = l1 ++ i :: l2 /\ refcnt (nth_buf (cs c) i) = 0 /\
       Forall (fun j => refcnt (nth_buf (cs c) j) <> 0) l2).
Proof.
  intros Hok%reach_cinv%ci_ok Hk Hlt HX Hsz Hl. set (s := cs c) in *.
  destruct (find_unused_total s X Hok HX Hsz) as [v Hv].
  destruct (bread_run s me k Hok) as (i & Hi & Hrun & Hc); eauto; [by rewrite Hk|].
  do 2 eexists. split; [exact Hrun|]. destruct Hc as [?|[Hf Hr]]; [by left|right].
  assert (Hiv : i = v).
  { unfold bread, bread_fill, bget, kbind in Hrun. rewrite Hf, Hv in Hrun.
    unfold lock_buf, acquiresleep in Hrun. destruct (find_unused_Some _ _ Hok Hv) as [Hvi _].
    rewrite nth_set_eq in Hrun by done. cbn in Hrun.
    destruct (sl_locked _); [done|]. cbn in Hrun. unfold kgets, kret, kmodify in Hrun.
    rewrite set_set, nth_set_eq in Hrun by done. cbn in Hrun. by injection Hrun. }
  subst v. destruct (find_unused_lru _ _ Hv) as (l1 & l2 & ? & ?). exists l1, l2. done.
Qed.

Lemma bread_progress_lru_witness :
  exists i s', bread 7 1 5 (binit blank_disk) = Ok i s'.
Proof.
  destruct (bread_progress_lru blank_disk (cinit blank_disk) 7 (1, 5) ∅) as (i & s' & Hr & _).
  - apply reach_refl.
  - reflexivity.
  - reflexivity.
  - intros k Hpos. exfalso. unfold refs in Hpos.
    destruct (find_cached _ k.1 k.2) as [i|]; [|lia]. cbn [cs cinit] in Hpos.
    rewrite nth_binit in Hpos. cbn in Hpos. lia.
  - rewrite size_empty. vm_compute. lia.
  - reflexivity.
  - exists i, s'. exact Hr.
Defined.
