(* ===== verification/BlockStore.v ===== *)
(** What the buffer cache and the log promise to the file system.

    Inside a transaction the file system reads a block with [bread], works on
    the buffer's data, calls [log_write] if it changed them, and releases the
    buffer with [brelse].  Its model is written against this interface;
    [BlockLog] proves that the log on the buffer cache provides it. *)

From stdpp Require Import functions.
From S2P Require Import Prelude Block Bio.

(** Buffers are numbers.  [bdata] and [bset] are uses of [b->data]. *)
Class BlockStore (St : Type) : Type := {
  bread : Z -> Z -> M St Z;
  bdata : Z -> M St block;
  bset : Z -> block -> M St unit;
  log_write : Z -> M St unit;
  brelse : Z -> M St unit
}.

(** The abstract state: the current contents of the blocks, the block each
    buffer in use holds, the held blocks that were changed and not logged yet,
    and the blocks logged by the transaction. *)
Record bview : Type := BView {
  contents : Z -> block;
  held : gmap Z Z;
  dirty : gset Z;
  logged : gset Z
}.

Definition with_held (v : bview) (h : gmap Z Z) : bview :=
  {| contents := contents v; held := h; dirty := dirty v; logged := logged v |}.

Definition with_contents (v : bview) (b : Z) (d : block) : bview :=
  {| contents := <[b := d]> (contents v); held := held v; dirty := {[b]} ∪ dirty v;
     logged := logged v |}.

Definition with_logged (v : bview) (b : Z) : bview :=
  {| contents := contents v; held := held v; dirty := dirty v ∖ {[b]};
     logged := {[b]} ∪ logged v |}.

(** A transaction may log [log_cap] blocks and hold three at a time; with the
    [NBUF] buffers of the cache this is always possible. *)
Definition log_cap : nat := 27.
Definition max_held : nat := 3.

Class BlockStoreLaws (St : Type) `{BlockStore St} : Type := {
  brep : St -> bview -> Prop;
  brep_ok : forall s v b, brep s v -> block_ok (contents v b);
  bread_law : forall s v b,
    brep s v -> (forall i, held v !! i <> Some b) -> (base.size (held v) < max_held)%nat ->
    exists i s', bread ROOTDEV b s = Ok i s' /\ held v !! i = None /\
      brep s' (with_held v (<[i := b]> (held v)));
  bdata_law : forall s v i b,
    brep s v -> held v !! i = Some b -> bdata i s = Ok (contents v b) s;
  bset_law : forall s v i b d,
    brep s v -> held v !! i = Some b -> block_ok d ->
    exists s', bset i d s = Ok tt s' /\ brep s' (with_contents v b d);
  log_write_law : forall s v i b,
    brep s v -> held v !! i = Some b -> (base.size ({[b]} ∪ logged v) <= log_cap)%nat ->
    exists s', log_write i s = Ok tt s' /\ brep s' (with_logged v b);
  brelse_law : forall s v i b,
    brep s v -> held v !! i = Some b -> b ∉ dirty v ->
    exists s', brelse i s = Ok tt s' /\ brep s' (with_held v (delete i (held v)))
}.

(** ** A reference implementation

    The abstract state itself, with the block number as its buffer. *)

Definition ref_bread (dev b : Z) : M bview Z := fun v =>
  Ok b (with_held v (<[b := b]> (held v))).
Definition ref_bdata (i : Z) : M bview block := fun v => Ok (contents v i) v.
Definition ref_bset (i : Z) (d : block) : M bview unit := fun v => Ok tt (with_contents v i d).
Definition ref_log_write (i : Z) : M bview unit := fun v => Ok tt (with_logged v i).
Definition ref_brelse (i : Z) : M bview unit := fun v => Ok tt (with_held v (delete i (held v))).

#[export] Instance ref_store : BlockStore bview :=
  {| bread := ref_bread; bdata := ref_bdata; bset := ref_bset;
     log_write := ref_log_write; brelse := ref_brelse |}.

#[export] Instance ref_laws : BlockStoreLaws bview.
Proof.
  refine {| brep s v := s = v /\ (forall b, block_ok (contents v b)) /\
                        (forall i b, held v !! i = Some b -> i = b) |};
    cbn [bread bdata bset log_write brelse ref_store].
  - intros s v b (_ & Hok & _). apply Hok.
  - intros s v b (-> & Hok & Hh) Hne _. exists b. eexists. split; [reflexivity|].
    split; [|split; [done|split; [done|]]].
    + destruct (held v !! b) as [c|] eqn:E; [|done]. pose proof (Hh _ _ E) as <-.
      by destruct (Hne b).
    + intros i c. cbn. rewrite lookup_insert_Some. intros [[-> ->]|[_ ?]]; eauto.
  - intros s v i b (-> & _ & Hh) E. by rewrite (Hh _ _ E).
  - intros s v i b d (-> & Hok & Hh) E Hd. rewrite (Hh _ _ E). eexists. split; [reflexivity|].
    split; [done|]. split; [|done]. intros c. cbn. destruct (decide (c = b)) as [->|Hne].
    + by rewrite fn_lookup_insert.
    + by rewrite fn_lookup_insert_ne.
  - intros s v i b (-> & Hok & Hh) E _. rewrite (Hh _ _ E). by eexists.
  - intros s v i b (-> & Hok & Hh) E _. eexists. split; [reflexivity|].
    split; [done|]. split; [done|]. intros j c. cbn. rewrite lookup_delete_Some.
    intros [_ ?]. eauto.
Defined.

(** ** Transactions *)

Class Transactions (St : Type) : Type := {
  begin_op : M St unit;
  end_op : M St unit
}.

(** On the reference store a transaction ends by emptying its log. *)
#[export] Instance ref_tx : Transactions bview :=
  {| begin_op := kret tt;
     end_op := fun v => Ok tt {| contents := contents v; held := held v; dirty := dirty v; logged := ∅ |} |}.
