(* ===== verification/Log.v ===== *)
(** The write-ahead log ([kernel/log.c]).

    The state is the buffer cache with its disk ([Bio]) and the in-memory log
    record.  [commit] and recovery are written with the cache operations in
    the order of the code; the cache records every disk write, so a crash
    is a prefix of that record applied to the disk the run started from.

    Shown: a commit is atomic with respect to crashes at any disk write;
    recovery applies a committed transaction and clears the header; the
    header survives its encoding in a block; [begin_op] and [end_op] keep the
    number of logged blocks within the reservation and lose no wakeup; three full-size
    operations that [begin_op] admits together do not fit the on-disk log. *)

From stdpp Require Import functions.
From S2P Require Import Prelude Mem Block Sleeplock Bio.

Definition LOGSIZE : Z := MAXOPBLOCKS * 3.

Record log : Type := Log {
  start : Z;
  size : Z;
  outstanding : Z;
  committing : bool;
  dev : Z;
  lh_n : Z;
  lh_block : list Z
}.

Record lstate : Type := LState { bc : bstate; lg : log }.

(** ** State access *)

Definition on_cache {A} (m : M bstate A) : M lstate A := fun s =>
  match m (bc s) with
  | Ok a b => Ok a {| bc := b; lg := lg s |}
  | Panic msg => Panic msg
  | Sleep c b => Sleep c {| bc := b; lg := lg s |}
  end.

Definition get_log : M lstate log := kgets lg.

Definition put_log (l : log) : M lstate unit := fun s => Ok tt {| bc := bc s; lg := l |}.

Definition with_lh (l : log) (n : Z) (b : list Z) : log :=
  {| start := start l; size := size l; outstanding := outstanding l;
     committing := committing l; dev := dev l; lh_n := n; lh_block := b |}.

Definition with_op (l : log) (o : Z) (c : bool) : log :=
  {| start := start l; size := size l; outstanding := o; committing := c;
     dev := dev l; lh_n := lh_n l; lh_block := lh_block l |}.

(** ** The header block

    [struct logheader] laid over the block: [n] at offset 0, [block[i]] at
    offset [4 + 4 * i]. *)

Definition hdr_n (b : block) : Z := i32 (get32 b 0).
Definition hdr_block (b : block) (i : Z) : Z := i32 (get32 b (4 + 4 * i)).

Fixpoint put_blocks (b : block) (i : Z) (l : list Z) : block :=
  match l with
  | [] => b
  | x :: l => put_blocks (put32 b (4 + 4 * i) (u32 x)) (i + 1) l
  end.

Definition encode_head (b : block) (l : list Z) : block :=
  put_blocks (put32 b 0 (u32 (Z.of_nat (length l)))) 0 l.

(** The block numbers the in-memory header lists. *)
Definition logged (l : log) : list Z := take (Z.to_nat (lh_n l)) (lh_block l).

Section Log.
Context (me : Z).

Definition log_chan : chan := Chan "log" 0.

(** [install_trans], from entry [tail] on, [k] entries left. *)
Fixpoint install_loop (k : nat) (recovering : bool) (tail : Z) : M lstate unit :=
  match k with
  | O => kret tt
  | S k =>
      let! l := get_log in
      let! dst := kopt (zget (lh_block l) tail) in
      let! lbuf := on_cache (bread me (dev l) (start l + tail + 1)) in
      let! dbuf := on_cache (bread me (dev l) dst) in
      let! src := kgets (fun s => bdata (nth_buf (bc s) lbuf)) in
      on_cache (bmodify dbuf (fun _ => src)) ;;;
      on_cache (bwrite me dbuf) ;;;
      (if recovering then kret tt else on_cache (bunpin dbuf)) ;;;
      on_cache (brelse me lbuf) ;;;
      on_cache (brelse me dbuf) ;;;
      install_loop k recovering (tail + 1)
  end.

Definition install_trans (recovering : bool) : M lstate unit :=
  let! l := get_log in install_loop (Z.to_nat (lh_n l)) recovering 0.

(** The copy loop of [read_head]: [log.lh.block[i] = lh->block[i]]. *)
Fixpoint read_blocks (k : nat) (b : block) (i : Z) (arr : list Z) : option (list Z) :=
  match k with
  | O => Some arr
  | S k =>
      match zset arr i (hdr_block b i) with
      | Some arr => read_blocks k b (i + 1) arr
      | None => None
      end
  end.

Definition read_head : M lstate unit :=
  let! l := get_log in
  let! i := on_cache (bread me (dev l) (start l)) in
  let! b := kgets (fun s => bdata (nth_buf (bc s) i)) in
  let! arr := kopt (read_blocks (Z.to_nat (hdr_n b)) b 0 (lh_block l)) in
  put_log (with_lh l (hdr_n b) arr) ;;;
  on_cache (brelse me i).

Definition write_head : M lstate unit :=
  let! l := get_log in
  let! i := on_cache (bread me (dev l) (start l)) in
  on_cache (bmodify i (fun b => encode_head b (logged l))) ;;;
  on_cache (bwrite me i) ;;;
  on_cache (brelse me i).

Definition recover_from_log : M lstate unit :=
  read_head ;;;
  install_trans true ;;;
  let! l := get_log in
  put_log (with_lh l 0 (lh_block l)) ;;;
  write_head.

(** [initlog] from the superblock's [logstart] and [nlog]. *)
Definition initlog (dv logstart nlog : Z) : M lstate unit :=
  if BSIZE <=? 4 + 4 * LOGSIZE then panic "initlog: too big logheader"
  else
    let! l := get_log in
    put_log {| start := logstart; size := nlog; outstanding := outstanding l;
               committing := committing l; dev := dv; lh_n := lh_n l;
               lh_block := lh_block l |} ;;;
    recover_from_log.

Definition begin_op : M lstate unit := fun s =>
  let l := lg s in
  if committing l then Sleep log_chan s
  else if LOGSIZE <? lh_n l + (outstanding l + 1) * MAXOPBLOCKS then Sleep log_chan s
  else Ok tt {| bc := bc s; lg := with_op l (outstanding l + 1) (committing l) |}.

(** [write_log], from entry [tail] on, [k] entries left. *)
Fixpoint write_log_loop (k : nat) (tail : Z) : M lstate unit :=
  match k with
  | O => kret tt
  | S k =>
      let! l := get_log in
      let! src := kopt (zget (lh_block l) tail) in
      let! to := on_cache (bread me (dev l) (start l + tail + 1)) in
      let! from := on_cache (bread me (dev l) src) in
      let! d := kgets (fun s => bdata (nth_buf (bc s) from)) in
      on_cache (bmodify to (fun _ => d)) ;;;
      on_cache (bwrite me to) ;;;
      on_cache (brelse me from) ;;;
      on_cache (brelse me to) ;;;
      write_log_loop k (tail + 1)
  end.

Definition write_log : M lstate unit :=
  let! l := get_log in write_log_loop (Z.to_nat (lh_n l)) 0.

Definition commit : M lstate unit :=
  let! l := get_log in
  if 0 <? lh_n l then
    write_log ;;;
    write_head ;;;
    install_trans false ;;;
    let! l := get_log in
    put_log (with_lh l 0 (lh_block l)) ;;;
    write_head
  else kret tt.

(** [end_op] up to the first release of [log.lock]: whether to commit, and the
    channels of its [wakeup]. *)
Definition end_op_first : M lstate (bool * list chan) :=
  let! l := get_log in
  let o := outstanding l - 1 in
  if committing l then panic "log.committing"
  else if o =? 0 then put_log (with_op l o true) ;;; kret (true, [])
  else put_log (with_op l o (committing l)) ;;; kret (false, [log_chan]).

(** The end of [end_op] after [commit]. *)
Definition end_op_last : M lstate (list chan) :=
  let! l := get_log in
  put_log (with_op l (outstanding l) false) ;;; kret [log_chan].

(** The whole call; it returns the channels it has woken. *)
Definition end_op : M lstate (list chan) :=
  let! r := end_op_first in
  if r.1 then commit ;;; end_op_last else kret r.2.

(** The scan of [log_write] for an entry of the same block. *)
Fixpoint absorb (l : list Z) (i bno : Z) : Z :=
  match l with
  | [] => i
  | x :: l => if x =? bno then i else absorb l (i + 1) bno
  end.

Definition log_write (b : Z) : M lstate unit :=
  let! l := get_log in
  if (LOGSIZE <=? lh_n l) || (size l - 1 <=? lh_n l) then panic "too big a transaction"
  else if outstanding l <? 1 then panic "log_write outside of trans"
  else
    let! bno := kgets (fun s => blockno (nth_buf (bc s) b)) in
    let i := absorb (logged l) 0 bno in
    let! arr := kopt (zset (lh_block l) i bno) in
    if i =? lh_n l
    then on_cache (bpin b) ;;; put_log (with_lh l (lh_n l + 1) arr)
    else put_log (with_lh l (lh_n l) arr).
End Log.

(** ** The cache as the log uses it *)

Definition obs (s : bstate) (k : Z * Z) : block * Z * option Z :=
  (view s k, refs s k, locked_by s k).

(** Block [x] of the root device. *)
Definition root (x : Z) : Z * Z := (ROOTDEV, x).

(** No buffer is locked, and the referenced blocks are within [X]. *)
Record quiet (X : gset (Z * Z)) (s : bstate) : Prop := {
  quiet_ok : bcache_ok s;
  quiet_lock : forall x, locked_by s (root x) = None;
  quiet_bound : forall x, refs s (root x) < 2 ^ 31;
  quiet_refs : forall k, 0 < refs s k -> k ∈ X
}.

Section Cache.
Implicit Types (s : bstate) (k : Z * Z) (X : gset (Z * Z)).

Lemma effect_obs s s' k0 v r l k :
  effect s s' k0 v r l -> k.1 = ROOTDEV ->
  obs s' k = if decide (k = k0) then (v, r, l) else obs s k.
Proof.
  intros He Hk. destruct (He k Hk) as (Hv & Hr & Hl). unfold obs. rewrite Hv, Hr, Hl.
  by case_decide.
Qed.

Lemma effect_own s s' k0 v r l :
  effect s s' k0 v r l -> k0.1 = ROOTDEV -> obs s' k0 = (v, r, l).
Proof. intros He Hk. rewrite (effect_obs _ _ _ _ _ _ _ He Hk). by rewrite decide_True. Qed.

Lemma effect_other s s' k0 v r l k :
  effect s s' k0 v r l -> k.1 = ROOTDEV -> k <> k0 -> obs s' k = obs s k.
Proof. intros He Hk Hne. rewrite (effect_obs _ _ _ _ _ _ _ He Hk). by rewrite decide_False. Qed.

Lemma obs_split s k v r l :
  obs s k = (v, r, l) -> view s k = v /\ refs s k = r /\ locked_by s k = l.
Proof. by intros [= -> -> ->]. Qed.

Lemma holds_ne s me i j k k' d d' :
  holds s me i k d -> holds s me j k' d' -> k <> k' -> i <> j.
Proof. intros (_ & _ & Hk & _) (_ & _ & Hk' & _) Hne ->. congruence. Qed.

(** A free buffer is available while fewer than [NBUF] blocks are referenced. *)
Lemma avail s (X : gset (Z * Z)) :
  bcache_ok s -> (forall k, 0 < refs s k -> k ∈ X) -> (base.size X < Z.to_nat NBUF)%nat ->
  exists i, find_unused s = Some i.
Proof. intros H. exact (find_unused_total s X H). Qed.

(** References after [bread] of [k] from a state whose references are in [X]. *)
Lemma refs_within s s' k (v : block) (r : Z) (l : option Z) X :
  bcache_ok s' -> effect s s' k v r l -> (forall k', 0 < refs s k' -> k' ∈ X) ->
  forall k', 0 < refs s' k' -> k' ∈ {[k]} ∪ X.
Proof.
  intros Hok He HX k' Hk'. pose proof (refs_rootdev s' k' Hok Hk') as Hroot.
  destruct (He k' Hroot) as (_ & Hr & _). rewrite Hr in Hk'.
  case_decide as Hd; set_solver.
Qed.

(** Two buffers are held on top of a quiet state: [a] first, then [b]. *)
Lemma two_breads me s X a b :
  quiet X s -> a <> b -> (base.size X < Z.to_nat NBUF)%nat ->
  (0 < refs s (root b) \/ (base.size X + 1 < Z.to_nat NBUF)%nat) ->
  exists i s1 j s2,
    bread me ROOTDEV a s = Ok i s1 /\ bread me ROOTDEV b s1 = Ok j s2 /\ bcache_ok s2 /\
    i <> j /\ holds s2 me i (root a) (view s (root a)) /\
    holds s2 me j (root b) (view s (root b)) /\
    obs s2 (root a) = (view s (root a), refs s (root a) + 1, Some me) /\
    obs s2 (root b) = (view s (root b), refs s (root b) + 1, Some me) /\
    (forall x, x <> a -> x <> b -> obs s2 (root x) = obs s (root x)) /\
    disk s2 = disk s /\ writes s2 = writes s.
Proof.
  intros [Hok Hlk Hbd HX] Hab Hsz Hav.
  pose proof (Hbd a) as Hba. pose proof (Hbd b) as Hbb.
  destruct (bread_effect s me (root a) Hok eq_refl (Hlk a) ltac:(lia) (fun _ => avail s X Hok HX Hsz))
    as (i & s1 & Hr1 & Hok1 & Hh1 & He1 & _ & Hd1 & Hw1).
  assert (Hne : root b <> root a) by (intros [=]; congruence).
  destruct (obs_split _ _ _ _ _ (effect_other _ _ _ _ _ _ (root b) He1 eq_refl Hne)) as (Hv & Hr & Hl).
  destruct (bread_effect s1 me (root b) Hok1 eq_refl) as (j & s2 & Hr2 & Hok2 & Hh2 & He2 & Hkeep & Hd2 & Hw2).
  { by rewrite Hl. }
  { rewrite Hr. lia. }
  { rewrite Hr. intros Hz. destruct Hav as [?|Hav]; [lia|].
    apply (avail s1 ({[root a]} ∪ X)); [done|by eapply refs_within|].
    pose proof (size_union_alt {[root a]} X). rewrite size_singleton in *.
    pose proof (subseteq_size (X ∖ {[root a]}) X ltac:(set_solver)). lia. }
  apply Hkeep in Hh1. rewrite Hv, Hr in *.
  exists i, s1, j, s2. split_and!; try done.
  - by eapply holds_ne.
  - rewrite (effect_other _ _ _ _ _ _ _ He2) by done. by apply (effect_own _ _ _ _ _ _ He1).
  - by apply (effect_own _ _ _ _ _ _ He2).
  - intros x Hxa Hxb. rewrite (effect_other _ _ _ _ _ _ _ He2) by (done || by intros [=]).
    apply (effect_other _ _ _ _ _ _ _ He1); [done|by intros [=]].
  - congruence.
  - congruence.
Qed.

(** Modify and write back a held buffer. *)
Lemma store_block me s i k d (f : block -> block) :
  bcache_ok s -> holds s me i k d -> k.1 = ROOTDEV ->
  exists s1 s2,
    bmodify i f s = Ok tt s1 /\ bwrite me i s1 = Ok tt s2 /\ bcache_ok s2 /\
    holds s2 me i k (f d) /\ effect s s2 k (f d) (refs s k) (Some me) /\
    (forall me' j k' x, j <> i -> holds s me' j k' x -> holds s2 me' j k' x) /\
    disk s2 = <[k.2 := (f d)]> (disk s) /\ writes s2 = writes s ++ [(k.2, (f d))].
Proof.
  intros Hok Hh Hk.
  destruct (bmodify_effect s me i k d f Hok Hh)
    as (s1 & Hr1 & Hok1 & Hh1 & He1 & Hkeep1 & Hd1 & Hw1).
  destruct (bwrite_effect s1 me i k (f d) Hok1 Hh1)
    as (s2 & Hr2 & Hok2 & He2 & Hkeep2 & Hd2 & Hw2).
  exists s1, s2. split_and!; try done; [by apply Hkeep2| |by auto|congruence|congruence].
  intros k' Hk'. destruct (He2 k' Hk') as (Hv & Hr & Hl). rewrite Hv, Hr, Hl.
  destruct (He1 k' Hk') as (Hv1 & Hr1' & Hl1). case_decide; [|done].
  subst k'. by rewrite Hr1'.
Qed.

(** Release two held buffers, [j] first. *)
Lemma release_two me s i j a b da db :
  bcache_ok s -> a <> b -> holds s me i (root a) da -> holds s me j (root b) db ->
  refs s (root a) < 2 ^ 32 -> refs s (root b) < 2 ^ 32 ->
  (refs s (root a) = 1 -> da = disk s a) -> (refs s (root b) = 1 -> db = disk s b) ->
  exists s1 s2, brelse me j s = Ok tt s1 /\ brelse me i s1 = Ok tt s2 /\ bcache_ok s2 /\
    obs s2 (root a) = (da, refs s (root a) - 1, None) /\
    obs s2 (root b) = (db, refs s (root b) - 1, None) /\
    (forall x, x <> a -> x <> b -> obs s2 (root x) = obs s (root x)) /\
    disk s2 = disk s /\ writes s2 = writes s.
Proof.
  intros Hok Hab Hi Hj Hra Hrb Hca Hcb.
  assert (Hne : root a <> root b) by (intros [=]; congruence).
  destruct (brelse_effect s me j (root b) db Hok Hj Hrb Hcb)
    as (s1 & Hr1 & Hok1 & He1 & Hkeep & Hd1 & Hw1).
  assert (Hij : i <> j) by (by eapply holds_ne).
  apply (Hkeep _ _ _ _ Hij) in Hi.
  destruct (obs_split _ _ _ _ _ (effect_other _ _ _ _ _ _ (root a) He1 eq_refl Hne)) as (_ & Hr & _).
  destruct (brelse_effect s1 me i (root a) da Hok1 Hi) as (s2 & Hr2 & Hok2 & He2 & _ & Hd2 & Hw2).
  { by rewrite Hr. }
  { rewrite Hr, Hd1. done. }
  rewrite Hr in He2. exists s1, s2. split_and!; try done; try congruence.
  - by apply (effect_own _ _ _ _ _ _ He2).
  - rewrite (effect_other _ _ _ _ _ _ _ He2) by done. by apply (effect_own _ _ _ _ _ _ He1).
  - intros x Hxa Hxb. rewrite (effect_other _ _ _ _ _ _ _ He2) by (done || by intros [=]).
    apply (effect_other _ _ _ _ _ _ _ He1); [done|by intros [=]].
Qed.

Lemma quiet_keep X s s' :
  quiet X s -> bcache_ok s' ->
  (forall x, refs s' (root x) <= refs s (root x)) ->
  (forall x, locked_by s' (root x) = None) -> quiet X s'.
Proof.
  intros [Hok Hlk Hbd HX] Hok' Hr Hl. split; try done.
  - intros x. specialize (Hr x). specialize (Hbd x). lia.
  - intros k Hk. pose proof (refs_rootdev _ _ Hok' Hk) as Hroot. apply HX.
    destruct k as [d x]. cbn in Hroot. subst d. specialize (Hr x). unfold root in Hr. lia.
Qed.

(** In the new state block [a] holds [v] in the cache and on disk. *)
Definition stored s s' (a : Z) (v : block) : Prop :=
  (forall x, view s' (root x) = if decide (x = a) then v else view s (root x)) /\
  disk s' = <[a := v]> (disk s) /\ writes s' = writes s ++ [(a, v)].

(** One iteration of [write_log]: copy the cached block [b] to log block [a]. *)
Lemma write_one me s X a b :
  quiet X s -> a <> b -> (base.size X < Z.to_nat NBUF)%nat -> 0 < refs s (root b) ->
  exists i s1 j s2 s3 s4 s5 s6,
    bread me ROOTDEV a s = Ok i s1 /\ bread me ROOTDEV b s1 = Ok j s2 /\
    bmodify i (fun _ => bdata (nth_buf s2 j)) s2 = Ok tt s3 /\ bwrite me i s3 = Ok tt s4 /\
    brelse me j s4 = Ok tt s5 /\ brelse me i s5 = Ok tt s6 /\ quiet X s6 /\
    (forall x, refs s6 (root x) = refs s (root x)) /\ stored s s6 a (view s (root b)).
Proof.
  intros Hq Hab Hsz Hpin. pose proof Hq as [Hok Hlk Hbd HX].
  destruct (two_breads me s X a b Hq Hab Hsz (or_introl Hpin))
    as (i & s1 & j & s2 & Hr1 & Hr2 & Hok2 & Hij & Hhi & Hhj & Hoa & Hob & Hox & Hd2 & Hw2).
  pose proof (Hbd a). pose proof (Hbd b). pose proof (refs_nonneg s (root a) Hok).
  assert (Hne : root b <> root a) by (intros [=]; congruence).
  assert (Hdj : bdata (nth_buf s2 j) = view s (root b)) by apply Hhj.
  destruct (store_block me s2 i (root a) _ (fun _ => bdata (nth_buf s2 j)) Hok2 Hhi eq_refl)
    as (s3 & s4 & Hr3 & Hr4 & Hok4 & Hhi4 & He4 & Hkeep & Hd4 & Hw4).
  apply obs_split in Hoa as (Hva & Hra & Hla). apply obs_split in Hob as (Hvb & Hrb & Hlb).
  rewrite Hra in He4.
  destruct (obs_split _ _ _ _ _ (effect_own _ _ _ _ _ _ He4 eq_refl)) as (Hva4 & Hra4 & _).
  destruct (obs_split _ _ _ _ _ (effect_other _ _ _ _ _ _ (root b) He4 eq_refl Hne))
    as (Hvb4 & Hrb4 & _).
  assert (Hhj4 : holds s4 me j (root b) (view s (root b))) by (apply (Hkeep me j); [congruence|done]).
  rewrite Hdj in *.
  destruct (release_two me s4 i j a b (view s (root b)) (view s (root b)) Hok4 Hab Hhi4 Hhj4)
    as (s5 & s6 & Hr5 & Hr6 & Hok6 & Hoa6 & Hob6 & Hox6 & Hd6 & Hw6).
  { lia. }
  { lia. }
  { intros _. rewrite Hd4. cbn. by rewrite fn_lookup_insert. }
  { intros. lia. }
  apply obs_split in Hoa6 as (Hva6 & Hra6 & Hla6). apply obs_split in Hob6 as (Hvb6 & Hrb6 & Hlb6).
  assert (Hall : forall x, obs s6 (root x) = if decide (x = a)
    then (view s (root b), refs s (root a), None) else obs s (root x)).
  { intros x. case_decide as Hxa; [subst; unfold obs; rewrite Hva6, Hra6, Hla6; do 2 f_equal; lia|].
    destruct (decide (x = b)) as [->|Hxb].
    - unfold obs. rewrite Hvb6, Hrb6, Hlb6, Hlk. do 2 f_equal. lia.
    - rewrite Hox6 by done. rewrite (effect_other _ _ _ _ _ _ _ He4) by (done || by intros [=]).
      by apply Hox. }
  assert (Hrefs : forall x, refs s6 (root x) = refs s (root x)).
  { intros x. specialize (Hall x). case_decide; [subst|]; by injection Hall. }
  exists i, s1, j, s2, s3, s4, s5, s6. rewrite Hdj. split_and!; try done.
  - apply (quiet_keep X s); try done; [intros; by rewrite Hrefs|].
    intros x. specialize (Hall x). case_decide; injection Hall; [done|]. by rewrite Hlk.
  - split_and!.
    + intros x. specialize (Hall x). by case_decide; injection Hall.
    + rewrite Hd6, Hd4, Hd2. done.
    + rewrite Hw6, Hw4, Hw2. done.
Qed.

(** One iteration of [install_trans]: copy log block [a] to its home [b]. *)
Lemma install_one me s X a b (recovering : bool) :
  quiet X s -> a <> b -> (base.size X < Z.to_nat NBUF)%nat ->
  (if recovering then (base.size X + 1 < Z.to_nat NBUF)%nat else 0 < refs s (root b)) ->
  exists i s1 j s2 s3 s4 s4' s5 s6,
    bread me ROOTDEV a s = Ok i s1 /\ bread me ROOTDEV b s1 = Ok j s2 /\
    bmodify j (fun _ => bdata (nth_buf s2 i)) s2 = Ok tt s3 /\ bwrite me j s3 = Ok tt s4 /\
    (if recovering then s4' = s4 else bunpin j s4 = Ok tt s4') /\
    brelse me i s4' = Ok tt s5 /\ brelse me j s5 = Ok tt s6 /\ quiet X s6 /\
    (forall x, refs s6 (root x) =
       if negb recovering && bool_decide (x = b) then refs s (root x) - 1 else refs s (root x)) /\
    stored s s6 b (view s (root a)).
Proof.
  intros Hq Hab Hsz Hpin. pose proof Hq as [Hok Hlk Hbd HX].
  destruct (two_breads me s X a b Hq Hab Hsz) as
    (i & s1 & j & s2 & Hr1 & Hr2 & Hok2 & Hij & Hhi & Hhj & Hoa & Hob & Hox & Hd2 & Hw2).
  { destruct recovering; auto. }
  pose proof (Hbd a). pose proof (Hbd b).
  pose proof (refs_nonneg s (root a) Hok). pose proof (refs_nonneg s (root b) Hok).
  assert (Hne : root a <> root b) by (intros [=]; congruence).
  assert (Hdi : bdata (nth_buf s2 i) = view s (root a)) by apply Hhi.
  destruct (store_block me s2 j (root b) _ (fun _ => bdata (nth_buf s2 i)) Hok2 Hhj eq_refl)
    as (s3 & s4 & Hr3 & Hr4 & Hok4 & Hhj4 & He4 & Hkeep & Hd4 & Hw4).
  apply obs_split in Hoa as (Hva & Hra & Hla). apply obs_split in Hob as (Hvb & Hrb & Hlb).
  rewrite Hrb in He4. rewrite Hdi in *.
  assert (Hhi4 : holds s4 me i (root a) (view s (root a))) by (apply (Hkeep me i); [congruence|done]).
  destruct (obs_split _ _ _ _ _ (effect_own _ _ _ _ _ _ He4 eq_refl)) as (_ & Hrb4 & _).
  set (n := if recovering then refs s (root b) + 1 else refs s (root b)).
  assert (exists s4', (if recovering then s4' = s4 else bunpin j s4 = Ok tt s4') /\ bcache_ok s4' /\
    holds s4' me i (root a) (view s (root a)) /\ holds s4' me j (root b) (view s (root a)) /\
    effect s2 s4' (root b) (view s (root a)) n (Some me) /\
    disk s4' = disk s4 /\ writes s4' = writes s4) as (s4' & Hu & Hok5 & Hhi5 & Hhj5 & He5 & Hd5 & Hw5).
  { destruct recovering; [by exists s4|].
    destruct (bunpin_effect s4 me j (root b) _ Hok4 Hhj4) as (s4' & Hu & Hok5 & He5 & Hk5 & Hd5 & Hw5).
    { lia. }
    exists s4'. split_and!; try done; [by apply Hk5|by apply Hk5|].
    intros k Hk. destruct (He5 k Hk) as (-> & -> & ->). destruct (He4 k Hk) as (Hv & Hr & Hl).
    case_decide; [|done]. split_and!; try done. unfold n. lia. }
  destruct (obs_split _ _ _ _ _ (effect_own _ _ _ _ _ _ He5 eq_refl)) as (_ & Hrb5 & _).
  destruct (obs_split _ _ _ _ _ (effect_other _ _ _ _ _ _ (root a) He5 eq_refl Hne)) as (_ & Hra5 & _).
  destruct (release_two me s4' j i b a _ _ Hok5 ltac:(congruence) Hhj5 Hhi5)
    as (s5 & s6 & Hr5 & Hr6 & Hok6 & Hob6 & Hoa6 & Hox6 & Hd6 & Hw6).
  { rewrite Hrb5. unfold n. destruct recovering; lia. }
  { lia. }
  { intros _. rewrite Hd5, Hd4. cbn. by rewrite fn_lookup_insert. }
  { intros Hone. rewrite Hd5, Hd4. cbn. rewrite fn_lookup_insert_ne by done. rewrite Hd2.
    apply unreferenced_view; [done|done|]. lia. }
  apply obs_split in Hoa6 as (Hva6 & Hra6 & Hla6). apply obs_split in Hob6 as (Hvb6 & Hrb6 & Hlb6).
  assert (Hall : forall x, x <> b -> obs s6 (root x) = obs s (root x)).
  { intros x Hxb. destruct (decide (x = a)) as [->|Hxa].
    - unfold obs. rewrite Hva6, Hra6, Hla6, Hlk. do 2 f_equal. lia.
    - rewrite Hox6 by done. rewrite (effect_other _ _ _ _ _ _ _ He5) by (done || by intros [=]).
      by apply Hox. }
  assert (Hrefs : forall x, refs s6 (root x) =
    if negb recovering && bool_decide (x = b) then refs s (root x) - 1 else refs s (root x)).
  { intros x. case_bool_decide as Hxb.
    - subst x. rewrite Hrb6, Hrb5. unfold n. destruct recovering; cbn; lia.
    - rewrite andb_false_r. by injection (Hall x Hxb). }
  exists i, s1, j, s2, s3, s4, s4', s5, s6. rewrite Hdi. split_and!; try done.
  - apply (quiet_keep X s); try done.
    + intros x. rewrite Hrefs. destruct (_ && _); lia.
    + intros x. destruct (decide (x = b)) as [->|Hxb]; [done|].
      injection (Hall x Hxb) as _ _ ->. apply Hlk.
  - split_and!.
    + intros x. case_decide as Hxb; [by subst|]. by injection (Hall x Hxb).
    + rewrite Hd6, Hd5, Hd4, Hd2. done.
    + rewrite Hw6, Hw5, Hw4, Hw2. done.
Qed.
End Cache.

(** ** Sequences of disk writes *)

Definition apply_writes (d : Z -> block) (W : list (Z * block)) : Z -> block :=
  foldl (fun d w => <[w.1 := w.2]> d) d W.

Section Writes.
Implicit Types (d : Z -> block) (W : list (Z * block)).

Lemma apply_writes_app d W W' :
  apply_writes d (W ++ W') = apply_writes (apply_writes d W) W'.
Proof. apply foldl_app. Qed.

Lemma apply_writes_one d a v : apply_writes d [(a, v)] a = v.
Proof. apply fn_lookup_insert. Qed.

Lemma apply_writes_out d W x : x ∉ W.*1 -> apply_writes d W x = d x.
Proof.
  revert d. induction W as [|[a v] W IH]; intros d Hx; [done|].
  cbn in Hx. apply not_elem_of_cons in Hx as [Hxa Hx].
  unfold apply_writes in *. cbn [foldl]. rewrite IH by done. by apply fn_lookup_insert_ne.
Qed.

Lemma apply_writes_in d W x v :
  x ∈ W.*1 -> (forall v', (x, v') ∈ W -> v' = v) -> apply_writes d W x = v.
Proof.
  revert d. induction W as [|[a w] W IH]; intros d Hx Hv; [by apply not_elem_of_nil in Hx|].
  unfold apply_writes in *. cbn [foldl].
  destruct (decide (x ∈ W.*1)) as [Hin|Hnin].
  - apply IH; [done|]. intros v' Hv'. apply Hv. by apply elem_of_cons; right.
  - cbn in Hx. apply elem_of_cons in Hx as [->|Hx]; [|done].
    fold (apply_writes (<[a := w]> d) W). cbn [fst snd]. rewrite apply_writes_out by done.
    rewrite fn_lookup_insert. apply Hv. apply elem_of_cons. by left.
Qed.

Lemma apply_writes_ext d d' W x :
  (forall y, d y = d' y) -> apply_writes d W x = apply_writes d' W x.
Proof.
  revert d d'. induction W as [|[a v] W IH]; intros d d' Heq; [apply Heq|].
  unfold apply_writes in *. cbn [foldl]. apply IH. intros y.
  destruct (decide (y = a)) as [->|].
  - by rewrite !fn_lookup_insert.
  - by rewrite !fn_lookup_insert_ne.
Qed.
End Writes.

(** From [s] to [s'] the blocks [W] were stored, in the cache and on disk. *)
Definition wrote (s s' : bstate) (W : list (Z * block)) : Prop :=
  (forall x, view s' (root x) = apply_writes (fun y => view s (root y)) W x) /\
  disk s' = apply_writes (disk s) W /\ writes s' = writes s ++ W.

Lemma wrote_nil s : wrote s s [].
Proof. unfold wrote. by rewrite app_nil_r. Qed.

Lemma wrote_one s s' a v : stored s s' a v -> wrote s s' [(a, v)].
Proof.
  intros (Hv & Hd & Hw). split_and!; [|done|done]. intros x. rewrite Hv.
  unfold apply_writes. cbn. case_decide as Hx; [subst; by rewrite fn_lookup_insert|].
  by rewrite fn_lookup_insert_ne.
Qed.

Lemma wrote_trans s s1 s2 W W' : wrote s s1 W -> wrote s1 s2 W' -> wrote s s2 (W ++ W').
Proof.
  intros (Hv & Hd & Hw) (Hv' & Hd' & Hw'). split_and!.
  - intros x. rewrite Hv', apply_writes_app. by apply apply_writes_ext.
  - by rewrite Hd', Hd, apply_writes_app.
  - by rewrite Hw', Hw, app_assoc.
Qed.

(** ** The header survives its encoding *)

Section Header.
Implicit Types (b : block) (l : list Z).

Lemma put_blocks_length b i l : length (put_blocks b i l) = length b.
Proof.
  revert b i. induction l as [|x l IH]; intros b i; cbn [put_blocks]; [done|].
  rewrite IH. apply put_le_length.
Qed.

Lemma encode_head_length b l : length (encode_head b l) = length b.
Proof. unfold encode_head. rewrite put_blocks_length. apply put_le_length. Qed.

Lemma put_blocks_before b i l off :
  off + 4 <= 4 + 4 * i -> get32 (put_blocks b i l) off = get32 b off.
Proof.
  revert b i. induction l as [|x l IH]; intros b i Ho; cbn [put_blocks]; [done|].
  rewrite IH by lia. apply get_put_ne. unfold disjoint. lia.
Qed.

Lemma i32_u32 x : - 2 ^ 31 <= x < 2 ^ 31 -> i32 (u32 x) = x.
Proof.
  intros Hx. unfold i32, u32. rewrite Zplus_mod_idemp_l.
  rewrite Z.mod_small by lia. lia.
Qed.

Lemma u32_range x : 0 <= u32 x < 2 ^ 32.
Proof. apply Z.mod_pos_bound. lia. Qed.

Lemma hdr_block_put b i l j x :
  0 <= i -> 4 + 4 * (i + Z.of_nat (length l)) <= Z.of_nat (length b) ->
  l !! j = Some x -> - 2 ^ 31 <= x < 2 ^ 31 ->
  hdr_block (put_blocks b i l) (i + Z.of_nat j) = x.
Proof.
  revert b i j. induction l as [|y l IH]; intros b i j Hi Hl Hj Hx; [done|].
  cbn [put_blocks length] in *. destruct j as [|j]; cbn in Hj.
  - injection Hj as ->. rewrite Z.add_0_r. unfold hdr_block.
    rewrite put_blocks_before by lia. unfold get32, put32.
    rewrite get_put_eq; [by apply i32_u32|lia|lia|apply u32_range].
  - replace (i + Z.of_nat (S j)) with (i + 1 + Z.of_nat j) by lia.
    apply IH; [lia| |done|done]. unfold put32. rewrite put_le_length. lia.
Qed.

Lemma hdr_n_encode b l :
  4 <= Z.of_nat (length b) -> Z.of_nat (length l) < 2 ^ 31 ->
  hdr_n (encode_head b l) = Z.of_nat (length l).
Proof.
  intros Hb Hl. unfold hdr_n, encode_head. rewrite put_blocks_before by lia.
  unfold get32, put32. rewrite get_put_eq; [apply i32_u32; lia|lia|lia|apply u32_range].
Qed.

Lemma hdr_block_encode b l j x :
  4 + 4 * Z.of_nat (length l) <= Z.of_nat (length b) ->
  l !! j = Some x -> - 2 ^ 31 <= x < 2 ^ 31 ->
  hdr_block (encode_head b l) (Z.of_nat j) = x.
Proof.
  intros Hb Hj Hx. unfold encode_head.
  apply (hdr_block_put _ 0 _ j x); [lia| |done|done].
  unfold put32. rewrite put_le_length. lia.
Qed.

(** Reading a header fills the array with the listed blocks. *)
Lemma read_blocks_spec k b i arr :
  0 <= i -> i + Z.of_nat k <= Z.of_nat (length arr) ->
  exists arr', read_blocks k b i arr = Some arr' /\ length arr' = length arr /\
    forall j, 0 <= j -> zget arr' j =
      if decide (i <= j < i + Z.of_nat k) then Some (hdr_block b j) else zget arr j.
Proof.
  revert i arr. induction k as [|k IH]; intros i arr Hi Hl; cbn [read_blocks].
  - exists arr. split_and!; [done|done|]. intros j Hj. rewrite decide_False by lia. done.
  - destruct (zset arr i (hdr_block b i)) as [arr1|] eqn:Hs; [|rewrite zset_in in Hs by lia; done].
    pose proof (zset_length _ _ _ _ Hs) as Hl1.
    destruct (IH (i + 1) arr1) as (arr' & Hr & Hl' & Hg); [lia|lia|].
    exists arr'. split_and!; [done|congruence|]. intros j Hj. rewrite Hg by done.
    destruct (decide (j = i)) as [->|Hne].
    + rewrite decide_False by lia. rewrite decide_True by lia. by eapply zget_zset_eq.
    + rewrite (zget_zset_ne _ _ _ _ _ Hs) by done.
      destruct (decide (i + 1 <= j < i + 1 + Z.of_nat k)), (decide (i <= j < i + Z.of_nat (S k)));
        done || lia.
Qed.
End Header.

(** ** Log operations *)

(** What [write_log] writes, and what [install_trans] writes, for the blocks
    [bs] whose first log block is [a]; [V] gives block contents. *)
Fixpoint log_entries (a : Z) (bs : list Z) (V : Z -> block) : list (Z * block) :=
  match bs with
  | [] => []
  | b :: bs => (a, V b) :: log_entries (a + 1) bs V
  end.

Fixpoint install_entries (a : Z) (bs : list Z) (V : Z -> block) : list (Z * block) :=
  match bs with
  | [] => []
  | b :: bs => (b, V a) :: install_entries (a + 1) bs V
  end.

(** The blocks [bs] lie outside the log blocks [a .. a + length bs - 1]. *)
Definition outside (a : Z) (bs : list Z) : Prop :=
  forall b, b ∈ bs -> b < a \/ a + Z.of_nat (length bs) <= b.

(** Entries [tail ..] of the in-memory header are [bs]. *)
Definition entries (l : log) (tail : Z) (bs : list Z) : Prop :=
  forall j b, bs !! j = Some b -> zget (lh_block l) (tail + Z.of_nat j) = Some b.

Section Ops.
Context (me : Z).
Implicit Types (s : lstate) (X : gset (Z * Z)) (c : bstate).

Lemma on_cache_Ok {A} (m : M bstate A) s a c :
  m (bc s) = Ok a c -> on_cache m s = Ok a {| bc := c; lg := lg s |}.
Proof. unfold on_cache. by intros ->. Qed.

Lemma get_log_run s : get_log s = Ok (lg s) s.
Proof. done. Qed.

Lemma kgets_run {A} (f : lstate -> A) s : kgets f s = Ok (f s) s.
Proof. done. Qed.

Lemma kopt_run {A} (a : A) s : kopt (Some a) s = Ok a s.
Proof. done. Qed.

Lemma log_entries_ext a bs V V' :
  (forall b, b ∈ bs -> V b = V' b) -> log_entries a bs V = log_entries a bs V'.
Proof.
  revert a. induction bs as [|b bs IH]; intros a Heq; cbn; [done|].
  rewrite (Heq b) by set_solver. rewrite IH; [done|]. intros; apply Heq; set_solver.
Qed.

Lemma install_entries_ext a bs V V' :
  (forall x, a <= x < a + Z.of_nat (length bs) -> V x = V' x) ->
  install_entries a bs V = install_entries a bs V'.
Proof.
  revert a. induction bs as [|b bs IH]; intros a Heq; cbn [install_entries length]; [done|].
  rewrite (Heq a) by (cbn; lia). rewrite IH; [done|]. intros; apply Heq. cbn [length]. lia.
Qed.

Lemma entries_tail l tail b bs : entries l tail (b :: bs) -> entries l (tail + 1) bs.
Proof.
  intros He j x Hj. specialize (He (S j) x Hj).
  by replace (tail + 1 + Z.of_nat j) with (tail + Z.of_nat (S j)) by lia.
Qed.

Lemma entries_head l tail b bs : entries l tail (b :: bs) -> zget (lh_block l) tail = Some b.
Proof. intros He. specialize (He 0%nat b eq_refl). by rewrite Z.add_0_r in He. Qed.

Lemma outside_tail a b bs : outside a (b :: bs) -> outside (a + 1) bs.
Proof.
  intros Ho x Hx. specialize (Ho x ltac:(set_solver)). cbn [length] in Ho. lia.
Qed.

(** [write_head] stores the encoded header, and changes no reference. *)
Lemma write_head_spec s X :
  dev (lg s) = ROOTDEV -> quiet X (bc s) -> (base.size X < Z.to_nat NBUF)%nat ->
  exists c, write_head me s = Ok tt {| bc := c; lg := lg s |} /\ quiet X c /\
    (forall x, refs c (root x) = refs (bc s) (root x)) /\
    wrote (bc s) c [(start (lg s),
      encode_head (view (bc s) (root (start (lg s)))) (logged (lg s)))].
Proof.
  intros Hdev Hq Hsz. pose proof Hq as [Hok Hlk Hbd HX].
  set (h := start (lg s)). pose proof (Hbd h). pose proof (refs_nonneg (bc s) (root h) Hok).
  destruct (bread_effect (bc s) me (root h) Hok eq_refl (Hlk h) ltac:(lia)
    (fun _ => avail _ X Hok HX Hsz)) as (i & s1 & H1 & Hok1 & Hh1 & He1 & _ & Hd1 & Hw1).
  destruct (store_block me s1 i (root h) _ (fun b => encode_head b (logged (lg s))) Hok1 Hh1 eq_refl)
    as (s2 & s3 & H2 & H3 & Hok3 & Hh3 & He3 & _ & Hd3 & Hw3).
  destruct (obs_split _ _ _ _ _ (effect_own _ _ _ _ _ _ He1 eq_refl)) as (_ & Hr1 & _).
  destruct (obs_split _ _ _ _ _ (effect_own _ _ _ _ _ _ He3 eq_refl)) as (_ & Hr3 & _).
  destruct (brelse_effect s3 me i (root h) _ Hok3 Hh3) as (s4 & H4 & Hok4 & He4 & _ & Hd4 & Hw4).
  { lia. }
  { intros _. rewrite Hd3. cbn. by rewrite fn_lookup_insert. }
  assert (Hother : forall x, x <> h -> obs s4 (root x) = obs (bc s) (root x)).
  { intros x Hx. rewrite (effect_other _ _ _ _ _ _ _ He4) by (done || by intros [=]).
    rewrite (effect_other _ _ _ _ _ _ _ He3) by (done || by intros [=]).
    apply (effect_other _ _ _ _ _ _ _ He1); [done|by intros [=]]. }
  destruct (obs_split _ _ _ _ _ (effect_own _ _ _ _ _ _ He4 eq_refl)) as (Hv4 & Hr4 & Hl4).
  assert (Hrefs : forall x, refs s4 (root x) = refs (bc s) (root x)).
  { intros x. destruct (decide (x = h)) as [->|Hx]; [lia|]. by injection (Hother x Hx). }
  exists s4. split_and!.
  - unfold write_head. rewrite (kbind_Ok _ _ _ _ _ (get_log_run s)). rewrite Hdev. fold h.
    rewrite (kbind_Ok _ _ _ _ _ (on_cache_Ok _ s _ _ H1)).
    rewrite (kbind_Ok _ _ _ _ _ (on_cache_Ok _ {| bc := s1; lg := lg s |} _ _ H2)). cbn [lg].
    rewrite (kbind_Ok _ _ _ _ _ (on_cache_Ok _ {| bc := s2; lg := lg s |} _ _ H3)). cbn [lg].
    apply (on_cache_Ok _ {| bc := s3; lg := lg s |} _ _ H4).
  - apply (quiet_keep X (bc s)); try done; [intros; by rewrite Hrefs|].
    intros x. destruct (decide (x = h)) as [->|Hx]; [done|].
    injection (Hother x Hx) as _ _ ->. apply Hlk.
  - done.
  - apply wrote_one. split_and!.
    + intros x. case_decide as Hx; [by subst|]. by injection (Hother x Hx).
    + rewrite Hd4, Hd3, Hd1. done.
    + rewrite Hw4, Hw3, Hw1. done.
Qed.

(** [read_head] loads the header from a disk whose cache is quiet. *)
Lemma read_head_spec s X :
  let b := view (bc s) (root (start (lg s))) in
  dev (lg s) = ROOTDEV -> quiet X (bc s) -> (base.size X < Z.to_nat NBUF)%nat ->
  0 <= hdr_n b <= Z.of_nat (length (lh_block (lg s))) ->
  exists c arr, read_head me s = Ok tt {| bc := c; lg := with_lh (lg s) (hdr_n b) arr |} /\
    quiet X c /\ (forall x, refs c (root x) = refs (bc s) (root x)) /\ wrote (bc s) c [] /\
    length arr = length (lh_block (lg s)) /\
    (forall j, 0 <= j < hdr_n b -> zget arr j = Some (hdr_block b j)).
Proof.
  intros b Hdev Hq Hsz Hn. pose proof Hq as [Hok Hlk Hbd HX].
  set (h := start (lg s)) in *. pose proof (Hbd h). pose proof (refs_nonneg (bc s) (root h) Hok).
  destruct (bread_effect (bc s) me (root h) Hok eq_refl (Hlk h) ltac:(lia)
    (fun _ => avail _ X Hok HX Hsz)) as (i & s1 & H1 & Hok1 & Hh1 & He1 & _ & Hd1 & Hw1).
  destruct (obs_split _ _ _ _ _ (effect_own _ _ _ _ _ _ He1 eq_refl)) as (_ & Hr1 & _).
  destruct (brelse_effect s1 me i (root h) _ Hok1 Hh1) as (s2 & H2 & Hok2 & He2 & _ & Hd2 & Hw2).
  { lia. }
  { intros Hone. rewrite Hd1. apply unreferenced_view; [done|done|lia]. }
  assert (Hall : forall x, obs s2 (root x) = obs (bc s) (root x)).
  { intros x. destruct (decide (x = h)) as [->|Hx].
    - rewrite (effect_own _ _ _ _ _ _ He2) by done. unfold obs. rewrite Hlk, Hr1.
      do 2 f_equal. lia.
    - rewrite (effect_other _ _ _ _ _ _ _ He2) by (done || by intros [=]).
      apply (effect_other _ _ _ _ _ _ _ He1); [done|by intros [=]]. }
  assert (Hb : bdata (nth_buf s1 i) = b) by apply Hh1.
  destruct (read_blocks_spec (Z.to_nat (hdr_n b)) b 0 (lh_block (lg s))) as (arr & Ha & Hl & Hg);
    [lia|lia|].
  exists s2, arr. split_and!; try done.
  - unfold read_head. rewrite (kbind_Ok _ _ _ _ _ (get_log_run s)). rewrite Hdev. fold h.
    rewrite (kbind_Ok _ _ _ _ _ (on_cache_Ok _ s _ _ H1)).
    rewrite (kbind_Ok _ _ _ _ _ (kgets_run _ {| bc := s1; lg := lg s |})). cbn [bc].
    rewrite Hb, Ha. rewrite (kbind_Ok _ _ _ _ _ (kopt_run arr _)).
    erewrite (kbind_Ok (put_log _)) by reflexivity. cbn [bc].
    apply (on_cache_Ok _ {| bc := s1; lg := with_lh (lg s) (hdr_n b) arr |} _ _ H2).
  - apply (quiet_keep X (bc s)); try done; intros x; injection (Hall x) as _ Hr Hl'; [lia|].
    by rewrite Hl'.
  - intros x. by injection (Hall x).
  - split_and!.
    + intros x. by injection (Hall x).
    + by rewrite Hd2, Hd1.
    + rewrite Hw2, Hw1. by rewrite app_nil_r.
  - intros j Hj. rewrite Hg by lia. by rewrite decide_True by lia.
Qed.

Lemma write_log_loop_spec bs tail s X :
  dev (lg s) = ROOTDEV -> quiet X (bc s) -> (base.size X < Z.to_nat NBUF)%nat ->
  entries (lg s) tail bs -> (forall b, b ∈ bs -> 0 < refs (bc s) (root b)) ->
  outside (start (lg s) + tail + 1) bs ->
  exists c, write_log_loop me (length bs) tail s = Ok tt {| bc := c; lg := lg s |} /\
    quiet X c /\ (forall x, refs c (root x) = refs (bc s) (root x)) /\
    wrote (bc s) c
      (log_entries (start (lg s) + tail + 1) bs (fun b => view (bc s) (root b))).
Proof.
  intros Hdev. revert tail s Hdev. induction bs as [|b bs IH];
    intros tail s Hdev Hq Hsz He Hpin Hout; cbn [write_log_loop length].
  { exists (bc s). split; [by destruct s|]. split_and!; [done|done|apply wrote_nil]. }
  destruct (write_one me (bc s) X (start (lg s) + tail + 1) b Hq) as
    (i & s1 & j & s2 & s3 & s4 & s5 & s6 & H1 & H2 & H3 & H4 & H5 & H6 & Hq6 & Hr6 & Hst); [|done| |].
  { specialize (Hout b ltac:(set_solver)). cbn [length] in Hout. lia. }
  { apply Hpin. set_solver. }
  rewrite (kbind_Ok _ _ _ _ _ (get_log_run s)).
  rewrite (entries_head _ _ _ _ He), Hdev. rewrite (kbind_Ok _ _ _ _ _ (kopt_run b s)).
  rewrite (kbind_Ok _ _ _ _ _ (on_cache_Ok _ s _ _ H1)).
  rewrite (kbind_Ok _ _ _ _ _ (on_cache_Ok _ {| bc := s1; lg := lg s |} _ _ H2)). cbn [lg].
  rewrite (kbind_Ok _ _ _ _ _ (kgets_run _ {| bc := s2; lg := lg s |})). cbn [bc].
  rewrite (kbind_Ok _ _ _ _ _ (on_cache_Ok _ {| bc := s2; lg := lg s |} _ _ H3)). cbn [lg].
  rewrite (kbind_Ok _ _ _ _ _ (on_cache_Ok _ {| bc := s3; lg := lg s |} _ _ H4)). cbn [lg].
  rewrite (kbind_Ok _ _ _ _ _ (on_cache_Ok _ {| bc := s4; lg := lg s |} _ _ H5)). cbn [lg].
  rewrite (kbind_Ok _ _ _ _ _ (on_cache_Ok _ {| bc := s5; lg := lg s |} _ _ H6)). cbn [lg].
  destruct (IH (tail + 1) {| bc := s6; lg := lg s |}) as (c & Hc & Hqc & Hrc & Hwc); cbn [lg bc].
  - done.
  - done.
  - done.
  - by eapply entries_tail.
  - intros x Hx. rewrite Hr6. apply Hpin. set_solver.
  - replace (start (lg s) + (tail + 1) + 1) with (start (lg s) + tail + 1 + 1) by lia.
    by eapply outside_tail.
  - exists c. split_and!; [done|done|intros x; by rewrite Hrc, Hr6|].
    cbn [lg bc] in Hwc. cbn [log_entries]. change (?p :: ?l) with ([p] ++ l).
    apply wrote_trans with s6; [by apply wrote_one|].
    replace (start (lg s) + tail + 1 + 1) with (start (lg s) + (tail + 1) + 1) by lia.
    erewrite log_entries_ext; [exact Hwc|]. intros x Hx. cbn.
    destruct Hst as (Hv & _). rewrite Hv, decide_False; [done|].
    specialize (Hout x ltac:(set_solver)). cbn [length] in Hout. lia.
Qed.

Lemma install_loop_spec bs tail s X (recovering : bool) :
  dev (lg s) = ROOTDEV -> quiet X (bc s) ->
  (base.size X + (if recovering then 1 else 0) < Z.to_nat NBUF)%nat ->
  entries (lg s) tail bs -> NoDup bs ->
  (recovering = false -> forall b, b ∈ bs -> 0 < refs (bc s) (root b)) ->
  outside (start (lg s) + tail + 1) bs ->
  exists c, install_loop me (length bs) recovering tail s = Ok tt {| bc := c; lg := lg s |} /\
    quiet X c /\
    wrote (bc s) c
      (install_entries (start (lg s) + tail + 1) bs (fun b => view (bc s) (root b))).
Proof.
  intros Hdev. revert tail s Hdev. induction bs as [|b bs IH];
    intros tail s Hdev Hq Hsz He Hnd Hpin Hout; cbn [install_loop length].
  { exists (bc s). split; [by destruct s|]. split_and!; [done|apply wrote_nil]. }
  destruct (install_one me (bc s) X (start (lg s) + tail + 1) b recovering Hq) as
    (i & s1 & j & s2 & s3 & s4 & s4' & s5 & s6 & H1 & H2 & H3 & H4 & Hu & H5 & H6 & Hq6 & Hr6 & Hst).
  { specialize (Hout b ltac:(set_solver)). cbn [length] in Hout. lia. }
  { destruct recovering; lia. }
  { destruct recovering; [lia|]. apply Hpin; [done|set_solver]. }
  rewrite (kbind_Ok _ _ _ _ _ (get_log_run s)).
  rewrite (entries_head _ _ _ _ He), Hdev. rewrite (kbind_Ok _ _ _ _ _ (kopt_run b s)).
  rewrite (kbind_Ok _ _ _ _ _ (on_cache_Ok _ s _ _ H1)).
  rewrite (kbind_Ok _ _ _ _ _ (on_cache_Ok _ {| bc := s1; lg := lg s |} _ _ H2)). cbn [lg].
  rewrite (kbind_Ok _ _ _ _ _ (kgets_run _ {| bc := s2; lg := lg s |})). cbn [bc].
  rewrite (kbind_Ok _ _ _ _ _ (on_cache_Ok _ {| bc := s2; lg := lg s |} _ _ H3)). cbn [lg].
  rewrite (kbind_Ok _ _ _ _ _ (on_cache_Ok _ {| bc := s3; lg := lg s |} _ _ H4)). cbn [lg].
  rewrite (kbind_Ok _ _ _ tt {| bc := s4'; lg := lg s |}).
  2: { destruct recovering; [by subst|]. exact (on_cache_Ok _ {| bc := s4; lg := lg s |} _ _ Hu). }
  rewrite (kbind_Ok _ _ _ _ _ (on_cache_Ok _ {| bc := s4'; lg := lg s |} _ _ H5)). cbn [lg].
  rewrite (kbind_Ok _ _ _ _ _ (on_cache_Ok _ {| bc := s5; lg := lg s |} _ _ H6)). cbn [lg].
  pose proof (NoDup_cons_1_1 _ _ Hnd) as Hnin. apply NoDup_cons_1_2 in Hnd.
  destruct (IH (tail + 1) {| bc := s6; lg := lg s |}) as (c & Hc & Hqc & Hwc); cbn [lg bc]; try done.
  - by eapply entries_tail.
  - intros -> x Hx. rewrite Hr6. cbn. rewrite bool_decide_false by (by intros ->).
    apply Hpin; [done|set_solver].
  - replace (start (lg s) + (tail + 1) + 1) with (start (lg s) + tail + 1 + 1) by lia.
    by eapply outside_tail.
  - exists c. split_and!; [done|done|].
    cbn [lg bc] in Hwc. cbn [install_entries]. change (?p :: ?l) with ([p] ++ l).
    apply wrote_trans with s6; [by apply wrote_one|].
    replace (start (lg s) + tail + 1 + 1) with (start (lg s) + (tail + 1) + 1) by lia.
    erewrite install_entries_ext; [exact Hwc|]. intros x Hx. cbn.
    destruct Hst as (Hv & _). rewrite Hv, decide_False; [done|].
    specialize (Hout b ltac:(set_solver)). cbn [length] in Hout. lia.
Qed.
End Ops.

(** ** Commit *)

Definition home_entries (bs : list Z) (V : Z -> block) : list (Z * block) :=
  (fun b => (b, V b)) <$> bs.

(** The disk writes of a commit, in order: the log blocks, the header, the home
    locations, the cleared header. *)
Definition commit_writes (st : Z) (bs : list Z) (V : Z -> block) : list (Z * block) :=
  log_entries (st + 1) bs V ++ [(st, encode_head (V st) bs)] ++
  home_entries bs V ++ [(st, encode_head (encode_head (V st) bs) [])].

(** A transaction of the blocks [bs] is ready to commit: they are distinct,
    pinned in the cache and outside the log area, nothing is locked, and there
    is a buffer to spare. *)
Record ready (X : gset (Z * Z)) (s : lstate) (bs : list Z) : Prop := {
  rdy_dev : dev (lg s) = ROOTDEV;
  rdy_quiet : quiet X (bc s);
  rdy_size : (base.size X < Z.to_nat NBUF)%nat;
  rdy_n : lh_n (lg s) = Z.of_nat (length bs);
  rdy_bs : logged (lg s) = bs;
  rdy_pos : bs <> [];
  rdy_nodup : NoDup bs;
  rdy_pinned : forall b, b ∈ bs -> 0 < refs (bc s) (root b);
  rdy_outside : outside (start (lg s) + 1) bs;
  rdy_start : start (lg s) ∉ bs
}.

Section CommitLemmas.
Implicit Types (V d : Z -> block) (bs : list Z).

Lemma log_entries_fst a bs V x :
  x ∈ (log_entries a bs V).*1 <-> a <= x < a + Z.of_nat (length bs).
Proof.
  revert a. induction bs as [|b bs IH]; intros a; cbn [log_entries fmap list_fmap length].
  - rewrite elem_of_nil. lia.
  - rewrite elem_of_cons. cbn [fst]. rewrite IH. lia.
Qed.

Lemma log_entries_apply d a bs V j b :
  bs !! j = Some b -> apply_writes d (log_entries a bs V) (a + Z.of_nat j) = V b.
Proof.
  revert d a j. induction bs as [|c bs IH]; intros d a j Hj; [done|].
  cbn [log_entries]. destruct j as [|j]; cbn in Hj.
  - injection Hj as ->. rewrite Z.add_0_r. change (?p :: ?l) with ([p] ++ l).
    rewrite apply_writes_app, apply_writes_out.
    + unfold apply_writes. cbn. apply fn_lookup_insert.
    + rewrite log_entries_fst. lia.
  - change (?p :: ?l) with ([p] ++ l). rewrite apply_writes_app.
    replace (a + Z.of_nat (S j)) with (a + 1 + Z.of_nat j) by lia. by apply IH.
Qed.

Lemma install_home a bs V V' :
  (forall j b, bs !! j = Some b -> V' (a + Z.of_nat j) = V b) ->
  install_entries a bs V' = home_entries bs V.
Proof.
  revert a. induction bs as [|b bs IH]; intros a Hv; [done|].
  cbn [install_entries home_entries fmap list_fmap]. f_equal.
  - rewrite <- (Hv 0%nat b eq_refl). do 2 f_equal. lia.
  - apply IH. intros j c Hj. rewrite <- (Hv (S j) c Hj). f_equal. lia.
Qed.

Lemma logged_entries l bs :
  lh_n l = Z.of_nat (length bs) -> logged l = bs -> entries l 0 bs.
Proof.
  intros Hn Hl j b Hj. rewrite <- Hl in Hj. unfold logged in Hj.
  pose proof (lookup_lt_Some _ _ _ Hj) as Hlt. rewrite length_take in Hlt.
  rewrite lookup_take_lt in Hj by lia. apply zget_Some.
  split; [lia|]. by rewrite Z.add_0_l, Nat2Z.id.
Qed.

Lemma home_entries_fst bs V : (home_entries bs V).*1 = bs.
Proof.
  unfold home_entries. rewrite <- list_fmap_compose. rewrite <- (list_fmap_id bs) at 2.
  by apply list_fmap_ext.
Qed.
End CommitLemmas.

Lemma commit_spec me s X bs :
  ready X s bs ->
  exists c, commit me s = Ok tt {| bc := c; lg := with_lh (lg s) 0 (lh_block (lg s)) |} /\
    quiet X c /\
    wrote (bc s) c (commit_writes (start (lg s)) bs (fun x => view (bc s) (root x))).
Proof.
  intros [Hdev Hq Hsz Hn Hbs Hpos Hnd Hpin Hout Hst]. set (V := fun x => view (bc s) (root x)).
  assert (Hlen : 0 < Z.of_nat (length bs)) by (destruct bs; [done|cbn; lia]).
  pose proof (logged_entries _ _ Hn Hbs) as He.
  assert (Hout' : outside (start (lg s) + 0 + 1) bs) by (by rewrite Z.add_0_r).
  unfold commit. rewrite (kbind_Ok _ _ _ _ _ (get_log_run s)). rewrite Hn.
  destruct (Z.ltb_spec 0 (Z.of_nat (length bs))); [|lia].
  destruct (write_log_loop_spec me bs 0 s X Hdev Hq Hsz He Hpin Hout') as (c1 & H1 & Hq1 & Hr1 & Hw1).
  rewrite Z.add_0_r in Hw1. fold V in Hw1.
  erewrite (kbind_Ok (write_log me)).
  2: { unfold write_log. rewrite (kbind_Ok _ _ _ _ _ (get_log_run s)).
       rewrite Hn, Nat2Z.id. exact H1. }
  destruct (write_head_spec me {| bc := c1; lg := lg s |} X Hdev Hq1 Hsz) as (c2 & H2 & Hq2 & Hr2 & Hw2).
  rewrite (kbind_Ok _ _ _ _ _ H2). cbn [bc lg] in *. rewrite Hbs in Hw2.
  assert (Hv1 : view c1 (root (start (lg s))) = V (start (lg s))).
  { destruct Hw1 as (Hv & _). rewrite Hv. apply apply_writes_out. rewrite log_entries_fst. lia. }
  rewrite Hv1 in Hw2.
  destruct (install_loop_spec me bs 0 {| bc := c2; lg := lg s |} X false Hdev Hq2
    ltac:(rewrite Nat.add_0_r; exact Hsz) He Hnd)
    as (c3 & H3 & Hq3 & Hw3); [|done|].
  { intros _ b Hb. cbn. rewrite Hr2, Hr1. by apply Hpin. }
  erewrite (kbind_Ok (install_trans me false)).
  2: { unfold install_trans. rewrite (kbind_Ok _ _ _ _ _ (get_log_run _)). cbn [lg].
       rewrite Hn, Nat2Z.id. exact H3. }
  rewrite (kbind_Ok _ _ _ _ _ (get_log_run _)). cbn [lg bc] in *.
  set (l0 := with_lh (lg s) 0 (lh_block (lg s))).
  rewrite (kbind_Ok (put_log l0) _ {| bc := c3; lg := lg s |} tt {| bc := c3; lg := l0 |} eq_refl).
  destruct (write_head_spec me {| bc := c3; lg := l0 |} X Hdev Hq3 Hsz) as (c4 & H4 & Hq4 & Hr4 & Hw4).
  exists c4. split; [exact H4|]. split; [done|]. cbn [bc lg] in *.
  assert (Hinst : install_entries (start (lg s) + 0 + 1) bs (fun b => view c2 (root b))
    = home_entries bs V).
  { apply install_home. intros j b Hj. destruct Hw2 as (Hv & _). rewrite Hv.
    rewrite apply_writes_out by (cbn; rewrite list_elem_of_singleton; lia).
    destruct Hw1 as (Hv1' & _). rewrite Hv1'. rewrite Z.add_0_r. by apply log_entries_apply. }
  rewrite Hinst in Hw3.
  assert (Hv3 : view c3 (root (start (lg s))) = encode_head (V (start (lg s))) bs).
  { destruct Hw3 as (Hv & _). rewrite Hv, apply_writes_out by (by rewrite home_entries_fst).
    destruct Hw2 as (Hv' & _). rewrite Hv'. unfold apply_writes. cbn. apply fn_lookup_insert. }
  unfold l0 in Hw4. cbn [start logged with_lh lh_n lh_block] in Hw4. rewrite Hv3 in Hw4.
  unfold commit_writes. eapply wrote_trans; [exact Hw1|]. eapply wrote_trans; [exact Hw2|].
  eapply wrote_trans; [exact Hw3|exact Hw4].
Qed.

(** ** Recovery *)

(** The blocks a header lists. *)
Definition hdr_list (b : block) : list Z := hdr_block b <$> seqZ 0 (hdr_n b).

Lemma hdr_list_encode b bs :
  Z.of_nat (length b) = BSIZE -> Z.of_nat (length bs) <= LOGSIZE ->
  Forall (fun x => 0 <= x < 2 ^ 31) bs -> hdr_list (encode_head b bs) = bs.
Proof.
  intros Hb Hl Hall. unfold hdr_list, LOGSIZE, MAXOPBLOCKS, BSIZE in *.
  rewrite hdr_n_encode by lia. apply list_eq. intros j.
  destruct (decide (j < length bs)%nat) as [Hj|Hj].
  - destruct (lookup_lt_is_Some_2 bs j Hj) as [x Hx]. rewrite Hx.
    apply list_lookup_fmap_Some. exists (Z.of_nat j).
    split; [|apply lookup_seqZ; lia]. symmetry. apply hdr_block_encode; [lia|done|].
    pose proof (Forall_lookup_1 _ _ _ _ Hall Hx). cbn in *. lia.
  - rewrite !lookup_ge_None_2; [done| |]; rewrite ?length_fmap, ?length_seqZ; lia.
Qed.

Lemma quiet_boot d : quiet ∅ (binit d).
Proof.
  assert (Hn : forall i, refcnt (nth_buf (binit d) i) = 0 /\ lock (nth_buf (binit d) i) = initsleeplock).
  { intros i. unfold nth_buf. destruct (zget _ i) as [b|] eqn:Hz; [|done].
    apply zget_Some in Hz as [_ Hz]. by apply lookup_replicate in Hz as [-> _]. }
  split.
  - apply binit_ok.
  - intros x. unfold locked_by. destruct (find_cached _ _ _) as [i|]; [|done].
    by rewrite (proj2 (Hn i)).
  - intros x. unfold refs. destruct (find_cached _ _ _) as [i|]; [|done]. by rewrite (proj1 (Hn i)).
  - intros k. unfold refs. destruct (find_cached _ _ _) as [i|]; [|done]. rewrite (proj1 (Hn i)). done.
Qed.

Lemma boot_view d x : view (binit d) (root x) = d x.
Proof.
  apply (unreferenced_view (binit d) (root x)); [apply binit_ok|done|].
  pose proof (refs_nonneg _ (root x) (binit_ok d)).
  destruct (decide (0 < refs (binit d) (root x))) as [Hp|]; [|lia].
  by apply (quiet_refs _ _ (quiet_boot d)), not_elem_of_empty in Hp.
Qed.

Lemma recover_spec me d l :
  let st := start l in
  dev l = ROOTDEV -> 0 <= hdr_n (d st) <= Z.of_nat (length (lh_block l)) ->
  NoDup (hdr_list (d st)) -> outside (st + 1) (hdr_list (d st)) -> st ∉ hdr_list (d st) ->
  exists c l', recover_from_log me {| bc := binit d; lg := l |} = Ok tt {| bc := c; lg := l' |} /\
    lh_n l' = 0 /\
    disk c = apply_writes d (install_entries (st + 1) (hdr_list (d st)) d ++
                             [(st, encode_head (d st) [])]).
Proof.
  intros st Hdev Hn Hnd Hout Hst.
  assert (Hsz : (base.size (∅ : gset (Z * Z)) < Z.to_nat NBUF)%nat)
    by (rewrite size_empty; vm_compute; lia).
  assert (Hlen : length (hdr_list (d st)) = Z.to_nat (hdr_n (d st)))
    by (unfold hdr_list; by rewrite length_fmap, length_seqZ).
  destruct (read_head_spec me {| bc := binit d; lg := l |} ∅ Hdev (quiet_boot d) Hsz)
    as (c1 & arr & H1 & Hq1 & Hr1 & Hw1 & Hla & Hga); cbn [bc lg] in *; rewrite ?boot_view in *; [done|].
  fold st in H1, Hga.
  unfold recover_from_log. rewrite (kbind_Ok _ _ _ _ _ H1).
  set (l1 := with_lh l (hdr_n (d st)) arr) in *.
  assert (Hv1 : forall x, view c1 (root x) = d x).
  { intros x. destruct Hw1 as (Hv & _). rewrite Hv. cbn. apply boot_view. }
  destruct (install_loop_spec me (hdr_list (d st)) 0 {| bc := c1; lg := l1 |} ∅ true Hdev Hq1)
    as (c2 & H2 & Hq2 & Hw2); cbn [bc lg]; try done.
  { rewrite size_empty. vm_compute. lia. }
  { intros j b Hj. apply list_lookup_fmap_Some in Hj as (x & -> & Hx).
    apply lookup_seqZ in Hx as [-> Hx]. rewrite !Z.add_0_l. apply Hga. lia. }
  { by rewrite Z.add_0_r. }
  erewrite (kbind_Ok (install_trans me true)).
  2: { unfold install_trans. rewrite (kbind_Ok _ _ _ _ _ (get_log_run _)). cbn [lg].
       unfold l1 at 1. cbn [lh_n with_lh]. rewrite <- Hlen. exact H2. }
  rewrite (kbind_Ok _ _ _ _ _ (get_log_run _)). cbn [lg bc] in *.
  set (l2 := with_lh l1 0 (lh_block l1)).
  rewrite (kbind_Ok (put_log l2) _ {| bc := c2; lg := l1 |} tt {| bc := c2; lg := l2 |} eq_refl).
  destruct (write_head_spec me {| bc := c2; lg := l2 |} ∅ Hdev Hq2 Hsz) as (c3 & H3 & Hq3 & Hr3 & Hw3).
  exists c3, l2. split; [exact H3|]. split; [done|]. cbn [bc lg] in *.
  assert (Hins : install_entries (start l1 + 0 + 1) (hdr_list (d st)) (fun b => view c1 (root b))
    = install_entries (st + 1) (hdr_list (d st)) d).
  { rewrite Z.add_0_r. apply install_entries_ext. intros. apply Hv1. }
  rewrite Hins in Hw2.
  assert (Hv2 : view c2 (root (start l2)) = d st).
  { destruct Hw2 as (Hv & _). rewrite Hv, apply_writes_out; [apply Hv1|].
    assert (Hfst : forall a bs V, (install_entries a bs V).*1 = bs).
    { clear. intros a bs V. revert a. induction bs as [|b bs IH]; intros a; [done|].
      cbn. by f_equal. }
    by rewrite Hfst. }
  rewrite Hv2 in Hw3. destruct Hw3 as (_ & -> & _). destruct Hw2 as (_ & -> & _).
  destruct Hw1 as (_ & -> & _). by rewrite apply_writes_app.
Qed.

(** ** Crashes *)

Section Crash.
Implicit Types (d V : Z -> block) (bs : list Z) (P : list (Z * block)).

Lemma install_entries_fst a bs V : (install_entries a bs V).*1 = bs.
Proof. revert a. induction bs as [|b bs IH]; intros a; cbn; [done|]. by f_equal. Qed.

Lemma install_home_writes d a bs V V' x :
  (forall j b, bs !! j = Some b -> V' (a + Z.of_nat j) = V b) ->
  apply_writes d (install_entries a bs V') x = if bool_decide (x ∈ bs) then V x else d x.
Proof.
  intros Hv. rewrite (install_home a bs V V' Hv). case_bool_decide as Hx.
  - apply apply_writes_in; [by rewrite home_entries_fst|].
    intros v' Hv'. unfold home_entries in Hv'. by apply list_elem_of_fmap in Hv' as (b & [= -> ->] & _).
  - apply apply_writes_out. by rewrite home_entries_fst.
Qed.

Lemma prefix_app_inv {A} (P Q R : list A) :
  P `prefix_of` Q ++ R -> (length P <= length Q)%nat /\ P `prefix_of` Q \/
  (length Q < length P)%nat /\ exists P' : list A, P = Q ++ P' /\ P' `prefix_of` R.
Proof.
  revert P. induction Q as [|q Q IH]; intros P HP.
  - destruct P as [|p P]; [left; split; [done|apply prefix_nil]|].
    right. split; [cbn; lia|]. by exists (p :: P).
  - destruct P as [|p P]; [left; split; [cbn; lia|apply prefix_nil]|].
    cbn in HP. pose proof (prefix_cons_inv_1 _ _ _ _ HP) as ->.
    apply prefix_cons_inv_2 in HP. destruct (IH P HP) as [[Hl Hp]|[Hl (P' & -> & Hp)]].
    + left. split; [cbn; lia|]. by apply prefix_cons.
    + right. split; [cbn; lia|]. by exists P'.
Qed.

Lemma prefix_fst P W x : P `prefix_of` W -> x ∈ P.*1 -> x ∈ W.*1.
Proof. intros [R ->] Hx. rewrite fmap_app. set_solver. Qed.

(** The home blocks after the crash: old ones before the header is written, and
    then each block either old or new. *)
Lemma crash_homes d st bs V P :
  outside (st + 1) bs -> st ∉ bs -> P `prefix_of` commit_writes st bs V ->
  let D := apply_writes d P in
  forall x, x < st \/ st + Z.of_nat (length bs) < x ->
    D x = d x \/ (x ∈ bs /\ D x = V x).
Proof.
  intros Hout Hst HP D x Hx. unfold D. destruct (decide (x ∈ P.*1)) as [Hin|Hnin].
  - right. assert (Hval : forall v, (x, v) ∈ P -> x ∈ bs /\ v = V x).
    { intros v Hv. destruct HP as [R HR].
      assert (Hw : (x, v) ∈ commit_writes st bs V) by (rewrite HR; set_solver).
      unfold commit_writes in Hw. rewrite !elem_of_app, !list_elem_of_singleton in Hw.
      destruct Hw as [Hw|[Hw|[Hw|Hw]]].
      - apply (list_elem_of_fmap_2 fst), log_entries_fst in Hw. cbn in Hw. lia.
      - injection Hw as -> _. lia.
      - unfold home_entries in Hw. by apply list_elem_of_fmap in Hw as (b & [= -> ->] & ?).
      - injection Hw as -> _. lia. }
    apply list_elem_of_fmap in Hin as ([y v] & -> & Hin). cbn in *.
    destruct (Hval v Hin) as [Hb Hv']. split; [done|].
    apply apply_writes_in; [by apply (list_elem_of_fmap_2 fst) in Hin|].
    intros v' Hv''. by apply Hval.
  - left. by apply apply_writes_out.
Qed.

(** The header and the log blocks after a crash in a commit. *)
Lemma crash_header d st bs V P :
  Z.of_nat (length (V st)) = BSIZE -> Z.of_nat (length bs) <= LOGSIZE ->
  Forall (fun x => 0 <= x < 2 ^ 31) bs -> outside (st + 1) bs -> st ∉ bs ->
  hdr_n (d st) = 0 -> P `prefix_of` commit_writes st bs V ->
  let D := apply_writes d P in
  ((length P <= length bs)%nat /\ hdr_n (D st) = 0 /\
     (forall x, x < st \/ st + Z.of_nat (length bs) < x -> D x = d x)) \/
  ((length bs < length P)%nat /\ hdr_list (D st) = bs /\ hdr_n (D st) = Z.of_nat (length bs) /\
     (forall j b, bs !! j = Some b -> D (st + 1 + Z.of_nat j) = V b)) \/
  ((length bs < length P)%nat /\ hdr_n (D st) = 0 /\ (forall x, x ∈ bs -> D x = V x)).
Proof.
  intros Hb Hl Hall Hout Hst H0 HP D. unfold commit_writes in HP.
  assert (Hlog : length (log_entries (st + 1) bs V) = length bs).
  { generalize (st + 1). clear. induction bs as [|b bs IH]; intros a; cbn; [done|]. by rewrite IH. }
  assert (Hbnd : 4 <= Z.of_nat (length (V st)) /\ Z.of_nat (length bs) < 2 ^ 31)
    by (unfold BSIZE, LOGSIZE, MAXOPBLOCKS in *; lia).
  apply prefix_app_inv in HP as [[HlP HP]|[HlP (P1 & HP1 & HP)]]; rewrite Hlog in HlP.
  { left. split; [done|]. assert (Hnot : forall x, x < st + 1 \/ st + Z.of_nat (length bs) < x -> D x = d x).
    { intros x Hx. apply apply_writes_out. intros Hin. apply (prefix_fst _ _ _ HP) in Hin.
      apply log_entries_fst in Hin. lia. }
    split; [by rewrite Hnot by lia|]. intros x Hx. apply Hnot. lia. }
  right. unfold D. clear D. subst P. rewrite apply_writes_app.
  set (d1 := apply_writes d (log_entries (st + 1) bs V)).
  assert (Hd1 : forall j b, bs !! j = Some b -> d1 (st + 1 + Z.of_nat j) = V b)
    by (intros; by apply log_entries_apply).
  assert (P1 <> []). { intros ->. rewrite app_nil_r in HlP. lia. }
  apply prefix_app_inv in HP as [[Hc HP]|[_ (P2 & -> & HP)]].
  { destruct P1 as [|p [|]]; cbn in Hc; try done; try lia.
    apply prefix_cons_inv_1 in HP as ->. left. split; [done|].
    assert (Hh : apply_writes d1 [(st, encode_head (V st) bs)] st = encode_head (V st) bs)
      by (unfold apply_writes; cbn; apply fn_lookup_insert).
    rewrite Hh. split; [by apply hdr_list_encode|]. split; [apply hdr_n_encode; lia|].
    intros j b Hj. rewrite apply_writes_out; [by apply Hd1|]. cbn. rewrite list_elem_of_singleton. lia. }
  rewrite apply_writes_app. set (d2 := apply_writes d1 [(st, encode_head (V st) bs)]).
  assert (Hh : d2 st = encode_head (V st) bs) by (unfold d2, apply_writes; cbn; apply fn_lookup_insert).
  assert (Hd2 : forall j b, bs !! j = Some b -> d2 (st + 1 + Z.of_nat j) = V b).
  { intros j b Hj. unfold d2. rewrite apply_writes_out; [by apply Hd1|].
    cbn. rewrite list_elem_of_singleton. lia. }
  apply prefix_app_inv in HP as [[_ HP]|[Hlt (P3 & -> & HP)]].
  - left. split; [done|].
    assert (Hfst : forall x, x ∉ bs -> apply_writes d2 P2 x = d2 x).
    { intros x Hx. apply apply_writes_out. intros Hin. apply (prefix_fst _ _ _ HP) in Hin.
      by rewrite home_entries_fst in Hin. }
    rewrite Hfst, Hh by done. split; [by apply hdr_list_encode|]. split; [apply hdr_n_encode; lia|].
    intros j b Hj. rewrite Hfst; [by apply Hd2|]. intros Hin. apply Hout in Hin.
    pose proof (lookup_lt_Some _ _ _ Hj). lia.
  - right. assert (HP3 : P3 = [(st, encode_head (encode_head (V st) bs) [])]).
    { rewrite length_app in Hlt. destruct P3 as [|p [|]]; [cbn in Hlt; lia| |].
      - by apply prefix_cons_inv_1 in HP as ->.
      - apply prefix_length in HP. cbn in HP. lia. }
    subst P3. rewrite apply_writes_app. split; [done|]. split.
    + unfold apply_writes at 1. cbn [foldl fst snd]. rewrite fn_lookup_insert.
      rewrite hdr_n_encode; [done|rewrite encode_head_length; lia|cbn; lia].
    + intros x Hx. rewrite apply_writes_out by (cbn; rewrite list_elem_of_singleton; by intros ->).
      apply apply_writes_in; [by rewrite home_entries_fst|].
      intros v' Hv'. unfold home_entries in Hv'. by apply list_elem_of_fmap in Hv' as (b & [= -> ->] & _).
Qed.
End Crash.

Definition sized (b : block) : Prop := Z.of_nat (length b) = BSIZE.

Lemma apply_writes_sized d W x :
  (forall y, sized (d y)) -> Forall (fun w => sized w.2) W -> sized (apply_writes d W x).
Proof.
  revert d. induction W as [|[a v] W IH]; intros d Hd HW; [apply Hd|].
  apply Forall_cons_1 in HW as [Hv HW]. unfold apply_writes in *. cbn [foldl].
  apply IH; [|done]. intros y. destruct (decide (y = a)) as [->|].
  - by rewrite fn_lookup_insert.
  - by rewrite fn_lookup_insert_ne.
Qed.

Lemma commit_writes_sized st bs (V : Z -> block) :
  (forall y, sized (V y)) -> Forall (fun w => sized w.2) (commit_writes st bs V).
Proof.
  intros HV. unfold commit_writes. rewrite !Forall_app. split_and!.
  - generalize (st + 1). induction bs as [|b bs IH]; intros a; constructor; [apply HV|apply IH].
  - constructor; [|done]. unfold sized. cbn [snd]. rewrite encode_head_length. apply HV.
  - unfold home_entries. apply Forall_fmap, Forall_true. intros. apply HV.
  - constructor; [|done]. unfold sized. cbn [snd]. rewrite !encode_head_length. apply HV.
Qed.

Lemma hdr_list_nil b : hdr_n b = 0 -> hdr_list b = [].
Proof. unfold hdr_list. by intros ->. Qed.

(** Recovery from the disk a crash leaves. *)
Lemma crash_recover me d st bs V P l :
  (forall y, sized (d y)) -> (forall y, sized (V y)) -> Z.of_nat (length bs) <= LOGSIZE ->
  Forall (fun x => 0 <= x < 2 ^ 31) bs -> NoDup bs -> outside (st + 1) bs -> st ∉ bs ->
  hdr_n (d st) = 0 -> P `prefix_of` commit_writes st bs V ->
  dev l = ROOTDEV -> start l = st -> Z.of_nat (length (lh_block l)) = LOGSIZE ->
  exists c l', recover_from_log me {| bc := binit (apply_writes d P); lg := l |}
      = Ok tt {| bc := c; lg := l' |} /\ lh_n l' = 0 /\ hdr_n (disk c st) = 0 /\
    forall x, x < st \/ st + Z.of_nat (length bs) < x ->
      disk c x = if bool_decide (length bs < length P)%nat && bool_decide (x ∈ bs)
                 then V x else d x.
Proof.
  intros Hd HV Hl Hall Hnd Hout Hst H0 HP Hdev Hsl Hlb.
  set (D := apply_writes d P).
  pose proof (recover_spec me D l Hdev) as Hrec. cbv zeta in Hrec. rewrite Hsl in Hrec.
  assert (HD : sized (D st)).
  { apply apply_writes_sized; [done|]. destruct HP as [R HR].
    pose proof (commit_writes_sized st bs V HV) as Hw. rewrite HR, Forall_app in Hw. apply Hw. }
  pose proof (crash_homes d st bs V P Hout Hst HP) as Hhome.
  destruct (crash_header d st bs V P (HV st) Hl Hall Hout Hst H0 HP)
    as [(HlP & Hn & Hx)|[(HlP & Hbs & Hn & Hlog)|(HlP & Hn & Hx)]]; fold D in Hn, Hhome.
  - destruct Hrec as (c & l' & Hr & Hz & Hc); rewrite ?Hn;
      rewrite ?(hdr_list_nil _ Hn); [lia|constructor|intros ? ?%elem_of_nil; done|set_solver|].
    rewrite (hdr_list_nil _ Hn) in Hc. exists c, l'. split_and!; [done|done| |].
    + rewrite Hc, apply_writes_app, apply_writes_one.
      rewrite hdr_n_encode; [done|rewrite HD; done|done].
    + intros x Hx'. rewrite bool_decide_false by lia. cbn [andb]. rewrite Hc. cbn [install_entries app].
      rewrite apply_writes_out by (cbn; rewrite list_elem_of_singleton; lia). by apply Hx.
  - fold D in Hbs, Hlog. destruct Hrec as (c & l' & Hr & Hz & Hc);
      rewrite ?Hn, ?Hbs; try done; [lia|].
    rewrite Hbs in Hc. exists c, l'. split_and!; [done|done| |].
    + rewrite Hc, apply_writes_app, apply_writes_one.
      rewrite hdr_n_encode; [done|rewrite HD; done|done].
    + intros x Hx'. rewrite (bool_decide_true (_ < _)%nat) by done. cbn [andb].
      rewrite Hc, apply_writes_app.
      rewrite apply_writes_out by (cbn; rewrite list_elem_of_singleton; lia).
      rewrite (install_home_writes _ _ bs V D) by done. case_bool_decide as Hin; [done|].
      by destruct (Hhome x Hx') as [?|[? _]].
  - fold D in Hx. destruct Hrec as (c & l' & Hr & Hz & Hc); rewrite ?Hn;
      rewrite ?(hdr_list_nil _ Hn); [lia|constructor|intros ? ?%elem_of_nil; done|set_solver|].
    rewrite (hdr_list_nil _ Hn) in Hc. exists c, l'. split_and!; [done|done| |].
    + rewrite Hc, apply_writes_app, apply_writes_one.
      rewrite hdr_n_encode; [done|rewrite HD; done|done].
    + intros x Hx'. rewrite (bool_decide_true (_ < _)%nat) by done. cbn [andb].
      rewrite Hc. cbn [install_entries app]. rewrite apply_writes_out by (cbn; rewrite list_elem_of_singleton; lia).
      case_bool_decide as Hin; [by apply Hx|]. by destruct (Hhome x Hx') as [?|[? _]].
Qed.

(** ** Transactions *)

(** A transaction in progress has logged the blocks [bs]. *)
Record txn (X : gset (Z * Z)) (s : lstate) (bs : list Z) : Prop := {
  txn_dev : dev (lg s) = ROOTDEV;
  txn_quiet : quiet X (bc s);
  txn_len : Z.of_nat (length (lh_block (lg s))) = LOGSIZE;
  txn_n : lh_n (lg s) = Z.of_nat (length bs);
  txn_bs : logged (lg s) = bs;
  txn_nodup : NoDup bs;
  txn_pinned : forall b, b ∈ bs -> 0 < refs (bc s) (root b)
}.

(** The pattern by which the file system changes a block. *)
Definition log_update (me b : Z) (f : block -> block) : M lstate unit :=
  let! l := get_log in
  let! i := on_cache (bread me (dev l) b) in
  on_cache (bmodify i f) ;;;
  log_write i ;;;
  on_cache (brelse me i).

Lemma absorb_spec l i bno :
  (exists j, absorb l i bno = i + Z.of_nat j /\ l !! j = Some bno) \/
  (absorb l i bno = i + Z.of_nat (length l) /\ bno ∉ l).
Proof.
  revert i. induction l as [|x l IH]; intros i; cbn [absorb].
  - right. cbn. split; [lia|set_solver].
  - destruct (Z.eqb_spec x bno) as [->|Hne].
    + left. exists 0%nat. cbn. split; [lia|done].
    + destruct (IH (i + 1)) as [(j & Hj & Hl)|[Hj Hn]].
      * left. exists (S j). cbn. split; [lia|done].
      * right. cbn [length]. split; [lia|set_solver].
Qed.

Lemma logged_absorb (arr : list Z) (n : nat) j bno arr' :
  take n arr !! j = Some bno -> zset arr (Z.of_nat j) bno = Some arr' -> take n arr' = take n arr.
Proof.
  intros Hj [_ ->]%zset_Some. rewrite Nat2Z.id.
  rewrite list_insert_id; [done|]. pose proof (lookup_lt_Some _ _ _ Hj) as Hl.
  rewrite length_take in Hl. by rewrite lookup_take_lt in Hj by lia.
Qed.

Lemma logged_append (arr : list Z) (n : nat) bno arr' :
  (n < length arr)%nat -> zset arr (Z.of_nat n) bno = Some arr' ->
  take (S n) arr' = take n arr ++ [bno].
Proof.
  intros Hn [_ ->]%zset_Some. rewrite Nat2Z.id.
  rewrite (take_S_r _ _ bno) by (by apply list_lookup_insert_eq).
  f_equal. by rewrite take_insert_ge.
Qed.

(** [log_write] of a held buffer: the block is recorded once, and pinned when
    it is recorded. *)
Lemma log_write_spec me s bs i b d :
  bcache_ok (bc s) -> holds (bc s) me i (root b) d -> refs (bc s) (root b) < 2 ^ 32 - 1 ->
  Z.of_nat (length (lh_block (lg s))) = LOGSIZE -> lh_n (lg s) = Z.of_nat (length bs) ->
  logged (lg s) = bs -> Z.of_nat (length bs) < LOGSIZE -> Z.of_nat (length bs) < size (lg s) - 1 ->
  1 <= outstanding (lg s) ->
  exists c l', log_write i s = Ok tt {| bc := c; lg := l' |} /\ bcache_ok c /\
    holds c me i (root b) d /\ disk c = disk (bc s) /\ writes c = writes (bc s) /\
    effect (bc s) c (root b) d
      (refs (bc s) (root b) + if bool_decide (b ∈ bs) then 0 else 1) (Some me) /\
    (forall me' j k' d', j <> i -> holds (bc s) me' j k' d' -> holds c me' j k' d') /\
    size l' = size (lg s) /\ dev l' = dev (lg s) /\ start l' = start (lg s) /\ outstanding l' = outstanding (lg s) /\
    Z.of_nat (length (lh_block l')) = LOGSIZE /\
    lh_n l' = Z.of_nat (length (if bool_decide (b ∈ bs) then bs else bs ++ [b])) /\
    logged l' = (if bool_decide (b ∈ bs) then bs else bs ++ [b]).
Proof.
  intros Hok Hh Hlt Hla Hn Hbs Hl1 Hl2 Hout. unfold log_write.
  rewrite (kbind_Ok _ _ _ _ _ (get_log_run s)). rewrite Hn.
  destruct (Z.leb_spec LOGSIZE (Z.of_nat (length bs))); [lia|].
  destruct (Z.leb_spec (size (lg s) - 1) (Z.of_nat (length bs))); [lia|]. cbn [orb].
  destruct (Z.ltb_spec (outstanding (lg s)) 1); [lia|].
  rewrite (kbind_Ok _ _ _ _ _ (kgets_run _ s)).
  assert (Hb : blockno (nth_buf (bc s) i) = b).
  { destruct Hh as (_ & _ & Hk & _). by injection Hk. }
  rewrite Hb, Hbs. unfold logged in Hbs. rewrite Hn, Nat2Z.id in Hbs.
  destruct (holds_obs _ _ _ _ _ Hok Hh) as (_ & Hv & Hlk & _).
  assert (Hsame : effect (bc s) (bc s) (root b) d (refs (bc s) (root b) + 0) (Some me)).
  { intros k Hk. case_decide; [subst k|done]. rewrite Hv, Hlk, Z.add_0_r. done. }
  destruct (absorb_spec bs 0 b) as [(j & Hj & Hlj)|[Hj Hnin]]; rewrite Hj, Z.add_0_l.
  - pose proof (lookup_lt_Some _ _ _ Hlj).
    rewrite (bool_decide_true (b ∈ bs)) by (by eapply list_elem_of_lookup_2).
    destruct (zset (lh_block (lg s)) (Z.of_nat j) b) as [arr|] eqn:Hz;
      [|rewrite zset_in in Hz by lia; done].
    rewrite (kbind_Ok _ _ _ _ _ (kopt_run arr s)).
    destruct (Z.eqb_spec (Z.of_nat j) (Z.of_nat (length bs))); [lia|].
    eexists _, _. split; [reflexivity|]. cbn [lh_block lh_n dev start size outstanding with_lh].
    split_and!; try done; [by rewrite (zset_length _ _ _ _ Hz)|].
    unfold logged. cbn [lh_n lh_block with_lh]. rewrite Nat2Z.id.
    rewrite (logged_absorb (lh_block (lg s)) (length bs) j b arr); [done|by rewrite Hbs|done].
  - rewrite (bool_decide_false (b ∈ bs)) by done.
    destruct (zset (lh_block (lg s)) (Z.of_nat (length bs)) b) as [arr|] eqn:Hz;
      [|rewrite zset_in in Hz by lia; done].
    rewrite (kbind_Ok _ _ _ _ _ (kopt_run arr s)). rewrite Z.eqb_refl.
    destruct (bpin_effect (bc s) me i (root b) d Hok Hh Hlt) as (c & Hp & Hokc & Hhc & He & Hk & Hd & Hw).
    rewrite (kbind_Ok _ _ _ _ _ (on_cache_Ok _ s _ _ Hp)).
    eexists c, _. split; [reflexivity|]. cbn [lh_block lh_n dev start size outstanding with_lh].
    split_and!; try done; [by rewrite (zset_length _ _ _ _ Hz)|rewrite length_app; cbn; lia|].
    unfold logged. cbn [lh_n lh_block with_lh].
    replace (Z.to_nat (Z.of_nat (length bs) + 1)) with (S (length bs)) by lia.
    rewrite (logged_append (lh_block (lg s)) (length bs) b); [by rewrite Hbs|lia|done].
Qed.

(** Changing a block inside a transaction. *)
Lemma log_update_spec me s X bs b f :
  txn X s bs -> (base.size X < Z.to_nat NBUF)%nat ->
  Z.of_nat (length bs) < LOGSIZE -> Z.of_nat (length bs) < size (lg s) - 1 ->
  1 <= outstanding (lg s) -> refs (bc s) (root b) < 2 ^ 31 - 2 ->
  exists s', log_update me b f s = Ok tt s' /\
    txn ({[root b]} ∪ X) s' (if bool_decide (b ∈ bs) then bs else bs ++ [b]) /\
    (forall x, view (bc s') (root x) =
       if decide (x = b) then f (view (bc s) (root b)) else view (bc s) (root x)) /\
    disk (bc s') = disk (bc s) /\ writes (bc s') = writes (bc s) /\
    start (lg s') = start (lg s) /\ outstanding (lg s') = outstanding (lg s).
Proof.
  intros [Hdev Hq Hla Hn Hbs Hnd Hpin] Hsz Hl1 Hl2 Hout Hrb. pose proof Hq as [Hok Hlk Hbd HX].
  pose proof (refs_nonneg (bc s) (root b) Hok).
  destruct (bread_effect (bc s) me (root b) Hok eq_refl (Hlk b) ltac:(lia)
    (fun _ => avail _ X Hok HX Hsz)) as (i & s1 & H1 & Hok1 & Hh1 & He1 & _ & Hd1 & Hw1).
  destruct (bmodify_effect s1 me i (root b) _ f Hok1 Hh1) as (s2 & H2 & Hok2 & Hh2 & He2 & _ & Hd2 & Hw2).
  destruct (obs_split _ _ _ _ _ (effect_own _ _ _ _ _ _ He1 eq_refl)) as (_ & Hr1 & _).
  destruct (obs_split _ _ _ _ _ (effect_own _ _ _ _ _ _ He2 eq_refl)) as (_ & Hr2 & _).
  destruct (log_write_spec me {| bc := s2; lg := lg s |} bs i b _ Hok2 Hh2 ltac:(cbn; lia) Hla Hn Hbs
    Hl1 Hl2 Hout) as (c3 & l3 & H3 & Hok3 & Hh3 & Hd3 & Hw3 & He3 & _ & _ & Hdv & Hst & Hou & Hla3 & Hn3 & Hbs3).
  cbn [bc lg] in *. destruct (obs_split _ _ _ _ _ (effect_own _ _ _ _ _ _ He3 eq_refl)) as (_ & Hr3 & _).
  set (extra := if bool_decide (b ∈ bs) then 0 else 1) in *.
  assert (Hex : 0 <= extra <= 1) by (unfold extra; case_bool_decide; lia).
  assert (Hex1 : 1 <= refs (bc s) (root b) + extra).
  { unfold extra. case_bool_decide as Hin; [|lia]. specialize (Hpin b Hin). lia. }
  destruct (brelse_effect c3 me i (root b) _ Hok3 Hh3) as (c4 & H4 & Hok4 & He4 & _ & Hd4 & Hw4).
  { lia. }
  { lia. }
  assert (Hother : forall x, x <> b -> obs c4 (root x) = obs (bc s) (root x)).
  { intros x Hx. rewrite (effect_other _ _ _ _ _ _ _ He4) by (done || by intros [=]).
    rewrite (effect_other _ _ _ _ _ _ _ He3) by (done || by intros [=]).
    rewrite (effect_other _ _ _ _ _ _ _ He2) by (done || by intros [=]).
    apply (effect_other _ _ _ _ _ _ _ He1); [done|by intros [=]]. }
  destruct (obs_split _ _ _ _ _ (effect_own _ _ _ _ _ _ He4 eq_refl)) as (Hv4 & Hr4 & Hl4).
  exists {| bc := c4; lg := l3 |}. split_and!; cbn [bc lg]; try congruence.
  - unfold log_update. rewrite (kbind_Ok _ _ _ _ _ (get_log_run s)). rewrite Hdev.
    rewrite (kbind_Ok _ _ _ _ _ (on_cache_Ok _ s _ _ H1)).
    rewrite (kbind_Ok _ _ _ _ _ (on_cache_Ok _ {| bc := s1; lg := lg s |} _ _ H2)). cbn [lg].
    rewrite (kbind_Ok _ _ _ _ _ H3). apply (on_cache_Ok _ {| bc := c3; lg := l3 |} _ _ H4).
  - split; cbn [bc lg]; try done; [congruence| | |].
    + split; [done| | |].
      * intros x. destruct (decide (x = b)) as [->|Hx]; [done|].
        injection (Hother x Hx) as _ _ ->. apply Hlk.
      * intros x. destruct (decide (x = b)) as [->|Hx]; [lia|].
        injection (Hother x Hx) as _ -> _. apply Hbd.
      * intros k Hk. pose proof (refs_rootdev _ _ Hok4 Hk) as Hroot.
        destruct k as [dv x]. cbn in Hroot. subst dv. change (ROOTDEV, x) with (root x) in *.
        destruct (decide (x = b)) as [->|Hx]; [set_solver|].
        injection (Hother x Hx) as _ Hr _. rewrite Hr in Hk. apply HX in Hk. set_solver.
    + case_bool_decide as Hin; [done|]. apply list.NoDup_app. split; [done|].
      split; [|apply NoDup_singleton]. intros x Hx ->%list_elem_of_singleton. done.
    + intros x Hx. destruct (decide (x = b)) as [->|Hne]; [lia|].
      injection (Hother x Hne) as _ Hr _. rewrite Hr. apply Hpin.
      case_bool_decide; [done|]. apply elem_of_app in Hx as [?|Hx]; [done|].
      by apply list_elem_of_singleton in Hx.
  - intros x. destruct (decide (x = b)) as [->|Hx]; [exact Hv4|]. by injection (Hother x Hx).
Qed.

(** ** Theorems *)

(** C2. Commit is atomic with respect to crashes.  From a state ready to
    commit the blocks [bs], with an empty log on disk, [commit] returns; and if
    the machine stops after any prefix [P] of the disk writes it performs, then
    [recover_from_log] on the disk as it is then, with a cold cache, returns
    with the header cleared and every block outside the log as it was before
    the commit if the header had not been written, and with all of [bs] at
    their new contents if it had. *)
Theorem commit_crash_atomic me s X bs :
  let st := start (lg s) in
  let V := fun x => view (bc s) (root x) in
  ready X s bs -> Z.of_nat (length bs) <= LOGSIZE ->
  Forall (fun x => 0 <= x < 2 ^ 31) bs ->
  (forall y, sized (disk (bc s) y)) -> (forall y, sized (V y)) -> hdr_n (disk (bc s) st) = 0 ->
  exists s' W, commit me s = Ok tt s' /\ writes (bc s') = writes (bc s) ++ W /\
    forall P l, P `prefix_of` W -> dev l = ROOTDEV -> start l = st ->
      Z.of_nat (length (lh_block l)) = LOGSIZE ->
      exists c l', recover_from_log me {| bc := binit (apply_writes (disk (bc s)) P); lg := l |}
          = Ok tt {| bc := c; lg := l' |} /\ lh_n l' = 0 /\ hdr_n (disk c st) = 0 /\
        forall x, x < st \/ st + Z.of_nat (length bs) < x ->
          disk c x = if bool_decide (length bs < length P)%nat && bool_decide (x ∈ bs)
                     then V x else disk (bc s) x.
Proof.
  intros st V Hrdy Hl Hall Hd HV H0.
  destruct (commit_spec me s X bs Hrdy) as (c & Hc & _ & (_ & _ & Hw)).
  eexists _, _. split; [exact Hc|]. split; [exact Hw|].
  intros P l HP Hdev Hst Hlb. destruct Hrdy.
  by apply crash_recover.
Qed.

(** ** Example transactions *)

(** The log as [initlog] leaves it on an empty disk, [n] log blocks from block
    2 on, and [o] operations in progress. *)
Definition boot_log (n o : Z) : log :=
  {| start := 2; size := n; outstanding := o; committing := false; dev := ROOTDEV;
     lh_n := 0; lh_block := replicate 30 0 |}.

Definition boot_state (n o : Z) : lstate := {| bc := binit blank_disk; lg := boot_log n o |}.

Definition ones : block := replicate 1024 1.

Lemma boot_txn n o : txn ∅ (boot_state n o) [].
Proof.
  split; cbn; try done; [apply quiet_boot|apply NoDup_nil_2|set_solver].
Qed.

(** Block 50 has been overwritten in a transaction. *)
Definition one_block : lstate :=
  match log_update 7 50 (fun _ => ones) (boot_state 30 1) with
  | Ok _ s => s
  | _ => boot_state 30 1
  end.

Lemma one_block_ready :
  ready ({[root 50]} ∪ ∅) one_block [50] /\
  (forall x, view (bc one_block) (root x) = if decide (x = 50) then ones else zero_block) /\
  disk (bc one_block) = blank_disk.
Proof.
  destruct (log_update_spec 7 (boot_state 30 1) ∅ [] 50 (fun _ => ones)) as
    (s' & Hr & [Hdev Hq Hla Hn Hbs Hnd Hpin] & Hv & Hd & Hw & Hst & Hou).
  - apply boot_txn.
  - rewrite size_empty. vm_compute. lia.
  - done.
  - done.
  - done.
  - unfold refs. destruct (find_cached _ _ _) as [i|]; [|done].
    assert (refcnt (nth_buf (bc (boot_state 30 1)) i) = 0) as ->; [|done].
    unfold nth_buf. destruct (zget _ i) as [b|] eqn:Hz; [|done].
    apply zget_Some in Hz as [_ Hz]. by apply lookup_replicate in Hz as [-> _].
  - assert (Hif : (if bool_decide (50 ∈ @nil Z) then [] else [] ++ [50]) = [50]) by done.
    rewrite Hif in Hn, Hbs, Hnd, Hpin.
    assert (one_block = s') as -> by (unfold one_block; by rewrite Hr).
    split; [|split; [|done]].
    + split; [done|done| |done|done|done|done|done| |].
      * rewrite union_empty_r_L, size_singleton. vm_compute. lia.
      * rewrite Hst. intros b ->%list_elem_of_singleton. cbn. lia.
      * rewrite Hst, list_elem_of_singleton. done.
    + intros x. rewrite Hv. destruct (decide (x = 50)); [done|].
      exact (boot_view blank_disk x).
Qed.

Lemma commit_crash_atomic_witness :
  exists s' W, commit 7 one_block = Ok tt s' /\ writes (bc s') = writes (bc one_block) ++ W /\
    exists c l', recover_from_log 7 {| bc := binit (apply_writes blank_disk W); lg := boot_log 30 0 |}
      = Ok tt {| bc := c; lg := l' |} /\ disk c 50 = if bool_decide (1 < length W)%nat then ones else zero_block.
Proof.
  destruct one_block_ready as (Hr & Hv & Hd).
  destruct (commit_crash_atomic 7 one_block ({[root 50]} ∪ ∅) [50] Hr) as (s' & W & Hc & Hw & Hp).
  - vm_compute. discriminate.
  - apply (bool_decide_unpack _). vm_compute. exact I.
  - rewrite Hd. intros y. reflexivity.
  - intros y. rewrite Hv. case_decide; reflexivity.
  - rewrite Hd. reflexivity.
  - exists s', W. split; [exact Hc|]. split; [exact Hw|].
    destruct (Hp W (boot_log 30 0)) as (c & l' & Hrec & _ & _ & Hx);
      [exists []; by rewrite app_nil_r|reflexivity|reflexivity|reflexivity|].
    exists c, l'. rewrite Hd in Hrec. split; [exact Hrec|].
    rewrite (Hx 50) by (right; vm_compute; reflexivity). rewrite Hv, Hd.
    destruct (bool_decide (length [50] < length W)%nat) eqn:Hb; cbn in *; rewrite Hb; reflexivity.
Defined.

(** ** Reservations *)

(** Operations in progress with the number of blocks each has added to the
    log, and the processes asleep in [begin_op].  An operation adds at most
    [MAXOPBLOCKS].  The commit at the end of the last operation runs without the
    lock, so others may call [begin_op] before it. *)
Record rsys : Type := Rsys { rs : lstate; ops : list Z; asleep : gset Z }.

Definition wake (woken : list chan) (l : gset Z) : gset Z :=
  if decide (log_chan ∈ woken) then ∅ else l.

Inductive rstep (me : Z) (r : rsys) : rsys -> Prop :=
| rstep_begin p s' :
    p ∉ asleep r -> begin_op (rs r) = Ok tt s' ->
    rstep me r {| rs := s'; ops := 0 :: ops r; asleep := asleep r |}
| rstep_sleep p c s' :
    p ∉ asleep r -> begin_op (rs r) = Sleep c s' ->
    rstep me r {| rs := s'; ops := ops r; asleep := {[p]} ∪ asleep r |}
| rstep_write i k b s' :
    ops r !! i = Some k -> k < MAXOPBLOCKS -> log_write b (rs r) = Ok tt s' ->
    rstep me r {| rs := s'; ops := <[i := k + (lh_n (lg s') - lh_n (lg (rs r)))]> (ops r);
                  asleep := asleep r |}
| rstep_end i k c woken s' :
    ops r !! i = Some k -> end_op_first (rs r) = Ok (c, woken) s' ->
    rstep me r {| rs := s'; ops := delete i (ops r); asleep := wake woken (asleep r) |}
| rstep_commit woken s' :
    committing (lg (rs r)) = true -> (commit me ;;; end_op_last) (rs r) = Ok woken s' ->
    rstep me r {| rs := s'; ops := ops r; asleep := wake woken (asleep r) |}
| rstep_cache c :
    rstep me r {| rs := {| bc := c; lg := lg (rs r) |}; ops := ops r; asleep := asleep r |}.

Definition left_over (l : list Z) : Z := foldr (fun k n => MAXOPBLOCKS - k + n) 0 l.

Record reserved (r : rsys) : Prop := {
  res_out : outstanding (lg (rs r)) = Z.of_nat (length (ops r));
  res_n : 0 <= lh_n (lg (rs r));
  res_ops : Forall (fun k => 0 <= k <= MAXOPBLOCKS) (ops r);
  res_sum : lh_n (lg (rs r)) + left_over (ops r) <= LOGSIZE;
  res_commit : committing (lg (rs r)) = true -> ops r = [];
  res_idle : committing (lg (rs r)) = false -> ops r = [] -> lh_n (lg (rs r)) = 0;
  res_sleep : asleep r <> ∅ -> ops r <> [] \/ committing (lg (rs r)) = true
}.

Section Reserved.
Context (me : Z).
Implicit Types (s : lstate).

Lemma on_cache_lg {A} (m : M bstate A) s a s' : on_cache m s = Ok a s' -> lg s' = lg s.
Proof. unfold on_cache. by destruct (m (bc s)); intros [= _ <-]. Qed.

Lemma write_head_lg s x s' : write_head me s = Ok x s' -> lg s' = lg s.
Proof.
  unfold write_head. intros H. kinv H. injection Hrun as <- <-.
  apply on_cache_lg in Hrun0, Hrun1, Hrun2, H. congruence.
Qed.

Lemma write_log_loop_lg k tail s x s' : write_log_loop me k tail s = Ok x s' -> lg s' = lg s.
Proof.
  revert tail s. induction k as [|k IH]; intros tail s H; cbn [write_log_loop] in H.
  - by injection H as _ <-.
  - kinv H. injection Hrun as <- <-. apply IH in H.
    unfold kopt in Hrun0. destruct (zget _ _); [|done]. injection Hrun0 as _ <-.
    injection Hrun3 as _ <-. apply on_cache_lg in Hrun1, Hrun2, Hrun4, Hrun5, Hrun6, Hrun7.
    congruence.
Qed.

Lemma install_loop_lg k rec tail s x s' : install_loop me k rec tail s = Ok x s' -> lg s' = lg s.
Proof.
  revert tail s. induction k as [|k IH]; intros tail s H; cbn [install_loop] in H.
  - by injection H as _ <-.
  - kinv H. injection Hrun as <- <-. apply IH in H.
    unfold kopt in Hrun0. destruct (zget _ _); [|done]. injection Hrun0 as _ <-.
    injection Hrun3 as _ <-. apply on_cache_lg in Hrun1, Hrun2, Hrun4, Hrun5, Hrun7, Hrun8.
    destruct rec; [injection Hrun6 as _ <-|apply on_cache_lg in Hrun6]; congruence.
Qed.

Lemma commit_lg s x s' :
  commit me s = Ok x s' ->
  outstanding (lg s') = outstanding (lg s) /\ (0 <= lh_n (lg s) -> lh_n (lg s') = 0).
Proof.
  unfold commit. intros H. kinv H. injection Hrun as <- <-.
  destruct (Z.ltb_spec 0 (lh_n (lg s))); [|injection H as _ <-; split; [done|lia]].
  kinv H. unfold write_log, install_trans in *. kinv Hrun. kinv Hrun1.
  injection Hrun3 as <- <-. injection Hrun4 as <- <-. injection Hrun2 as <- <-.
  injection Hrun5 as <- <-.
  apply write_log_loop_lg in Hrun. apply write_head_lg in Hrun0, H.
  apply install_loop_lg in Hrun1. rewrite H. cbn. split; [congruence|done].
Qed.

Lemma end_op_first_lg s c woken s' :
  end_op_first s = Ok (c, woken) s' ->
  outstanding (lg s') = outstanding (lg s) - 1 /\ lh_n (lg s') = lh_n (lg s) /\ committing (lg s) = false /\
  if decide (outstanding (lg s') = 0) then committing (lg s') = true
  else committing (lg s') = false /\ woken = [log_chan].
Proof.
  unfold end_op_first. intros H. kinv H. injection Hrun as <- <-.
  destruct (committing (lg s)) eqn:Hc; [done|]. destruct (Z.eqb_spec (outstanding (lg s) - 1) 0) as [E|E];
    kinv H; injection Hrun as <-; injection H as <- <- ->; subst s'; cbn; case_decide; split_and!; done || congruence.
Qed.

Lemma commit_end_lg s woken s' :
  (commit me ;;; end_op_last) s = Ok woken s' -> 0 <= lh_n (lg s) ->
  outstanding (lg s') = outstanding (lg s) /\ lh_n (lg s') = 0 /\ committing (lg s') = false /\ woken = [log_chan].
Proof.
  unfold end_op_last. intros H Hn. kinv H. injection Hrun0 as <- <-. injection Hrun1 as <-. injection H as <- ->.
  subst s'. cbn. apply commit_lg in Hrun as [Ho Hz]. auto.
Qed.

Lemma log_write_lg b s s' :
  log_write b s = Ok tt s' ->
  outstanding (lg s') = outstanding (lg s) /\ lh_n (lg s) <= lh_n (lg s') <= lh_n (lg s) + 1 /\
  committing (lg s') = committing (lg s).
Proof.
  unfold log_write. intros H. kinv H. injection Hrun as <- <-.
  destruct (_ || _); [done|]. destruct (_ <? _); [done|]. kinv H.
  injection Hrun as <- <-. unfold kopt in Hrun0. destruct (zset _ _ _); [|done].
  injection Hrun0 as <- <-. destruct (_ =? _).
  - kinv H. injection H as <-. cbn. split_and!; done || lia.
  - injection H as <-. cbn. split_and!; done || lia.
Qed.

Lemma left_over_cons x l : left_over (x :: l) = MAXOPBLOCKS - x + left_over l.
Proof. done. Qed.

Lemma left_over_insert l i k k' :
  l !! i = Some k -> left_over (<[i := k']> l) = left_over l + k - k'.
Proof.
  revert i. induction l as [|x l IH]; intros i Hi; [done|].
  destruct i as [|i]; cbn in Hi.
  - injection Hi as ->. change (<[0%nat := k']> (k :: l)) with (k' :: l).
    rewrite !left_over_cons. lia.
  - change (<[S i := k']> (x :: l)) with (x :: <[i := k']> l).
    rewrite !left_over_cons, (IH i Hi). lia.
Qed.

Lemma left_over_delete l i k :
  l !! i = Some k -> left_over (delete i l) = left_over l - (MAXOPBLOCKS - k).
Proof.
  revert i. induction l as [|x l IH]; intros i Hi; [done|].
  destruct i as [|i]; cbn in Hi.
  - injection Hi as ->. change (delete 0%nat (k :: l)) with l. rewrite left_over_cons. lia.
  - change (delete (S i) (x :: l)) with (x :: delete i l).
    rewrite !left_over_cons, (IH i Hi). lia.
Qed.

Lemma left_over_bound l :
  Forall (fun k => 0 <= k <= MAXOPBLOCKS) l ->
  0 <= left_over l <= MAXOPBLOCKS * Z.of_nat (length l).
Proof.
  induction 1 as [|k l Hk Hl IH]; cbn [left_over foldr length]; [lia|].
  unfold left_over in IH. unfold MAXOPBLOCKS in *. lia.
Qed.

Lemma reserved_begin r s' p :
  reserved r -> begin_op (rs r) = Ok tt s' -> p ∉ asleep r ->
  reserved {| rs := s'; ops := 0 :: ops r; asleep := asleep r |}.
Proof.
  intros [Ho Hn Hops Hsum Hc Hi Hz] Hb _. unfold begin_op in Hb.
  destruct (committing _) eqn:Ec; [done|].
  destruct (Z.ltb_spec LOGSIZE (lh_n (lg (rs r)) + (outstanding (lg (rs r)) + 1) * MAXOPBLOCKS)); [done|].
  injection Hb as <-. pose proof (left_over_bound _ Hops). split; cbn; try done; try lia.
  - constructor; [unfold MAXOPBLOCKS; lia|done].
  - fold (left_over (ops r)). unfold MAXOPBLOCKS in *. lia.
  - by left.
Qed.

Lemma reserved_end r i k c woken s' :
  reserved r -> ops r !! i = Some k -> end_op_first (rs r) = Ok (c, woken) s' ->
  reserved {| rs := s'; ops := delete i (ops r); asleep := wake woken (asleep r) |}.
Proof.
  intros [Ho Hn Hops Hsum Hc Hi Hz] Hk (Ho' & Hn' & Hc0 & He)%end_op_first_lg.
  pose proof (lookup_lt_Some _ _ _ Hk) as Hlt. pose proof (Forall_lookup_1 _ _ _ _ Hops Hk) as Hb. cbn in Hb.
  assert (Z.of_nat (length (delete i (ops r))) = outstanding (lg s')) as Hlen
    by (rewrite Ho', Ho, length_delete by eauto; lia).
  split; cbn [rs ops asleep]; try lia.
  - by apply Forall_delete.
  - rewrite (left_over_delete _ _ _ Hk). lia.
  - intros E. case_decide as Hd; [|destruct He; congruence]. apply length_zero_iff_nil. lia.
  - intros E Hnil. rewrite Hnil in Hlen. cbn in Hlen. rewrite decide_True in He by lia. congruence.
  - case_decide as Hd; [by right|]. destruct He as [_ ->]. unfold wake. rewrite decide_True by set_solver. done.
Qed.

Lemma reserved_step r r' : reserved r -> rstep me r r' -> reserved r'.
Proof.
  intros Hres Hs. destruct Hs as [p s' Hp Hb|p c s' Hp Hb|i k b s' Hi Hk Hw|i k c woken s' Hi He|woken s' Hco He|c].
  - by eapply reserved_begin.
  - destruct Hres as [Ho Hn Hops Hsum Hc Hid Hz]. unfold begin_op in Hb. destruct (committing (lg (rs r))) eqn:Ec.
    { injection Hb as <- <-. split; cbn; try done; rewrite Ec; try done. by right. }
    destruct (Z.ltb_spec LOGSIZE (lh_n (lg (rs r)) + (outstanding (lg (rs r)) + 1) * MAXOPBLOCKS)) as [Hl|]; [|done].
    injection Hb as <- <-. split; cbn; try done; rewrite Ec; try done. intros _. left. intros Hnil.
    rewrite (Hid eq_refl Hnil), Ho, Hnil in Hl. done.
  - destruct Hres as [Ho Hn Hops Hsum Hc Hid Hz]. destruct (log_write_lg _ _ _ Hw) as (Ho' & Hn' & Hc').
    assert (<[i := k + (lh_n (lg s') - lh_n (lg (rs r)))]> (ops r) <> []) as Hne.
    { intros E%(f_equal length). rewrite length_insert in E. apply lookup_lt_Some in Hi. cbn in E. lia. }
    split; cbn [rs ops asleep].
    + rewrite length_insert. congruence.
    + lia.
    + apply Forall_insert; [done|]. pose proof (Forall_lookup_1 _ _ _ _ Hops Hi). cbn in *. lia.
    + rewrite (left_over_insert _ _ _ _ Hi). lia.
    + rewrite Hc'. intros E%Hc. by rewrite E in Hi.
    + done.
    + by left.
  - by eapply reserved_end.
  - destruct Hres as [Ho Hn Hops Hsum Hc Hid Hz].
    destruct (commit_end_lg _ _ _ He Hn) as (Ho' & Hn' & Hc' & ->). rewrite (Hc Hco) in *.
    split; cbn [rs ops asleep]; try done; try congruence; try lia.
  - by destruct Hres.
Qed.
End Reserved.

(** C28. The reservation of [begin_op] bounds the log: in every interleaving
    of operations that each add at most [MAXOPBLOCKS] blocks, the log never
    holds more than [LOGSIZE] blocks, and an operation that still has blocks to add
    finds room for one more; with an on-disk log of more than
    [LOGSIZE] blocks besides its header, [log_write] then does not
    stop with "too big a transaction".  No wakeup is lost: a process sleeps in
    [begin_op] only while an operation is in progress or being committed, at the
    end of which it is woken. *)
Theorem reservation_suffices me n r i k b :
  reach (rstep me) {| rs := boot_state n 0; ops := []; asleep := ∅ |} r ->
  lh_n (lg (rs r)) <= LOGSIZE /\
  (ops r !! i = Some k -> k < MAXOPBLOCKS ->
     lh_n (lg (rs r)) < LOGSIZE /\
     (LOGSIZE + 1 <= size (lg (rs r)) ->
        log_write b (rs r) <> Panic "too big a transaction")) /\
  (asleep r <> ∅ -> ops r <> [] \/ committing (lg (rs r)) = true).
Proof.
  intros Hr. assert (Hres : reserved r).
  { revert Hr. apply (reach_inv _ reserved); [|intros ??; apply reserved_step].
    split; cbn; try done. }
  destruct Hres as [Ho Hn Hops Hsum _ _ Hz]. pose proof (left_over_bound _ Hops).
  split; [lia|]. split; [|exact Hz]. intros Hi Hk.
  assert (Hpos : 0 < left_over (ops r)).
  { pose proof (left_over_delete _ _ _ Hi) as Hd.
    pose proof (left_over_bound (delete i (ops r)) ltac:(by apply Forall_delete)). lia. }
  split; [lia|]. intros Hsz. unfold log_write, kbind, get_log, kgets.
  destruct (Z.leb_spec LOGSIZE (lh_n (lg (rs r)))); [lia|].
  destruct (Z.leb_spec (size (lg (rs r)) - 1) (lh_n (lg (rs r)))); [lia|]. cbn [orb].
  destruct (_ <? 1); [done|]. destruct (zset _ _ _); cbn; [|done].
  destruct (_ =? _); cbn; done.
Qed.

Lemma reservation_suffices_witness :
  exists s', begin_op (boot_state 31 0) = Ok tt s' /\
    log_write 3 s' <> Panic "too big a transaction".
Proof.
  exists (boot_state 31 1). split; [reflexivity|].
  apply (reservation_suffices 7 31 {| rs := boot_state 31 1; ops := [0]; asleep := ∅ |} 0 0 3).
  - eapply reach_step; [apply reach_refl|].
    exact (rstep_begin 7 {| rs := boot_state 31 0; ops := []; asleep := ∅ |} 1 _ (not_elem_of_empty 1) eq_refl).
  - reflexivity.
  - reflexivity.
  - vm_compute. discriminate.
Defined.

(** Three operations are admitted together and each changes [MAXOPBLOCKS]
    different blocks. *)
Fixpoint touch_blocks (bs : list Z) : M lstate unit :=
  match bs with
  | [] => kret tt
  | b :: bs => log_update 7 b (fun d => d) ;;; touch_blocks bs
  end.

Definition three_full_ops : M lstate unit :=
  begin_op ;;; begin_op ;;; begin_op ;;; touch_blocks (seqZ 100 (3 * MAXOPBLOCKS)).

(** The log [mkfs] lays out is one block short: with [nlog = LOGSIZE]
    blocks including the header, three operations that [begin_op] admits
    together and that each stay within [MAXOPBLOCKS] make [log_write] panic,
    although the reservation promises that they fit; with one more log
    block the same run succeeds. *)
Theorem mkfs_log_one_short :
  three_full_ops (boot_state LOGSIZE 0) = Panic "too big a transaction" /\
  exists s', three_full_ops (boot_state (LOGSIZE + 1) 0) = Ok tt s' /\ lh_n (lg s') = LOGSIZE.
Proof.
  split; [vm_compute; reflexivity|].
  destruct (three_full_ops (boot_state (LOGSIZE + 1) 0)) as [[] s'|msg|c s'] eqn:Hr;
    [|vm_compute in Hr; discriminate|vm_compute in Hr; discriminate].
  exists s'. split; [done|]. vm_compute in Hr. by injection Hr as <-.
Qed.
