(* ===== verification/BlockLog.v ===== *)
(** The log on the buffer cache provides the block store ([BlockStore]) of the
    file system, inside a transaction. *)

From stdpp Require Import functions.
From S2P Require Import Prelude Sleeplock Block Bio Log BlockStore.

Section BlockLog.
Context (me : Z).
Implicit Types (s : lstate) (v : bview) (b i : Z).

Definition log_store : BlockStore lstate := {|
  BlockStore.bread dev b := on_cache (Bio.bread me dev b);
  BlockStore.bdata i := kgets (fun s => Bio.bdata (nth_buf (bc s) i));
  BlockStore.bset i d := on_cache (bmodify i (fun _ => d));
  BlockStore.log_write i := Log.log_write i;
  BlockStore.brelse i := on_cache (Bio.brelse me i)
|}.

Definition log_tx : Transactions lstate := {|
  BlockStore.begin_op := Log.begin_op;
  BlockStore.end_op := Log.end_op me ;;; kret tt
|}.

Definition is_held v b : Prop := exists i, held v !! i = Some b.

#[export] Instance is_held_dec v b : Decision (is_held v b).
Proof.
  destruct (decide (map_Exists (fun _ x => x = b) (held v))) as [H|H]; [left|right].
  - destruct H as (i & x & Hi & ->). by exists i.
  - intros [i Hi]. apply H. by exists i, b.
Defined.

Record log_rep s v : Prop := {
  lr_dev : dev (lg s) = ROOTDEV;
  lr_ok : bcache_ok (bc s);
  lr_len : Z.of_nat (length (lh_block (lg s))) = LOGSIZE;
  lr_n : lh_n (lg s) = Z.of_nat (length (Log.logged (lg s)));
  lr_nodup : NoDup (Log.logged (lg s));
  lr_logged : forall b, b ∈ BlockStore.logged v <-> b ∈ Log.logged (lg s);
  lr_out : 1 <= outstanding (lg s);
  lr_size : Z.of_nat log_cap < size (lg s) - 1;
  lr_view : forall b, view (bc s) (root b) = contents v b;
  lr_blocks : forall b, block_ok (contents v b);
  lr_held : forall i b, held v !! i = Some b -> holds (bc s) me i (root b) (contents v b);
  lr_one : forall i j b, held v !! i = Some b -> held v !! j = Some b -> i = j;
  lr_free : forall b, ~ is_held v b -> locked_by (bc s) (root b) = None;
  lr_refs : forall b, refs (bc s) (root b) =
    (if bool_decide (is_held v b) then 1 else 0) +
    (if bool_decide (b ∈ BlockStore.logged v) then 1 else 0);
  lr_clean : forall b, b ∉ BlockStore.logged v -> b ∉ dirty v -> contents v b = disk (bc s) b;
  lr_cap : (base.size (BlockStore.logged v) <= log_cap)%nat;
}.

(** *** Buffers suffice while at most three blocks are held *)

Lemma size_list_to_set_le (l : list (Z * Z)) :
  (base.size (list_to_set l : gset (Z * Z)) <= length l)%nat.
Proof.
  induction l as [|x l IH]; [done|]. rewrite list_to_set_cons, size_union_alt, size_singleton.
  cbn [length]. assert (base.size ((list_to_set l : gset (Z * Z)) ∖ {[x]}) <=
    base.size (list_to_set l : gset (Z * Z)))%nat by (apply subseteq_size; set_solver). lia.
Qed.

Definition in_use v : list (Z * Z) :=
  root <$> ((map_to_list (held v)).*2 ++ elements (BlockStore.logged v)).

Lemma refs_in_use s v k :
  log_rep s v -> 0 < refs (bc s) k -> k ∈ (list_to_set (in_use v) : gset (Z * Z)).
Proof.
  intros Hr Hk. pose proof (refs_rootdev _ _ (lr_ok _ _ Hr) Hk) as Hroot.
  destruct k as [d b]. cbn in Hroot. subst d. change (ROOTDEV, b) with (root b) in *.
  rewrite (lr_refs _ _ Hr b) in Hk. unfold in_use.
  rewrite elem_of_list_to_set, list_elem_of_fmap. exists b. split; [done|].
  rewrite elem_of_app, elem_of_elements. case_bool_decide as Hi; [left; destruct Hi as [i Hi]|].
  - apply list_elem_of_fmap. exists (i, b). by rewrite elem_of_map_to_list.
  - right. case_bool_decide; [done|lia].
Qed.

Lemma buffer_free s v :
  log_rep s v -> (base.size (held v) < max_held)%nat -> exists i, find_unused (bc s) = Some i.
Proof.
  intros Hr Hh. eapply (avail _ (list_to_set (in_use v))); [apply Hr| |].
  - intros k. by apply refs_in_use.
  - pose proof (size_list_to_set_le (in_use v)) as Hle. pose proof (lr_cap _ _ Hr) as Hcap.
    unfold in_use in Hle at 2. rewrite length_fmap, length_app, length_fmap in Hle.
    change (length (elements (BlockStore.logged v))) with (base.size (BlockStore.logged v)) in Hle.
    rewrite length_map_to_list in Hle. unfold max_held, log_cap in *.
    change (Z.to_nat NBUF) with 30%nat. lia.
Qed.

(** *** The laws *)

(** The observations of a block that no effect touched. *)
Lemma effect_same c c' k0 d r l b :
  effect c c' k0 d r l -> root b <> k0 ->
  view c' (root b) = view c (root b) /\ refs c' (root b) = refs c (root b) /\
  locked_by c' (root b) = locked_by c (root b).
Proof.
  intros He Hne. destruct (He (root b) eq_refl) as (Hv & Hr & Hl).
  by rewrite !decide_False in * by done.
Qed.

Lemma effect_at c c' b d r l :
  effect c c' (root b) d r l ->
  view c' (root b) = d /\ refs c' (root b) = r /\ locked_by c' (root b) = l.
Proof. intros He. destruct (He (root b) eq_refl) as (Hv & Hr & Hl). by rewrite !decide_True in * by done. Qed.

Lemma root_inj a b : root a = root b -> a = b.
Proof. by intros [=]. Qed.

Lemma is_held_insert v i b x :
  held v !! i = None ->
  is_held (with_held v (<[i := b]> (held v))) x <-> x = b \/ is_held v x.
Proof.
  intros Hi. unfold is_held. cbn [held with_held]. split.
  - intros [j Hj]. apply lookup_insert_Some in Hj as [[_ ->]|[_ Hj]]; eauto.
  - intros [->|[j Hj]].
    + exists i. apply lookup_insert_eq.
    + exists j. rewrite lookup_insert_ne; [done|congruence].
Qed.

Lemma log_bread s v b :
  log_rep s v -> (forall i, held v !! i <> Some b) -> (base.size (held v) < max_held)%nat ->
  exists i s', on_cache (Bio.bread me ROOTDEV b) s = Ok i s' /\ held v !! i = None /\
    log_rep s' (with_held v (<[i := b]> (held v))).
Proof.
  intros Hr Hnh Hsz. assert (~ is_held v b) as Hnb by (intros [i Hi]; by apply (Hnh i)).
  pose proof (lr_refs _ _ Hr b) as Hrb. rewrite (bool_decide_false (is_held v b)) in Hrb by done.
  assert (0 <= refs (bc s) (root b) <= 1) as Hrange by (rewrite Hrb; case_bool_decide; lia).
  destruct (bread_effect (bc s) me (root b) (lr_ok _ _ Hr) eq_refl (lr_free _ _ Hr b Hnb) ltac:(lia)
    (fun _ => buffer_free _ _ Hr Hsz)) as (i & c & Hb & Hok & Hh & He & Hkeep & Hd & Hw).
  rewrite (lr_view _ _ Hr) in Hh, He. destruct (effect_at _ _ _ _ _ _ He) as (Hv & Hrf & Hl).
  assert (held v !! i = None) as Hi.
  { destruct (held v !! i) as [x|] eqn:E; [|done]. exfalso.
    pose proof (Hkeep _ _ _ _ (lr_held _ _ Hr i x E)) as Hx.
    destruct Hx as (_ & _ & Hk1 & _), Hh as (_ & _ & Hk2 & _). rewrite Hk1 in Hk2.
    apply root_inj in Hk2 as ->. by apply (Hnh i). }
  exists i, {| bc := c; lg := lg s |}. split; [by apply (on_cache_Ok (Bio.bread me ROOTDEV b))|].
  split; [done|]. destruct Hr. split; cbn [bc lg contents dirty BlockStore.logged with_held]; try done.
  - intros x. destruct (decide (x = b)) as [->|Hx]; [done|].
    destruct (effect_same _ _ _ _ _ _ x He) as (-> & _); [|done]. intros E. by apply Hx, root_inj.
  - intros j x Hj. cbn [held with_held] in Hj. apply lookup_insert_Some in Hj as [[<- <-]|[_ Hj]]; [done|].
    by apply Hkeep, lr_held0.
  - intros j1 j2 x H1 H2. cbn [held with_held] in H1, H2.
    apply lookup_insert_Some in H1, H2. naive_solver.
  - intros x. rewrite is_held_insert by done. intros Hx.
    destruct (effect_same _ _ _ _ _ _ x He) as (_ & _ & ->); [|by apply lr_free0; tauto].
    intros E. apply Hx. left. by apply root_inj.
  - intros x. destruct (decide (x = b)) as [->|Hx].
    + rewrite Hrf, Hrb, (bool_decide_true (is_held _ b)); [lia|]. apply is_held_insert; auto.
    + destruct (effect_same _ _ _ _ _ _ x He) as (_ & -> & _); [intros E; by apply Hx, root_inj|].
      rewrite lr_refs0. f_equal. erewrite bool_decide_ext; [done|].
      rewrite is_held_insert by done. tauto.
  - intros x H1 H2. rewrite Hd. by apply lr_clean0.
Qed.

Lemma log_bset s v i b d :
  log_rep s v -> held v !! i = Some b -> block_ok d ->
  exists s', on_cache (bmodify i (fun _ => d)) s = Ok tt s' /\ log_rep s' (with_contents v b d).
Proof.
  intros Hr Hi Hdok. pose proof (lr_held _ _ Hr i b Hi) as Hh.
  destruct (bmodify_effect (bc s) me i (root b) _ (fun _ => d) (lr_ok _ _ Hr) Hh)
    as (c & Hm & Hok & Hh' & He & Hkeep & Hd & Hw).
  destruct (effect_at _ _ _ _ _ _ He) as (Hv & Hrf & Hl).
  exists {| bc := c; lg := lg s |}. split; [by apply (on_cache_Ok (bmodify i (fun _ => d)))|].
  assert (forall x, is_held (with_contents v b d) x <-> is_held v x) as Hih by done.
  destruct Hr. split; cbn [bc lg contents dirty held BlockStore.logged with_contents]; try done.
  - intros x. destruct (decide (x = b)) as [->|Hx]; [by rewrite fn_lookup_insert|].
    rewrite fn_lookup_insert_ne by done.
    destruct (effect_same _ _ _ _ _ _ x He) as (-> & _); [|done]. intros E. by apply Hx, root_inj.
  - intros x. destruct (decide (x = b)) as [->|Hx]; [by rewrite fn_lookup_insert|].
    by rewrite fn_lookup_insert_ne.
  - intros j x Hj. destruct (decide (x = b)) as [->|Hx].
    + rewrite fn_lookup_insert. by rewrite (lr_one0 j i b Hj Hi).
    + rewrite fn_lookup_insert_ne by done. apply Hkeep; [|by apply lr_held0].
      intros ->. congruence.
  - intros x Hx. destruct (effect_same _ _ _ _ _ _ x He) as (_ & _ & ->); [|by apply lr_free0].
    intros E. apply root_inj in E as ->. apply Hx. by exists i.
  - intros x. destruct (decide (x = b)) as [->|Hx]; [by rewrite Hrf; apply lr_refs0|].
    destruct (effect_same _ _ _ _ _ _ x He) as (_ & -> & _); [intros E; by apply Hx, root_inj|].
    apply lr_refs0.
  - intros x H1 H2. assert (x <> b) by set_solver. rewrite fn_lookup_insert_ne, Hd by done.
    apply lr_clean0; set_solver.
Qed.

Lemma log_brelse s v i b :
  log_rep s v -> held v !! i = Some b -> b ∉ dirty v ->
  exists s', on_cache (Bio.brelse me i) s = Ok tt s' /\
    log_rep s' (with_held v (delete i (held v))).
Proof.
  intros Hr Hi Hnd. pose proof (lr_held _ _ Hr i b Hi) as Hh.
  pose proof (lr_refs _ _ Hr b) as Hrb.
  rewrite (bool_decide_true (is_held v b)) in Hrb by (by exists i).
  assert (1 <= refs (bc s) (root b) <= 2) as Hrange by (rewrite Hrb; case_bool_decide; lia).
  destruct (brelse_effect (bc s) me i (root b) _ (lr_ok _ _ Hr) Hh)
    as (c & Hb & Hok & He & Hkeep & Hd & Hw); [lia| |].
  { intros H1. apply (lr_clean _ _ Hr); [|done]. case_bool_decide; [lia|done]. }
  destruct (effect_at _ _ _ _ _ _ He) as (Hv & Hrf & Hl).
  exists {| bc := c; lg := lg s |}. split; [by apply (on_cache_Ok (Bio.brelse me i))|].
  assert (forall x, is_held (with_held v (delete i (held v))) x <-> x <> b /\ is_held v x) as Hih.
  { intros x. unfold is_held. cbn [held with_held]. split.
    - intros [j Hj]. apply lookup_delete_Some in Hj as [Hne Hj]. split; [|by eauto].
      intros ->. apply Hne. by eapply (lr_one _ _ Hr).
    - intros [Hne [j Hj]]. exists j. rewrite lookup_delete_ne; [done|congruence]. }
  destruct Hr. split; cbn [bc lg contents dirty BlockStore.logged with_held]; try done.
  - intros x. destruct (decide (x = b)) as [->|Hx]; [done|].
    destruct (effect_same _ _ _ _ _ _ x He) as (-> & _); [|done]. intros E. by apply Hx, root_inj.
  - intros j x Hj. cbn [held with_held] in Hj. apply lookup_delete_Some in Hj as [Hne Hj].
    apply Hkeep; [done|]. by apply lr_held0.
  - intros j1 j2 x. cbn [held with_held]. rewrite !lookup_delete_Some. naive_solver.
  - intros x. rewrite Hih. intros Hx. destruct (decide (x = b)) as [->|Hxb]; [done|].
    destruct (effect_same _ _ _ _ _ _ x He) as (_ & _ & ->); [|by apply lr_free0; tauto].
    intros E. by apply Hxb, root_inj.
  - intros x. destruct (decide (x = b)) as [->|Hx].
    + rewrite Hrf, Hrb, (bool_decide_false (is_held _ b)); [lia|]. rewrite Hih. tauto.
    + destruct (effect_same _ _ _ _ _ _ x He) as (_ & -> & _); [intros E; by apply Hx, root_inj|].
      rewrite lr_refs0. f_equal. erewrite bool_decide_ext; [done|]. rewrite Hih. tauto.
  - intros x H1 H2. rewrite Hd. by apply lr_clean0.
Qed.

Lemma size_logged (X : gset Z) (l : list Z) :
  NoDup l -> (forall b, b ∈ X <-> b ∈ l) -> base.size X = length l.
Proof.
  intros Hnd Heq. rewrite <- (size_list_to_set (C := gset Z) l Hnd). f_equal.
  apply set_eq. intros b. by rewrite Heq, elem_of_list_to_set.
Qed.

Lemma log_log_write s v i b :
  log_rep s v -> held v !! i = Some b ->
  (base.size ({[b]} ∪ BlockStore.logged v) <= log_cap)%nat ->
  exists s', Log.log_write i s = Ok tt s' /\ log_rep s' (with_logged v b).
Proof.
  intros Hr Hi Hcap. pose proof (lr_held _ _ Hr i b Hi) as Hh.
  pose proof (lr_refs _ _ Hr b) as Hrb.
  rewrite (bool_decide_true (is_held v b)) in Hrb by (by exists i).
  assert (1 <= refs (bc s) (root b) <= 2) as Hrange by (rewrite Hrb; case_bool_decide; lia).
  pose proof (size_logged _ _ (lr_nodup _ _ Hr) (lr_logged _ _ Hr)) as Hsz.
  pose proof (lr_cap _ _ Hr) as Hc0. pose proof (lr_size _ _ Hr) as Hs0.
  set (bs := Log.logged (lg s)) in *.
  destruct (log_write_spec me s bs i b _ (lr_ok _ _ Hr) Hh ltac:(lia) (lr_len _ _ Hr) (lr_n _ _ Hr)
    eq_refl) as (c & l' & Hlw & Hok & Hh' & Hd & Hw & He & Hkeep & Hsize & Hdev & Hst & Hout & Hlen & Hn & Hbs).
  { unfold log_cap, LOGSIZE, MAXOPBLOCKS in *. lia. }
  { lia. }
  { apply Hr. }
  destruct (effect_at _ _ _ _ _ _ He) as (Hv & Hrf & Hl).
  exists {| bc := c; lg := l' |}. split; [done|].
  assert (forall x, x ∈ BlockStore.logged v <-> x ∈ bs) as Hlg by apply Hr.
  assert (forall x, is_held (with_logged v b) x <-> is_held v x) as Hih by done.
  assert (NoDup (if bool_decide (b ∈ bs) then bs else bs ++ [b]) /\
    forall x, x ∈ (if bool_decide (b ∈ bs) then bs else bs ++ [b]) <-> x = b \/ x ∈ bs) as [Hnd Hin].
  { case_bool_decide as Hb.
    - split; [apply Hr|]. intros x. split; [by auto|]. by intros [->|?].
    - split; [|intros x; rewrite elem_of_app, list_elem_of_singleton; tauto].
      apply list.NoDup_app. split; [apply Hr|]. split; [|apply NoDup_singleton].
      by intros x Hx ->%list_elem_of_singleton. }
  destruct Hr. split; cbn [bc lg contents dirty held BlockStore.logged with_logged]; rewrite ?Hbs; try done.
  - congruence.
  - intros x. rewrite elem_of_union, elem_of_singleton, Hin, Hlg. done.
  - lia.
  - by rewrite Hsize.
  - intros x. destruct (decide (x = b)) as [->|Hx]; [done|].
    destruct (effect_same _ _ _ _ _ _ x He) as (-> & _); [|done]. intros E. by apply Hx, root_inj.
  - intros j x Hj. destruct (decide (j = i)) as [->|Hji].
    + assert (x = b) as -> by congruence. done.
    + by apply Hkeep, lr_held0.
  - intros x Hx. destruct (effect_same _ _ _ _ _ _ x He) as (_ & _ & ->); [|by apply lr_free0].
    intros E. apply root_inj in E as ->. apply Hx. by exists i.
  - intros x. destruct (decide (x = b)) as [->|Hx].
    + rewrite Hrf, Hrb, (bool_decide_true (is_held _ b)) by (by exists i).
      rewrite (bool_decide_true (b ∈ {[b]} ∪ _)) by set_solver.
      rewrite (bool_decide_ext _ _ (Hlg b)). case_bool_decide; lia.
    + destruct (effect_same _ _ _ _ _ _ x He) as (_ & -> & _); [intros E; by apply Hx, root_inj|].
      rewrite lr_refs0. f_equal. erewrite (bool_decide_ext (x ∈ {[b]} ∪ _)); [done|]. set_solver.
  - intros x H1 H2. rewrite Hd. apply lr_clean0; set_solver.
Qed.

Definition log_laws : @BlockStoreLaws lstate log_store.
Proof.
  refine (@Build_BlockStoreLaws lstate log_store log_rep _ _ _ _ _ _);
    cbn [BlockStore.bread BlockStore.bdata BlockStore.bset BlockStore.log_write BlockStore.brelse log_store].
  - intros s v b Hr. apply Hr.
  - apply log_bread.
  - intros s v i b Hr Hi. unfold kgets. f_equal.
    by destruct (lr_held _ _ Hr i b Hi) as (_ & _ & _ & _ & _ & <-).
  - apply log_bset.
  - apply log_log_write.
  - apply log_brelse.
Defined.
End BlockLog.
