(* ===== verification/Virtio.v ===== *)
(** The disk driver ([kernel/virtio_disk.c], [kernel/virtio.h]).

    A request is a chain of three descriptors: the command, the data of the
    buffer, and a status byte.  The driver puts the head of the chain into the
    [avail] ring; the device carries the request out, in its own order, and puts
    the head into the [used] ring; the interrupt handler then marks the buffer as
    done.  The fields of [struct disk] are those of the record [disk]; a pointer
    in a descriptor is a value of [vaddr].

    The device is hardware: its steps ([dev_take] and [dev_done]) are those the
    virtio specification gives for a block device.  Callers hold the lock of the
    buffer they pass, so two calls never share one. *)

From stdpp Require Import gmap.
From S2P Require Import Prelude Mem Kalloc Block Ring.

(** ** Data *)

Definition NUM : Z := 8.
Definition VRING_DESC_F_NEXT : Z := 1.
Definition VRING_DESC_F_WRITE : Z := 2.
Definition VIRTIO_BLK_T_IN : Z := 0.
Definition VIRTIO_BLK_T_OUT : Z := 1.
Definition BLK_REQ_SIZE : Z := 16.

Definition u16 (x : Z) : Z := x mod 2 ^ 16.

(** What a descriptor points to: nothing, [disk.ops[i]], the data of buffer
    [b], or [disk.info[i].status]. *)
Inductive vaddr : Type := ANull | AOps (i : Z) | AData (b : Z) | AStatus (i : Z).

Record virtq_desc : Type := Desc { d_addr : vaddr; d_len : Z; d_flags : Z; d_next : Z }.
Record virtio_blk_req : Type := Req { r_type : Z; r_reserved : Z; r_sector : Z }.
Record dinfo : Type := Info { info_b : option Z; info_status : Z }.

(** The fields of [struct buf] that the driver uses. *)
Record vbuf : Type := VBuf { vb_blockno : Z; vb_disk : Z; vb_data : list Z }.

(** Where callers sleep: on [&disk.free[0]] or on a buffer. *)
Inductive vchan : Type := CFree | CBuf (b : Z).

#[export] Instance vchan_eq_dec : EqDecision vchan.
Proof. solve_decision. Defined.

(** [asleep] are the callers, by their buffer, that sleep and where. *)
Record disk : Type := Disk {
  desc : list virtq_desc;
  avail_idx : Z;
  avail_ring : list Z;
  used_ridx : Z;
  used_ring : list Z;
  dfree : list bool;
  used_idx : Z;
  info : list dinfo;
  ops : list virtio_blk_req;
  bufs : Z -> vbuf;
  asleep : gmap Z vchan
}.

Definition set_desc (d : disk) x := Disk x (avail_idx d) (avail_ring d) (used_ridx d) (used_ring d)
  (dfree d) (used_idx d) (info d) (ops d) (bufs d) (asleep d).
Definition set_avail (d : disk) i r := Disk (desc d) i r (used_ridx d) (used_ring d)
  (dfree d) (used_idx d) (info d) (ops d) (bufs d) (asleep d).
Definition set_used (d : disk) i r := Disk (desc d) (avail_idx d) (avail_ring d) i r
  (dfree d) (used_idx d) (info d) (ops d) (bufs d) (asleep d).
Definition set_dfree (d : disk) x := Disk (desc d) (avail_idx d) (avail_ring d) (used_ridx d) (used_ring d)
  x (used_idx d) (info d) (ops d) (bufs d) (asleep d).
Definition set_used_idx (d : disk) x := Disk (desc d) (avail_idx d) (avail_ring d) (used_ridx d) (used_ring d)
  (dfree d) x (info d) (ops d) (bufs d) (asleep d).
Definition set_info (d : disk) x := Disk (desc d) (avail_idx d) (avail_ring d) (used_ridx d) (used_ring d)
  (dfree d) (used_idx d) x (ops d) (bufs d) (asleep d).
Definition set_ops (d : disk) x := Disk (desc d) (avail_idx d) (avail_ring d) (used_ridx d) (used_ring d)
  (dfree d) (used_idx d) (info d) x (bufs d) (asleep d).
Definition set_bufs (d : disk) x := Disk (desc d) (avail_idx d) (avail_ring d) (used_ridx d) (used_ring d)
  (dfree d) (used_idx d) (info d) (ops d) x (asleep d).
Definition set_asleep (d : disk) x := Disk (desc d) (avail_idx d) (avail_ring d) (used_ridx d) (used_ring d)
  (dfree d) (used_idx d) (info d) (ops d) (bufs d) x.

(** Array accesses of the driver. *)
Definition vget {A} (f : disk -> list A) (i : Z) : M disk A := let! l := kgets f in kopt (zget l i).
Definition vput {A} (f : disk -> list A) (set : disk -> list A -> disk) (i : Z) (x : A) : M disk unit :=
  let! l := kgets f in
  let! l := kopt (zset l i x) in
  kmodify (fun d => set d l).

Definition put_buf (b : Z) (x : vbuf) : M disk unit :=
  kmodify (fun d => set_bufs d (fun c => if c =? b then x else bufs d c)).

Definition vwakeup (c : vchan) : M disk unit :=
  kmodify (fun d => set_asleep d (filter (fun x => x.2 <> c) (asleep d))).

(** [sleep(c, &disk.vdisk_lock)] of the call for buffer [b]. *)
Definition vsleep {A} (b : Z) (c : vchan) : M disk A :=
  kmodify (fun d => set_asleep d (<[b := c]> (asleep d))) ;;; ksleep (Chan "disk" b).

(** ** Descriptors *)

Fixpoint first_free (l : list bool) (i : Z) : option Z :=
  match l with
  | [] => None
  | x :: l => if x : bool then Some i else first_free l (i + 1)
  end.

Definition alloc_desc : M disk Z :=
  let! l := kgets dfree in
  match first_free l 0 with
  | Some i => vput dfree set_dfree i false ;;; kret i
  | None => kret (-1)
  end.

Definition free_desc (i : Z) : M disk unit :=
  if NUM <=? i then panic "free_desc 1"
  else
    let! f := vget dfree i in
    if f : bool then panic "free_desc 2"
    else
      vput desc set_desc i (Desc ANull 0 0 0) ;;;
      vput dfree set_dfree i true ;;;
      vwakeup CFree.

(** The loop of [free_chain]; every round frees a descriptor that was in use,
    so [NUM + 1] rounds are enough. *)
Fixpoint free_chain_loop (k : nat) (i : Z) : M disk unit :=
  match k with
  | O => panic "free_chain: does not return"
  | S k =>
      let! d := vget desc i in
      free_desc i ;;;
      if negb (Z.land (d_flags d) VRING_DESC_F_NEXT =? 0) then free_chain_loop k (d_next d)
      else kret tt
  end.

Definition free_chain (i : Z) : M disk unit := free_chain_loop (S (Z.to_nat NUM)) i.

Fixpoint free_all (l : list Z) : M disk unit :=
  match l with
  | [] => kret tt
  | i :: l => free_desc i ;;; free_all l
  end.

(** The loop of [alloc3_desc]: [k] more descriptors, after those in [idx]. *)
Fixpoint alloc_descs (k : nat) (idx : list Z) : M disk (option (list Z)) :=
  match k with
  | O => kret (Some idx)
  | S k =>
      let! i := alloc_desc in
      if i <? 0 then free_all idx ;;; kret None else alloc_descs k (idx ++ [i])
  end.

Definition alloc3_desc : M disk (option (list Z)) := alloc_descs 3 [].

(** ** Requests *)

(** The part of [virtio_disk_rw] from the three descriptors to the notification
    of the device. *)
Definition submit (b : Z) (write : bool) (i0 i1 i2 : Z) : M disk unit :=
  let! vb := kgets (fun d => bufs d b) in
  let sector := u32 (vb_blockno vb * (BSIZE / 512)) in
  vput ops set_ops i0 (Req (if write then VIRTIO_BLK_T_OUT else VIRTIO_BLK_T_IN) 0 sector) ;;;
  vput desc set_desc i0 (Desc (AOps i0) BLK_REQ_SIZE VRING_DESC_F_NEXT i1) ;;;
  vput desc set_desc i1 (Desc (AData b) BSIZE
    (Z.lor (if write then 0 else VRING_DESC_F_WRITE) VRING_DESC_F_NEXT) i2) ;;;
  let! x := vget info i0 in
  vput info set_info i0 (Info (info_b x) 0xff) ;;;
  vput desc set_desc i2 (Desc (AStatus i0) 1 VRING_DESC_F_WRITE 0) ;;;
  put_buf b (VBuf (vb_blockno vb) 1 (vb_data vb)) ;;;
  let! x := vget info i0 in
  vput info set_info i0 (Info (Some b) (info_status x)) ;;;
  let! d := kget in
  let! r := kopt (zset (avail_ring d) (avail_idx d mod NUM) i0) in
  kmodify (fun d => set_avail d (avail_idx d) r) ;;;
  kmodify (fun d => set_avail d (u16 (avail_idx d + 1)) (avail_ring d)).

(** [virtio_disk_rw] up to its second loop: the head of the chain.  It sleeps
    when there are not three descriptors, and starts again when it wakes up. *)
Definition rw_begin (b : Z) (write : bool) : M disk Z :=
  let! idx := alloc3_desc in
  match idx with
  | Some [i0; i1; i2] => submit b write i0 i1 i2 ;;; kret i0
  | _ => vsleep b CFree
  end.

(** The second loop and the end of [virtio_disk_rw]. *)
Definition rw_finish (b i0 : Z) : M disk unit :=
  let! vb := kgets (fun d => bufs d b) in
  if vb_disk vb =? 1 then vsleep b (CBuf b)
  else
    let! x := vget info i0 in
    vput info set_info i0 (Info None (info_status x)) ;;;
    free_chain i0.

(** The loop of the interrupt handler; [k] is more than the number of entries
    of the used ring that it has not seen. *)
Fixpoint intr_loop (k : nat) : M disk unit :=
  match k with
  | O => panic "virtio_disk_intr: does not return"
  | S k =>
      let! d := kget in
      if used_idx d =? used_ridx d then kret tt
      else
        let! id := vget used_ring (used_idx d mod NUM) in
        let! x := vget info id in
        if negb (info_status x =? 0) then panic "virtio_disk_intr status"
        else
          let! b := kopt (info_b x) in
          let! vb := kgets (fun d => bufs d b) in
          put_buf b (VBuf (vb_blockno vb) 0 (vb_data vb)) ;;;
          vwakeup (CBuf b) ;;;
          kmodify (fun d => set_used_idx d (u16 (used_idx d + 1))) ;;;
          intr_loop k
  end.

Definition virtio_disk_intr : M disk unit :=
  let! d := kget in intr_loop (S (Z.to_nat (u16 (used_ridx d - used_idx d)))).

(** ** The device *)

Definition SECTOR : Z := 512.

(** [len] bytes from sector [s] on, and the sectors after writing [data] there. *)
Definition read_sectors (sec : Z -> list Z) (s len : Z) : list Z :=
  concat ((fun k => sec (s + k)) <$> seqZ 0 (len / SECTOR)).

Definition write_sectors (sec : Z -> list Z) (s : Z) (data : list Z) : Z -> list Z := fun x =>
  let k := x - s in
  if (0 <=? k) && (k <? Z.of_nat (length data) / SECTOR)
  then take (Z.to_nat SECTOR) (drop (Z.to_nat (k * SECTOR)) data) else sec x.

(** The request whose chain starts at [h]: command, data and status.  The
    device sets the status to [st].  A request that it carries out has status 0,
    and the data are moved in the direction the command says, if the descriptor of
    the data permits it; any other status reports an error, such as a sector past
    the end of the disk, and nothing is moved. *)
Definition device_op (st h : Z) (d : disk) (sec : Z -> list Z) : option (disk * (Z -> list Z)) :=
  d0 ← zget (desc d) h;
  d1 ← zget (desc d) (d_next d0);
  d2 ← zget (desc d) (d_next d1);
  match d_addr d0, d_addr d1, d_addr d2 with
  | AOps i, AData b, AStatus j =>
      r ← zget (ops d) i;
      x ← zget (info d) j;
      info' ← zset (info d) j (Info (info_b x) st);
      let vb := bufs d b in
      let device_writes := negb (Z.land (d_flags d1) VRING_DESC_F_WRITE =? 0) in
      if negb (st =? 0) then Some (set_info d info', sec)
      else if (r_type r =? VIRTIO_BLK_T_OUT) && negb device_writes then
        Some (set_info d info', write_sectors sec (r_sector r) (take (Z.to_nat (d_len d1)) (vb_data vb)))
      else if (r_type r =? VIRTIO_BLK_T_IN) && device_writes then
        Some (set_info (set_bufs d (fun c => if c =? b
                then VBuf (vb_blockno vb) (vb_disk vb)
                       (read_sectors sec (r_sector r) (d_len d1) ++ drop (Z.to_nat (d_len d1)) (vb_data vb))
                else bufs d c)) info', sec)
      else None
  | _, _, _ => None
  end.

(** ** The driver, its callers and the device together *)

(** A call of [virtio_disk_rw]: before its request is made, and after, with the
    head of its chain. *)
Inductive call : Type := Want (write : bool) | Wait (write : bool) (h : Z).

(** [dev_seen] is how far the device has looked in the avail ring; [taken] are
    the requests it works on; [errors] is whether it has reported an error, which
    the driver does not read. *)
Record vworld : Type := VWorld {
  vd : disk;
  sec : Z -> list Z;
  dev_seen : Z;
  taken : list Z;
  calls : gmap Z call;
  errors : bool
}.

Definition with_vd (w : vworld) d := VWorld d (sec w) (dev_seen w) (taken w) (calls w) (errors w).
Definition with_call (w : vworld) d b c :=
  VWorld d (sec w) (dev_seen w) (taken w) (<[b := c]> (calls w)) (errors w).

(** A buffer with a block of the disk. *)
Definition buf_ok (x : vbuf) : Prop :=
  0 <= vb_blockno x < 2 ^ 31 /\ Z.of_nat (length (vb_data x)) = BSIZE.

(** The holder of a buffer's lock may change it while no call uses it, and
    may call [virtio_disk_rw]. *)
Inductive client_step (w : vworld) : vworld -> Prop :=
| step_client b x :
    calls w !! b = None -> buf_ok x -> vb_disk x = vb_disk (bufs (vd w) b) ->
    client_step w (with_vd w (set_bufs (vd w) (fun c => if c =? b then x else bufs (vd w) c)))
| step_call b write : calls w !! b = None -> client_step w (with_call w (vd w) b (Want write)).

(** A call that finds no descriptors, or its request under way, goes to sleep;
    one that is asleep runs only after a wakeup. *)
Inductive sleep_step (w : vworld) : vworld -> Prop :=
| step_begin_sleep b write c d :
    calls w !! b = Some (Want write) -> asleep (vd w) !! b = None ->
    rw_begin b write (vd w) = Sleep c d -> sleep_step w (with_vd w d)
| step_finish_sleep b write h c d :
    calls w !! b = Some (Wait write h) -> asleep (vd w) !! b = None ->
    rw_finish b h (vd w) = Sleep c d -> sleep_step w (with_vd w d).

(** The steps of the calls, the interrupt handler and the device. *)
Inductive work_step (w : vworld) : vworld -> Prop :=
| step_begin b write h d :
    calls w !! b = Some (Want write) -> asleep (vd w) !! b = None ->
    rw_begin b write (vd w) = Ok h d -> work_step w (with_call w d b (Wait write h))
| step_finish b write h d :
    calls w !! b = Some (Wait write h) -> asleep (vd w) !! b = None ->
    rw_finish b h (vd w) = Ok tt d ->
    work_step w (VWorld d (sec w) (dev_seen w) (taken w) (delete b (calls w)) (errors w))
| step_intr d : virtio_disk_intr (vd w) = Ok tt d -> work_step w (with_vd w d)
| dev_take h :
    dev_seen w <> avail_idx (vd w) -> zget (avail_ring (vd w)) (dev_seen w mod NUM) = Some h ->
    work_step w (VWorld (vd w) (sec w) (u16 (dev_seen w + 1)) (taken w ++ [h]) (calls w) (errors w))
| dev_done i h st d sec' ring :
    taken w !! i = Some h -> 0 <= st < 256 -> device_op st h (vd w) (sec w) = Some (d, sec') ->
    zset (used_ring d) (used_ridx d mod NUM) h = Some ring ->
    work_step w (VWorld (set_used d (u16 (used_ridx d + 1)) ring) sec' (dev_seen w)
                   (delete i (taken w)) (calls w) (errors w || negb (st =? 0))).

Definition vstep (w w' : vworld) : Prop := client_step w w' \/ work_step w w' \/ sleep_step w w'.

(** ** Initialisation *)

Definition VIRTIO_MMIO_MAGIC_VALUE : Z := 0x000.
Definition VIRTIO_MMIO_VERSION : Z := 0x004.
Definition VIRTIO_MMIO_DEVICE_ID : Z := 0x008.
Definition VIRTIO_MMIO_VENDOR_ID : Z := 0x00c.
Definition VIRTIO_MMIO_DEVICE_FEATURES : Z := 0x010.
Definition VIRTIO_MMIO_DRIVER_FEATURES : Z := 0x020.
Definition VIRTIO_MMIO_QUEUE_SEL : Z := 0x030.
Definition VIRTIO_MMIO_QUEUE_NUM_MAX : Z := 0x034.
Definition VIRTIO_MMIO_QUEUE_NUM : Z := 0x038.
Definition VIRTIO_MMIO_QUEUE_READY : Z := 0x044.
Definition VIRTIO_MMIO_STATUS : Z := 0x070.
Definition VIRTIO_MMIO_QUEUE_DESC_LOW : Z := 0x080.
Definition VIRTIO_MMIO_QUEUE_DESC_HIGH : Z := 0x084.
Definition VIRTIO_MMIO_DRIVER_DESC_LOW : Z := 0x090.
Definition VIRTIO_MMIO_DRIVER_DESC_HIGH : Z := 0x094.
Definition VIRTIO_MMIO_DEVICE_DESC_LOW : Z := 0x0a0.
Definition VIRTIO_MMIO_DEVICE_DESC_HIGH : Z := 0x0a4.

Definition VIRTIO_CONFIG_S_ACKNOWLEDGE : Z := 1.
Definition VIRTIO_CONFIG_S_DRIVER : Z := 2.
Definition VIRTIO_CONFIG_S_DRIVER_OK : Z := 4.
Definition VIRTIO_CONFIG_S_FEATURES_OK : Z := 8.

Definition VIRTIO_BLK_F_RO : Z := 5.
Definition VIRTIO_BLK_F_SCSI : Z := 7.
Definition VIRTIO_BLK_F_CONFIG_WCE : Z := 11.
Definition VIRTIO_BLK_F_MQ : Z := 12.
Definition VIRTIO_F_ANY_LAYOUT : Z := 27.
Definition VIRTIO_RING_F_INDIRECT_DESC : Z := 28.
Definition VIRTIO_RING_F_EVENT_IDX : Z := 29.

(** The registers written so far, oldest first, and the memory. *)
Record vinit : Type := VInit { reg_writes : list (Z * Z); ipages : kstate }.

Section Init.
(** What the device answers when a register is read, after these writes. *)
Context (answer : list (Z * Z) -> Z -> Z).

Definition R (r : Z) : M vinit Z := kgets (fun s => u32 (answer (reg_writes s) r)).

Definition set_R (r v : Z) : M vinit unit :=
  kmodify (fun s => {| reg_writes := reg_writes s ++ [(r, u32 v)]; ipages := ipages s |}).

Definition ikalloc : M vinit Z := fun s =>
  match kalloc (ipages s) with
  | Ok a p => Ok a {| reg_writes := reg_writes s; ipages := p |}
  | Panic msg => Panic msg
  | Sleep c p => Sleep c {| reg_writes := reg_writes s; ipages := p |}
  end.

Definition izero (a : Z) : M vinit unit := kmodify (fun s =>
  {| reg_writes := reg_writes s;
     ipages := {| kmem := memset (kmem (ipages s)) a 0 PGSIZE; freelist := freelist (ipages s) |} |}).

(** [features &= ~(1 << bit)]. *)
Definition without (features bit : Z) : Z := Z.land features (Z.lnot (Z.shiftl 1 bit)).

Definition driver_features (features : Z) : Z :=
  without (without (without (without (without (without (without features
    VIRTIO_BLK_F_RO) VIRTIO_BLK_F_SCSI) VIRTIO_BLK_F_CONFIG_WCE) VIRTIO_BLK_F_MQ)
    VIRTIO_F_ANY_LAYOUT) VIRTIO_RING_F_EVENT_IDX) VIRTIO_RING_F_INDIRECT_DESC.

(** The free flags after the call: all descriptors are unused. *)
Definition virtio_disk_init : M vinit (list bool) :=
  let! magic := R VIRTIO_MMIO_MAGIC_VALUE in
  let! version := R VIRTIO_MMIO_VERSION in
  let! device := R VIRTIO_MMIO_DEVICE_ID in
  let! vendor := R VIRTIO_MMIO_VENDOR_ID in
  if negb (magic =? 0x74726976) || negb (version =? 2) || negb (device =? 2) || negb (vendor =? 0x554d4551)
  then panic "could not find virtio disk"
  else
    let status := 0 in
    set_R VIRTIO_MMIO_STATUS status ;;;
    let status := Z.lor status VIRTIO_CONFIG_S_ACKNOWLEDGE in
    set_R VIRTIO_MMIO_STATUS status ;;;
    let status := Z.lor status VIRTIO_CONFIG_S_DRIVER in
    set_R VIRTIO_MMIO_STATUS status ;;;
    let! features := R VIRTIO_MMIO_DEVICE_FEATURES in
    set_R VIRTIO_MMIO_DRIVER_FEATURES (driver_features features) ;;;
    let status := Z.lor status VIRTIO_CONFIG_S_FEATURES_OK in
    set_R VIRTIO_MMIO_STATUS status ;;;
    let! status := R VIRTIO_MMIO_STATUS in
    if Z.land status VIRTIO_CONFIG_S_FEATURES_OK =? 0 then panic "virtio disk FEATURES_OK unset"
    else
      set_R VIRTIO_MMIO_QUEUE_SEL 0 ;;;
      let! ready := R VIRTIO_MMIO_QUEUE_READY in
      if negb (ready =? 0) then panic "virtio disk should not be ready"
      else
        let! max := R VIRTIO_MMIO_QUEUE_NUM_MAX in
        if max =? 0 then panic "virtio disk has no queue 0"
        else if max <? NUM then panic "virtio disk max queue too short"
        else
          let! pdesc := ikalloc in
          let! pavail := ikalloc in
          let! pused := ikalloc in
          if (pdesc =? 0) || (pavail =? 0) || (pused =? 0) then panic "virtio disk kalloc"
          else
            izero pdesc ;;;
            izero pavail ;;;
            izero pused ;;;
            set_R VIRTIO_MMIO_QUEUE_NUM NUM ;;;
            set_R VIRTIO_MMIO_QUEUE_DESC_LOW pdesc ;;;
            set_R VIRTIO_MMIO_QUEUE_DESC_HIGH (Z.shiftr pdesc 32) ;;;
            set_R VIRTIO_MMIO_DRIVER_DESC_LOW pavail ;;;
            set_R VIRTIO_MMIO_DRIVER_DESC_HIGH (Z.shiftr pavail 32) ;;;
            set_R VIRTIO_MMIO_DEVICE_DESC_LOW pused ;;;
            set_R VIRTIO_MMIO_DEVICE_DESC_HIGH (Z.shiftr pused 32) ;;;
            set_R VIRTIO_MMIO_QUEUE_READY 1 ;;;
            let free := replicate (Z.to_nat NUM) true in
            let status := Z.lor status VIRTIO_CONFIG_S_DRIVER_OK in
            set_R VIRTIO_MMIO_STATUS status ;;;
            kret free.
End Init.

(** The driver after initialisation: the queue pages and the globals are zero. *)
Definition vboot (sec : Z -> list Z) (bufs : Z -> vbuf) (free : list bool) : vworld :=
  VWorld (Disk (replicate 8 (Desc ANull 0 0 0)) 0 (replicate 8 0) 0 (replicate 8 0) free 0
            (replicate 8 (Info None 0)) (replicate 8 (Req 0 0 0)) bufs ∅) sec 0 [] ∅ false.

(** ** An atomic disk *)

(** A call is made, carried out at one instant, and returns. *)
Inductive acall : Type := ACalled (write : bool) | ADone (write : bool).

Record adisk : Type := ADisk {
  a_block : Z -> list Z;
  a_buf : Z -> Z * list Z;
  a_call : Z -> option acall
}.

(** Equality up to what can be looked up. *)
Definition same_call_but (a a' : adisk) (b : Z) (c : option acall) : Prop :=
  forall x, a_call a' x = if x =? b then c else a_call a x.
Definition same_bufs (a a' : adisk) : Prop := forall c, a_buf a' c = a_buf a c.
Definition same_blocks (a a' : adisk) : Prop := forall n, 0 <= n < 2 ^ 31 -> a_block a' n = a_block a n.

Inductive astep (a a' : adisk) : Prop :=
| a_client b :
    a_call a b = None -> (forall c, c <> b -> a_buf a' c = a_buf a c) ->
    same_blocks a a' -> (forall x, a_call a' x = a_call a x) -> astep a a'
| a_start b write :
    a_call a b = None -> same_call_but a a' b (Some (ACalled write)) ->
    same_bufs a a' -> same_blocks a a' -> astep a a'
| a_write b :
    a_call a b = Some (ACalled true) -> same_call_but a a' b (Some (ADone true)) -> same_bufs a a' ->
    (forall n, 0 <= n < 2 ^ 31 ->
       a_block a' n = if n =? (a_buf a b).1 then (a_buf a b).2 else a_block a n) -> astep a a'
| a_read b :
    a_call a b = Some (ACalled false) -> same_call_but a a' b (Some (ADone false)) -> same_blocks a a' ->
    (forall c, a_buf a' c = if c =? b then ((a_buf a b).1, a_block a (a_buf a b).1) else a_buf a c) ->
    astep a a'
| a_return b write :
    a_call a b = Some (ADone write) -> same_call_but a a' b None ->
    same_bufs a a' -> same_blocks a a' -> astep a a'
| a_stutter :
    (forall x, a_call a' x = a_call a x) -> same_bufs a a' -> same_blocks a a' -> astep a a'.

(** The atomic disk that the driver and the device present.  The device has
    carried out a request exactly when its status is 0. *)
Definition call_of (w : vworld) (b : Z) : option acall :=
  match calls w !! b with
  | None => None
  | Some (Want write) => Some (ACalled write)
  | Some (Wait write h) =>
      match zget (info (vd w)) h with
      | Some x => Some (if info_status x =? 0 then ADone write else ACalled write)
      | None => None
      end
  end.

Definition abs_disk (w : vworld) : adisk :=
  ADisk (fun n => sec w (2 * n) ++ sec w (2 * n + 1))
    (fun b => (vb_blockno (bufs (vd w) b), vb_data (bufs (vd w) b)))
    (call_of w).
