(* ===== verification/VirtioTheorems.v ===== *)
(** The driver's side of the disk driver's correctness.

    The invariant [vinv] says where each request is: its chain of descriptors is
    in the avail ring, with the device, in the used ring or acknowledged.  It
    shows that no descriptor is freed twice or leaked and that no panic of the
    driver occurs; each operation preserves it and is a step of the atomic disk
    of [Virtio]. *)

From stdpp Require Import gmap.
From S2P Require Import Prelude Mem Kalloc Block Ring Virtio.

Implicit Types (d : disk) (w : vworld) (own : Z -> option Z).

(** ** The operations on arrays *)

Lemma vget_runs {A} (f : disk -> list A) i x d : zget (f d) i = Some x -> vget f i d = Ok x d.
Proof. intros E. unfold vget, kbind, kgets. by rewrite E. Qed.

Lemma vput_runs {A} (f : disk -> list A) set i x y d :
  zget (f d) i = Some y -> vput f set i x d = Ok tt (set d (<[Z.to_nat i := x]> (f d))).
Proof. intros [Hi _]%zget_Some. unfold vput, kbind, kgets. by rewrite (zset_in _ _ _ Hi). Qed.

(** ** Free descriptors *)

Definition count (l : list bool) : nat := length (filter (fun x => x = true) l).
Definition nfree d : nat := count (dfree d).

Lemma count_insert l i : zget l i = Some true -> count l = S (count (<[Z.to_nat i := false]> l)).
Proof.
  intros [Hi Hx]%zget_Some. unfold count. rewrite <- (take_drop_middle _ _ _ Hx) at 1.
  rewrite insert_take_drop by lia. rewrite !list.filter_app, !length_app, !list.filter_cons. cbn.
  rewrite decide_True, decide_False by done. cbn. lia.
Qed.

Lemma first_free_spec l k :
  match first_free l k with
  | Some i => k <= i /\ zget l (i - k) = Some true
  | None => count l = O
  end.
Proof.
  revert k. induction l as [|x l IH]; intros k; cbn [first_free]; [done|]. destruct x.
  - rewrite Z.sub_diag. done.
  - specialize (IH (k + 1)). destruct (first_free l (k + 1)) as [i|]; [|done].
    destruct IH as [Hk Hi]. split; [lia|]. by apply zget_later.
Qed.

Lemma alloc_desc_runs d :
  alloc_desc d = Ok (-1) d /\ nfree d = O \/
  exists i, alloc_desc d = Ok i (set_dfree d (<[Z.to_nat i := false]> (dfree d))) /\
    zget (dfree d) i = Some true.
Proof.
  unfold alloc_desc. rewrite (kbind_Ok (kgets dfree) _ d _ d eq_refl). pose proof (first_free_spec (dfree d) 0) as Hf.
  destruct (first_free (dfree d) 0) as [i|]; [right|by left].
  destruct Hf as [_ Hi]. rewrite Z.sub_0_r in Hi. exists i. split; [|done].
  by rewrite (kbind_Ok _ _ _ _ _ (vput_runs _ _ _ _ _ _ Hi)).
Qed.

(** Waking up the callers that wait for descriptors. *)
Definition awake_free d : gmap Z vchan := filter (fun x => x.2 <> CFree) (asleep d).

Definition freed (i : Z) d : disk :=
  set_asleep (set_dfree (set_desc d (<[Z.to_nat i := Desc ANull 0 0 0]> (desc d)))
    (<[Z.to_nat i := true]> (dfree d))) (awake_free d).

Lemma free_desc_runs i x d :
  i < NUM -> zget (dfree d) i = Some false -> zget (desc d) i = Some x ->
  free_desc i d = Ok tt (freed i d).
Proof.
  intros Hi Hf Hx. unfold free_desc. destruct (Z.leb_spec NUM i); [lia|].
  rewrite (kbind_Ok _ _ _ _ _ (vget_runs _ _ _ _ Hf)).
  rewrite (kbind_Ok _ _ _ _ _ (vput_runs _ _ _ _ _ _ Hx)).
  rewrite (kbind_Ok _ _ _ _ _ (vput_runs dfree set_dfree i true false (set_desc d _) Hf)). done.
Qed.

Lemma freed_length i d :
  length (desc (freed i d)) = length (desc d) /\ length (dfree (freed i d)) = length (dfree d).
Proof. cbn. by rewrite !length_insert. Qed.

Lemma awake_sub d : awake_free d ⊆ asleep d.
Proof. apply map_filter_subseteq. Qed.

(** The free flags with the descriptors [idx] in use. *)
Fixpoint marks (idx : list Z) (l : list bool) : list bool :=
  match idx with
  | [] => l
  | i :: idx => marks idx (<[Z.to_nat i := false]> l)
  end.

Definition all_free (l : list bool) (idx : list Z) : Prop := Forall (fun i => zget l i = Some true) idx.

Lemma marks_snoc idx i l : marks (idx ++ [i]) l = <[Z.to_nat i := false]> (marks idx l).
Proof. revert l. induction idx as [|j idx IH]; intros l; cbn; [done|apply IH]. Qed.

Lemma zget_insert_ne {A} (l : list A) i j x : i <> j -> 0 <= i -> zget (<[Z.to_nat i := x]> l) j = zget l j.
Proof. intros Hij Hi. unfold zget. case_decide; [|done]. apply list_lookup_insert_ne. lia. Qed.

Lemma marks_ne idx l j : Forall (fun i => 0 <= i) idx -> j ∉ idx -> zget (marks idx l) j = zget l j.
Proof.
  intros Hi. revert l. induction Hi as [|i idx Hi _ IH]; intros l Hj; cbn [marks]; [done|].
  apply not_elem_of_cons in Hj as [? ?]. rewrite IH by done. by apply zget_insert_ne.
Qed.

Lemma all_free_nonneg l idx : all_free l idx -> Forall (fun i => 0 <= i) idx.
Proof. apply Forall_impl. intros i [? _]%zget_Some. lia. Qed.

Lemma marks_insert idx l i x :
  Forall (fun i => 0 <= i) idx -> 0 <= i -> i ∉ idx ->
  <[Z.to_nat i := x]> (marks idx l) = marks idx (<[Z.to_nat i := x]> l).
Proof.
  intros Hi Hi0. revert l. induction Hi as [|j idx Hj _ IH]; intros l Hn; cbn [marks]; [done|].
  apply not_elem_of_cons in Hn as [? ?]. rewrite IH by done. f_equal. apply list_insert_insert_ne. lia.
Qed.

Lemma all_free_insert idx l j x :
  all_free l idx -> 0 <= j -> j ∉ idx -> all_free (<[Z.to_nat j := x]> l) idx.
Proof.
  intros Hall Hj Hn. apply list.Forall_forall. intros i Hi.
  rewrite zget_insert_ne; [by apply (proj1 (list.Forall_forall _ _) Hall)|congruence|done].
Qed.

Lemma marks_in idx l i : all_free l idx -> NoDup idx -> i ∈ idx -> zget (marks idx l) i = Some false.
Proof.
  revert l. induction idx as [|j idx IH]; intros l Hall Hnd Hin; [by apply elem_of_nil in Hin|].
  apply Forall_cons_1 in Hall as [Hj Hall]. apply list.NoDup_cons in Hnd as [Hji Hnd]. cbn [marks].
  pose proof Hj as [? _]%zget_Some. apply elem_of_cons in Hin as [-> |Hin].
  - rewrite marks_ne by (done || by eapply all_free_nonneg). by rewrite (zget_insert _ _ _ _ true), decide_True.
  - apply IH; [apply all_free_insert; [done|lia|done]|done|done].
Qed.

Lemma count_marks idx l : all_free l idx -> NoDup idx -> count l = (length idx + count (marks idx l))%nat.
Proof.
  revert l. induction idx as [|j idx IH]; intros l Hall Hnd; [done|]. cbn [marks length].
  apply Forall_cons_1 in Hall as [Hj Hall]. apply list.NoDup_cons in Hnd as [Hji Hnd].
  pose proof Hj as [? _]%zget_Some. rewrite (count_insert _ _ Hj), IH; [lia| |done].
  apply all_free_insert; [done|lia|done].
Qed.

(** What a failing [alloc3_desc] does to the descriptors. *)
Definition only_free_erased d (ds : list virtq_desc) : Prop :=
  length ds = length (desc d) /\
  forall i, zget (dfree d) i = Some false -> zget ds i = zget (desc d) i.

Lemma free_all_runs idx d ds sl :
  Z.of_nat (length (desc d)) = NUM -> Z.of_nat (length (dfree d)) = NUM ->
  NoDup idx -> all_free (dfree d) idx -> only_free_erased d ds -> sl ⊆ asleep d ->
  exists ds' sl',
    free_all idx (set_asleep (set_desc (set_dfree d (marks idx (dfree d))) ds) sl) =
      Ok tt (set_asleep (set_desc d ds') sl') /\ only_free_erased d ds' /\ sl' ⊆ asleep d.
Proof.
  intros Hds Hfr. revert ds sl. induction idx as [|i idx IH]; intros ds sl Hnd Hall [Hl He] Hsl.
  { exists ds, sl. split; [by destruct d|done]. }
  apply Forall_cons_1 in Hall as [Hi Hall]. pose proof Hnd as [Hii Hnd']%list.NoDup_cons.
  pose proof Hi as [Hib _]%zget_Some. cbn [free_all].
  destruct (zget_is_Some ds i ltac:(lia)) as [x Hx].
  assert (zget (marks (i :: idx) (dfree d)) i = Some false) as Hm
    by (apply marks_in; [by constructor|done|left]).
  set (d1 := set_asleep _ _).
  rewrite (kbind_Ok _ _ _ _ _ (free_desc_runs i x d1 ltac:(lia) Hm Hx)).
  destruct (IH (<[Z.to_nat i := Desc ANull 0 0 0]> ds) (filter (fun x => x.2 <> CFree) sl) Hnd' Hall)
    as (ds' & sl' & E & H').
  - split; [by rewrite length_insert|]. intros j Hj. rewrite zget_insert_ne; [by apply He|congruence|lia].
  - etransitivity; [apply map_filter_subseteq|done].
  - exists ds', sl'. split; [|done]. rewrite <- E. unfold freed, awake_free, d1, set_dfree, set_desc, set_asleep. cbn. do 2 f_equal.
    rewrite marks_insert by (lia || done || by eapply all_free_nonneg). f_equal.
    rewrite list_insert_insert_eq. apply list_insert_id. by apply zget_Some in Hi as [_ ?].
Qed.

Lemma alloc_descs_runs k idx d :
  Z.of_nat (length (desc d)) = NUM -> Z.of_nat (length (dfree d)) = NUM ->
  NoDup idx -> all_free (dfree d) idx ->
  let use idx := set_dfree d (marks idx (dfree d)) in
  (exists js, length js = k /\ alloc_descs k idx (use idx) = Ok (Some (idx ++ js)) (use (idx ++ js)) /\
     NoDup (idx ++ js) /\ all_free (dfree d) (idx ++ js)) \/
  (nfree d < length idx + k)%nat /\ exists ds sl,
    alloc_descs k idx (use idx) = Ok None (set_asleep (set_desc d ds) sl) /\
    only_free_erased d ds /\ sl ⊆ asleep d.
Proof.
  intros Hds Hfr Hnd Hall use. revert idx Hnd Hall. induction k as [|k IH]; intros idx Hnd Hall; cbn [alloc_descs].
  { left. exists []. by rewrite app_nil_r. }
  destruct (alloc_desc_runs (use idx)) as [[E Hn]|(i & E & Hi)]; rewrite (kbind_Ok _ _ _ _ _ E).
  - right. pose proof (count_marks _ _ Hall Hnd) as Hc. change (nfree (use idx)) with (count (marks idx (dfree d))) in Hn.
    unfold nfree. split; [lia|].
    destruct (free_all_runs idx d (desc d) (asleep d) Hds Hfr Hnd Hall) as (ds & sl & E' & H'); [done..|].
    exists ds, sl. split; [|done]. cbn [Z.ltb Z.compare].
    replace (use idx) with (set_asleep (set_desc (use idx) (desc d)) (asleep d)) by done.
    by rewrite (kbind_Ok _ _ _ _ _ E').
  - cbn in Hi. pose proof Hi as [Hib _]%zget_Some. destruct (Z.ltb_spec i 0); [lia|].
    assert (i ∉ idx) as Hni by (intros Hin; rewrite marks_in in Hi; done).
    rewrite marks_ne in Hi by (done || by eapply all_free_nonneg).
    replace (set_dfree (use idx) _) with (use (idx ++ [i])) by (unfold use; by rewrite marks_snoc).
    destruct (IH (idx ++ [i])) as [(js & Hl & E' & H')|(Hn & H')].
    + apply list.NoDup_app. split; [done|]. split; [set_solver|]. apply NoDup_singleton.
    + apply Forall_app. split; [done|]. by constructor.
    + left. exists (i :: js). rewrite <- app_assoc in *. cbn [app length] in *. split; [lia|done].
    + right. rewrite length_app in Hn. cbn [length] in Hn. split; [lia|done].
Qed.

(** [alloc3_desc] takes three free descriptors, or there are fewer, and then it
    has only erased descriptors that are free and woken up callers. *)
Lemma alloc3_runs d :
  Z.of_nat (length (desc d)) = NUM -> Z.of_nat (length (dfree d)) = NUM ->
  (exists i0 i1 i2, alloc3_desc d = Ok (Some [i0; i1; i2]) (set_dfree d (marks [i0; i1; i2] (dfree d))) /\
     NoDup [i0; i1; i2] /\ all_free (dfree d) [i0; i1; i2]) \/
  (nfree d < 3)%nat /\ exists ds sl, alloc3_desc d = Ok None (set_asleep (set_desc d ds) sl) /\
    only_free_erased d ds /\ sl ⊆ asleep d.
Proof.
  intros Hds Hfr. unfold alloc3_desc.
  replace (alloc_descs 3 [] d) with (alloc_descs 3 [] (set_dfree d (marks [] (dfree d)))) by by destruct d.
  destruct (alloc_descs_runs 3 [] d Hds Hfr) as [(js & Hl & H')|H']; [constructor|constructor| |by right].
  left. destruct js as [|i0 [|i1 [|i2 [|]]]]; try done. by exists i0, i1, i2.
Qed.

(** ** Making a request *)

Definition req_type (write : bool) : Z := if write then VIRTIO_BLK_T_OUT else VIRTIO_BLK_T_IN.
Definition data_flags (write : bool) : Z := Z.lor (if write then 0 else VRING_DESC_F_WRITE) VRING_DESC_F_NEXT.

Definition head_desc (i0 i1 : Z) : virtq_desc := Desc (AOps i0) BLK_REQ_SIZE VRING_DESC_F_NEXT i1.
Definition data_desc (b : Z) (write : bool) (i2 : Z) : virtq_desc := Desc (AData b) BSIZE (data_flags write) i2.
Definition status_desc (i0 : Z) : virtq_desc := Desc (AStatus i0) 1 VRING_DESC_F_WRITE 0.
Definition request (write : bool) (n : Z) : virtio_blk_req := Req (req_type write) 0 (2 * n).

Definition submitted d (b : Z) (write : bool) (i0 i1 i2 : Z) : disk :=
  let vb := bufs d b in
  Disk (<[Z.to_nat i2 := status_desc i0]> (<[Z.to_nat i1 := data_desc b write i2]>
         (<[Z.to_nat i0 := head_desc i0 i1]> (desc d))))
    (u16 (avail_idx d + 1)) (put NUM (avail_ring d) (avail_idx d) i0)
    (used_ridx d) (used_ring d) (dfree d) (used_idx d)
    (<[Z.to_nat i0 := Info (Some b) 0xff]> (info d))
    (<[Z.to_nat i0 := request write (vb_blockno vb)]> (ops d))
    (fun c => if c =? b then VBuf (vb_blockno vb) 1 (vb_data vb) else bufs d c)
    (asleep d).

Lemma zget_8 {A} (l : list A) i : Z.of_nat (length l) = NUM -> 0 <= i < NUM -> exists x, zget l i = Some x.
Proof. intros Hl Hi. apply zget_is_Some. lia. Qed.

Record lengths d : Prop := {
  ln_desc : Z.of_nat (length (desc d)) = NUM;
  ln_avail : Z.of_nat (length (avail_ring d)) = NUM;
  ln_used : Z.of_nat (length (used_ring d)) = NUM;
  ln_free : Z.of_nat (length (dfree d)) = NUM;
  ln_info : Z.of_nat (length (info d)) = NUM;
  ln_ops : Z.of_nat (length (ops d)) = NUM
}.

Lemma submit_runs d b write i0 i1 i2 :
  lengths d -> buf_ok (bufs d b) -> Forall (fun i => 0 <= i < NUM) [i0; i1; i2] ->
  submit b write i0 i1 i2 d = Ok tt (submitted d b write i0 i1 i2).
Proof.
  intros [Hd Ha Hu Hf Hi Ho] [Hn _] Hidx.
  apply Forall_cons_1 in Hidx as [H0 Hidx]. apply Forall_cons_1 in Hidx as [H1 Hidx].
  apply Forall_cons_1 in Hidx as [H2 _].
  unfold submit. rewrite (kbind_Ok (kgets _) _ d _ d eq_refl).
  replace (u32 _) with (2 * vb_blockno (bufs d b))
    by (unfold u32; change (BSIZE / 512) with 2; rewrite Z.mod_small by lia; lia).
  destruct (zget_8 (ops d) i0 Ho H0) as [o Eo]. rewrite (kbind_Ok _ _ _ _ _ (vput_runs _ _ _ _ _ _ Eo)).
  set (d1 := set_ops _ _). destruct (zget_8 (desc d1) i0 Hd H0) as [x Ex].
  rewrite (kbind_Ok _ _ _ _ _ (vput_runs _ _ _ _ _ _ Ex)). set (d2 := set_desc _ _).
  assert (Z.of_nat (length (desc d2)) = NUM) as Hd2 by (cbn; by rewrite length_insert).
  destruct (zget_8 (desc d2) i1 Hd2 H1) as [y Ey].
  rewrite (kbind_Ok _ _ _ _ _ (vput_runs _ _ _ _ _ _ Ey)). set (d3 := set_desc _ _).
  destruct (zget_8 (info d3) i0 Hi H0) as [f Ef].
  rewrite (kbind_Ok _ _ _ _ _ (vget_runs _ _ _ _ Ef)).
  rewrite (kbind_Ok _ _ _ _ _ (vput_runs _ _ _ _ _ _ Ef)). set (d4 := set_info _ _).
  assert (Z.of_nat (length (desc d4)) = NUM) as Hd4 by (cbn; by rewrite !length_insert).
  destruct (zget_8 (desc d4) i2 Hd4 H2) as [z Ez].
  rewrite (kbind_Ok _ _ _ _ _ (vput_runs _ _ _ _ _ _ Ez)). set (d5 := set_desc _ _).
  rewrite (kbind_Ok (put_buf b _) _ d5 tt _ eq_refl). set (d6 := set_bufs _ _).
  assert (zget (info d6) i0 = Some (Info (info_b f) 0xff)) as Ef6
    by (cbn; by rewrite (zget_insert _ _ _ _ f Ef), decide_True).
  rewrite (kbind_Ok _ _ _ _ _ (vget_runs _ _ _ _ Ef6)).
  rewrite (kbind_Ok _ _ _ _ _ (vput_runs _ _ _ _ _ _ Ef6)). set (d7 := set_info _ _).
  rewrite (kbind_Ok kget _ d7 d7 d7 eq_refl).
  rewrite zset_in by (cbn; pose proof (Z.mod_pos_bound (avail_idx d) NUM ltac:(done)); lia).
  unfold kopt. rewrite (kbind_Ok (kret _) _ d7 _ d7 eq_refl).
  unfold d7, d6, d5, d4, d3, d2, d1, submitted. cbn. rewrite list_insert_insert_eq. done.
Qed.

(** ** Where the requests are *)

(** The chain of the call for buffer [b]; [own i] is the buffer whose call uses
    descriptor [i]. *)
Record chain d own (b : Z) (write : bool) (h i1 i2 : Z) : Prop := {
  ch_own : Forall (fun i => own i = Some b) [h; i1; i2];
  ch_dup : NoDup [h; i1; i2];
  ch_head : zget (desc d) h = Some (head_desc h i1);
  ch_data : zget (desc d) i1 = Some (data_desc b write i2);
  ch_stat : zget (desc d) i2 = Some (status_desc h);
  ch_op : zget (ops d) h = Some (request write (vb_blockno (bufs d b)));
  ch_info : info_b <$> zget (info d) h = Some (Some b)
}.

Definition avail_list w : list Z := contents NUM (2 ^ 16) (avail_ring (vd w)) (dev_seen w) (avail_idx (vd w)).
Definition used_list w : list Z := contents NUM (2 ^ 16) (used_ring (vd w)) (used_idx (vd w)) (used_ridx (vd w)).

(** The requests that are not acknowledged. *)
Definition flight w : list Z := avail_list w ++ taken w ++ used_list w.

(** The steps that the requests still have before them. *)
Definition load w : nat := (3 * length (avail_list w) + 2 * length (taken w) + length (used_list w))%nat.

Definition word16 (x : Z) : Prop := counter (2 ^ 16) x.

Definition sleeps_well w (b : Z) (c : vchan) : Prop :=
  match c with
  | CFree => (exists write, calls w !! b = Some (Want write)) /\ (nfree (vd w) < 3)%nat
  | CBuf b' => b' = b /\ vb_disk (bufs (vd w) b) = 1 /\ exists write h, calls w !! b = Some (Wait write h)
  end.

(** [vb_disk] of a buffer is 1 from the request to the interrupt. *)
Definition flag_ok w (b : Z) : Prop :=
  vb_disk (bufs (vd w) b) = 0 \/
  vb_disk (bufs (vd w) b) = 1 /\ exists write h, calls w !! b = Some (Wait write h).

Record vinv own w : Prop := {
  vi_len : lengths (vd w);
  vi_ctr : word16 (avail_idx (vd w)) /\ word16 (used_ridx (vd w)) /\ word16 (used_idx (vd w)) /\
    word16 (dev_seen w);
  vi_free : forall i, 0 <= i < NUM -> zget (dfree (vd w)) i = Some (bool_decide (own i = None));
  vi_chain : forall b write h, calls w !! b = Some (Wait write h) ->
    exists i1 i2, chain (vd w) own b write h i1 i2;
  vi_own : forall i b, own i = Some b -> 0 <= i < NUM /\ exists write h i1 i2,
    calls w !! b = Some (Wait write h) /\ chain (vd w) own b write h i1 i2 /\ i ∈ [h; i1; i2];
  vi_dup : NoDup (flight w);
  vi_flight : forall h, h ∈ flight w <->
    exists b write, calls w !! b = Some (Wait write h) /\ vb_disk (bufs (vd w) b) = 1;
  vi_status : forall b write h x, calls w !! b = Some (Wait write h) -> zget (info (vd w)) h = Some x ->
    (h ∈ avail_list w ++ taken w -> info_status x = 0xff) /\
    (h ∈ used_list w \/ vb_disk (bufs (vd w) b) = 0 -> info_status x = 0);
  vi_flag : forall b, flag_ok w b;
  vi_sleep : forall b c, asleep (vd w) !! b = Some c -> sleeps_well w b c;
  vi_buf : forall b, buf_ok (bufs (vd w) b);
  vi_sec : forall n, Z.of_nat (length (sec w n)) = SECTOR
}.

Lemma chain_same d d' own own' b write h i1 i2 :
  chain d own b write h i1 i2 ->
  (forall i, own i = Some b -> own' i = Some b /\ zget (desc d') i = zget (desc d) i /\
     zget (ops d') i = zget (ops d) i /\ info_b <$> zget (info d') i = info_b <$> zget (info d) i) ->
  vb_blockno (bufs d' b) = vb_blockno (bufs d b) -> chain d' own' b write h i1 i2.
Proof.
  intros [Ho Hd E0 E1 E2 Er Ei] Hs Hn.
  pose proof Ho as Ho'. apply Forall_cons_1 in Ho' as [O0 Ho']. apply Forall_cons_1 in Ho' as [O1 Ho'].
  apply Forall_cons_1 in Ho' as [O2 _].
  destruct (Hs h O0) as (P0 & D0 & R0 & I0), (Hs i1 O1) as (P1 & D1 & _), (Hs i2 O2) as (P2 & D2 & _).
  split; [by repeat constructor|done|by rewrite D0|by rewrite D1|by rewrite D2|by rewrite R0, Hn|by rewrite I0].
Qed.

Section Invariant.
Context (own : Z -> option Z) (w : vworld) (Hinv : vinv own w).

Lemma chain_index b write h i1 i2 i : chain (vd w) own b write h i1 i2 -> i ∈ [h; i1; i2] -> 0 <= i < NUM.
Proof.
  intros Hc Hi. pose proof (proj1 (list.Forall_forall _ _) (ch_own _ _ _ _ _ _ _ Hc) i Hi) as Ho.
  by apply (vi_own _ _ Hinv) in Ho as [? _].
Qed.

Lemma head_own b write h : calls w !! b = Some (Wait write h) -> own h = Some b /\ 0 <= h < NUM.
Proof.
  intros Hb. destruct (vi_chain _ _ Hinv b write h Hb) as (i1 & i2 & Hc). split.
  - by apply (Forall_cons_1 _ _ _ (ch_own _ _ _ _ _ _ _ Hc)).
  - eapply chain_index; [exact Hc|left].
Qed.

Lemma head_inj b b' write write' h :
  calls w !! b = Some (Wait write h) -> calls w !! b' = Some (Wait write' h) -> b = b'.
Proof. intros [H1 _]%head_own [H2 _]%head_own. congruence. Qed.

Lemma flight_own h : h ∈ flight w -> is_Some (own h) /\ 0 <= h < NUM.
Proof. intros (b & write & Hb & _)%(vi_flight _ _ Hinv). apply head_own in Hb as [-> ?]. eauto. Qed.

Lemma NoDup_small (l : list Z) n : NoDup l -> (forall x, x ∈ l -> 0 <= x < n) -> Z.of_nat (length l) <= Z.max 0 n.
Proof.
  intros Hnd Hl. assert (l ⊆ seqZ 0 n) as Hs by (intros x Hx; apply elem_of_seqZ; apply Hl in Hx; lia).
  pose proof (submseteq_length _ _ (NoDup_submseteq _ _ Hnd Hs)) as H. rewrite length_seqZ in H. lia.
Qed.

(** A ring has room for a request that is not under way. *)
Lemma flight_room h : h ∉ flight w -> 0 <= h < NUM -> Z.of_nat (length (flight w)) < NUM.
Proof.
  intros Hh Hb. pose proof (NoDup_small (h :: flight w) NUM) as H. cbn [length] in H.
  apply Z.lt_le_trans with (Z.of_nat (S (length (flight w)))); [lia|]. apply H.
  - by apply list.NoDup_cons; split; [|apply Hinv].
  - intros x [-> |Hx]%elem_of_cons; [done|]. by apply flight_own in Hx as [_ ?].
Qed.

Lemma flight_length : Z.of_nat (length (flight w)) =
  used (2 ^ 16) (dev_seen w) (avail_idx (vd w)) + Z.of_nat (length (taken w)) +
  used (2 ^ 16) (used_idx (vd w)) (used_ridx (vd w)).
Proof.
  unfold flight, avail_list, used_list. rewrite !length_app, !Nat2Z.inj_add, !contents_length by done. lia.
Qed.

Lemma own_free i : zget (dfree (vd w)) i = Some true -> own i = None.
Proof.
  intros Hi. pose proof Hi as [Hb _]%zget_Some. rewrite (ln_free _ (vi_len _ _ Hinv)) in Hb.
  rewrite (vi_free _ _ Hinv i Hb) in Hi. injection Hi as Hi. by apply bool_decide_eq_true in Hi.
Qed.

Lemma own_used i b : own i = Some b -> zget (dfree (vd w)) i = Some false.
Proof.
  intros Hi. pose proof Hi as [Hb _]%(vi_own _ _ Hinv). rewrite (vi_free _ _ Hinv i Hb).
  by rewrite bool_decide_eq_false_2 by congruence.
Qed.
End Invariant.

(** ** Starting a request *)

Lemma marks_length idx l : length (marks idx l) = length l.
Proof. revert l. induction idx as [|i idx IH]; intros l; cbn; [done|]. by rewrite IH, length_insert. Qed.

Section Begin.
Context (own : Z -> option Z) (w : vworld) (Hinv : vinv own w).
Context (b : Z) (write : bool) (i0 i1 i2 : Z).
Hypothesis Hcall : calls w !! b = Some (Want write).
Hypothesis Hawake : asleep (vd w) !! b = None.
Hypothesis Hnd : NoDup [i0; i1; i2].
Hypothesis Hfree : all_free (dfree (vd w)) [i0; i1; i2].

Let idx := [i0; i1; i2].
Let d := vd w.
Let d1 := set_dfree d (marks idx (dfree d)).
Let d2 := submitted d1 b write i0 i1 i2.
Let own2 : Z -> option Z := fun i => if decide (i ∈ idx) then Some b else own i.
Let w2 := with_call w d2 b (Wait write i0).

Lemma idx_own i : i ∈ idx -> own i = None /\ 0 <= i < NUM.
Proof.
  intros Hi. pose proof (proj1 (list.Forall_forall _ _) Hfree i Hi) as Hf. cbv beta in Hf.
  split; [by eapply own_free|]. apply zget_Some in Hf as [Hf _]. by rewrite (ln_free _ (vi_len _ _ Hinv)) in Hf.
Qed.

Lemma begin_lengths : lengths d2.
Proof.
  destruct (vi_len _ _ Hinv). split; cbn; rewrite ?length_insert, ?put_length, ?marks_length; done.
Qed.

Lemma idx_not_flight : i0 ∉ flight w.
Proof.
  intros Hi. apply (flight_own own w Hinv) in Hi as [[c Hc] _]. destruct (idx_own i0); [left|congruence].
Qed.

Lemma begin_avail : avail_list w2 = avail_list w ++ [i0].
Proof.
  pose proof (flight_room own w Hinv i0 idx_not_flight) as Hroom. rewrite flight_length in Hroom.
  destruct (idx_own i0) as [_ Hi0]; [left|]. specialize (Hroom Hi0).
  pose proof (used_bound (2 ^ 16) ltac:(done) (used_idx (vd w)) (used_ridx (vd w))).
  unfold avail_list. cbn. unfold u16. apply contents_push; try done.
  - by exists 8192.
  - apply (vi_len _ _ Hinv).
  - apply (vi_ctr _ _ Hinv).
  - lia.
Qed.

Lemma begin_load : load w2 = (load w + 3)%nat.
Proof.
  unfold load. rewrite begin_avail, length_app. change (used_list w2) with (used_list w).
  change (taken w2) with (taken w). cbn [length]. lia.
Qed.

Lemma begin_flight : flight w2 ≡ₚ i0 :: flight w.
Proof.
  unfold flight. rewrite begin_avail. change (taken w2) with (taken w). change (used_list w2) with (used_list w).
  rewrite <- app_assoc. by rewrite Permutation_middle.
Qed.

(** The descriptors of other calls are as before. *)
Lemma begin_keeps i c :
  own i = Some c -> own2 i = Some c /\ zget (desc d2) i = zget (desc d) i /\
    zget (ops d2) i = zget (ops d) i /\ zget (info d2) i = zget (info d) i.
Proof.
  intros Hi. assert (i ∉ idx) as Hn by (intros Hin; apply idx_own in Hin as [? _]; congruence).
  destruct (idx_own i0) as [_ ?]; [set_solver|]. destruct (idx_own i1) as [_ ?]; [set_solver|].
  destruct (idx_own i2) as [_ ?]; [set_solver|].
  assert (i0 <> i /\ i1 <> i /\ i2 <> i) as (? & ? & ?) by set_solver.
  unfold own2. rewrite decide_False by done. cbn. rewrite !zget_insert_ne by lia. done.
Qed.

Lemma not_owner i : own i <> Some b.
Proof. intros Hi. apply (vi_own _ _ Hinv) in Hi as (_ & wr & h & _ & _ & Hb & _). congruence. Qed.

Lemma begin_chain : chain d2 own2 b write i0 i1 i2.
Proof.
  destruct (vi_len _ _ Hinv) as [Hd _ _ _ Hi Ho].
  destruct (idx_own i0) as [_ H0]; [set_solver|]. destruct (idx_own i1) as [_ H1]; [set_solver|].
  destruct (idx_own i2) as [_ H2]; [set_solver|].
  pose proof Hnd as [N0 [N1 _]%list.NoDup_cons]%list.NoDup_cons.
  assert (i0 <> i1 /\ i0 <> i2 /\ i1 <> i2) as (? & ? & ?) by set_solver.
  split; cbn.
  - apply list.Forall_forall. intros i Hi'. unfold own2. by rewrite decide_True.
  - done.
  - rewrite !zget_insert_ne by lia. apply (zget_zset_eq (desc d)), zset_in. unfold d. lia.
  - rewrite zget_insert_ne by lia. apply (zget_zset_eq (<[Z.to_nat i0 := head_desc i0 i1]> (desc d))), zset_in.
    rewrite length_insert. unfold d. lia.
  - eapply zget_zset_eq, zset_in. rewrite !length_insert. unfold d. lia.
  - rewrite Z.eqb_refl. cbn. eapply zget_zset_eq, zset_in. unfold d. lia.
  - erewrite zget_zset_eq; [|apply zset_in; unfold d; lia]. done.
Qed.

Lemma calls_w2 c : calls w2 !! c = if decide (c = b) then Some (Wait write i0) else calls w !! c.
Proof. cbn. case_decide; [subst; by rewrite lookup_insert_eq|by rewrite lookup_insert_ne]. Qed.

Lemma bufs_w2 c : c <> b -> bufs d2 c = bufs d c.
Proof. intros Hc. cbn. by destruct (Z.eqb_spec c b). Qed.

Lemma flag_b : vb_disk (bufs d b) = 0.
Proof. destruct (vi_flag _ _ Hinv b) as [?|(_ & wr & h & Hb)]; [done|congruence]. Qed.

Lemma head_ne c wr h : calls w !! c = Some (Wait wr h) -> h <> i0.
Proof.
  intros Hc ->. apply (head_own own w Hinv) in Hc as [Hc _]. destruct (idx_own i0); [left|congruence].
Qed.

Lemma begin_nfree : (nfree d2 <= nfree d)%nat.
Proof. unfold nfree. cbn [dfree d2 submitted d1 set_dfree]. rewrite (count_marks idx (dfree d) Hfree Hnd). lia. Qed.

Lemma begin_others c wr h j1 j2 :
  c <> b -> chain d own c wr h j1 j2 -> chain d2 own2 c wr h j1 j2.
Proof.
  intros Hc Hch. eapply chain_same; [exact Hch| |by rewrite (bufs_w2 c Hc)].
  intros i Hi. destruct (begin_keeps i c Hi) as (? & ? & ? & ->). done.
Qed.

Lemma begin_info : zget (info d2) i0 = Some (Info (Some b) 0xff).
Proof.
  cbn. eapply zget_zset_eq, zset_in. destruct (idx_own i0) as [_ ?]; [left|].
  pose proof (ln_info _ (vi_len _ _ Hinv)). unfold d. lia.
Qed.

Lemma begin_status c wr h x :
  calls w2 !! c = Some (Wait wr h) -> zget (info d2) h = Some x ->
  (h ∈ avail_list w2 ++ taken w2 -> info_status x = 0xff) /\
  (h ∈ used_list w2 \/ vb_disk (bufs d2 c) = 0 -> info_status x = 0).
Proof.
  rewrite calls_w2. case_decide as Hc.
  - subst c. intros [= <- <-] Hx. rewrite begin_info in Hx. injection Hx as <-. split; [done|]. cbn. rewrite Z.eqb_refl. cbn.
    intros [Hu|]; [|done]. exfalso. apply idx_not_flight. unfold flight. set_solver.
  - intros Hh Hx. pose proof (head_own own w Hinv _ _ _ Hh) as [Ho _].
    destruct (begin_keeps h c Ho) as (_ & _ & _ & Ei). rewrite Ei in Hx.
    destruct (vi_status _ _ Hinv c wr h x Hh Hx) as [H1 H2]. rewrite begin_avail, (bufs_w2 c Hc).
    split; [|exact H2]. intros Hin. apply H1. pose proof (head_ne _ _ _ Hh). change (taken w2) with (taken w) in Hin.
    set_solver.
Qed.

Lemma begin_inv : vinv own2 w2.
Proof.
  split.
  - apply begin_lengths.
  - destruct (vi_ctr _ _ Hinv) as (H1 & H2 & H3 & H4). split_and!; try done. by apply counter_mod.
  - intros i Hi. cbn [vd w2 with_call dfree d2 submitted d1 set_dfree]. unfold own2. case_decide as Hin.
    + by rewrite (marks_in idx (dfree d) i Hfree Hnd Hin).
    + rewrite marks_ne by (done || by eapply all_free_nonneg). by apply (vi_free _ _ Hinv).
  - intros c wr h. rewrite calls_w2. case_decide as Hc.
    + intros [= <- <-]. subst c. exists i1, i2. apply begin_chain.
    + intros Hh. destruct (vi_chain _ _ Hinv c wr h Hh) as (j1 & j2 & Hch). exists j1, j2.
      by apply begin_others.
  - intros i c. unfold own2 at 1. case_decide as Hin.
    + intros [= <-]. split; [by apply idx_own|]. exists write, i0, i1, i2.
      rewrite calls_w2, decide_True by done. split; [done|]. split; [apply begin_chain|done].
    + intros Hi. assert (c <> b) as Hc by (intros ->; by apply (not_owner i)).
      destruct (vi_own _ _ Hinv i c Hi) as (Hb & wr & h & j1 & j2 & Hh & Hch & Hij).
      split; [done|]. exists wr, h, j1, j2. rewrite calls_w2, decide_False by done.
      split; [done|]. split; [by apply begin_others|done].
  - rewrite begin_flight. apply list.NoDup_cons. split; [apply idx_not_flight|apply Hinv].
  - intros h. rewrite begin_flight, elem_of_cons, (vi_flight _ _ Hinv h). split.
    + intros [-> |(c & wr & Hh & Hd)].
      * exists b, write. rewrite calls_w2, decide_True by done. cbn. by rewrite Z.eqb_refl.
      * assert (c <> b) as Hc by (intros ->; congruence). exists c, wr.
        rewrite calls_w2, decide_False by done. change (vd w2) with d2. by rewrite (bufs_w2 c Hc).
    + intros (c & wr & Hh & Hd). rewrite calls_w2 in Hh. case_decide as Hc; [left; congruence|].
      right. exists c, wr. change (vd w2) with d2 in Hd. by rewrite (bufs_w2 c Hc) in Hd.
  - apply begin_status.
  - intros c. unfold flag_ok. rewrite calls_w2. change (vd w2) with d2. case_decide as Hc.
    + subst c. right. cbn. rewrite Z.eqb_refl. eauto.
    + rewrite (bufs_w2 c Hc). apply (vi_flag _ _ Hinv c).
  - intros c ch Hs. change (asleep (vd w2)) with (asleep d) in Hs.
    assert (c <> b) as Hc by (intros ->; unfold d in Hs; congruence).
    pose proof (vi_sleep _ _ Hinv c ch Hs) as Hw. unfold sleeps_well in *. rewrite calls_w2, decide_False by done.
    change (vd w2) with d2. destruct ch; [|by rewrite (bufs_w2 c Hc)].
    destruct Hw as [? ?]. split; [done|]. pose proof begin_nfree. unfold d in *. lia.
  - intros c. change (vd w2) with d2. destruct (decide (c = b)) as [-> |Hc]; [|rewrite (bufs_w2 c Hc); apply Hinv].
    cbn. rewrite Z.eqb_refl. apply (vi_buf _ _ Hinv b).
  - apply Hinv.
Qed.

Lemma begin_abs : astep (abs_disk w) (abs_disk w2).
Proof.
  apply a_stutter; [| |done].
  - intros c. cbn. unfold call_of. rewrite calls_w2. change (vd w2) with d2. case_decide as Hc.
    + subst c. by rewrite Hcall, begin_info.
    + destruct (calls w !! c) as [[wr|wr h]|] eqn:Hh; [done| |done].
      pose proof (head_own own w Hinv _ _ _ Hh) as [Ho _]. destruct (begin_keeps h c Ho) as (_ & _ & _ & ->). done.
  - intros c. cbn. by destruct (Z.eqb_spec c b) as [-> |].
Qed.
End Begin.

(** Going to sleep, with free descriptors erased. *)
Lemma vinv_asleep own w ds sl :
  vinv own w -> only_free_erased (vd w) ds -> (forall c ch, sl !! c = Some ch -> sleeps_well w c ch) ->
  vinv own (with_vd w (set_asleep (set_desc (vd w) ds) sl)).
Proof.
  intros Hinv [Hl Hd] Hsl.
  assert (forall c wr h i1 i2, chain (vd w) own c wr h i1 i2 ->
    chain (set_asleep (set_desc (vd w) ds) sl) own c wr h i1 i2) as Hch.
  { intros c wr h i1 i2 Hc. eapply chain_same; [exact Hc| |done]. intros i Hi.
    split_and!; try done. apply Hd. by eapply own_used. }
  destruct Hinv as [[L1 L2 L3 L4 L5 L6] Hctr Hfree Hchain Hown Hdup Hfl Hst Hfg Hsw Hb Hs].
  split; try done.
  - split; cbn; rewrite ?Hl; done.
  - intros c wr h Hc. destruct (Hchain c wr h Hc) as (i1 & i2 & H). exists i1, i2. by apply Hch.
  - intros i c Hi. destruct (Hown i c Hi) as (Hb' & wr & h & i1 & i2 & Hc & H & Hin).
    split; [done|]. exists wr, h, i1, i2. split; [done|]. split; [by apply Hch|done].
Qed.

Lemma begin_spec own w b write :
  vinv own w -> calls w !! b = Some (Want write) -> asleep (vd w) !! b = None ->
  (exists h d own', rw_begin b write (vd w) = Ok h d /\ vinv own' (with_call w d b (Wait write h)) /\
     astep (abs_disk w) (abs_disk (with_call w d b (Wait write h))) /\
     load (with_call w d b (Wait write h)) = (load w + 3)%nat) \/
  (nfree (vd w) < 3)%nat /\ exists c d, rw_begin b write (vd w) = Sleep c d /\ vinv own (with_vd w d) /\
    astep (abs_disk w) (abs_disk (with_vd w d)) /\ load (with_vd w d) = load w.
Proof.
  intros Hinv Hcall Haw. pose proof (vi_len _ _ Hinv) as Hlen. unfold rw_begin.
  destruct (alloc3_runs (vd w) (ln_desc _ Hlen) (ln_free _ Hlen))
    as [(i0 & i1 & i2 & E & Hnd & Hfree)|(Hn & ds & sl & E & He & Hsl)]; rewrite (kbind_Ok _ _ _ _ _ E).
  - left. set (d1 := set_dfree _ _).
    assert (submit b write i0 i1 i2 d1 = Ok tt (submitted d1 b write i0 i1 i2)) as Es.
    { apply submit_runs.
      - destruct Hlen. split; cbn; rewrite ?length_insert; done.
      - apply Hinv.
      - apply list.Forall_forall. intros i Hi. by eapply idx_own. }
    rewrite (kbind_Ok _ _ _ _ _ Es). eexists _, _, _. split; [reflexivity|].
    split; [by eapply begin_inv|]. split; [by eapply begin_abs|by eapply begin_load].
  - right. split; [done|]. eexists _, _. split; [reflexivity|].
    change (vinv own (with_vd w (set_asleep (set_desc (vd w) ds) (<[b := CFree]> sl))) /\
      astep (abs_disk w) (abs_disk (with_vd w (set_asleep (set_desc (vd w) ds) (<[b := CFree]> sl)))) /\
      load w = load w).
    split; [|split; [by apply a_stutter|done]].
    apply vinv_asleep; [done|done|]. intros c ch. destruct (decide (b = c)) as [<-|Hc].
    + rewrite lookup_insert_eq. intros [= <-]. split; [eauto|done].
    + rewrite lookup_insert_ne by done. intros Hch. apply (vi_sleep _ _ Hinv). by eapply lookup_weaken.
Qed.

(** ** Finishing a request *)

Lemma free_chain_step k i x d :
  i < NUM -> zget (desc d) i = Some x -> zget (dfree d) i = Some false ->
  free_chain_loop (S k) i d =
    (if negb (Z.land (d_flags x) VRING_DESC_F_NEXT =? 0) then free_chain_loop k (d_next x) else kret tt) (freed i d).
Proof.
  intros Hi Hx Hf. cbn [free_chain_loop]. rewrite (kbind_Ok _ _ _ _ _ (vget_runs _ _ _ _ Hx)).
  by rewrite (kbind_Ok _ _ _ _ _ (free_desc_runs _ _ _ Hi Hf Hx)).
Qed.

Section Finish.
Context (own : Z -> option Z) (w : vworld) (Hinv : vinv own w).
Context (b : Z) (write : bool) (h i1 i2 : Z) (x : dinfo).
Hypothesis Hcall : calls w !! b = Some (Wait write h).
Hypothesis Hdone : vb_disk (bufs (vd w) b) = 0.
Hypothesis Hch : chain (vd w) own b write h i1 i2.
Hypothesis Hx : zget (info (vd w)) h = Some x.

Let d := vd w.
Let d1 := set_info d (<[Z.to_nat h := Info None (info_status x)]> (info d)).
Let d2 := freed i2 (freed i1 (freed h d1)).
Let own2 : Z -> option Z := fun i => if decide (own i = Some b) then None else own i.
Let w2 := VWorld d2 (sec w) (dev_seen w) (taken w) (delete b (calls w)) (errors w).

Lemma chain_distinct : h <> i1 /\ h <> i2 /\ i1 <> i2.
Proof. pose proof (ch_dup _ _ _ _ _ _ _ Hch) as [N0 [N1 _]%list.NoDup_cons]%list.NoDup_cons. set_solver. Qed.

Lemma chain_range i : i ∈ [h; i1; i2] -> 0 <= i < NUM.
Proof. by eapply chain_index. Qed.

Lemma chain_in_use i : i ∈ [h; i1; i2] -> own i = Some b /\ zget (dfree d) i = Some false.
Proof.
  intros Hi. pose proof (proj1 (list.Forall_forall _ _) (ch_own _ _ _ _ _ _ _ Hch) i Hi) as Ho.
  split; [done|]. exact (own_used own w Hinv i b Ho).
Qed.

Lemma owner_chain i : own i = Some b <-> i ∈ [h; i1; i2].
Proof.
  split; [|by intros [? _]%chain_in_use]. intros Hi.
  destruct (vi_own _ _ Hinv i b Hi) as (_ & wr & h' & j1 & j2 & Hh & Hch' & Hin).
  assert (h' = h) as -> by congruence.
  assert (j1 = i1) as -> by (pose proof (ch_head _ _ _ _ _ _ _ Hch'); pose proof (ch_head _ _ _ _ _ _ _ Hch);
    unfold head_desc in *; congruence).
  assert (j2 = i2) as -> by (pose proof (ch_data _ _ _ _ _ _ _ Hch'); pose proof (ch_data _ _ _ _ _ _ _ Hch);
    unfold data_desc in *; congruence).
  done.
Qed.

Lemma free_chain_runs : free_chain h d1 = Ok tt d2.
Proof.
  destruct chain_distinct as (? & ? & ?).
  destruct (chain_in_use h) as [_ F0]; [set_solver|]. destruct (chain_in_use i1) as [_ F1]; [set_solver|].
  destruct (chain_in_use i2) as [_ F2]; [set_solver|].
  pose proof (chain_range h ltac:(set_solver)). pose proof (chain_range i1 ltac:(set_solver)).
  pose proof (chain_range i2 ltac:(set_solver)).
  destruct Hch as [_ _ E0 E1 E2 _ _]. change (free_chain h) with (free_chain_loop 9 h).
  rewrite (free_chain_step 8 h (head_desc h i1) d1) by (done || lia).
  change (negb (Z.land (d_flags (head_desc h i1)) VRING_DESC_F_NEXT =? 0)) with true. cbv iota. cbn [d_next head_desc].
  rewrite (free_chain_step 7 i1 (data_desc b write i2)) by (cbn; rewrite ?zget_insert_ne; done || lia).
  replace (negb (Z.land (d_flags (data_desc b write i2)) VRING_DESC_F_NEXT =? 0)) with true by by destruct write.
  cbv iota. cbn [d_next data_desc].
  rewrite (free_chain_step 6 i2 (status_desc h)) by (cbn; rewrite ?zget_insert_ne; done || lia). done.
Qed.

Lemma finish_keeps i c :
  c <> b -> own i = Some c -> own2 i = Some c /\ zget (desc d2) i = zget (desc d) i /\
    zget (ops d2) i = zget (ops d) i /\ zget (info d2) i = zget (info d) i.
Proof.
  intros Hc Hi. assert (i ∉ [h; i1; i2]) as Hn by (intros Hin%owner_chain; congruence).
  pose proof (chain_range h ltac:(set_solver)). pose proof (chain_range i1 ltac:(set_solver)).
  pose proof (chain_range i2 ltac:(set_solver)).
  assert (h <> i /\ i1 <> i /\ i2 <> i) as (? & ? & ?) by set_solver.
  unfold own2. rewrite decide_False by congruence. cbn. rewrite !zget_insert_ne by lia. done.
Qed.

Lemma finish_others c wr g j1 j2 :
  c <> b -> chain d own c wr g j1 j2 -> chain d2 own2 c wr g j1 j2.
Proof.
  intros Hc H. eapply chain_same; [exact H| |done].
  intros i Hi. destruct (finish_keeps i c Hc Hi) as (? & ? & ? & ->). done.
Qed.

Lemma calls_finish c v : calls w2 !! c = Some v <-> c <> b /\ calls w !! c = Some v.
Proof. cbn. rewrite lookup_delete_Some. naive_solver. Qed.

Lemma finish_asleep c ch : asleep d2 !! c = Some ch -> asleep d !! c = Some ch /\ ch <> CFree.
Proof.
  cbn. intros [[[? _]%map_lookup_filter_Some _]%map_lookup_filter_Some Hn]%map_lookup_filter_Some. done.
Qed.

Lemma finish_free i : 0 <= i < NUM -> zget (dfree d2) i = Some (bool_decide (own2 i = None)).
Proof.
  intros Hi. pose proof (chain_range h ltac:(set_solver)). pose proof (chain_range i1 ltac:(set_solver)).
  pose proof (chain_range i2 ltac:(set_solver)). pose proof (ln_free _ (vi_len _ _ Hinv)) as Hl.
  unfold own2. case_decide as Ho.
  - rewrite bool_decide_eq_true_2 by done. apply owner_chain in Ho. cbn.
    assert (forall l, Z.of_nat (length l) = NUM -> zget (<[Z.to_nat i := true]> l) i = Some true) as Heq
      by (intros; eapply zget_zset_eq, zset_in; lia).
    destruct (decide (i = i2)) as [<-|]; [apply Heq; rewrite !length_insert; exact Hl|].
    rewrite (zget_insert_ne _ i2) by lia.
    destruct (decide (i = i1)) as [<-|]; [apply Heq; rewrite !length_insert; exact Hl|].
    rewrite (zget_insert_ne _ i1) by lia.
    assert (i = h) as <- by set_solver. by apply Heq.
  - assert (i ∉ [h; i1; i2]) as Hn by (by rewrite <- owner_chain). cbn.
    rewrite !zget_insert_ne by (set_solver || lia). by apply (vi_free _ _ Hinv).
Qed.

Lemma finish_inv : vinv own2 w2.
Proof.
  split.
  - destruct (vi_len _ _ Hinv). split; cbn; rewrite ?length_insert; done.
  - apply Hinv.
  - apply finish_free.
  - intros c wr g [Hc Hg]%calls_finish. destruct (vi_chain _ _ Hinv c wr g Hg) as (j1 & j2 & H).
    exists j1, j2. by apply finish_others.
  - intros i c. unfold own2 at 1. case_decide as Ho; [done|]. intros Hi.
    assert (c <> b) as Hc by congruence.
    destruct (vi_own _ _ Hinv i c Hi) as (Hb & wr & g & j1 & j2 & Hg & H & Hin).
    split; [done|]. exists wr, g, j1, j2. rewrite calls_finish. split; [done|]. split; [by apply finish_others|done].
  - apply Hinv.
  - intros g. change (flight w2) with (flight w). rewrite (vi_flight _ _ Hinv g). split.
    + intros (c & wr & Hg & Hf). exists c, wr. rewrite calls_finish. split; [|done]. split; [|done].
      intros ->. unfold d in *. congruence.
    + intros (c & wr & [_ Hg]%calls_finish & Hf). by exists c, wr.
  - intros c wr g y [Hc Hg]%calls_finish Hy. pose proof (head_own own w Hinv _ _ _ Hg) as [Ho _].
    destruct (finish_keeps g c Hc Ho) as (_ & _ & _ & Ei). change (vd w2) with d2 in Hy. rewrite Ei in Hy.
    by apply (vi_status _ _ Hinv c wr g y).
  - intros c. destruct (vi_flag _ _ Hinv c) as [?|(? & wr & g & Hg)]; [by left|right]. split; [done|].
    exists wr, g. apply calls_finish. split; [|done]. intros ->. congruence.
  - intros c ch [Hs Hn]%finish_asleep. pose proof (vi_sleep _ _ Hinv c ch Hs) as Hw. destruct ch; [done|].
    destruct Hw as (-> & Hf & wr & g & Hg). split; [done|]. split; [done|]. exists wr, g.
    apply calls_finish. split; [|done]. intros ->. congruence.
  - apply Hinv.
  - apply Hinv.
Qed.

Lemma finish_abs : astep (abs_disk w) (abs_disk w2).
Proof.
  apply (a_return _ _ b write); [| |done|done].
  - cbn. unfold call_of. rewrite Hcall, Hx.
    destruct (vi_status _ _ Hinv b write h x Hcall Hx) as [_ Hs]. by rewrite Hs by auto.
  - intros c. cbn. unfold call_of. cbn [calls vd w2]. destruct (Z.eqb_spec c b) as [-> |Hc].
    + by rewrite lookup_delete_eq.
    + rewrite lookup_delete_ne by done. destruct (calls w !! c) as [[wr|wr g]|] eqn:Hg; [done| |done].
      pose proof (head_own own w Hinv _ _ _ Hg) as [Ho _].
      destruct (finish_keeps g c Hc Ho) as (_ & _ & _ & ->). done.
Qed.
End Finish.

Lemma finish_spec own w b write h :
  vinv own w -> calls w !! b = Some (Wait write h) ->
  (vb_disk (bufs (vd w) b) = 0 /\ exists d own', rw_finish b h (vd w) = Ok tt d /\
     let w' := VWorld d (sec w) (dev_seen w) (taken w) (delete b (calls w)) (errors w) in
     vinv own' w' /\ astep (abs_disk w) (abs_disk w') /\ load w' = load w) \/
  (vb_disk (bufs (vd w) b) = 1 /\ exists c d, rw_finish b h (vd w) = Sleep c d /\ vinv own (with_vd w d) /\
    astep (abs_disk w) (abs_disk (with_vd w d)) /\ load (with_vd w d) = load w).
Proof.
  intros Hinv Hcall. unfold rw_finish. rewrite (kbind_Ok (kgets _) _ (vd w) _ (vd w) eq_refl).
  destruct (vi_flag _ _ Hinv b) as [Hf|[Hf _]]; rewrite Hf; [left|right]; (split; [done|]).
  - change (0 =? 1) with false. cbv iota.
    destruct (vi_chain _ _ Hinv b write h Hcall) as (i1 & i2 & Hch).
    destruct (head_own own w Hinv _ _ _ Hcall) as [_ Hh].
    destruct (zget_8 (info (vd w)) h (ln_info _ (vi_len _ _ Hinv)) Hh) as [x Hx].
    rewrite (kbind_Ok _ _ _ _ _ (vget_runs _ _ _ _ Hx)).
    rewrite (kbind_Ok _ _ _ _ _ (vput_runs info set_info h _ _ _ Hx)).
    rewrite (free_chain_runs own w Hinv b write h i1 i2 x Hcall Hf Hch Hx).
    eexists _, _. split; [reflexivity|]. split; [by eapply finish_inv|].
    split; [by eapply finish_abs|done].
  - change (1 =? 1) with true. cbv iota. eexists _, _. split; [reflexivity|].
    change (vinv own (with_vd w (set_asleep (set_desc (vd w) (desc (vd w))) (<[b := CBuf b]> (asleep (vd w))))) /\
      astep (abs_disk w) (abs_disk (with_vd w (set_asleep (vd w) (<[b := CBuf b]> (asleep (vd w)))))) /\
      load w = load w).
    split; [|split; [by apply a_stutter|done]]. apply vinv_asleep; [done|done|]. intros c ch.
    destruct (decide (b = c)) as [<-|Hc].
    + rewrite lookup_insert_eq. intros [= <-]. split; [done|]. split; [done|eauto].
    + rewrite lookup_insert_ne by done. apply (vi_sleep _ _ Hinv).
Qed.

(** ** The interrupt handler *)

Lemma zget_slot (l : list Z) i : Z.of_nat (length l) = NUM -> zget l (i mod NUM) = Some (slot NUM l i).
Proof.
  intros Hl. pose proof (Z.mod_pos_bound i NUM ltac:(done)). unfold zget, slot.
  rewrite decide_True by lia. apply list_lookup_lookup_total_lt. lia.
Qed.

Section Intr.
Context (own : Z -> option Z) (w : vworld) (Hinv : vinv own w).
Hypothesis Hmore : used_idx (vd w) <> used_ridx (vd w).

Let d := vd w.
Let h := slot NUM (used_ring d) (used_idx d).

Lemma more_used : 0 < used (2 ^ 16) (used_idx d) (used_ridx d).
Proof. destruct (vi_ctr _ _ Hinv) as (_ & H1 & H2 & _). by apply used_pos. Qed.

Lemma used_head : used_list w = h :: contents NUM (2 ^ 16) (used_ring d) (u16 (used_idx d + 1)) (used_ridx d).
Proof. apply contents_pop; try done; [by exists 8192|apply more_used]. Qed.

Context (b : Z) (write : bool).
Hypothesis Hcall : calls w !! b = Some (Wait write h).
Hypothesis Hflag : vb_disk (bufs (vd w) b) = 1.

Let vb := bufs d b.
Let d2 := set_used_idx (set_asleep (set_bufs d (fun c => if c =? b then VBuf (vb_blockno vb) 0 (vb_data vb) else bufs d c))
  (filter (fun x => x.2 <> CBuf b) (asleep d))) (u16 (used_idx d + 1)).
Let w2 := with_vd w d2.

Lemma intr_flight : flight w ≡ₚ h :: flight w2.
Proof.
  unfold flight. rewrite used_head. change (taken w2) with (taken w).
  change (avail_list w2) with (avail_list w). rewrite !app_assoc. by rewrite Permutation_middle.
Qed.

Lemma intr_bufs c : vb_blockno (bufs (vd w2) c) = vb_blockno (bufs (vd w) c) /\ vb_data (bufs (vd w2) c) = vb_data (bufs (vd w) c) /\
  vb_disk (bufs (vd w2) c) = if decide (c = b) then 0 else vb_disk (bufs (vd w) c).
Proof. cbn. destruct (Z.eqb_spec c b) as [-> |]; [by rewrite decide_True|by rewrite decide_False]. Qed.

Lemma head_other c wr g : calls w !! c = Some (Wait wr g) -> c <> b -> g <> h.
Proof. intros Hg Hc ->. by apply Hc, (head_inj own w Hinv _ _ _ _ _ Hg Hcall). Qed.

Lemma intr_chain c wr g j1 j2 : chain d own c wr g j1 j2 -> chain d2 own c wr g j1 j2.
Proof. intros H. eapply chain_same; [exact H|done|]. apply intr_bufs. Qed.

Lemma intr_inv : vinv own w2.
Proof.
  pose proof (vi_dup _ _ Hinv) as Hdup. rewrite intr_flight in Hdup. apply list.NoDup_cons in Hdup as [Hnin Hdup].
  split; try apply Hinv.
  - destruct (vi_len _ _ Hinv). by split.
  - destruct (vi_ctr _ _ Hinv) as (H1 & H2 & H3 & H4). split_and!; try done. by apply counter_mod.
  - intros c wr g Hg. destruct (vi_chain _ _ Hinv c wr g Hg) as (j1 & j2 & H). exists j1, j2. by apply intr_chain.
  - intros i c Hi. destruct (vi_own _ _ Hinv i c Hi) as (Hb & wr & g & j1 & j2 & Hg & H & Hin).
    split; [done|]. exists wr, g, j1, j2. split; [done|]. split; [by apply intr_chain|done].
  - done.
  - intros g. pose proof (vi_flight _ _ Hinv g) as Hf. rewrite intr_flight, elem_of_cons in Hf. split.
    + intros Hg. destruct (proj1 Hf (or_intror Hg)) as (c & wr & Hc & Hd). exists c, wr. split; [done|].
      destruct (intr_bufs c) as (_ & _ & ->). rewrite decide_False; [done|]. intros ->.
      assert (g = h) as -> by congruence. done.
    + intros (c & wr & Hc & Hd). destruct (intr_bufs c) as (_ & _ & E). 
      rewrite E in Hd. case_decide as Hcb; [done|].
      destruct (proj2 Hf) as [->|]; [by exists c, wr| |done]. exfalso. by eapply head_other.
  - intros c wr g y Hg Hy. destruct (vi_status _ _ Hinv c wr g y Hg Hy) as [H1 H2]. split; [exact H1|].
    intros [Hu|Hd]; apply H2; rewrite used_head.
    + left. by right.
    + destruct (intr_bufs c) as (_ & _ & E).  rewrite E in Hd.
      change (calls w !! c = Some (Wait wr g)) in Hg.
      case_decide as Hcb; [|by right]. left. assert (g = h) as -> by congruence. left.
  - intros c. destruct (intr_bufs c) as (_ & _ & E). unfold flag_ok. rewrite E.
    case_decide; [by left|]. apply (vi_flag _ _ Hinv c).
  - intros c ch [Hs Hn]%map_lookup_filter_Some. pose proof (vi_sleep _ _ Hinv c ch Hs) as Hw.
    destruct ch; [done|]. destruct Hw as (-> & Hd & H). split; [done|]. split; [|done].
    destruct (intr_bufs c) as (_ & _ & E). rewrite E. rewrite decide_False; [done|].
    cbn in Hn. congruence.
  - intros c. destruct (intr_bufs c) as (E1 & E2 & _). unfold buf_ok. rewrite E1, E2. apply Hinv.
Qed.

Lemma intr_runs k : intr_loop (S k) d = intr_loop k d2.
Proof.
  pose proof (vi_len _ _ Hinv) as Hlen. cbn [intr_loop]. rewrite (kbind_Ok kget _ d d d eq_refl).
  rewrite (proj2 (Z.eqb_neq _ _)) by done.
  rewrite (kbind_Ok _ _ _ _ _ (vget_runs used_ring _ _ d (zget_slot _ _ (ln_used _ Hlen)))). fold h.
  destruct (vi_chain _ _ Hinv b write h Hcall) as (i1 & i2 & Hch).
  pose proof (ch_info _ _ _ _ _ _ _ Hch) as Hi. fold d in Hi.
  destruct (zget (info d) h) as [x|] eqn:Ex; [|done]. cbn in Hi. injection Hi as Hxb.
  destruct (vi_status _ _ Hinv b write h x Hcall Ex) as [_ Hs].
  rewrite (kbind_Ok _ _ _ _ _ (vget_runs info _ _ d Ex)).
  rewrite Hs by (left; rewrite used_head; left). cbn [Z.eqb negb]. rewrite Hxb. done.
Qed.
End Intr.

Lemma intr1_spec own w :
  vinv own w -> used_idx (vd w) <> used_ridx (vd w) -> exists d,
  (forall k, intr_loop (S k) (vd w) = intr_loop k d) /\ vinv own (with_vd w d) /\
  (forall b, vb_blockno (bufs d b) = vb_blockno (bufs (vd w) b) /\ vb_data (bufs d b) = vb_data (bufs (vd w) b)) /\
  info d = info (vd w) /\ length (used_list w) = S (length (used_list (with_vd w d))) /\
  avail_list (with_vd w d) = avail_list w.
Proof.
  intros Hinv Hmore. set (h := slot NUM (used_ring (vd w)) (used_idx (vd w))).
  assert (h ∈ flight w) as Hf.
  { unfold flight. rewrite (used_head own w Hinv Hmore). apply elem_of_app. right. apply elem_of_app. right. left. }
  apply (vi_flight _ _ Hinv) in Hf as (b & write & Hcall & Hflag).
  eexists. split; [intros k; by eapply intr_runs|]. split; [by eapply intr_inv|].
  split; [intros c; split; by eapply intr_bufs|]. split; [done|]. split; [|done].
  rewrite (used_head own w Hinv Hmore). done.
Qed.

Lemma intr_loop_spec n own w k :
  vinv own w -> length (used_list w) = n -> (n < k)%nat -> exists d,
  intr_loop k (vd w) = Ok tt d /\ vinv own (with_vd w d) /\
  (forall b, vb_blockno (bufs d b) = vb_blockno (bufs (vd w) b) /\ vb_data (bufs d b) = vb_data (bufs (vd w) b)) /\
  info d = info (vd w) /\ used_list (with_vd w d) = [] /\ avail_list (with_vd w d) = avail_list w.
Proof.
  revert w k. induction n as [|n IH]; intros w k Hinv Hn Hk; (destruct k as [|k]; [lia|]).
  - exists (vd w). split; [|split; [by destruct w|split; [done|split; [done|split; [|done]]]]].
    + cbn [intr_loop]. rewrite (kbind_Ok kget _ _ _ _ eq_refl).
      destruct (Z.eqb_spec (used_idx (vd w)) (used_ridx (vd w))) as [|Hne]; [done|].
      by rewrite (used_head own w Hinv Hne) in Hn.
    + destruct (used_list w) eqn:E; [|done]. exact E.
  - destruct (decide (used_idx (vd w) = used_ridx (vd w))) as [E|Hne].
    { unfold used_list in Hn. pose proof (contents_length NUM (2 ^ 16) ltac:(done) (used_ring (vd w)) (used_ridx (vd w)) (used_ridx (vd w))). rewrite used_refl in *. rewrite E in Hn. lia. }
    destruct (intr1_spec own w Hinv Hne) as (d & E & Hinv' & Hb & Hi & Hl & Ha).
    destruct (IH (with_vd w d) k Hinv' ltac:(lia) ltac:(lia)) as (d' & E' & Hinv2 & Hb2 & Hi2 & Hl2 & Ha2).
    exists d'. rewrite E. split; [exact E'|]. split; [exact Hinv2|]. split.
    { intros b. destruct (Hb b) as [<- <-]. apply Hb2. }
    split; [by rewrite Hi2|]. split; [exact Hl2|]. rewrite <- Ha. exact Ha2.
Qed.

Lemma intr_spec own w :
  vinv own w -> exists d, virtio_disk_intr (vd w) = Ok tt d /\ vinv own (with_vd w d) /\
  astep (abs_disk w) (abs_disk (with_vd w d)) /\ used_list (with_vd w d) = [] /\ avail_list (with_vd w d) = avail_list w.
Proof.
  intros Hinv. unfold virtio_disk_intr. rewrite (kbind_Ok kget _ _ _ _ eq_refl).
  destruct (intr_loop_spec (length (used_list w)) own w
    (S (Z.to_nat (u16 (used_ridx (vd w) - used_idx (vd w))))) Hinv eq_refl) as (d & E & Hinv' & Hb & Hi & Hu & Ha).
  { change (u16 (used_ridx (vd w) - used_idx (vd w))) with (used (2 ^ 16) (used_idx (vd w)) (used_ridx (vd w))).
    unfold used_list. rewrite <- (contents_length NUM (2 ^ 16) ltac:(done) (used_ring (vd w))). lia. }
  exists d. split; [done|]. split; [done|]. split; [|done]. apply a_stutter; [| |done].
  - intros c. cbn. unfold call_of. cbn. by rewrite Hi.
  - intros c. cbn. destruct (Hb c) as [-> ->]. done.
Qed.

(** An interrupt with nothing in the used ring changes nothing. *)
Lemma intr_idle d : used_idx d = used_ridx d -> virtio_disk_intr d = Ok tt d.
Proof.
  intros E. unfold virtio_disk_intr. rewrite (kbind_Ok kget _ d d d eq_refl). cbn [intr_loop].
  rewrite (kbind_Ok kget _ d d d eq_refl). by rewrite (proj2 (Z.eqb_eq _ _) E).
Qed.
