(* ===== verification/VirtioRefine.v ===== *)
(** The disk driver refines an atomic disk, and every request completes.

    The device's steps preserve the invariant of [VirtioTheorems]; the moment at
    which it carries a request out is the moment at which the atomic disk reads
    or writes the block.  Every reachable state has a schedule in which each
    call of [virtio_disk_rw] returns. *)

From stdpp Require Import gmap.
From S2P Require Import Prelude Mem Kalloc Block Ring Virtio VirtioTheorems.

Implicit Types (d : disk) (w : vworld) (own : Z -> option Z).

(** ** The device takes a request *)

Section Take.
Context (own : Z -> option Z) (w : vworld) (Hinv : vinv own w).
Hypothesis Hmore : dev_seen w <> avail_idx (vd w).

Let h := slot NUM (avail_ring (vd w)) (dev_seen w).
Let w2 := VWorld (vd w) (sec w) (u16 (dev_seen w + 1)) (taken w ++ [h]) (calls w) (errors w).

Lemma avail_head : avail_list w = h :: avail_list w2.
Proof.
  apply contents_pop; try done; [by exists 8192|].
  destruct (vi_ctr _ _ Hinv) as (H1 & _ & _ & H2). by apply used_pos.
Qed.

Lemma take_flight : flight w ≡ₚ flight w2.
Proof.
  unfold flight. rewrite avail_head. change (used_list w2) with (used_list w).
  change (taken w2) with (taken w ++ [h]). rewrite <- (app_assoc (taken w)). cbn [app].
  rewrite <- Permutation_middle. apply Permutation_middle.
Qed.

Lemma take_inv : vinv own w2.
Proof.
  split; try apply Hinv.
  - destruct (vi_ctr _ _ Hinv) as (H1 & H2 & H3 & _). split_and!; try done. by apply counter_mod.
  - rewrite <- take_flight. apply Hinv.
  - intros g. rewrite <- take_flight. apply Hinv.
  - intros b write g x Hg Hx. destruct (vi_status _ _ Hinv b write g x Hg Hx) as [H1 H2]. split; [|exact H2].
    intros Hin. apply H1. revert Hin. rewrite avail_head. change (taken w2) with (taken w ++ [h]).
    set_solver.
Qed.

Lemma take_abs : astep (abs_disk w) (abs_disk w2).
Proof. by apply a_stutter. Qed.
End Take.

(** ** The device carries a request out *)

Lemma set_bufs_id d : set_bufs d (bufs d) = d.
Proof. by destruct d. Qed.

Lemma write_sectors_block sec n data m :
  Z.of_nat (length data) = BSIZE ->
  let sec' := write_sectors sec (2 * n) data in
  sec' (2 * m) ++ sec' (2 * m + 1) = if m =? n then data else sec (2 * m) ++ sec (2 * m + 1).
Proof.
  intros Hl. unfold write_sectors. rewrite Hl. change (BSIZE / SECTOR) with 2.
  destruct (Z.eqb_spec m n) as [-> |Hne].
  - replace (2 * n - 2 * n) with 0 by lia. replace (2 * n + 1 - 2 * n) with 1 by lia. cbn [Z.leb Z.ltb andb Z.mul Z.compare].
    change (Z.to_nat 0) with 0%nat. change (0 <=? 1) with true. change (1 <? 2) with true. cbn [andb].
    rewrite drop_0. unfold SECTOR, BSIZE in *. rewrite (take_ge (drop _ data)) by (rewrite length_drop; lia).
    change (Z.to_nat (1 * 512)) with (Z.to_nat 512). by rewrite take_drop.
  - assert (forall x k, (x = 0 \/ x = 1) -> (0 <=? 2 * m + x - 2 * n) && (2 * m + x - 2 * n <? 2) = k -> k = false) as Hout.
    { intros x k Hx <-. destruct (Z.leb_spec 0 (2 * m + x - 2 * n)), (Z.ltb_spec (2 * m + x - 2 * n) 2); cbn; try done; lia. }
    rewrite (Hout 1 _ (or_intror eq_refl) eq_refl). specialize (Hout 0 _ (or_introl eq_refl) eq_refl).
    rewrite Z.add_0_r in Hout. by rewrite Hout.
Qed.

Lemma read_sectors_block sec n : read_sectors sec (2 * n) BSIZE = sec (2 * n) ++ sec (2 * n + 1).
Proof.
  unfold read_sectors. change (seqZ 0 (BSIZE / SECTOR)) with [0; 1]. cbn. by rewrite Z.add_0_r, app_nil_r.
Qed.

Section Done.
Context (own : Z -> option Z) (w : vworld) (Hinv : vinv own w).
Context (i : nat) (h : Z) (Htaken : taken w !! i = Some h).

Lemma taken_call : exists b write, calls w !! b = Some (Wait write h) /\ vb_disk (bufs (vd w) b) = 1.
Proof.
  apply (vi_flight _ _ Hinv). unfold flight. rewrite !elem_of_app. right. left. by eapply list_elem_of_lookup_2.
Qed.

Context (b : Z) (write : bool) (Hcall : calls w !! b = Some (Wait write h)).

(** What a request moves. *)
Definition done_bufs : Z -> vbuf := fun c =>
  if negb write && (c =? b)
  then VBuf (vb_blockno (bufs (vd w) b)) (vb_disk (bufs (vd w) b)) (a_block (abs_disk w) (vb_blockno (bufs (vd w) b)))
  else bufs (vd w) c.
Definition done_sec : Z -> list Z :=
  if write then write_sectors (sec w) (2 * vb_blockno (bufs (vd w) b)) (vb_data (bufs (vd w) b)) else sec w.
Definition done_info : list dinfo := <[Z.to_nat h := Info (Some b) 0]> (info (vd w)).

Lemma head_info : exists x, zget (info (vd w)) h = Some x /\ info_b x = Some b.
Proof.
  destruct (vi_chain _ _ Hinv b write h Hcall) as (i1 & i2 & Hch). pose proof (ch_info _ _ _ _ _ _ _ Hch) as Hi.
  destruct (zget (info (vd w)) h) as [x|]; [|done]. injection Hi as Hi. by exists x.
Qed.

Lemma device_op_runs : exists bf,
  device_op 0 h (vd w) (sec w) = Some (set_info (set_bufs (vd w) bf) done_info, done_sec) /\ forall c, bf c = done_bufs c.
Proof.
  destruct (vi_chain _ _ Hinv b write h Hcall) as (i1 & i2 & Hch). destruct Hch as [_ _ E0 E1 E2 Er _].
  destruct head_info as (x & Ex & Hxb). pose proof (vi_buf _ _ Hinv b) as [_ Hlen].
  unfold device_op. rewrite E0. cbn [mbind option_bind]. change (d_next (head_desc h i1)) with i1. rewrite E1.
  cbn [mbind option_bind]. change (d_next (data_desc b write i2)) with i2. rewrite E2. cbn -[zget zset].
  rewrite Er. cbn -[zget zset]. rewrite Ex. cbn -[zget zset].
  rewrite zset_in by (by apply zget_Some in Ex as [? _]). rewrite Hxb. unfold done_bufs, done_sec, done_info.
  destruct write; cbn -[read_sectors write_sectors BSIZE Z.mul].
  - exists (bufs (vd w)). split; [|done]. rewrite set_bufs_id.
    rewrite take_ge by lia. done.
  - eexists. split.
    + done.
    + intros c. cbn. destruct (c =? b); [|done]. by rewrite read_sectors_block, drop_ge, app_nil_r by lia.
Qed.

Context (bf : Z -> vbuf) (Hbf : forall c, bf c = done_bufs c).
Let d2 := set_used (set_info (set_bufs (vd w) bf) done_info) (u16 (used_ridx (vd w) + 1))
  (put NUM (used_ring (vd w)) (used_ridx (vd w)) h).
Let w2 := VWorld d2 done_sec (dev_seen w) (delete i (taken w)) (calls w) (errors w).

Lemma taken_split : taken w ≡ₚ h :: taken w2.
Proof. by apply delete_Permutation. Qed.

Lemma done_used : used_list w2 = used_list w ++ [h].
Proof.
  pose proof (NoDup_small (flight w) NUM (vi_dup _ _ Hinv)) as Hroom.
  pose proof (flight_length w) as Hl. rewrite taken_split in Hl. cbn [length] in Hl.
  pose proof (used_bound (2 ^ 16) ltac:(done) (dev_seen w) (avail_idx (vd w))) as Ha.
  unfold used_list. cbn. unfold u16. apply contents_push; try done.
  - by exists 8192.
  - apply (vi_len _ _ Hinv).
  - apply (vi_ctr _ _ Hinv).
  - cut (Z.of_nat (length (flight w)) <= NUM); [lia|].
    etrans; [apply Hroom|done]. intros x Hx. by apply (flight_own own w Hinv) in Hx as [_ ?].
Qed.

Lemma done_load : (load w2 < load w)%nat.
Proof.
  unfold load. rewrite done_used, taken_split, length_app. change (avail_list w2) with (avail_list w).
  cbn [length]. lia.
Qed.

Lemma done_flight : flight w2 ≡ₚ flight w.
Proof.
  unfold flight. rewrite done_used, taken_split. change (avail_list w2) with (avail_list w).
  rewrite (app_assoc (taken w2)). rewrite <- Permutation_cons_append. done.
Qed.

Lemma done_buf c : vb_blockno (bufs (vd w2) c) = vb_blockno (bufs (vd w) c) /\
  vb_disk (bufs (vd w2) c) = vb_disk (bufs (vd w) c).
Proof.
  change (bufs (vd w2) c) with (bf c). rewrite Hbf. unfold done_bufs. destruct write; [done|].
  cbn. by destruct (Z.eqb_spec c b) as [-> |].
Qed.

Lemma done_get g : zget (info (vd w2)) g = if decide (g = h) then Some (Info (Some b) 0) else zget (info (vd w)) g.
Proof.
  destruct head_info as (x & Ex & _). change (info (vd w2)) with done_info. unfold done_info.
  rewrite (zget_insert _ _ _ _ x Ex). by destruct (decide (h = g)), (decide (g = h)).
Qed.

Lemma done_chain c wr g j1 j2 : chain (vd w) own c wr g j1 j2 -> chain (vd w2) own c wr g j1 j2.
Proof.
  intros H. eapply chain_same; [exact H| |apply done_buf]. intros k Hk. split; [done|]. split; [done|].
  split; [done|]. rewrite done_get. case_decide as Hkh; [|done]. subst k.
  destruct head_info as (x & -> & Hx). cbn. by rewrite Hx.
Qed.

Lemma done_status c wr g x :
  calls w !! c = Some (Wait wr g) -> zget (info (vd w2)) g = Some x ->
  (g ∈ avail_list w2 ++ taken w2 -> info_status x = 0xff) /\
  (g ∈ used_list w2 \/ vb_disk (bufs (vd w2) c) = 0 -> info_status x = 0).
Proof.
  intros Hg Hx. rewrite done_get in Hx. destruct (done_buf c) as [_ ->]. case_decide as Hgh.
  - subst g. injection Hx as <-. split; [|done]. intros Hin. exfalso.
    pose proof (vi_dup _ _ Hinv) as Hnd. unfold flight in Hnd. rewrite taken_split in Hnd. cbn [app] in Hnd.
    rewrite <- Permutation_middle in Hnd. apply list.NoDup_cons in Hnd as [Hnd _]. apply Hnd.
    change (avail_list w2) with (avail_list w) in Hin. rewrite !elem_of_app in *. tauto.
  - destruct (vi_status _ _ Hinv c wr g x Hg Hx) as [H1 H2]. rewrite taken_split in H1. rewrite done_used. split.
    + intros Hin. apply H1. change (avail_list w2) with (avail_list w) in Hin. set_solver.
    + intros [Hin|Hd]; apply H2; [|by right]. left. set_solver.
Qed.

Lemma done_inv : vinv own w2.
Proof.
  pose proof (vi_len _ _ Hinv) as Hlen. split; try apply Hinv.
  - destruct Hlen. split; cbn; try done; unfold put, done_info; by rewrite length_insert.
  - destruct (vi_ctr _ _ Hinv) as (H1 & H2 & H3 & H4). split_and!; try done. by apply counter_mod.
  - intros c wr g Hg. destruct (vi_chain _ _ Hinv c wr g Hg) as (j1 & j2 & H). exists j1, j2. by apply done_chain.
  - intros k c Hk. destruct (vi_own _ _ Hinv k c Hk) as (Hb & wr & g & j1 & j2 & Hg & H & Hin).
    split; [done|]. exists wr, g, j1, j2. split; [done|]. split; [by apply done_chain|done].
  - rewrite done_flight. apply Hinv.
  - intros g. rewrite done_flight, (vi_flight _ _ Hinv g). f_equiv. intros c. f_equiv. intros wr.
    by destruct (done_buf c) as [_ ->].
  - intros c wr g x Hg Hx. by eapply done_status.
  - intros c. unfold flag_ok. destruct (done_buf c) as [_ ->]. apply (vi_flag _ _ Hinv c).
  - intros c ch Hs. pose proof (vi_sleep _ _ Hinv c ch Hs) as H. destruct ch as [|c']; [exact H|].
    unfold sleeps_well in *. destruct (done_buf c) as [_ ->]. exact H.
  - intros c. change (bufs (vd w2) c) with (bf c). rewrite Hbf. unfold done_bufs.
    destruct (negb write && (c =? b)); [|apply Hinv]. split; [apply (vi_buf _ _ Hinv b)|]. cbn.
    rewrite length_app, Nat2Z.inj_add, !(vi_sec _ _ Hinv). done.
  - intros n. cbn. unfold done_sec. destruct write; [|apply Hinv]. unfold write_sectors.
    destruct (vi_buf _ _ Hinv b) as [_ Hb]. rewrite Hb. change (BSIZE / SECTOR) with 2. unfold BSIZE, SECTOR in *.
    case_match eqn:E; [|apply Hinv]. apply andb_true_iff in E as [E1 E2].
    apply Z.leb_le in E1. apply Z.ltb_lt in E2. rewrite length_take, length_drop. lia.
Qed.

Lemma done_abs : astep (abs_disk w) (abs_disk w2).
Proof.
  destruct head_info as (y & Ey & Hy).
  assert (info_status y = 0xff) as Hst.
  { apply (vi_status _ _ Hinv b write h y Hcall Ey). rewrite taken_split. set_solver. }
  assert (call_of w b = Some (ACalled write)) as Hb by (unfold call_of; by rewrite Hcall, Ey, Hst).
  assert (same_call_but (abs_disk w) (abs_disk w2) b (Some (ADone write))) as Hc.
  { intros c. cbn. unfold call_of. change (calls w2) with (calls w). destruct (Z.eqb_spec c b) as [-> |Hcb].
    - rewrite Hcall, done_get, decide_True by done. done.
    - destruct (calls w !! c) as [[|wr g]|] eqn:E; [done| |done]. rewrite done_get, decide_False; [done|].
      intros ->. by apply Hcb, (head_inj own w Hinv _ _ _ _ _ E Hcall). }
  pose proof (vi_buf _ _ Hinv b) as [_ Hlen]. destruct write eqn:Ew.
  - apply (a_write _ _ b); [done|done| |].
    + intros c. cbn. rewrite Hbf. unfold done_bufs. by rewrite Ew.
    + intros n _. cbn [a_block abs_disk]. unfold w2. cbn [sec]. unfold done_sec. rewrite Ew.
      by apply write_sectors_block.
  - apply (a_read _ _ b); [done|done| |].
    + intros n _. cbn. unfold done_sec. by rewrite Ew.
    + intros c. cbn. rewrite Hbf. unfold done_bufs. rewrite Ew. cbn. by destruct (c =? b).
Qed.
End Done.

(** ** The steps of the clients *)

Lemma client_write_ok own w b x :
  vinv own w -> calls w !! b = None -> buf_ok x -> vb_disk x = vb_disk (bufs (vd w) b) ->
  let w' := with_vd w (set_bufs (vd w) (fun c => if c =? b then x else bufs (vd w) c)) in
  vinv own w' /\ astep (abs_disk w) (abs_disk w').
Proof.
  intros Hinv Hb Hx Hd. cbv zeta.
  set (w2 := with_vd w _).
  assert (forall c v, calls w !! c = Some v -> bufs (vd w2) c = bufs (vd w) c) as Hc.
  { intros c v Hv. cbn. destruct (Z.eqb_spec c b) as [-> |]; [congruence|done]. }
  assert (forall c, vb_disk (bufs (vd w2) c) = vb_disk (bufs (vd w) c)) as Hd'.
  { intros c. cbn. by destruct (Z.eqb_spec c b) as [-> |]. }
  assert (forall c wr h i1 i2, calls w !! c = Some (Wait wr h) -> chain (vd w) own c wr h i1 i2 ->
    chain (vd w2) own c wr h i1 i2) as Hch.
  { intros c wr h i1 i2 Hw H. eapply chain_same; [exact H|done|]. by rewrite (Hc _ _ Hw). }
  split; [split; try apply Hinv|].
  - destruct (vi_len _ _ Hinv). by split.
  - intros c wr h Hw. destruct (vi_chain _ _ Hinv c wr h Hw) as (i1 & i2 & H). exists i1, i2. by apply Hch.
  - intros i c Hi. destruct (vi_own _ _ Hinv i c Hi) as (Hr & wr & h & i1 & i2 & Hw & H & Hin).
    split; [done|]. exists wr, h, i1, i2. split; [done|]. split; [by apply Hch|done].
  - intros h. change (flight w2) with (flight w). rewrite (vi_flight _ _ Hinv h).
    f_equiv. intros c. f_equiv. intros wr. by rewrite Hd'.
  - intros c wr h y Hw Hy. rewrite Hd'. by eapply (vi_status _ _ Hinv).
  - intros c. unfold flag_ok. rewrite Hd'. apply (vi_flag _ _ Hinv c).
  - intros c ch Hs. pose proof (vi_sleep _ _ Hinv c ch Hs) as H. destruct ch; [exact H|].
    unfold sleeps_well in *. rewrite Hd'. exact H.
  - intros c. cbn. destruct (c =? b); [done|apply Hinv].
  - apply (a_client _ _ b); [by unfold abs_disk, call_of; cbn; rewrite Hb| |done|done].
    intros c Hcb. cbn. by rewrite (proj2 (Z.eqb_neq _ _) Hcb).
Qed.

Lemma client_call_ok own w b write :
  vinv own w -> calls w !! b = None ->
  let w' := with_call w (vd w) b (Want write) in vinv own w' /\ astep (abs_disk w) (abs_disk w').
Proof.
  intros Hinv Hb. cbv zeta.
  assert (forall c wr h, <[b := Want write]> (calls w) !! c = Some (Wait wr h) <-> calls w !! c = Some (Wait wr h)) as Hw.
  { intros c wr h. destruct (decide (b = c)) as [<-|]; [rewrite lookup_insert_eq, Hb|by rewrite lookup_insert_ne].
    by split. }
  split; [split; try apply Hinv|].
  - intros c wr h Hc%Hw. by apply (vi_chain _ _ Hinv).
  - intros i c Hi. destruct (vi_own _ _ Hinv i c Hi) as (Hr & wr & h & i1 & i2 & Hc & H & Hin).
    split; [done|]. exists wr, h, i1, i2. by rewrite <- Hw in Hc.
  - intros h. change (flight (with_call w (vd w) b (Want write))) with (flight w).
    rewrite (vi_flight _ _ Hinv h). f_equiv. intros c. f_equiv. intros wr. cbn. by rewrite Hw.
  - intros c wr h y Hc%Hw Hy. by eapply (vi_status _ _ Hinv).
  - intros c. destruct (vi_flag _ _ Hinv c) as [H|(H & wr & h & Hc)]; [by left|right]. split; [done|].
    exists wr, h. by apply Hw.
  - intros c ch Hs. pose proof (vi_sleep _ _ Hinv c ch Hs) as H. destruct ch.
    + destruct H as [[wr H] Hn]. split; [|done]. exists wr. cbn. rewrite lookup_insert_ne; [done|congruence].
    + destruct H as (-> & Hd & wr & h & H). split; [done|]. split; [done|]. exists wr, h. by apply Hw.
  - apply (a_start _ _ b write); try done; cbn; unfold call_of; [by rewrite Hb|].
    intros c. cbn. unfold call_of. cbn. destruct (Z.eqb_spec c b) as [-> |]; [by rewrite lookup_insert_eq|].
    by rewrite lookup_insert_ne.
Qed.

Lemma client_ok own w w' : vinv own w -> client_step w w' -> vinv own w' /\ astep (abs_disk w) (abs_disk w').
Proof. intros Hinv [b x Hb Hx Hd|b write Hb]; [by apply client_write_ok|by apply client_call_ok]. Qed.

(** ** The work that the calls still need *)

(** A run with [n] steps of work; idle interrupts are left out, and calls may
    go to sleep at any time. *)
Inductive runs : nat -> vworld -> vworld -> Prop :=
| runs_none w : runs 0 w w
| runs_work n w1 w2 w3 : work_step w1 w2 -> w2 <> w1 -> runs n w2 w3 -> runs (S n) w1 w3
| runs_sleep n w1 w2 w3 : sleep_step w1 w2 -> runs n w2 w3 -> runs n w1 w3.

Definition is_want (x : Z * call) : Prop := (if x.2 is Want _ then true else false) = true.

Definition wants w : nat := size (filter is_want (calls w)).

Definition measure w : nat := (size (calls w) + 4 * wants w + load w)%nat.

Lemma measure_begin w d b write h :
  calls w !! b = Some (Want write) -> load (with_call w d b (Wait write h)) = (load w + 3)%nat ->
  (measure (with_call w d b (Wait write h)) < measure w)%nat.
Proof.
  intros Hb Hl. unfold measure. rewrite Hl. unfold wants. cbn.
  rewrite map_size_insert_Some by (by rewrite Hb). rewrite map_filter_insert_False, map_filter_delete by done.
  assert (filter is_want (calls w) !! b = Some (Want write)) as Hf by (by apply map_lookup_filter_Some).
  rewrite map_size_delete_Some by (by rewrite Hf).
  assert (size (filter is_want (calls w)) <> 0%nat); [|lia]. intros E%map_size_empty_inv. by rewrite E in Hf.
Qed.

Lemma measure_finish w d b write h :
  let w' := VWorld d (sec w) (dev_seen w) (taken w) (delete b (calls w)) (errors w) in
  calls w !! b = Some (Wait write h) -> load w' = load w -> (measure w' < measure w)%nat.
Proof.
  intros w' Hb Hl. unfold measure. rewrite Hl. unfold wants. cbn. rewrite map_filter_delete, (delete_id (filter _ _)).
  - rewrite map_size_delete_Some by (by rewrite Hb).
    assert (size (calls w) <> 0%nat); [|lia]. intros E%map_size_empty_inv. by rewrite E in Hb.
  - apply map_lookup_filter_None. right. intros x Hx. by rewrite Hb in Hx; injection Hx as <-.
Qed.

Lemma take_step own w :
  vinv own w -> dev_seen w <> avail_idx (vd w) ->
  let h := slot NUM (avail_ring (vd w)) (dev_seen w) in
  let w' := VWorld (vd w) (sec w) (u16 (dev_seen w + 1)) (taken w ++ [h]) (calls w) (errors w) in
  vinv own w' /\ astep (abs_disk w) (abs_disk w') /\ (measure w' < measure w)%nat.
Proof.
  intros Hinv Hne h w'. split; [by apply take_inv|]. split; [by apply take_abs|].
  unfold measure, load. rewrite (avail_head own w) by done. change (wants w') with (wants w).
  change (used_list w') with (used_list w). cbn [taken calls w']. rewrite length_app. cbn [length].
  fold h. fold w'. lia.
Qed.

Lemma done_step own w i h d s ring :
  vinv own w -> taken w !! i = Some h -> device_op 0 h (vd w) (sec w) = Some (d, s) ->
  zset (used_ring d) (used_ridx d mod NUM) h = Some ring ->
  let w' := VWorld (set_used d (u16 (used_ridx d + 1)) ring) s (dev_seen w) (delete i (taken w)) (calls w) (errors w) in
  vinv own w' /\ astep (abs_disk w) (abs_disk w') /\ (measure w' < measure w)%nat.
Proof.
  intros Hinv Ht Hd [_ ->]%zset_Some. destruct (taken_call own w Hinv i h Ht) as (b & write & Hc & _).
  destruct (device_op_runs own w Hinv h b write Hc) as (bf & E & Hbf). rewrite E in Hd. injection Hd as <- <-.
  split; [by eapply done_inv|]. split; [by eapply done_abs|].
  pose proof (done_load own w Hinv i h Ht b write bf) as Hl. unfold measure, wants. cbn [calls].
  apply Nat.add_lt_mono_l. exact Hl.
Qed.

Lemma intr_step own w d :
  vinv own w -> virtio_disk_intr (vd w) = Ok tt d ->
  vinv own (with_vd w d) /\ astep (abs_disk w) (abs_disk (with_vd w d)) /\
  (used_idx (vd w) = used_ridx (vd w) /\ with_vd w d = w \/ (measure (with_vd w d) < measure w)%nat).
Proof.
  intros Hinv E. destruct (intr_spec own w Hinv) as (d' & E' & Hinv' & Habs & Hu & Ha).
  assert (d' = d) as -> by congruence. split; [done|]. split; [done|].
  destruct (decide (used_idx (vd w) = used_ridx (vd w))) as [Ei|Hne]; [left|right].
  - split; [done|]. rewrite (intr_idle _ Ei) in E. injection E as <-. by destruct w.
  - unfold measure, load. rewrite Hu, Ha, (used_head own w Hinv Hne). change (wants (with_vd w d)) with (wants w).
    cbn [taken calls with_vd length]. lia.
Qed.

Lemma work_ok own w w' :
  vinv own w -> work_step w w' -> errors w' = false ->
  exists own', vinv own' w' /\ astep (abs_disk w) (abs_disk w') /\ (w' = w \/ (measure w' < measure w)%nat).
Proof.
  intros Hinv [b write h d Hc Ha E|b write h d Hc Ha E|d E|h Hne E|i h st d s ring Ht _ Hd Hr] Herr.
  - destruct (begin_spec own w b write Hinv Hc Ha) as [(h' & d' & own' & E' & Hinv' & Habs & Hl)|(_ & c & d' & E' & _)];
      [|congruence]. assert (h' = h /\ d' = d) as [-> ->] by (split; congruence).
    exists own'. split; [done|]. split; [done|]. right. by apply measure_begin.
  - destruct (finish_spec own w b write h Hinv Hc) as [(_ & d' & own' & E' & Hinv' & Habs & Hl)|(_ & c & d' & E' & _)];
      [|congruence]. assert (d' = d) as -> by congruence.
    exists own'. split; [done|]. split; [done|]. right. by eapply measure_finish.
  - destruct (intr_step own w d Hinv E) as (H1 & H2 & H3). exists own. split; [done|]. split; [done|].
    destruct H3 as [[_ ?]|?]; [by left|by right].
  - rewrite (zget_slot _ _ (ln_avail _ (vi_len _ _ Hinv))) in E. injection E as <-.
    destruct (take_step own w Hinv Hne) as (H1 & H2 & H3). exists own. eauto.
  - cbn in Herr. apply orb_false_iff in Herr as [He Hst%negb_false_iff%Z.eqb_eq]. subst st.
    destruct (done_step own w i h d s ring Hinv Ht Hd Hr) as (H1 & H2 & H3). exists own.
    rewrite He in *. eauto.
Qed.

Lemma sleep_ok own w w' :
  vinv own w -> sleep_step w w' ->
  vinv own w' /\ astep (abs_disk w) (abs_disk w') /\ measure w' = measure w.
Proof.
  intros Hinv [b write c d Hc Ha E|b write h c d Hc Ha E].
  - destruct (begin_spec own w b write Hinv Hc Ha) as [(h' & d' & own' & E' & _)|(_ & c' & d' & E' & Hinv' & Habs & Hl)];
      [congruence|]. assert (d' = d) as -> by congruence. split; [done|]. split; [done|].
    unfold measure. by rewrite Hl.
  - destruct (finish_spec own w b write h Hinv Hc) as [(_ & d' & own' & E' & _)|(_ & c' & d' & E' & Hinv' & Habs & Hl)];
      [congruence|]. assert (d' = d) as -> by congruence. split; [done|]. split; [done|].
    unfold measure. by rewrite Hl.
Qed.

(** ** Some step is possible while there are calls *)

Lemma count_all l : (forall i, 0 <= i < Z.of_nat (length l) -> zget l i = Some true) -> count l = length l.
Proof.
  intros Hl. unfold count. f_equal. induction l as [|x l IH]; [done|]. rewrite list.filter_cons.
  assert (x = true) as -> by (specialize (Hl 0 ltac:(cbn; lia)); by injection Hl).
  rewrite decide_True by done. f_equal. apply IH. intros i Hi. specialize (Hl (i + 1)). cbn [length] in Hl.
  rewrite <- Hl by lia. unfold zget. rewrite !decide_True by (cbn [length]; lia).
  replace (Z.to_nat (i + 1)) with (S (Z.to_nat i)) by lia. done.
Qed.

Section Progress.
Context (own : Z -> option Z) (w : vworld) (Hinv : vinv own w).

Definition progress : Prop := exists w', work_step w w' /\ errors w' = errors w /\ (measure w' < measure w)%nat.

Lemma progress_avail : dev_seen w <> avail_idx (vd w) -> progress.
Proof.
  intros Hne. destruct (take_step own w Hinv Hne) as (_ & _ & H). eexists. split; [|split; [|exact H]; done].
  apply dev_take; [done|]. apply zget_slot, (vi_len _ _ Hinv).
Qed.

Lemma progress_taken h l : taken w = h :: l -> progress.
Proof.
  intros El. assert (taken w !! 0%nat = Some h) as Ht by (by rewrite El).
  destruct (taken_call own w Hinv _ _ Ht) as (b & write & Hc & _).
  destruct (device_op_runs own w Hinv h b write Hc) as (bf & E & _).
  pose proof (Z.mod_pos_bound (used_ridx (vd w)) NUM ltac:(done)) as Hm.
  pose proof (ln_used _ (vi_len _ _ Hinv)) as Hl.
  assert (exists ring, zset (used_ring (vd w)) (used_ridx (vd w) mod NUM) h = Some ring) as [ring Hr].
  { eexists. apply zset_in. rewrite Hl. exact Hm. }
  destruct (done_step own w 0 h _ _ ring Hinv Ht E Hr) as (_ & _ & H). eexists. split; [|split; [|exact H]; done].
  replace (errors w) with (errors w || negb (0 =? 0)) by apply orb_false_r. by eapply dev_done.
Qed.

Lemma progress_used : used_idx (vd w) <> used_ridx (vd w) -> progress.
Proof.
  intros Hne. destruct (intr_spec own w Hinv) as (d & E & _).
  destruct (intr_step own w d Hinv E) as (_ & _ & [[? _]|H]); [done|]. exists (with_vd w d).
  split; [by apply step_intr|]. done.
Qed.

Lemma progress_wait b write h :
  vb_disk (bufs (vd w) b) = 0 -> calls w !! b = Some (Wait write h) -> progress.
Proof.
  intros Hd Hc.
  destruct (finish_spec own w b write h Hinv Hc) as [(_ & d & own' & E & _ & _ & Hl)|(? & _)]; [|congruence].
  eexists. split; [|split; [|by eapply measure_finish]; done]. eapply step_finish; [done| |done].
  destruct (asleep (vd w) !! b) as [ch|] eqn:Es; [|done]. exfalso.
  pose proof (vi_sleep _ _ Hinv b ch Es) as H. destruct ch; [destruct H as [[wr H] _]|destruct H as (_ & H & _)]; congruence.
Qed.

Lemma progress_want b write :
  (forall c wr h, calls w !! c <> Some (Wait wr h)) -> calls w !! b = Some (Want write) -> progress.
Proof.
  intros Hno Hc.
  assert (nfree (vd w) = 8%nat) as Hn.
  { pose proof (ln_free _ (vi_len _ _ Hinv)) as Hl. unfold nfree. rewrite count_all; [unfold NUM in Hl; lia|].
    intros i Hi. rewrite (vi_free _ _ Hinv) by lia. f_equal. apply bool_decide_eq_true.
    destruct (own i) as [c|] eqn:Eo; [|done]. apply (vi_own _ _ Hinv) in Eo as (_ & wr & h & _ & _ & H & _).
    by apply Hno in H. }
  assert (asleep (vd w) !! b = None) as Ha.
  { destruct (asleep (vd w) !! b) as [ch|] eqn:Es; [|done]. exfalso. pose proof (vi_sleep _ _ Hinv b ch Es) as H.
    destruct ch; [destruct H as [_ H]; lia|destruct H as (_ & _ & wr & h & H); congruence]. }
  destruct (begin_spec own w b write Hinv Hc Ha) as [(h & d & own' & E & _ & _ & Hl)|(? & _)]; [|lia].
  eexists. split; [by eapply step_begin|]. split; [done|]. by apply measure_begin.
Qed.

Lemma work_available : calls w <> ∅ -> progress.
Proof.
  intros Hne. destruct (decide (dev_seen w = avail_idx (vd w))) as [Ea|?]; [|by apply progress_avail].
  destruct (taken w) as [|h l] eqn:Et; [|by eapply progress_taken].
  destruct (decide (used_idx (vd w) = used_ridx (vd w))) as [Eu|?]; [|by apply progress_used].
  assert (flight w = []) as Hf.
  { apply length_zero_iff_nil. pose proof (flight_length w) as H. rewrite Ea, Eu, Et, !used_refl in H. cbn in H. lia. }
  assert (forall b write h, calls w !! b = Some (Wait write h) -> vb_disk (bufs (vd w) b) = 0) as Hd.
  { intros b write h Hc. destruct (vi_flag _ _ Hinv b) as [?|[Hb _]]; [done|]. exfalso.
    assert (h ∈ flight w) as Hin by (apply (vi_flight _ _ Hinv); eauto). rewrite Hf in Hin. by apply not_elem_of_nil in Hin. }
  apply map_choose in Hne as (b & [write|write h] & Hc); [|by eapply progress_wait; eauto].
  destruct (decide (map_Exists (fun _ v => is_want (0, v) -> False) (calls w))) as [(c & [|wr h] & Hw & Hn)|Hno].
  - by destruct Hn.
  - eapply progress_wait; [|exact Hw]. by eapply Hd.
  - eapply progress_want; [|exact Hc]. intros c wr h Hw. apply Hno. exists c, (Wait wr h). split; [done|]. by intros ?.
Qed.
End Progress.

(** ** The bound on the work *)

Definition heads w : list Z := omap (fun x : Z * call => if x.2 is Wait _ h then Some h else None) (map_to_list (calls w)).

Lemma heads_wants l :
  (length (omap (fun x : Z * call => if x.2 is Wait _ h then Some h else None) l) +
   length (filter is_want l))%nat = length l.
Proof.
  induction l as [|[b [write|write h]] l IH]; [done|..]; cbn [omap list_omap snd length];
    rewrite list.filter_cons; case_decide; cbn [length]; try done; lia.
Qed.

Lemma filter_to_list (m : gmap Z call) : map_to_list (filter is_want m) ≡ₚ filter is_want (map_to_list m).
Proof.
  apply NoDup_Permutation; [apply NoDup_map_to_list|apply list.NoDup_filter, NoDup_map_to_list|].
  intros [b v]. rewrite list_elem_of_filter, !elem_of_map_to_list, map_lookup_filter_Some. tauto.
Qed.

Lemma measure_bound own w : vinv own w -> (measure w <= 5 * size (calls w))%nat.
Proof.
  intros Hinv. assert (flight w ⊆ heads w) as Hs.
  { intros h (b & write & Hc & _)%(vi_flight _ _ Hinv). apply list_elem_of_omap. exists (b, Wait write h).
    split; [by apply elem_of_map_to_list|done]. }
  pose proof (submseteq_length _ _ (NoDup_submseteq _ _ (vi_dup _ _ Hinv) Hs)) as Hl.
  assert (length (heads w) + wants w = size (calls w))%nat as Hw.
  { unfold wants, heads. rewrite <- (length_map_to_list (calls w)), <- (length_map_to_list (filter is_want (calls w))).
    rewrite filter_to_list. apply heads_wants. }
  unfold measure, load. unfold flight in Hl. rewrite !length_app in Hl. lia.
Qed.

(** Errors are not forgotten. *)
Lemma work_errors w w' : work_step w w' -> errors w' = false -> errors w = false.
Proof. intros [| | | |i h st d s ring Ht _ Hd Hr]; [done..|]. by intros [? _]%orb_false_iff. Qed.

Lemma sleep_errors w w' : sleep_step w w' -> errors w' = errors w.
Proof. by intros []. Qed.

Lemma client_errors w w' : client_step w w' -> errors w' = errors w.
Proof. by intros []. Qed.

Lemma runs_errors n w w' : runs n w w' -> errors w' = false -> errors w = false.
Proof.
  induction 1 as [w|n w1 w2 w3 Hw _ _ IH|n w1 w2 w3 Hs _ IH]; [done|..]; intros He%IH; [by eapply work_errors|].
  by rewrite <- (sleep_errors _ _ Hs).
Qed.

Lemma runs_measure n w w' : runs n w w' -> errors w' = false -> forall own, vinv own w ->
  (exists own', vinv own' w') /\ (n + measure w' <= measure w)%nat.
Proof.
  induction 1 as [w|n w1 w2 w3 Hw Hne Hr IH|n w1 w2 w3 Hs _ IH]; intros He own Hinv; [split; [eauto|lia]|..].
  - destruct (work_ok own w1 w2 Hinv Hw (runs_errors _ _ _ Hr He)) as (own' & Hinv' & _ & [?|Hm]); [done|].
    destruct (IH He own' Hinv') as [H1 H2]. split; [done|lia].
  - destruct (sleep_ok own w1 w2 Hinv Hs) as (Hinv' & _ & Hm). destruct (IH He own Hinv') as [H1 H2]. split; [done|lia].
Qed.

(** ** From boot *)

Lemma init_free answer s0 free s1 :
  virtio_disk_init answer s0 = Ok free s1 -> free = replicate 8 true.
Proof.
  unfold virtio_disk_init. intros H. kinv H. repeat (case_match; [done|]; kinv H). by injection H as <- _.
Qed.

Section Boot.
Context (answer : list (Z * Z) -> Z -> Z) (s0 s1 : vinit) (free : list bool).
Context (sec0 : Z -> list Z) (bufs0 : Z -> vbuf).
Hypothesis Hinit : virtio_disk_init answer s0 = Ok free s1.
Hypothesis Hsec : forall n, Z.of_nat (length (sec0 n)) = SECTOR.
Hypothesis Hbufs : forall b, buf_ok (bufs0 b) /\ vb_disk (bufs0 b) = 0.

Lemma vboot_inv : vinv (fun _ => None) (vboot sec0 bufs0 free).
Proof.
  rewrite (init_free _ _ _ _ Hinit). split; try done.
  - intros i Hi. unfold zget. rewrite decide_True by (cbn; unfold NUM in Hi; lia).
    apply (lookup_replicate_2 8). unfold NUM in Hi. lia.
  - constructor.
  - intros h. split; [by intros ?%not_elem_of_nil|]. by intros (b & write & H & _).
  - intros b. left. apply Hbufs.
  - intros b. apply Hbufs.
Qed.

Lemma boot_reach w : reach vstep (vboot sec0 bufs0 free) w -> errors w = false ->
  (exists own, vinv own w) /\ reach astep (abs_disk (vboot sec0 bufs0 free)) (abs_disk w).
Proof.
  induction 1 as [|w w' _ IHr Hs]; intros He; [split; [eexists; apply vboot_inv|constructor]|].
  assert (errors w = false) as Hw.
  { destruct Hs as [Hs|[Hs|Hs]]; [by rewrite <- (client_errors _ _ Hs)|by eapply work_errors|by rewrite <- (sleep_errors _ _ Hs)]. }
  destruct (IHr Hw) as [[own Hinv] IH].
  assert (exists own', vinv own' w' /\ astep (abs_disk w) (abs_disk w')) as (own' & H1 & H2).
  { destruct Hs as [Hs|[Hs|Hs]].
    - exists own. by apply client_ok.
    - destruct (work_ok own w w' Hinv Hs He) as (own' & ? & ? & _). eauto.
    - destruct (sleep_ok own w w' Hinv Hs) as (? & ? & _). eauto. }
  split; [eauto|]. by eapply reach_step.
Qed.
End Boot.

(** ** The claims *)

(** C6. The disk driver refines an atomic disk: after [virtio_disk_init], in
    every interleaving of the callers of [virtio_disk_rw], the interrupt handler
    and a device that takes requests in order and completes them in any order,
    as long as the device has reported no error, each call reads or writes its
    whole block at one instant between its start and its return, and no panic of
    [virtio_disk_rw] or [virtio_disk_intr] can occur: descriptors are never out of
    range or freed twice, and the only panic left is that of the handler when the
    device has reported an error. *)
Theorem virtio_refines_atomic_disk answer s0 s1 free sec0 bufs0 w :
  virtio_disk_init answer s0 = Ok free s1 ->
  (forall n, Z.of_nat (length (sec0 n)) = SECTOR) ->
  (forall b, buf_ok (bufs0 b) /\ vb_disk (bufs0 b) = 0) ->
  reach vstep (vboot sec0 bufs0 free) w -> errors w = false ->
  reach astep (abs_disk (vboot sec0 bufs0 free)) (abs_disk w) /\
  (forall b write msg, calls w !! b = Some (Want write) -> asleep (vd w) !! b = None ->
     rw_begin b write (vd w) <> Panic msg) /\
  (forall b write h msg, calls w !! b = Some (Wait write h) -> rw_finish b h (vd w) <> Panic msg) /\
  exists d, virtio_disk_intr (vd w) = Ok tt d.
Proof.
  intros Hinit Hsec Hbufs Hr He.
  destruct (boot_reach answer s0 s1 free sec0 bufs0 Hinit Hsec Hbufs w Hr He) as [[own Hinv] Ha]. split; [done|]. split_and!.
  - intros b write msg Hc Hs.
    destruct (begin_spec own w b write Hinv Hc Hs) as [(h & d & own' & E & _)|(_ & c & d & E & _)]; by rewrite E.
  - intros b write h msg Hc.
    destruct (finish_spec own w b write h Hinv Hc) as [(_ & d & own' & E & _)|(_ & c & d & E & _)]; by rewrite E.
  - destruct (intr_spec own w Hinv) as (d & E & _). eauto.
Qed.

(** C8. Every call of [virtio_disk_rw] returns, if the device reports no error:
    from any reachable state with [k] outstanding calls the calls, the handler and
    the device can take at most [5 * k] steps without an error that are not a call
    going to sleep or an idle interrupt, and as long as a call is outstanding such
    a step is possible, so no wakeup is lost and the descriptors do not run out
    for good. *)
Theorem virtio_calls_return answer s0 s1 free sec0 bufs0 w n w' :
  virtio_disk_init answer s0 = Ok free s1 ->
  (forall m, Z.of_nat (length (sec0 m)) = SECTOR) ->
  (forall b, buf_ok (bufs0 b) /\ vb_disk (bufs0 b) = 0) ->
  reach vstep (vboot sec0 bufs0 free) w -> runs n w w' -> errors w' = false ->
  (n <= 5 * size (calls w))%nat /\ (calls w' = ∅ \/ exists w2, work_step w' w2 /\ errors w2 = false /\ w2 <> w').
Proof.
  intros Hinit Hsec Hbufs Hr Hn He'. pose proof (runs_errors _ _ _ Hn He') as He.
  destruct (boot_reach answer s0 s1 free sec0 bufs0 Hinit Hsec Hbufs w Hr He) as [[own Hinv] _].
  destruct (runs_measure n w w' Hn He' own Hinv) as [[own' Hinv'] Hm]. pose proof (measure_bound own w Hinv).
  split; [lia|]. destruct (decide (calls w' = ∅)) as [|Hne]; [by left|right].
  destruct (work_available own' w' Hinv' Hne) as (w2 & Hs & He2 & Hlt). exists w2. split; [done|].
  split; [congruence|]. intros ->. lia.
Qed.

(** ** A block written and read back *)

Definition qemu (writes : list (Z * Z)) (r : Z) : Z :=
  if r =? VIRTIO_MMIO_MAGIC_VALUE then 0x74726976 else if r =? VIRTIO_MMIO_VERSION then 2
  else if r =? VIRTIO_MMIO_DEVICE_ID then 2 else if r =? VIRTIO_MMIO_VENDOR_ID then 0x554d4551
  else if r =? VIRTIO_MMIO_STATUS then 11 else if r =? VIRTIO_MMIO_QUEUE_NUM_MAX then 1024 else 0.

Definition three_pages : vinit :=
  VInit [] (KState (fun a => if a =? 0x1001 then 0x20 else if a =? 0x2001 then 0x30 else 0) 0x1000).

Definition empty_disk (n : Z) : list Z := replicate 512 0.

(** Buffers 1 and 2 are for block 7. *)
Definition two_bufs (b : Z) : vbuf := VBuf 7 0 (replicate 1024 b).

Lemma empty_disk_ok n : Z.of_nat (length (empty_disk n)) = SECTOR.
Proof. unfold empty_disk. by rewrite length_replicate. Qed.

Lemma two_bufs_ok b : buf_ok (two_bufs b) /\ vb_disk (two_bufs b) = 0.
Proof. split; [|done]. split; [done|]. cbn [two_bufs vb_data]. by rewrite length_replicate. Qed.

Lemma qemu_boots : exists s, virtio_disk_init qemu three_pages = Ok (replicate 8 true) s.
Proof.
  assert (match virtio_disk_init qemu three_pages with Ok free _ => free = replicate 8 true | _ => False end) as H
    by (vm_compute; reflexivity).
  destruct (virtio_disk_init qemu three_pages) as [free s|msg|c s]; [|destruct H|destruct H]. subst free. by exists s.
Qed.

(** The steps as a function of a schedule. *)
Inductive turn : Type := TCall (b : Z) (write : bool) | TRun (b : Z) | TIntr | TTake | TDone (i : nat) (st : Z).

Definition take_turn (t : turn) w : option vworld :=
  match t with
  | TCall b write => match calls w !! b with None => Some (with_call w (vd w) b (Want write)) | _ => None end
  | TRun b =>
      match asleep (vd w) !! b, calls w !! b with
      | None, Some (Want write) =>
          match rw_begin b write (vd w) with Ok h d => Some (with_call w d b (Wait write h)) | _ => None end
      | None, Some (Wait write h) =>
          match rw_finish b h (vd w) with
          | Ok _ d => Some (VWorld d (sec w) (dev_seen w) (taken w) (delete b (calls w)) (errors w))
          | _ => None
          end
      | _, _ => None
      end
  | TIntr => match virtio_disk_intr (vd w) with Ok _ d => Some (with_vd w d) | _ => None end
  | TTake =>
      if dev_seen w =? avail_idx (vd w) then None
      else h ← zget (avail_ring (vd w)) (dev_seen w mod NUM);
           Some (VWorld (vd w) (sec w) (u16 (dev_seen w + 1)) (taken w ++ [h]) (calls w) (errors w))
  | TDone i st =>
      h ← taken w !! i;
      match (if bool_decide (0 <= st < 256) then device_op st h (vd w) (sec w) else None) with
      | Some (d, s) =>
          ring ← zset (used_ring d) (used_ridx d mod NUM) h;
          Some (VWorld (set_used d (u16 (used_ridx d + 1)) ring) s (dev_seen w) (delete i (taken w)) (calls w) (errors w || negb (st =? 0)))
      | None => None
      end
  end.

Lemma take_turn_step t w w' : take_turn t w = Some w' -> vstep w w'.
Proof.
  destruct t as [b write|b| | |i st]; cbn [take_turn]; intros H.
  - destruct (calls w !! b) eqn:E; [done|]. injection H as <-. left. by apply step_call.
  - destruct (asleep (vd w) !! b) eqn:Ea; [done|]. destruct (calls w !! b) as [[write|write h]|] eqn:E; [..|done].
    + destruct (rw_begin b write (vd w)) as [h d| |] eqn:Er; [|done..]. injection H as <-. right. left. by eapply step_begin.
    + destruct (rw_finish b h (vd w)) as [[] d| |] eqn:Er; [|done..]. injection H as <-. right. left. by eapply step_finish.
  - destruct (virtio_disk_intr (vd w)) as [[] d| |] eqn:Er; [|done..]. injection H as <-. right. left. by apply step_intr.
  - destruct (Z.eqb_spec (dev_seen w) (avail_idx (vd w))); [done|].
    destruct (zget _ _) as [h|] eqn:E; [|done]. injection H as <-. right. left. by apply dev_take.
  - destruct (taken w !! i) as [h|] eqn:E; [|done]. cbn [mbind option_bind] in H.
    case_bool_decide; [|done]. destruct (device_op st h (vd w) (sec w)) as [[d s]|] eqn:Ed; [|done].
    destruct (zset _ _ _) as [ring|] eqn:Er; [|done]. injection H as <-. right. left. by eapply dev_done.
Qed.

Fixpoint take_turns (l : list turn) w : option vworld :=
  match l with [] => Some w | t :: l => w' ← take_turn t w; take_turns l w' end.

Lemma take_turns_reach l w0 w w' : reach vstep w0 w -> take_turns l w = Some w' -> reach vstep w0 w'.
Proof.
  revert w. induction l as [|t l IH]; intros w Hr H; [by injection H as <-|]. cbn [take_turns] in H.
  destruct (take_turn t w) as [w2|] eqn:E; [|done]. apply (IH w2); [|done].
  eapply reach_step; [exact Hr|]. by eapply take_turn_step.
Qed.

Definition boot_disk : vworld := vboot empty_disk two_bufs (replicate 8 true).

(** Buffer 1 is written; then buffer 2 is read, up to the device's part. *)
Definition schedule : list turn :=
  [TCall 1 true; TRun 1; TTake; TDone 0 0; TIntr; TRun 1; TCall 2 false; TRun 2; TTake; TDone 0 0].

Lemma write_then_read : exists w, take_turns schedule boot_disk = Some w /\
  a_buf (abs_disk w) 2 = (7, replicate 1024 1) /\ calls w !! 1 = None /\ size (calls w) = 1%nat /\
  errors w = false.
Proof.
  assert (match take_turns schedule boot_disk with
    | Some w => a_buf (abs_disk w) 2 = (7, replicate 1024 1) /\ calls w !! 1 = None /\ size (calls w) = 1%nat /\ errors w = false
    | None => False end) as H by (vm_compute; split_and!; reflexivity).
  destruct (take_turns schedule boot_disk) as [w|]; [eauto|destruct H].
Qed.

(** A request that the device refuses makes the interrupt handler panic. *)
Lemma error_panics : exists w, reach vstep boot_disk w /\ errors w = true /\
  virtio_disk_intr (vd w) = Panic "virtio_disk_intr status".
Proof.
  assert (match take_turns [TCall 1 true; TRun 1; TTake; TDone 0 1] boot_disk with
    | Some w => errors w = true /\ match virtio_disk_intr (vd w) with Panic m => m = "virtio_disk_intr status"%string | _ => False end
    | None => False end) as H by (vm_compute; split; reflexivity).
  destruct (take_turns _ boot_disk) as [w|] eqn:Hw; [|destruct H]. destruct H as [He H]. exists w.
  split; [exact (take_turns_reach _ _ _ _ (reach_refl _ _) Hw)|]. split; [exact He|].
  destruct (virtio_disk_intr (vd w)); [destruct H|by subst|destruct H].
Qed.

Lemma virtio_refines_atomic_disk_witness : exists w,
  a_buf (abs_disk w) 2 = (7, replicate 1024 1) /\ reach astep (abs_disk boot_disk) (abs_disk w).
Proof.
  destruct qemu_boots as [s1 Hinit]. destruct write_then_read as (w & Hw & Hb & _ & _ & He). exists w. split; [exact Hb|].
  apply (virtio_refines_atomic_disk qemu three_pages s1 (replicate 8 true) empty_disk two_bufs w Hinit
    empty_disk_ok two_bufs_ok (take_turns_reach _ _ _ _ (reach_refl _ _) Hw) He).
Defined.

Lemma virtio_calls_return_witness : exists w, size (calls w) = 1%nat /\
  (calls w = ∅ \/ exists w2, work_step w w2 /\ errors w2 = false /\ w2 <> w).
Proof.
  destruct qemu_boots as [s1 Hinit]. destruct write_then_read as (w & Hw & _ & _ & Hs & He). exists w. split; [exact Hs|].
  apply (virtio_calls_return qemu three_pages s1 (replicate 8 true) empty_disk two_bufs w 0 w Hinit
    empty_disk_ok two_bufs_ok (take_turns_reach _ _ _ _ (reach_refl _ _) Hw) (runs_none w) He).
Defined.
