(* ===== verification/Fs.v ===== *)
(** Blocks and inodes of the file system ([kernel/fs.c]).

    The model runs on a block store ([BlockStore]); a pointer to an in-memory
    inode is its index in the inode table, and [option] where the source tests
    for a null pointer.  The spin lock of the table makes [iget], [idup] and the
    bookkeeping of [iput] single steps.  [me] is the calling process. *)

From stdpp Require Import functions.
From S2P Require Import Prelude Mem Sleeplock UserMem Block Bio BlockStore.

(** ** Constants and layout ([fs.h], [stat.h], [param.h]) *)

Definition ROOTINO : Z := 1.
Definition FSMAGIC : Z := 0x10203040.
Definition NDIRECT : Z := 12.
Definition NINDIRECT : Z := BSIZE / 4.
Definition MAXFILE : Z := NDIRECT + NINDIRECT.
Definition DINODE : Z := 64.
Definition IPB : Z := BSIZE / DINODE.
Definition BPB : Z := BSIZE * 8.
Definition NINODE : Z := 50.
Definition T_DIR : Z := 1.
Definition T_FILE : Z := 2.
Definition T_DEVICE : Z := 3.

Record superblock : Type := SuperBlock {
  magic : Z; sb_size : Z; nblocks : Z; ninodes : Z;
  nlog : Z; logstart : Z; inodestart : Z; bmapstart : Z
}.

Record inode : Type := Inode {
  i_dev : Z; inum : Z; ref : Z; ilk : sleeplock; i_valid : bool;
  type : Z; major : Z; minor : Z; nlink : Z; i_size : Z; addrs : list Z
}.

Definition inode0 : inode :=
  {| i_dev := 0; inum := 0; ref := 0; ilk := initsleeplock; i_valid := false;
     type := 0; major := 0; minor := 0; nlink := 0; i_size := 0;
     addrs := replicate 13 0 |}.

Definition with_ref (ip : inode) (r : Z) : inode :=
  {| i_dev := i_dev ip; inum := inum ip; ref := r; ilk := ilk ip; i_valid := i_valid ip;
     type := type ip; major := major ip; minor := minor ip; nlink := nlink ip;
     i_size := i_size ip; addrs := addrs ip |}.

Definition with_ilk (ip : inode) (l : sleeplock) : inode :=
  {| i_dev := i_dev ip; inum := inum ip; ref := ref ip; ilk := l; i_valid := i_valid ip;
     type := type ip; major := major ip; minor := minor ip; nlink := nlink ip;
     i_size := i_size ip; addrs := addrs ip |}.

Definition with_valid (ip : inode) (v : bool) : inode :=
  {| i_dev := i_dev ip; inum := inum ip; ref := ref ip; ilk := ilk ip; i_valid := v;
     type := type ip; major := major ip; minor := minor ip; nlink := nlink ip;
     i_size := i_size ip; addrs := addrs ip |}.

Definition with_meta (ip : inode) (t mj mn nl : Z) : inode :=
  {| i_dev := i_dev ip; inum := inum ip; ref := ref ip; ilk := ilk ip; i_valid := i_valid ip;
     type := t; major := mj; minor := mn; nlink := nl;
     i_size := i_size ip; addrs := addrs ip |}.

Definition with_size (ip : inode) (n : Z) : inode :=
  {| i_dev := i_dev ip; inum := inum ip; ref := ref ip; ilk := ilk ip; i_valid := i_valid ip;
     type := type ip; major := major ip; minor := minor ip; nlink := nlink ip;
     i_size := n; addrs := addrs ip |}.

Definition with_addrs (ip : inode) (a : list Z) : inode :=
  {| i_dev := i_dev ip; inum := inum ip; ref := ref ip; ilk := ilk ip; i_valid := i_valid ip;
     type := type ip; major := major ip; minor := minor ip; nlink := nlink ip;
     i_size := i_size ip; addrs := a |}.

(** *** On-disk inodes: [struct dinode] at offset [o] of its block *)

Definition dip_off (inum : Z) : Z := inum mod IPB * DINODE.

Fixpoint get_addrs (k : nat) (d : block) (o : Z) : list Z :=
  match k with
  | O => []
  | S k => get32 d o :: get_addrs k d (o + 4)
  end.

Fixpoint put_addrs (d : block) (o : Z) (l : list Z) : block :=
  match l with
  | [] => d
  | a :: l => put_addrs (put32 d o a) (o + 4) l
  end.

(** What [ilock] copies from the block into the inode. *)
Definition load_dinode (d : block) (o : Z) (ip : inode) : inode :=
  with_addrs
    (with_size (with_meta ip (i16 (get16 d o)) (i16 (get16 d (o + 2)))
                  (i16 (get16 d (o + 4))) (i16 (get16 d (o + 6))))
       (get32 d (o + 8)))
    (get_addrs 13 d (o + 12)).

(** What [iupdate] copies from the inode into the block. *)
Definition store_dinode (d : block) (o : Z) (ip : inode) : block :=
  let d := put16 d o (type ip) in
  let d := put16 d (o + 2) (major ip) in
  let d := put16 d (o + 4) (minor ip) in
  let d := put16 d (o + 6) (nlink ip) in
  let d := put32 d (o + 8) (i_size ip) in
  put_addrs d (o + 12) (addrs ip).

(** *** Superblock *)

Definition decode_sb (d : block) : superblock :=
  {| magic := get32 d 0; sb_size := get32 d 4; nblocks := get32 d 8; ninodes := get32 d 12;
     nlog := get32 d 16; logstart := get32 d 20; inodestart := get32 d 24;
     bmapstart := get32 d 28 |}.

Definition IBLOCK (i : Z) (sb : superblock) : Z := i / IPB + inodestart sb.
Definition BBLOCK (b : Z) (sb : superblock) : Z := b / BPB + bmapstart sb.

(** ** State *)

Section Fs.
Context {St : Type} `{BlockStore St} {U : Type} `{UserMem U}.

Record fstate : Type := FState { st : St; sb : superblock; itable : list inode }.

Definition on_store {A} (m : M St A) : M fstate A := fun s =>
  match m (st s) with
  | Ok a t => Ok a {| st := t; sb := sb s; itable := itable s |}
  | Panic msg => Panic msg
  | Sleep c t => Sleep c {| st := t; sb := sb s; itable := itable s |}
  end.

Definition get_inode (i : Z) : M fstate inode := fun s =>
  match zget (itable s) i with
  | Some ip => Ok ip s
  | None => Panic "undefined access"
  end.

Definition put_inode (i : Z) (ip : inode) : M fstate unit := fun s =>
  match zset (itable s) i ip with
  | Some t => Ok tt {| st := st s; sb := sb s; itable := t |}
  | None => Panic "undefined access"
  end.

Definition update_inode (i : Z) (f : inode -> inode) : M fstate unit :=
  let! ip := get_inode i in put_inode i (f ip).

Definition readsb (dev : Z) : M fstate unit :=
  let! bp := on_store (bread dev 1) in
  let! d := on_store (bdata bp) in
  kmodify (fun s => {| st := st s; sb := decode_sb d; itable := itable s |}) ;;;
  on_store (brelse bp).

(** [initlog] belongs to the store. *)
Definition fsinit (initlog : Z -> superblock -> M St unit) (dev : Z) : M fstate unit :=
  readsb dev ;;;
  let! b := kgets sb in
  if negb (magic b =? FSMAGIC) then panic "invalid file system"
  else on_store (initlog dev b).

(** ** Blocks *)

Definition bzero (dev bno : Z) : M fstate unit :=
  let! bp := on_store (bread dev bno) in
  on_store (bset bp zero_block) ;;;
  on_store (log_write bp) ;;;
  on_store (brelse bp).

(** [bp->data[bi/8] & m] with [m = 1 << (bi % 8)]. *)
Definition bit_mask (bi : Z) : Z := Z.shiftl 1 (bi mod 8).
Definition bit_used (d : block) (bi : Z) : bool :=
  negb (Z.land (get8 d (bi / 8)) (bit_mask bi) =? 0).
Definition set_bit (d : block) (bi : Z) : block :=
  set8 d (bi / 8) (Z.lor (get8 d (bi / 8)) (bit_mask bi)).
Definition clear_bit (d : block) (bi : Z) : block :=
  set8 d (bi / 8) (Z.land (get8 d (bi / 8)) (Z.lnot (bit_mask bi))).

(** The inner loop of [balloc]: the first free bit from [bi] on. *)
Fixpoint scan_bits (k : nat) (d : block) (b bi size : Z) : option Z :=
  match k with
  | O => None
  | S k =>
      if b + bi <? size then
        if bit_used d bi then scan_bits k d b (bi + 1) size else Some bi
      else None
  end.

Fixpoint balloc_loop (k : nat) (dev b : Z) : M fstate Z :=
  match k with
  | O => kret 0
  | S k =>
      let! sbk := kgets sb in
      if b <? sb_size sbk then
        let! bp := on_store (bread dev (BBLOCK b sbk)) in
        let! d := on_store (bdata bp) in
        match scan_bits (Z.to_nat BPB) d b 0 (sb_size sbk) with
        | Some bi =>
            on_store (bset bp (set_bit d bi)) ;;;
            on_store (log_write bp) ;;;
            on_store (brelse bp) ;;;
            bzero dev (b + bi) ;;;
            kret (b + bi)
        | None => on_store (brelse bp) ;;; balloc_loop k dev (b + BPB)
        end
      else kret 0
  end.

(** One iteration per bitmap block, and the final test. *)
Definition balloc (dev : Z) : M fstate Z :=
  let! sbk := kgets sb in
  balloc_loop (S (Z.to_nat ((sb_size sbk + BPB - 1) / BPB))) dev 0.

Definition bfree (dev b : Z) : M fstate unit :=
  let! sbk := kgets sb in
  let! bp := on_store (bread dev (BBLOCK b sbk)) in
  let! d := on_store (bdata bp) in
  let bi := b mod BPB in
  if negb (bit_used d bi) then panic "freeing free block"
  else
    on_store (bset bp (clear_bit d bi)) ;;;
    on_store (log_write bp) ;;;
    on_store (brelse bp).

(** ** Inodes *)

Definition iinit : list inode := replicate (Z.to_nat NINODE) inode0.

(** The scan of [iget] from entry [i] on: the entry of [(dev, inum)], or the
    first empty one. *)
Fixpoint iget_scan (t : list inode) (i dev inum_ : Z) (empty : option Z) : Z + option Z :=
  match t with
  | [] => inr empty
  | ip :: t =>
      if (0 <? ref ip) && (i_dev ip =? dev) && (inum ip =? inum_) then inl i
      else
        let empty := match empty with
                     | None => if ref ip =? 0 then Some i else None
                     | Some e => Some e
                     end in
        iget_scan t (i + 1) dev inum_ empty
  end.

Definition iget (dev inum_ : Z) : M fstate Z :=
  let! t := kgets itable in
  match iget_scan t 0 dev inum_ None with
  | inl i => update_inode i (fun ip => with_ref ip (ref ip + 1)) ;;; kret i
  | inr None => panic "iget: no inodes"
  | inr (Some i) =>
      update_inode i (fun ip =>
        {| i_dev := dev; inum := inum_; ref := 1; ilk := ilk ip; i_valid := false;
           type := type ip; major := major ip; minor := minor ip; nlink := nlink ip;
           i_size := i_size ip; addrs := addrs ip |}) ;;;
      kret i
  end.

(** A cleared on-disk inode of the given type. *)
Definition fresh_dinode (d : block) (o t : Z) : block :=
  put16 (splice d o (replicate (Z.to_nat DINODE) 0)) o t.

Fixpoint ialloc_loop (k : nat) (dev ino t : Z) : M fstate (option Z) :=
  match k with
  | O => kret None
  | S k =>
      let! sbk := kgets sb in
      if ino <? ninodes sbk then
        let! bp := on_store (bread dev (IBLOCK ino sbk)) in
        let! d := on_store (bdata bp) in
        if i16 (get16 d (dip_off ino)) =? 0 then
          on_store (bset bp (fresh_dinode d (dip_off ino) t)) ;;;
          on_store (log_write bp) ;;;
          on_store (brelse bp) ;;;
          let! i := iget dev ino in
          kret (Some i)
        else
          on_store (brelse bp) ;;;
          ialloc_loop k dev (ino + 1) t
      else kret None
  end.

(** One iteration per inode number, and the final test. *)
Definition ialloc (dev t : Z) : M fstate (option Z) :=
  let! sbk := kgets sb in
  ialloc_loop (S (Z.to_nat (ninodes sbk))) dev 1 t.

Definition iupdate (i : Z) : M fstate unit :=
  let! ip := get_inode i in
  let! sbk := kgets sb in
  let! bp := on_store (bread (i_dev ip) (IBLOCK (inum ip) sbk)) in
  let! d := on_store (bdata bp) in
  on_store (bset bp (store_dinode d (dip_off (inum ip)) ip)) ;;;
  on_store (log_write bp) ;;;
  on_store (brelse bp).

Definition idup (i : Z) : M fstate Z :=
  update_inode i (fun ip => with_ref ip (ref ip + 1)) ;;; kret i.

Definition inode_chan (i : Z) : chan := Chan "inode" i.

(** [acquiresleep(&ip->lock)]. *)
Definition lock_inode (me i : Z) : M fstate unit :=
  let! ip := get_inode i in
  match acquiresleep me (inode_chan i) (ilk ip) with
  | Ok _ l => put_inode i (with_ilk ip l)
  | Panic msg => panic msg
  | Sleep c _ => ksleep c
  end.

(** [releasesleep(&ip->lock)]. *)
Definition unlock_inode (i : Z) : M fstate unit :=
  let! ip := get_inode i in
  match releasesleep (inode_chan i) (ilk ip) with
  | Ok _ l => put_inode i (with_ilk ip l)
  | Panic msg => panic msg
  | Sleep c _ => ksleep c
  end.

Definition ilock (me i : Z) : M fstate unit :=
  let! ip := get_inode i in
  if ref ip <? 1 then panic "ilock"
  else
    lock_inode me i ;;;
    let! ip := get_inode i in
    if i_valid ip then kret tt
    else
      let! sbk := kgets sb in
      let! bp := on_store (bread (i_dev ip) (IBLOCK (inum ip) sbk)) in
      let! d := on_store (bdata bp) in
      let ip := load_dinode d (dip_off (inum ip)) ip in
      put_inode i ip ;;;
      on_store (brelse bp) ;;;
      put_inode i (with_valid ip true) ;;;
      if type ip =? 0 then panic "ilock: no type" else kret tt.

Definition iunlock (me i : Z) : M fstate unit :=
  let! ip := get_inode i in
  if negb (holdingsleep me (ilk ip)) || (ref ip <? 1) then panic "iunlock"
  else unlock_inode i.

(** ** Inode content *)

(** Assign to [ip->addrs[k]]. *)
Definition set_addr (i k a : Z) : M fstate unit :=
  update_inode i (fun ip => with_addrs ip (default (addrs ip) (zset (addrs ip) k a))).

Definition get_addr (ip : inode) (k : Z) : Z := default 0 (zget (addrs ip) k).

(** [ip->addrs[k]], allocated if it is empty. *)
Definition bmap_addr (i k : Z) : M fstate Z :=
  let! ip := get_inode i in
  let addr := get_addr ip k in
  if addr =? 0 then
    let! addr := balloc (i_dev ip) in
    if addr =? 0 then kret 0
    else set_addr i k addr ;;; kret addr
  else kret addr.

(** Entry [bn] of the indirect block [ind], allocated if it is empty. *)
Definition bmap_entry (dev ind bn : Z) : M fstate Z :=
  let! bp := on_store (bread dev ind) in
  let! a := on_store (bdata bp) in
  let addr := get32 a (4 * bn) in
  let! addr :=
    (if addr =? 0 then
       let! addr := balloc dev in
       (if addr =? 0 then kret tt
        else
          let! a := on_store (bdata bp) in
          on_store (bset bp (put32 a (4 * bn) addr)) ;;;
          on_store (log_write bp)) ;;;
       kret addr
     else kret addr) in
  on_store (brelse bp) ;;;
  kret addr.

Definition bmap (i bn : Z) : M fstate Z :=
  if bn <? NDIRECT then bmap_addr i bn
  else
    let bn := bn - NDIRECT in
    if bn <? NINDIRECT then
      let! addr := bmap_addr i NDIRECT in
      if addr =? 0 then kret 0
      else
        let! ip := get_inode i in
        bmap_entry (i_dev ip) addr bn
    else panic "bmap: out of range".

(** The loop of [itrunc] over the direct blocks from [j] on. *)
Fixpoint free_direct (k : nat) (i j : Z) : M fstate unit :=
  match k with
  | O => kret tt
  | S k =>
      let! ip := get_inode i in
      (if get_addr ip j =? 0 then kret tt
       else bfree (i_dev ip) (get_addr ip j) ;;; set_addr i j 0) ;;;
      free_direct k i (j + 1)
  end.

(** The loop over the entries of the indirect block held in [bp]. *)
Fixpoint free_indirect (k : nat) (dev bp j : Z) : M fstate unit :=
  match k with
  | O => kret tt
  | S k =>
      let! a := on_store (bdata bp) in
      (if get32 a (4 * j) =? 0 then kret tt else bfree dev (get32 a (4 * j))) ;;;
      free_indirect k dev bp (j + 1)
  end.

(** The part of [itrunc] that frees the blocks. *)
Definition free_blocks (i : Z) : M fstate unit :=
  free_direct (Z.to_nat NDIRECT) i 0 ;;;
  let! ip := get_inode i in
  if get_addr ip NDIRECT =? 0 then kret tt
  else
    let! bp := on_store (bread (i_dev ip) (get_addr ip NDIRECT)) in
    free_indirect (Z.to_nat NINDIRECT) (i_dev ip) bp 0 ;;;
    on_store (brelse bp) ;;;
    bfree (i_dev ip) (get_addr ip NDIRECT) ;;;
    set_addr i NDIRECT 0.

Definition itrunc (i : Z) : M fstate unit :=
  free_blocks i ;;;
  update_inode i (fun ip => with_size ip 0) ;;;
  iupdate i.

Definition iput (me i : Z) : M fstate unit :=
  let! ip := get_inode i in
  (if (ref ip =? 1) && i_valid ip && (nlink ip =? 0) then
     lock_inode me i ;;;
     itrunc i ;;;
     update_inode i (fun ip => with_meta ip 0 (major ip) (minor ip) (nlink ip)) ;;;
     iupdate i ;;;
     update_inode i (fun ip => with_valid ip false) ;;;
     unlock_inode i
   else kret tt) ;;;
  update_inode i (fun ip => with_ref ip (ref ip - 1)).

Definition iunlockput (me i : Z) : M fstate unit :=
  iunlock me i ;;; iput me i.

Record stat : Type := Stat {
  st_dev : Z; st_ino : Z; st_type : Z; st_nlink : Z; st_size : Z
}.

Definition stati (i : Z) : M fstate stat :=
  let! ip := get_inode i in
  kret {| st_dev := i_dev ip; st_ino := inum ip; st_type := type ip;
          st_nlink := nlink ip; st_size := i_size ip |}.

(** The loop of [readi]: the result and the destination. *)
Fixpoint readi_loop (k : nat) (i : Z) (dst : anymem U) (addr off n tot : Z)
    : M fstate (Z * anymem U) :=
  match k with
  | O => kret (tot, dst)
  | S k =>
      if tot <? n then
        let! bno := bmap i (off / BSIZE) in
        if bno =? 0 then kret (tot, dst)
        else
          let! ip := get_inode i in
          let! bp := on_store (bread (i_dev ip) bno) in
          let! d := on_store (bdata bp) in
          let m := Z.min (n - tot) (BSIZE - off mod BSIZE) in
          let bytes := take (Z.to_nat m) (drop (Z.to_nat (off mod BSIZE)) d) in
          let '(dst', ok) := either_copyout dst addr bytes in
          on_store (brelse bp) ;;;
          if ok then readi_loop k i dst' (addr + m) (off + m) n (tot + m)
          else kret (-1, dst')
      else kret (tot, dst)
  end.

(** A block is crossed at most every [BSIZE] bytes: [n / BSIZE + 2] iterations
    suffice. *)
Definition readi (i : Z) (dst : anymem U) (addr off n : Z) : M fstate (Z * anymem U) :=
  let! ip := get_inode i in
  if (i_size ip <? off) || (u32 (off + n) <? off) then kret (0, dst)
  else
    let n := if i_size ip <? u32 (off + n) then i_size ip - off else n in
    readi_loop (S (S (Z.to_nat (n / BSIZE)))) i dst addr off n 0.

(** The loop of [writei]: the bytes written and the offset after it.  When the
    copy fails, the bytes copied so far are in the buffer. *)
Fixpoint writei_loop (k : nat) (i : Z) (src : anymem U) (addr off n tot : Z)
    : M fstate (Z * Z) :=
  match k with
  | O => kret (tot, off)
  | S k =>
      if tot <? n then
        let! bno := bmap i (off / BSIZE) in
        if bno =? 0 then kret (tot, off)
        else
          let! ip := get_inode i in
          let! bp := on_store (bread (i_dev ip) bno) in
          let! d := on_store (bdata bp) in
          let m := Z.min (n - tot) (BSIZE - off mod BSIZE) in
          let '(bytes, ok) := either_copyin src addr m in
          on_store (bset bp (splice d (off mod BSIZE) bytes)) ;;;
          if ok then
            on_store (log_write bp) ;;;
            on_store (brelse bp) ;;;
            writei_loop k i src (addr + m) (off + m) n (tot + m)
          else on_store (brelse bp) ;;; kret (tot, off)
      else kret (tot, off)
  end.

Definition writei (i : Z) (src : anymem U) (addr off n : Z) : M fstate Z :=
  let! ip := get_inode i in
  if (i_size ip <? off) || (u32 (off + n) <? off) then kret (-1)
  else if MAXFILE * BSIZE <? u32 (off + n) then kret (-1)
  else
    let! r := writei_loop (S (S (Z.to_nat (n / BSIZE)))) i src addr off n 0 in
    update_inode i (fun ip => if i_size ip <? r.2 then with_size ip r.2 else ip) ;;;
    iupdate i ;;;
    kret r.1.
End Fs.
