(* ===== verification/FsBlocks.v ===== *)
(** The block allocator of the file system ([balloc], [bfree] and [bzero] of
    [kernel/fs.c], modelled in [Fs]), over any block store.

    [fs_is s v B T] describes a state by the abstract state [v] of the store,
    the superblock and the inode table.  The bitmap refines a set of used
    blocks: [balloc] takes the lowest free block and clears it, [bfree] gives
    it back. *)

From stdpp Require Import functions.
From S2P Require Import Prelude Mem UserMem Block Bio BlockStore Fs.

(** ** Running the operations of the store *)

Section Run.
Context {St : Type} `{BlockStoreLaws St}.
Implicit Types (v : bview) (b i : Z).

Abbreviation fstate := (@fstate St).

Definition fs_is (s : fstate) v (B : superblock) (T : list inode) : Prop :=
  brep (st s) v /\ sb s = B /\ itable s = T.

Lemma run_on_store {A} (m : M St A) (s : fstate) a t :
  m (st s) = Ok a t -> on_store m s = Ok a {| st := t; sb := sb s; itable := itable s |}.
Proof. intros Hm. unfold on_store. by rewrite Hm. Qed.

Lemma run_bread s v B T b :
  fs_is s v B T -> (forall i, held v !! i <> Some b) -> (base.size (held v) < max_held)%nat ->
  exists i s', on_store (bread ROOTDEV b) s = Ok i s' /\ held v !! i = None /\
    fs_is s' (with_held v (<[i := b]> (held v))) B T.
Proof.
  intros (Hr & <- & <-) Hn Hsz. destruct (bread_law _ _ _ Hr Hn Hsz) as (i & t & Hb & Hi & Hr').
  eexists i, _. split; [by apply run_on_store|]. done.
Qed.

Lemma run_bdata s v B T i b :
  fs_is s v B T -> held v !! i = Some b -> on_store (bdata i) s = Ok (contents v b) s.
Proof.
  intros (Hr & _ & _) Hi. rewrite (run_on_store _ _ _ _ (bdata_law _ _ _ _ Hr Hi)).
  by destruct s.
Qed.

Lemma run_bset s v B T i b d :
  fs_is s v B T -> held v !! i = Some b -> block_ok d ->
  exists s', on_store (bset i d) s = Ok tt s' /\ fs_is s' (with_contents v b d) B T.
Proof.
  intros (Hr & <- & <-) Hi Hd. destruct (bset_law _ _ _ _ _ Hr Hi Hd) as (t & Hb & Hr').
  eexists. split; [by apply run_on_store|]. done.
Qed.

Lemma run_log_write s v B T i b :
  fs_is s v B T -> held v !! i = Some b -> (base.size ({[b]} ∪ logged v) <= log_cap)%nat ->
  exists s', on_store (log_write i) s = Ok tt s' /\ fs_is s' (with_logged v b) B T.
Proof.
  intros (Hr & <- & <-) Hi Hc. destruct (log_write_law _ _ _ _ Hr Hi Hc) as (t & Hb & Hr').
  eexists. split; [by apply run_on_store|]. done.
Qed.

Lemma run_brelse s v B T i b :
  fs_is s v B T -> held v !! i = Some b -> b ∉ dirty v ->
  exists s', on_store (brelse i) s = Ok tt s' /\ fs_is s' (with_held v (delete i (held v))) B T.
Proof.
  intros (Hr & <- & <-) Hi Hd. destruct (brelse_law _ _ _ _ Hr Hi Hd) as (t & Hb & Hr').
  eexists. split; [by apply run_on_store|]. done.
Qed.

(** ** Patterns *)

(** Between operations no block is dirty.  [room L n h v]: the blocks of [L] and
    [n] others can still be logged, and [h] more buffers can be held. *)
Record room (L : gset Z) (n h : nat) v : Prop := {
  room_clean : dirty v = ∅;
  room_log : (base.size (logged v ∪ L) + n <= log_cap)%nat;
  room_held : (base.size (held v) + h <= max_held)%nat;
}.

(** The store after block [b] was set to [d] and logged. *)
Definition wrote v b d : bview :=
  {| contents := <[b := d]> (contents v); held := held v; dirty := dirty v;
     logged := {[b]} ∪ logged v |}.

(** Logging a block of the log or of [L] costs nothing; another one costs one. *)
Lemma room_wrote L v b d n h :
  room L n h v -> b ∈ logged v ∪ L -> room L n h (wrote v b d).
Proof.
  intros [Hc Hl Hh] Hb. split; cbn; [done| |done].
  replace ({[b]} ∪ logged v ∪ L) with (logged v ∪ L); [done|]. set_solver.
Qed.

Lemma size_insert_le (X : gset Z) b : (base.size ({[b]} ∪ X) <= S (base.size X))%nat.
Proof.
  rewrite size_union_alt, size_singleton.
  assert (base.size (X ∖ {[b]}) <= base.size X)%nat by (apply subseteq_size; set_solver). lia.
Qed.

Lemma room_wrote_new L v b d n h : room L (S n) h v -> room L n h (wrote v b d).
Proof.
  intros [Hc Hl Hh]. split; cbn; [done| |done].
  rewrite <- union_assoc_L. pose proof (size_insert_le (logged v ∪ L) b). lia.
Qed.

(** There is room to log [b]. *)
Definition loggable (L : gset Z) (n : nat) v b : Prop := b ∈ logged v ∪ L \/ (0 < n)%nat.

Lemma loggable_cap L v b n h :
  room L n h v -> loggable L n v b -> (base.size ({[b]} ∪ logged v) <= log_cap)%nat.
Proof.
  intros [Hc Hl Hh] Hb. pose proof (size_insert_le (logged v ∪ L) b).
  destruct Hb as [Hb|Hn].
  - assert (base.size ({[b]} ∪ logged v) <= base.size (logged v ∪ L))%nat; [|lia].
    apply subseteq_size. set_solver.
  - assert (base.size ({[b]} ∪ logged v) <= base.size ({[b]} ∪ (logged v ∪ L)))%nat; [|lia].
    apply subseteq_size. set_solver.
Qed.

Lemma room_le L v n h n' h' :
  room L n h v -> (n' <= n)%nat -> (h' <= h)%nat -> room L n' h' v.
Proof. intros [] ??. split; (done || lia). Qed.

(** Releasing what was just read restores the view. *)
Lemma held_back v i b :
  held v !! i = None ->
  with_held (with_held v (<[i := b]> (held v))) (delete i (<[i := b]> (held v))) = v.
Proof. intros Hi. destruct v. unfold with_held. cbn in *. f_equal. by apply delete_insert_id. Qed.

(** [bread] and [brelse] without a change. *)
Lemma run_read L s v B T b n h :
  fs_is s v B T -> (forall i, held v !! i <> Some b) -> room L n (S h) v ->
  exists i s1 s2, on_store (bread ROOTDEV b) s = Ok i s1 /\
    on_store (bdata i) s1 = Ok (contents v b) s1 /\
    on_store (brelse i) s1 = Ok tt s2 /\ fs_is s2 v B T.
Proof.
  intros Hs Hn [Hc Hl Hh]. destruct (run_bread s v B T b Hs Hn) as (i & s1 & Hb & Hi & Hs1); [lia|].
  assert (held (with_held v (<[i := b]> (held v))) !! i = Some b) as Hib by apply lookup_insert_eq.
  destruct (run_brelse s1 _ B T i b Hs1 Hib) as (s2 & Hr & Hs2).
  { cbn. rewrite Hc. set_solver. }
  exists i, s1, s2. split; [done|]. split; [exact (run_bdata s1 _ B T i b Hs1 Hib)|].
  split; [done|]. cbn [held with_held] in Hs2. by rewrite held_back in Hs2.
Qed.

(** [bread], a change, [log_write] and [brelse]. *)
Lemma run_write L s v B T b n h :
  fs_is s v B T -> (forall i, held v !! i <> Some b) -> room L n (S h) v -> loggable L n v b ->
  exists i s1, on_store (bread ROOTDEV b) s = Ok i s1 /\
    on_store (bdata i) s1 = Ok (contents v b) s1 /\
    forall d, block_ok d -> exists s2 s3 s4,
      on_store (bset i d) s1 = Ok tt s2 /\ on_store (log_write i) s2 = Ok tt s3 /\
      on_store (brelse i) s3 = Ok tt s4 /\ fs_is s4 (wrote v b d) B T.
Proof.
  intros Hs Hn Hroom Hlog. pose proof (loggable_cap L v b n (S h) Hroom Hlog) as Hcap.
  destruct Hroom as [Hc Hl Hh].
  destruct (run_bread s v B T b Hs Hn) as (i & s1 & Hb & Hi & Hs1); [lia|].
  assert (held (with_held v (<[i := b]> (held v))) !! i = Some b) as Hib by apply lookup_insert_eq.
  exists i, s1. split; [done|]. split; [exact (run_bdata s1 _ B T i b Hs1 Hib)|]. intros d Hd.
  destruct (run_bset s1 _ B T i b d Hs1 Hib Hd) as (s2 & Hset & Hs2).
  destruct (run_log_write s2 _ B T i b Hs2 Hib) as (s3 & Hlw & Hs3); [done|].
  destruct (run_brelse s3 _ B T i b Hs3 Hib) as (s4 & Hrel & Hs4).
  { cbn. set_solver. }
  exists s2, s3, s4. split; [done|]. split; [done|]. split; [done|].
  replace (wrote v b d) with
    (with_held (with_logged (with_contents (with_held v (<[i:=b]> (held v))) b d) b)
       (delete i (<[i := b]> (held v)))); [exact Hs4|].
  unfold wrote, with_held, with_logged, with_contents. cbn. f_equal.
  - by apply delete_insert_id.
  - rewrite Hc. set_solver.
Qed.
End Run.

(** ** The bitmap *)

Section Bits.
Implicit Types (d : block).

Lemma bit_mask_eq bi : bit_mask bi = 2 ^ (bi mod 8).
Proof. unfold bit_mask. pose proof (Z.mod_pos_bound bi 8). by rewrite Z.shiftl_1_l. Qed.

Lemma land_mask x k : 0 <= k -> negb (Z.land x (2 ^ k) =? 0) = Z.testbit x k.
Proof.
  intros Hk. destruct (Z.testbit x k) eqn:E.
  - apply negb_true_iff, Z.eqb_neq. intros H0.
    assert (Z.testbit (Z.land x (2 ^ k)) k = true) as Hb.
    { by rewrite Z.land_spec, E, Z.pow2_bits_true. }
    by rewrite H0, Z.bits_0 in Hb.
  - apply negb_false_iff, Z.eqb_eq, Z.bits_inj'. intros n Hn.
    rewrite Z.land_spec, Z.bits_0, Z.pow2_bits_eqb by done.
    destruct (Z.eqb_spec k n) as [->|]; [by rewrite E|by rewrite andb_false_r].
Qed.

Lemma bit_used_testbit d bi : bit_used d bi = Z.testbit (get8 d (bi / 8)) (bi mod 8).
Proof.
  unfold bit_used. rewrite bit_mask_eq. apply land_mask. apply Z.mod_pos_bound. lia.
Qed.

Lemma byte_bits x : 0 <= x < 256 <-> 0 <= x /\ forall n, 8 <= n -> Z.testbit x n = false.
Proof.
  split.
  - intros Hx. split; [lia|]. intros n Hn. destruct (Z.eq_dec x 0) as [->|]; [apply Z.bits_0|].
    apply Z.bits_above_log2; [lia|]. assert (Z.log2 x < 8); [|lia].
    apply Z.log2_lt_pow2; [lia|]. change (2 ^ 8) with 256. lia.
  - intros [H0 Hn]. split; [done|]. destruct (Z.eq_dec x 0) as [->|]; [lia|].
    change 256 with (2 ^ 8). apply Z.log2_lt_pow2; [lia|].
    destruct (Z.lt_ge_cases (Z.log2 x) 8) as [|Hge]; [done|].
    pose proof (Z.bit_log2 x ltac:(lia)) as Hb. by rewrite Hn in Hb.
Qed.

Lemma bit_index bi : 0 <= bi < BPB -> 0 <= bi / 8 < BSIZE /\ 0 <= bi mod 8 < 8.
Proof. unfold BPB, BSIZE. intros. Z.to_euclidean_division_equations. lia. Qed.

Lemma bit_index_inj bi bj : bi <> bj -> bi / 8 = bj / 8 -> bi mod 8 <> bj mod 8.
Proof. intros. Z.to_euclidean_division_equations. lia. Qed.

(** A bit after its byte was replaced. *)
Lemma bit_set8 d bi x bj :
  block_ok d -> 0 <= bi < BPB ->
  bit_used (set8 d (bi / 8) x) bj =
    if decide (bi / 8 = bj / 8) then Z.testbit x (bj mod 8) else bit_used d bj.
Proof.
  intros [Hl _] Hbi. destruct (bit_index bi Hbi) as [Hq _]. rewrite !bit_used_testbit.
  case_decide as He.
  - rewrite <- He, get8_set8_eq by lia. done.
  - by rewrite get8_set8_ne.
Qed.

Lemma set_bit_spec d bi bj :
  block_ok d -> 0 <= bi < BPB ->
  bit_used (set_bit d bi) bj = if decide (bi = bj) then true else bit_used d bj.
Proof.
  intros Hok Hbi. unfold set_bit. rewrite bit_set8, bit_mask_eq by done.
  destruct (bit_index bi Hbi) as [_ Hm]. case_decide as Hq; case_decide as Hb; subst; try done.
  - rewrite Z.lor_spec, Z.pow2_bits_true by lia. apply orb_true_r.
  - pose proof (Z.mod_pos_bound bj 8 ltac:(lia)).
    rewrite Z.lor_spec, Z.pow2_bits_eqb by lia.
    pose proof (bit_index_inj _ _ Hb Hq) as Hr. apply Z.eqb_neq in Hr.
    by rewrite Hr, orb_false_r, bit_used_testbit, Hq.
Qed.

Lemma clear_bit_spec d bi bj :
  block_ok d -> 0 <= bi < BPB ->
  bit_used (clear_bit d bi) bj = if decide (bi = bj) then false else bit_used d bj.
Proof.
  intros Hok Hbi. unfold clear_bit. rewrite bit_set8, bit_mask_eq by done.
  destruct (bit_index bi Hbi) as [_ Hm]. pose proof (Z.mod_pos_bound bj 8 ltac:(lia)).
  case_decide as Hq; case_decide as Hb; subst; try done.
  - rewrite Z.land_spec, Z.lnot_spec, Z.pow2_bits_true by lia. apply andb_false_r.
  - rewrite Z.land_spec, Z.lnot_spec, Z.pow2_bits_eqb by lia.
    pose proof (bit_index_inj _ _ Hb Hq) as Hr. apply Z.eqb_neq in Hr.
    by rewrite Hr, andb_true_r, bit_used_testbit, Hq.
Qed.

Lemma set8_ok d i x : block_ok d -> 0 <= x < 256 -> block_ok (set8 d i x).
Proof. intros [Hl Hb] Hx. split; [by rewrite set8_length|by apply set8_bytes]. Qed.

Lemma set_bit_ok d bi : block_ok d -> 0 <= bi < BPB -> block_ok (set_bit d bi).
Proof.
  intros Hok Hbi. apply set8_ok; [done|]. destruct (bit_index bi Hbi) as [_ Hm].
  destruct (proj1 (byte_bits _) (get8_bound d (bi / 8) (proj2 Hok))) as [H0 Hhi].
  apply byte_bits. rewrite bit_mask_eq. split.
  - apply Z.lor_nonneg. split; [done|]. apply Z.pow_nonneg. lia.
  - intros n Hn. rewrite Z.lor_spec, Hhi, Z.pow2_bits_false by lia. done.
Qed.

Lemma clear_bit_ok d bi : block_ok d -> 0 <= bi < BPB -> block_ok (clear_bit d bi).
Proof.
  intros Hok Hbi. apply set8_ok; [done|].
  destruct (proj1 (byte_bits _) (get8_bound d (bi / 8) (proj2 Hok))) as [H0 Hhi].
  apply byte_bits. split.
  - apply Z.land_nonneg. by left.
  - intros n Hn. by rewrite Z.land_spec, Hhi.
Qed.

(** The scan stops at the first free bit below the size. *)
Lemma scan_bits_Some k d b bi size r :
  scan_bits k d b bi size = Some r ->
  bi <= r < bi + Z.of_nat k /\ b + r < size /\ bit_used d r = false /\
  forall j, bi <= j < r -> bit_used d j = true.
Proof.
  revert bi. induction k as [|k IH]; intros bi; cbn [scan_bits]; [done|].
  destruct (Z.ltb_spec (b + bi) size) as [Hlt|]; [|done].
  destruct (bit_used d bi) eqn:E.
  - intros Hs. apply IH in Hs as (Hr & Hsz & Hf & Hall). split; [lia|]. split; [done|].
    split; [done|]. intros j Hj. destruct (Z.eq_dec j bi) as [->|]; [done|]. apply Hall. lia.
  - intros [= <-]. split; [lia|]. split; [done|]. split; [done|]. intros. lia.
Qed.

Lemma scan_bits_None k d b bi size :
  scan_bits k d b bi size = None ->
  forall j, bi <= j < bi + Z.of_nat k -> b + j < size -> bit_used d j = true.
Proof.
  revert bi. induction k as [|k IH]; intros bi; cbn [scan_bits]; [intros _ j Hj; lia|].
  destruct (Z.ltb_spec (b + bi) size) as [Hlt|]; [|intros _ j Hj; lia].
  destruct (bit_used d bi) eqn:E; [|done]. intros Hs j Hj Hb.
  destruct (Z.eq_dec j bi) as [->|]; [done|]. apply (IH (bi + 1)); (done || lia).
Qed.
End Bits.

(** ** Layout

    [mkfs] lays out boot block, superblock, log, inodes, bitmap and data in this
    order. *)

Definition data_start (B : superblock) : Z := sb_size B - nblocks B.

Record layout (B : superblock) : Prop := {
  layout_size : 0 <= sb_size B < 2 ^ 32;
  layout_inodes : 1 < inodestart B /\ 0 <= ninodes B;
  layout_bitmap : inodestart B + ninodes B / IPB < bmapstart B;
  layout_data : bmapstart B + sb_size B / BPB < data_start B <= sb_size B;
}.

Definition used (v : bview) (B : superblock) (b : Z) : bool :=
  bit_used (contents v (BBLOCK b B)) (b mod BPB).

(** The superblock describes the disk, and the bitmap marks every block before
    the data as used. *)
Record fs_wf (v : bview) (B : superblock) : Prop := {
  wf_layout : layout B;
  wf_meta : forall b, 0 <= b < data_start B -> used v B b = true;
}.

(** The buffers in use hold data blocks that are allocated. *)
Definition held_data (v : bview) (B : superblock) : Prop :=
  forall i b, held v !! i = Some b -> data_start B <= b < sb_size B /\ used v B b = true.

(** The store after [b] was marked and cleared, and after it was unmarked. *)
Definition take_block (v : bview) (B : superblock) (b : Z) : bview :=
  wrote (wrote v (BBLOCK b B) (set_bit (contents v (BBLOCK b B)) (b mod BPB))) b zero_block.
Definition give_block (v : bview) (B : superblock) (b : Z) : bview :=
  wrote v (BBLOCK b B) (clear_bit (contents v (BBLOCK b B)) (b mod BPB)).

(** The blocks of the bitmap. *)
Definition bitmap (B : superblock) : gset Z :=
  list_to_set (seqZ (bmapstart B) (sb_size B / BPB + 1)).

Section Layout.
Implicit Types (v : bview) (B : superblock).

Lemma BBLOCK_meta B b : layout B -> 0 <= b < sb_size B ->
  bmapstart B <= BBLOCK b B < data_start B.
Proof.
  intros [_ _ _ Hd] Hb. unfold BBLOCK. assert (0 <= b / BPB <= sb_size B / BPB); [|lia].
  unfold BPB, BSIZE in *. Z.to_euclidean_division_equations. lia.
Qed.

Lemma BBLOCK_bitmap B b : layout B -> 0 <= b < sb_size B -> BBLOCK b B ∈ bitmap B.
Proof.
  intros _ Hb. unfold bitmap, BBLOCK. apply elem_of_list_to_set, elem_of_seqZ.
  unfold BPB, BSIZE in *. Z.to_euclidean_division_equations. lia.
Qed.

Lemma IBLOCK_meta B n : layout B -> 0 <= n < ninodes B ->
  1 < IBLOCK n B < bmapstart B.
Proof.
  intros [_ Hi Hb _] Hn. unfold IBLOCK. assert (0 <= n / IPB <= ninodes B / IPB); [|lia].
  change IPB with 16. Z.to_euclidean_division_equations. lia.
Qed.

Lemma bmapstart_pos B : layout B -> 1 < bmapstart B.
Proof.
  intros [_ [Hi Hn] Hb _]. assert (0 <= ninodes B / IPB); [|lia]. by apply Z.div_pos.
Qed.

Lemma data_start_pos B : layout B -> bmapstart B < data_start B.
Proof.
  intros [Hs _ _ Hd]. assert (0 <= sb_size B / BPB); [|lia]. apply Z.div_pos; [lia|done].
Qed.

Lemma held_not_meta v B i b c :
  held_data v B -> held v !! i = Some b -> c < data_start B -> b <> c.
Proof. intros Hh Hi. destruct (Hh _ _ Hi). lia. Qed.

Lemma contents_wrote v b d c :
  contents (wrote v b d) c = if decide (c = b) then d else contents v c.
Proof.
  cbn. case_decide; subst; [by rewrite fn_lookup_insert|by rewrite fn_lookup_insert_ne].
Qed.

(** Writing a data or inode block leaves the bitmap. *)
Lemma used_wrote v B b d c :
  layout B -> 0 <= c < sb_size B -> b < bmapstart B \/ data_start B <= b ->
  used (wrote v b d) B c = used v B c.
Proof.
  intros Hl Hc Hb. unfold used. rewrite contents_wrote.
  pose proof (BBLOCK_meta B c Hl Hc). by rewrite decide_False by lia.
Qed.

Lemma bit_unique B b c : BBLOCK c B = BBLOCK b B -> b mod BPB = c mod BPB -> c = b.
Proof. unfold BBLOCK, BPB, BSIZE. intros. Z.to_euclidean_division_equations. lia. Qed.

Lemma used_take v B b c :
  (forall b, block_ok (contents v b)) -> layout B -> data_start B <= b < sb_size B ->
  0 <= c < sb_size B -> used (take_block v B b) B c = if decide (c = b) then true else used v B c.
Proof.
  intros Hok Hl Hb Hc. unfold take_block. 
  pose proof (bmapstart_pos B Hl). pose proof (data_start_pos B Hl).
  rewrite used_wrote by (done || lia).
  unfold used. rewrite contents_wrote. pose proof (Z.mod_pos_bound b BPB ltac:(done)).
  case_decide as Hq.
  - rewrite Hq, set_bit_spec by done. case_decide as Hm; case_decide as He; subst; try done.
    by destruct He; apply (bit_unique B).
  - case_decide; [by subst|done].
Qed.

Lemma used_give v B b c :
  (forall b, block_ok (contents v b)) -> layout B -> data_start B <= b < sb_size B ->
  0 <= c < sb_size B -> used (give_block v B b) B c = if decide (c = b) then false else used v B c.
Proof.
  intros Hok Hl Hb Hc. unfold give_block.
  unfold used. rewrite contents_wrote. pose proof (Z.mod_pos_bound b BPB ltac:(done)).
  case_decide as Hq.
  - rewrite Hq, clear_bit_spec by done. case_decide as Hm; case_decide as He; subst; try done.
    by destruct He; apply (bit_unique B).
  - case_decide; [by subst|done].
Qed.

Lemma contents_take v B b c :
  layout B -> data_start B <= b < sb_size B -> c < bmapstart B \/ data_start B <= c ->
  contents (take_block v B b) c = if decide (c = b) then zero_block else contents v c.
Proof.
  intros Hl Hb Hc. pose proof (bmapstart_pos B Hl). pose proof (data_start_pos B Hl).
  pose proof (BBLOCK_meta B b Hl). unfold take_block. rewrite !contents_wrote.
  case_decide; [done|]. by rewrite decide_False by lia.
Qed.
End Layout.

(** ** The allocator *)

Section Allocator.
Context {St : Type} `{BlockStoreLaws St}.
Implicit Types (v : bview) (B : superblock).

Lemma fs_is_ok (s : @fstate St) v B T b : fs_is s v B T -> block_ok (contents v b).
Proof. intros (Hr & _ & _). by eapply brep_ok. Qed.

(** [bzero] clears a block. *)
Lemma bzero_spec L (s : @fstate St) v B T b n h :
  fs_is s v B T -> (forall i, held v !! i <> Some b) -> room L n (S h) v -> loggable L n v b ->
  exists s', bzero ROOTDEV b s = Ok tt s' /\ fs_is s' (wrote v b zero_block) B T.
Proof.
  intros Hs Hn Hroom Hl. destruct (run_write L s v B T b n h Hs Hn Hroom Hl) as (i & s1 & Hb & _ & Hw).
  destruct (Hw zero_block zero_block_ok) as (s2 & s3 & s4 & Hset & Hlog & Hrel & Hs4).
  exists s4. split; [|done]. unfold bzero. rewrite (kbind_Ok _ _ _ _ _ Hb).
  rewrite (kbind_Ok _ _ _ _ _ Hset), (kbind_Ok _ _ _ _ _ Hlog). done.
Qed.

(** What [balloc] does: the lowest free block is taken, or all are in use. *)
Inductive balloc_result v B T : res (@fstate St) Z -> Prop :=
| BallocTake b s' :
    data_start B <= b < sb_size B -> used v B b = false ->
    (forall c, 0 <= c < b -> used v B c = true) ->
    fs_is s' (take_block v B b) B T -> balloc_result v B T (Ok b s')
| BallocFull s' :
    (forall c, 0 <= c < sb_size B -> used v B c = true) ->
    fs_is s' v B T -> balloc_result v B T (Ok 0 s').

Lemma balloc_take L (s : @fstate St) v B T q bi n h :
  fs_is s v B T -> fs_wf v B -> held_data v B -> room L (S n) (S h) v -> bitmap B ⊆ L ->
  0 <= q -> 0 <= bi < BPB -> q * BPB + bi < sb_size B ->
  used v B (q * BPB + bi) = false ->
  exists i s1 s2 s3 s4 s5, on_store (bread ROOTDEV (BBLOCK (q * BPB) B)) s = Ok i s1 /\
    on_store (bdata i) s1 = Ok (contents v (BBLOCK (q * BPB) B)) s1 /\
    on_store (bset i (set_bit (contents v (BBLOCK (q * BPB) B)) bi)) s1 = Ok tt s2 /\
    on_store (log_write i) s2 = Ok tt s3 /\ on_store (brelse i) s3 = Ok tt s4 /\
    bzero ROOTDEV (q * BPB + bi) s4 = Ok tt s5 /\
    fs_is s5 (take_block v B (q * BPB + bi)) B T.
Proof.
  intros Hs [Hly Hmeta] Hheld Hroom HL Hq Hbi Hlt Hfree.
  assert (BBLOCK (q * BPB + bi) B = BBLOCK (q * BPB) B /\ (q * BPB + bi) mod BPB = bi) as [Hbb Hm].
  { unfold BBLOCK, BPB, BSIZE in *. split; Z.to_euclidean_division_equations; lia. }
  assert (0 <= q * BPB < sb_size B) as Hqb by (unfold BPB, BSIZE in *; lia).
  pose proof (BBLOCK_meta B _ Hly Hqb) as Hbm. pose proof (BBLOCK_bitmap B _ Hly Hqb).
  destruct (run_write L s v B T (BBLOCK (q * BPB) B) (S n) h Hs) as (i & s1 & Hb & Hd & Hw);
    [intros j Hj; by apply (held_not_meta v B j _ _ Hheld Hj (proj2 Hbm))|done|left; set_solver|].
  pose proof (fs_is_ok s v B T (BBLOCK (q * BPB) B) Hs) as Hok.
  destruct (Hw (set_bit (contents v (BBLOCK (q * BPB) B)) bi)) as (s2 & s3 & s4 & Hset & Hlog & Hrel & Hs4);
    [by apply set_bit_ok|].
  destruct (bzero_spec L s4 _ B T (q * BPB + bi) (S n) h Hs4) as (s5 & Hz & Hs5).
  { intros j Hj. destruct (Hheld j _ Hj) as [_ Hu]. congruence. }
  { apply room_wrote; [done|set_solver]. }
  { right. lia. }
  exists i, s1, s2, s3, s4, s5. split_and!; [done..|].
  unfold take_block. by rewrite Hbb, Hm.
Qed.

Lemma balloc_iter k L (s : @fstate St) v B T q n h :
  fs_is s v B T -> fs_wf v B -> held_data v B -> room L (S n) (S h) v -> bitmap B ⊆ L ->
  0 <= q -> q * BPB < sb_size B ->
  (forall c, 0 <= c < q * BPB -> used v B c = true) ->
  (forall s', fs_is s' v B T ->
     (forall c, 0 <= c < (q + 1) * BPB -> c < sb_size B -> used v B c = true) ->
     balloc_result v B T (balloc_loop k ROOTDEV ((q + 1) * BPB) s')) ->
  balloc_result v B T (balloc_loop (S k) ROOTDEV (q * BPB) s).
Proof.
  intros Hs Hwf Hheld Hroom HL Hq Hlt Hlow Hnext. cbn [balloc_loop]. pose proof Hs as (_ & HB & _).
  rewrite (kbind_Ok (kgets sb) _ s B s) by (unfold kgets; by rewrite HB).
  rewrite (proj2 (Z.ltb_lt _ _) Hlt).
  assert (forall c, q * BPB <= c < (q + 1) * BPB -> used v B c =
            bit_used (contents v (BBLOCK (q * BPB) B)) (c - q * BPB)) as Hbit.
  { intros c Hc. unfold used, BBLOCK, BPB, BSIZE in *. f_equal;
      [do 2 f_equal|]; Z.to_euclidean_division_equations; lia. }
  destruct (scan_bits (Z.to_nat BPB) (contents v (BBLOCK (q * BPB) B)) (q * BPB) 0 (sb_size B))
    as [bi|] eqn:Hscan.
  - apply scan_bits_Some in Hscan as Hsc. destruct Hsc as (Hbi & Hlt' & Hfree & Hbelow).
    rewrite Z2Nat.id in Hbi by done.
    replace bi with (q * BPB + bi - q * BPB) in Hfree by lia. rewrite <- Hbit in Hfree by lia.
    destruct (balloc_take L s v B T q bi n h)
      as (i & s1 & s2 & s3 & s4 & s5 & Hb & Hd & Hset & Hlog & Hrel & Hz & Hs5); [done..|].
    rewrite (kbind_Ok _ _ _ _ _ Hb), (kbind_Ok _ _ _ _ _ Hd), Hscan.
    rewrite (kbind_Ok _ _ _ _ _ Hset), (kbind_Ok _ _ _ _ _ Hlog), (kbind_Ok _ _ _ _ _ Hrel),
      (kbind_Ok _ _ _ _ _ Hz).
    apply BallocTake; [|done| |done].
    + destruct (Z.lt_ge_cases (q * BPB + bi) (data_start B)) as [Hc|]; [|lia].
      rewrite (wf_meta _ _ Hwf) in Hfree; [done|]. unfold BPB, BSIZE in *. lia.
    + intros c Hc. destruct (Z.lt_ge_cases c (q * BPB)); [apply Hlow; lia|].
      rewrite Hbit by lia. apply Hbelow. lia.
  - pose proof (scan_bits_None _ _ _ _ _ Hscan) as Hall.
    assert (0 <= q * BPB < sb_size B) as Hqb by (unfold BPB, BSIZE in *; lia).
    pose proof (BBLOCK_meta B _ (wf_layout _ _ Hwf) Hqb) as Hbm.
    destruct (run_read L s v B T (BBLOCK (q * BPB) B) (S n) h Hs)
      as (i & s1 & s2 & Hb & Hd & Hrel & Hs2);
      [intros j Hj; by apply (held_not_meta v B j _ _ Hheld Hj (proj2 Hbm))|done|].
    rewrite (kbind_Ok _ _ _ _ _ Hb), (kbind_Ok _ _ _ _ _ Hd), Hscan, (kbind_Ok _ _ _ _ _ Hrel).
    replace (q * BPB + BPB) with ((q + 1) * BPB) by lia. apply Hnext; [done|].
    intros c Hc Hcs. destruct (Z.lt_ge_cases c (q * BPB)); [apply Hlow; lia|].
    rewrite Hbit by lia. apply Hall; rewrite ?Z2Nat.id by done; lia.
Qed.

Lemma balloc_loop_spec k L (s : @fstate St) v B T q n h :
  fs_is s v B T -> fs_wf v B -> held_data v B -> room L (S n) (S h) v -> bitmap B ⊆ L -> 0 <= q ->
  (forall c, 0 <= c < q * BPB -> c < sb_size B -> used v B c = true) ->
  sb_size B <= (q + Z.of_nat k) * BPB ->
  balloc_result v B T (balloc_loop (S k) ROOTDEV (q * BPB) s).
Proof.
  revert s q. induction k as [|k IH]; intros s q Hs Hwf Hheld Hroom HL Hq Hlow Hsz;
    destruct (Z.lt_ge_cases (q * BPB) (sb_size B)) as [Hlt|Hge].
  1: lia.
  2: { apply (balloc_iter _ L s v B T q n h); try done; [intros; apply Hlow; lia|].
       intros s' Hs' Hlow'. apply IH; (done || lia). }
  all: cbn [balloc_loop]; pose proof Hs as (_ & HB & _);
    rewrite (kbind_Ok (kgets sb) _ s B s) by (unfold kgets; by rewrite HB);
    rewrite (proj2 (Z.ltb_ge _ _) Hge);
    (apply BallocFull; [intros c Hc; apply Hlow; lia|done]).
Qed.

Lemma balloc_spec L (s : @fstate St) v B T n h :
  fs_is s v B T -> fs_wf v B -> held_data v B -> room L (S n) (S h) v -> bitmap B ⊆ L ->
  balloc_result v B T (balloc ROOTDEV s).
Proof.
  intros Hs Hwf Hheld Hroom HL. unfold balloc. pose proof Hs as (_ & HB & _).
  rewrite (kbind_Ok (kgets sb) _ s B s) by (unfold kgets; by rewrite HB).
  pose proof (layout_size _ (wf_layout _ _ Hwf)).
  change 0 with (0 * BPB) at 1. eapply balloc_loop_spec; try done.
  - unfold BPB, BSIZE. intros. lia.
  - unfold BPB, BSIZE in *. Z.to_euclidean_division_equations. lia.
Qed.

Lemma bfree_spec L (s : @fstate St) v B T b n h :
  fs_is s v B T -> fs_wf v B -> held_data v B -> room L n (S h) v -> BBLOCK b B ∈ L ->
  data_start B <= b < sb_size B -> used v B b = true ->
  exists s', bfree ROOTDEV b s = Ok tt s' /\ fs_is s' (give_block v B b) B T.
Proof.
  intros Hs [Hly Hmeta] Hheld Hroom HL Hb Hu.
  pose proof (bmapstart_pos B Hly). pose proof (data_start_pos B Hly).
  pose proof (BBLOCK_meta B b Hly ltac:(lia)) as Hbm.
  destruct (run_write L s v B T (BBLOCK b B) n h Hs) as (i & s1 & Hr & Hd & Hw);
    [intros j Hj; by apply (held_not_meta v B j _ _ Hheld Hj (proj2 Hbm))|done|left; set_solver|].
  destruct (Hw (clear_bit (contents v (BBLOCK b B)) (b mod BPB)))
    as (s2 & s3 & s4 & Hset & Hlog & Hrel & Hs4).
  { apply clear_bit_ok; [by eapply fs_is_ok|]. by apply Z.mod_pos_bound. }
  exists s4. split; [|done]. unfold bfree. pose proof Hs as (_ & HB & _).
  rewrite (kbind_Ok (kgets sb) _ s B s) by (unfold kgets; by rewrite HB).
  rewrite (kbind_Ok _ _ _ _ _ Hr), (kbind_Ok _ _ _ _ _ Hd). unfold used in Hu. rewrite Hu. cbn [negb].
  by rewrite (kbind_Ok _ _ _ _ _ Hset), (kbind_Ok _ _ _ _ _ Hlog).
Qed.
End Allocator.
