(* ===== verification/FsInode.v ===== *)
(** Inodes on disk and in the inode table ([kernel/fs.c], modelled in [Fs]):
    the encoding of [struct dinode], reference counts, locking, and the
    allocation of inodes. *)

From stdpp Require Import functions.
From S2P Require Import Prelude Mem Sleeplock UserMem Block Bio BlockStore Fs FsBlocks.

(** ** The encoding of [struct dinode] *)

Definition dinode_ok (ip : inode) : Prop :=
  -2 ^ 15 <= type ip < 2 ^ 15 /\ -2 ^ 15 <= major ip < 2 ^ 15 /\
  -2 ^ 15 <= minor ip < 2 ^ 15 /\ -2 ^ 15 <= nlink ip < 2 ^ 15 /\
  0 <= i_size ip < 2 ^ 32 /\ length (addrs ip) = 13%nat /\
  Forall (fun a => 0 <= a < 2 ^ 32) (addrs ip).

(** The fields of the disk inode, whatever the in-memory part. *)
Definition same_dinode (ip jp : inode) : Prop :=
  type ip = type jp /\ major ip = major jp /\ minor ip = minor jp /\
  nlink ip = nlink jp /\ i_size ip = i_size jp /\ addrs ip = addrs jp.

Section Codec.
Implicit Types (d : block) (ip : inode).

Lemma get_put_mod k d off v :
  0 <= off -> off + Z.of_nat k <= Z.of_nat (length d) ->
  get_le k (put_le k d off v) off = v mod 256 ^ Z.of_nat k.
Proof.
  revert d off v. induction k as [|k IH]; intros d off v Ho Hl; cbn [get_le put_le].
  - change (256 ^ Z.of_nat 0) with 1. by rewrite Z.mod_1_r.
  - rewrite Nat2Z.inj_succ, Z.pow_succ_r by lia.
    rewrite IH by (rewrite ?set8_length; lia). rewrite get8_put_le, get8_set8_eq by lia.
    by rewrite Z.rem_mul_r by lia.
Qed.

Lemma i16_mod v : -2 ^ 15 <= v < 2 ^ 15 -> i16 (v mod 256 ^ 2) = v.
Proof. intros. unfold i16. Z.to_euclidean_division_equations. lia. Qed.

Lemma put_addrs_length d o l : length (put_addrs d o l) = length d.
Proof.
  revert d o. induction l as [|a l IH]; intros d o; cbn [put_addrs]; [done|].
  rewrite IH. apply put_le_length.
Qed.

Lemma get_put_addrs_ne k d o l o' :
  o' + Z.of_nat k <= o \/ o + 4 * Z.of_nat (length l) <= o' ->
  get_le k (put_addrs d o l) o' = get_le k d o'.
Proof.
  revert d o. induction l as [|a l IH]; intros d o Hd; cbn [put_addrs length] in *; [done|].
  rewrite IH by lia. apply get_put_ne. unfold disjoint. lia.
Qed.

Lemma get_put_addrs d o l :
  0 <= o -> o + 4 * Z.of_nat (length l) <= Z.of_nat (length d) ->
  Forall (fun a => 0 <= a < 2 ^ 32) l -> get_addrs (length l) (put_addrs d o l) o = l.
Proof.
  revert d o. induction l as [|a l IH]; intros d o Ho Hl Hall; cbn [put_addrs get_addrs length] in *;
    [done|]. apply Forall_cons_1 in Hall as [Ha Hall]. f_equal.
  - unfold get32. rewrite get_put_addrs_ne by lia. apply get_put_eq; [lia|lia|exact Ha].
  - apply IH; [lia|unfold put32; rewrite put_le_length; lia|done].
Qed.

Lemma put_addrs_ok d o l : block_ok d -> block_ok (put_addrs d o l).
Proof.
  revert d o. induction l as [|a l IH]; intros d o Hd; cbn [put_addrs]; [done|].
  apply IH. by apply put_le_ok.
Qed.

Lemma store_dinode_ok d o ip : block_ok d -> block_ok (store_dinode d o ip).
Proof. intros Hd. unfold store_dinode. apply put_addrs_ok. by repeat apply put_le_ok. Qed.

(** What [iupdate] stores is what [ilock] loads. *)
Lemma load_store_dinode d o ip jp :
  block_ok d -> 0 <= o -> o + DINODE <= BSIZE -> dinode_ok ip ->
  same_dinode (load_dinode (store_dinode d o ip) o jp) ip.
Proof.
  intros [Hl _] Ho Hfit (Ht & Hmj & Hmn & Hn & Hs & Hal & Ha). unfold DINODE in Hfit.
  assert (12 + 4 * Z.of_nat (length (addrs ip)) = 64) as Hsz by (rewrite Hal; done).
  unfold same_dinode, load_dinode, store_dinode.
  cbn [type major minor nlink i_size addrs with_addrs with_size with_meta].
  unfold get16, get32, put16, put32.
  split_and!.
  1-4: rewrite get_put_addrs_ne by lia; rewrite get_put_ne by (unfold disjoint; lia);
    repeat (rewrite get_put_ne by (unfold disjoint; lia));
    rewrite get_put_mod by (rewrite ?put_le_length; lia); by apply i16_mod.
  - rewrite get_put_addrs_ne by lia. apply get_put_eq; rewrite ?put_le_length; [lia|lia|exact Hs].
  - rewrite <- Hal. apply get_put_addrs; rewrite ?put_le_length; (done || lia).
Qed.

Lemma get_addrs_ext k d d' o :
  (forall i, o <= i < o + 4 * Z.of_nat k -> get8 d i = get8 d' i) ->
  get_addrs k d o = get_addrs k d' o.
Proof.
  revert o. induction k as [|k IH]; intros o Heq; cbn [get_addrs]; [done|]. f_equal.
  - apply get_le_ext. intros. apply Heq. lia.
  - apply IH. intros. apply Heq. lia.
Qed.

Lemma get8_put_addrs d o l i :
  i < o \/ o + 4 * Z.of_nat (length l) <= i -> get8 (put_addrs d o l) i = get8 d i.
Proof.
  revert d o. induction l as [|a l IH]; intros d o Hi; cbn [put_addrs length] in *; [done|].
  rewrite IH by lia. apply get8_put_le. lia.
Qed.

Lemma get8_store_dinode d o ip i :
  length (addrs ip) = 13%nat -> i < o \/ o + DINODE <= i ->
  get8 (store_dinode d o ip) i = get8 d i.
Proof.
  intros Hal Hi. unfold DINODE in Hi. unfold store_dinode, put16, put32.
  rewrite get8_put_addrs by (rewrite Hal; lia). by rewrite !get8_put_le by lia.
Qed.

(** The other inodes of the block stay as they are. *)
Lemma load_store_other d o o' ip jp :
  length (addrs ip) = 13%nat -> disjoint o DINODE o' DINODE ->
  load_dinode (store_dinode d o ip) o' jp = load_dinode d o' jp.
Proof.
  unfold disjoint, DINODE. intros Hal Hd.
  assert (forall i, o' <= i < o' + 64 -> get8 (store_dinode d o ip) i = get8 d i) as H8
    by (intros i Hi; apply get8_store_dinode; unfold DINODE; (done || lia)).
  unfold load_dinode, get16, get32.
  rewrite !(get_le_ext _ (store_dinode d o ip) d) by (intros; apply H8; lia).
  by rewrite (get_addrs_ext _ (store_dinode d o ip) d) by (intros; apply H8; lia).
Qed.

Lemma dip_off_bounds n : 0 <= dip_off n /\ dip_off n + DINODE <= BSIZE.
Proof.
  unfold dip_off, DINODE, BSIZE. change IPB with 16.
  pose proof (Z.mod_pos_bound n 16). lia.
Qed.

(** Two inode numbers with one block have disjoint slots in it. *)
Lemma dip_off_disjoint n m B :
  n <> m -> IBLOCK n B = IBLOCK m B -> disjoint (dip_off n) DINODE (dip_off m) DINODE.
Proof.
  unfold IBLOCK, disjoint, dip_off, DINODE. change IPB with 16.
  intros. Z.to_euclidean_division_equations. lia.
Qed.
End Codec.

(** A byte of a block after [bs] was copied to offset [o]. *)
Lemma get8_splice d o bs i :
  0 <= o -> o + Z.of_nat (length bs) <= Z.of_nat (length d) -> 0 <= i ->
  get8 (splice d o bs) i =
    if decide (o <= i < o + Z.of_nat (length bs)) then get8 bs (i - o) else get8 d i.
Proof.
  intros Ho Hfit Hi. unfold get8, zget, splice. rewrite !decide_True by done.
  assert (length (take (Z.to_nat o) d) = Z.to_nat o) as Ht by (rewrite length_take; lia).
  case_decide as Hin.
  - rewrite decide_True by lia. rewrite lookup_app_r, Ht by lia.
    rewrite lookup_app_l by lia. do 2 f_equal. lia.
  - destruct (Z.lt_ge_cases i o).
    + rewrite lookup_app_l, lookup_take_lt by lia. by rewrite decide_True by lia.
    + rewrite lookup_app_r, Ht, lookup_app_r, lookup_drop by lia. rewrite decide_True by lia.
      do 2 f_equal. lia.
Qed.

(** ** The inode table *)

(** An entry is in use when its reference count is positive; an inode of the
    disk has at most one entry. *)
Record table_ok (T : list inode) : Prop := {
  table_ref : forall i ip, zget T i = Some ip -> 0 <= ref ip;
  table_unique : forall i j ip jp, zget T i = Some ip -> zget T j = Some jp ->
    0 < ref ip -> 0 < ref jp -> i_dev ip = i_dev jp -> inum ip = inum jp -> i = j;
}.

(** The table with entry [i] replaced. *)
Definition tset (T : list inode) (i : Z) (ip : inode) : list inode := <[Z.to_nat i := ip]> T.

Section Table.
Implicit Types (T : list inode) (ip : inode).

Lemma zget_tset T i ip jp j :
  zget T i = Some jp -> zget (tset T i ip) j = if decide (j = i) then Some ip else zget T j.
Proof.
  intros Hi. apply zget_Some in Hi as [Hi0 Hi]. apply lookup_lt_Some in Hi.
  unfold zget, tset. destruct (decide (j = i)) as [->|He].
  - rewrite decide_True by lia. by apply list_lookup_insert_eq.
  - case_decide; [|done]. apply list_lookup_insert_ne. lia.
Qed.

Lemma zget_tset_eq T i ip jp : zget T i = Some jp -> zget (tset T i ip) i = Some ip.
Proof. intros Hi. by rewrite (zget_tset _ _ _ _ _ Hi), decide_True. Qed.

Lemma tset_tset T i ip jp : tset (tset T i ip) i jp = tset T i jp.
Proof. apply list_insert_insert_eq. Qed.

Lemma tset_id T i ip : zget T i = Some ip -> tset T i ip = T.
Proof. intros Hi. apply zget_Some in Hi as [_ Hi]. by apply list_insert_id. Qed.

(** A change of an entry that keeps its identity. *)
Lemma table_ok_tset T i ip jp :
  table_ok T -> zget T i = Some ip -> 0 <= ref jp -> (0 < ref jp -> 0 < ref ip) ->
  i_dev jp = i_dev ip -> inum jp = inum ip -> table_ok (tset T i jp).
Proof.
  intros [Hr Hu] Hi Hj Hpos Hd Hn. split.
  - intros j kp. rewrite (zget_tset _ _ _ _ _ Hi). case_decide; [by intros [= <-]|eauto].
  - intros j k ap bp. rewrite !(zget_tset _ _ _ _ _ Hi). repeat case_decide; subst; try done.
    + intros [= <-] Hb ? Hbr ??. symmetry. apply (Hu k i bp ip); (done || congruence || auto).
    + intros Ha [= <-] ????. apply (Hu j i ap ip); (done || congruence || auto).
    + eauto.
Qed.

Lemma zget_cons ip T i :
  zget (ip :: T) i = if decide (i = 0) then Some ip else zget T (i - 1).
Proof.
  unfold zget. destruct (decide (i = 0)) as [->|Hi]; [done|].
  repeat case_decide; try done; try lia.
  by replace (Z.to_nat i) with (S (Z.to_nat (i - 1))) by lia.
Qed.

(** What the scan of [iget] finds. *)
Lemma iget_scan_inl t k dev n e i :
  iget_scan t k dev n e = inl i ->
  exists ip, k <= i /\ zget t (i - k) = Some ip /\ 0 < ref ip /\ i_dev ip = dev /\ inum ip = n.
Proof.
  revert k e. induction t as [|ip t IH]; intros k e; cbn [iget_scan]; [done|].
  destruct ((0 <? ref ip) && (i_dev ip =? dev) && (inum ip =? n)) eqn:E.
  - intros [= <-]. exists ip. rewrite Z.sub_diag. split; [lia|]. split; [done|].
    apply andb_true_iff in E as [[E1 E2]%andb_true_iff E3]. lia.
  - intros Hs. apply IH in Hs as (jp & Hk & Hg & Hrest). exists jp. split; [lia|].
    split; [|done]. rewrite zget_cons, decide_False by lia.
    by replace (i - k - 1) with (i - (k + 1)) by lia.
Qed.

Lemma iget_scan_inr t k dev n e r :
  iget_scan t k dev n e = inr r ->
  (forall i ip, zget t i = Some ip -> 0 < ref ip -> i_dev ip = dev -> inum ip = n -> False) /\
  match r with
  | None => e = None /\ forall i ip, zget t i = Some ip -> ref ip <> 0
  | Some i => e = Some i \/ exists ip, k <= i /\ zget t (i - k) = Some ip /\ ref ip = 0
  end.
Proof.
  assert (forall (ip : inode) t i jp, zget (ip :: t) i = Some jp ->
            (i = 0 /\ jp = ip) \/ zget t (i - 1) = Some jp) as Hcons.
  { intros ip t' i jp. rewrite zget_cons. case_decide; [|by right].
    intros [= ->]. by left. }
  revert k e. induction t as [|ip t IH]; intros k e; cbn [iget_scan].
  - intros [= <-]. split; [intros i ip Hg; by apply zget_Some in Hg as [_ ?]|].
    destruct e; [by left|]. split; [done|]. intros i ip Hg. by apply zget_Some in Hg as [_ ?].
  - destruct ((0 <? ref ip) && (i_dev ip =? dev) && (inum ip =? n)) eqn:E; [done|].
    intros Hs. apply IH in Hs as [Hno Hr]. split.
    + intros i jp Hg Hp Hd Hn. apply Hcons in Hg as [[-> ->]|Hg]; [|by eapply Hno].
      apply andb_false_iff in E as [[E|E]%andb_false_iff|E]; lia.
    + destruct r as [i|].
      * assert ((exists jp, k + 1 <= i /\ zget t (i - (k + 1)) = Some jp /\ ref jp = 0) ->
                exists jp, k <= i /\ zget (ip :: t) (i - k) = Some jp /\ ref jp = 0) as Hsh.
        { intros (jp & Hk & Hg & Hz). exists jp. split; [lia|]. split; [|done].
          rewrite zget_cons, decide_False by lia.
          by replace (i - k - 1) with (i - (k + 1)) by lia. }
        destruct Hr as [He|Hr]; [|auto]. destruct e; [auto|].
        destruct (Z.eqb_spec (ref ip) 0); [|done]. injection He as <-. right.
        exists ip. rewrite Z.sub_diag. split; [lia|done].
      * destruct Hr as [He Hr]. destruct e; [done|]. split; [done|].
        destruct (Z.eqb_spec (ref ip) 0); [done|]. intros i jp Hg.
        apply Hcons in Hg as [[-> ->]|Hg]; eauto.
Qed.
End Table.

(** ** Operations *)

(** Inode [n] as it is on the disk, over the in-memory part of [jp]. *)
Definition disk_inode (v : bview) (B : superblock) (n : Z) (jp : inode) : inode :=
  load_dinode (contents v (IBLOCK n B)) (dip_off n) jp.

(** The disk after [iupdate] of [ip]. *)
Definition updated (v : bview) (B : superblock) (ip : inode) : bview :=
  wrote v (IBLOCK (inum ip) B) (store_dinode (contents v (IBLOCK (inum ip) B)) (dip_off (inum ip)) ip).

Section Inode.
Context {St : Type} `{BlockStoreLaws St}.
Implicit Types (v : bview) (B : superblock) (T : list inode) (ip : inode) (s : @fstate St).

Lemma run_get_inode s v B T i ip :
  fs_is s v B T -> zget T i = Some ip -> get_inode i s = Ok ip s.
Proof. intros (_ & _ & HT) Hi. unfold get_inode. by rewrite HT, Hi. Qed.

Lemma run_put_inode s v B T i ip jp :
  fs_is s v B T -> zget T i = Some ip ->
  exists s', put_inode i jp s = Ok tt s' /\ fs_is s' v B (tset T i jp).
Proof.
  intros (Hr & HB & HT) Hi. unfold put_inode.
  pose proof (zget_Some T i ip) as [Hz _]. destruct (Hz Hi) as [Hi0 Hl].
  apply lookup_lt_Some in Hl. rewrite HT, zset_in by lia. by eexists.
Qed.

Lemma run_update_inode s v B T i ip f :
  fs_is s v B T -> zget T i = Some ip ->
  exists s', update_inode i f s = Ok tt s' /\ fs_is s' v B (tset T i (f ip)).
Proof.
  intros Hs Hi. unfold update_inode.
  rewrite (kbind_Ok _ _ _ _ _ (run_get_inode _ _ _ _ _ _ Hs Hi)). by eapply run_put_inode.
Qed.

(** The entry [iget] creates. *)
Definition new_entry (dev n : Z) ip : inode :=
  {| i_dev := dev; inum := n; ref := 1; ilk := ilk ip; i_valid := false;
     type := type ip; major := major ip; minor := minor ip; nlink := nlink ip;
     i_size := i_size ip; addrs := addrs ip |}.

Inductive iget_result v B T (dev n : Z) : res (@fstate St) Z -> Prop :=
| IgetHit i ip s' :
    zget T i = Some ip -> 0 < ref ip -> i_dev ip = dev -> inum ip = n ->
    fs_is s' v B (tset T i (with_ref ip (ref ip + 1))) -> iget_result v B T dev n (Ok i s')
| IgetNew i ip s' :
    (forall j jp, zget T j = Some jp -> 0 < ref jp -> i_dev jp = dev -> inum jp = n -> False) ->
    zget T i = Some ip -> ref ip = 0 ->
    fs_is s' v B (tset T i (new_entry dev n ip)) -> iget_result v B T dev n (Ok i s')
| IgetFull :
    (forall j jp, zget T j = Some jp -> 0 < ref jp -> i_dev jp = dev -> inum jp = n -> False) ->
    (forall j jp, zget T j = Some jp -> ref jp <> 0) ->
    iget_result v B T dev n (Panic "iget: no inodes").

Lemma iget_spec s v B T dev n :
  fs_is s v B T -> iget_result v B T dev n (iget dev n s).
Proof.
  intros Hs. unfold iget. pose proof Hs as (_ & _ & HT).
  rewrite (kbind_Ok (kgets itable) _ s T s) by (unfold kgets; by rewrite HT).
  destruct (iget_scan T 0 dev n None) as [i|[i|]] eqn:E.
  - apply iget_scan_inl in E as (ip & _ & Hg & Hp & Hd & Hn). rewrite Z.sub_0_r in Hg.
    destruct (run_update_inode s v B T i ip (fun ip => with_ref ip (ref ip + 1)) Hs Hg) as (s' & Hu & Hs').
    rewrite (kbind_Ok _ _ _ _ _ Hu). by eapply IgetHit.
  - apply iget_scan_inr in E as [Hno [[=]|(ip & _ & Hg & Hz)]]. rewrite Z.sub_0_r in Hg.
    destruct (run_update_inode s v B T i ip (new_entry dev n) Hs Hg) as (s' & Hu & Hs').
    unfold new_entry in Hu. rewrite (kbind_Ok _ _ _ _ _ Hu). by eapply IgetNew.
  - apply iget_scan_inr in E as [Hno [_ Hr]]. by apply IgetFull.
Qed.

(** [iget] keeps one entry per inode. *)
Lemma iget_table_ok v B T dev n i s' :
  table_ok T -> iget_result v B T dev n (Ok i s') -> table_ok (itable s').
Proof.
  intros Hok Hr. inversion Hr as [? ip ? Hg Hp Hd Hn (_ & _ & HT)|? ip ? Hno Hg Hz (_ & _ & HT)|]; subst;
    rewrite HT.
  - pose proof (table_ref _ Hok _ _ Hg).
    eapply table_ok_tset; [done|exact Hg|cbn; lia|cbn; lia|done|done].
  - split.
    + intros j jp. rewrite (zget_tset _ _ _ _ _ Hg). case_decide; [intros [= <-]; cbn; lia|].
      intros. by eapply table_ref.
    + intros j k jp kp. rewrite !(zget_tset _ _ _ _ _ Hg). repeat case_decide; subst; try done.
      * intros [= <-] ? ? ? ? ?. exfalso. by eapply Hno.
      * intros ? [= <-] ? ? ? ?. exfalso. by eapply Hno.
      * intros. by eapply (table_unique _ Hok j k).
Qed.

Lemma idup_spec s v B T i ip :
  fs_is s v B T -> zget T i = Some ip ->
  exists s', idup i s = Ok i s' /\ fs_is s' v B (tset T i (with_ref ip (ref ip + 1))).
Proof.
  intros Hs Hi. unfold idup.
  destruct (run_update_inode s v B T i ip (fun ip => with_ref ip (ref ip + 1)) Hs Hi) as (s' & Hu & Hs').
  exists s'. by rewrite (kbind_Ok _ _ _ _ _ Hu).
Qed.

Lemma held_not_inode v B n j b :
  layout B -> held_data v B -> 0 <= n < ninodes B -> held v !! j = Some b -> b <> IBLOCK n B.
Proof.
  intros Hl Hh Hn Hj. pose proof (IBLOCK_meta B n Hl Hn). pose proof (data_start_pos B Hl).
  destruct (Hh _ _ Hj). lia.
Qed.

Lemma iupdate_spec L s v B T i ip n h :
  fs_is s v B T -> layout B -> held_data v B -> room L n (S h) v ->
  zget T i = Some ip -> i_dev ip = ROOTDEV -> 0 <= inum ip < ninodes B ->
  loggable L n v (IBLOCK (inum ip) B) ->
  exists s', iupdate i s = Ok tt s' /\ fs_is s' (updated v B ip) B T.
Proof.
  intros Hs Hl Hh Hroom Hi Hdev Hn Hlog. unfold iupdate. pose proof Hs as (_ & HB & _).
  rewrite (kbind_Ok _ _ _ _ _ (run_get_inode _ _ _ _ _ _ Hs Hi)).
  rewrite (kbind_Ok (kgets sb) _ s B s) by (unfold kgets; by rewrite HB). rewrite Hdev.
  destruct (run_write L s v B T (IBLOCK (inum ip) B) n h Hs) as (bp & s1 & Hb & Hd & Hw); [|done..|].
  { intros j Hj. by apply (held_not_inode v B (inum ip) j _ Hl Hh Hn Hj). }
  rewrite (kbind_Ok _ _ _ _ _ Hb), (kbind_Ok _ _ _ _ _ Hd).
  destruct (Hw (store_dinode (contents v (IBLOCK (inum ip) B)) (dip_off (inum ip)) ip))
    as (s2 & s3 & s4 & Hset & Hlw & Hrel & Hs4); [apply store_dinode_ok; by eapply fs_is_ok|].
  exists s4. by rewrite (kbind_Ok _ _ _ _ _ Hset), (kbind_Ok _ _ _ _ _ Hlw).
Qed.

(** The inodes of the disk after [iupdate]. *)
Lemma disk_inode_updated v B ip n jp :
  (forall b, block_ok (contents v b)) -> dinode_ok ip ->
  if decide (n = inum ip) then same_dinode (disk_inode (updated v B ip) B n jp) ip
  else disk_inode (updated v B ip) B n jp = disk_inode v B n jp.
Proof.
  intros Hok Hip. unfold disk_inode, updated. rewrite contents_wrote.
  pose proof (dip_off_bounds n) as [Hlo Hhi]. case_decide as Hn.
  - subst n. rewrite decide_True by done. by apply load_store_dinode.
  - case_decide as Hb; [|done]. rewrite Hb. apply load_store_other; [by destruct Hip as (_&_&_&_&_&?&_)|].
    apply (dip_off_disjoint _ _ B); congruence.
Qed.

(** [acquiresleep(&ip->lock)] on a free lock. *)
Lemma run_lock_inode s v B T i ip me :
  fs_is s v B T -> zget T i = Some ip -> sl_locked (ilk ip) = false ->
  exists s', lock_inode me i s = Ok tt s' /\
    fs_is s' v B (tset T i (with_ilk ip {| sl_locked := true; sl_pid := me |})).
Proof.
  intros Hs Hi Hl. unfold lock_inode.
  rewrite (kbind_Ok _ _ _ _ _ (run_get_inode _ _ _ _ _ _ Hs Hi)).
  unfold acquiresleep. rewrite Hl. cbn. by eapply run_put_inode.
Qed.

Inductive ilock_result v B T i ip me : res (@fstate St) unit -> Prop :=
| IlockValid s' :
    i_valid ip = true ->
    fs_is s' v B (tset T i (with_ilk ip {| sl_locked := true; sl_pid := me |})) ->
    ilock_result v B T i ip me (Ok tt s')
| IlockLoad s' :
    i_valid ip = false -> type (disk_inode v B (inum ip) ip) <> 0 ->
    fs_is s' v B
      (tset T i (with_valid (disk_inode v B (inum ip)
                               (with_ilk ip {| sl_locked := true; sl_pid := me |})) true)) ->
    ilock_result v B T i ip me (Ok tt s')
| IlockNoType :
    i_valid ip = false -> type (disk_inode v B (inum ip) ip) = 0 ->
    ilock_result v B T i ip me (Panic "ilock: no type").

Lemma ilock_spec L s v B T i ip me n h :
  fs_is s v B T -> layout B -> held_data v B -> room L n (S h) v ->
  zget T i = Some ip -> i_dev ip = ROOTDEV -> 0 <= inum ip < ninodes B ->
  0 < ref ip -> sl_locked (ilk ip) = false ->
  ilock_result v B T i ip me (ilock me i s).
Proof.
  intros Hs Hl Hh Hroom Hi Hdev Hn Href Hlk. unfold ilock.
  rewrite (kbind_Ok _ _ _ _ _ (run_get_inode _ _ _ _ _ _ Hs Hi)).
  rewrite (proj2 (Z.ltb_ge _ _)) by lia.
  destruct (run_lock_inode s v B T i ip me Hs Hi Hlk) as (s1 & Hlock & Hs1).
  rewrite (kbind_Ok _ _ _ _ _ Hlock).
  set (lp := with_ilk ip {| sl_locked := true; sl_pid := me |}) in *.
  pose proof (zget_tset_eq T i lp ip Hi) as Hi1.
  rewrite (kbind_Ok _ _ _ _ _ (run_get_inode _ _ _ _ _ _ Hs1 Hi1)).
  change (i_valid lp) with (i_valid ip). destruct (i_valid ip) eqn:Hv; [by apply IlockValid|].
  pose proof Hs1 as (_ & HB & _).
  rewrite (kbind_Ok (kgets sb) _ s1 B s1) by (unfold kgets; by rewrite HB).
  change (i_dev lp) with (i_dev ip). change (inum lp) with (inum ip). rewrite Hdev.
  destruct (run_bread s1 v B (tset T i lp) (IBLOCK (inum ip) B) Hs1) as (bp & s2 & Hb & Hbn & Hs2).
  { intros j Hj. by apply (held_not_inode v B (inum ip) j _ Hl Hh Hn Hj). }
  { destruct Hroom. lia. }
  set (w := with_held v (<[bp := IBLOCK (inum ip) B]> (held v))) in *.
  assert (held w !! bp = Some (IBLOCK (inum ip) B)) as Hbp by apply lookup_insert_eq.
  rewrite (kbind_Ok _ _ _ _ _ Hb), (kbind_Ok _ _ _ _ _ (run_bdata _ _ _ _ _ _ Hs2 Hbp)).
  change (load_dinode (contents w (IBLOCK (inum ip) B)) (dip_off (inum ip)) lp)
    with (disk_inode v B (inum ip) lp).
  destruct (run_put_inode s2 w B (tset T i lp) i lp (disk_inode v B (inum ip) lp) Hs2 Hi1)
    as (s3 & Hput & Hs3).
  rewrite (kbind_Ok _ _ _ _ _ Hput).
  destruct (run_brelse s3 w B _ bp _ Hs3 Hbp) as (s4 & Hrel & Hs4).
  { cbn. destruct Hroom as [-> _ _]. set_solver. }
  rewrite (kbind_Ok _ _ _ _ _ Hrel). unfold w in Hs4.
  cbn [held with_held] in Hs4. rewrite held_back in Hs4 by done.
  destruct (run_put_inode s4 v B _ i (disk_inode v B (inum ip) lp)
              (with_valid (disk_inode v B (inum ip) lp) true) Hs4) as (s5 & Hput' & Hs5).
  { by eapply zget_tset_eq. }
  rewrite (kbind_Ok _ _ _ _ _ Hput').
  rewrite !tset_tset in Hs5. change (type (disk_inode v B (inum ip) lp)) with (type (disk_inode v B (inum ip) ip)).
  destruct (Z.eqb_spec (type (disk_inode v B (inum ip) ip)) 0); [by apply IlockNoType|].
  by apply IlockLoad.
Qed.

Lemma iunlock_spec s v B T i ip me :
  fs_is s v B T -> zget T i = Some ip -> 0 < ref ip -> ilk ip = {| sl_locked := true; sl_pid := me |} ->
  exists s', iunlock me i s = Ok tt s' /\ fs_is s' v B (tset T i (with_ilk ip initsleeplock)).
Proof.
  intros Hs Hi Href Hlk. unfold iunlock.
  rewrite (kbind_Ok _ _ _ _ _ (run_get_inode _ _ _ _ _ _ Hs Hi)).
  unfold holdingsleep. rewrite Hlk. cbn. rewrite Z.eqb_refl. cbn.
  rewrite (proj2 (Z.ltb_ge _ _)) by lia.
  apply (run_update_inode s v B T i ip (fun ip => with_ilk ip initsleeplock) Hs Hi).
Qed.

(** The type of inode [n] of the disk. *)
Definition disk_type v B (n : Z) : Z := i16 (get16 (contents v (IBLOCK n B)) (dip_off n)).

(** The disk after [ialloc] took inode [n] for type [t]. *)
Definition fresh v B (n t : Z) : bview :=
  wrote v (IBLOCK n B) (fresh_dinode (contents v (IBLOCK n B)) (dip_off n) t).

(** [ialloc] takes the lowest free inode and makes an entry for it. *)
Inductive ialloc_result v B T (t : Z) : res (@fstate St) (option Z) -> Prop :=
| IallocTake n i s' :
    1 <= n < ninodes B -> disk_type v B n = 0 ->
    (forall m, 1 <= m < n -> disk_type v B m <> 0) ->
    iget_result (fresh v B n t) B T ROOTDEV n (Ok i s') -> ialloc_result v B T t (Ok (Some i) s')
| IallocNoEntry n msg :
    1 <= n < ninodes B -> disk_type v B n = 0 ->
    (forall m, 1 <= m < n -> disk_type v B m <> 0) ->
    iget_result (fresh v B n t) B T ROOTDEV n (Panic msg) -> ialloc_result v B T t (Panic msg)
| IallocFull s' :
    (forall m, 1 <= m < ninodes B -> disk_type v B m <> 0) ->
    fs_is s' v B T -> ialloc_result v B T t (Ok None s').

Lemma splice_ok d o bs :
  block_ok d -> 0 <= o -> o + Z.of_nat (length bs) <= BSIZE ->
  Forall (fun x => 0 <= x < 256) bs -> block_ok (splice d o bs).
Proof.
  intros [Hl Hb] Ho Hfit Hbs. unfold splice. split.
  - rewrite !length_app, length_take, length_drop. lia.
  - repeat apply Forall_app_2; [by apply Forall_take|done|by apply Forall_drop].
Qed.

Lemma fresh_dinode_ok d n t : block_ok d -> block_ok (fresh_dinode d (dip_off n) t).
Proof.
  intros Hd. unfold fresh_dinode. pose proof (dip_off_bounds n) as [Hlo Hhi].
  apply put_le_ok, splice_ok; [done|done| |apply Forall_replicate; lia].
  by rewrite length_replicate.
Qed.

Lemma ialloc_loop_spec k L s v B T m t n h :
  fs_is s v B T -> layout B -> held_data v B -> room L (S n) (S h) v -> 1 <= m ->
  (forall j, 1 <= j < m -> disk_type v B j <> 0) -> ninodes B <= m + Z.of_nat k ->
  ialloc_result v B T t (ialloc_loop (S k) ROOTDEV m t s).
Proof.
  intros Hs Hl Hh Hroom Hm Hlow Hk. revert s m Hs Hm Hlow Hk.
  assert (forall k s m, fs_is s v B T -> 1 <= m ->
    (forall j, 1 <= j < m -> disk_type v B j <> 0) ->
    (forall s', fs_is s' v B T -> m < ninodes B ->
       (forall j, 1 <= j < m + 1 -> disk_type v B j <> 0) ->
       ialloc_result v B T t (ialloc_loop k ROOTDEV (m + 1) t s')) ->
    ialloc_result v B T t (ialloc_loop (S k) ROOTDEV m t s)) as Hiter.
  { clear k. intros k s m Hs Hm Hlow Hnext. cbn [ialloc_loop]. pose proof Hs as (_ & HB & _).
    rewrite (kbind_Ok (kgets sb) _ s B s) by (unfold kgets; by rewrite HB).
    destruct (Z.ltb_spec m (ninodes B)) as [Hlt|Hge];
      [|apply IallocFull; [intros; apply Hlow; lia|done]].
    assert (forall j, held v !! j <> Some (IBLOCK m B)) as Hne.
    { intros j Hj. by apply (held_not_inode v B m j _ Hl Hh ltac:(lia) Hj). }
    destruct (Z.eqb_spec (disk_type v B m) 0) as [Hz|Hz].
    - destruct (run_write L s v B T (IBLOCK m B) (S n) h Hs Hne Hroom) as (bp & s1 & Hb & Hd & Hw);
        [right; lia|].
      destruct (Hw (fresh_dinode (contents v (IBLOCK m B)) (dip_off m) t))
        as (s2 & s3 & s4 & Hset & Hlw & Hrel & Hs4); [apply fresh_dinode_ok; by eapply fs_is_ok|].
      rewrite (kbind_Ok _ _ _ _ _ Hb), (kbind_Ok _ _ _ _ _ Hd).
      unfold disk_type in Hz. rewrite (proj2 (Z.eqb_eq _ _) Hz).
      rewrite (kbind_Ok _ _ _ _ _ Hset), (kbind_Ok _ _ _ _ _ Hlw), (kbind_Ok _ _ _ _ _ Hrel).
      pose proof (iget_spec s4 _ B T ROOTDEV m Hs4) as Hr. unfold kbind.
      destruct (iget ROOTDEV m s4) as [i s5|msg|c s5].
      + apply (IallocTake v B T t m); [lia|done..].
      + apply (IallocNoEntry v B T t m); [lia|done..].
      + inversion Hr.
    - destruct (run_read L s v B T (IBLOCK m B) (S n) h Hs Hne Hroom)
        as (bp & s1 & s2 & Hb & Hd & Hrel & Hs2).
      rewrite (kbind_Ok _ _ _ _ _ Hb), (kbind_Ok _ _ _ _ _ Hd).
      pose proof Hz as Hz'. unfold disk_type in Hz'. rewrite (proj2 (Z.eqb_neq _ _) Hz').
      rewrite (kbind_Ok _ _ _ _ _ Hrel). apply Hnext; [done|done|].
      intros j Hj. destruct (Z.eq_dec j m) as [->|]; [done|]. apply Hlow. lia. }
  induction k as [|k IH]; intros s m Hs Hm Hlow Hk; apply Hiter; try done; intros s' Hs' Hlt Hlow'.
  - lia.
  - apply IH; (done || lia).
Qed.

Lemma ialloc_spec L s v B T t n h :
  fs_is s v B T -> layout B -> held_data v B -> room L (S n) (S h) v ->
  ialloc_result v B T t (ialloc ROOTDEV t s).
Proof.
  intros Hs Hl Hh Hroom. unfold ialloc. pose proof Hs as (_ & HB & _).
  rewrite (kbind_Ok (kgets sb) _ s B s) by (unfold kgets; by rewrite HB).
  eapply ialloc_loop_spec; try done; [intros; lia|].
  pose proof (layout_inodes _ Hl). lia.
Qed.

(** The inodes of the disk after [ialloc]. *)
Lemma disk_type_fresh v B n t m :
  (forall b, block_ok (contents v b)) -> -2 ^ 15 <= t < 2 ^ 15 ->
  disk_type (fresh v B n t) B m = if decide (m = n) then t else disk_type v B m.
Proof.
  intros Hok Ht. unfold disk_type, fresh. rewrite contents_wrote.
  pose proof (dip_off_bounds n) as [Hlo Hhi]. pose proof (dip_off_bounds m) as [Hlo' Hhi'].
  destruct (Hok (IBLOCK n B)) as [Hl _]. unfold fresh_dinode, get16, put16.
  assert (Z.of_nat (length (splice (contents v (IBLOCK n B)) (dip_off n)
                       (replicate (Z.to_nat DINODE) 0))) = BSIZE) as Hsp.
  { unfold splice. rewrite !length_app, length_take, length_drop, length_replicate. lia. }
  destruct (decide (m = n)) as [->|Hmn].
  - rewrite decide_True by done. unfold DINODE in *. rewrite get_put_mod by lia. by apply i16_mod.
  - case_decide as Hb; [|done]. rewrite Hb.
    pose proof (dip_off_disjoint n m B ltac:(congruence) ltac:(congruence)) as Hdj.
    unfold disjoint, DINODE in *. rewrite get_put_ne by (unfold disjoint; lia).
    f_equal. apply get_le_ext. intros i Hi. rewrite get8_splice by (rewrite ?length_replicate; lia).
    rewrite decide_False by (rewrite length_replicate; lia). done.
Qed.
End Inode.
