(* ===== verification/FsFile.v ===== *)
(** File content ([bmap], [readi], [writei] and [itrunc] of [kernel/fs.c],
    modelled in [Fs]).

    The blocks of an inode are its slots: slot [k] below [MAXFILE] is the block
    of the [k]th [BSIZE] bytes, direct or through the indirect block, and slot
    [MAXFILE] is the indirect block itself.  [fbyte v ip off] is the file's byte
    at [off].  [evolves] relates a file to a later state of it, with bytes [f] and
    possibly more slots: nothing is taken from other files, no block is lost.
    [grows] is [evolves] with the same bytes. *)

From stdpp Require Import functions.
From S2P Require Import Prelude Mem Sleeplock UserMem Block Bio BlockStore Fs FsBlocks FsInode.

Definition slot (v : bview) (ip : inode) (k : Z) : Z :=
  if k =? MAXFILE then get_addr ip NDIRECT
  else if k <? NDIRECT then get_addr ip k
  else if get_addr ip NDIRECT =? 0 then 0
  else get32 (contents v (get_addr ip NDIRECT)) (4 * (k - NDIRECT)).

Definition owns (v : bview) (ip : inode) (c : Z) : Prop :=
  c <> 0 /\ exists k, 0 <= k <= MAXFILE /\ slot v ip k = c.

Definition fbyte (v : bview) (ip : inode) (off : Z) : Z :=
  let b := slot v ip (off / BSIZE) in
  if b =? 0 then 0 else get8 (contents v b) (off mod BSIZE).

Record inode_wf (v : bview) (B : superblock) (ip : inode) : Prop := {
  inode_addrs : length (addrs ip) = 13%nat;
  inode_slot : forall k, 0 <= k <= MAXFILE -> slot v ip k <> 0 ->
    data_start B <= slot v ip k < sb_size B /\ used v B (slot v ip k) = true;
  inode_inj : forall j k, 0 <= j <= MAXFILE -> 0 <= k <= MAXFILE ->
    slot v ip j <> 0 -> slot v ip j = slot v ip k -> j = k;
}.

(** The blocks an operation on [ip] must not change: the metadata before the
    bitmap, and the blocks allocated to others. *)
Definition foreign (v : bview) (B : superblock) (ip : inode) (c : Z) : Prop :=
  c < bmapstart B \/ (data_start B <= c < sb_size B /\ used v B c = true /\ ~ owns v ip c).

Record evolves (B : superblock) (v : bview) (ip : inode) (v' : bview) (ip' : inode) (f : Z -> Z) : Prop := {
  grows_wf : fs_wf v' B;
  grows_inode : inode_wf v' B ip';
  grows_meta : ip' = with_addrs ip (addrs ip');
  grows_bytes : forall off, 0 <= off < MAXFILE * BSIZE -> fbyte v' ip' off = f off;
  grows_slot : forall k, 0 <= k <= MAXFILE -> slot v ip k <> 0 -> slot v' ip' k = slot v ip k;
  grows_own : forall c, owns v' ip' c -> owns v ip c \/ used v B c = false;
  grows_used : forall c, 0 <= c < sb_size B ->
    (used v' B c = true <-> used v B c = true \/ owns v' ip' c);
  grows_frame : forall c, foreign v B ip c -> contents v' c = contents v c;
  grows_held : held v' = held v;
}.

Definition grows (B : superblock) (v : bview) (ip : inode) (v' : bview) (ip' : inode) : Prop :=
  evolves B v ip v' ip' (fbyte v ip).

Lemma get_le_zero k off : get_le k zero_block off = 0.
Proof.
  assert (forall i, get8 zero_block i = 0) as H8.
  { intros i. unfold get8, zget. case_decide; [|done].
    destruct (zero_block !! _) as [x|] eqn:E; [|done]. by apply lookup_replicate in E as [-> _]. }
  revert off. induction k as [|k IH]; intros off; cbn [get_le]; [done|]. by rewrite IH, H8.
Qed.

Lemma get8_zero i : get8 zero_block i = 0.
Proof. pose proof (get_le_zero 1 i) as E. cbn [get_le] in E. lia. Qed.

Lemma ndirect_lt : 0 < NDIRECT < MAXFILE.
Proof. done. Qed.

Section Slots.
Implicit Types (v : bview) (B : superblock) (ip : inode).

Lemma slot_owns v ip k : 0 <= k <= MAXFILE -> slot v ip k <> 0 -> owns v ip (slot v ip k).
Proof. intros Hk Hn. split; [done|]. by exists k. Qed.

Lemma owns_data v B ip c : inode_wf v B ip -> owns v ip c ->
  data_start B <= c < sb_size B /\ used v B c = true.
Proof. intros Hw (Hn & k & Hk & <-). by apply (inode_slot _ _ _ Hw). Qed.

Lemma grows_refl B v ip : fs_wf v B -> inode_wf v B ip -> grows B v ip v ip.
Proof.
  intros Hf Hw. split; try done.
  - by destruct ip.
  - intros c Hc. by left.
  - intros c Hc. split; [by left|]. intros [|Hc']; [done|]. by apply (owns_data v B ip).
Qed.

Lemma evolves_trans B v ip v' ip' f v'' ip'' f' :
  evolves B v ip v' ip' f -> evolves B v' ip' v'' ip'' f' -> evolves B v ip v'' ip'' f'.
Proof.
  intros G G'.
  assert (forall c, owns v ip c -> owns v' ip' c) as Hmono.
  { intros c (Hn & k & Hk & Hc). split; [done|]. exists k. split; [done|].
    rewrite <- Hc in Hn |- *. by apply (grows_slot _ _ _ _ _ _ G). }
  assert (forall c, owns v' ip' c -> owns v'' ip'' c) as Hmono'.
  { intros c (Hn & k & Hk & Hc). split; [done|]. exists k. split; [done|].
    rewrite <- Hc in Hn |- *. by apply (grows_slot _ _ _ _ _ _ G'). }
  pose proof (layout_size _ (wf_layout _ _ (grows_wf _ _ _ _ _ _ G))) as Hsz.
  pose proof (data_start_pos B (wf_layout _ _ (grows_wf _ _ _ _ _ _ G))).
  pose proof (bmapstart_pos B (wf_layout _ _ (grows_wf _ _ _ _ _ _ G))).
  split.
  - apply G'.
  - apply G'.
  - rewrite (grows_meta _ _ _ _ _ _ G'), (grows_meta _ _ _ _ _ _ G). done.
  - apply G'.
  - intros k Hk Hn. pose proof (grows_slot _ _ _ _ _ _ G k Hk Hn) as He.
    rewrite <- He in Hn |- *. by apply (grows_slot _ _ _ _ _ _ G').
  - intros c Hc. destruct (owns_data _ _ _ _ (grows_inode _ _ _ _ _ _ G') Hc) as [Hcd _].
    destruct (grows_own _ _ _ _ _ _ G' c Hc) as [Hc'|Hu]; [by apply (grows_own _ _ _ _ _ _ G)|].
    right. destruct (used v B c) eqn:E; [|done].
    rewrite (proj2 (grows_used _ _ _ _ _ _ G c ltac:(lia))) in Hu; auto.
  - intros c Hc. rewrite (grows_used _ _ _ _ _ _ G' c Hc), (grows_used _ _ _ _ _ _ G c Hc).
    split; [intros [[]|]; auto|intros []; auto].
  - intros c Hc. rewrite (grows_frame _ _ _ _ _ _ G' c); [by apply (grows_frame _ _ _ _ _ _ G)|].
    destruct Hc as [|(Hd & Hu & Hn)]; [by left|right]. split; [done|]. split.
    + apply (grows_used _ _ _ _ _ _ G); [lia|by left].
    + intros Hc. destruct (grows_own _ _ _ _ _ _ G c Hc); [done|congruence].
  - rewrite (grows_held _ _ _ _ _ _ G'). apply G.
Qed.

Lemma evolves_ext B v ip v' ip' f f' :
  evolves B v ip v' ip' f -> (forall off, 0 <= off < MAXFILE * BSIZE -> f off = f' off) ->
  evolves B v ip v' ip' f'.
Proof. intros G Heq. destruct G. split; try done. intros off Ho. rewrite <- Heq by done. auto. Qed.

Lemma grows_trans B v ip v' ip' v'' ip'' :
  grows B v ip v' ip' -> grows B v' ip' v'' ip'' -> grows B v ip v'' ip''.
Proof.
  intros G G'. eapply evolves_ext; [by eapply evolves_trans|]. apply G.
Qed.

(** A free block [b] put into the empty slot [k0]. *)
Lemma grows_take B v ip v' ip' b k0 :
  fs_wf v B -> inode_wf v B ip -> 0 <= k0 <= MAXFILE -> slot v ip k0 = 0 ->
  data_start B <= b < sb_size B -> used v B b = false ->
  ip' = with_addrs ip (addrs ip') -> length (addrs ip') = 13%nat ->
  (forall k, 0 <= k <= MAXFILE -> slot v' ip' k = if decide (k = k0) then b else slot v ip k) ->
  (forall c, 0 <= c < sb_size B -> used v' B c = if decide (c = b) then true else used v B c) ->
  contents v' b = zero_block \/ k0 = MAXFILE ->
  (forall c, c < bmapstart B \/
     (data_start B <= c < sb_size B /\ c <> b /\ c <> get_addr ip' NDIRECT) ->
     contents v' c = contents v c) ->
  held v' = held v -> grows B v ip v' ip'.
Proof.
  intros Hf Hw Hk0 Hs0 Hb Hub Hmeta Hlen Hslot Hused Hzero Hframe Hheld.
  pose proof (data_start_pos B (wf_layout _ _ Hf)). pose proof (bmapstart_pos B (wf_layout _ _ Hf)).
  assert (forall k, 0 <= k <= MAXFILE -> slot v ip k <> b) as Hnb.
  { intros k Hk E. destruct (inode_slot _ _ _ Hw k Hk ltac:(lia)) as [_ Hu]. congruence. }
  assert (0 <= MAXFILE <= MAXFILE) as Hmx by done.
  assert (get_addr ip' NDIRECT = slot v' ip' MAXFILE) as Hind by done. rewrite Hind in Hframe.
  split; try done.
  - split; [apply Hf|]. intros c Hc. rewrite Hused by (pose proof (layout_data _ (wf_layout _ _ Hf)); lia).
    case_decide; [done|]. by apply (wf_meta _ _ Hf).
  - split; [done| |].
    + intros k Hk. rewrite Hslot by done. case_decide; intros Hn.
      * split; [done|]. rewrite Hused by lia. by rewrite decide_True.
      * destruct (inode_slot _ _ _ Hw k Hk Hn) as [Hd Hu]. split; [done|].
        rewrite Hused by lia. by case_decide.
    + intros j k Hj Hk. rewrite !Hslot by done. repeat case_decide; subst; intros Hn E; try done.
      * symmetry in E. by apply Hnb in E.
      * by apply Hnb in E.
      * by apply (inode_inj _ _ _ Hw).
  - intros off Ho. unfold fbyte.
    assert (0 <= off / BSIZE < MAXFILE) as Hk
      by (unfold BSIZE in *; Z.to_euclidean_division_equations; lia).
    rewrite Hslot by lia. case_decide as Hke.
    + rewrite Hke, Hs0. destruct Hzero as [Hz|Hz]; [|lia]. rewrite Hz, get8_zero. by case (b =? 0).
    + destruct (Z.eqb_spec (slot v ip (off / BSIZE)) 0) as [|Hn]; [done|].
      destruct (inode_slot _ _ _ Hw (off / BSIZE) ltac:(lia) Hn) as [Hd _].
      rewrite Hframe; [done|right]. split; [done|]. split; [by apply Hnb; lia|].
      rewrite Hslot by done. case_decide; [by apply Hnb; lia|]. intros E.
      apply (inode_inj _ _ _ Hw) in E; [lia..|done].
  - intros k Hk Hn. rewrite Hslot by done. case_decide; [by subst|done].
  - intros c (Hn & k & Hk & <-). rewrite Hslot in Hn |- * by done. case_decide; [by right|].
    left. by apply slot_owns.
  - intros c Hc. rewrite Hused by done. case_decide as Hcb.
    + subst c. split; [intros _; right|done]. split; [lia|]. exists k0. split; [done|].
      rewrite Hslot by done. by rewrite decide_True.
    + split; [by left|]. intros [|(Hn & k & Hk & <-)]; [done|].
      rewrite Hslot in Hn, Hcb |- * by done. case_decide; [done|].
      by apply (inode_slot _ _ _ Hw).
  - intros c Hc. apply Hframe. destruct Hc as [|(Hd & Hu & Hno)]; [by left|right].
    assert (c <> b) as Hcb by congruence. split; [done|]. split; [done|].
    rewrite Hslot by done. case_decide; [done|]. intros ->. apply Hno, slot_owns; [done|]. lia.
Qed.

Definition put_addr ip (k a : Z) : inode :=
  with_addrs ip (default (addrs ip) (zset (addrs ip) k a)).

Lemma put_addr_length ip k a : length (addrs (put_addr ip k a)) = length (addrs ip).
Proof. cbn. destruct (zset (addrs ip) k a) eqn:E; [|done]. by eapply zset_length. Qed.

Lemma get_put_addr ip k a j :
  length (addrs ip) = 13%nat -> 0 <= k <= NDIRECT ->
  get_addr (put_addr ip k a) j = if decide (j = k) then a else get_addr ip j.
Proof.
  intros Hl Hk. unfold NDIRECT in Hk. unfold get_addr, put_addr. cbn [addrs with_addrs].
  destruct (zset (addrs ip) k a) as [l|] eqn:E; [|rewrite zset_in in E by lia; done].
  cbn. case_decide as Hj.
  - subst j. by rewrite (zget_zset_eq _ _ _ _ E).
  - by rewrite (zget_zset_ne _ _ _ _ _ E) by done.
Qed.

(** The allocator's effect, as [grows_take] needs it. *)
Lemma take_frame v B b c :
  layout B -> data_start B <= b < sb_size B ->
  c < bmapstart B \/ (data_start B <= c < sb_size B /\ c <> b) ->
  contents (take_block v B b) c = contents v c.
Proof.
  intros Hl Hb Hc. pose proof (data_start_pos B Hl).
  rewrite contents_take by (done || lia). rewrite decide_False; [done|]. lia.
Qed.

Lemma take_zero v B b : contents (take_block v B b) b = zero_block.
Proof. unfold take_block. rewrite contents_wrote. by rewrite decide_True. Qed.

Lemma grows_direct B v ip b bn :
  (forall b, block_ok (contents v b)) -> fs_wf v B -> inode_wf v B ip ->
  0 <= bn < NDIRECT -> get_addr ip bn = 0 ->
  data_start B <= b < sb_size B -> used v B b = false ->
  grows B v ip (take_block v B b) (put_addr ip bn b) /\
  slot (take_block v B b) (put_addr ip bn b) bn = b.
Proof.
  intros Hok Hf Hw Hbn Ha Hb Hu. pose proof (wf_layout _ _ Hf) as Hl.
  pose proof ndirect_lt.
  pose proof (inode_addrs _ _ _ Hw) as Hlen.
  assert (forall k, 0 <= k <= MAXFILE -> slot (take_block v B b) (put_addr ip bn b) k =
            if decide (k = bn) then b else slot v ip k) as Hslot.
  { intros k Hk. unfold slot. rewrite !get_put_addr by (done || lia).
    rewrite (decide_False (P := NDIRECT = bn)) by lia.
    destruct (Z.eqb_spec k MAXFILE) as [->|Hkm]; [by rewrite decide_False by lia|].
    destruct (Z.ltb_spec k NDIRECT); [done|]. rewrite decide_False by lia.
    destruct (Z.eqb_spec (get_addr ip NDIRECT) 0) as [|Hn]; [done|].
    rewrite take_frame; [done..|]. right.
    destruct (inode_slot _ _ _ Hw MAXFILE ltac:(done) Hn) as [Hd Hu']. split; [done|].
    intros E. change (slot v ip MAXFILE) with (get_addr ip NDIRECT) in Hu'. congruence. }
  split; [|rewrite Hslot by lia; by rewrite decide_True].
  apply (grows_take B v ip _ _ b bn); try done.
  - lia.
  - unfold slot. by rewrite (proj2 (Z.eqb_neq bn MAXFILE)), (proj2 (Z.ltb_lt bn NDIRECT)) by lia.
  - by rewrite put_addr_length.
  - intros. by apply used_take.
  - left. apply take_zero.
  - intros c Hc. apply take_frame; [done|done|tauto].
Qed.

Lemma grows_indirect B v ip b :
  (forall b, block_ok (contents v b)) -> fs_wf v B -> inode_wf v B ip ->
  get_addr ip NDIRECT = 0 -> data_start B <= b < sb_size B -> used v B b = false ->
  grows B v ip (take_block v B b) (put_addr ip NDIRECT b) /\
  forall k, 0 <= k < MAXFILE ->
    slot (take_block v B b) (put_addr ip NDIRECT b) k = slot v ip k.
Proof.
  intros Hok Hf Hw Ha Hb Hu. pose proof (wf_layout _ _ Hf) as Hl.
  pose proof (inode_addrs _ _ _ Hw) as Hlen.
  assert (forall k, 0 <= k <= MAXFILE -> slot (take_block v B b) (put_addr ip NDIRECT b) k =
            if decide (k = MAXFILE) then b else slot v ip k) as Hslot.
  { intros k Hk. unfold slot. rewrite !get_put_addr by done. rewrite Ha.
    rewrite (decide_True (P := NDIRECT = NDIRECT)) by done.
    destruct (Z.eqb_spec k MAXFILE) as [->|Hkm]; [by rewrite decide_True|].
    rewrite (decide_False (P := k = MAXFILE)) by done.
    destruct (Z.ltb_spec k NDIRECT); [by rewrite decide_False by lia|].
    rewrite take_zero. unfold get32. rewrite get_le_zero. by case (b =? 0). }
  split; [|intros k Hk; rewrite Hslot by lia; by rewrite decide_False by lia].
  apply (grows_take B v ip _ _ b MAXFILE); try done.
  - by rewrite put_addr_length.
  - intros. by apply used_take.
  - by right.
  - intros c Hc. apply take_frame; [done|done|tauto].
Qed.

Lemma grows_entry B v ip b bn :
  (forall b, block_ok (contents v b)) -> fs_wf v B -> inode_wf v B ip ->
  NDIRECT <= bn < MAXFILE -> get_addr ip NDIRECT <> 0 -> slot v ip bn = 0 ->
  data_start B <= b < sb_size B -> b < 2 ^ 32 -> used v B b = false ->
  let v' := wrote (take_block v B b) (get_addr ip NDIRECT)
              (put32 (contents v (get_addr ip NDIRECT)) (4 * (bn - NDIRECT)) b) in
  grows B v ip v' ip /\ slot v' ip bn = b.
Proof.
  intros Hok Hf Hw Hbn Ha Hs0 Hb Hb32 Hu v'. pose proof (wf_layout _ _ Hf) as Hl.
  set (a := get_addr ip NDIRECT) in *.
  assert (data_start B <= a < sb_size B /\ a <> b) as [Had Hab].
  { destruct (inode_slot _ _ _ Hw MAXFILE ltac:(done) Ha) as [Hd Hu']. split; [done|].
    intros E. change (slot v ip MAXFILE) with a in Hu'. congruence. }
  pose proof (data_start_pos B Hl). pose proof (bmapstart_pos B Hl).
  assert (forall k, 0 <= k <= MAXFILE -> slot v' ip k =
            if decide (k = bn) then b else slot v ip k) as Hslot.
  { intros k Hk. unfold slot. fold a. unfold v'. rewrite contents_wrote, decide_True by done.
    destruct (Z.eqb_spec k MAXFILE) as [->|Hkm]; [by rewrite decide_False by lia|].
    destruct (Z.ltb_spec k NDIRECT); [by rewrite decide_False by lia|].
    rewrite (proj2 (Z.eqb_neq a 0) Ha). destruct (Hok a) as [Hlen _].
    unfold BSIZE, NDIRECT in *. change MAXFILE with 268 in *. unfold get32, put32. case_decide.
    - subst k. apply get_put_eq; [lia|lia|]. change (256 ^ Z.of_nat 4) with (2 ^ 32). lia.
    - apply get_put_ne. unfold disjoint. lia. }
  split; [|rewrite Hslot by (unfold NDIRECT in Hbn; lia); by rewrite decide_True].
  apply (grows_take B v ip _ _ b bn); try done.
  - unfold NDIRECT in Hbn. lia.
  - by destruct ip.
  - apply Hw.
  - intros c Hc. unfold v'. rewrite used_wrote by (done || lia). by apply used_take.
  - left. unfold v'. rewrite contents_wrote, decide_False by done. apply take_zero.
  - intros c Hc. unfold v'. fold a in Hc. rewrite contents_wrote, decide_False by lia.
    apply take_frame; [done|done|tauto].
Qed.
End Slots.

(** ** [bmap] *)

Section File.
Context {St : Type} `{BlockStoreLaws St} {U : Type} `{UserMem U}.
Implicit Types (v : bview) (B : superblock) (T : list inode) (ip : inode) (s : @fstate St).

(** The block of the file's [bn]th [BSIZE] bytes: it is there, or it is new and
    clear, or the disk is full. *)
Inductive bmap_result (L : gset Z) (n h : nat) v B T i ip bn : res (@fstate St) Z -> Prop :=
| BmapHave s' :
    slot v ip bn <> 0 -> fs_is s' v B T ->
    bmap_result L n h v B T i ip bn (Ok (slot v ip bn) s')
| BmapNew v' ip' s' :
    slot v ip bn = 0 -> slot v' ip' bn <> 0 -> slot v' ip' bn ∈ logged v' ->
    grows B v ip v' ip' -> room L n h v' -> fs_is s' v' B (tset T i ip') ->
    bmap_result L n h v B T i ip bn (Ok (slot v' ip' bn) s')
| BmapFull v' ip' s' :
    slot v ip bn = 0 -> slot v' ip' bn = 0 -> grows B v ip v' ip' ->
    (forall c, 0 <= c < sb_size B -> used v' B c = true) ->
    room L n h v' -> fs_is s' v' B (tset T i ip') ->
    bmap_result L n h v B T i ip bn (Ok 0 s').

Lemma room_take L v B b n h :
  layout B -> room L (S n) h v -> bitmap B ⊆ L -> 0 <= b < sb_size B ->
  room L n h (take_block v B b).
Proof.
  intros Hl Hroom HL Hb. unfold take_block. apply room_wrote_new, room_wrote; [done|].
  pose proof (BBLOCK_bitmap B b Hl Hb). set_solver.
Qed.

Lemma run_set_addr s v B T i ip k a :
  fs_is s v B T -> zget T i = Some ip ->
  exists s', set_addr i k a s = Ok tt s' /\ fs_is s' v B (tset T i (put_addr ip k a)).
Proof. intros Hs Hi. by apply (run_update_inode s v B T i ip). Qed.

Lemma slot_direct v ip bn : 0 <= bn < NDIRECT -> slot v ip bn = get_addr ip bn.
Proof.
  intros Hbn. pose proof ndirect_lt. unfold slot.
  by rewrite (proj2 (Z.eqb_neq bn MAXFILE)), (proj2 (Z.ltb_lt bn NDIRECT)) by lia.
Qed.

Lemma slot_indirect v ip bn : NDIRECT <= bn < MAXFILE -> get_addr ip NDIRECT <> 0 ->
  slot v ip bn = get32 (contents v (get_addr ip NDIRECT)) (4 * (bn - NDIRECT)).
Proof.
  intros Hbn Ha. unfold slot.
  rewrite (proj2 (Z.eqb_neq bn MAXFILE)), (proj2 (Z.ltb_ge bn NDIRECT)) by lia.
  by rewrite (proj2 (Z.eqb_neq _ 0) Ha).
Qed.

(** [ip->addrs[k]]: what the two uses of it in [bmap] share. *)
Lemma bmap_addr_spec L s v B T i ip k n h :
  fs_is s v B T -> fs_wf v B -> held_data v B ->
  room L (S n) (S h) v -> bitmap B ⊆ L -> zget T i = Some ip -> i_dev ip = ROOTDEV ->
  (get_addr ip k <> 0 /\ bmap_addr i k s = Ok (get_addr ip k) s) \/
  (get_addr ip k = 0 /\ (forall c, 0 <= c < sb_size B -> used v B c = true) /\
   exists s', bmap_addr i k s = Ok 0 s' /\ fs_is s' v B T) \/
  (get_addr ip k = 0 /\ exists b s', data_start B <= b < sb_size B /\ used v B b = false /\
     room L n (S h) (take_block v B b) /\ bmap_addr i k s = Ok b s' /\
     fs_is s' (take_block v B b) B (tset T i (put_addr ip k b))).
Proof.
  intros Hs Hf Hh Hroom HL Hi Hdev. pose proof (wf_layout _ _ Hf) as Hl.
  pose proof (data_start_pos B Hl). pose proof (bmapstart_pos B Hl).
  unfold bmap_addr. rewrite (kbind_Ok _ _ _ _ _ (run_get_inode _ _ _ _ _ _ Hs Hi)).
  destruct (Z.eqb_spec (get_addr ip k) 0) as [Ha|Ha]; [right|by left].
  rewrite Hdev. pose proof (balloc_spec L s v B T n h Hs Hf Hh Hroom HL) as Hr.
  inversion Hr as [b s1 Hb Hu Hlow Hs1 E|s1 Hfull Hs1 E]; rewrite (kbind_Ok _ _ _ _ _ (eq_sym E)).
  - right. split; [done|]. rewrite (proj2 (Z.eqb_neq b 0)) by lia.
    destruct (run_set_addr s1 _ B T i ip k b Hs1 Hi) as (s2 & Hset & Hs2).
    exists b, s2. rewrite (kbind_Ok _ _ _ _ _ Hset). split_and!; try done; [lia|lia|].
    apply room_take; (done || lia).
  - left. split; [done|]. split; [done|]. by exists s1.
Qed.

Lemma bmap_direct L s v B T i ip bn n h :
  fs_is s v B T -> fs_wf v B -> inode_wf v B ip -> held_data v B ->
  room L (S n) (S h) v -> bitmap B ⊆ L ->
  zget T i = Some ip -> i_dev ip = ROOTDEV -> 0 <= bn < NDIRECT ->
  bmap_result L n (S h) v B T i ip bn (bmap i bn s).
Proof.
  intros Hs Hf Hw Hh Hroom HL Hi Hdev Hbn.
  pose proof (data_start_pos B (wf_layout _ _ Hf)). pose proof (bmapstart_pos B (wf_layout _ _ Hf)).
  unfold bmap. rewrite (proj2 (Z.ltb_lt bn NDIRECT)) by lia.
  destruct (bmap_addr_spec L s v B T i ip bn n h) as [(Ha & ->)|[(Ha & Hfull & s' & -> & Hs')|
    (Ha & b & s' & Hb & Hu & Hroom' & -> & Hs')]]; try done.
  - rewrite <- (slot_direct v) in Ha |- * by done. by apply BmapHave.
  - apply (BmapFull L n (S h) v B T i ip bn v ip); try (by rewrite slot_direct); try done.
    + by apply grows_refl.
    + eapply room_le; [done|lia|lia].
    + by rewrite tset_id.
  - destruct (grows_direct B v ip b bn) as [Hg Hsl]; [by intros c; eapply fs_is_ok|done..|].
    rewrite <- Hsl at 1.
    apply (BmapNew L n (S h) v B T i ip bn (take_block v B b) (put_addr ip bn b)); try done.
    + by rewrite slot_direct.
    + rewrite Hsl. lia.
    + rewrite Hsl. cbn. set_solver.
Qed.

(** The view while one block is held, and after it was changed and released. *)
Lemma wrote_held v bp a d :
  held v = ∅ -> dirty v = ∅ ->
  with_held (with_logged (with_contents (with_held v {[bp := a]}) a d) a) (delete bp {[bp := a]}) =
  wrote v a d.
Proof.
  intros Hh Hd. unfold wrote, with_held, with_logged, with_contents. cbn. f_equal.
  - by rewrite delete_singleton_eq.
  - rewrite Hd. set_solver.
Qed.

Lemma held_none v B : held v = ∅ -> held_data v B.
Proof. intros Hh i b. rewrite Hh. by rewrite lookup_empty. Qed.

Lemma run_bread1 s v B T b L n h :
  fs_is s v B T -> held v = ∅ -> room L n (S h) v ->
  exists bp s1, on_store (bread ROOTDEV b) s = Ok bp s1 /\
    fs_is s1 (with_held v {[bp := b]}) B T.
Proof.
  intros Hs Hh [_ _ Hr]. destruct (run_bread s v B T b Hs) as (bp & s1 & Hb & _ & Hs1).
  { intros j. rewrite Hh. by rewrite lookup_empty. }
  { lia. }
  exists bp, s1. split; [done|]. by rewrite Hh, insert_empty in Hs1.
Qed.

(** Nothing was changed: releasing the buffer restores the view. *)
Lemma run_brelse1 s v B T bp b :
  fs_is s (with_held v {[bp := b]}) B T -> held v = ∅ -> dirty v = ∅ ->
  exists s', on_store (brelse bp) s = Ok tt s' /\ fs_is s' v B T.
Proof.
  intros Hs Hh Hd. destruct (run_brelse s _ B T bp b Hs) as (s' & Hr & Hs').
  { cbn. apply lookup_singleton_eq. }
  { cbn. rewrite Hd. set_solver. }
  exists s'. split; [done|]. cbn in Hs'. rewrite delete_singleton_eq in Hs'.
  destruct v. cbn in *. by subst.
Qed.

Lemma run_modify1 s v B T bp b d L n h :
  fs_is s (with_held v {[bp := b]}) B T -> held v = ∅ -> room L n h v -> loggable L n v b ->
  block_ok d ->
  exists s1 s2 s3, on_store (bset bp d) s = Ok tt s1 /\ on_store (log_write bp) s1 = Ok tt s2 /\
    on_store (brelse bp) s2 = Ok tt s3 /\ fs_is s3 (wrote v b d) B T.
Proof.
  intros Hs Hh Hroom Hlog Hd. pose proof (loggable_cap L v b n h Hroom Hlog) as Hcap.
  assert (held (with_held v {[bp := b]}) !! bp = Some b) as Hbp by apply lookup_singleton_eq.
  destruct (run_bset s _ B T bp b d Hs Hbp Hd) as (s1 & Hset & Hs1).
  destruct (run_log_write s1 _ B T bp b Hs1 Hbp Hcap) as (s2 & Hlw & Hs2).
  destruct (run_brelse s2 _ B T bp b Hs2 Hbp) as (s3 & Hrel & Hs3); [cbn; set_solver|].
  exists s1, s2, s3. split_and!; try done. rewrite <- (wrote_held v bp b d); [exact Hs3|done|].
  by destruct Hroom.
Qed.

Lemma fs_wf_held v B h : fs_wf v B -> fs_wf (with_held v h) B.
Proof. by intros [Hl Hm]. Qed.

Lemma bmap_entry_spec L s v B T i ip bn m n h :
  fs_is s v B T -> fs_wf v B -> inode_wf v B ip -> held v = ∅ ->
  room L (S m) (S (S h)) v -> bitmap B ⊆ L ->
  (get_addr ip NDIRECT ∈ logged v /\ n = m) \/ m = S n ->
  zget T i = Some ip -> NDIRECT <= bn < MAXFILE -> get_addr ip NDIRECT <> 0 ->
  bmap_result L n (S (S h)) v B T i ip bn
    (bmap_entry ROOTDEV (get_addr ip NDIRECT) (bn - NDIRECT) s).
Proof.
  intros Hs Hf Hw Hh Hroom HL Hlogd Hi Hbn Ha. pose proof (wf_layout _ _ Hf) as Hl.
  pose proof (data_start_pos B Hl). pose proof (bmapstart_pos B Hl).
  pose proof (slot_indirect v ip bn Hbn Ha) as Hsl. pose proof (room_clean _ _ _ _ Hroom) as Hcl.
  destruct (inode_slot _ _ _ Hw MAXFILE ltac:(done) Ha) as [Had Hau].
  change (slot v ip MAXFILE) with (get_addr ip NDIRECT) in Had, Hau.
  set (a := get_addr ip NDIRECT) in *.
  unfold bmap_entry. destruct (run_bread1 s v B T a L _ _ Hs Hh Hroom) as (bp & s1 & Hb & Hs1).
  rewrite (kbind_Ok _ _ _ _ _ Hb). set (w := with_held v {[bp := a]}) in *.
  assert (held w !! bp = Some a) as Hbp by apply lookup_singleton_eq.
  rewrite (kbind_Ok _ _ _ _ _ (run_bdata _ _ _ _ _ _ Hs1 Hbp)).
  change (contents w a) with (contents v a). rewrite <- Hsl.
  destruct (Z.eqb_spec (slot v ip bn) 0) as [Hz|Hz].
  2: { rewrite (kbind_Ok (kret _) _ s1 _ s1 eq_refl).
       destruct (run_brelse1 s1 v B T bp a Hs1 Hh Hcl) as (s2 & Hrel & Hs2).
       rewrite (kbind_Ok _ _ _ _ _ Hrel). by apply BmapHave. }
  assert (held_data w B) as Hhw.
  { intros j c. cbn. rewrite lookup_singleton_Some. by intros [_ <-]. }
  assert (room L (S m) (S h) w) as Hroomw.
  { destruct Hroom as [R1 R2 R3]. split; [done|done|]. rewrite Hh, map_size_empty in R3.
    cbn. rewrite map_size_singleton. lia. }
  pose proof (balloc_spec L s1 w B T m h Hs1 (fs_wf_held _ _ _ Hf) Hhw Hroomw HL) as Hr.
  inversion Hr as [b s2 Hbd Hu Hlow Hs2 E|s2 Hfull Hs2 E].
  - change (take_block w B b) with (with_held (take_block v B b) {[bp := a]}) in Hs2.
    change (used w B b) with (used v B b) in Hu.
    assert (a <> b) as Hab by congruence.
    assert (forall c, block_ok (contents v c)) as Hok by (intros c; by eapply (fs_is_ok s)).
    assert (room L m (S (S h)) (take_block v B b)) as Hroomt by (apply room_take; (done || lia)).
    destruct (run_modify1 s2 (take_block v B b) B T bp a (put32 (contents v a) (4 * (bn - NDIRECT)) b) L m (S (S h)))
      as (s3 & s4 & s5 & Hset & Hlw & Hrel & Hs5); [done|done|done| |by apply put_le_ok|].
    { destruct Hlogd as [[Hin _]|Hm]; [left; cbn; set_solver + Hin|right; lia]. }
    destruct (grows_entry B v ip b bn Hok Hf Hw Hbn Ha Hz Hbd) as [Hg Hsb];
      [pose proof (layout_size _ Hl); lia|done|]. fold a in Hg, Hsb.
    rewrite (kbind_Ok _ _ s1 b s4).
    2: { rewrite (kbind_Ok _ _ _ _ _ (eq_sym E)), (proj2 (Z.eqb_neq b 0)) by lia.
         rewrite (kbind_Ok _ _ s2 tt s4); [done|].
         assert (held (with_held (take_block v B b) {[bp := a]}) !! bp = Some a) as Hbp'
           by apply lookup_singleton_eq.
         rewrite (kbind_Ok _ _ _ _ _ (run_bdata _ _ _ _ _ _ Hs2 Hbp')).
         change (contents (with_held ?x _)) with (contents x).
         rewrite take_frame by (done || lia). by rewrite (kbind_Ok _ _ _ _ _ Hset). }
    rewrite (kbind_Ok _ _ _ _ _ Hrel). unfold kret. rewrite <- Hsb at 1.
    eapply BmapNew; [done|rewrite Hsb; lia|rewrite Hsb; cbn; set_solver +|done| |by rewrite tset_id].
    destruct Hlogd as [[Hin ->] | ->]; [apply room_wrote; [done|cbn; set_solver + Hin]|].
    by apply room_wrote_new.
  - rewrite (kbind_Ok _ _ s1 0 s2).
    2: { by rewrite (kbind_Ok _ _ _ _ _ (eq_sym E)). }
    destruct (run_brelse1 s2 v B T bp a Hs2 Hh Hcl) as (s3 & Hrel & Hs3).
    rewrite (kbind_Ok _ _ _ _ _ Hrel).
    apply (BmapFull L n _ v B T i ip bn v ip); try done.
    + by apply grows_refl.
    + eapply room_le; [done| |lia]. destruct Hlogd as [[_ ->] | ->]; lia.
    + by rewrite tset_id.
Qed.

(** After the indirect block was added, the result for the extended file is one
    for the file. *)
Lemma bmap_result_trans L n h v B T i ip v1 ip1 bn r :
  inode_wf v B ip -> zget T i = Some ip -> grows B v ip v1 ip1 ->
  slot v ip bn = 0 -> slot v1 ip1 bn = 0 ->
  bmap_result L n h v1 B (tset T i ip1) i ip1 bn r -> bmap_result L n h v B T i ip bn r.
Proof.
  intros Hw Hi Hg Hz Hz1 Hr. destruct Hr as [s' Hn|v2 ip2 s' _ Hn Hlog Hg2 Hroom Hs|v2 ip2 s' _ Hn Hg2 Hfull Hroom Hs].
  - done.
  - rewrite tset_tset in Hs. eapply BmapNew; try done. by eapply grows_trans.
  - rewrite tset_tset in Hs. eapply BmapFull; try done. by eapply grows_trans.
Qed.

Lemma bmap_spec L s v B T i ip bn n h :
  fs_is s v B T -> fs_wf v B -> inode_wf v B ip -> held v = ∅ ->
  room L (S (S n)) (S (S h)) v -> bitmap B ⊆ L ->
  zget T i = Some ip -> i_dev ip = ROOTDEV -> 0 <= bn < MAXFILE ->
  bmap_result L n (S (S h)) v B T i ip bn (bmap i bn s).
Proof.
  intros Hs Hf Hw Hh Hroom HL Hi Hdev Hbn. pose proof (wf_layout _ _ Hf) as Hl.
  pose proof (data_start_pos B Hl). pose proof (bmapstart_pos B Hl).
  destruct (Z.lt_ge_cases bn NDIRECT) as [Hlt|Hge].
  { apply bmap_direct; try done; [by apply held_none|eapply room_le; [done|lia|lia]|lia]. }
  unfold bmap. rewrite (proj2 (Z.ltb_ge bn NDIRECT)) by lia.
  rewrite (proj2 (Z.ltb_lt (bn - NDIRECT) NINDIRECT)) by (unfold MAXFILE in Hbn; lia).
  destruct (bmap_addr_spec L s v B T i ip NDIRECT (S n) (S h)) as [(Ha & E)|[(Ha & Hfull & s' & E & Hs')|
    (Ha & b & s' & Hb & Hu & Hroom' & E & Hs')]]; try done; [by apply held_none|..];
    rewrite (kbind_Ok _ _ _ _ _ E).
  - rewrite (proj2 (Z.eqb_neq _ 0) Ha).
    rewrite (kbind_Ok _ _ _ _ _ (run_get_inode _ _ _ _ _ _ Hs Hi)), Hdev.
    apply (bmap_entry_spec L s v B T i ip bn (S n) n h); try done; [by right|lia].
  - assert (slot v ip bn = 0) as Hz.
    { unfold slot. rewrite (proj2 (Z.eqb_neq bn MAXFILE)), (proj2 (Z.ltb_ge bn NDIRECT)) by lia.
      by rewrite Ha. }
    apply (BmapFull L n _ v B T i ip bn v ip); try done.
    + by apply grows_refl.
    + by eapply room_le; [done|lia|lia].
    + by rewrite tset_id.
  - rewrite (proj2 (Z.eqb_neq b 0)) by lia.
    destruct (grows_indirect B v ip b) as [Hg Hsl]; [by intros c; eapply (fs_is_ok s)|done..|].
    assert (slot v ip bn = 0) as Hz.
    { unfold slot. rewrite (proj2 (Z.eqb_neq bn MAXFILE)), (proj2 (Z.ltb_ge bn NDIRECT)) by lia.
      by rewrite Ha. }
    pose proof (zget_tset_eq T i (put_addr ip NDIRECT b) ip Hi) as Hi'.
    rewrite (kbind_Ok _ _ _ _ _ (run_get_inode _ _ _ _ _ _ Hs' Hi')).
    change (i_dev (put_addr ip NDIRECT b)) with (i_dev ip). rewrite Hdev.
    assert (get_addr (put_addr ip NDIRECT b) NDIRECT = b) as Hgb.
    { rewrite get_put_addr; [by rewrite decide_True|apply Hw|done]. }
    eapply (bmap_result_trans L n _ v B T i ip _ _ bn _ Hw Hi Hg Hz); [by rewrite Hsl by lia|].
    pose proof (bmap_entry_spec L s' _ B _ i (put_addr ip NDIRECT b) bn n n h Hs') as Hr.
    rewrite Hgb in Hr. apply Hr; try done; try apply Hg; try lia.
    left. split; [|done]. cbn. set_solver +.
Qed.
End File.
