(* ===== verification/FsData.v ===== *)
(** Reading and writing files ([readi] and [writei] of [kernel/fs.c], modelled
    in [Fs]), against the file as a sequence of bytes. *)

From stdpp Require Import functions.
From S2P Require Import Prelude Mem Sleeplock UserMem Block Bio BlockStore Fs FsBlocks FsInode FsFile.

(** The [n] bytes of the file from [off] on. *)
Definition fbytes (v : bview) (ip : inode) (off n : Z) : list Z := fbyte v ip <$> seqZ off n.

(** Every block below the size is allocated. *)
Definition filled (v : bview) (ip : inode) : Prop :=
  0 <= i_size ip <= MAXFILE * BSIZE /\
  forall bn, 0 <= bn -> bn * BSIZE < i_size ip -> slot v ip bn <> 0.

Section Bytes.
Implicit Types (v : bview) (ip : inode).

Lemma fbytes_app v ip off n m :
  0 <= n -> 0 <= m -> fbytes v ip off (n + m) = fbytes v ip off n ++ fbytes v ip (off + n) m.
Proof. intros Hn Hm. unfold fbytes. by rewrite seqZ_app, fmap_app. Qed.

Lemma fbytes_length v ip off n : length (fbytes v ip off n) = Z.to_nat n.
Proof. unfold fbytes. by rewrite length_fmap, length_seqZ. Qed.

Lemma fbytes_lookup v ip off n (j : nat) :
  Z.of_nat j < n -> fbytes v ip off n !! j = Some (fbyte v ip (off + Z.of_nat j)).
Proof.
  intros Hj. unfold fbytes. rewrite list_lookup_fmap, lookup_seqZ_lt by lia. done.
Qed.

Lemma block_split off m :
  0 <= m -> off mod BSIZE + m <= BSIZE -> forall j, 0 <= j < m ->
  (off + j) / BSIZE = off / BSIZE /\ (off + j) mod BSIZE = off mod BSIZE + j.
Proof. unfold BSIZE. intros. Z.to_euclidean_division_equations. lia. Qed.

(** A piece of one block. *)
Lemma fbytes_chunk v ip off m :
  block_ok (contents v (slot v ip (off / BSIZE))) -> slot v ip (off / BSIZE) <> 0 ->
  0 <= m -> off mod BSIZE + m <= BSIZE ->
  take (Z.to_nat m) (drop (Z.to_nat (off mod BSIZE)) (contents v (slot v ip (off / BSIZE)))) =
  fbytes v ip off m.
Proof.
  intros [Hl _] Hn Hm Hfit. pose proof (Z.mod_pos_bound off BSIZE ltac:(done)) as Ho.
  apply list_eq_same_length with (n := Z.to_nat m).
  - rewrite fbytes_length. done.
  - rewrite length_take, length_drop. lia.
  - intros j x y Hj. rewrite lookup_take_lt, lookup_drop, fbytes_lookup by lia.
    intros Hx [= <-]. unfold fbyte.
    destruct (block_split off m Hm Hfit (Z.of_nat j)) as [-> ->]; [lia|].
    rewrite (proj2 (Z.eqb_neq _ 0) Hn). unfold get8, zget. rewrite decide_True by lia.
    replace (Z.to_nat (off mod BSIZE + Z.of_nat j)) with (Z.to_nat (off mod BSIZE) + j)%nat by lia.
    by rewrite Hx.
Qed.
End Bytes.

Section Data.
Context {St : Type} `{BlockStoreLaws St} {U : Type} `{UserMemLaws U}.
Implicit Types (v : bview) (B : superblock) (T : list inode) (ip : inode) (s : @fstate St).

(** [bmap] of a block that is there needs no room in the log. *)
Lemma bmap_have L s v B T i ip bn n h :
  fs_is s v B T -> held v = ∅ -> room L n (S h) v ->
  zget T i = Some ip -> i_dev ip = ROOTDEV -> 0 <= bn < MAXFILE -> slot v ip bn <> 0 ->
  exists s', bmap i bn s = Ok (slot v ip bn) s' /\ fs_is s' v B T.
Proof.
  intros Hs Hh Hroom Hi Hdev Hbn Hn.
  assert (forall k, get_addr ip k <> 0 -> bmap_addr i k s = Ok (get_addr ip k) s) as Haddr.
  { intros k Hk. unfold bmap_addr. rewrite (kbind_Ok _ _ _ _ _ (run_get_inode _ _ _ _ _ _ Hs Hi)).
    by rewrite (proj2 (Z.eqb_neq _ 0) Hk). }
  unfold bmap. destruct (Z.ltb_spec bn NDIRECT) as [Hlt|Hge].
  { rewrite slot_direct in Hn |- * by lia. exists s. by rewrite Haddr. }
  rewrite (proj2 (Z.ltb_lt (bn - NDIRECT) NINDIRECT)) by (unfold MAXFILE in Hbn; lia).
  assert (get_addr ip NDIRECT <> 0) as Ha.
  { intros E. apply Hn. unfold slot.
    rewrite (proj2 (Z.eqb_neq bn MAXFILE)), (proj2 (Z.ltb_ge bn NDIRECT)) by lia. by rewrite E. }
  rewrite (kbind_Ok _ _ _ _ _ (Haddr _ Ha)), (proj2 (Z.eqb_neq _ 0) Ha).
  rewrite (kbind_Ok _ _ _ _ _ (run_get_inode _ _ _ _ _ _ Hs Hi)), Hdev.
  rewrite slot_indirect in Hn |- * by (done || lia).
  unfold bmap_entry. destruct (run_bread1 s v B T (get_addr ip NDIRECT) L n h Hs Hh Hroom) as (bp & s1 & Hb & Hs1).
  rewrite (kbind_Ok _ _ _ _ _ Hb).
  rewrite (kbind_Ok _ _ _ _ _ (run_bdata _ _ _ _ _ _ Hs1 (lookup_singleton_eq _ _))).
  change (contents (with_held ?x _)) with (contents x). rewrite (proj2 (Z.eqb_neq _ 0) Hn).
  rewrite (kbind_Ok (kret _) _ s1 _ s1 eq_refl).
  destruct (run_brelse1 s1 v B T bp _ Hs1 Hh (room_clean _ _ _ _ Hroom)) as (s2 & Hrel & Hs2).
  rewrite (kbind_Ok _ _ _ _ _ Hrel). by exists s2.
Qed.

(** What reading [m] bytes at [off] leaves in the destination. *)
Definition delivered (dst dst' : anymem U) (addr : Z) (bs : list Z) : Prop :=
  any_wf dst' /\ any_shape dst' = any_shape dst /\
  any_read dst' addr (Z.of_nat (length bs)) = Some bs /\
  forall a k x, addr + Z.of_nat (length bs) <= a \/ a + k <= addr ->
    any_read dst a k = Some x -> any_read dst' a k = Some x.

Lemma any_read_zero (m : anymem U) addr r : any_read m addr 0 = Some r -> any_read m addr 0 = Some [].
Proof. intros Hr. pose proof (any_read_length m addr 0 r ltac:(done) Hr). by destruct r. Qed.

Lemma delivered_app (dst dst1 dst2 : anymem U) addr xs ys :
  delivered dst dst1 addr xs -> delivered dst1 dst2 (addr + Z.of_nat (length xs)) ys ->
  delivered dst dst2 addr (xs ++ ys).
Proof.
  intros (Hw1 & Hp1 & Hr1 & Hf1) (Hw2 & Hp2 & Hr2 & Hf2). split; [done|].
  split; [by rewrite Hp2|]. rewrite length_app, Nat2Z.inj_add. split.
  - rewrite any_read_app by (done || lia). rewrite Hr2.
    rewrite (Hf2 addr _ xs) by (done || lia). done.
  - intros a k x Hd Hx. apply Hf2; [lia|]. apply Hf1; [lia|done].
Qed.

Lemma readi_loop_spec k L s v B T i ip dst addr off n tot r0 c h :
  fs_is s v B T -> inode_wf v B ip -> filled v ip -> held v = ∅ -> room L c (S h) v ->
  zget T i = Some ip -> i_dev ip = ROOTDEV ->
  0 <= off -> 0 <= tot <= n -> off + (n - tot) <= i_size ip ->
  (tot < n -> n - tot + off mod BSIZE <= Z.of_nat k * BSIZE) ->
  any_wf dst -> any_read dst addr (n - tot) = Some r0 ->
  exists dst' s', readi_loop k i dst addr off n tot s = Ok (n, dst') s' /\ fs_is s' v B T /\
    delivered dst dst' addr (fbytes v ip off (n - tot)).
Proof.
  intros Hs Hw [Hsz Hfill] Hh Hroom Hi Hdev.
  revert s dst addr off tot r0 Hs. induction k as [|k IH];
    intros s dst addr off tot r0 Hs Hoff Htot Hend Hk Hdw Hr; cbn [readi_loop].
  1: pose proof (Z.mod_pos_bound off BSIZE ltac:(done)); assert (tot = n) as -> by lia.
  2: destruct (Z.ltb_spec tot n) as [Hlt|Hge];
     [|assert (tot = n) as -> by lia].
  1,3: exists dst, s; split; [done|]; split; [done|]; split; [done|]; split; [done|];
    rewrite Z.sub_diag in Hr |- *; split; [by eapply any_read_zero|done].
  pose proof (Z.mod_pos_bound off BSIZE ltac:(done)) as Hmod.
  assert (0 <= off / BSIZE < MAXFILE /\ off / BSIZE * BSIZE < i_size ip) as [Hbn Hbs].
  { unfold BSIZE in *. Z.to_euclidean_division_equations. lia. }
  pose proof (Hfill _ (proj1 Hbn) Hbs) as Hn.
  destruct (bmap_have L s v B T i ip (off / BSIZE) c h Hs Hh Hroom Hi Hdev Hbn Hn) as (s1 & Hb & Hs1).
  rewrite (kbind_Ok _ _ _ _ _ Hb), (proj2 (Z.eqb_neq _ 0) Hn).
  rewrite (kbind_Ok _ _ _ _ _ (run_get_inode _ _ _ _ _ _ Hs1 Hi)), Hdev.
  destruct (run_bread1 s1 v B T (slot v ip (off / BSIZE)) L c h Hs1 Hh Hroom) as (bp & s2 & Hrd & Hs2).
  rewrite (kbind_Ok _ _ _ _ _ Hrd).
  rewrite (kbind_Ok _ _ _ _ _ (run_bdata _ _ _ _ _ _ Hs2 (lookup_singleton_eq _ _))).
  change (contents (with_held ?x _)) with (contents x).
  set (m := Z.min (n - tot) (BSIZE - off mod BSIZE)).
  rewrite fbytes_chunk by (try done; try (by eapply fs_is_ok); lia).
  assert (Z.of_nat (length (fbytes v ip off m)) = m) as Hlen by (rewrite fbytes_length; lia).
  replace (n - tot) with (m + (n - tot - m)) in Hr |- * by lia.
  rewrite any_read_app in Hr by (done || lia).
  destruct (any_read dst addr m) as [r1|] eqn:Hr1; [|done]. cbn in Hr.
  destruct (any_read dst (addr + m) (n - tot - m)) as [r2|] eqn:Hr2; [|done].
  destruct (either_copyout_ok dst addr (fbytes v ip off m) r1 Hdw) as (dst1 & Hco & Hdw1 & Hsh1 & Hrd1 & Hfr1);
    [by rewrite Hlen|]. rewrite Hco.
  destruct (run_brelse1 s2 v B T bp _ Hs2 Hh (room_clean _ _ _ _ Hroom)) as (s3 & Hrel & Hs3).
  rewrite (kbind_Ok _ _ _ _ _ Hrel).
  destruct (IH s3 dst1 (addr + m) (off + m) (tot + m) r2 Hs3) as (dst2 & s4 & Hloop & Hs4 & Hdel);
    try done; try lia.
  { intros Hlt'. assert (m = BSIZE - off mod BSIZE) as Hm by lia.
    assert ((off + m) mod BSIZE = 0) as ->; [|lia].
    rewrite Hm. unfold BSIZE in *. Z.to_euclidean_division_equations. lia. }
  { rewrite (Hfr1 (addr + m) _ r2); [done|lia|]. rewrite <- Hr2. f_equal. lia. }
  exists dst2, s4. split; [done|]. split; [done|].
  rewrite fbytes_app by lia. apply (delivered_app dst dst1); [done|].
  rewrite Hlen. by replace (n - tot - m) with (n - (tot + m)) by lia.
Qed.

Lemma readi_spec L s v B T i ip dst addr off n r0 c h :
  fs_is s v B T -> inode_wf v B ip -> filled v ip -> held v = ∅ -> room L c (S h) v ->
  zget T i = Some ip -> i_dev ip = ROOTDEV ->
  0 <= off < 2 ^ 32 -> 0 <= n < 2 ^ 32 ->
  let m := if (off <=? i_size ip) && (off + n <? 2 ^ 32) then Z.min n (i_size ip - off) else 0 in
  any_wf dst -> any_read dst addr m = Some r0 ->
  exists dst' s', readi i dst addr off n s = Ok (m, dst') s' /\ fs_is s' v B T /\
    delivered dst dst' addr (fbytes v ip off m).
Proof.
  intros Hs Hw Hfill Hh Hroom Hi Hdev Hoff Hn m Hdw Hr.
  unfold readi. rewrite (kbind_Ok _ _ _ _ _ (run_get_inode _ _ _ _ _ _ Hs Hi)).
  assert ((u32 (off + n) <? off) = negb (off + n <? 2 ^ 32)) as Hov.
  { unfold u32. destruct (Z.ltb_spec (off + n) (2 ^ 32)) as [Hlt|Hge]; cbn [negb].
    - rewrite Z.mod_small by lia. apply Z.ltb_ge. lia.
    - apply Z.ltb_lt. Z.to_euclidean_division_equations. lia. }
  rewrite Hov, Z.ltb_antisym, <- negb_andb. unfold m in Hr |- *.
  destruct ((off <=? i_size ip) && (off + n <? 2 ^ 32)) eqn:E; cbn [negb].
  - apply andb_true_iff in E as [Hle%Z.leb_le Hlt%Z.ltb_lt].
    assert (u32 (off + n) = off + n) as -> by (apply Z.mod_small; lia).
    assert ((if i_size ip <? off + n then i_size ip - off else n) = Z.min n (i_size ip - off)) as ->.
    { destruct (Z.ltb_spec (i_size ip) (off + n)); lia. }
    set (k := Z.min n (i_size ip - off)) in *.
    destruct (readi_loop_spec (S (S (Z.to_nat (k / BSIZE)))) L s v B T i ip dst addr off k 0 r0 c h)
      as (dst' & s' & Hl & Hs' & Hd); try done; try lia.
    + intros Hk. pose proof (Z.mod_pos_bound off BSIZE ltac:(done)).
      unfold BSIZE in *. Z.to_euclidean_division_equations. lia.
    + by rewrite Z.sub_0_r.
    + rewrite Z.sub_0_r in Hd. by exists dst', s'.
  - exists dst, s. split; [done|]. split; [done|]. split; [done|]. split; [done|]. split; [|done].
    by eapply any_read_zero.
Qed.

(** ** Writing *)

(** [f] with the bytes [bs] at [off]. *)
Definition overlay (f : Z -> Z) (off : Z) (bs : list Z) (o : Z) : Z :=
  if decide (off <= o < off + Z.of_nat (length bs)) then get8 bs (o - off) else f o.

Lemma overlay_app f off xs ys o :
  overlay (overlay f off xs) (off + Z.of_nat (length xs)) ys o = overlay f off (xs ++ ys) o.
Proof.
  unfold overlay, get8, zget. rewrite length_app. repeat case_decide; try done; try lia.
  - rewrite lookup_app_r by lia. do 2 f_equal. lia.
  - by rewrite lookup_app_l by lia.
Qed.

Lemma overlay_nil f off o : overlay f off [] o = f o.
Proof. unfold overlay. cbn. by rewrite decide_False by lia. Qed.

(** A write within one block of the file. *)
Lemma evolves_write B v ip off bs :
  (forall b, block_ok (contents v b)) -> fs_wf v B -> inode_wf v B ip ->
  let b := slot v ip (off / BSIZE) in
  0 <= off / BSIZE < MAXFILE -> b <> 0 -> off mod BSIZE + Z.of_nat (length bs) <= BSIZE ->
  evolves B v ip (wrote v b (splice (contents v b) (off mod BSIZE) bs)) ip
    (overlay (fbyte v ip) off bs).
Proof.
  intros Hok Hf Hw b Hbn Hb Hfit. set (v' := wrote _ _ _).
  pose proof (wf_layout _ _ Hf) as Hl. pose proof (data_start_pos B Hl). pose proof (bmapstart_pos B Hl).
  destruct (inode_slot _ _ _ Hw (off / BSIZE) ltac:(lia) Hb) as [Hbd Hbu]. fold b in Hbd, Hbu.
  assert (forall k, 0 <= k <= MAXFILE -> k <> off / BSIZE -> slot v ip k <> 0 ->
            contents v' (slot v ip k) = contents v (slot v ip k)) as Hother.
  { intros k Hk Hne Hn. unfold v'. rewrite contents_wrote, decide_False; [done|]. intros E.
    apply Hne. by apply (inode_inj _ _ _ Hw); [|lia|..]. }
  assert (forall k, slot v' ip k = slot v ip k) as Hslot.
  { intros k. unfold slot. destruct (k =? MAXFILE); [done|]. destruct (k <? NDIRECT); [done|].
    destruct (Z.eqb_spec (get_addr ip NDIRECT) 0) as [|Hn]; [done|].
    pose proof (Hother MAXFILE ltac:(done) ltac:(lia) Hn) as E.
    change (slot v ip MAXFILE) with (get_addr ip NDIRECT) in E. by rewrite E. }
  assert (forall c, 0 <= c < sb_size B -> used v' B c = used v B c) as Hused.
  { intros c Hc. apply used_wrote; [done|done|lia]. }
  assert (forall c, owns v' ip c <-> owns v ip c) as Howns.
  { intros c. unfold owns. by setoid_rewrite Hslot. }
  split; try done.
  - split; [done|]. intros c Hc. rewrite Hused; [by apply (wf_meta _ _ Hf)|].
    pose proof (layout_data _ Hl). lia.
  - split; [apply Hw| |].
    + intros k Hk. rewrite Hslot. intros Hn. destruct (inode_slot _ _ _ Hw k Hk Hn).
      rewrite Hused by lia. done.
    + intros j k Hj Hk. rewrite !Hslot. by apply (inode_inj _ _ _ Hw).
  - by destruct ip.
  - intros o Ho. unfold fbyte at 1, overlay. rewrite Hslot.
    pose proof (Z.mod_pos_bound off BSIZE ltac:(done)) as Hm0.
    pose proof (Z.mod_pos_bound o BSIZE ltac:(done)) as Hm1.
    assert (0 <= o / BSIZE < MAXFILE) as Hob
      by (unfold BSIZE in *; Z.to_euclidean_division_equations; lia).
    destruct (Z.eq_dec (o / BSIZE) (off / BSIZE)) as [E|E].
    + rewrite E. fold b. rewrite (proj2 (Z.eqb_neq b 0) Hb). unfold v'.
      rewrite contents_wrote, decide_True by done. destruct (Hok b) as [Hlen _].
      rewrite get8_splice by lia. assert (o - off = o mod BSIZE - off mod BSIZE) as Hd.
      { unfold BSIZE in *. Z.to_euclidean_division_equations. lia. }
      rewrite <- Hd. destruct (decide (off <= o < off + Z.of_nat (length bs))).
      * by rewrite decide_True by lia.
      * rewrite decide_False by lia. unfold fbyte. rewrite E. fold b.
        by rewrite (proj2 (Z.eqb_neq b 0) Hb).
    + rewrite decide_False.
      2: { intros Hin. apply E. unfold BSIZE in *. Z.to_euclidean_division_equations. lia. }
      unfold fbyte. destruct (Z.eqb_spec (slot v ip (o / BSIZE)) 0) as [|Hn]; [done|].
      rewrite Hother by (done || lia). done.
  - intros c Hc. left. by apply Howns.
  - intros c Hc. rewrite Hused, Howns by done. split; [by left|].
    intros [|Hc']; [done|]. by apply (owns_data v B ip).
  - intros c Hc. unfold v'. rewrite contents_wrote, decide_False; [done|]. intros ->.
    destruct Hc as [|(_ & _ & Hno)]; [lia|]. apply Hno, slot_owns; [lia|done].
Qed.

(** One iteration of [writei] after [bmap]: the block is read, changed, logged and
    released; a block that is logged already needs no room. *)
Lemma write_block L s v B T b m h :
  fs_is s v B T -> held v = ∅ ->
  (room L m (S h) v /\ b ∈ logged v) \/ room L (S m) (S h) v ->
  exists bp s1, on_store (bread ROOTDEV b) s = Ok bp s1 /\
    on_store (bdata bp) s1 = Ok (contents v b) s1 /\
    forall d, block_ok d -> room L m (S h) (wrote v b d) /\ exists s2 s3 s4,
      on_store (bset bp d) s1 = Ok tt s2 /\ on_store (log_write bp) s2 = Ok tt s3 /\
      on_store (brelse bp) s3 = Ok tt s4 /\ fs_is s4 (wrote v b d) B T.
Proof.
  intros Hs Hh Hroom.
  assert (exists m', room L m' (S h) v /\ loggable L m' v b /\ forall d, room L m (S h) (wrote v b d))
    as (m' & Hr & Hlog & Hafter).
  { destruct Hroom as [[Hr Hin]|Hr].
    - exists m. split; [done|]. split; [left; set_solver + Hin|]. intros d.
      apply room_wrote; [done|set_solver + Hin].
    - exists (S m). split; [done|]. split; [right; lia|]. intros d. by apply room_wrote_new. }
  destruct (run_bread1 s v B T b L m' h Hs Hh Hr) as (bp & s1 & Hb & Hs1).
  exists bp, s1. split; [done|].
  split; [exact (run_bdata _ _ _ _ _ _ Hs1 (lookup_singleton_eq _ _))|].
  intros d Hd. split; [done|]. by apply (run_modify1 s1 v B T bp b d L m' (S h)).
Qed.

Definition write_result (L : gset Z) (c h : nat) v B T i ip off bs (w : Z) (s' : @fstate St) : Prop :=
  exists v' ip', fs_is s' v' B (tset T i ip') /\ room L c h v' /\
    evolves B v ip v' ip' (overlay (fbyte v ip) off (take (Z.to_nat w) bs)) /\
    (0 < w -> forall bn, off / BSIZE <= bn -> bn * BSIZE < off + w -> slot v' ip' bn <> 0) /\
    (w < Z.of_nat (length bs) -> forall b, 0 <= b < sb_size B -> used v' B b = true).

(** A chunk and the rest. *)
Lemma write_result_app L c h v B T i ip v1 ip1 off xs ys w s' :
  zget T i = Some ip -> 0 <= w -> 0 < Z.of_nat (length xs) ->
  off mod BSIZE + Z.of_nat (length xs) <= BSIZE ->
  (ys <> [] -> (off + Z.of_nat (length xs)) mod BSIZE = 0) ->
  0 <= off / BSIZE < MAXFILE -> off + Z.of_nat (length xs) + Z.of_nat (length ys) <= MAXFILE * BSIZE ->
  w <= Z.of_nat (length ys) ->
  evolves B v ip v1 ip1 (overlay (fbyte v ip) off xs) -> slot v1 ip1 (off / BSIZE) <> 0 ->
  write_result L c h v1 B (tset T i ip1) i ip1 (off + Z.of_nat (length xs)) ys w s' ->
  write_result L c h v B T i ip off (xs ++ ys) (Z.of_nat (length xs) + w) s'.
Proof.
  intros Hi Hw0 Hxs Hfit Hal Hbn Hend Hwy Hev Hsl (v' & ip' & Hs' & Hroom & Hev' & Hslots & Hfull).
  exists v', ip'. rewrite tset_tset in Hs'. split; [done|]. split; [done|]. split; [|split].
  - eapply evolves_ext; [by eapply evolves_trans|]. intros o Ho. cbn beta.
    replace (Z.to_nat (Z.of_nat (length xs) + w)) with (length xs + Z.to_nat w)%nat by lia.
    rewrite take_app_add. rewrite <- overlay_app. unfold overlay at 1 2. case_decide; [done|].
    by apply (grows_bytes _ _ _ _ _ _ Hev).
  - intros _ bn Hlo Hhi. destruct (Z.eq_dec bn (off / BSIZE)) as [->|Hne].
    + by rewrite (grows_slot _ _ _ _ _ _ Hev') by (done || lia).
    + destruct (decide (ys = [])) as [->|Hys].
      { exfalso. cbn in Hwy. unfold BSIZE in *. Z.to_euclidean_division_equations. lia. }
      specialize (Hal Hys). apply Hslots; [| |lia];
        unfold BSIZE in *; Z.to_euclidean_division_equations; lia.
  - rewrite length_app. intros Hlt. apply Hfull. lia.
Qed.

(** The chunk written after [bmap] gave a block. *)
Lemma write_chunk L s v B T i ip v1 ip1 off xs m h :
  fs_is s v1 B (tset T i ip1) -> held v1 = ∅ -> grows B v ip v1 ip1 ->
  (room L m (S h) v1 /\ slot v1 ip1 (off / BSIZE) ∈ logged v1) \/ room L (S m) (S h) v1 ->
  slot v1 ip1 (off / BSIZE) <> 0 -> 0 <= off / BSIZE < MAXFILE ->
  off mod BSIZE + Z.of_nat (length xs) <= BSIZE -> Forall (fun x => 0 <= x < 256) xs ->
  exists bp s1 d s2 s3 s4 v2, on_store (bread ROOTDEV (slot v1 ip1 (off / BSIZE))) s = Ok bp s1 /\
    on_store (bdata bp) s1 = Ok d s1 /\
    on_store (bset bp (splice d (off mod BSIZE) xs)) s1 = Ok tt s2 /\
    on_store (log_write bp) s2 = Ok tt s3 /\ on_store (brelse bp) s3 = Ok tt s4 /\
    fs_is s4 v2 B (tset T i ip1) /\ room L m (S h) v2 /\ held v2 = ∅ /\
    evolves B v ip v2 ip1 (overlay (fbyte v ip) off xs) /\ slot v2 ip1 (off / BSIZE) <> 0.
Proof.
  intros Hs Hh Hg Hroom Hn Hbn Hfit Hxs. pose proof (Z.mod_pos_bound off BSIZE ltac:(done)).
  assert (forall c, block_ok (contents v1 c)) as Hok by (intros c; by eapply fs_is_ok).
  destruct (write_block L s v1 B (tset T i ip1) (slot v1 ip1 (off / BSIZE)) m h Hs Hh Hroom)
    as (bp & s1 & Hb & Hd & Hw).
  set (d := contents v1 (slot v1 ip1 (off / BSIZE))) in *.
  destruct (Hw (splice d (off mod BSIZE) xs)) as (Hroom2 & s2 & s3 & s4 & Hset & Hlw & Hrel & Hs4).
  { apply splice_ok; (done || lia || apply Hok). }
  pose proof (evolves_write B v1 ip1 off xs Hok (grows_wf _ _ _ _ _ _ Hg) (grows_inode _ _ _ _ _ _ Hg)
                Hbn Hn Hfit) as Hev. cbn zeta in Hev. fold d in Hev.
  eexists bp, s1, d, s2, s3, s4, _. split_and!; try done.
  - eapply evolves_ext; [by eapply evolves_trans|]. intros o Ho. unfold overlay.
    case_decide; [done|]. by apply (grows_bytes _ _ _ _ _ _ Hg).
  - rewrite (grows_slot _ _ _ _ _ _ Hev); (done || lia).
Qed.

(** The loop when all is written. *)
Lemma writei_done k L s v B T i ip src addr off n bs q c h :
  fs_is s v B T -> fs_wf v B -> inode_wf v B ip -> room L (q + c) h v ->
  zget T i = Some ip -> any_read (U := U) src addr 0 = Some bs ->
  exists w s', 0 <= w <= n - n /\
    writei_loop k i src addr off n n s = Ok (n + w, off + w) s' /\
    write_result L c h v B T i ip off bs w s'.
Proof.
  intros Hs Hf Hw Hroom Hi Hrd. exists 0, s. split; [lia|].
  split; [rewrite !Z.add_0_r; destruct k; cbn [writei_loop]; [done|by rewrite Z.ltb_irrefl]|].
  pose proof (any_read_length src addr 0 bs ltac:(done) Hrd) as Hl. destruct bs; [|done].
  exists v, ip. rewrite tset_id by done. split; [done|]. split; [eapply room_le; [done|lia|done]|].
  split; [|split; [lia|cbn; lia]].
  eapply evolves_ext; [by apply grows_refl|]. intros o Ho. by rewrite overlay_nil.
Qed.

(** One iteration that got a block, followed by the rest [ys]. *)
Lemma writei_step k L s v B T i ip src addr off n tot xs ys s1 v1 ip1 q c h :
  zget T i = Some ip -> i_dev ip = ROOTDEV -> 0 <= off / BSIZE < MAXFILE -> tot < n ->
  let m := Z.min (n - tot) (BSIZE - off mod BSIZE) in
  any_read (U := U) src addr m = Some xs -> Z.of_nat (length ys) = n - tot - m ->
  off + (n - tot) <= MAXFILE * BSIZE ->
  Forall (fun x => 0 <= x < 256) xs -> held v = ∅ ->
  fs_is s1 v1 B (tset T i ip1) -> grows B v ip v1 ip1 ->
  (room L q (S (S h)) v1 /\ slot v1 ip1 (off / BSIZE) ∈ logged v1) \/ room L (S q) (S (S h)) v1 ->
  slot v1 ip1 (off / BSIZE) <> 0 ->
  bmap i (off / BSIZE) s = Ok (slot v1 ip1 (off / BSIZE)) s1 ->
  (forall s2 v2, fs_is s2 v2 B (tset T i ip1) -> fs_wf v2 B -> inode_wf v2 B ip1 -> held v2 = ∅ ->
     room L q (S (S h)) v2 -> i_dev ip1 = ROOTDEV ->
     (tot + m < n -> (off + m) mod BSIZE = 0) ->
     exists w s', 0 <= w <= n - (tot + m) /\
       writei_loop k i src (addr + m) (off + m) n (tot + m) s2 = Ok (tot + m + w, off + m + w) s' /\
       write_result L c (S (S h)) v2 B (tset T i ip1) i ip1 (off + m) ys w s') ->
  exists w s', 0 <= w <= n - tot /\
    writei_loop (S k) i src addr off n tot s = Ok (tot + w, off + w) s' /\
    write_result L c (S (S h)) v B T i ip off (xs ++ ys) w s'.
Proof.
  intros Hi Hdev Hbn Hlt m Hxs Hly Hend Hbx Hh Hs1 Hg Hr1 Hn1 Hbm Hnext.
  pose proof (Z.mod_pos_bound off BSIZE ltac:(done)) as Hmod.
  assert (Z.of_nat (length xs) = m) as Hlx by (apply (any_read_length src addr); (done || lia)).
  assert (tot + m < n -> (off + m) mod BSIZE = 0) as Hal.
  { intros Hlt'. assert (m = BSIZE - off mod BSIZE) as -> by lia.
    unfold BSIZE in *. Z.to_euclidean_division_equations. lia. }
  cbn [writei_loop]. rewrite (proj2 (Z.ltb_lt tot n)) by lia.
  rewrite (kbind_Ok _ _ _ _ _ Hbm), (proj2 (Z.eqb_neq _ 0) Hn1).
  pose proof (zget_tset_eq T i ip1 ip Hi) as Hi1.
  rewrite (kbind_Ok _ _ _ _ _ (run_get_inode _ _ _ _ _ _ Hs1 Hi1)).
  assert (i_dev ip1 = ROOTDEV) as Hdev1 by (by rewrite (grows_meta _ _ _ _ _ _ Hg)).
  rewrite Hdev1. fold m. rewrite (either_copyin_ok _ _ _ _ Hxs).
  destruct (write_chunk L s1 v B T i ip v1 ip1 off xs q (S h))
    as (bp & s2 & d & s3 & s4 & s5 & v2 & E1 & E2 & E3 & E4 & E5 & Hs5 & Hroom5 & Hh5 & Hev & Hn5);
    try done; [by rewrite (grows_held _ _ _ _ _ _ Hg)|lia|].
  rewrite (kbind_Ok _ _ _ _ _ E1), (kbind_Ok _ _ _ _ _ E2), (kbind_Ok _ _ _ _ _ E3),
    (kbind_Ok _ _ _ _ _ E4), (kbind_Ok _ _ _ _ _ E5).
  destruct (Hnext s5 v2) as (w & s6 & Hw6 & Hl6 & Hr6); try done; [apply Hev..|].
  exists (m + w), s6. split; [lia|]. split; [rewrite Hl6; f_equal; f_equal; lia|].
  rewrite <- Hlx in Hr6 |- *.
  apply (write_result_app L c (S (S h)) v B T i ip v2 ip1 off xs ys w s6); try done; try lia.
  intros Hne. rewrite Hlx. apply Hal. destruct ys; [done|]. cbn in Hly. lia.
Qed.

Lemma writei_loop_spec k q L s v B T i ip src addr off n tot bs c h :
  fs_is s v B T -> fs_wf v B -> inode_wf v B ip -> held v = ∅ ->
  room L (2 * q + c) (S (S h)) v -> bitmap B ⊆ L -> zget T i = Some ip -> i_dev ip = ROOTDEV ->
  0 <= off -> 0 <= tot <= n -> off + (n - tot) <= MAXFILE * BSIZE -> (q <= k)%nat ->
  (tot < n -> n - tot + off mod BSIZE <= Z.of_nat q * BSIZE) ->
  any_wf src -> any_read (U := U) src addr (n - tot) = Some bs -> Forall (fun x => 0 <= x < 256) bs ->
  exists w s', 0 <= w <= n - tot /\
    writei_loop k i src addr off n tot s = Ok (tot + w, off + w) s' /\
    write_result L c (S (S h)) v B T i ip off bs w s'.
Proof.
  revert q s v T ip addr off tot bs.
  induction k as [|k IH];
    intros q s v T ip addr off tot bs Hs Hf Hw Hh Hroom HL Hi Hdev Hoff Htot Hend Hqk Hq Hsw Hrd Hbs;
    (destruct (decide (tot = n)) as [->|Hne];
      [rewrite Z.sub_diag in Hrd; by apply (writei_done _ L s v B T i ip src addr off n bs (2 * q) c)|]);
    pose proof (Z.mod_pos_bound off BSIZE ltac:(done)) as Hmod;
    (destruct q as [|q]; [lia|]); [lia|].
  assert (0 <= off / BSIZE < MAXFILE) as Hbn.
  { unfold BSIZE in *. Z.to_euclidean_division_equations. lia. }
  replace (2 * S q + c)%nat with (S (S (2 * q + c))) in Hroom by lia.
  pose proof (bmap_spec L s v B T i ip (off / BSIZE) (2 * q + c) h Hs Hf Hw Hh Hroom HL Hi Hdev Hbn) as Hb.
  set (m := Z.min (n - tot) (BSIZE - off mod BSIZE)).
  replace (n - tot) with (m + (n - tot - m)) in Hrd by lia.
  rewrite any_read_app in Hrd by (done || lia).
  destruct (any_read src addr m) as [xs|] eqn:Hxs; [|done]. cbn in Hrd.
  destruct (any_read src (addr + m) (n - tot - m)) as [ys|] eqn:Hys; [|done].
  injection Hrd as <-. apply Forall_app in Hbs as [Hbx Hby].
  assert (Z.of_nat (length ys) = n - tot - m) as Hly
    by (apply (any_read_length src (addr + m)); (done || lia)).
  assert (forall s2 v2 ip1, zget (tset T i ip1) i = Some ip1 ->
     fs_is s2 v2 B (tset T i ip1) -> fs_wf v2 B -> inode_wf v2 B ip1 -> held v2 = ∅ ->
     room L (2 * q + c) (S (S h)) v2 -> i_dev ip1 = ROOTDEV ->
     (tot + m < n -> (off + m) mod BSIZE = 0) ->
     exists w s', 0 <= w <= n - (tot + m) /\
       writei_loop k i src (addr + m) (off + m) n (tot + m) s2 = Ok (tot + m + w, off + m + w) s' /\
       write_result L c (S (S h)) v2 B (tset T i ip1) i ip1 (off + m) ys w s') as Hnext.
  { intros s2 v2 ip1 Hi1 Hs2 Hf2 Hw2 Hh2 Hroom2 Hdev1 Hal.
    apply (IH q); try done; try lia.
    replace (n - (tot + m)) with (n - tot - m) by lia. done. }
  inversion Hb as [s1 Hn Hs1 E|v1 ip1 s1 Hz Hn Hlog Hg Hr1 Hs1 E|v1 ip1 s1 Hz Hn Hg Hfull Hr1 Hs1 E].
  - apply (writei_step k L s v B T i ip src addr off n tot xs ys s1 v ip (2 * q + c));
      try done; [lia|by rewrite tset_id|by apply grows_refl| |].
    + right. eapply room_le; [done|lia|done].
    + intros. eapply Hnext; try done. by eapply zget_tset_eq.
  - apply (writei_step k L s v B T i ip src addr off n tot xs ys s1 v1 ip1 (2 * q + c));
      try done; [lia|by left|]. intros. eapply Hnext; try done. by eapply zget_tset_eq.
  - cbn [writei_loop]. rewrite (proj2 (Z.ltb_lt tot n)) by lia.
    rewrite (kbind_Ok _ _ _ _ _ (eq_sym E)). cbn [Z.eqb]. exists 0, s1. split; [lia|].
    rewrite !Z.add_0_r. split; [done|]. exists v1, ip1. split; [done|].
    split; [eapply room_le; [done|lia|done]|]. split; [|split; [lia|done]].
    eapply evolves_ext; [done|]. intros o Ho. by rewrite overlay_nil.
Qed.

(** ** The inode block after the data *)

(** Writing a block before the bitmap changes no file. *)
Lemma inode_block_frame v B jp b d :
  fs_wf v B -> inode_wf v B jp -> b < bmapstart B ->
  let v' := wrote v b d in
  fs_wf v' B /\ inode_wf v' B jp /\ (forall k, slot v' jp k = slot v jp k) /\
  (forall c, 0 <= c < sb_size B -> used v' B c = used v B c) /\
  forall off, 0 <= off < MAXFILE * BSIZE -> fbyte v' jp off = fbyte v jp off.
Proof.
  intros Hf Hw Hb v'. pose proof (wf_layout _ _ Hf) as Hl. pose proof (data_start_pos B Hl).
  assert (forall c, data_start B <= c -> contents v' c = contents v c) as Hc.
  { intros c Hc. unfold v'. rewrite contents_wrote. by rewrite decide_False by lia. }
  assert (forall k, slot v' jp k = slot v jp k) as Hslot.
  { intros k. unfold slot. destruct (k =? MAXFILE); [done|]. destruct (k <? NDIRECT); [done|].
    destruct (Z.eqb_spec (get_addr jp NDIRECT) 0) as [|Hn]; [done|].
    destruct (inode_slot _ _ _ Hw MAXFILE ltac:(done) Hn) as [Hd _]. by rewrite Hc by apply Hd. }
  assert (forall c, 0 <= c < sb_size B -> used v' B c = used v B c) as Hused
    by (intros c Hcs; apply used_wrote; (done || lia)).
  pose proof (bmapstart_pos B Hl). pose proof (layout_data _ Hl). split_and!; try done.
  - split; [done|]. intros c Hcs. rewrite Hused by lia. by apply (wf_meta _ _ Hf).
  - split; [apply Hw| |].
    + intros k Hk. rewrite Hslot. intros Hn. destruct (inode_slot _ _ _ Hw k Hk Hn).
      by rewrite Hused by lia.
    + intros j k. rewrite !Hslot. apply (inode_inj _ _ _ Hw).
  - intros off Ho. unfold fbyte. rewrite Hslot.
    destruct (Z.eqb_spec (slot v jp (off / BSIZE)) 0) as [|Hn]; [done|].
    assert (0 <= off / BSIZE <= MAXFILE) as Hob
      by (unfold BSIZE in *; Z.to_euclidean_division_equations; lia).
    destruct (inode_slot _ _ _ Hw _ Hob Hn) as [Hd _]. by rewrite Hc by lia.
Qed.

Lemma inode_wf_size v B ip n : inode_wf v B ip -> inode_wf v B (with_size ip n).
Proof. by intros [? ? ?]. Qed.

(** The block numbers of an inode fit their fields. *)
Lemma addrs_ok v B ip : fs_wf v B -> inode_wf v B ip -> Forall (fun a => 0 <= a < 2 ^ 32) (addrs ip).
Proof.
  intros Hf Hw. pose proof (wf_layout _ _ Hf) as Hl. pose proof (data_start_pos B Hl).
  pose proof (bmapstart_pos B Hl). pose proof (layout_size _ Hl).
  apply Forall_lookup. intros j a Ha. pose proof (lookup_lt_Some _ _ _ Ha) as Hj.
  rewrite (inode_addrs _ _ _ Hw) in Hj.
  assert (get_addr ip (Z.of_nat j) = a) as Hg.
  { unfold get_addr, zget. rewrite decide_True by lia. by rewrite Nat2Z.id, Ha. }
  destruct (decide (a = 0)) as [->|Hn]; [lia|].
  assert (exists k, 0 <= k <= MAXFILE /\ slot v ip k = a) as (k & Hk & Hs).
  { destruct (decide (j = 12%nat)) as [->|Hne].
    - by exists MAXFILE.
    - exists (Z.of_nat j). pose proof ndirect_lt. unfold NDIRECT in *. split; [lia|].
      rewrite slot_direct; [done|]. unfold NDIRECT. lia. }
  rewrite <- Hs in Hn |- *. destruct (inode_slot _ _ _ Hw k Hk Hn). lia.
Qed.

Lemma dinode_ok_update ip l n :
  dinode_ok ip -> length l = 13%nat -> Forall (fun a => 0 <= a < 2 ^ 32) l -> 0 <= n < 2 ^ 32 ->
  dinode_ok (with_size (with_addrs ip l) n).
Proof. unfold dinode_ok. cbn. tauto. Qed.

(** What a write of the bytes [bs] at [off] leaves, on disk and in memory. *)
Record file_written B v ip v' ip' (off : Z) (bs : list Z) : Prop := {
  written_wf : fs_wf v' B;
  written_inode : inode_wf v' B ip';
  written_filled : filled v' ip';
  written_meta : ip' = with_size (with_addrs ip (addrs ip'))
                         (Z.max (i_size ip) (off + Z.of_nat (length bs)));
  written_bytes : forall o, 0 <= o < MAXFILE * BSIZE ->
    fbyte v' ip' o = overlay (fbyte v ip) off bs o;
  written_disk : forall n jp, 0 <= n < ninodes B ->
    if decide (n = inum ip) then same_dinode (disk_inode v' B n jp) ip'
    else disk_inode v' B n jp = disk_inode v B n jp;
  written_used : forall c, 0 <= c < sb_size B ->
    (used v' B c = true <-> used v B c = true \/ owns v' ip' c);
  written_frame : forall c, data_start B <= c < sb_size B -> used v B c = true ->
    ~ owns v ip c -> contents v' c = contents v c /\ ~ owns v' ip' c;
  written_held : held v' = held v;
}.

Lemma written_by_loop B v ip v1 ip1 (off : Z) bs :
  (forall b, block_ok (contents v1 b)) -> dinode_ok ip -> 0 <= inum ip < ninodes B ->
  filled v ip -> 0 <= off <= i_size ip -> off + Z.of_nat (length bs) <= MAXFILE * BSIZE ->
  evolves B v ip v1 ip1 (overlay (fbyte v ip) off bs) ->
  (0 < Z.of_nat (length bs) -> forall bn, off / BSIZE <= bn -> bn * BSIZE < off + Z.of_nat (length bs) ->
     slot v1 ip1 bn <> 0) ->
  let ip2 := if i_size ip1 <? off + Z.of_nat (length bs)
             then with_size ip1 (off + Z.of_nat (length bs)) else ip1 in
  file_written B v ip (updated v1 B ip2) ip2 off bs.
Proof.
  intros Hok Hdi Hin [Hsz Hfill] Hoff Hend G Hslots ip2.
  pose proof (grows_wf _ _ _ _ _ _ G) as Hf1. pose proof (wf_layout _ _ Hf1) as Hl.
  pose proof (grows_meta _ _ _ _ _ _ G) as Hmeta.
  assert (ip2 = with_size ip1 (Z.max (i_size ip) (off + Z.of_nat (length bs)))) as Hip2.
  { unfold ip2. rewrite Hmeta. cbn [i_size with_addrs].
    destruct (Z.ltb_spec (i_size ip) (off + Z.of_nat (length bs))) as [Hlt|Hge].
    - by rewrite Z.max_r by lia.
    - rewrite Z.max_l by lia. by destruct ip. }
  clearbody ip2. subst ip2. set (sz := Z.max _ _) in *. set (ip2 := with_size ip1 sz).
  assert (inode_wf v1 B ip2) as Hw2 by (apply inode_wf_size, G).
  assert (inum ip2 = inum ip) as Hinum by (unfold ip2; by rewrite Hmeta).
  assert (IBLOCK (inum ip2) B < bmapstart B) as Hib
    by (rewrite Hinum; apply (IBLOCK_meta B _ Hl Hin)).
  destruct (inode_block_frame v1 B ip2 _ (store_dinode (contents v1 (IBLOCK (inum ip2) B)) (dip_off (inum ip2)) ip2)
              Hf1 Hw2 Hib) as (Hf2 & Hw2' & Hslot2 & Hused2 & Hbyte2).
  fold (updated v1 B ip2) in Hf2, Hw2', Hslot2, Hused2, Hbyte2.
  change (slot v1 ip2) with (slot v1 ip1) in Hslot2. change (fbyte v1 ip2) with (fbyte v1 ip1) in Hbyte2.
  assert (forall c, owns (updated v1 B ip2) ip2 c <-> owns v1 ip1 c) as Howns2.
  { intros c. unfold owns. by setoid_rewrite Hslot2. }
  pose proof (data_start_pos B Hl). pose proof (bmapstart_pos B Hl).
  split; try done.
  - split; [cbn; lia|]. intros bn Hbn Hlt. rewrite Hslot2. cbn [i_size ip2 with_size] in Hlt.
    destruct (Z.lt_ge_cases (bn * BSIZE) (i_size ip)) as [Hlo|Hhi].
    + assert (bn <= MAXFILE) by (unfold BSIZE in *; lia).
      rewrite (grows_slot _ _ _ _ _ _ G) by (auto with lia). auto.
    + apply Hslots; [lia| |lia]. unfold BSIZE in *. Z.to_euclidean_division_equations. lia.
  - unfold ip2. rewrite Hmeta. done.
  - intros o Ho. rewrite Hbyte2 by done. by apply (grows_bytes _ _ _ _ _ _ G).
  - intros n jp Hn. assert (dinode_ok ip2) as Hdi2.
    { unfold ip2. rewrite Hmeta. apply dinode_ok_update; [done|apply G| |].
      - by eapply addrs_ok; apply G.
      - assert (MAXFILE * BSIZE < 2 ^ 32) by done. lia. }
    pose proof (disk_inode_updated v1 B ip2 n jp Hok Hdi2) as Hdu.
    rewrite Hinum in Hdu. destruct (decide (n = inum ip)) as [->|Hne]; [done|].
    rewrite Hdu. unfold disk_inode. rewrite (grows_frame _ _ _ _ _ _ G); [done|].
    left. apply (IBLOCK_meta B n Hl Hn).
  - intros c Hc. rewrite Hused2, Howns2 by done. by apply (grows_used _ _ _ _ _ _ G).
  - intros c Hc Hu Hno. split.
    + unfold updated. rewrite contents_wrote, decide_False by lia. apply (grows_frame _ _ _ _ _ _ G). by right.
    + rewrite Howns2. intros Ho. destruct (grows_own _ _ _ _ _ _ G c Ho); [done|congruence].
  - exact (grows_held _ _ _ _ _ _ G).
Qed.

(** The number of blocks a write touches. *)
Definition blocks_of (off n : Z) : nat := Z.to_nat ((off mod BSIZE + n + BSIZE - 1) / BSIZE).

(** The blocks a write logs besides the file's own. *)
Definition write_log B ip : gset Z := {[IBLOCK (inum ip) B]} ∪ bitmap B.

Lemma writei_spec s v B T i ip src addr off n bs c h :
  fs_is s v B T -> fs_wf v B -> inode_wf v B ip -> filled v ip -> dinode_ok ip ->
  0 <= inum ip < ninodes B -> held v = ∅ -> zget T i = Some ip -> i_dev ip = ROOTDEV ->
  0 <= off <= i_size ip -> 0 <= n -> off + n <= MAXFILE * BSIZE ->
  room (write_log B ip) (2 * blocks_of off n + c) (S (S h)) v ->
  any_wf src -> any_read src addr n = Some bs -> Forall (fun x => 0 <= x < 256) bs ->
  exists w s' v' ip', 0 <= w <= n /\ writei i src addr off n s = Ok w s' /\
    fs_is s' v' B (tset T i ip') /\ room (write_log B ip) c (S (S h)) v' /\
    file_written B v ip v' ip' off (take (Z.to_nat w) bs) /\
    (w < n -> forall b, 0 <= b < sb_size B -> used v' B b = true).
Proof.
  intros Hs Hf Hw Hfill Hdi Hin Hh Hi Hdev Hoff Hn Hend Hroom Hsw Hrd Hbs.
  pose proof (any_read_length src addr n bs Hn Hrd) as Hlen.
  assert (MAXFILE * BSIZE < 2 ^ 32) as Hmax by done.
  unfold writei. rewrite (kbind_Ok _ _ _ _ _ (run_get_inode _ _ _ _ _ _ Hs Hi)).
  assert (u32 (off + n) = off + n) as -> by (apply Z.mod_small; lia).
  rewrite (proj2 (Z.ltb_ge (i_size ip) off)), (proj2 (Z.ltb_ge (off + n) off)) by lia. cbn [orb].
  rewrite (proj2 (Z.ltb_ge (MAXFILE * BSIZE) (off + n))) by lia.
  destruct (writei_loop_spec (S (S (Z.to_nat (n / BSIZE)))) (blocks_of off n) (write_log B ip)
              s v B T i ip src addr off n 0 bs c h)
    as (w & s1 & Hw1 & Hloop & v1 & ip1 & Hs1 & Hroom1 & Hev & Hslots & Hfull);
    try done; try lia; rewrite ?Z.sub_0_r; try done.
  { unfold write_log. set_solver +. }
  { pose proof (Z.mod_pos_bound off BSIZE ltac:(done)). unfold blocks_of, BSIZE in *.
    Z.to_euclidean_division_equations. lia. }
  { intros _. pose proof (Z.mod_pos_bound off BSIZE ltac:(done)). unfold blocks_of, BSIZE in *.
    rewrite Z2Nat.id by (apply Z.div_pos; lia). Z.to_euclidean_division_equations. lia. }
  rewrite (kbind_Ok _ _ _ _ _ Hloop). cbn [fst snd].
  pose proof (zget_tset_eq T i ip1 ip Hi) as Hi1.
  destruct (run_update_inode s1 v1 B (tset T i ip1) i ip1
              (fun ip => if i_size ip <? off + w then with_size ip (off + w) else ip) Hs1 Hi1) as (s2 & Hu & Hs2).
  rewrite (kbind_Ok _ _ _ _ _ Hu). rewrite tset_tset in Hs2.
  set (ip2 := if i_size ip1 <? off + w then with_size ip1 (off + w) else ip1) in *.
  assert (inum ip2 = inum ip /\ i_dev ip2 = ROOTDEV) as [Hinum Hdev2].
  { unfold ip2. rewrite (grows_meta _ _ _ _ _ _ Hev). by split; [case (_ <? _)|case (_ <? _)]. }
  destruct (iupdate_spec (write_log B ip) s2 v1 B (tset T i ip2) i ip2 c (S h)) as (s3 & Hup & Hs3);
    try done.
  { apply (wf_layout _ _ (grows_wf _ _ _ _ _ _ Hev)). }
  { apply held_none. by rewrite (grows_held _ _ _ _ _ _ Hev). }
  { by eapply zget_tset_eq. }
  { by rewrite Hinum. }
  { left. rewrite Hinum. unfold write_log. set_solver +. }
  rewrite (kbind_Ok _ _ _ _ _ Hup).
  assert (Z.of_nat (length (take (Z.to_nat w) bs)) = w) as Hlw by (rewrite length_take; lia).
  exists w, s3, (updated v1 B ip2), ip2. split; [lia|]. split; [done|]. split; [done|]. split.
  { unfold updated. apply room_wrote; [done|]. rewrite Hinum. unfold write_log. set_solver +. }
  split.
  - pose proof (written_by_loop B v ip v1 ip1 off (take (Z.to_nat w) bs)) as Hwr. rewrite Hlw in Hwr.
    apply Hwr; try done; [intros b; by eapply fs_is_ok|lia].
  - intros Hlt b Hb.
    destruct (inode_block_frame v1 B ip2 (IBLOCK (inum ip2) B)
      (store_dinode (contents v1 (IBLOCK (inum ip2) B)) (dip_off (inum ip2)) ip2)) as (_ & _ & _ & Hus & _).
    + apply Hev.
    + unfold ip2. destruct (_ <? _); [apply inode_wf_size|]; apply Hev.
    + rewrite Hinum. by apply (IBLOCK_meta B _ (wf_layout _ _ Hf) Hin).
    + unfold updated. rewrite Hus by done. apply Hfull; [lia|done].
Qed.

(** Positions outside the limits are refused without an effect. *)
Lemma writei_refused s v B T i ip src addr off n :
  fs_is s v B T -> zget T i = Some ip -> 0 <= off < 2 ^ 32 -> 0 <= n < 2 ^ 32 ->
  i_size ip < off \/ 2 ^ 32 <= off + n \/ MAXFILE * BSIZE < off + n ->
  writei (U := U) i src addr off n s = Ok (-1) s.
Proof.
  intros Hs Hi Hoff Hn Hbad. unfold writei.
  rewrite (kbind_Ok _ _ _ _ _ (run_get_inode _ _ _ _ _ _ Hs Hi)). unfold u32.
  destruct (Z.ltb_spec (i_size ip) off); [done|].
  destruct (Z.ltb_spec ((off + n) mod 2 ^ 32) off) as [|Hge]; [done|]. cbn [orb].
  rewrite (proj2 (Z.ltb_lt _ _)); [done|].
  assert (off + n < 2 ^ 32) by (Z.to_euclidean_division_equations; lia).
  rewrite Z.mod_small by lia. lia.
Qed.
End Data.
