(* ===== verification/FsTrunc.v ===== *)
(** Freeing a file's blocks and its inode ([itrunc] and [iput] of [kernel/fs.c],
    modelled in [Fs]). *)

From stdpp Require Import functions.
From S2P Require Import Prelude Mem Sleeplock UserMem Block Bio BlockStore.
From S2P Require Import Fs FsBlocks FsInode FsFile FsData.

(** [v'] is [v] with exactly the blocks of [P] unmarked. *)
Record freed (B : superblock) (v v' : bview) (P : Z -> Prop) : Prop := {
  freed_wf : fs_wf v' B;
  freed_used : forall c, 0 <= c < sb_size B -> (used v' B c = true <-> used v B c = true /\ ~ P c);
  freed_data : forall c, c < bmapstart B \/ data_start B <= c -> contents v' c = contents v c;
  freed_held : held v' = held v;
}.

Section Freed.
Implicit Types (v : bview) (B : superblock) (ip : inode).

Lemma freed_none B v P : fs_wf v B -> (forall c, ~ P c) -> freed B v v P.
Proof. intros Hf HP. split; try done. intros c _. specialize (HP c). tauto. Qed.

Lemma freed_trans B v v' v'' P Q :
  freed B v v' P -> freed B v' v'' Q -> freed B v v'' (fun c => P c \/ Q c).
Proof.
  intros F G. split.
  - apply G.
  - intros c Hc. rewrite (freed_used _ _ _ _ G c Hc), (freed_used _ _ _ _ F c Hc). tauto.
  - intros c Hc. by rewrite (freed_data _ _ _ _ G c Hc), (freed_data _ _ _ _ F c Hc).
  - rewrite (freed_held _ _ _ _ G). apply F.
Qed.

Lemma freed_ext B v v' P Q :
  freed B v v' P -> (forall c, 0 <= c < sb_size B -> P c <-> Q c) -> freed B v v' Q.
Proof.
  intros F HPQ. split; try apply F. intros c Hc. rewrite (freed_used _ _ _ _ F c Hc).
  specialize (HPQ c Hc). tauto.
Qed.

Lemma freed_give B v b :
  (forall c, block_ok (contents v c)) -> fs_wf v B -> data_start B <= b < sb_size B ->
  freed B v (give_block v B b) (fun c => c = b).
Proof.
  intros Hok Hf Hb. pose proof (wf_layout _ _ Hf) as Hl. pose proof (data_start_pos B Hl).
  pose proof (bmapstart_pos B Hl). split; try done.
  - split; [done|]. intros c Hc. pose proof (layout_data _ Hl). rewrite used_give by (done || lia).
    rewrite decide_False by lia. by apply (wf_meta _ _ Hf).
  - intros c Hc. rewrite used_give by done. case_decide; naive_solver.
  - intros c Hc. unfold give_block. rewrite contents_wrote.
    pose proof (BBLOCK_meta B b Hl ltac:(lia)). by rewrite decide_False by lia.
Qed.

Lemma room_give L v B b n h :
  layout B -> room L n h v -> bitmap B ⊆ L -> 0 <= b < sb_size B -> room L n h (give_block v B b).
Proof.
  intros Hl Hroom HL Hb. apply room_wrote; [done|]. pose proof (BBLOCK_bitmap B b Hl Hb). set_solver.
Qed.
End Freed.

Section Trunc.
Context {St : Type} `{BlockStoreLaws St}.
Implicit Types (v : bview) (B : superblock) (T : list inode) (ip : inode) (s : @fstate St).

(** [bfree] in the terms above. *)
Lemma bfree_freed L s v B T b n h :
  fs_is s v B T -> fs_wf v B -> held_data v B -> room L n (S h) v -> bitmap B ⊆ L ->
  data_start B <= b < sb_size B -> used v B b = true ->
  exists s' v', bfree ROOTDEV b s = Ok tt s' /\ fs_is s' v' B T /\ room L n (S h) v' /\
    freed B v v' (fun c => c = b).
Proof.
  intros Hs Hf Hh Hroom HL Hb Hu. pose proof (wf_layout _ _ Hf) as Hl.
  pose proof (data_start_pos B Hl). pose proof (bmapstart_pos B Hl).
  destruct (bfree_spec L s v B T b n h Hs Hf Hh Hroom) as (s' & Hr & Hs'); try done.
  { apply HL, BBLOCK_bitmap; (done || lia). }
  exists s', (give_block v B b). split; [done|]. split; [done|]. split.
  - apply room_give; (done || lia).
  - apply freed_give; try done. intros c. by eapply fs_is_ok.
Qed.

(** The entries from [j] to [j + k - 1] name distinct allocated data blocks. *)
Definition distinct_blocks v B (e : Z -> Z) (j : Z) (k : nat) : Prop :=
  (forall m, j <= m < j + Z.of_nat k -> e m <> 0 ->
     data_start B <= e m < sb_size B /\ used v B (e m) = true) /\
  (forall m m', j <= m < j + Z.of_nat k -> j <= m' < j + Z.of_nat k ->
     e m <> 0 -> e m = e m' -> m = m').

Definition entries (e : Z -> Z) (j : Z) (k : nat) (c : Z) : Prop :=
  c <> 0 /\ exists m, j <= m < j + Z.of_nat k /\ e m = c.

Lemma distinct_next v B v' e j k :
  distinct_blocks v B e j (S k) -> freed B v v' (fun c => c = e j) \/ (e j = 0 /\ v' = v) ->
  layout B -> distinct_blocks v' B e (j + 1) k.
Proof.
  intros [Hd Hi] Hfr Hl. pose proof (data_start_pos B Hl). pose proof (bmapstart_pos B Hl). split.
  - intros m Hm Hn. destruct (Hd m ltac:(lia) Hn) as [Hb Hu]. split; [done|].
    destruct Hfr as [F|[_ ->]]; [|done]. apply (freed_used _ _ _ _ F); [lia|]. split; [done|].
    intros E. apply Hi in E; lia.
  - intros m m' Hm Hm'. apply Hi; lia.
Qed.

Lemma entries_next e j k c :
  (e j <> 0 /\ c = e j) \/ entries e (j + 1) k c <-> entries e j (S k) c.
Proof.
  unfold entries. split.
  - intros [[Hn ->]|(Hn & m & Hm & E)]; [split; [done|]; exists j; split; [lia|done]|].
    split; [done|]. exists m. split; [lia|done].
  - intros (Hn & m & Hm & E). destruct (Z.eq_dec m j) as [->|]; [left; by subst|right].
    split; [done|]. exists m. split; [lia|done].
Qed.

Lemma distinct_ext v B e e' j k :
  distinct_blocks v B e j k -> (forall m, j <= m < j + Z.of_nat k -> e' m = e m) ->
  distinct_blocks v B e' j k.
Proof.
  intros [Hd Hi] Heq. split.
  - intros m Hm. rewrite Heq by done. by apply Hd.
  - intros m m' Hm Hm'. rewrite !Heq by done. by apply Hi.
Qed.

Lemma entries_ext e e' j k c :
  (forall m, j <= m < j + Z.of_nat k -> e m = e' m) -> entries e j k c <-> entries e' j k c.
Proof.
  intros Heq. unfold entries. split; intros (Hn & m & Hm & E); (split; [done|]); exists m;
    (split; [done|]); rewrite <- E; [symmetry|]; by apply Heq.
Qed.

Lemma put_addr_id ip j :
  length (addrs ip) = 13%nat -> 0 <= j < NDIRECT -> get_addr ip j = 0 -> put_addr ip j 0 = ip.
Proof.
  intros Hl Hj Hz. unfold NDIRECT in Hj. unfold put_addr. rewrite zset_in by lia. cbn.
  unfold get_addr in Hz. destruct (zget_is_Some (addrs ip) j ltac:(lia)) as [x Hx].
  rewrite Hx in Hz. cbn in Hz. subst x. apply zget_Some in Hx as [_ Hx].
  rewrite list_insert_id by done. by destruct ip.
Qed.

Lemma free_direct_spec k L s v B T i ip j n h :
  fs_is s v B T -> fs_wf v B -> held v = ∅ -> room L n (S h) v -> bitmap B ⊆ L ->
  zget T i = Some ip -> i_dev ip = ROOTDEV -> length (addrs ip) = 13%nat ->
  0 <= j -> j + Z.of_nat k <= NDIRECT -> distinct_blocks v B (get_addr ip) j k ->
  exists s' v' ip', free_direct k i j s = Ok tt s' /\ fs_is s' v' B (tset T i ip') /\
    room L n (S h) v' /\ freed B v v' (entries (get_addr ip) j k) /\
    ip' = with_addrs ip (addrs ip') /\ length (addrs ip') = 13%nat /\
    forall m, get_addr ip' m = if decide (j <= m < j + Z.of_nat k) then 0 else get_addr ip m.
Proof.
  revert s v T ip j. induction k as [|k IH];
    intros s v T ip j Hs Hf Hh Hroom HL Hi Hdev Hlen Hj Hjk Hdist; cbn [free_direct].
  { exists s, v, ip. rewrite tset_id by done. split; [done|]. split; [done|]. split; [done|].
    split; [apply freed_none; [done|]; unfold entries; intros c (_ & m & Hm & _); lia|].
    split; [by destruct ip|]. split; [done|]. intros m. by rewrite decide_False by lia. }
  pose proof (wf_layout _ _ Hf) as Hl.
  rewrite (kbind_Ok _ _ _ _ _ (run_get_inode _ _ _ _ _ _ Hs Hi)).
  assert (exists s1 v1 ip1,
    (if get_addr ip j =? 0 then kret tt
     else bfree (i_dev ip) (get_addr ip j) ;;; set_addr i j 0) s = Ok tt s1 /\
    fs_is s1 v1 B (tset T i ip1) /\ room L n (S h) v1 /\ fs_wf v1 B /\ held v1 = ∅ /\
    freed B v v1 (fun c => get_addr ip j <> 0 /\ c = get_addr ip j) /\
    distinct_blocks v1 B (get_addr ip) (j + 1) k /\ ip1 = put_addr ip j 0)
    as (s1 & v1 & ip1 & E & Hs1 & Hroom1 & Hf1 & Hh1 & Hfr & Hdist1 & ->).
  { destruct (Z.eqb_spec (get_addr ip j) 0) as [Hz|Hn].
    - exists s, v, (put_addr ip j 0). split; [done|]. split_and!; try done.
      + by rewrite put_addr_id, tset_id by (done || lia).
      + apply freed_none; tauto.
      + eapply distinct_next; [done|by right|done].
    - rewrite Hdev. destruct (proj1 Hdist j ltac:(lia) Hn) as [Hb Hu].
      destruct (bfree_freed L s v B T (get_addr ip j) n h) as (s1 & v1 & Hbf & Hs1 & Hr1 & Hfr1);
        try done; [by apply held_none|].
      destruct (run_set_addr s1 v1 B T i ip j 0 Hs1 Hi) as (s2 & Hset & Hs2).
      exists s2, v1, (put_addr ip j 0). rewrite (kbind_Ok _ _ _ _ _ Hbf). split_and!; try done.
      + apply Hfr1.
      + by rewrite (freed_held _ _ _ _ Hfr1).
      + eapply freed_ext; [done|]. naive_solver.
      + eapply distinct_next; [done|by left|done]. }
  rewrite (kbind_Ok _ _ _ _ _ E).
  assert (forall m, j + 1 <= m < j + 1 + Z.of_nat k ->
            get_addr (put_addr ip j 0) m = get_addr ip m) as Hext.
  { intros m Hm. rewrite get_put_addr by (done || lia). by rewrite decide_False by lia. }
  destruct (IH s1 v1 (tset T i (put_addr ip j 0)) (put_addr ip j 0) (j + 1))
    as (s2 & v2 & ip2 & E2 & Hs2 & Hroom2 & Hfr2 & Hm2 & Hl2 & Hg2);
    try done; try lia; [by eapply zget_tset_eq|by rewrite put_addr_length|by eapply distinct_ext|].
  exists s2, v2, ip2. rewrite tset_tset in Hs2. split; [done|]. split; [done|]. split; [done|]. split.
  { eapply freed_ext; [by eapply freed_trans|]. intros c _. cbn beta. rewrite <- entries_next.
    by rewrite (entries_ext _ (get_addr ip)). }
  split; [by rewrite Hm2|]. split; [done|]. intros m. rewrite Hg2.
  rewrite get_put_addr by (done || lia). repeat case_decide; (done || lia).
Qed.

Lemma free_indirect_spec k L s v B T bp a d j n h :
  fs_is s v B T -> fs_wf v B -> held v = {[bp := a]} -> held_data v B -> room L n (S h) v ->
  bitmap B ⊆ L -> contents v a = d -> 0 <= j ->
  let e m := get32 d (4 * m) in
  distinct_blocks v B e j k -> ~ entries e j k a ->
  exists s' v', free_indirect k ROOTDEV bp j s = Ok tt s' /\ fs_is s' v' B T /\
    room L n (S h) v' /\ freed B v v' (entries e j k).
Proof.
  intros Hs Hf Hh Hhd Hroom HL Hd Hj e. revert s v j Hs Hf Hh Hhd Hroom Hd Hj.
  induction k as [|k IH]; intros s v j Hs Hf Hh Hhd Hroom Hd Hj Hdist Ha; cbn [free_indirect].
  { exists s, v. split; [done|]. split; [done|]. split; [done|].
    apply freed_none; [done|]. intros c (_ & m & Hm & _). lia. }
  pose proof (wf_layout _ _ Hf) as Hl. pose proof (data_start_pos B Hl). pose proof (bmapstart_pos B Hl).
  assert (held v !! bp = Some a) as Hbp by (rewrite Hh; apply lookup_singleton_eq).
  destruct (Hhd _ _ Hbp) as [Had Hau].
  rewrite (kbind_Ok _ _ _ _ _ (run_bdata _ _ _ _ _ _ Hs Hbp)), Hd.
  change (get32 d (4 * j)) with (e j).
  assert (exists s1 v1, (if e j =? 0 then kret tt else bfree ROOTDEV (e j)) s = Ok tt s1 /\
    fs_is s1 v1 B T /\ room L n (S h) v1 /\ freed B v v1 (fun c => e j <> 0 /\ c = e j) /\
    distinct_blocks v1 B e (j + 1) k) as (s1 & v1 & E & Hs1 & Hroom1 & Hfr & Hdist1).
  { destruct (Z.eqb_spec (e j) 0) as [Hz|Hn].
    - exists s, v. split_and!; try done; [apply freed_none; tauto|].
      eapply distinct_next; [done|by right|done].
    - destruct (proj1 Hdist j ltac:(lia) Hn) as [Hb Hu].
      destruct (bfree_freed L s v B T (e j) n h) as (s1 & v1 & Hbf & Hs1 & Hr1 & Hfr1); try done.
      exists s1, v1. split_and!; try done.
      + eapply freed_ext; [done|]. naive_solver.
      + eapply distinct_next; [done|by left|done]. }
  rewrite (kbind_Ok _ _ _ _ _ E).
  assert (held_data v1 B) as Hhd1.
  { intros i c. rewrite (freed_held _ _ _ _ Hfr). intros Hi.
    destruct (Hhd _ _ Hi) as [Hc Hu]. split; [done|].
    rewrite Hh in Hi. apply lookup_singleton_Some in Hi as [_ <-].
    apply (freed_used _ _ _ _ Hfr); [lia|]. split; [done|]. intros [Hn ->].
    apply Ha, entries_next. by left. }
  destruct (IH s1 v1 (j + 1)) as (s2 & v2 & E2 & Hs2 & Hroom2 & Hfr2); try done; try lia.
  - apply Hfr.
  - by rewrite (freed_held _ _ _ _ Hfr).
  - rewrite (freed_data _ _ _ _ Hfr); [done|right; lia].
  - intros Ha'. apply Ha, entries_next. by right.
  - exists s2, v2. split; [done|]. split; [done|]. split; [done|].
    eapply freed_ext; [by eapply freed_trans|]. intros c _. apply entries_next.
Qed.

(** The blocks of the inode are distinct, direct and indirect ones. *)
Lemma distinct_direct v B ip :
  inode_wf v B ip -> distinct_blocks v B (get_addr ip) 0 (Z.to_nat NDIRECT).
Proof.
  intros Hw. pose proof ndirect_lt. split.
  - intros m Hm. rewrite Z2Nat.id in Hm by done. rewrite <- (slot_direct v) by lia.
    apply (inode_slot _ _ _ Hw). lia.
  - intros m m' Hm Hm'. rewrite Z2Nat.id in Hm, Hm' by done. rewrite <- !(slot_direct v) by lia.
    apply (inode_inj _ _ _ Hw); lia.
Qed.

Lemma slot_entry v ip m :
  get_addr ip NDIRECT <> 0 -> 0 <= m < NINDIRECT ->
  slot v ip (NDIRECT + m) = get32 (contents v (get_addr ip NDIRECT)) (4 * m).
Proof.
  intros Ha Hm. rewrite slot_indirect by (done || unfold MAXFILE; lia). do 2 f_equal. lia.
Qed.

(** Which blocks the inode owns. *)
Lemma owns_cases v ip c :
  owns v ip c <->
  entries (get_addr ip) 0 (Z.to_nat NDIRECT) c \/
  (get_addr ip NDIRECT <> 0 /\
     (c = get_addr ip NDIRECT \/
      entries (fun m => get32 (contents v (get_addr ip NDIRECT)) (4 * m)) 0 (Z.to_nat NINDIRECT) c)).
Proof.
  pose proof ndirect_lt as Hnd. unfold owns, entries. rewrite !Z2Nat.id by done. split.
  - intros (Hn & k & Hk & <-). destruct (Z.lt_ge_cases k NDIRECT) as [Hlt|Hge].
    + left. split; [done|]. exists k. split; [lia|]. by rewrite slot_direct by lia.
    + right. assert (get_addr ip NDIRECT <> 0) as Ha.
      { intros Ha. apply Hn. unfold slot. rewrite Ha. cbn [Z.eqb].
        rewrite (proj2 (Z.ltb_ge k NDIRECT)) by lia. by destruct (k =? MAXFILE). }
      split; [done|]. destruct (Z.eq_dec k MAXFILE) as [->|Hne]; [by left|right].
      split; [done|]. exists (k - NDIRECT). unfold MAXFILE in *. split; [lia|].
      rewrite <- slot_entry by (done || lia). f_equal. lia.
  - intros [(Hn & m & Hm & <-)|[Ha [->|(Hn & m & Hm & <-)]]].
    + split; [done|]. exists m. split; [lia|]. apply slot_direct. lia.
    + split; [done|]. by exists MAXFILE.
    + split; [done|]. exists (NDIRECT + m). unfold MAXFILE in *. split; [lia|].
      by rewrite slot_entry by (done || lia).
Qed.

(** The part of [itrunc] that frees the indirect block [a] and what it names. *)
Lemma free_indirect_block L s v B T i ip n h :
  fs_is s v B T -> fs_wf v B -> held v = ∅ -> room L n (S (S h)) v -> bitmap B ⊆ L ->
  zget T i = Some ip -> i_dev ip = ROOTDEV ->
  let a := get_addr ip NDIRECT in
  let e m := get32 (contents v a) (4 * m) in
  a <> 0 -> data_start B <= a < sb_size B -> used v B a = true ->
  distinct_blocks v B e 0 (Z.to_nat NINDIRECT) -> ~ entries e 0 (Z.to_nat NINDIRECT) a ->
  exists s' v',
    (let! bp := on_store (bread (i_dev ip) a) in
     free_indirect (Z.to_nat NINDIRECT) (i_dev ip) bp 0 ;;;
     on_store (brelse bp) ;;;
     bfree (i_dev ip) a ;;;
     set_addr i NDIRECT 0) s = Ok tt s' /\
    fs_is s' v' B (tset T i (put_addr ip NDIRECT 0)) /\ room L n (S (S h)) v' /\
    freed B v v' (fun c => c = a \/ entries e 0 (Z.to_nat NINDIRECT) c).
Proof.
  intros Hs Hf Hh Hroom HL Hi Hdev a e Ha Had Hau Hdist Hna.
  pose proof (wf_layout _ _ Hf) as Hl. pose proof (data_start_pos B Hl). pose proof (bmapstart_pos B Hl).
  rewrite Hdev. destruct (run_bread1 s v B T a L n (S h) Hs Hh Hroom) as (bp & s1 & Hb & Hs1).
  rewrite (kbind_Ok _ _ _ _ _ Hb). set (w := with_held v {[bp := a]}) in *.
  assert (room L n (S h) w) as Hroomw.
  { destruct Hroom as [R1 R2 R3]. split; [done|done|]. rewrite Hh, map_size_empty in R3.
    cbn. rewrite map_size_singleton. lia. }
  destruct (free_indirect_spec (Z.to_nat NINDIRECT) L s1 w B T bp a (contents v a) 0 n h)
    as (s2 & v2 & E2 & Hs2 & Hroom2 & Hfr2); try done.
  { by apply fs_wf_held. }
  { intros j c. cbn. rewrite lookup_singleton_Some. by intros [_ <-]. }
  rewrite (kbind_Ok _ _ _ _ _ E2).
  assert (v2 = with_held (with_held v2 ∅) {[bp := a]}) as Hv2.
  { pose proof (freed_held _ _ _ _ Hfr2) as E. cbn in E. destruct v2. cbn in *. by subst. }
  rewrite Hv2 in Hs2.
  destruct (run_brelse1 s2 (with_held v2 ∅) B T bp a Hs2 eq_refl (room_clean _ _ _ _ Hroom2))
    as (s3 & Hrel & Hs3).
  rewrite (kbind_Ok _ _ _ _ _ Hrel).
  assert (freed B v (with_held v2 ∅) (entries e 0 (Z.to_nat NINDIRECT))) as Hfr3.
  { destruct Hfr2 as [F1 F2 F3 F4]. split; [by apply fs_wf_held|exact F2|exact F3|by rewrite Hh]. }
  destruct (bfree_freed L s3 (with_held v2 ∅) B T a n (S h)) as (s4 & v4 & Hbf & Hs4 & Hr4 & Hfr4);
    try done.
  { apply Hfr3. }
  { destruct Hroom2 as [R1 R2 R3]. split; [done|done|]. cbn. rewrite map_size_empty.
    destruct Hroom as [_ _ R]. rewrite Hh, map_size_empty in R. lia. }
  { apply (freed_used _ _ _ _ Hfr3); [lia|]. done. }
  rewrite (kbind_Ok _ _ _ _ _ Hbf).
  destruct (run_set_addr s4 v4 B T i ip NDIRECT 0 Hs4 Hi) as (s5 & Hset & Hs5).
  exists s5, v4. split; [done|]. split; [done|]. split; [done|].
  eapply freed_ext; [by eapply freed_trans|]. intros c _. tauto.
Qed.

(** [v'] and [ip'] after [itrunc] of [ip]. *)
Record truncated B v ip v' ip' : Prop := {
  trunc_wf : fs_wf v' B;
  trunc_inode : ip' = with_size (with_addrs ip (replicate 13 0)) 0;
  trunc_used : forall c, 0 <= c < sb_size B -> (used v' B c = true <-> used v B c = true /\ ~ owns v ip c);
  trunc_data : forall c, data_start B <= c -> contents v' c = contents v c;
  trunc_disk : forall n jp, 0 <= n < ninodes B ->
    if decide (n = inum ip) then same_dinode (disk_inode v' B n jp) ip'
    else disk_inode v' B n jp = disk_inode v B n jp;
  trunc_held : held v' = ∅;
}.

(** The indirect block and its entries after the direct blocks were freed. *)
Lemma distinct_indirect v v1 B ip :
  inode_wf v B ip -> freed B v v1 (entries (get_addr ip) 0 (Z.to_nat NDIRECT)) -> layout B ->
  let a := get_addr ip NDIRECT in
  let e m := get32 (contents v a) (4 * m) in
  a <> 0 ->
  data_start B <= a < sb_size B /\ used v1 B a = true /\ contents v1 a = contents v a /\
  distinct_blocks v1 B e 0 (Z.to_nat NINDIRECT) /\ ~ entries e 0 (Z.to_nat NINDIRECT) a.
Proof.
  intros Hw F Hl a e Ha. pose proof (data_start_pos B Hl). pose proof (bmapstart_pos B Hl).
  pose proof ndirect_lt as Hnd.
  assert (forall k, NDIRECT <= k <= MAXFILE -> slot v ip k <> 0 ->
            data_start B <= slot v ip k < sb_size B /\ used v1 B (slot v ip k) = true) as Hkeep.
  { intros k Hk Hn. destruct (inode_slot _ _ _ Hw k ltac:(lia) Hn) as [Hd Hu]. split; [done|].
    apply (freed_used _ _ _ _ F); [lia|]. split; [done|]. intros (_ & m & Hm & E).
    rewrite Z2Nat.id in Hm by done. rewrite <- (slot_direct v) in E by lia.
    assert (m = k) by (apply (inode_inj _ _ _ Hw); (lia || congruence)). lia. }
  destruct (Hkeep MAXFILE ltac:(lia) Ha) as [Had Hau].
  change (slot v ip MAXFILE) with a in Had, Hau. split; [done|]. split; [done|].
  split; [apply (freed_data _ _ _ _ F); lia|].
  assert (forall m, 0 <= m < NINDIRECT -> e m = slot v ip (NDIRECT + m)) as He.
  { intros m Hm. by rewrite slot_entry. }
  unfold MAXFILE in *. split; [split|].
  - intros m Hm. rewrite Z2Nat.id in Hm by done. rewrite He by lia. apply Hkeep. lia.
  - intros m m' Hm Hm'. rewrite Z2Nat.id in Hm, Hm' by done. rewrite !He by lia. intros Hn E.
    apply (inode_inj _ _ _ Hw) in E; unfold MAXFILE; (lia || done).
  - intros (_ & m & Hm & E). rewrite Z2Nat.id in Hm by done. rewrite He in E by lia.
    assert (slot v ip (NDIRECT + m) <> 0) as Hn by (by rewrite E).
    change a with (slot v ip MAXFILE) in E.
    apply (inode_inj _ _ _ Hw) in E; unfold MAXFILE in *; (lia || done).
Qed.

(** All the blocks freed, and [addrs] cleared. *)
Lemma free_all L s v B T i ip n h :
  fs_is s v B T -> fs_wf v B -> inode_wf v B ip -> held v = ∅ -> room L n (S (S h)) v ->
  bitmap B ⊆ L -> zget T i = Some ip -> i_dev ip = ROOTDEV ->
  exists s' v', free_blocks i s = Ok tt s' /\
    fs_is s' v' B (tset T i (with_addrs ip (replicate 13 0))) /\ room L n (S (S h)) v' /\
    freed B v v' (owns v ip).
Proof.
  intros Hs Hf Hw Hh Hroom HL Hi Hdev.
  pose proof (wf_layout _ _ Hf) as Hl. pose proof (data_start_pos B Hl). pose proof (bmapstart_pos B Hl).
  pose proof ndirect_lt as Hnd.
  destruct (free_direct_spec (Z.to_nat NDIRECT) L s v B T i ip 0 n (S h))
    as (s1 & v1 & ip1 & E1 & Hs1 & Hroom1 & Hfr1 & Hm1 & Hl1 & Hg1); try done;
    [apply Hw|by apply distinct_direct|].
  rewrite Z2Nat.id in Hg1 by done. unfold free_blocks.
  rewrite (kbind_Ok _ _ _ _ _ E1).
  pose proof (zget_tset_eq T i ip1 ip Hi) as Hi1.
  rewrite (kbind_Ok _ _ _ _ _ (run_get_inode _ _ _ _ _ _ Hs1 Hi1)).
  assert (get_addr ip1 NDIRECT = get_addr ip NDIRECT) as Ha by (rewrite Hg1; by rewrite decide_False by lia).
  assert (forall jp, length (addrs jp) = 13%nat -> (forall m, 0 <= m <= NDIRECT -> get_addr jp m = 0) ->
            addrs jp = replicate 13 0) as Hzero.
  { intros jp Hlj Hz. apply list_eq_same_length with (n := 13%nat); [done..|].
    intros m x y Hm Hx Hy. apply lookup_replicate in Hy as [-> _].
    specialize (Hz (Z.of_nat m)). unfold get_addr, zget in Hz. rewrite decide_True in Hz by lia.
    rewrite Nat2Z.id, Hx in Hz. apply Hz. unfold NDIRECT. lia. }
  destruct (Z.eqb_spec (get_addr ip1 NDIRECT) 0) as [Hz|Hn].
  - exists s1, v1. split; [done|].
    rewrite <- (Hzero ip1 Hl1), <- Hm1.
    2: { intros m Hm. rewrite Hg1. case_decide; [done|]. by assert (m = NDIRECT) as -> by lia; congruence. }
    split; [done|]. split; [done|]. eapply freed_ext; [done|].
    intros c _. rewrite owns_cases, <- Ha. tauto.
  - pose proof (distinct_indirect v v1 B ip Hw Hfr1 Hl ltac:(congruence)) as (Had & Hau & Hc1 & Hdist & Hna).
    rewrite <- Ha in Had, Hau, Hc1, Hdist, Hna. rewrite <- Hc1 in Hdist, Hna.
    destruct (free_indirect_block L s1 v1 B (tset T i ip1) i ip1 n h)
      as (s2 & v2 & E2 & Hs2 & Hroom2 & Hfr2); try done.
    { apply Hfr1. }
    { by rewrite (freed_held _ _ _ _ Hfr1). }
    { by rewrite Hm1. }
    exists s2, v2. split; [done|]. rewrite tset_tset in Hs2.
    rewrite <- (Hzero (put_addr ip1 NDIRECT 0)).
    2: by rewrite put_addr_length.
    2: { intros m Hm. rewrite get_put_addr by done. case_decide; [done|].
         rewrite Hg1. by rewrite decide_True by lia. }
    split; [by rewrite Hm1 in Hs2|]. split; [done|].
    eapply freed_ext; [by eapply freed_trans|]. intros c _. cbn beta.
    rewrite owns_cases, <- Ha, <- Hc1. tauto.
Qed.

Lemma itrunc_spec s v B T i ip n h :
  fs_is s v B T -> fs_wf v B -> inode_wf v B ip -> dinode_ok ip -> held v = ∅ ->
  room (write_log B ip) n (S (S h)) v -> zget T i = Some ip -> i_dev ip = ROOTDEV ->
  0 <= inum ip < ninodes B ->
  exists s' v' ip', itrunc i s = Ok tt s' /\ fs_is s' v' B (tset T i ip') /\
    room (write_log B ip) n (S (S h)) v' /\ truncated B v ip v' ip'.
Proof.
  intros Hs Hf Hw Hdi Hh Hroom Hi Hdev Hin. pose proof (wf_layout _ _ Hf) as Hl.
  pose proof (data_start_pos B Hl). pose proof (bmapstart_pos B Hl).
  destruct (free_all (write_log B ip) s v B T i ip n h) as (s1 & v1 & E1 & Hs1 & Hroom1 & Hfr);
    try done; [unfold write_log; set_solver +|].
  unfold itrunc. rewrite (kbind_Ok _ _ _ _ _ E1).
  pose proof (zget_tset_eq T i (with_addrs ip (replicate 13 0)) ip Hi) as Hi1.
  destruct (run_update_inode s1 v1 B _ i _ (fun ip => with_size ip 0) Hs1 Hi1) as (s2 & E2 & Hs2).
  rewrite (kbind_Ok _ _ _ _ _ E2). rewrite tset_tset in Hs2.
  set (ip2 := with_size (with_addrs ip (replicate 13 0)) 0) in *.
  assert (IBLOCK (inum ip) B ∈ write_log B ip) as HL by (unfold write_log; set_solver +).
  destruct (iupdate_spec (write_log B ip) s2 v1 B (tset T i ip2) i ip2 n (S h)) as (s3 & E3 & Hs3);
    try done.
  { apply held_none. by rewrite (freed_held _ _ _ _ Hfr). }
  { by eapply zget_tset_eq. }
  { left. set_solver + HL. }
  pose proof (IBLOCK_meta B _ Hl Hin) as Hib.
  assert (forall c, 0 <= c < sb_size B -> used (updated v1 B ip2) B c = used v1 B c) as Hused.
  { intros c Hc. apply used_wrote; [done|done|]. cbn. lia. }
  exists s3, (updated v1 B ip2), ip2. split; [done|]. split; [done|].
  split; [apply room_wrote; [done|set_solver + HL]|]. split.
  - split; [done|]. intros c Hc. pose proof (layout_data _ Hl). rewrite Hused by lia.
    by apply (wf_meta _ _ (freed_wf _ _ _ _ Hfr)).
  - done.
  - intros c Hc. rewrite Hused by done. by apply (freed_used _ _ _ _ Hfr).
  - intros c Hc. unfold updated. rewrite contents_wrote. rewrite decide_False by (cbn; lia).
    apply (freed_data _ _ _ _ Hfr). by right.
  - intros m jp Hm. assert (dinode_ok ip2) as Hdi2.
    { apply dinode_ok_update; [done|done|apply Forall_replicate; lia|lia]. }
    pose proof (disk_inode_updated v1 B ip2 m jp ltac:(intros; by eapply fs_is_ok) Hdi2) as Hdu.
    change (inum ip2) with (inum ip) in Hdu. destruct (decide (m = inum ip)); [done|].
    rewrite Hdu. unfold disk_inode. rewrite (freed_data _ _ _ _ Hfr); [done|].
    left. apply (IBLOCK_meta B m Hl Hm).
  - cbn. by rewrite (freed_held _ _ _ _ Hfr).
Qed.

(** [iput] that is not the last of an unlinked inode drops a reference. *)
Lemma iput_drops s v B T i ip me :
  fs_is s v B T -> zget T i = Some ip -> ref ip <> 1 \/ i_valid ip = false \/ nlink ip <> 0 ->
  exists s', iput me i s = Ok tt s' /\ fs_is s' v B (tset T i (with_ref ip (ref ip - 1))).
Proof.
  intros Hs Hi Hkeep. unfold iput. rewrite (kbind_Ok _ _ _ _ _ (run_get_inode _ _ _ _ _ _ Hs Hi)).
  assert ((ref ip =? 1) && i_valid ip && (nlink ip =? 0) = false) as ->.
  { destruct Hkeep as [E|[->|E]].
    - by rewrite (proj2 (Z.eqb_neq _ _) E).
    - by rewrite andb_false_r.
    - rewrite (proj2 (Z.eqb_neq _ _) E). apply andb_false_r. }
  rewrite (kbind_Ok (kret tt) _ s tt s eq_refl).
  by apply (run_update_inode s v B T i ip (fun ip => with_ref ip (ref ip - 1))).
Qed.

(** The disk after the last [iput] of an unlinked inode. *)
Record freed_inode B v ip v' : Prop := {
  gone_wf : fs_wf v' B;
  gone_used : forall c, 0 <= c < sb_size B -> (used v' B c = true <-> used v B c = true /\ ~ owns v ip c);
  gone_data : forall c, data_start B <= c -> contents v' c = contents v c;
  gone_type : forall jp, type (disk_inode v' B (inum ip) jp) = 0;
  gone_other : forall n jp, 0 <= n < ninodes B -> n <> inum ip ->
    disk_inode v' B n jp = disk_inode v B n jp;
}.

Lemma freed_inode_update B v ip v1 ip1 ip2 :
  (forall b, block_ok (contents v1 b)) -> truncated B v ip v1 ip1 -> inum ip2 = inum ip ->
  dinode_ok ip2 -> type ip2 = 0 -> 0 <= inum ip < ninodes B ->
  freed_inode B v ip (updated v1 B ip2).
Proof.
  intros Hok Ht Hn Hdi Hty Hin. pose proof (wf_layout _ _ (trunc_wf _ _ _ _ _ Ht)) as Hl.
  pose proof (data_start_pos B Hl). pose proof (bmapstart_pos B Hl).
  pose proof (IBLOCK_meta B _ Hl Hin) as Hib.
  assert (forall c, 0 <= c < sb_size B -> used (updated v1 B ip2) B c = used v1 B c) as Hused.
  { intros c Hc. apply used_wrote; [done|done|]. rewrite Hn. lia. }
  split.
  - split; [done|]. intros c Hc. pose proof (layout_data _ Hl). rewrite Hused by lia.
    by apply (wf_meta _ _ (trunc_wf _ _ _ _ _ Ht)).
  - intros c Hc. rewrite Hused by done. by apply (trunc_used _ _ _ _ _ Ht).
  - intros c Hc. unfold updated. rewrite contents_wrote, Hn. rewrite decide_False by lia.
    by apply (trunc_data _ _ _ _ _ Ht).
  - intros jp. pose proof (disk_inode_updated v1 B ip2 (inum ip) jp Hok Hdi) as Hdu.
    rewrite decide_True in Hdu by done. destruct Hdu as [E _]. congruence.
  - intros m jp Hm Hne. pose proof (disk_inode_updated v1 B ip2 m jp Hok Hdi) as Hdu.
    rewrite Hn, decide_False in Hdu by done. rewrite Hdu.
    pose proof (trunc_disk _ _ _ _ _ Ht m jp Hm) as Hdt. by rewrite decide_False in Hdt.
Qed.

Lemma dinode_ok_type ip : dinode_ok ip -> dinode_ok (with_meta ip 0 (major ip) (minor ip) (nlink ip)).
Proof. unfold dinode_ok. cbn. assert (-2 ^ 15 <= 0 < 2 ^ 15) by done. tauto. Qed.

(** The last [iput] of an unlinked inode frees its blocks and the inode. *)
Lemma iput_frees s v B T i ip me n h :
  fs_is s v B T -> fs_wf v B -> inode_wf v B ip -> dinode_ok ip -> held v = ∅ ->
  room (write_log B ip) n (S (S h)) v -> zget T i = Some ip -> i_dev ip = ROOTDEV ->
  0 <= inum ip < ninodes B -> ref ip = 1 -> i_valid ip = true -> nlink ip = 0 ->
  sl_locked (ilk ip) = false ->
  exists s' v' ip', iput me i s = Ok tt s' /\ fs_is s' v' B (tset T i ip') /\
    freed_inode B v ip v' /\ ref ip' = 0 /\ sl_locked (ilk ip') = false.
Proof.
  intros Hs Hf Hw Hdi Hh Hroom Hi Hdev Hin Href Hval Hnl Hlk. pose proof (wf_layout _ _ Hf) as Hl.
  unfold iput. rewrite (kbind_Ok _ _ _ _ _ (run_get_inode _ _ _ _ _ _ Hs Hi)).
  rewrite Href, Hval, Hnl. cbn [Z.eqb Pos.eqb andb].
  destruct (run_lock_inode s v B T i ip me Hs Hi Hlk) as (s1 & E1 & Hs1).
  set (ip1 := with_ilk ip {| sl_locked := true; sl_pid := me |}) in *.
  destruct (itrunc_spec s1 v B (tset T i ip1) i ip1 n h) as (s2 & v2 & ip2 & E2 & Hs2 & Hroom2 & Htr);
    try done; [by destruct Hw as [? ? ?]|by eapply zget_tset_eq|].
  rewrite tset_tset in Hs2.
  pose proof (zget_tset_eq T i ip2 ip Hi) as Hi2.
  destruct (run_update_inode s2 v2 B _ i ip2 (fun ip => with_meta ip 0 (major ip) (minor ip) (nlink ip)) Hs2 Hi2)
    as (s3 & E3 & Hs3). rewrite tset_tset in Hs3.
  set (ip3 := with_meta ip2 0 (major ip2) (minor ip2) (nlink ip2)) in *.
  pose proof (trunc_inode _ _ _ _ _ Htr) as Hip2.
  assert (inum ip3 = inum ip /\ i_dev ip3 = ROOTDEV /\ dinode_ok ip3) as (Hn3 & Hd3 & Hdi3).
  { unfold ip3. rewrite Hip2. split; [done|]. split; [done|].
    apply dinode_ok_type, dinode_ok_update; [done|done|apply Forall_replicate; lia|lia]. }
  pose proof (zget_tset_eq T i ip3 ip Hi) as Hi3.
  destruct (iupdate_spec (write_log B ip) s3 v2 B (tset T i ip3) i ip3 n (S h)) as (s4 & E4 & Hs4);
    try done; [apply held_none; apply (trunc_held _ _ _ _ _ Htr)|by rewrite Hn3|
               left; rewrite Hn3; unfold write_log; set_solver +|].
  destruct (run_update_inode s4 _ B _ i ip3 (fun ip => with_valid ip false) Hs4 Hi3) as (s5 & E5 & Hs5).
  rewrite tset_tset in Hs5. pose proof (zget_tset_eq T i (with_valid ip3 false) ip Hi) as Hi5.
  destruct (run_update_inode s5 _ B _ i _ (fun ip => with_ilk ip initsleeplock) Hs5 Hi5) as (s6 & E6 & Hs6).
  rewrite tset_tset in Hs6.
  pose proof (zget_tset_eq T i (with_ilk (with_valid ip3 false) initsleeplock) ip Hi) as Hi6.
  destruct (run_update_inode s6 _ B _ i _ (fun ip => with_ref ip (ref ip - 1)) Hs6 Hi6) as (s7 & E7 & Hs7).
  rewrite tset_tset in Hs7.
  rewrite (kbind_Ok _ _ s tt s6).
  2: { rewrite (kbind_Ok _ _ _ _ _ E1), (kbind_Ok _ _ _ _ _ E2), (kbind_Ok _ _ _ _ _ E3),
         (kbind_Ok _ _ _ _ _ E4), (kbind_Ok _ _ _ _ _ E5). exact E6. }
  eexists s7, _, _. split; [done|]. split; [exact Hs7|]. split; [|split].
  - pose proof (freed_inode_update B v ip1 v2 ip2 ip3) as Hg. destruct Hg as [? ? ? ? ?]; try done.
    intros b. by eapply fs_is_ok.
  - cbn. rewrite Hip2. cbn. lia.
  - done.
Qed.
End Trunc.
