(* ===== verification/FsTheorems.v ===== *)
(** The file system's correctness, for any block store, with a small file system
    on which the theorems are applied. *)

From stdpp Require Import functions.
From S2P Require Import Prelude Mem Sleeplock UserMem Block Bio BlockStore.
From S2P Require Import Fs FsBlocks FsInode FsFile FsData FsTrunc.

(** ** A small file system

    20 blocks: inodes in blocks 2 and 3, the bitmap in block 4, data from block 5
    on; inode 1 is a file of 3 bytes in block 5. *)

Definition small_sb : superblock :=
  {| magic := FSMAGIC; sb_size := 20; nblocks := 15; ninodes := 16; nlog := 0; logstart := 2;
     inodestart := 2; bmapstart := 4 |}.

(** [d] is the contents of block 5, [t] and [sz] are the type and size of inode 1. *)
Definition disk_of (d : block) (b : Z) : block :=
  if b =? 4 then set8 zero_block 0 63 else if b =? 5 then d else zero_block.

Definition view_of (d : block) : bview :=
  {| contents := disk_of d; held := ∅; dirty := ∅; logged := ∅ |}.

Definition inode_of (t sz : Z) : inode :=
  {| i_dev := ROOTDEV; inum := 1; ref := 1; ilk := initsleeplock; i_valid := true;
     type := t; major := 0; minor := 0; nlink := 0; i_size := sz;
     addrs := 5 :: replicate 12 0 |}.

Definition state_of (d : block) (t sz : Z) : @fstate bview :=
  {| st := view_of d; sb := small_sb; itable := [inode_of t sz] |}.

Section Small.
Context (d : block) (t sz : Z).

Lemma small_block_ok b : block_ok d -> block_ok (disk_of d b).
Proof.
  intros Hd. unfold disk_of. destruct (b =? 4); [|destruct (b =? 5); [done|apply zero_block_ok]].
  apply set8_ok; [apply zero_block_ok|lia].
Qed.

Lemma small_is : block_ok d -> fs_is (state_of d t sz) (view_of d) small_sb [inode_of t sz].
Proof.
  intros Hd. split; [|done]. cbn. split; [done|]. split; [intros b; by apply small_block_ok|].
  intros i b. by rewrite lookup_empty.
Qed.

Lemma small_used b : 0 <= b < 20 -> used (view_of d) small_sb b = (b <? 6).
Proof.
  intros Hb. assert (b ∈ seqZ 0 20) as Hin by (apply elem_of_seqZ; lia). clear Hb. revert b Hin.
  apply list.Forall_forall. repeat (apply Forall_cons_2; [reflexivity|]). apply Forall_nil_2.
Qed.

Lemma small_wf : fs_wf (view_of d) small_sb.
Proof.
  split; [split; cbn; try done; lia|]. intros b Hb. change (data_start small_sb) with 5 in Hb.
  rewrite small_used by lia. apply Z.ltb_lt. lia.
Qed.

Lemma small_slot k :
  0 <= k <= MAXFILE -> slot (view_of d) (inode_of t sz) k = if decide (k = 0) then 5 else 0.
Proof.
  intros Hk. unfold slot. destruct (Z.eqb_spec k MAXFILE) as [->|]; [done|].
  destruct (Z.ltb_spec k NDIRECT) as [Hlt|].
  - assert (k ∈ seqZ 0 12) as Hin by (apply elem_of_seqZ; unfold NDIRECT in Hlt; lia).
    clear -Hin. revert k Hin. apply list.Forall_forall.
    repeat (apply Forall_cons_2; [reflexivity|]). apply Forall_nil_2.
  - rewrite decide_False by (unfold NDIRECT in *; lia). done.
Qed.

Lemma small_inode_wf : inode_wf (view_of d) small_sb (inode_of t sz).
Proof.
  split; [done| |].
  - intros k Hk. rewrite small_slot by done. case_decide; [|done]. intros _.
    split; [done|]. by rewrite small_used.
  - intros j k Hj Hk. rewrite !small_slot by done. repeat case_decide; (done || congruence).
Qed.

Lemma small_filled : 0 <= sz <= BSIZE -> filled (view_of d) (inode_of t sz).
Proof.
  unfold BSIZE. intros Hsz. split; [cbn [i_size inode_of]; assert (1024 <= MAXFILE * BSIZE) by done; lia|].
  intros bn Hbn Hlt. cbn in Hlt. unfold BSIZE in Hlt. assert (bn = 0) as -> by lia. done.
Qed.

Lemma small_dinode_ok : -2 ^ 15 <= t < 2 ^ 15 -> 0 <= sz < 2 ^ 32 -> dinode_ok (inode_of t sz).
Proof.
  intros Ht Hsz. unfold dinode_ok. cbn [type major minor nlink i_size addrs inode_of].
  assert (-2 ^ 15 <= 0 < 2 ^ 15) by done. split_and!; try tauto; try lia.
  repeat (apply Forall_cons_2; [lia|]). apply Forall_nil_2.
Qed.

Lemma small_room L n h :
  (base.size L + n <= log_cap)%nat -> (h <= max_held)%nat -> room L n h (view_of d).
Proof. intros Hn Hh. split; [done| |done]. cbn. by rewrite union_empty_l_L. Qed.
End Small.

(** A file of three bytes. *)
Definition small_data : block := [104; 105; 10] ++ replicate 1021 0.
Definition small_view : bview := view_of small_data.
Definition small_inode : inode := inode_of T_FILE 3.
Definition small_state : @fstate bview := state_of small_data T_FILE 3.

Lemma small_data_ok : block_ok small_data.
Proof.
  split; [done|]. apply Forall_app_2; [|apply Forall_replicate; lia].
  repeat (apply Forall_cons_2; [lia|]). apply Forall_nil_2.
Qed.

(** ** Theorems *)

(** C7. [writei] from a source that can be read changes a file as a write to a sequence
    of bytes, wherever the range lies: on success the file holds the new bytes at the offset and its
    old bytes elsewhere, its size is the maximum of the old size and the end of
    the write, the inode on disk is the one in memory, and no other file or inode
    changes; blocks added come from the free ones, and none is lost.  It returns
    less than asked only when every block of the disk is in use (or, from a source that
    cannot be read, when the copy fails; see [writei_unlogged]).  A range outside
    the limits gives -1 and no change.  A write logs at most two blocks per
    block it touches besides the inode's block and the bitmap. *)
Theorem writei_refines {St} `{BlockStoreLaws St} {U} `{UserMemLaws U}
    (s : @fstate St) v B T i ip (src : anymem U) addr off n bs c h :
  fs_is s v B T -> fs_wf v B -> inode_wf v B ip -> filled v ip -> dinode_ok ip ->
  0 <= inum ip < ninodes B -> held v = ∅ -> zget T i = Some ip -> i_dev ip = ROOTDEV ->
  0 <= off < 2 ^ 32 -> 0 <= n < 2 ^ 32 ->
  room (write_log B ip) (2 * blocks_of off n + c) (S (S h)) v ->
  any_wf src -> any_read src addr n = Some bs -> Forall (fun x => 0 <= x < 256) bs ->
  if decide (off <= i_size ip /\ off + n <= MAXFILE * BSIZE) then
    exists w s' v' ip', 0 <= w <= n /\ writei i src addr off n s = Ok w s' /\
      fs_is s' v' B (tset T i ip') /\ room (write_log B ip) c (S (S h)) v' /\
      file_written B v ip v' ip' off (take (Z.to_nat w) bs) /\
      (w < n -> forall b, 0 <= b < sb_size B -> used v' B b = true)
  else writei i src addr off n s = Ok (-1) s.
Proof.
  intros Hs Hf Hw Hfill Hdi Hin Hh Hi Hdev Hoff Hn Hroom Hsw Hrd Hbs. case_decide as Hd.
  - by apply (writei_spec s v B T i ip src addr off n bs c h); try done; lia.
  - apply (writei_refused s v B T i ip); try done. lia.
Qed.

Lemma writei_refines_witness :
  exists w s' v' ip', 0 <= w <= 2 /\
    writei (U := list Z) 0 (Kernel [1; 2; 3]) 1 3 2 small_state = Ok w s' /\
    fs_is s' v' small_sb (tset [small_inode] 0 ip') /\
    room (write_log small_sb small_inode) 1 2 v' /\
    file_written small_sb small_view small_inode v' ip' 3 (take (Z.to_nat w) [2; 3]) /\
    (w < 2 -> forall b, 0 <= b < 20 -> used v' small_sb b = true).
Proof.
  apply (writei_refines small_state small_view small_sb [small_inode] 0 small_inode
           (Kernel [1; 2; 3]) 1 3 2 [2; 3] 1 0).
  - apply small_is, small_data_ok.
  - apply small_wf.
  - apply small_inode_wf.
  - by apply small_filled.
  - by apply small_dinode_ok.
  - done.
  - done.
  - done.
  - done.
  - done.
  - done.
  - apply small_room; vm_compute; lia.
  - done.
  - done.
  - repeat (apply Forall_cons_2; [lia|]). apply Forall_nil_2.
Defined.

(** C32. [readi] returns the bytes of the file: asked for [n] bytes at [off] it
    stores in the destination, which may be user or kernel memory, exactly the
    bytes of the file from [off] up to its end, returns their number (0 past the
    end or when [off + n] overflows), and changes neither the disk nor other
    memory. *)
Theorem readi_reads {St} `{BlockStoreLaws St} {U} `{UserMemLaws U}
    (s : @fstate St) v B T i ip (dst : anymem U) addr off n r0 L c h :
  fs_is s v B T -> inode_wf v B ip -> filled v ip -> held v = ∅ -> room L c (S h) v ->
  zget T i = Some ip -> i_dev ip = ROOTDEV ->
  0 <= off < 2 ^ 32 -> 0 <= n < 2 ^ 32 ->
  let m := if (off <=? i_size ip) && (off + n <? 2 ^ 32) then Z.min n (i_size ip - off) else 0 in
  any_wf dst -> any_read dst addr m = Some r0 ->
  exists dst' s', readi i dst addr off n s = Ok (m, dst') s' /\ fs_is s' v B T /\
    delivered dst dst' addr (fbytes v ip off m).
Proof. intros. by eapply readi_spec. Qed.

Lemma readi_reads_witness :
  exists dst' s', readi (U := list Z) 0 (Kernel [0; 0; 0; 0]) 1 1 100 small_state = Ok (2, dst') s' /\
    fs_is s' small_view small_sb [small_inode] /\
    delivered (Kernel [0; 0; 0; 0]) dst' 1 (fbytes small_view small_inode 1 2).
Proof.
  apply (readi_reads small_state small_view small_sb [small_inode] 0 small_inode
           (Kernel [0; 0; 0; 0]) 1 1 100 [0; 0] ∅ 0 0).
  - apply small_is, small_data_ok.
  - apply small_inode_wf.
  - by apply small_filled.
  - done.
  - apply small_room; vm_compute; lia.
  - done.
  - done.
  - done.
  - done.
  - done.
  - done.
Defined.

(** C33. The last [iput] of an inode without links frees exactly the blocks of its
    file and the inode itself: the bitmap loses the file's direct, indirect and
    data blocks and nothing else, the inode on disk has type 0, its table entry is
    free and unlocked, and no other inode and no data block changes.  Any other
    [iput] only drops one reference. *)
Theorem iput_last_frees {St} `{BlockStoreLaws St} (s : @fstate St) v B T i ip me n h :
  fs_is s v B T -> fs_wf v B -> inode_wf v B ip -> dinode_ok ip -> held v = ∅ ->
  room (write_log B ip) n (S (S h)) v -> zget T i = Some ip -> i_dev ip = ROOTDEV ->
  0 <= inum ip < ninodes B -> sl_locked (ilk ip) = false ->
  if decide (ref ip = 1 /\ i_valid ip = true /\ nlink ip = 0) then
    exists s' v' ip', iput me i s = Ok tt s' /\ fs_is s' v' B (tset T i ip') /\
      freed_inode B v ip v' /\ ref ip' = 0 /\ sl_locked (ilk ip') = false
  else exists s', iput me i s = Ok tt s' /\ fs_is s' v B (tset T i (with_ref ip (ref ip - 1))).
Proof.
  intros Hs Hf Hw Hdi Hh Hroom Hi Hdev Hin Hlk. case_decide as Hd.
  - destruct Hd as (Href & Hval & Hnl). by eapply iput_frees.
  - apply (iput_drops s v B T i ip me Hs Hi).
    destruct (decide (ref ip = 1)), (i_valid ip), (decide (nlink ip = 0)); tauto.
Qed.

Lemma iput_last_frees_witness :
  exists s' v' ip', iput 7 0 small_state = Ok tt s' /\
    fs_is s' v' small_sb (tset [small_inode] 0 ip') /\
    freed_inode small_sb small_view small_inode v' /\ ref ip' = 0 /\ sl_locked (ilk ip') = false.
Proof.
  apply (iput_last_frees small_state small_view small_sb [small_inode] 0 small_inode 7 0 0).
  - apply small_is, small_data_ok.
  - apply small_wf.
  - apply small_inode_wf.
  - by apply small_dinode_ok.
  - done.
  - apply small_room; vm_compute; lia.
  - done.
  - done.
  - done.
  - done.
Defined.

(** [balloc] takes the lowest free block of the disk: it marks that block and no
    other, clears its contents and leaves all other data, or it returns 0 when
    every block is in use.  [bfree] of the block restores the bitmap. *)
Theorem balloc_lowest_free {St} `{BlockStoreLaws St} (s : @fstate St) v B T L n h :
  fs_is s v B T -> fs_wf v B -> held_data v B -> room L (S n) (S h) v -> bitmap B ⊆ L ->
  (exists s', balloc ROOTDEV s = Ok 0 s' /\ fs_is s' v B T /\
     forall c, 0 <= c < sb_size B -> used v B c = true) \/
  exists b s' v', balloc ROOTDEV s = Ok b s' /\ fs_is s' v' B T /\ b <> 0 /\
    used v B b = false /\ (forall c, 0 <= c < b -> used v B c = true) /\
    (forall c, 0 <= c < sb_size B -> used v' B c = used v B c || (c =? b)) /\
    contents v' b = zero_block /\
    (forall c, data_start B <= c < sb_size B -> c <> b -> contents v' c = contents v c) /\
    exists s'' v'', bfree ROOTDEV b s' = Ok tt s'' /\ fs_is s'' v'' B T /\
      forall c, 0 <= c < sb_size B -> used v'' B c = used v B c.
Proof.
  intros Hs Hf Hh Hroom HL. pose proof (balloc_spec L s v B T n h Hs Hf Hh Hroom HL) as Hr.
  pose proof (wf_layout _ _ Hf) as Hl. pose proof (data_start_pos B Hl). pose proof (bmapstart_pos B Hl).
  inversion Hr as [b s1 Hb Hu Hlow Hs1 E|s1 Hfull Hs1 E]; [right|left; by exists s1].
  assert (forall c, block_ok (contents v c)) as Hok by (intros c; by eapply fs_is_ok).
  assert (forall c, block_ok (contents (take_block v B b) c)) as Hok1 by (intros c; by eapply (fs_is_ok s1)).
  assert (forall c, 0 <= c < sb_size B ->
            used (take_block v B b) B c = used v B c || (c =? b)) as Hused.
  { intros c Hc. rewrite used_take by done. destruct (Z.eqb_spec c b) as [->|];
      [by rewrite decide_True, orb_true_r|by rewrite decide_False, orb_false_r]. }
  destruct (bfree_spec L s1 (take_block v B b) B T b n h) as (s2 & E2 & Hs2); try done.
  - split; [done|]. intros c Hc. pose proof (layout_data _ Hl). rewrite Hused by lia.
    by rewrite (wf_meta _ _ Hf).
  - intros i c Hi. destruct (Hh i c Hi) as [Hc Huc]. split; [done|]. rewrite Hused by lia.
    by rewrite Huc.
  - apply room_take; (done || lia).
  - apply HL, BBLOCK_bitmap; (done || lia).
  - rewrite Hused by lia. by rewrite Z.eqb_refl, orb_true_r.
  - exists b, s1, (take_block v B b). split_and!; try done; [lia|apply take_zero| |].
    + intros c Hc Hne. by apply take_frame; auto.
    + exists s2, (give_block (take_block v B b) B b). split_and!; try done.
      intros c Hc. rewrite used_give by done. case_decide; [by subst|].
      rewrite Hused by done. by rewrite (proj2 (Z.eqb_neq c b)), orb_false_r.
Qed.

Lemma balloc_lowest_free_witness :
  (exists s', balloc ROOTDEV small_state = Ok 0 s' /\ fs_is s' small_view small_sb [small_inode] /\
     forall c, 0 <= c < 20 -> used small_view small_sb c = true) \/
  exists b s' v', balloc ROOTDEV small_state = Ok b s' /\ fs_is s' v' small_sb [small_inode] /\ b <> 0 /\
    used small_view small_sb b = false /\ (forall c, 0 <= c < b -> used small_view small_sb c = true) /\
    (forall c, 0 <= c < 20 -> used v' small_sb c = used small_view small_sb c || (c =? b)) /\
    contents v' b = zero_block /\
    (forall c, 5 <= c < 20 -> c <> b -> contents v' c = contents small_view c) /\
    exists s'' v'', bfree ROOTDEV b s' = Ok tt s'' /\ fs_is s'' v'' small_sb [small_inode] /\
      forall c, 0 <= c < 20 -> used v'' small_sb c = used small_view small_sb c.
Proof.
  apply (balloc_lowest_free small_state small_view small_sb [small_inode] (bitmap small_sb) 0 0).
  - apply small_is, small_data_ok.
  - apply small_wf.
  - by apply held_none.
  - apply small_room; vm_compute; lia.
  - done.
Defined.

(** An inode written by [iupdate] is the inode a later [ilock] loads: whatever the
    table then holds, locking an entry of that inode whose contents are not in
    memory gives the type, device numbers, links, size and block addresses that
    were written, and every other inode of the disk is as before. *)
Theorem iupdate_ilock {St} `{BlockStoreLaws St} (s : @fstate St) v B T i ip L n h :
  fs_is s v B T -> layout B -> held v = ∅ -> room L n (S h) v ->
  zget T i = Some ip -> i_dev ip = ROOTDEV -> 0 <= inum ip < ninodes B ->
  loggable L n v (IBLOCK (inum ip) B) -> dinode_ok ip -> type ip <> 0 ->
  exists s' v', iupdate i s = Ok tt s' /\ fs_is s' v' B T /\
    (forall m kp, m <> inum ip -> disk_inode v' B m kp = disk_inode v B m kp) /\
    forall (t : @fstate St) T' j jp me L' n' h',
      fs_is t v' B T' -> room L' n' (S h') v' ->
      zget T' j = Some jp -> i_dev jp = ROOTDEV -> inum jp = inum ip -> 0 < ref jp ->
      sl_locked (ilk jp) = false -> i_valid jp = false ->
      exists t' kp, ilock me j t = Ok tt t' /\ fs_is t' v' B (tset T' j kp) /\
        same_dinode kp ip /\ i_valid kp = true /\ ilk kp = {| sl_locked := true; sl_pid := me |}.
Proof.
  intros Hs Hl Hh Hroom Hi Hdev Hin Hlog Hdi Hty.
  assert (forall b, block_ok (contents v b)) as Hok by (intros b; by eapply fs_is_ok).
  destruct (iupdate_spec L s v B T i ip n h) as (s1 & E1 & Hs1); try done; [by apply held_none|].
  exists s1, (updated v B ip). split; [done|]. split; [done|]. split.
  { intros m kp Hm. pose proof (disk_inode_updated v B ip m kp Hok Hdi) as Hd.
    by rewrite decide_False in Hd. }
  intros t T' j jp me L' n' h' Ht Hroom' Hj Hdevj Hnj Hrefj Hlkj Hvj.
  pose proof (ilock_spec L' t (updated v B ip) B T' j jp me n' h' Ht Hl) as Hr.
  assert (forall kp, same_dinode (disk_inode (updated v B ip) B (inum jp) kp) ip) as Hsame.
  { intros kp. pose proof (disk_inode_updated v B ip (inum jp) kp Hok Hdi) as Hd.
    by rewrite decide_True in Hd. }
  assert (ilock_result (updated v B ip) B T' j jp me (ilock me j t)) as Hr'.
  { apply Hr; try done; [by apply held_none|by rewrite Hnj]. }
  inversion Hr' as [t' Hv|t' _ Hn Ht' E|_ Hn E].
  - congruence.
  - eexists t', _. split; [done|]. split; [done|]. split; [|done].
    exact (Hsame (with_ilk jp {| sl_locked := true; sl_pid := me |})).
  - destruct (Hsame jp) as [E' _]. congruence.
Qed.

(** The store after inode 1 was written and the entry was reused for it. *)
Lemma iupdate_ilock_witness :
  exists s' v', iupdate 0 small_state = Ok tt s' /\ fs_is s' v' small_sb [small_inode] /\
    (forall m kp, m <> 1 -> disk_inode v' small_sb m kp = disk_inode small_view small_sb m kp) /\
    forall (t : @fstate bview) T' j jp me L' n' h',
      fs_is t v' small_sb T' -> room L' n' (S h') v' ->
      zget T' j = Some jp -> i_dev jp = ROOTDEV -> inum jp = 1 -> 0 < ref jp ->
      sl_locked (ilk jp) = false -> i_valid jp = false ->
      exists t' kp, ilock me j t = Ok tt t' /\ fs_is t' v' small_sb (tset T' j kp) /\
        same_dinode kp small_inode /\ i_valid kp = true /\
        ilk kp = {| sl_locked := true; sl_pid := me |}.
Proof.
  apply (iupdate_ilock small_state small_view small_sb [small_inode] 0 small_inode ∅ 1 0).
  - apply small_is, small_data_ok.
  - exact (wf_layout _ _ (small_wf small_data)).
  - done.
  - apply small_room; vm_compute; lia.
  - done.
  - done.
  - done.
  - right. lia.
  - by apply small_dinode_ok.
  - done.
Defined.

(** When the copy from the user fails inside a block, [writei] has already changed
    the block's buffer and releases it without [log_write]: it reports that nothing
    was written, yet the bytes copied so far are in the cached block, which is
    neither logged nor, therefore, ever installed on the disk. *)
Theorem writei_unlogged {U} `{UserMem U} (s : @fstate bview) i ip (u : U) addr off n :
  zget (itable s) i = Some ip -> 0 <= off <= i_size ip -> 0 < n -> off + n <= MAXFILE * BSIZE ->
  off / BSIZE < NDIRECT ->
  let b := get_addr ip (off / BSIZE) in
  let m := Z.min n (BSIZE - off mod BSIZE) in
  b <> 0 -> b <> IBLOCK (inum ip) (sb s) -> copyin u addr m = None ->
  exists s', writei i (User u) addr off n s = Ok 0 s' /\
    contents (st s') b = splice (contents (st s) b) (off mod BSIZE) (copyin_part u addr m) /\
    b ∈ dirty (st s') /\ logged (st s') = {[IBLOCK (inum ip) (sb s)]} ∪ logged (st s).
Proof.
  intros Hi Hoff Hn Hend Hdir b m Hb Hib Hc. destruct s as [v B T]. cbn [itable sb st] in *.
  assert (MAXFILE * BSIZE < 2 ^ 32) as Hmax by done.
  assert (forall v' : bview, get_inode i (FState v' B T) = Ok ip (FState v' B T)) as Hget
    by (intros v'; unfold get_inode; cbn; by rewrite Hi).
  unfold writei. rewrite (kbind_Ok _ _ _ _ _ (Hget v)).
  assert (u32 (off + n) = off + n) as -> by (apply Z.mod_small; lia).
  rewrite (proj2 (Z.ltb_ge (i_size ip) off)), (proj2 (Z.ltb_ge (off + n) off)) by lia. cbn [orb].
  rewrite (proj2 (Z.ltb_ge (MAXFILE * BSIZE) (off + n))) by lia.
  set (v1 := with_held (with_contents (with_held v (<[b := b]> (held v))) b
               (splice (contents v b) (off mod BSIZE) (copyin_part u addr m)))
               (delete b (<[b := b]> (held v)))).
  rewrite (kbind_Ok _ _ _ (0, off) (FState v1 B T)).
  2: { cbn [writei_loop]. rewrite (proj2 (Z.ltb_lt 0 n)) by lia. unfold bmap.
       rewrite (proj2 (Z.ltb_lt _ _) Hdir).
       assert (bmap_addr i (off / BSIZE) (FState v B T) = Ok b (FState v B T)) as Hbm.
       { unfold bmap_addr. rewrite (kbind_Ok _ _ _ _ _ (Hget v)). fold b.
         by rewrite (proj2 (Z.eqb_neq b 0) Hb). }
       rewrite (kbind_Ok _ _ _ _ _ Hbm), (proj2 (Z.eqb_neq b 0) Hb).
       rewrite (kbind_Ok _ _ _ _ _ (Hget v)), Z.sub_0_r. fold m.
       unfold either_copyin. rewrite Hc. reflexivity. }
  assert (exists t, zset T i ip = Some t /\ t = T) as (t & Ht & ->).
  { apply zget_Some in Hi as [Hi0 Hi]. exists (<[Z.to_nat i := ip]> T).
    split; [|by apply list_insert_id]. apply zset_in. apply lookup_lt_Some in Hi. lia. }
  assert (update_inode i (fun ip => if i_size ip <? off then with_size ip off else ip) (FState v1 B T)
          = Ok tt (FState v1 B T)) as Hup.
  { unfold update_inode. rewrite (kbind_Ok _ _ _ _ _ (Hget v1)).
    rewrite (proj2 (Z.ltb_ge (i_size ip) off)) by lia. unfold put_inode. cbn. by rewrite Ht. }
  cbn [fst snd]. rewrite (kbind_Ok _ _ _ _ _ Hup).
  assert (exists v2, iupdate i (FState v1 B T) = Ok tt (FState v2 B T) /\
    contents v2 b = contents v1 b /\ b ∈ dirty v2 /\
    logged v2 = {[IBLOCK (inum ip) B]} ∪ logged v) as (v2 & E2 & Hc2 & Hd2 & Hl2).
  { eexists. split; [unfold iupdate; rewrite (kbind_Ok _ _ _ _ _ (Hget v1)); reflexivity|]. cbn.
    split; [by rewrite fn_lookup_insert_ne|]. split; [set_solver + Hib|done]. }
  exists (FState v2 B T). rewrite (kbind_Ok _ _ _ _ _ E2). split; [done|].
  split; [|done]. cbn [st]. rewrite Hc2. cbn. by rewrite fn_lookup_insert.
Qed.

(** A user memory of one byte, from which two are to be written. *)
Definition short_mem : UserMem (list Z) :=
  {| copyin := flat_copyin; copyin_part := fun u va n => drop (Z.to_nat va) u;
     copyout := flat_copyout |}.

Lemma writei_unlogged_witness :
  exists s', writei (H0 := short_mem) 0 (User [88]) 0 0 2 small_state = Ok 0 s' /\
    contents (st s') 5 = splice small_data 0 [88] /\
    5 ∈ dirty (st s') /\ logged (st s') = {[2]} ∪ ∅.
Proof.
  apply (writei_unlogged (H := short_mem) small_state 0 small_inode [88] 0 0 2).
  - done.
  - done.
  - done.
  - done.
  - done.
  - done.
  - done.
  - done.
Defined.
