(* ===== verification/Dir.v ===== *)
(** Directories and path names ([kernel/fs.c], after the inode layer of [Fs]).

    A directory is a file of 16-byte entries.  A path is the list of its bytes
    before the terminating NUL; a [name] is a buffer of [DIRSIZ] bytes, or a
    shorter string constant, which reads as NUL past its end.  Directories are
    read and written through kernel buffers only.

    Shown: [dirlookup] finds the first entry of a name, [dirlink] adds an entry
    and changes no other, and the scan of [namex] over the path visits exactly
    the elements between slashes. *)

From stdpp Require Import functions.
From S2P Require Import Prelude Mem Sleeplock UserMem Block Bio BlockStore.
From S2P Require Import Fs FsBlocks FsInode FsFile FsData FsTrunc.

Definition DIRSIZ : Z := 14.
Definition DIRENT : Z := 16.

(** ** Names *)

Definition namecmp (s t : list Z) : Z := strncmp (two s t) 0 FAR DIRSIZ.

(** [struct dirent]. *)
Definition de_inum (de : list Z) : Z := get16 de 0.
Definition de_name (de : list Z) : list Z := drop 2 de.

(** [strncpy(de.name, name, DIRSIZ); de.inum = inum]. *)
Definition set_dirent (de name : list Z) (inum : Z) : list Z :=
  put16 (bytes_at (strncpy (two de name) 2 FAR DIRSIZ) 0 (Z.to_nat DIRENT)) 0 inum.

(** ** Paths *)

Definition SLASH : Z := 47.

Fixpoint skip_slashes (path : list Z) : list Z :=
  match path with
  | c :: rest => if c =? SLASH then skip_slashes rest else path
  | [] => []
  end.

(** The bytes up to the next slash, and the rest. *)
Fixpoint span_elem (path : list Z) : list Z * list Z :=
  match path with
  | c :: rest =>
      if c =? SLASH then ([], path)
      else let '(s, p) := span_elem rest in (c :: s, p)
  | [] => ([], [])
  end.

(** The rest of the path and the new contents of [name]. *)
Definition skipelem (path name : list Z) : option (list Z * list Z) :=
  match skip_slashes path with
  | [] => None
  | path =>
      let '(s, path) := span_elem path in
      let name :=
        if DIRSIZ <=? Z.of_nat (length s) then splice name 0 (take (Z.to_nat DIRSIZ) s)
        else splice name 0 (s ++ [0]) in
      Some (skip_slashes path, name)
  end.

Section Dir.
Context {St : Type} `{BlockStore St}.

(** An automatic [struct dirent]; [readi] fills it before it is used. *)
Definition de0 : list Z := replicate (Z.to_nat DIRENT) 0.

Definition kbuf (m : anymem (list Z)) : list Z :=
  match m with Kernel buf => buf | User u => u end.

(** [readi(dp, 0, (uint64)&de, off, sizeof(de))], with its check. *)
Definition read_dirent (msg : string) (i off : Z) : M (@fstate St) (list Z) :=
  let! r := readi i (Kernel de0) 0 off DIRENT in
  if negb (r.1 =? DIRENT) then panic msg else kret (kbuf r.2).

(** The loop of [dirlookup] from [off] on. *)
Fixpoint dirlookup_loop (k : nat) (i : Z) (name : list Z) (off : Z) : M (@fstate St) (option (Z * Z)) :=
  match k with
  | O => kret None
  | S k =>
      let! dp := get_inode i in
      if off <? i_size dp then
        let! de := read_dirent "dirlookup read" i off in
        if de_inum de =? 0 then dirlookup_loop k i name (off + DIRENT)
        else if namecmp name (de_name de) =? 0 then
          let! j := iget (i_dev dp) (de_inum de) in
          kret (Some (j, off))
        else dirlookup_loop k i name (off + DIRENT)
      else kret None
  end.

(** The inode found, and the offset of its entry ([*poff]).  One iteration per
    entry, and the final test. *)
Definition dirlookup (i : Z) (name : list Z) : M (@fstate St) (option (Z * Z)) :=
  let! dp := get_inode i in
  if negb (type dp =? T_DIR) then panic "dirlookup not DIR"
  else dirlookup_loop (S (Z.to_nat (i_size dp / DIRENT))) i name 0.

(** The loop of [dirlink]: the offset of the first empty entry, or the end. *)
Fixpoint find_empty (k : nat) (i off : Z) (de : list Z) : M (@fstate St) (Z * list Z) :=
  match k with
  | O => kret (off, de)
  | S k =>
      let! dp := get_inode i in
      if off <? i_size dp then
        let! de := read_dirent "dirlink read" i off in
        if de_inum de =? 0 then kret (off, de) else find_empty k i (off + DIRENT) de
      else kret (off, de)
  end.

Definition dirlink (me i : Z) (name : list Z) (inum : Z) : M (@fstate St) Z :=
  let! r := dirlookup i name in
  match r with
  | Some (j, _) => iput me j ;;; kret (-1)
  | None =>
      let! dp := get_inode i in
      let! e := find_empty (S (Z.to_nat (i_size dp / DIRENT))) i 0 de0 in
      let! w := writei (U := list Z) i (Kernel (set_dirent e.2 name inum)) 0 e.1 DIRENT in
      if w =? DIRENT then kret 0 else kret (-1)
  end.

(** The loop of [namex] with [ip = i]; [k] bounds the number of elements. *)
Fixpoint namex_loop (k : nat) (me i : Z) (path name : list Z) (nameiparent : bool)
    : M (@fstate St) (option Z * list Z) :=
  match k, skipelem path name with
  | _, None =>
      if nameiparent then iput me i ;;; kret (None, name) else kret (Some i, name)
  | O, Some _ => kret (None, name)
  | S k, Some (path, name) =>
      ilock me i ;;;
      let! ip := get_inode i in
      if negb (type ip =? T_DIR) then iunlockput me i ;;; kret (None, name)
      else if nameiparent && match path with [] => true | _ => false end then
        iunlock me i ;;; kret (Some i, name)
      else
        let! r := dirlookup i name in
        match r with
        | None => iunlockput me i ;;; kret (None, name)
        | Some (next, _) => iunlockput me i ;;; namex_loop k me next path name nameiparent
        end
  end.

(** [cwd] is [myproc()->cwd].  An element has at least one byte, so the length of
    the path bounds their number. *)
Definition namex (me cwd : Z) (path name : list Z) (nameiparent : bool)
    : M (@fstate St) (option Z * list Z) :=
  let! i := match path with
            | c :: _ => if c =? SLASH then iget ROOTDEV ROOTINO else idup cwd
            | [] => idup cwd
            end in
  namex_loop (length path) me i path name nameiparent.

Definition namei (me cwd : Z) (path : list Z) : M (@fstate St) (option Z) :=
  let! r := namex me cwd path (replicate (Z.to_nat DIRSIZ) 0) false in
  kret r.1.

Definition nameiparent (me cwd : Z) (path name : list Z) : M (@fstate St) (option Z * list Z) :=
  namex me cwd path name true.
End Dir.

(** ** Paths and their elements *)

(** The parts between slashes, and the non-empty ones. *)
Fixpoint split_at_slash (path : list Z) : list Z * list (list Z) :=
  match path with
  | [] => ([], [])
  | c :: rest =>
      let '(e, es) := split_at_slash rest in
      if c =? SLASH then ([], e :: es) else (c :: e, es)
  end.

Definition elements (path : list Z) : list (list Z) :=
  let '(e, es) := split_at_slash path in filter (.≠ []) (e :: es).

(** [name] after element [e] was copied into it. *)
Definition put_name (name e : list Z) : list Z :=
  if DIRSIZ <=? Z.of_nat (length e) then splice name 0 (take (Z.to_nat DIRSIZ) e)
  else splice name 0 (e ++ [0]).

Section Paths.
Implicit Types (path name e : list Z).

Lemma elements_slash path : elements (SLASH :: path) = elements path.
Proof. unfold elements. cbn. destruct (split_at_slash path) as [e es]. done. Qed.

Lemma elements_skip path : elements (skip_slashes path) = elements path.
Proof.
  induction path as [|c path IH]; [done|]. cbn [skip_slashes].
  destruct (Z.eqb_spec c SLASH) as [->|]; [|done]. by rewrite elements_slash.
Qed.

Lemma skip_head path c rest : skip_slashes path = c :: rest -> c <> SLASH.
Proof.
  induction path as [|x path IH]; cbn [skip_slashes]; [done|].
  destruct (Z.eqb_spec x SLASH) as [|Hx]; [done|]. by intros [= -> _].
Qed.

Lemma skip_length path : (length (skip_slashes path) <= length path)%nat.
Proof. induction path as [|c path IH]; cbn; [done|]. destruct (c =? SLASH); cbn; lia. Qed.

Lemma span_split path s p :
  span_elem path = (s, p) ->
  path = s ++ p /\ (split_at_slash path).1 = s /\
  match p with
  | [] => (split_at_slash path).2 = []
  | c :: r => c = SLASH /\ (split_at_slash path).2 = (split_at_slash r).1 :: (split_at_slash r).2
  end.
Proof.
  revert s p. induction path as [|c path IH]; intros s p; cbn [span_elem split_at_slash].
  { by intros [= <- <-]. }
  destruct (split_at_slash path) as [e es] eqn:Esp.
  destruct (Z.eqb_spec c SLASH) as [->|].
  - intros [= <- <-]. cbn. by rewrite Esp.
  - destruct (span_elem path) as [s' p']. intros [= <- <-].
    destruct (IH s' p' eq_refl) as (-> & E & Hp). cbn in *. subst e. split; [done|]. split; [done|].
    by destruct p'.
Qed.

Lemma elements_cons path s p :
  skip_slashes path <> [] -> span_elem (skip_slashes path) = (s, p) ->
  elements path = s :: elements (skip_slashes p) /\ s <> [] /\
  (length (skip_slashes p) < length path)%nat.
Proof.
  intros Hne Hsp. pose proof (skip_length path). pose proof (skip_length p).
  rewrite <- elements_skip. destruct (skip_slashes path) as [|c rest] eqn:Esk; [done|].
  pose proof (skip_head _ _ _ Esk) as Hc. destruct (span_split _ _ _ Hsp) as (Heq & E1 & E2).
  assert (s <> []) as Hs.
  { intros ->. cbn [span_elem] in Hsp. rewrite (proj2 (Z.eqb_neq _ _) Hc) in Hsp.
    by destruct (span_elem rest). }
  split; [|split; [done|]].
  - rewrite elements_skip. unfold elements at 1. destruct (split_at_slash (c :: rest)) as [e es].
    cbn in E1, E2. subst e. rewrite filter_cons_True by done. f_equal.
    destruct p as [|x r]; [by rewrite E2|]. destruct E2 as [-> ->].
    rewrite elements_slash. unfold elements. by destruct (split_at_slash r).
  - assert (length (c :: rest) = length s + length p)%nat by (by rewrite Heq, length_app).
    assert (length s <> 0%nat) by (by destruct s). lia.
Qed.

Lemma elements_nil path : elements path = [] <-> skip_slashes path = [].
Proof.
  split.
  - destruct (skip_slashes path) as [|c rest] eqn:E; [done|]. intros Hn.
    destruct (span_elem (c :: rest)) as [s p] eqn:Esp. rewrite <- E in Esp.
    destruct (elements_cons path s p) as (Hc & _ & _); [by rewrite E|done|congruence].
  - intros E. by rewrite <- elements_skip, E.
Qed.

Lemma elements_nonzero path e :
  e ∈ elements path -> Forall (fun c => c <> 0) path -> Forall (fun c => c <> 0) e.
Proof.
  intros He Hnz.
  assert (Forall (Forall (fun c => c <> 0)) ((split_at_slash path).1 :: (split_at_slash path).2)) as Hall.
  { clear He. induction path as [|c path IH]; cbn [split_at_slash]; [by repeat constructor|].
    apply Forall_cons_1 in Hnz as [Hc Hnz]. specialize (IH Hnz).
    destruct (split_at_slash path) as [x xs]. cbn in *. apply Forall_cons_1 in IH as [Hx Hxs].
    destruct (c =? SLASH); cbn; by repeat constructor. }
  unfold elements in He. destruct (split_at_slash path) as [x xs]. cbn in Hall.
  apply list_elem_of_filter in He as [_ He]. rewrite list.Forall_forall in Hall. by apply Hall.
Qed.

(** What one call of [skipelem] does. *)
Lemma skipelem_spec path name :
  match elements path with
  | [] => skipelem path name = None
  | e :: es => exists p, skipelem path name = Some (p, put_name name e) /\ elements p = es /\
      (p = [] <-> es = []) /\ (length p < length path)%nat
  end.
Proof.
  destruct (decide (skip_slashes path = [])) as [E|E].
  { rewrite (proj2 (elements_nil path) E). unfold skipelem. by rewrite E. }
  destruct (span_elem (skip_slashes path)) as [s p] eqn:Esp.
  destruct (elements_cons path s p E Esp) as (-> & Hs & Hlen).
  exists (skip_slashes p). split.
  { unfold skipelem. destruct (skip_slashes path) as [|c rest]; [done|]. by rewrite Esp. }
  split; [done|]. split; [|done]. rewrite elements_skip, elements_nil.
  split; [done|]. done.
Qed.

(** The name copied is the element, cut to [DIRSIZ] bytes. *)
Definition cname (s : list Z) : list Z := cstr (Z.to_nat DIRSIZ) (get8 s) 0.

Lemma cstr_list k s j :
  cstr k (get8 s) (Z.of_nat j) = cstr k (get8 (drop j s)) 0.
Proof.
  assert (forall m m' a b, (forall i, 0 <= i < Z.of_nat k -> m (a + i) = m' (b + i)) ->
            cstr k m a = cstr k m' b) as Hext.
  { induction k as [|k IH]; intros m m' a b Heq; cbn [cstr]; [done|].
    pose proof (Heq 0 ltac:(lia)) as H0. rewrite !Z.add_0_r in H0. rewrite H0.
    destruct (m' b =? 0); [done|]. f_equal. apply IH. intros i Hi.
    specialize (Heq (1 + i) ltac:(lia)). by rewrite !Z.add_assoc in Heq. }
  apply Hext. intros i Hi. unfold get8, zget. rewrite !decide_True by lia.
  rewrite lookup_drop. do 2 f_equal. lia.
Qed.

Lemma cstr_app k e t :
  Forall (fun c => c <> 0) e -> (length e <= k)%nat ->
  cstr k (get8 (e ++ t)) 0 = e ++ cstr (k - length e) (get8 t) 0.
Proof.
  revert k. induction e as [|c e IH]; intros k Hnz Hlen; cbn [app length].
  { by rewrite Nat.sub_0_r. }
  apply Forall_cons_1 in Hnz as [Hc Hnz]. destruct k as [|k]; [cbn in Hlen; lia|].
  cbn [cstr Nat.sub]. change (get8 (c :: e ++ t) 0) with c. rewrite (proj2 (Z.eqb_neq _ _) Hc).
  f_equal. rewrite <- IH by (done || (cbn in Hlen; lia)).
  exact (cstr_list k (c :: e ++ t) 1).
Qed.

Lemma cname_put_name name e :
  Forall (fun c => c <> 0) e -> length name = Z.to_nat DIRSIZ ->
  cname (put_name name e) = take (Z.to_nat DIRSIZ) e.
Proof.
  intros Hnz Hlen. unfold put_name, cname. destruct (Z.leb_spec DIRSIZ (Z.of_nat (length e))) as [Hge|Hlt];
    unfold splice; change (take (Z.to_nat 0) name) with (@nil Z); rewrite app_nil_l.
  - rewrite cstr_app; [|by apply Forall_take|rewrite length_take; lia].
    rewrite length_take. replace (Z.to_nat DIRSIZ - _)%nat with 0%nat by lia. cbn. by rewrite app_nil_r.
  - rewrite <- app_assoc. rewrite cstr_app by (done || lia).
    rewrite take_ge by lia. destruct (Z.to_nat DIRSIZ - length e)%nat; cbn; by rewrite app_nil_r.
Qed.
End Paths.

(** ** The walk of [namex] *)

Section Walk.
Context {St : Type} `{BlockStore St}.

(** [namex] over the elements of a path instead of its bytes. *)
Fixpoint walk (es : list (list Z)) (me i : Z) (name : list Z) (nameiparent : bool)
    : M (@fstate St) (option Z * list Z) :=
  match es with
  | [] => if nameiparent then iput me i ;;; kret (None, name) else kret (Some i, name)
  | e :: es =>
      let name := put_name name e in
      ilock me i ;;;
      let! ip := get_inode i in
      if negb (type ip =? T_DIR) then iunlockput me i ;;; kret (None, name)
      else if nameiparent && match es with [] => true | _ => false end then
        iunlock me i ;;; kret (Some i, name)
      else
        let! r := dirlookup i name in
        match r with
        | None => iunlockput me i ;;; kret (None, name)
        | Some (next, _) => iunlockput me i ;;; walk es me next name nameiparent
        end
  end.

Lemma kbind_ext {S A B} (m : M S A) (f g : A -> M S B) s :
  (forall a s, f a s = g a s) -> kbind m f s = kbind m g s.
Proof. intros Heq. unfold kbind. by destruct (m s). Qed.

Lemma namex_loop_walk k me i path name np (s : @fstate St) :
  (length path <= k)%nat ->
  namex_loop k me i path name np s = walk (elements path) me i name np s.
Proof.
  revert i path name s. induction k as [|k IH]; intros i path name s Hk;
    pose proof (skipelem_spec path name) as Hsk; cbn [namex_loop];
    destruct (elements path) as [|e es]; cbn [walk].
  1,3: by rewrite Hsk.
  - destruct Hsk as (p & _ & _ & _ & Hlt). lia.
  - destruct Hsk as (p & -> & <- & Hnil & Hlt).
    apply kbind_ext. intros [] s1. apply kbind_ext. intros ip s2.
    destruct (negb (type ip =? T_DIR)); [done|].
    assert (match p with [] => true | _ => false end =
            match elements p with [] => true | _ => false end) as ->.
    { destruct p as [|c p]; [by rewrite (proj1 Hnil)|].
      destruct (elements (c :: p)); [|done]. by discriminate (proj2 Hnil eq_refl). }
    destruct (np && _); [done|]. apply kbind_ext. intros [[next off]|] s3; [|done].
    apply kbind_ext. intros [] s4. apply IH. lia.
Qed.
End Walk.

(** ** Looking names up *)

Section Names.
Implicit Types (s t : list Z).

Definition bytes (s : list Z) : Prop := Forall (fun x => 0 <= x < 256) s.

Lemma two_left s t k : (k <= Z.to_nat DIRSIZ)%nat -> cstr k (two s t) 0 = cstr k (get8 s) 0.
Proof.
  intros Hk. apply cstr_ext. intros a Ha. unfold two. rewrite (proj2 (Z.ltb_lt a FAR)); [done|].
  change (Z.to_nat DIRSIZ) with 14%nat in Hk. unfold FAR. lia.
Qed.

Lemma cstr_shift k m d a : cstr k m (d + a) = cstr k (fun x => m (d + x)) a.
Proof.
  revert a. induction k as [|k IH]; intros a; cbn [cstr]; [done|].
  destruct (m (d + a) =? 0); [done|]. f_equal. rewrite <- IH. f_equal. lia.
Qed.

Lemma two_right s t k : cstr k (two s t) FAR = cstr k (get8 t) 0.
Proof.
  replace FAR with (FAR + 0) at 1 by lia. rewrite cstr_shift. apply cstr_ext. intros a Ha. unfold two.
  rewrite (proj2 (Z.ltb_ge (FAR + a) FAR)) by lia. f_equal. lia.
Qed.

Lemma namecmp_zero s t : bytes s -> bytes t -> namecmp s t = 0 <-> cname s = cname t.
Proof.
  intros Hs Ht. unfold namecmp, strncmp. rewrite strncmp_loop_zero.
  - by rewrite two_left, two_right.
  - intros a. unfold two. destruct (a <? FAR); by apply get8_bound.
Qed.
End Names.

(** ** Making entries *)

Section Entries.
Implicit Types (de name : list Z).

Lemma cstr_nonzero k m a : Forall (fun c => c <> 0) (cstr k m a).
Proof.
  revert a. induction k as [|k IH]; intros a; cbn [cstr]; [by apply Forall_nil|].
  destruct (Z.eqb_spec (m a) 0); [by apply Forall_nil|]. by apply Forall_cons.
Qed.

Lemma cstr_le k m a : (length (cstr k m a) <= k)%nat.
Proof.
  revert a. induction k as [|k IH]; intros a; cbn [cstr]; [done|].
  destruct (m a =? 0); cbn; [lia|]. specialize (IH (a + 1)). lia.
Qed.

Lemma set_dirent_length de name inum : length (set_dirent de name inum) = Z.to_nat DIRENT.
Proof.
  unfold set_dirent, put16. rewrite put_le_length. unfold bytes_at. by rewrite length_fmap, length_seqZ.
Qed.

Lemma set_dirent_inum de name inum :
  0 <= inum < 2 ^ 16 -> de_inum (set_dirent de name inum) = inum.
Proof.
  intros Hi. unfold de_inum, set_dirent, get16, put16. apply get_put_eq; [done| |exact Hi].
  unfold bytes_at. by rewrite length_fmap, length_seqZ.
Qed.

(** The name field: the name, padded with NULs. *)
Lemma set_dirent_name de name inum :
  de_name (set_dirent de name inum) =
    cname name ++ replicate (Z.to_nat DIRSIZ - length (cname name)) 0.
Proof.
  assert (length (cname name) <= Z.to_nat DIRSIZ)%nat as Hle by apply cstr_le.
  change (Z.to_nat DIRSIZ) with 14%nat in *.
  apply list_eq_same_length with (n := 14%nat).
  - rewrite length_app, length_replicate. lia.
  - unfold de_name. rewrite length_drop, set_dirent_length. done.
  - intros j x y Hj Hx Hy. unfold de_name in Hx. rewrite lookup_drop in Hx.
    assert (x = get8 (set_dirent de name inum) (2 + Z.of_nat j)) as ->.
    { unfold get8, zget. rewrite decide_True by lia.
      replace (Z.to_nat (2 + Z.of_nat j)) with (2 + j)%nat by lia. by rewrite Hx. }
    unfold set_dirent, put16. rewrite get8_put_le by (cbn; lia).
    unfold get8, zget, bytes_at. rewrite decide_True by lia.
    rewrite list_lookup_fmap, lookup_seqZ_lt by (change (Z.to_nat DIRENT) with 16%nat; lia). cbn [fmap option_fmap option_map default].
    replace (0 + (0 + Z.of_nat (Z.to_nat (2 + Z.of_nat j)))) with (2 + Z.of_nat j) by lia.
    unfold strncpy. rewrite strncpy_loop_in; [|by left|change (Z.to_nat DIRSIZ) with 14%nat; lia].
    rewrite two_right. fold (cname name).
    destruct (decide (j < length (cname name))%nat) as [Hlt|Hge].
    + rewrite lookup_app_l in Hy by done. by rewrite Hy.
    + rewrite lookup_app_r in Hy by lia. apply lookup_replicate in Hy as [-> _].
      by rewrite lookup_ge_None_2 by lia.
Qed.

Lemma set_dirent_cname de name inum : cname (de_name (set_dirent de name inum)) = cname name.
Proof.
  rewrite set_dirent_name. unfold cname at 1. rewrite cstr_app; [|apply cstr_nonzero|apply cstr_le].
  destruct (Z.to_nat DIRSIZ - length (cname name))%nat; cbn; by rewrite app_nil_r.
Qed.

Lemma set_dirent_bytes de name inum : bytes de -> bytes name -> bytes (set_dirent de name inum).
Proof.
  intros Hd Hn. apply put_le_bytes. apply Forall_lookup. intros j x Hx. unfold bytes_at in Hx.
  rewrite list_lookup_fmap in Hx. destruct (seqZ 0 _ !! j) as [o|] eqn:E; [|done]. cbn in Hx.
  injection Hx as <-. apply lookup_seqZ in E as [-> Hlt].
  assert (bytes_ok (two de name)) as Hok.
  { intros a. unfold two. destruct (a <? FAR); by apply get8_bound. }
  unfold strncpy. change (Z.of_nat (Z.to_nat DIRENT)) with 16 in Hlt.
  destruct (decide (2 <= Z.of_nat j)) as [Hge|Hlo].
  - replace (0 + (0 + Z.of_nat j)) with (2 + Z.of_nat (j - 2)) by lia.
    rewrite strncpy_loop_in; [|by left|change (Z.to_nat DIRSIZ) with 14%nat; lia].
    rewrite two_right. destruct (cstr _ _ _ !! _) as [c|] eqn:Ec; [|cbn; lia]. cbn.
    assert (forall k a c, c ∈ cstr k (get8 name) a -> 0 <= c < 256) as Hin.
    { clear -Hn. intros k. induction k as [|k IH]; intros a c; cbn [cstr]; [by intros ?%not_elem_of_nil|].
      destruct (get8 name a =? 0); [by intros ?%not_elem_of_nil|].
      intros [->|Hc]%elem_of_cons; [by apply get8_bound|by eapply IH]. }
    apply (Hin (Z.to_nat DIRSIZ) 0). by eapply list_elem_of_lookup_2.
  - rewrite strncpy_loop_out by (cbn; lia). apply Hok.
Qed.
End Entries.

(** The entry of a directory at offset [off]. *)
Definition dent (v : bview) (ip : inode) (off : Z) : list Z := fbytes v ip off DIRENT.

(** It names [name]. *)
Definition hit (v : bview) (ip : inode) (name : list Z) (off : Z) : Prop :=
  de_inum (dent v ip off) <> 0 /\ cname name = cname (de_name (dent v ip off)).

Section Lookup.
Context {St : Type} `{BlockStoreLaws St}.
Implicit Types (v : bview) (B : superblock) (T : list inode) (ip : inode) (s : @fstate St).

Lemma fbyte_bound v ip off : (forall b, block_ok (contents v b)) -> 0 <= fbyte v ip off < 256.
Proof.
  intros Hok. unfold fbyte. destruct (_ =? 0); [lia|]. apply get8_bound. apply Hok.
Qed.

Lemma fbytes_bytes v ip off n : (forall b, block_ok (contents v b)) -> bytes (fbytes v ip off n).
Proof.
  intros Hok. unfold bytes, fbytes. apply Forall_fmap, Forall_forall. intros o _. by apply fbyte_bound.
Qed.

Lemma read_dirent_spec msg L s v B T i ip off n h :
  fs_is s v B T -> inode_wf v B ip -> filled v ip -> held v = ∅ -> room L n (S h) v ->
  zget T i = Some ip -> i_dev ip = ROOTDEV -> 0 <= off -> off + DIRENT <= i_size ip ->
  exists s', read_dirent msg i off s = Ok (dent v ip off) s' /\ fs_is s' v B T.
Proof.
  intros Hs Hw Hfill Hh Hroom Hi Hdev Hoff Hend. unfold read_dirent, DIRENT in *.
  assert (MAXFILE * BSIZE + 16 < 2 ^ 32) by done. pose proof (proj1 Hfill).
  pose proof (readi_spec (U := list Z) L s v B T i ip (Kernel de0) 0 off 16 de0 n h Hs Hw Hfill Hh Hroom
                Hi Hdev ltac:(lia) ltac:(lia)) as Hr. cbn zeta in Hr.
  rewrite (proj2 (Z.leb_le off (i_size ip))), (proj2 (Z.ltb_lt (off + 16) (2 ^ 32))) in Hr by lia.
  cbn [andb] in Hr. rewrite Z.min_l in Hr by lia.
  destruct Hr as (dst' & s' & E & Hs' & _ & Hsh & Hrd & _); [done|done|].
  rewrite (kbind_Ok _ _ _ _ _ E). cbn [fst snd]. exists s'. split; [|done].
  assert (kbuf dst' = dent v ip off) as ->; [|done].
  destruct dst' as [u|buf]; [done|]. cbn in Hsh. injection Hsh as Hlen. cbn [any_read kbuf] in *.
  rewrite fbytes_length in Hrd. unfold flat_copyin in Hrd. rewrite decide_True in Hrd by (rewrite Hlen; done).
  injection Hrd as Hrd. unfold dent, DIRENT. rewrite <- Hrd.
  change (drop (Z.to_nat 0) buf) with buf. rewrite take_ge; [done|]. rewrite Hlen. done.
Qed.

Inductive lookup_result v B T ip name : res (@fstate St) (option (Z * Z)) -> Prop :=
| LookupHit off j s' :
    0 <= off < i_size ip -> off mod DIRENT = 0 -> hit v ip name off ->
    (forall o, 0 <= o < off -> o mod DIRENT = 0 -> ~ hit v ip name o) ->
    iget_result v B T ROOTDEV (de_inum (dent v ip off)) (Ok j s') ->
    lookup_result v B T ip name (Ok (Some (j, off)) s')
| LookupNoEntry off msg :
    0 <= off < i_size ip -> off mod DIRENT = 0 -> hit v ip name off ->
    iget_result v B T ROOTDEV (de_inum (dent v ip off)) (Panic msg) ->
    lookup_result v B T ip name (Panic msg)
| LookupMiss s' :
    (forall o, 0 <= o < i_size ip -> o mod DIRENT = 0 -> ~ hit v ip name o) ->
    fs_is s' v B T -> lookup_result v B T ip name (Ok None s').

(** One iteration, given what the rest does. *)
Lemma dirlookup_iter k L s v B T i ip name off n h :
  fs_is s v B T -> inode_wf v B ip -> filled v ip -> held v = ∅ -> room L n (S h) v ->
  zget T i = Some ip -> i_dev ip = ROOTDEV -> bytes name -> i_size ip mod DIRENT = 0 ->
  0 <= off -> off mod DIRENT = 0 ->
  (forall o, 0 <= o < off -> o mod DIRENT = 0 -> ~ hit v ip name o) ->
  (forall s', fs_is s' v B T -> off < i_size ip ->
     (forall o, 0 <= o < off + DIRENT -> o mod DIRENT = 0 -> ~ hit v ip name o) ->
     lookup_result v B T ip name (dirlookup_loop k i name (off + DIRENT) s')) ->
  lookup_result v B T ip name (dirlookup_loop (S k) i name off s).
Proof.
  intros Hs Hw Hfill Hh Hroom Hi Hdev Hname Hsz Hoff Hal Hlow Hnext. cbn [dirlookup_loop].
  rewrite (kbind_Ok _ _ _ _ _ (run_get_inode _ _ _ _ _ _ Hs Hi)).
  destruct (Z.ltb_spec off (i_size ip)) as [Hlt|Hge];
    [|apply LookupMiss; [intros o Ho; apply Hlow; lia|done]].
  assert (off + DIRENT <= i_size ip) as Hend.
  { unfold DIRENT in *. Z.to_euclidean_division_equations. lia. }
  destruct (read_dirent_spec "dirlookup read" L s v B T i ip off n h) as (s1 & E1 & Hs1); try done.
  rewrite (kbind_Ok _ _ _ _ _ E1).
  assert (~ hit v ip name off ->
          forall o, 0 <= o < off + DIRENT -> o mod DIRENT = 0 -> ~ hit v ip name o) as Hstep.
  { intros Hmiss o Ho Hom. destruct (Z.lt_ge_cases o off); [apply Hlow; (done || lia)|].
    replace o with off; [done|]. unfold DIRENT in *. Z.to_euclidean_division_equations. lia. }
  destruct (Z.eqb_spec (de_inum (dent v ip off)) 0) as [Hz|Hz].
  { apply Hnext; [done|done|]. apply Hstep. by intros [Hn _]. }
  assert (forall b, block_ok (contents v b)) as Hok by (intros b; by eapply (fs_is_ok s)).
  assert (bytes (de_name (dent v ip off))) as Hby.
  { unfold de_name, bytes. apply Forall_drop. by apply fbytes_bytes. }
  destruct (Z.eqb_spec (namecmp name (de_name (dent v ip off))) 0) as [Hc|Hc].
  - apply namecmp_zero in Hc; [|done..]. rewrite Hdev.
    pose proof (iget_spec s1 v B T ROOTDEV (de_inum (dent v ip off)) Hs1) as Hr. unfold kbind.
    destruct (iget ROOTDEV (de_inum (dent v ip off)) s1) as [j s2|msg|c s2].
    + by apply LookupHit.
    + by apply (LookupNoEntry v B T ip name off).
    + inversion Hr.
  - apply Hnext; [done|done|]. apply Hstep. intros [_ Hn]. by apply Hc, namecmp_zero.
Qed.

Lemma dirlookup_loop_spec k L s v B T i ip name off n h :
  fs_is s v B T -> inode_wf v B ip -> filled v ip -> held v = ∅ -> room L n (S h) v ->
  zget T i = Some ip -> i_dev ip = ROOTDEV -> bytes name -> i_size ip mod DIRENT = 0 ->
  0 <= off -> off mod DIRENT = 0 -> i_size ip <= off + DIRENT * Z.of_nat k ->
  (forall o, 0 <= o < off -> o mod DIRENT = 0 -> ~ hit v ip name o) ->
  lookup_result v B T ip name (dirlookup_loop (S k) i name off s).
Proof.
  intros Hs Hw Hfill Hh Hroom Hi Hdev Hname Hsz. revert s off Hs.
  induction k as [|k IH]; intros s off Hs Hoff Hal Hend Hlow;
    apply (dirlookup_iter _ L s v B T i ip name off n h); try done; intros s' Hs' Hlt Hlow'.
  - lia.
  - apply IH; try done; unfold DIRENT in *; [lia| |lia].
    Z.to_euclidean_division_equations. lia.
Qed.

Lemma dirlookup_spec L s v B T i ip name n h :
  fs_is s v B T -> inode_wf v B ip -> filled v ip -> held v = ∅ -> room L n (S h) v ->
  zget T i = Some ip -> i_dev ip = ROOTDEV -> bytes name -> type ip = T_DIR ->
  i_size ip mod DIRENT = 0 ->
  lookup_result v B T ip name (dirlookup i name s).
Proof.
  intros Hs Hw Hfill Hh Hroom Hi Hdev Hname Hty Hsz. unfold dirlookup.
  rewrite (kbind_Ok _ _ _ _ _ (run_get_inode _ _ _ _ _ _ Hs Hi)). rewrite Hty. cbn [negb Z.eqb Pos.eqb].
  change (negb (T_DIR =? T_DIR)) with false. cbn [negb].
  eapply dirlookup_loop_spec; try done; [|intros; lia].
  pose proof (proj1 Hfill). unfold DIRENT in *.
  rewrite Z2Nat.id by (apply Z.div_pos; lia). Z.to_euclidean_division_equations. lia.
Qed.

(** The first empty entry from [off] on, or the end of the directory. *)
Definition empty_found v B T ip off (r : res (@fstate St) (Z * list Z)) : Prop :=
  exists o de s', r = Ok (o, de) s' /\ fs_is s' v B T /\ bytes de /\
    off <= o <= i_size ip /\ o mod DIRENT = 0 /\
    (o < i_size ip -> de_inum (dent v ip o) = 0) /\
    (forall o', off <= o' < o -> o' mod DIRENT = 0 -> de_inum (dent v ip o') <> 0).

Lemma find_empty_iter k L s v B T i ip off de n h :
  fs_is s v B T -> inode_wf v B ip -> filled v ip -> held v = ∅ -> room L n (S h) v ->
  zget T i = Some ip -> i_dev ip = ROOTDEV -> i_size ip mod DIRENT = 0 ->
  0 <= off <= i_size ip -> off mod DIRENT = 0 -> bytes de ->
  (forall s' de', fs_is s' v B T -> bytes de' -> off < i_size ip ->
     empty_found v B T ip (off + DIRENT) (find_empty k i (off + DIRENT) de' s')) ->
  empty_found v B T ip off (find_empty (S k) i off de s).
Proof.
  intros Hs Hw Hfill Hh Hroom Hi Hdev Hsz Hoff Hal Hde Hnext. cbn [find_empty].
  rewrite (kbind_Ok _ _ _ _ _ (run_get_inode _ _ _ _ _ _ Hs Hi)).
  destruct (Z.ltb_spec off (i_size ip)) as [Hlt|Hge].
  2: { exists off, de, s. split_and!; try done; (lia || (intros; lia)). }
  assert (off + DIRENT <= i_size ip) as Hend.
  { unfold DIRENT in *. Z.to_euclidean_division_equations. lia. }
  destruct (read_dirent_spec "dirlink read" L s v B T i ip off n h) as (s1 & E1 & Hs1); try done; [lia|].
  rewrite (kbind_Ok _ _ _ _ _ E1).
  assert (bytes (dent v ip off)) as Hby by (apply fbytes_bytes; intros b; by eapply (fs_is_ok s)).
  destruct (Z.eqb_spec (de_inum (dent v ip off)) 0) as [Hz|Hz].
  { exists off, (dent v ip off), s1. split_and!; try done; (lia || (intros; lia)). }
  destruct (Hnext s1 (dent v ip off) Hs1 Hby Hlt) as (o & de' & s' & E & Hs' & Hd & Ho & Hom & Ho0 & Hlow).
  exists o, de', s'. unfold DIRENT in *. split_and!; try done; try lia.
  intros o' Ho' Hom'. destruct (Z.lt_ge_cases o' (off + 16)) as [Hlo|Hhi]; [|by apply Hlow; lia].
  replace o' with off; [done|]. Z.to_euclidean_division_equations. lia.
Qed.

Lemma find_empty_spec k L s v B T i ip off de n h :
  fs_is s v B T -> inode_wf v B ip -> filled v ip -> held v = ∅ -> room L n (S h) v ->
  zget T i = Some ip -> i_dev ip = ROOTDEV -> i_size ip mod DIRENT = 0 ->
  0 <= off <= i_size ip -> off mod DIRENT = 0 -> i_size ip <= off + DIRENT * Z.of_nat k -> bytes de ->
  empty_found v B T ip off (find_empty (S k) i off de s).
Proof.
  intros Hs Hw Hfill Hh Hroom Hi Hdev Hsz. revert s off de Hs.
  induction k as [|k IH]; intros s off de Hs Hoff Hal Hend Hde;
    apply (find_empty_iter _ L s v B T i ip off de n h); try done; intros s2 de' Hs2 Hde' Hlt; [lia|].
  apply IH; try done; unfold DIRENT in *; [| |lia];
    Z.to_euclidean_division_equations; lia.
Qed.

(** Within a block. *)
Lemma dirent_block off : 0 <= off -> off mod DIRENT = 0 -> blocks_of off DIRENT = 1%nat.
Proof.
  intros Hoff Hal. unfold blocks_of, BSIZE, DIRENT in *.
  enough ((off mod 1024 + 16 + 1024 - 1) / 1024 = 1) as -> by done.
  Z.to_euclidean_division_equations. lia.
Qed.

(** The entries of a directory after bytes were written over one of them. *)
Lemma dent_written v ip v' ip' off bs o :
  (forall x, 0 <= x < MAXFILE * BSIZE -> fbyte v' ip' x = overlay (fbyte v ip) off bs x) ->
  0 <= off -> 0 <= o -> off mod DIRENT = 0 -> o mod DIRENT = 0 -> o + DIRENT <= MAXFILE * BSIZE ->
  Z.of_nat (length bs) = DIRENT ->
  dent v' ip' o = if decide (o = off) then bs else dent v ip o.
Proof.
  intros Hb Hoff Ho Hal Hal' Hend Hlen. unfold dent.
  apply list_eq_same_length with (n := 16%nat).
  - case_decide; [unfold DIRENT in *; lia|]. by rewrite fbytes_length.
  - by rewrite fbytes_length.
  - intros j x y Hj Hx Hy. rewrite fbytes_lookup in Hx by (unfold DIRENT; lia). injection Hx as <-.
    rewrite Hb by (unfold DIRENT in *; lia). unfold overlay.
    destruct (decide (off <= o + Z.of_nat j < off + Z.of_nat (length bs))) as [Hin|Hin];
      destruct (decide (o = off)) as [Heq|Heq].
    + subst o. unfold get8, zget. rewrite decide_True by lia.
      replace (Z.to_nat (off + Z.of_nat j - off)) with j by lia. by rewrite Hy.
    + exfalso. apply Heq. unfold DIRENT in *. Z.to_euclidean_division_equations. lia.
    + exfalso. apply Hin. unfold DIRENT in *. lia.
    + rewrite fbytes_lookup in Hy by (unfold DIRENT; lia). by injection Hy as <-.
Qed.

(** Taking and dropping a reference frees nothing. *)
Lemma iget_iput v B T dev m j s1 me :
  table_ok T -> iget_result v B T dev m (Ok j s1) ->
  exists s' T', iput me j s1 = Ok tt s' /\ fs_is s' v B T'.
Proof.
  intros Hok Hr. inversion Hr as [? jp ? Hj Hp Hd Hn Hs1|? jp ? Hno Hj Hz Hs1|]; subst.
  - pose proof (zget_tset_eq T j (with_ref jp (ref jp + 1)) jp Hj) as Hj'.
    destruct (iput_drops s1 v B _ j _ me Hs1 Hj') as (s' & E & Hs'); [left; cbn; lia|].
    by eexists s', _.
  - pose proof (zget_tset_eq T j (new_entry dev m jp) jp Hj) as Hj'.
    destruct (iput_drops s1 v B _ j _ me Hs1 Hj') as (s' & E & Hs'); [right; by left|].
    by eexists s', _.
Qed.

(** What a successful [dirlink] leaves: entry [off], the first that was unused
    or the end of the directory, holds the name; all other entries are as before. *)
Record linked v ip v' ip' name (m off : Z) : Prop := {
  linked_offset : 0 <= off < i_size ip' /\ off mod DIRENT = 0;
  linked_size : i_size ip' = Z.max (i_size ip) (off + DIRENT);
  linked_unused : off < i_size ip -> de_inum (dent v ip off) = 0;
  linked_first : forall o, 0 <= o < off -> o mod DIRENT = 0 -> de_inum (dent v ip o) <> 0;
  linked_entry : de_inum (dent v' ip' off) = m /\ cname (de_name (dent v' ip' off)) = cname name;
  linked_others : forall o, 0 <= o < i_size ip' -> o mod DIRENT = 0 -> o <> off ->
    o < i_size ip /\ dent v' ip' o = dent v ip o;
}.

(** [dirlookup] of [name] in state [s] finds inode [m] at entry [off], or there
    is no room for it in the inode table. *)
Definition finds v B T (i : Z) name (m off : Z) s : Prop :=
  (exists j s', dirlookup i name s = Ok (Some (j, off)) s' /\
     iget_result v B T ROOTDEV m (Ok j s')) \/
  dirlookup i name s = Panic "iget: no inodes".

Lemma linked_found s v B T i ip v' ip' name m off L n h :
  fs_is s v' B T -> inode_wf v' B ip' -> filled v' ip' -> held v' = ∅ -> room L n (S h) v' ->
  zget T i = Some ip' -> i_dev ip' = ROOTDEV -> bytes name -> type ip' = T_DIR ->
  i_size ip' mod DIRENT = 0 -> linked v ip v' ip' name m off -> 0 < m ->
  (forall o, 0 <= o < i_size ip -> o mod DIRENT = 0 -> ~ hit v ip name o) ->
  finds v' B T i name m off s.
Proof.
  intros Hs Hw Hfill Hh Hroom Hi Hdev Hname Hty Hsz Hlk Hm Hmiss.
  destruct (linked_offset _ _ _ _ _ _ _ Hlk) as [Hoff Hal]. destruct (linked_entry _ _ _ _ _ _ _ Hlk) as [Hin Hnm].
  assert (Hhit : hit v' ip' name off) by (split; [rewrite Hin; lia|done]).
  assert (Honly : forall o, 0 <= o < i_size ip' -> o mod DIRENT = 0 -> hit v' ip' name o -> o = off).
  { intros o Ho Hoal Ho'. destruct (decide (o = off)) as [|Hne]; [done|].
    destruct (linked_others _ _ _ _ _ _ _ Hlk o Ho Hoal Hne) as [Hlt Hd]. unfold hit in Ho'. rewrite Hd in Ho'.
    by destruct (Hmiss o ltac:(lia) Hoal). }
  pose proof (dirlookup_spec L s v' B T i ip' name n h Hs Hw Hfill Hh Hroom Hi Hdev Hname Hty Hsz) as Hl.
  unfold finds. inversion Hl as [o j s1 Ho Hom Hhit' _ Hg E|o msg Ho Hom Hhit' Hg E|s1 Hmiss' Hs1 E].
  - left. exists j, s1. rewrite (Honly o Ho Hom Hhit') in *. rewrite Hin in Hg. done.
  - right. by inversion Hg.
  - by destruct (Hmiss' off Hoff Hal).
Qed.

Lemma dirlink_new s v B T i ip name m me c h :
  fs_is s v B T -> fs_wf v B -> inode_wf v B ip -> filled v ip -> dinode_ok ip ->
  0 <= inum ip < ninodes B -> held v = ∅ -> zget T i = Some ip -> i_dev ip = ROOTDEV ->
  type ip = T_DIR -> i_size ip mod DIRENT = 0 -> i_size ip + DIRENT <= MAXFILE * BSIZE ->
  bytes name -> 0 <= m < 2 ^ 16 -> room (write_log B ip) (2 + c) (S (S h)) v ->
  (forall o, 0 <= o < i_size ip -> o mod DIRENT = 0 -> ~ hit v ip name o) ->
  exists r s' v' ip' off w, dirlink me i name m s = Ok r s' /\ fs_is s' v' B (tset T i ip') /\
    file_written B v ip v' ip' off w /\
    ((r = 0 /\ linked v ip v' ip' name m off /\ (0 < m -> finds v' B (tset T i ip') i name m off s')) \/
     (r = -1 /\ forall b, 0 <= b < sb_size B -> used v' B b = true)).
Proof.
  intros Hs Hf Hw Hfill Hdi Hin Hh Hi Hdev Hty Hsz Hmax Hname Hm Hroom Hmiss.
  assert (room (write_log B ip) (2 + c) (S h) v) as Hroom1 by (eapply room_le; [done|lia|lia]).
  pose proof (dirlookup_spec _ s v B T i ip name _ h Hs Hw Hfill Hh Hroom1 Hi Hdev Hname Hty Hsz) as Hl.
  unfold dirlink. inversion Hl as [o j s1 Ho Hom Hhit _ _ E|o msg Ho Hom Hhit _ E|s1 _ Hs1 E];
    [by destruct (Hmiss o Ho Hom)|by destruct (Hmiss o Ho Hom)|].
  rewrite (kbind_Ok _ _ _ _ _ (eq_sym E)).
  rewrite (kbind_Ok _ _ _ _ _ (run_get_inode _ _ _ _ _ _ Hs1 Hi)).
  pose proof (proj1 Hfill) as Hszb.
  destruct (find_empty_spec (Z.to_nat (i_size ip / DIRENT)) _ s1 v B T i ip 0 de0 _ h
              Hs1 Hw Hfill Hh Hroom1 Hi Hdev Hsz) as (off & de & s2 & E2 & Hs2 & Hde & Hoff & Hom & Ho0 & Hlow);
    [lia|done| |apply Forall_replicate; lia|].
  { unfold DIRENT in *. rewrite Z2Nat.id by (apply Z.div_pos; lia).
    Z.to_euclidean_division_equations. lia. }
  rewrite (kbind_Ok _ _ _ _ _ E2). cbn [fst snd]. set (bs := set_dirent de name m).
  assert (length bs = 16%nat) as Hlen by (unfold bs; by rewrite set_dirent_length).
  destruct (writei_spec (U := list Z) s2 v B T i ip (Kernel bs) 0 off DIRENT bs c h)
    as (w & s3 & v3 & ip3 & Hw3 & E3 & Hs3 & Hroom3 & Hfw & Hfull); try done; try lia.
  { by rewrite dirent_block by (done || lia). }
  { apply set_dirent_bytes; done. }
  rewrite (kbind_Ok _ _ _ _ _ E3).
  destruct (Z.eqb_spec w DIRENT) as [->|Hne];
    eexists _, s3, v3, ip3, off, _; (split; [done|]); (split; [done|]); (split; [done|]).
  2: { right. split; [done|]. apply Hfull. lia. }
  left. split; [done|]. rewrite take_ge in Hfw by (rewrite Hlen; done).
  assert (i_size ip3 = Z.max (i_size ip) (off + DIRENT)) as Hsz3.
  { rewrite (written_meta _ _ _ _ _ _ _ Hfw), Hlen. done. }
  pose proof (fun o => dent_written v ip v3 ip3 off bs o (written_bytes _ _ _ _ _ _ _ Hfw)) as Hd.
  rewrite Hlen in Hd. assert (linked v ip v3 ip3 name m off) as Hlk.
  2: { split; [done|]. intros Hmp. pose proof (written_meta _ _ _ _ _ _ _ Hfw) as Hmeta.
    apply (linked_found s3 v B (tset T i ip3) i ip v3 ip3 name m off (write_log B ip) c (S h)); try done.
    - apply Hfw.
    - apply Hfw.
    - by rewrite (written_held _ _ _ _ _ _ _ Hfw).
    - by eapply zget_tset_eq.
    - by rewrite Hmeta.
    - by rewrite Hmeta.
    - rewrite Hsz3. unfold DIRENT in *. Z.to_euclidean_division_equations. lia. }
  split.
  - rewrite Hsz3. unfold DIRENT in *. lia.
  - done.
  - done.
  - done.
  - rewrite Hd, decide_True by (done || lia). split; [by apply set_dirent_inum|apply set_dirent_cname].
  - intros o Ho Hoo Hneq. rewrite Hsz3 in Ho. assert (o < i_size ip) as Hlt.
    { unfold DIRENT in *. Z.to_euclidean_division_equations. lia. }
    split; [done|]. rewrite Hd, decide_False by (done || unfold DIRENT in *; Z.to_euclidean_division_equations; lia). done.
Qed.
End Lookup.
