(* ===== verification/DirTheorems.v ===== *)
(** The correctness of directories and path names, with a small directory on
    which the theorems are applied. *)

From stdpp Require Import functions.
From S2P Require Import Prelude Mem Sleeplock UserMem Block Bio BlockStore.
From S2P Require Import Fs FsBlocks FsInode FsFile FsData FsTrunc FsTheorems Dir.

(** A directory with the entries ["a"] for inode 1 and an unused one. *)
Definition dir_data : block :=
  [1; 0; 97] ++ replicate 13 0 ++ [0; 0; 98] ++ replicate 13 0 ++ replicate 992 0.
Definition dir_view : bview := view_of dir_data.
Definition dir_inode : inode := inode_of T_DIR 32.
Definition dir_state : @fstate bview := state_of dir_data T_DIR 32.

Lemma dir_data_ok : block_ok dir_data.
Proof.
  split; [done|]. unfold dir_data.
  repeat (apply Forall_app_2; [first [apply Forall_replicate; lia|
    repeat (apply Forall_cons_2; [lia|]); apply Forall_nil_2]|]).
  apply Forall_replicate. lia.
Qed.

(** C34. The scan of [namex] along the bytes of a path is a walk along its elements, the
    non-empty parts between slashes, in order, each cut to [DIRSIZ] bytes; as
    many iterations as the path has bytes are enough for it to end. *)
Theorem namex_walks {St} `{BlockStore St} me cwd path name np (s : @fstate St) :
  (forall i k, (length path <= k)%nat ->
     namex_loop k me i path name np s = walk (elements path) me i name np s) /\
  namex me cwd path name np s =
    kbind (if decide (head path = Some SLASH) then iget ROOTDEV ROOTINO else idup cwd)
      (fun i => walk (elements path) me i name np) s /\
  (forall e, e ∈ elements path -> Forall (fun c => c <> 0) path ->
     length name = Z.to_nat DIRSIZ -> cname (put_name name e) = take (Z.to_nat DIRSIZ) e).
Proof.
  split; [|split].
  - intros i k Hk. by apply namex_loop_walk.
  - unfold namex. destruct path as [|c path]; cbn [head].
    + rewrite decide_False by done. apply kbind_ext. intros i s1. by apply namex_loop_walk.
    + destruct (Z.eqb_spec c SLASH) as [->|Hc].
      * rewrite decide_True by done. apply kbind_ext. intros i s1. by apply namex_loop_walk.
      * rewrite decide_False by congruence. apply kbind_ext. intros i s1. by apply namex_loop_walk.
  - intros e He Hnz Hlen. apply cname_put_name; [|done]. by apply (elements_nonzero path).
Qed.

(** C35. [dirlookup] returns the first entry of a directory that is in use and has the
    name, with its offset and a reference to its inode, or nothing when there is
    none. *)
Theorem dirlookup_first {St} `{BlockStoreLaws St} (s : @fstate St) v B T i ip name L n h :
  fs_is s v B T -> inode_wf v B ip -> filled v ip -> held v = ∅ -> room L n (S h) v ->
  zget T i = Some ip -> i_dev ip = ROOTDEV -> bytes name -> type ip = T_DIR ->
  i_size ip mod DIRENT = 0 ->
  lookup_result v B T ip name (dirlookup i name s).
Proof. intros. by eapply dirlookup_spec. Qed.

Lemma dirlookup_first_witness :
  lookup_result dir_view small_sb [dir_inode] dir_inode [97] (dirlookup 0 [97] dir_state).
Proof.
  apply (dirlookup_first dir_state dir_view small_sb [dir_inode] 0 dir_inode [97] ∅ 0 0).
  - apply small_is, dir_data_ok.
  - apply small_inode_wf.
  - by apply small_filled.
  - done.
  - apply small_room; vm_compute; lia.
  - done.
  - done.
  - apply Forall_cons_2; [lia|apply Forall_nil_2].
  - done.
  - done.
Defined.

(** C36. In a directory with room for one more entry below the maximal file size,
    [dirlink] of a name that is not there puts it, with its inode number,
    into the first unused entry, or at the end when all are in use, and leaves every
    other entry; a [dirlookup] of the name then finds that inode number (0 is the
    mark of an unused entry) at that offset, unless the inode table is full.  It returns
    -1 only when the disk is full.  For a name that is there it returns -1 and
    changes nothing on the disk. *)
Theorem dirlink_adds {St} `{BlockStoreLaws St} (s : @fstate St) v B T i ip name m me c h :
  fs_is s v B T -> fs_wf v B -> inode_wf v B ip -> filled v ip -> dinode_ok ip -> table_ok T ->
  0 <= inum ip < ninodes B -> held v = ∅ -> zget T i = Some ip -> i_dev ip = ROOTDEV ->
  type ip = T_DIR -> i_size ip mod DIRENT = 0 -> i_size ip + DIRENT <= MAXFILE * BSIZE ->
  bytes name -> 0 <= m < 2 ^ 16 -> room (write_log B ip) (2 + c) (S (S h)) v ->
  ((forall o, 0 <= o < i_size ip -> o mod DIRENT = 0 -> ~ hit v ip name o) ->
   exists r s' v' ip' off w, dirlink me i name m s = Ok r s' /\ fs_is s' v' B (tset T i ip') /\
     file_written B v ip v' ip' off w /\
     ((r = 0 /\ linked v ip v' ip' name m off /\ (0 < m -> finds v' B (tset T i ip') i name m off s')) \/
      (r = -1 /\ forall b, 0 <= b < sb_size B -> used v' B b = true))) /\
  ((exists o, 0 <= o < i_size ip /\ o mod DIRENT = 0 /\ hit v ip name o) ->
   (exists s' T', dirlink me i name m s = Ok (-1) s' /\ fs_is s' v B T') \/
   dirlink me i name m s = Panic "iget: no inodes").
Proof.
  intros Hs Hf Hw Hfill Hdi Htab Hin Hh Hi Hdev Hty Hsz Hmax Hname Hm Hroom. split.
  { intros Hmiss. by apply (dirlink_new s v B T i ip name m me c h). }
  intros (o & Ho & Hom & Hhit).
  assert (room (write_log B ip) (2 + c) (S h) v) as Hroom1 by (eapply room_le; [done|lia|lia]).
  pose proof (dirlookup_spec _ s v B T i ip name _ h Hs Hw Hfill Hh Hroom1 Hi Hdev Hname Hty Hsz) as Hl.
  unfold dirlink. inversion Hl as [o' j s1 Ho' Hom' Hhit' _ Hg E|o' msg Ho' Hom' Hhit' Hg E|s1 Hmiss Hs1 E].
  - left. rewrite (kbind_Ok _ _ _ _ _ (eq_sym E)).
    destruct (iget_iput v B T ROOTDEV _ j s1 me Htab Hg) as (s2 & T2 & E2 & Hs2).
    rewrite (kbind_Ok _ _ _ _ _ E2). by exists s2, T2.
  - right. unfold kbind. rewrite <- E. by inversion Hg.
  - by destruct (Hmiss o Ho Hom).
Qed.

Lemma dir_miss o : 0 <= o < 32 -> o mod DIRENT = 0 -> ~ hit dir_view dir_inode [99; 99] o.
Proof.
  intros Ho Hom. assert (o = 0 \/ o = 16) as [->| ->]
    by (unfold DIRENT in Hom; Z.to_euclidean_division_equations; lia);
    intros [_ He]; vm_compute in He; discriminate.
Qed.

Lemma dir_table_ok : table_ok [dir_inode].
Proof.
  assert (forall i jp, zget [dir_inode] i = Some jp -> i = 0 /\ jp = dir_inode) as Hone.
  { intros i jp Hg. apply zget_Some in Hg as [Hi Hg]. destruct (Z.to_nat i) eqn:E; [|done].
    injection Hg as <-. split; [lia|done]. }
  split.
  - by intros i jp [_ ->]%Hone.
  - by intros i j ip jp [-> _]%Hone [-> _]%Hone.
Qed.

Lemma dirlink_adds_witness :
  exists r s' v' ip' off w, dirlink 7 0 [99; 99] 3 dir_state = Ok r s' /\
    fs_is s' v' small_sb (tset [dir_inode] 0 ip') /\
    file_written small_sb dir_view dir_inode v' ip' off w /\
    ((r = 0 /\ linked dir_view dir_inode v' ip' [99; 99] 3 off /\
      (0 < 3 -> finds v' small_sb (tset [dir_inode] 0 ip') 0 [99; 99] 3 off s')) \/
     (r = -1 /\ forall b, 0 <= b < 20 -> used v' small_sb b = true)).
Proof.
  apply (dirlink_adds dir_state dir_view small_sb [dir_inode] 0 dir_inode [99; 99] 3 7 0 0).
  - apply small_is, dir_data_ok.
  - apply small_wf.
  - apply small_inode_wf.
  - by apply small_filled.
  - by apply small_dinode_ok.
  - apply dir_table_ok.
  - done.
  - done.
  - done.
  - done.
  - done.
  - done.
  - done.
  - repeat (apply Forall_cons_2; [lia|]). apply Forall_nil_2.
  - done.
  - apply small_room; vm_compute; lia.
  - exact dir_miss.
Defined.

(** ["/a//bb"] has the elements ["a"] and ["bb"]. *)
Lemma namex_walks_witness :
  elements [47; 97; 47; 47; 98; 98] = [[97]; [98; 98]] /\
  namex 7 0 [47; 97; 47; 47; 98; 98] (replicate 14 0) false dir_state =
    kbind (if decide (head [47; 97; 47; 47; 98; 98] = Some SLASH) then iget ROOTDEV ROOTINO else idup 0)
      (fun i => walk (elements [47; 97; 47; 47; 98; 98]) 7 i (replicate 14 0) false) dir_state.
Proof.
  split; [done|].
  destruct (namex_walks 7 0 [47; 97; 47; 47; 98; 98] (replicate 14 0) false dir_state) as (_ & E & _).
  exact E.
Defined.
