(* ===== verification/File.v ===== *)
(** The file table ([kernel/file.c]) and the creation of pipes
    ([pipealloc] of [kernel/pipe.c]).

    The state joins the components a file can refer to: the file system, the
    pipes by the page that holds them, the page allocator, the devices, and the
    memory and descriptors of the current process.  A [struct file *] is its
    index in [ftable].  A call that has to wait ends the run with [Sleep]; the
    wakeups of the pipe code concern the scheduler and are not kept here. *)

From S2P Require Import Prelude Mem Sleeplock UserMem Block Bio BlockStore Fs Kalloc Pipe.

Definition NFILE : Z := 100.
Definition NOFILE : Z := 16.
Definition NDEV : Z := 10.
Definition CONSOLE : Z := 1.

Inductive fdtype : Type := FD_NONE | FD_PIPE | FD_INODE | FD_DEVICE.

Record file : Type := File {
  ftype : fdtype;
  fref : Z;
  readable : bool;
  writable : bool;
  fpipe : Z;
  fip : Z;
  foff : Z;
  fmajor : Z
}.

Definition file0 : file :=
  {| ftype := FD_NONE; fref := 0; readable := false; writable := false; fpipe := 0; fip := 0;
     foff := 0; fmajor := 0 |}.

Definition with_fref (f : file) (r : Z) : file :=
  {| ftype := ftype f; fref := r; readable := readable f; writable := writable f;
     fpipe := fpipe f; fip := fip f; foff := foff f; fmajor := fmajor f |}.

Definition with_foff (f : file) (o : Z) : file :=
  {| ftype := ftype f; fref := fref f; readable := readable f; writable := writable f;
     fpipe := fpipe f; fip := fip f; foff := o; fmajor := fmajor f |}.

Definition free_file (f : file) : file :=
  {| ftype := FD_NONE; fref := 0; readable := readable f; writable := writable f;
     fpipe := fpipe f; fip := fip f; foff := foff f; fmajor := fmajor f |}.

(** One end of a pipe, as [pipealloc] fills it in. *)
Definition pipe_end (f : file) (page : Z) (w : bool) : file :=
  {| ftype := FD_PIPE; fref := fref f; readable := negb w; writable := w;
     fpipe := page; fip := fip f; foff := foff f; fmajor := fmajor f |}.

(** [struct stat] in memory: the padding after [nlink] holds whatever was on the
    kernel stack. *)
Definition encode_stat (pad : list Z) (s : stat) : list Z :=
  put_le 8 (put16 (put16 (put32 (put32 (replicate 12 0 ++ pad ++ replicate 8 0) 0 (st_dev s))
    4 (st_ino s)) 8 (st_type s)) 10 (st_nlink s)) 16 (st_size s).

(** The current process, as far as files are concerned. *)
Record uproc (U : Type) : Type := UProc {
  umem : U;
  psize : Z;
  args : list Z;
  ofile : list (option Z);
  cwd : Z
}.
Arguments UProc {U}.
Arguments umem {U}.
Arguments psize {U}.
Arguments args {U}.
Arguments ofile {U}.
Arguments cwd {U}.

Section File.
Context {St : Type} `{BlockStore St} `{Transactions St}.
Context {U : Type} `{UserMem U} {D : Type}.

Record ksys : Type := KSys {
  kfs : @fstate St;
  ftable : list file;
  pipes : gmap Z pipe;
  pages : kstate;
  devs : D;
  cur : uproc U
}.

(** *** Access to the parts *)

Definition on_fs {A} (m : M (@fstate St) A) : M ksys A := fun s =>
  let up t := {| kfs := t; ftable := ftable s; pipes := pipes s; pages := pages s;
                 devs := devs s; cur := cur s |} in
  match m (kfs s) with
  | Ok a t => Ok a (up t)
  | Panic msg => Panic msg
  | Sleep c t => Sleep c (up t)
  end.

Definition on_pages {A} (m : M kstate A) : M ksys A := fun s =>
  let up t := {| kfs := kfs s; ftable := ftable s; pipes := pipes s; pages := t;
                 devs := devs s; cur := cur s |} in
  match m (pages s) with
  | Ok a t => Ok a (up t)
  | Panic msg => Panic msg
  | Sleep c t => Sleep c (up t)
  end.

Definition get_file (f : Z) : M ksys file := fun s =>
  match zget (ftable s) f with Some x => Ok x s | None => Panic "undefined access" end.

Definition put_file (f : Z) (x : file) : M ksys unit := fun s =>
  match zset (ftable s) f x with
  | Some t => Ok tt {| kfs := kfs s; ftable := t; pipes := pipes s; pages := pages s;
                       devs := devs s; cur := cur s |}
  | None => Panic "undefined access"
  end.

Definition set_pipes (p : gmap Z pipe) : M ksys unit := fun s =>
  Ok tt {| kfs := kfs s; ftable := ftable s; pipes := p; pages := pages s;
           devs := devs s; cur := cur s |}.

Definition get_pipe (p : Z) : M ksys pipe := fun s =>
  match pipes s !! p with Some x => Ok x s | None => Panic "undefined access" end.

Definition set_cur (u : uproc U) : M ksys unit := fun s =>
  Ok tt {| kfs := kfs s; ftable := ftable s; pipes := pipes s; pages := pages s;
           devs := devs s; cur := u |}.

Definition set_umem (u : U) : M ksys unit :=
  let! c := kgets cur in
  set_cur {| umem := u; psize := psize c; args := args c; ofile := ofile c; cwd := cwd c |}.

(** Operations on a device and the process's memory. *)
Definition on_dev {A} (m : M (D * U) A) : M ksys A := fun s =>
  let up (t : D * U) :=
    {| kfs := kfs s; ftable := ftable s; pipes := pipes s; pages := pages s; devs := t.1;
       cur := {| umem := t.2; psize := psize (cur s); args := args (cur s);
                 ofile := ofile (cur s); cwd := cwd (cur s) |} |} in
  match m (devs s, umem (cur s)) with
  | Ok a t => Ok a (up t)
  | Panic msg => Panic msg
  | Sleep c t => Sleep c (up t)
  end.

(** ** Files *)

Definition fileinit : list file := replicate (Z.to_nat NFILE) file0.

(** The index of the first file with no reference, from [i] on. *)
Fixpoint find_file (t : list file) (i : Z) : option Z :=
  match t with
  | [] => None
  | f :: t => if fref f =? 0 then Some i else find_file t (i + 1)
  end.

Definition filealloc : M ksys (option Z) :=
  let! t := kgets ftable in
  match find_file t 0 with
  | Some f => let! x := get_file f in put_file f (with_fref x 1) ;;; kret (Some f)
  | None => kret None
  end.

Definition filedup (f : Z) : M ksys Z :=
  let! x := get_file f in
  if fref x <? 1 then panic "filedup"
  else put_file f (with_fref x (fref x + 1)) ;;; kret f.

Context (kend me : Z).

(** [pipeclose(pi, writable)]; the page is freed with the last end. *)
Definition close_pipe (p : Z) (w : bool) : M ksys unit :=
  let! pi := get_pipe p in
  let! ps := kgets pipes in
  let '(pi', _, last) := pipeclose pi w in
  if last then set_pipes (base.delete p ps) ;;; on_pages (kfree kend p)
  else set_pipes (<[p := pi']> ps).

Definition fileclose (f : Z) : M ksys unit :=
  let! x := get_file f in
  if fref x <? 1 then panic "fileclose"
  else if 0 <? fref x - 1 then put_file f (with_fref x (fref x - 1))
  else
    put_file f (free_file x) ;;;
    match ftype x with
    | FD_PIPE => close_pipe (fpipe x) (writable x)
    | FD_INODE | FD_DEVICE =>
        on_fs (on_store begin_op) ;;;
        on_fs (iput me (fip x)) ;;;
        on_fs (on_store end_op)
    | FD_NONE => kret tt
    end.

(** [copyout(p->pagetable, addr, bs, n)]: whether it succeeded. *)
Definition to_user (addr : Z) (bs : list Z) : M ksys bool :=
  let! c := kgets cur in
  let '(u, ok) := copyout (umem c) addr bs in
  set_umem u ;;; kret ok.

Definition filestat (pad : list Z) (f addr : Z) : M ksys Z :=
  let! x := get_file f in
  match ftype x with
  | FD_INODE | FD_DEVICE =>
      on_fs (ilock me (fip x)) ;;;
      let! st := on_fs (stati (fip x)) in
      on_fs (iunlock me (fip x)) ;;;
      let! ok := to_user addr (encode_stat pad st) in
      if ok then kret 0 else kret (-1)
  | _ => kret (-1)
  end.

(** [devsw[major].read] and [.write]: [None] where the pointer is null. *)
Context (devsw_read devsw_write : Z -> option (Z -> Z -> M (D * U) Z)).
(** [killed(myproc())], asked at each iteration of a pipe loop. *)
Context (killed : Z -> bool).

Definition dev_call (devsw : Z -> option (Z -> Z -> M (D * U) Z)) (major addr n : Z) : M ksys Z :=
  if (major <? 0) || (NDEV <=? major) then kret (-1)
  else match devsw major with
       | None => kret (-1)
       | Some op => on_dev (op addr n)
       end.

Definition pipe_chan (p : Z) : chan := Chan "pipe" p.

(** [piperead(f->pipe, addr, n)] and [pipewrite]. *)
Definition read_pipe (p addr n : Z) : M ksys Z :=
  let! pi := get_pipe p in
  let! ps := kgets pipes in
  let! c := kgets cur in
  let '(out, pi', u, _) := piperead (killed 0) (umem c) addr n pi in
  set_pipes (<[p := pi']> ps) ;;;
  set_umem u ;;;
  match out with
  | Return r => kret r
  | Blocked _ => ksleep (pipe_chan p)
  end.

Definition write_pipe (p addr n : Z) : M ksys Z :=
  let! pi := get_pipe p in
  let! ps := kgets pipes in
  let! c := kgets cur in
  let '(out, pi', _) := pipewrite killed (umem c) addr n 0 pi in
  set_pipes (<[p := pi']> ps) ;;;
  match out with
  | Return r => kret r
  | Blocked _ => ksleep (pipe_chan p)
  end.

(** [readi(ip, 1, addr, off, n)] and [writei]: the length is converted to
    [uint], the result of [readi] back to [int]. *)
Definition read_inode (ip addr off n : Z) : M ksys Z :=
  let! c := kgets cur in
  let! r := on_fs (readi ip (User (umem c)) addr off (u32 n)) in
  match r.2 with
  | User u => set_umem u
  | Kernel _ => kret tt
  end ;;;
  kret (i32 r.1).

Definition write_inode (ip addr off n : Z) : M ksys Z :=
  let! c := kgets cur in
  on_fs (writei ip (User (umem c)) addr off (u32 n)).

Definition fileread (f addr n : Z) : M ksys Z :=
  let! x := get_file f in
  if negb (readable x) then kret (-1)
  else
    match ftype x with
    | FD_PIPE => read_pipe (fpipe x) addr n
    | FD_DEVICE => dev_call devsw_read (fmajor x) addr n
    | FD_INODE =>
        on_fs (ilock me (fip x)) ;;;
        let! r := read_inode (fip x) addr (foff x) n in
        (if 0 <? r then put_file f (with_foff x (u32 (foff x + r))) else kret tt) ;;;
        on_fs (iunlock me (fip x)) ;;;
        kret r
    | FD_NONE => panic "fileread"
    end.

(** At most this many bytes per transaction. *)
Definition max_write : Z := (MAXOPBLOCKS - 1 - 1 - 2) / 2 * BSIZE.

(** One transaction of [filewrite]. *)
Definition write_some (f addr n1 : Z) : M ksys Z :=
  let! x := get_file f in
  on_fs (on_store begin_op) ;;;
  on_fs (ilock me (fip x)) ;;;
  let! r := write_inode (fip x) addr (foff x) n1 in
  (if 0 <? r then put_file f (with_foff x (u32 (foff x + r))) else kret tt) ;;;
  on_fs (iunlock me (fip x)) ;;;
  on_fs (on_store end_op) ;;;
  kret r.

(** The loop of [filewrite] from [i] on: the final [i]. *)
Fixpoint filewrite_loop (k : nat) (f addr n i : Z) : M ksys Z :=
  match k with
  | O => kret i
  | S k =>
      if i <? n then
        let n1 := if max_write <? n - i then max_write else n - i in
        let! r := write_some f (u64 (addr + i)) n1 in
        if r =? n1 then filewrite_loop k f addr n (i + r) else kret i
      else kret i
  end.

(** Every iteration but the last writes [max_write] bytes. *)
Definition filewrite (f addr n : Z) : M ksys Z :=
  let! x := get_file f in
  if negb (writable x) then kret (-1)
  else
    match ftype x with
    | FD_PIPE => write_pipe (fpipe x) addr n
    | FD_DEVICE => dev_call devsw_write (fmajor x) addr n
    | FD_INODE =>
        let! i := filewrite_loop (S (Z.to_nat (n / max_write))) f addr n 0 in
        if i =? n then kret n else kret (-1)
    | FD_NONE => panic "filewrite"
    end.

(** ** Pipes *)

(** [pipealloc]: the read and the write end, or -1 with everything given back.
    [data] follows the 24 bytes of the lock. *)
Definition pipealloc : M ksys (option (Z * Z)) :=
  let! f0 := filealloc in
  match f0 with
  | None => kret None
  | Some f0 =>
      let! f1 := filealloc in
      match f1 with
      | None => fileclose f0 ;;; kret None
      | Some f1 =>
          let! page := on_pages (kalloc) in
          if page =? 0 then fileclose f0 ;;; fileclose f1 ;;; kret None
          else
            let! ps := kgets pipes in
            let! m := kgets pages in
            set_pipes (<[page := pipe_init (bytes_at (kmem m) (page + 24) (Z.to_nat PIPESIZE))]> ps) ;;;
            let! x0 := get_file f0 in
            put_file f0 (pipe_end x0 page false) ;;;
            let! x1 := get_file f1 in
            put_file f1 (pipe_end x1 page true) ;;;
            kret (Some (f0, f1))
      end
  end.
End File.
