(* ===== verification/Sysfile.v ===== *)
(** The file system calls ([kernel/sysfile.c]) and the access to system call
    arguments ([kernel/syscall.c]).

    A call runs on the state of [File] for the current process; its arguments
    are the registers [a0] to [a5] of the trap frame.  Each call is the whole
    function, its transactions and error paths included. *)

From S2P Require Import Prelude Mem Sleeplock UserMem Block Bio BlockStore Fs Dir Kalloc Pipe Fcntl File.

Definition MAXPATH : Z := 128.

(** The names ["."] and [".."]. *)
Definition dot : list Z := [46].
Definition dotdot : list Z := [46; 46].

Definition flag (omode bit : Z) : bool := negb (Z.land omode bit =? 0).

Section Sysfile.
Context {St : Type} `{BlockStore St} `{Transactions St}.
Context {U : Type} `{UserMem U} `{UserStr U} {D : Type}.
Context (kend me : Z) (devsw_read devsw_write : Z -> option (Z -> Z -> M (D * U) Z)).
Context (killed : Z -> bool) (pad : list Z).

Abbreviation sys A := (M (ksys (St := St) (U := U) (D := D)) A).

(** ** Arguments *)

Definition argraw (n : Z) : sys Z :=
  let! c := kgets cur in
  if (0 <=? n) && (n <=? 5) then kopt (zget (args c) n) else panic "argraw".

Definition argint (n : Z) : sys Z := let! x := argraw n in kret (i32 x).
Definition argaddr (n : Z) : sys Z := argraw n.

(** [None] where the code returns -1. *)
Definition fetchaddr (addr : Z) : sys (option Z) :=
  let! c := kgets cur in
  if (psize c <=? addr) || (psize c <? u64 (addr + 8)) then kret None
  else kret (match copyin (umem c) addr 8 with
             | Some bs => Some (get_le 8 bs 0)
             | None => None
             end).

Definition fetchstr (addr max : Z) : sys (option (list Z)) :=
  let! c := kgets cur in kret (copyinstr (umem c) addr max).

Definition argstr (n max : Z) : sys (option (list Z)) :=
  let! addr := argaddr n in fetchstr addr max.

(** The descriptor and its file. *)
Definition argfd (n : Z) : sys (option (Z * Z)) :=
  let! fd := argint n in
  let! c := kgets cur in
  if (fd <? 0) || (NOFILE <=? fd) then kret None
  else match zget (ofile c) fd with
       | Some (Some f) => kret (Some (fd, f))
       | _ => kret None
       end.

(** ** Descriptors *)

Fixpoint find_fd {A} (l : list (option A)) (fd : Z) : option Z :=
  match l with
  | [] => None
  | None :: _ => Some fd
  | Some _ :: l => find_fd l (fd + 1)
  end.

(** Assign to [p->ofile[fd]]. *)
Definition set_ofile (fd : Z) (x : option Z) : sys unit :=
  let! c := kgets cur in
  let! l := kopt (zset (ofile c) fd x) in
  set_cur {| umem := umem c; psize := psize c; args := args c; ofile := l; cwd := cwd c |}.

Definition fdalloc (f : Z) : sys Z :=
  let! c := kgets cur in
  match find_fd (ofile c) 0 with
  | Some fd => set_ofile fd (Some f) ;;; kret fd
  | None => kret (-1)
  end.

Definition sys_dup : sys Z :=
  let! r := argfd 0 in
  match r with
  | None => kret (-1)
  | Some (_, f) =>
      let! fd := fdalloc f in
      if fd <? 0 then kret (-1) else filedup f ;;; kret fd
  end.

Definition sys_read : sys Z :=
  let! p := argaddr 1 in
  let! n := argint 2 in
  let! r := argfd 0 in
  match r with
  | None => kret (-1)
  | Some (_, f) => fileread me devsw_read killed f p n
  end.

Definition sys_write : sys Z :=
  let! p := argaddr 1 in
  let! n := argint 2 in
  let! r := argfd 0 in
  match r with
  | None => kret (-1)
  | Some (_, f) => filewrite me devsw_write killed f p n
  end.

Definition sys_close : sys Z :=
  let! r := argfd 0 in
  match r with
  | None => kret (-1)
  | Some (fd, f) => set_ofile fd None ;;; fileclose kend me f ;;; kret 0
  end.

Definition sys_fstat : sys Z :=
  let! st := argaddr 1 in
  let! r := argfd 0 in
  match r with
  | None => kret (-1)
  | Some (_, f) => filestat me pad f st
  end.

(** ** Names *)

Definition begin_tx : sys unit := on_fs (on_store begin_op).
Definition end_tx : sys unit := on_fs (on_store end_op).

(** [end_op(); return r]. *)
Definition leave {A} (r : A) : sys A := end_tx ;;; kret r.

Definition lookup_path (path : list Z) : sys (option Z) :=
  let! c := kgets cur in on_fs (namei me (cwd c) path).

(** The parent and the last element, in a fresh [name]. *)
Definition lookup_parent (path : list Z) : sys (option Z * list Z) :=
  let! c := kgets cur in
  on_fs (nameiparent me (cwd c) path (replicate (Z.to_nat DIRSIZ) 0)).

Definition change_nlink (ip d : Z) : sys unit :=
  on_fs (update_inode ip (fun x => with_meta x (type x) (major x) (minor x) (i16 (nlink x + d)))) ;;;
  on_fs (iupdate ip).

(** The exit [bad] of [sys_link]. *)
Definition link_bad (ip : Z) : sys Z :=
  on_fs (ilock me ip) ;;;
  change_nlink ip (-1) ;;;
  on_fs (iunlockput me ip) ;;;
  leave (-1).

Definition sys_link : sys Z :=
  let! old := argstr 0 MAXPATH in
  match old with
  | None => kret (-1)
  | Some old =>
      let! new := argstr 1 MAXPATH in
      match new with
      | None => kret (-1)
      | Some new =>
          begin_tx ;;;
          let! ip := lookup_path old in
          match ip with
          | None => leave (-1)
          | Some ip =>
              on_fs (ilock me ip) ;;;
              let! x := on_fs (get_inode ip) in
              if type x =? T_DIR then on_fs (iunlockput me ip) ;;; leave (-1)
              else
                change_nlink ip 1 ;;;
                on_fs (iunlock me ip) ;;;
                let! d := lookup_parent new in
                match d with
                | (None, _) => link_bad ip
                | (Some dp, name) =>
                    on_fs (ilock me dp) ;;;
                    let! dx := on_fs (get_inode dp) in
                    let! x := on_fs (get_inode ip) in
                    let! r := (if negb (i_dev dx =? i_dev x) then kret (-1)
                               else on_fs (dirlink me dp name (inum x))) in
                    if r <? 0 then on_fs (iunlockput me dp) ;;; link_bad ip
                    else
                      on_fs (iunlockput me dp) ;;;
                      on_fs (iput me ip) ;;;
                      leave 0
                end
          end
      end
  end.

(** The loop of [isdirempty] from [off] on. *)
Fixpoint isdirempty_loop (k : nat) (dp off : Z) : M (@fstate St) bool :=
  match k with
  | O => kret true
  | S k =>
      let! x := get_inode dp in
      if off <? i_size x then
        let! de := read_dirent "isdirempty: readi" dp off in
        if negb (de_inum de =? 0) then kret false else isdirempty_loop k dp (off + DIRENT)
      else kret true
  end.

Definition isdirempty (dp : Z) : M (@fstate St) bool :=
  let! x := get_inode dp in
  isdirempty_loop (S (Z.to_nat (i_size x / DIRENT))) dp (2 * DIRENT).

(** The exit [bad] of [sys_unlink]. *)
Definition unlink_bad (dp : Z) : sys Z := on_fs (iunlockput me dp) ;;; leave (-1).

Definition sys_unlink : sys Z :=
  let! path := argstr 0 MAXPATH in
  match path with
  | None => kret (-1)
  | Some path =>
      begin_tx ;;;
      let! d := lookup_parent path in
      match d with
      | (None, _) => leave (-1)
      | (Some dp, name) =>
          on_fs (ilock me dp) ;;;
          if (namecmp name dot =? 0) || (namecmp name dotdot =? 0) then unlink_bad dp
          else
            let! r := on_fs (dirlookup dp name) in
            match r with
            | None => unlink_bad dp
            | Some (ip, off) =>
                on_fs (ilock me ip) ;;;
                let! x := on_fs (get_inode ip) in
                if nlink x <? 1 then panic "unlink: nlink < 1"
                else
                  let! full := (if type x =? T_DIR then
                                  let! e := on_fs (isdirempty ip) in kret (negb e)
                                else kret false) in
                  if (full : bool) then on_fs (iunlockput me ip) ;;; unlink_bad dp
                  else
                    let! w := on_fs (writei (U := list Z) dp (Kernel de0) 0 off DIRENT) in
                    if negb (w =? DIRENT) then panic "unlink: writei"
                    else
                      (if type x =? T_DIR then change_nlink dp (-1) else kret tt) ;;;
                      on_fs (iunlockput me dp) ;;;
                      change_nlink ip (-1) ;;;
                      on_fs (iunlockput me ip) ;;;
                      leave 0
            end
      end
  end.

(** The exit [fail] of [create]. *)
Definition create_fail (ip dp : Z) : sys (option Z) :=
  on_fs (update_inode ip (fun x => with_meta x (type x) (major x) (minor x) 0)) ;;;
  on_fs (iupdate ip) ;;;
  on_fs (iunlockput me ip) ;;;
  on_fs (iunlockput me dp) ;;;
  kret None.

(** The new inode's entries [.] and [..], and its entry in the parent: whether all
    could be made. *)
Definition create_entries (ip dp t : Z) (name : list Z) : sys bool :=
  let! x := on_fs (get_inode ip) in
  let! dx := on_fs (get_inode dp) in
  let! ok := (if t =? T_DIR then
                let! r := on_fs (dirlink me ip dot (inum x)) in
                if r <? 0 then kret false
                else
                  let! r := on_fs (dirlink me ip dotdot (inum dx)) in
                  kret (0 <=? r)
              else kret true) in
  if (ok : bool) then let! r := on_fs (dirlink me dp name (inum x)) in kret (0 <=? r)
  else kret false.

(** The inode, locked, or [None]. *)
Definition create (path : list Z) (t maj min : Z) : sys (option Z) :=
  let! d := lookup_parent path in
  match d with
  | (None, _) => kret None
  | (Some dp, name) =>
      on_fs (ilock me dp) ;;;
      let! r := on_fs (dirlookup dp name) in
      match r with
      | Some (ip, _) =>
          on_fs (iunlockput me dp) ;;;
          on_fs (ilock me ip) ;;;
          let! x := on_fs (get_inode ip) in
          if (t =? T_FILE) && ((type x =? T_FILE) || (type x =? T_DEVICE)) then kret (Some ip)
          else on_fs (iunlockput me ip) ;;; kret None
      | None =>
          let! dx := on_fs (get_inode dp) in
          let! ip := on_fs (ialloc (i_dev dx) t) in
          match ip with
          | None => on_fs (iunlockput me dp) ;;; kret None
          | Some ip =>
              on_fs (ilock me ip) ;;;
              on_fs (update_inode ip (fun x => with_meta x (type x) maj min 1)) ;;;
              on_fs (iupdate ip) ;;;
              let! ok := create_entries ip dp t name in
              if (ok : bool) then
                (if t =? T_DIR then change_nlink dp 1 else kret tt) ;;;
                on_fs (iunlockput me dp) ;;;
                kret (Some ip)
              else create_fail ip dp
          end
      end
  end.

(** The file [f] of [sys_open] for the inode [ip]. *)
Definition open_file (f : file) (x : inode) (ip omode : Z) : file :=
  let dev := type x =? T_DEVICE in
  {| ftype := if dev then FD_DEVICE else FD_INODE; fref := fref f;
     readable := negb (flag omode O_WRONLY); writable := flag omode O_WRONLY || flag omode O_RDWR;
     fpipe := fpipe f; fip := ip; foff := if dev then foff f else 0;
     fmajor := if dev then major x else fmajor f |}.

(** The inode to open, locked, or [None] where the code returns -1. *)
Definition open_inode (path : list Z) (omode : Z) : sys (option Z) :=
  if flag omode O_CREATE then create path T_FILE 0 0
  else
    let! ip := lookup_path path in
    match ip with
    | None => kret None
    | Some ip =>
        on_fs (ilock me ip) ;;;
        let! x := on_fs (get_inode ip) in
        if (type x =? T_DIR) && negb (omode =? O_RDONLY) then on_fs (iunlockput me ip) ;;; kret None
        else kret (Some ip)
    end.

(** The rest of [sys_open], with the locked inode. *)
Definition open_fd (ip omode : Z) : sys Z :=
  let! x := on_fs (get_inode ip) in
  if (type x =? T_DEVICE) && ((major x <? 0) || (NDEV <=? major x)) then
    on_fs (iunlockput me ip) ;;; leave (-1)
  else
    let! f := filealloc in
    match f with
    | None => on_fs (iunlockput me ip) ;;; leave (-1)
    | Some f =>
        let! fd := fdalloc f in
        if fd <? 0 then
          fileclose kend me f ;;;
          on_fs (iunlockput me ip) ;;;
          leave (-1)
        else
          let! x := on_fs (get_inode ip) in
          let! fx := get_file f in
          put_file f (open_file fx x ip omode) ;;;
          (if flag omode O_TRUNC && (type x =? T_FILE) then on_fs (itrunc ip) else kret tt) ;;;
          on_fs (iunlock me ip) ;;;
          leave fd
    end.

Definition sys_open : sys Z :=
  let! omode := argint 1 in
  let! path := argstr 0 MAXPATH in
  match path with
  | None => kret (-1)
  | Some path =>
      begin_tx ;;;
      let! ip := open_inode path omode in
      match ip with
      | None => leave (-1)
      | Some ip => open_fd ip omode
      end
  end.

(** The common end of [sys_mkdir] and [sys_mknod]. *)
Definition made (ip : option Z) : sys Z :=
  match ip with
  | None => leave (-1)
  | Some ip => on_fs (iunlockput me ip) ;;; leave 0
  end.

Definition sys_mkdir : sys Z :=
  begin_tx ;;;
  let! path := argstr 0 MAXPATH in
  match path with
  | None => leave (-1)
  | Some path => let! ip := create path T_DIR 0 0 in made ip
  end.

(** [create]'s parameters are [short]. *)
Definition sys_mknod : sys Z :=
  begin_tx ;;;
  let! maj := argint 1 in
  let! min := argint 2 in
  let! path := argstr 0 MAXPATH in
  match path with
  | None => leave (-1)
  | Some path => let! ip := create path T_DEVICE (i16 maj) (i16 min) in made ip
  end.

Definition set_cwd (ip : Z) : sys unit :=
  let! c := kgets cur in
  set_cur {| umem := umem c; psize := psize c; args := args c; ofile := ofile c; cwd := ip |}.

Definition sys_chdir : sys Z :=
  begin_tx ;;;
  let! path := argstr 0 MAXPATH in
  match path with
  | None => leave (-1)
  | Some path =>
      let! ip := lookup_path path in
      match ip with
      | None => leave (-1)
      | Some ip =>
          on_fs (ilock me ip) ;;;
          let! x := on_fs (get_inode ip) in
          if negb (type x =? T_DIR) then on_fs (iunlockput me ip) ;;; leave (-1)
          else
            on_fs (iunlock me ip) ;;;
            let! c := kgets cur in
            on_fs (iput me (cwd c)) ;;;
            end_tx ;;;
            set_cwd ip ;;;
            kret 0
      end
  end.

(** Both ends closed, for the error paths of [sys_pipe]. *)
Definition close_both (rf wf : Z) : sys Z :=
  fileclose kend me rf ;;; fileclose kend me wf ;;; kret (-1).

Definition int_bytes (x : Z) : list Z := put32 (replicate 4 0) 0 x.

Definition sys_pipe : sys Z :=
  let! fdarray := argaddr 0 in
  let! p := pipealloc kend me in
  match p with
  | None => kret (-1)
  | Some (rf, wf) =>
      let! fd0 := fdalloc rf in
      if fd0 <? 0 then close_both rf wf
      else
        let! fd1 := fdalloc wf in
        if fd1 <? 0 then set_ofile fd0 None ;;; close_both rf wf
        else
          let! ok := to_user fdarray (int_bytes fd0) in
          let! ok := (if (ok : bool) then to_user (u64 (fdarray + 4)) (int_bytes fd1) else kret false) in
          if (ok : bool) then kret 0
          else
            set_ofile fd0 None ;;;
            set_ofile fd1 None ;;;
            close_both rf wf
  end.

(** The file system calls among the entries of [syscalls]. *)
Definition file_call (num : Z) : option (sys Z) :=
  match num with
  | 4 => Some sys_pipe
  | 5 => Some sys_read
  | 8 => Some sys_fstat
  | 9 => Some sys_chdir
  | 10 => Some sys_dup
  | 15 => Some sys_open
  | 16 => Some sys_write
  | 17 => Some sys_mknod
  | 18 => Some sys_unlink
  | 19 => Some sys_link
  | 20 => Some sys_mkdir
  | 21 => Some sys_close
  | _ => None
  end.
End Sysfile.
