(* ===== verification/Descriptors.v ===== *)
(** File descriptors and the reference counts of the file table
    ([kernel/file.c], [kernel/sysfile.c], modelled in [File] and [Sysfile]).

    [counted o s]: the reference count of every file is the number of
    descriptors of the current process that name it plus [o], the references of
    the other processes.  While a call runs, [o] also accounts for references
    it holds itself. *)

From S2P Require Import Prelude Fcntl Mem Sleeplock UserMem Block Bio BlockStore Fs Dir Kalloc Pipe File Sysfile.

Definition refs (l : list (option Z)) (f : Z) : Z :=
  Z.of_nat (length (filter (fun x => x = Some f) l)).

Definition one (x : option Z) (f : Z) : Z := if decide (x = Some f) then 1 else 0.

Lemma refs_cons x l f : refs (x :: l) f = one x f + refs l f.
Proof. unfold refs, one. rewrite filter_cons. case_decide; cbn [length]; lia. Qed.

Lemma refs_app l l' f : refs (l ++ l') f = refs l f + refs l' f.
Proof. unfold refs. rewrite list.filter_app, length_app. lia. Qed.

Lemma fd_refs_nonneg l f : 0 <= refs l f.
Proof. unfold refs. lia. Qed.

Lemma refs_zset l fd x l' old f :
  zset l fd x = Some l' -> zget l fd = Some old -> refs l' f = refs l f - one old f + one x f.
Proof.
  intros Hs Hg. apply zset_Some in Hs as [Hfd ->]. apply zget_Some in Hg as [_ Hg].
  rewrite <- (take_drop_middle _ _ _ Hg) at 2.
  rewrite insert_take_drop by (apply lookup_lt_Some in Hg; lia).
  rewrite !refs_app, !refs_cons. lia.
Qed.

Lemma refs_pos l fd f : zget l fd = Some (Some f) -> 0 < refs l f.
Proof.
  intros Hg. apply zget_Some in Hg as [_ Hg]. rewrite <- (take_drop_middle _ _ _ Hg).
  rewrite refs_app, refs_cons. unfold one. rewrite decide_True by done.
  pose proof (fd_refs_nonneg (take (Z.to_nat fd) l) f).
  pose proof (fd_refs_nonneg (drop (S (Z.to_nat fd)) l) f). lia.
Qed.

Lemma find_fd_spec (l : list (option Z)) k fd :
  find_fd l k = Some fd -> k <= fd /\ zget l (fd - k) = Some None /\
    forall j, k <= j < fd -> exists f, zget l (j - k) = Some (Some f).
Proof.
  revert k. induction l as [|[f|] l IH]; intros k; cbn [find_fd]; [done| |].
  - intros H. apply IH in H as (Hk & Hg & Hlow). split; [lia|]. split.
    + by apply zget_later.
    + intros j Hj. destruct (Z.eq_dec j k) as [->|]; [exists f; by rewrite Z.sub_diag|].
      destruct (Hlow j ltac:(lia)) as [g Hg']. exists g.
      by apply zget_later.
  - intros [= <-]. split; [lia|]. rewrite Z.sub_diag. split; [done|]. intros. lia.
Qed.

Lemma find_file_spec t k f :
  find_file t k = Some f -> k <= f /\ exists x, zget t (f - k) = Some x /\ fref x = 0.
Proof.
  revert k. induction t as [|x t IH]; intros k; cbn [find_file]; [done|].
  destruct (Z.eqb_spec (fref x) 0) as [Hz|Hz].
  - intros [= <-]. split; [lia|]. exists x. by rewrite Z.sub_diag.
  - intros H. apply IH in H as (Hk & y & Hg & Hy). split; [lia|]. exists y. split; [|done].
    by apply zget_later.
Qed.

Section Counted.
Context {St : Type} `{BlockStore St} `{Transactions St}.
Context {U : Type} `{UserMem U} `{UserStr U} {D : Type}.
Abbreviation ksys := (ksys (St := St) (U := U) (D := D)).
Implicit Types (s : ksys) (o : Z -> Z).

Definition counted o s : Prop :=
  forall f x, zget (ftable s) f = Some x -> fref x = refs (ofile (cur s)) f + o f.

Definition bump o (f d : Z) : Z -> Z := fun g => if decide (g = f) then o g + d else o g.

Lemma counted_ext o o' s : (forall f, o f = o' f) -> counted o s -> counted o' s.
Proof. intros He Hc f x Hf. rewrite (Hc f x Hf). by rewrite He. Qed.

Lemma bump_bump o f d e g : bump (bump o f d) f e g = bump o f (d + e) g.
Proof. unfold bump. case_decide; lia. Qed.

Lemma bump_zero o f g : bump o f 0 g = o g.
Proof. unfold bump. case_decide; lia. Qed.

(** The same descriptors and the same file table. *)
Definition same_files s s' : Prop := ftable s' = ftable s /\ ofile (cur s') = ofile (cur s).

Lemma counted_same o s s' : same_files s s' -> counted o s -> counted o s'.
Proof. intros [Hf Ho] Hc f x. rewrite Hf, Ho. apply Hc. Qed.

Lemma same_trans s s' s'' : same_files s s' -> same_files s' s'' -> same_files s s''.
Proof. intros [] []. split; congruence. Qed.

(** Computations that touch neither. *)
Definition apart {A} (m : M ksys A) : Prop := forall s a s', m s = Ok a s' -> same_files s s'.

Lemma apart_bind {A B} (m : M ksys A) (k : A -> M ksys B) :
  apart m -> (forall a, apart (k a)) -> apart (kbind m k).
Proof.
  intros Hm Hk s b s' E. apply kbind_Ok_inv in E as (a & s1 & E1 & E2).
  eapply same_trans; [by apply (Hm s a s1)|by apply (Hk a s1 b s')].
Qed.

Lemma apart_ret {A} (a : A) : apart (kret a).
Proof. by intros s b s' [= <- <-]. Qed.

Lemma apart_panic {A} msg : apart (@panic ksys A msg).
Proof. by intros s b s'. Qed.

Lemma apart_gets {A} (g : ksys -> A) : apart (kgets g).
Proof. by intros s b s' [= <- <-]. Qed.

Lemma apart_fs {A} (m : M (@fstate St) A) : apart (on_fs m).
Proof. intros s a s'. unfold on_fs. destruct (m (kfs s)); [|done..]. by intros [= <- <-]. Qed.

Lemma apart_pages {A} (m : M kstate A) : apart (on_pages m).
Proof. intros s a s'. unfold on_pages. destruct (m (pages s)); [|done..]. by intros [= <- <-]. Qed.

Lemma apart_set_pipes p : apart (set_pipes p).
Proof. by intros s a s' [= <- <-]. Qed.

Lemma apart_get_pipe p : apart (get_pipe p).
Proof. intros s a s'. unfold get_pipe. destruct (pipes s !! p); [|done]. by intros [= <- <-]. Qed.

Lemma apart_get_file f : apart (get_file f).
Proof. intros s a s'. unfold get_file. destruct (zget _ _); [|done]. by intros [= <- <-]. Qed.

Lemma apart_kopt {A} (x : option A) : apart (kopt x).
Proof. intros s a s'. unfold kopt. destruct x; [|done]. by intros [= <- <-]. Qed.

Lemma apart_set_umem u : apart (set_umem u).
Proof.
  intros s a s' E. unfold set_umem in E. apply kbind_Ok_inv in E as (c & s1 & [= <- <-] & E2).
  by injection E2 as <- <-.
Qed.

Lemma apart_sleep {A} c : apart (@ksleep ksys A c).
Proof. by intros s b s'. Qed.
End Counted.

Create HintDb apart.
#[export] Hint Resolve apart_ret apart_panic apart_gets apart_fs apart_pages apart_set_pipes
  apart_get_pipe apart_get_file apart_kopt apart_set_umem apart_sleep : apart.

(** Break a computation into its steps. *)
Ltac apart :=
  repeat first
    [ progress intros
    | solve [eauto with apart]
    | apply apart_bind
    | match goal with
      | |- apart (match ?x with _ => _ end) => destruct x
      | |- apart (let '(_, _) := ?x in _) => destruct x
      end ].

Section Calls.
Context {St : Type} `{BlockStore St} `{Transactions St}.
Context {U : Type} `{UserMem U} `{UserStr U} {D : Type}.
Context (kend me : Z).
Abbreviation ksys := (ksys (St := St) (U := U) (D := D)).
Implicit Types (s : ksys) (o : Z -> Z).

(** A change of a file and of a descriptor. *)
Lemma counted_put_file o s f x y s' :
  counted o s -> zget (ftable s) f = Some x -> put_file f y s = Ok tt s' ->
  counted (bump o f (fref y - fref x)) s'.
Proof.
  intros Hc Hf E. unfold put_file in E. destruct (zset (ftable s) f y) as [t|] eqn:Et; [|done].
  injection E as <-. intros g z. cbn [ftable cur]. unfold bump. case_decide as Hg.
  - subst g. rewrite (zget_zset_eq _ _ _ _ Et). intros [= <-]. pose proof (Hc f x Hf). lia.
  - rewrite (zget_zset_ne _ _ _ _ _ Et) by done. apply Hc.
Qed.

Lemma counted_set_ofile o s fd x old s' :
  counted o s -> zget (ofile (cur s)) fd = Some old -> set_ofile fd x s = Ok tt s' ->
  counted (fun g => o g + one old g - one x g) s' /\
  ftable s' = ftable s /\ zset (ofile (cur s)) fd x = Some (ofile (cur s')).
Proof.
  intros Hc Hold E. unfold set_ofile in E. apply kbind_Ok_inv in E as (c & s1 & [= <- <-] & E).
  apply kbind_Ok_inv in E as (l & s2 & E1 & E2). unfold kopt in E1.
  destruct (zset (ofile (cur s)) fd x) as [l'|] eqn:El; [|done]. injection E1 as -> <-.
  injection E2 as <-. split; [|done]. intros f y Hf. cbn [ftable cur ofile] in *.
  rewrite (Hc f y Hf), (refs_zset _ _ _ _ _ f El Hold). lia.
Qed.

Lemma counted_alloc o s r s' :
  counted o s -> filealloc s = Ok r s' ->
  match r with
  | Some f => counted (bump o f 1) s' /\ ofile (cur s') = ofile (cur s)
  | None => s' = s
  end.
Proof.
  intros Hc E. unfold filealloc in E. apply kbind_Ok_inv in E as (t & s1 & [= <- <-] & E).
  destruct (find_file (ftable s) 0) as [f|] eqn:Ef; [|by injection E as <- <-].
  apply find_file_spec in Ef as (_ & x & Hx & Hz). rewrite Z.sub_0_r in Hx.
  apply kbind_Ok_inv in E as (y & s2 & E1 & E2). unfold get_file in E1. rewrite Hx in E1.
  injection E1 as <- <-. apply kbind_Ok_inv in E2 as ([] & s3 & E2 & [= <- <-]).
  pose proof (counted_put_file o s f x _ s3 Hc Hx E2) as Hc3. cbn [fref with_fref] in Hc3.
  rewrite Hz in Hc3. split; [exact Hc3|]. unfold put_file in E2. destruct (zset _ _ _); [|done].
  by injection E2 as <-.
Qed.

Lemma counted_fdalloc o s f fd s' :
  counted o s -> fdalloc f s = Ok fd s' ->
  (fd = -1 /\ s' = s) \/
  (0 <= fd /\ counted (bump o f (-1)) s' /\ zget (ofile (cur s)) fd = Some None /\
   ftable s' = ftable s /\ zset (ofile (cur s)) fd (Some f) = Some (ofile (cur s'))).
Proof.
  intros Hc E. unfold fdalloc in E. apply kbind_Ok_inv in E as (c & s1 & [= <- <-] & E).
  destruct (find_fd (ofile (cur s)) 0) as [k|] eqn:Ek; [right|left; by injection E as <- <-].
  apply find_fd_spec in Ek as (Hk & Hg & _). rewrite Z.sub_0_r in Hg.
  apply kbind_Ok_inv in E as ([] & s2 & E1 & [= <- <-]).
  destruct (counted_set_ofile o s k (Some f) None s2 Hc Hg E1) as (Hc2 & Hf2 & Ho2).
  split; [done|]. split; [|done]. eapply counted_ext; [|exact Hc2]. intros g. unfold bump, one.
  rewrite (decide_False (P := None = Some g)) by done. repeat case_decide; simplify_eq; lia.
Qed.

Lemma counted_filedup o s f r s' :
  counted o s -> filedup f s = Ok r s' -> counted (bump o f 1) s' /\ ofile (cur s') = ofile (cur s).
Proof.
  intros Hc E. unfold filedup in E. apply kbind_Ok_inv in E as (x & s1 & E1 & E).
  unfold get_file in E1. destruct (zget (ftable s) f) as [y|] eqn:Hy; [|done]. injection E1 as <- <-.
  destruct (fref y <? 1); [done|]. apply kbind_Ok_inv in E as ([] & s2 & E2 & [= <- <-]).
  pose proof (counted_put_file o s f y _ s2 Hc Hy E2) as Hc2. cbn [fref with_fref] in Hc2.
  replace (fref y + 1 - fref y) with 1 in Hc2 by lia. split; [done|].
  unfold put_file in E2. destruct (zset _ _ _); [|done]. by injection E2 as <-.
Qed.

Lemma apart_close_pipe p w : apart (close_pipe (St := St) (U := U) (D := D) kend p w).
Proof. unfold close_pipe. apart. Qed.

Lemma counted_fileclose o s f s' :
  counted o s -> fileclose kend me f s = Ok tt s' ->
  counted (bump o f (-1)) s' /\ ofile (cur s') = ofile (cur s).
Proof.
  intros Hc E. unfold fileclose in E. apply kbind_Ok_inv in E as (x & s1 & E1 & E).
  unfold get_file in E1. destruct (zget (ftable s) f) as [y|] eqn:Hy; [|done]. injection E1 as <- <-.
  destruct (Z.ltb_spec (fref y) 1) as [|Hpos]; [done|].
  assert (forall z t, put_file f z s = Ok tt t -> fref z = fref y - 1 ->
            counted (bump o f (-1)) t /\ ofile (cur t) = ofile (cur s)) as Hput.
  { intros z t Et Hz. pose proof (counted_put_file o s f y z t Hc Hy Et) as Hct.
    rewrite Hz in Hct. replace (fref y - 1 - fref y) with (-1) in Hct by lia. split; [done|].
    unfold put_file in Et. destruct (zset _ _ _); [|done]. by injection Et as <-. }
  destruct (Z.ltb_spec 0 (fref y - 1)) as [Hmany|Hlast]; [by apply (Hput _ _ E)|].
  apply kbind_Ok_inv in E as ([] & s2 & E2 & E3).
  destruct (Hput _ _ E2) as [Hc2 Ho2]; [cbn; lia|].
  enough (same_files s2 s') as Hsame.
  { split; [by eapply counted_same|]. destruct Hsame as [_ ->]. done. }
  assert (apart (match ftype y with
    | FD_PIPE => close_pipe kend (fpipe y) (writable y)
    | FD_INODE | FD_DEVICE =>
        on_fs (on_store begin_op) ;;; on_fs (iput me (fip y)) ;;; on_fs (on_store end_op)
    | FD_NONE => kret tt
    end : M ksys unit)) as Hap; [|by apply (Hap _ _ _ E3)].
  pose proof apart_close_pipe. apart.
Qed.

(** ** System calls *)

Context (devsw_read devsw_write : Z -> option (Z -> Z -> M (D * U) Z)).
Context (killed : Z -> bool) (pad : list Z).

(** Computations after which the counts are right again. *)
Definition keeps {A} (m : M ksys A) : Prop :=
  forall o s a s', counted o s -> m s = Ok a s' -> counted o s'.

Lemma apart_keeps {A} (m : M ksys A) : apart m -> keeps m.
Proof. intros Hm o s a s' Hc E. eapply counted_same; [by eapply Hm|done]. Qed.

Lemma keeps_bind {A B} (m : M ksys A) (k : A -> M ksys B) :
  keeps m -> (forall a, keeps (k a)) -> keeps (kbind m k).
Proof.
  intros Hm Hk o s b s' Hc E. apply kbind_Ok_inv in E as (a & s1 & E1 & E2).
  eapply Hk; [|exact E2]. by eapply Hm.
Qed.

Lemma apart_argraw n : apart (argraw (St := St) (U := U) (D := D) n).
Proof. unfold argraw. apart. Qed.
Lemma apart_argint n : apart (argint (St := St) (U := U) (D := D) n).
Proof. pose proof (apart_argraw n). unfold argint. apart. Qed.
Lemma apart_argaddr n : apart (argaddr (St := St) (U := U) (D := D) n).
Proof. apply apart_argraw. Qed.
Lemma apart_argstr n m : apart (argstr (St := St) (U := U) (D := D) n m).
Proof. pose proof (apart_argaddr n). unfold argstr, fetchstr. apart. Qed.
Lemma apart_argfd n : apart (argfd (St := St) (U := U) (D := D) n).
Proof. pose proof (apart_argint n). unfold argfd. apart. Qed.
Lemma apart_leave {A} (r : A) : apart (leave (St := St) (U := U) (D := D) r).
Proof. unfold leave, end_tx. apart. Qed.
Lemma apart_to_user addr bs : apart (to_user (St := St) (U := U) (D := D) addr bs).
Proof. unfold to_user. apart. Qed.
Lemma apart_on_dev {A} (m : M (D * U) A) : apart (on_dev (St := St) m).
Proof. intros s a s'. unfold on_dev. destruct (m _); [|done..]. by intros [= <- <-]. Qed.

Lemma apart_create path t mj mn : apart (create (St := St) (U := U) (D := D) me path t mj mn).
Proof.
  unfold create, lookup_parent, create_entries, change_nlink, create_fail. apart.
Qed.

Lemma apart_open_inode path omode : apart (open_inode (St := St) (U := U) (D := D) me path omode).
Proof. pose proof apart_create. unfold open_inode, lookup_path. apart. Qed.

Lemma set_cwd_keeps ip : apart (set_cwd (St := St) (U := U) (D := D) ip).
Proof.
  intros s a s' E. unfold set_cwd in E. apply kbind_Ok_inv in E as (c & s1 & [= <- <-] & E2).
  by injection E2 as <- <-.
Qed.
End Calls.

#[export] Hint Resolve apart_argraw apart_argint apart_argaddr apart_argstr apart_argfd apart_leave
  apart_to_user apart_on_dev apart_create apart_open_inode set_cwd_keeps apart_close_pipe : apart.

Section Keeps.
Context {St : Type} `{BlockStore St} `{Transactions St}.
Context {U : Type} `{UserMem U} `{UserStr U} {D : Type}.
Context (kend me : Z) (devsw_read devsw_write : Z -> option (Z -> Z -> M (D * U) Z)).
Context (killed : Z -> bool) (pad : list Z).
Abbreviation ksys := (ksys (St := St) (U := U) (D := D)).
Implicit Types (s : ksys) (o : Z -> Z).

(** The calls that name no file of the table. *)
Lemma keeps_sys_link : keeps (D := D) (sys_link (U := U) me).
Proof.
  apply apart_keeps. unfold sys_link, link_bad, change_nlink, lookup_parent, lookup_path, begin_tx. apart.
Qed.

Lemma keeps_sys_unlink : keeps (D := D) (sys_unlink (U := U) me).
Proof.
  apply apart_keeps. unfold sys_unlink, unlink_bad, change_nlink, lookup_parent, begin_tx. apart.
Qed.

Lemma keeps_sys_mkdir : keeps (D := D) (sys_mkdir (U := U) me).
Proof. apply apart_keeps. unfold sys_mkdir, made, begin_tx. apart. Qed.

Lemma keeps_sys_mknod : keeps (D := D) (sys_mknod (U := U) me).
Proof. apply apart_keeps. unfold sys_mknod, made, begin_tx. apart. Qed.

Lemma keeps_sys_chdir : keeps (D := D) (sys_chdir (U := U) me).
Proof. apply apart_keeps. unfold sys_chdir, lookup_path, begin_tx, end_tx. apart. Qed.

Lemma keeps_sys_fstat : keeps (D := D) (sys_fstat (U := U) me pad).
Proof. apply apart_keeps. unfold sys_fstat, filestat. apart. Qed.

(** An offset changed in a file read before. *)
Lemma keeps_offset f (m : file -> M ksys Z) (k : Z -> M ksys Z) (g : file -> Z -> Z) :
  (forall x, apart (m x)) -> (forall r, apart (k r)) ->
  forall x o s r s', counted o s -> zget (ftable s) f = Some x ->
    (let! r := m x in
     (if 0 <? r then put_file f (with_foff x (g x r)) else kret tt) ;;; k r) s = Ok r s' ->
    counted o s'.
Proof.
  intros Hm Hk x o s r s' Hc Hx E. apply kbind_Ok_inv in E as (a & s1 & E1 & E).
  pose proof (Hm x _ _ _ E1) as Hs1. apply kbind_Ok_inv in E as ([] & s2 & E2 & E3).
  eapply counted_same; [by eapply Hk|]. pose proof (counted_same o _ _ Hs1 Hc) as Hc1.
  destruct (0 <? a); [|by injection E2 as <-].
  assert (zget (ftable s1) f = Some x) as Hx1 by (destruct Hs1 as [-> _]; done).
  eapply counted_ext; [|exact (counted_put_file o s1 f x _ s2 Hc1 Hx1 E2)].
  intros h. cbn [fref with_foff]. rewrite Z.sub_diag. apply bump_zero.
Qed.

Lemma keeps_fileread f addr n : keeps (D := D) (fileread (U := U) me devsw_read killed f addr n).
Proof.
  intros o s r s' Hc E. unfold fileread in E. apply kbind_Ok_inv in E as (x & s1 & E1 & E).
  unfold get_file in E1. destruct (zget (ftable s) f) as [y|] eqn:Hy; [|done]. injection E1 as <- <-.
  destruct (negb (readable y)); [by injection E as <- <-|].
  destruct (ftype y).
  - done.
  - assert (apart (St := St) (D := D) (read_pipe (U := U) killed (fpipe y) addr n)) as Ha.
    { unfold read_pipe. apart. }
    eapply counted_same; [by eapply Ha|done].
  - apply kbind_Ok_inv in E as ([] & s2 & E2 & E). pose proof (apart_fs _ _ _ _ E2) as Hs2.
    eapply (keeps_offset f (fun x => read_inode (fip x) addr (foff x) n)
              (fun r => on_fs (iunlock me (fip y)) ;;; kret r) (fun x r => u32 (foff x + r))); [..|exact E].
    + intros x. unfold read_inode. apart.
    + intros r1. apart.
    + by eapply counted_same.
    + destruct Hs2 as [-> _]. done.
  - assert (apart (St := St) (D := D) (dev_call (St := St) devsw_read (fmajor y) addr n)) as Ha.
    { unfold dev_call. apart. }
    eapply counted_same; [by eapply Ha|done].
Qed.

Lemma keeps_write_some f addr n : keeps (D := D) (write_some (U := U) me f addr n).
Proof.
  intros o s r s' Hc E. unfold write_some in E. apply kbind_Ok_inv in E as (x & s1 & E1 & E).
  unfold get_file in E1. destruct (zget (ftable s) f) as [y|] eqn:Hy; [|done]. injection E1 as <- <-.
  apply kbind_Ok_inv in E as ([] & s2 & E2 & E). pose proof (apart_fs _ _ _ _ E2) as Hs2.
  apply kbind_Ok_inv in E as ([] & s3 & E3 & E). pose proof (apart_fs _ _ _ _ E3) as Hs3.
  pose proof (same_trans _ _ _ Hs2 Hs3) as Hs.
  eapply (keeps_offset f (fun x => write_inode (fip x) addr (foff x) n)
            (fun r => on_fs (iunlock me (fip y)) ;;; on_fs (on_store end_op) ;;; kret r)
            (fun x r => u32 (foff x + r))); [..|exact E].
  - intros x. unfold write_inode. apart.
  - intros r1. apart.
  - by eapply counted_same.
  - destruct Hs as [-> _]. done.
Qed.

Lemma keeps_filewrite f addr n : keeps (D := D) (filewrite (U := U) me devsw_write killed f addr n).
Proof.
  assert (forall k i, keeps (D := D) (filewrite_loop (U := U) me k f addr n i)) as Hloop.
  { intros k. induction k as [|k IH]; intros i; cbn [filewrite_loop]; [apply apart_keeps; apart|].
    destruct (i <? n); [|apply apart_keeps; apart].
    apply keeps_bind; [apply keeps_write_some|]. intros r. destruct (_ =? _); [done|].
    apply apart_keeps; apart. }
  unfold filewrite. apply keeps_bind; [apply apart_keeps; apart|]. intros x.
  destruct (negb (writable x)); [apply apart_keeps; apart|]. destruct (ftype x).
  - apply apart_keeps. apart.
  - apply apart_keeps. unfold write_pipe. apart.
  - apply keeps_bind; [done|]. intros i. apply apart_keeps. apart.
  - apply apart_keeps. unfold dev_call. apart.
Qed.

Lemma keeps_sys_read : keeps (D := D) (sys_read (U := U) me devsw_read killed).
Proof.
  unfold sys_read. repeat (apply keeps_bind; [apply apart_keeps; apart|]; intros).
  destruct a1 as [[fd f]|]; [apply keeps_fileread|apply apart_keeps; apart].
Qed.

Lemma keeps_sys_write : keeps (D := D) (sys_write (U := U) me devsw_write killed).
Proof.
  unfold sys_write. repeat (apply keeps_bind; [apply apart_keeps; apart|]; intros).
  destruct a1 as [[fd f]|]; [apply keeps_filewrite|apply apart_keeps; apart].
Qed.

(** What [argfd] finds. *)
Lemma argfd_found n s fd f s' :
  argfd n s = Ok (Some (fd, f)) s' -> s' = s /\ zget (ofile (cur s)) fd = Some (Some f).
Proof.
  intros E. unfold argfd, argint, argraw in E.
  apply kbind_Ok_inv in E as (x & s1 & E1 & E). apply kbind_Ok_inv in E1 as (y & s2 & E1 & [= <- <-]).
  apply kbind_Ok_inv in E1 as (c & s3 & [= <- <-] & E1).
  assert (s2 = s) as -> by (unfold kopt in E1; repeat case_match; unfold kret in *; simplify_eq; done).
  apply kbind_Ok_inv in E as (c & s3 & [= <- <-] & E).
  unfold kret in E. repeat case_match; simplify_eq; done.
Qed.

Lemma keeps_sys_dup : keeps (D := D) (sys_dup (U := U) (St := St)).
Proof.
  intros o s r s' Hc E. unfold sys_dup in E. apply kbind_Ok_inv in E as ([[fd f]|] & s1 & E1 & E).
  2: { injection E as <- <-. eapply counted_same; [by eapply apart_argfd|done]. }
  apply argfd_found in E1 as [-> Hfd]. apply kbind_Ok_inv in E as (fd' & s2 & E2 & E).
  destruct (counted_fdalloc o s f fd' s2 Hc E2) as [[-> ->]|(Hpos & Hc2 & _)].
  - by injection E as <- <-.
  - rewrite (proj2 (Z.ltb_ge fd' 0)) in E by done.
    apply kbind_Ok_inv in E as (x & s3 & E3 & [= <- <-]).
    destruct (counted_filedup _ _ _ _ _ Hc2 E3) as [Hc3 _].
    eapply counted_ext; [|exact Hc3]. intros g. rewrite bump_bump. apply bump_zero.
Qed.

Lemma keeps_sys_close : keeps (D := D) (sys_close (U := U) (St := St) kend me).
Proof.
  intros o s r s' Hc E. unfold sys_close in E. apply kbind_Ok_inv in E as ([[fd f]|] & s1 & E1 & E).
  2: { injection E as <- <-. eapply counted_same; [by eapply apart_argfd|done]. }
  apply argfd_found in E1 as [-> Hfd]. apply kbind_Ok_inv in E as ([] & s2 & E2 & E).
  destruct (counted_set_ofile o s fd None (Some f) s2 Hc Hfd E2) as (Hc2 & _ & _).
  apply kbind_Ok_inv in E as ([] & s3 & E3 & [= <- <-]).
  destruct (counted_fileclose kend me _ _ _ _ Hc2 E3) as [Hc3 _].
  eapply counted_ext; [|exact Hc3]. intros g. unfold bump, one.
  rewrite (decide_False (P := None = Some g)) by done. repeat case_decide; simplify_eq; lia.
Qed.

(** A file replaced by one with the same reference count. *)
Lemma counted_reput o s f y x s1 s' :
  counted o s -> get_file f s = Ok x s1 -> put_file f y s1 = Ok tt s' -> fref y = fref x ->
  counted o s'.
Proof.
  intros Hc E1 E2 Hr. unfold get_file in E1. destruct (zget (ftable s) f) as [z|] eqn:Hz; [|done].
  injection E1 as <- <-. eapply counted_ext; [|exact (counted_put_file o s f z y s' Hc Hz E2)].
  intros g. rewrite Hr, Z.sub_diag. apply bump_zero.
Qed.

Lemma counted_pipealloc o s r s' :
  counted o s -> pipealloc kend me s = Ok r s' ->
  match r with
  | Some (f0, f1) => counted (bump (bump o f0 1) f1 1) s'
  | None => counted o s'
  end.
Proof.
  assert (forall o f g, bump (bump o f 1) f (-1) g = o g) as Hback.
  { intros o' f g. rewrite bump_bump. apply bump_zero. }
  intros Hc E. unfold pipealloc in E. apply kbind_Ok_inv in E as ([f0|] & s1 & E1 & E).
  2: { apply counted_alloc with (o := o) in E1; [subst|done]. by injection E as <- <-. }
  apply counted_alloc with (o := o) in E1 as [Hc1 _]; [|done].
  apply kbind_Ok_inv in E as ([f1|] & s2 & E2 & E);
    apply counted_alloc with (o := bump o f0 1) in E2; try done.
  2: { subst s2. apply kbind_Ok_inv in E as ([] & s3 & E3 & [= <- <-]).
       destruct (counted_fileclose kend me _ _ _ _ Hc1 E3) as [Hc3 _]. exact (counted_ext _ _ _ (Hback o f0) Hc3). }
  destruct E2 as [Hc2 _]. apply kbind_Ok_inv in E as (page & s3 & E3 & E).
  pose proof (counted_same _ _ _ (apart_pages _ _ _ _ E3) Hc2) as Hc3.
  destruct (page =? 0).
  { apply kbind_Ok_inv in E as ([] & s4 & E4 & E). apply kbind_Ok_inv in E as ([] & s5 & E5 & [= <- <-]).
    destruct (counted_fileclose kend me _ _ _ _ Hc3 E4) as [Hc4 _].
    destruct (counted_fileclose kend me _ _ _ _ Hc4 E5) as [Hc5 _].
    eapply counted_ext; [|exact Hc5]. intros g. unfold bump. repeat case_decide; lia. }
  apply kbind_Ok_inv in E as (ps & s4 & [= <- <-] & E). apply kbind_Ok_inv in E as (m & s5 & [= <- <-] & E).
  apply kbind_Ok_inv in E as ([] & s6 & E6 & E).
  pose proof (counted_same _ _ _ (apart_set_pipes _ _ _ _ E6) Hc3) as Hc6.
  apply kbind_Ok_inv in E as (x0 & s7 & E7 & E). apply kbind_Ok_inv in E as ([] & s8 & E8 & E).
  pose proof (counted_reput _ _ _ _ _ _ _ Hc6 E7 E8 eq_refl) as Hc8.
  apply kbind_Ok_inv in E as (x1 & s9 & E9 & E). apply kbind_Ok_inv in E as ([] & s10 & E10 & [= <- <-]).
  exact (counted_reput _ _ _ _ _ _ _ Hc8 E9 E10 eq_refl).
Qed.

(** Both ends given back. *)
Lemma counted_close_both o s f0 f1 r s' :
  counted o s -> close_both kend me f0 f1 s = Ok r s' -> counted (bump (bump o f0 (-1)) f1 (-1)) s'.
Proof.
  intros Hc E. unfold close_both in E. apply kbind_Ok_inv in E as ([] & s1 & E1 & E).
  apply kbind_Ok_inv in E as ([] & s2 & E2 & [= <- <-]).
  destruct (counted_fileclose kend me _ _ _ _ Hc E1) as [Hc1 _].
  by destruct (counted_fileclose kend me _ _ _ _ Hc1 E2) as [Hc2 _].
Qed.

Lemma one_None g : one None g = 0.
Proof. unfold one. by rewrite decide_False. Qed.

Lemma one_Some f g : one (Some f) g = if decide (g = f) then 1 else 0.
Proof. unfold one. repeat case_decide; simplify_eq; done. Qed.

(** The error exits of [sys_pipe] and [sys_open] balance. *)
Ltac balance :=
  eapply counted_ext; [|eassumption]; intros ?; unfold bump; rewrite ?one_None, ?one_Some;
  repeat case_decide; simplify_eq; lia.

Lemma keeps_sys_pipe : keeps (D := D) (sys_pipe (U := U) (St := St) kend me).
Proof.
  intros o s r s' Hc E. unfold sys_pipe in E. apply kbind_Ok_inv in E as (addr & s1 & E1 & E).
  pose proof (counted_same _ _ _ (apart_argaddr _ _ _ _ E1) Hc) as Hc1.
  apply kbind_Ok_inv in E as (p & s2 & E2 & E).
  pose proof (counted_pipealloc _ _ _ _ Hc1 E2) as Hc2.
  destruct p as [[rf wf]|]; [|by injection E as <- <-].
  apply kbind_Ok_inv in E as (fd0 & s3 & E3 & E).
  destruct (counted_fdalloc _ _ _ _ _ Hc2 E3) as [[-> ->]|(Hf0 & Hc3 & _ & _ & Hz0)].
  { pose proof (counted_close_both _ _ _ _ _ _ Hc2 E). balance. }
  rewrite (proj2 (Z.ltb_ge fd0 0)) in E by done. apply zget_zset_eq in Hz0.
  apply kbind_Ok_inv in E as (fd1 & s4 & E4 & E).
  destruct (counted_fdalloc _ _ _ _ _ Hc3 E4) as [[-> ->]|(Hf1 & Hc4 & Hfree & _ & Hz1)].
  { cbn [Z.ltb Z.compare] in E. apply kbind_Ok_inv in E as ([] & s5 & E5 & E).
    destruct (counted_set_ofile _ _ _ _ _ _ Hc3 Hz0 E5) as (Hc5 & _ & _).
    pose proof (counted_close_both _ _ _ _ _ _ Hc5 E). balance. }
  rewrite (proj2 (Z.ltb_ge fd1 0)) in E by done.
  assert (fd1 <> fd0) as Hne by congruence.
  assert (zget (ofile (cur s4)) fd0 = Some (Some rf)) as Hg0
    by (by rewrite (zget_zset_ne _ _ _ _ _ Hz1)).
  apply zget_zset_eq in Hz1.
  apply kbind_Ok_inv in E as (ok & s5 & E5 & E). pose proof (apart_to_user _ _ _ _ _ E5) as Ha5.
  apply kbind_Ok_inv in E as (ok' & s6 & E6 & E).
  assert (same_files s4 s6) as Ha6.
  { eapply same_trans; [done|]. destruct ok; [by eapply apart_to_user|by injection E6 as <- <-]. }
  pose proof (counted_same _ _ _ Ha6 Hc4) as Hc6. destruct Ha6 as [_ Ho6].
  destruct ok'; [injection E as <- <-; balance|].
  apply kbind_Ok_inv in E as ([] & s7 & E7 & E). rewrite <- Ho6 in Hg0, Hz1.
  destruct (counted_set_ofile _ _ _ _ _ _ Hc6 Hg0 E7) as (Hc7 & _ & Hs7).
  apply kbind_Ok_inv in E as ([] & s8 & E8 & E).
  assert (zget (ofile (cur s7)) fd1 = Some (Some wf)) as Hg1
    by (by rewrite (zget_zset_ne _ _ _ _ _ Hs7)).
  destruct (counted_set_ofile _ _ _ _ _ _ Hc7 Hg1 E8) as (Hc8 & _ & _).
  pose proof (counted_close_both _ _ _ _ _ _ Hc8 E). balance.
Qed.

Lemma keeps_sys_open : keeps (D := D) (sys_open (U := U) (St := St) kend me).
Proof.
  unfold sys_open. apply keeps_bind; [apply apart_keeps; apart|]. intros omode.
  apply keeps_bind; [apply apart_keeps; apart|]. intros [path|]; [|apply apart_keeps; apart].
  apply keeps_bind; [apply apart_keeps; unfold begin_tx; apart|]. intros _.
  apply keeps_bind; [apply apart_keeps; apart|]. intros [ip|]; [|apply apart_keeps; apart].
  intros o s r s' Hc E. unfold open_fd in E. apply kbind_Ok_inv in E as (x & s1 & E1 & E).
  pose proof (counted_same _ _ _ (apart_fs _ _ _ _ E1) Hc) as Hc1.
  assert (forall B (b : B), apart (D := D) (on_fs (U := U) (St := St) (iunlockput me ip) ;;; leave b)) as Hout.
  { intros B b. apart. }
  destruct (_ && _); [eapply counted_same; [by eapply Hout|done]|].
  apply kbind_Ok_inv in E as ([f|] & s2 & E2 & E); apply (counted_alloc o) in E2; try done.
  2: { subst s2. eapply counted_same; [by eapply Hout|done]. }
  destruct E2 as [Hc2 _]. apply kbind_Ok_inv in E as (fd & s3 & E3 & E).
  destruct (counted_fdalloc _ _ _ _ _ Hc2 E3) as [[-> ->]|(Hfd & Hc3 & _)].
  - cbn [Z.ltb Z.compare] in E. apply kbind_Ok_inv in E as ([] & s4 & E4 & E).
    destruct (counted_fileclose kend me _ _ _ _ Hc2 E4) as [Hc4 _].
    assert (counted o s4) as Hc4' by balance. eapply counted_same; [by eapply Hout|done].
  - rewrite (proj2 (Z.ltb_ge fd 0)) in E by done.
    assert (counted o s3) as Hc3' by balance.
    apply kbind_Ok_inv in E as (y & s4 & E4 & E).
    pose proof (counted_same _ _ _ (apart_fs _ _ _ _ E4) Hc3') as Hc4.
    apply kbind_Ok_inv in E as (fx & s5 & E5 & E). apply kbind_Ok_inv in E as ([] & s6 & E6 & E).
    pose proof (counted_reput _ _ _ _ _ _ _ Hc4 E5 E6 eq_refl) as Hc6.
    assert (apart (St := St) (U := U) (D := D)
      ((if flag omode O_TRUNC && (type y =? T_FILE) then on_fs (itrunc ip) else kret tt) ;;;
       on_fs (iunlock me ip) ;;; leave fd)) as Hrest by apart.
    eapply counted_same; [by eapply Hrest|done].
Qed.
End Keeps.

(** ** Every call keeps the counts *)

Lemma find_fd_none (l : list (option Z)) k : find_fd l k = None -> Forall (fun x => x <> None) l.
Proof.
  revert k. induction l as [|[f|] l IH]; intros k; cbn [find_fd]; [constructor| |done].
  intros H. constructor; [done|]. by eapply IH.
Qed.

Lemma zset_back {A} (l l' : list A) i x y :
  zset l i y = Some l' -> zget l i = Some x -> zset l' i x = Some l.
Proof.
  intros Hs Hg. apply zset_Some in Hs as [Hi ->]. apply zget_Some in Hg as [_ Hg].
  rewrite zset_in by (rewrite length_insert; lia).
  by rewrite list_insert_insert_eq, list_insert_id.
Qed.

Section Calls.
Context {St : Type} `{BlockStore St} `{Transactions St}.
Context {U : Type} `{UserMem U} `{UserStr U} {D : Type}.
Abbreviation ksys := (ksys (St := St) (U := U) (D := D)).
Implicit Types (s : ksys) (o : Z -> Z).

(** C10. Each of the file system calls, on every path that returns to the
    caller (the error exits of [sys_open] and [sys_pipe] included), leaves the
    reference count of every open file equal to the number of descriptors that
    refer to it: [o] counts those of the other processes. *)
Theorem calls_counted kend me devsw_read devsw_write killed pad num call o s r s' :
  file_call kend me devsw_read devsw_write killed pad num = Some call ->
  counted o s -> call s = Ok r s' -> counted o s'.
Proof.
  intros Hcall. enough (keeps call) as Hk by apply Hk.
  unfold file_call in Hcall. repeat case_match; try done; injection Hcall as <-;
    first [apply keeps_sys_pipe|apply keeps_sys_read|apply keeps_sys_fstat|apply keeps_sys_chdir
          |apply keeps_sys_dup|apply keeps_sys_open|apply keeps_sys_write|apply keeps_sys_mknod
          |apply keeps_sys_unlink|apply keeps_sys_link|apply keeps_sys_mkdir|apply keeps_sys_close].
Qed.

(** The state with other arguments for the next call. *)
Definition with_args s (a : list Z) : ksys :=
  {| kfs := kfs s; ftable := ftable s; pipes := pipes s; pages := pages s; devs := devs s;
     cur := {| umem := umem (cur s); psize := psize (cur s); args := a; ofile := ofile (cur s);
               cwd := cwd (cur s) |} |}.

(** The state with other descriptors and another file table. *)
Definition duped s (l : list (option Z)) (t : list file) : ksys :=
  {| kfs := kfs s; ftable := t; pipes := pipes s; pages := pages s; devs := devs s;
     cur := {| umem := umem (cur s); psize := psize (cur s); args := args (cur s); ofile := l;
               cwd := cwd (cur s) |} |}.

Lemma argfd_runs s a fd f :
  zget (args (cur s)) 0 = Some a -> i32 a = fd -> 0 <= fd < NOFILE ->
  zget (ofile (cur s)) fd = Some (Some f) -> argfd 0 s = Ok (Some (fd, f)) s.
Proof.
  intros Ha <- Hfd Hf. unfold argfd, argint, argraw, kbind, kgets, kopt, kret. cbn. rewrite Ha.
  rewrite (proj2 (Z.ltb_ge (i32 a) 0)), (proj2 (Z.leb_gt NOFILE (i32 a))) by lia.
  cbn. by rewrite Hf.
Qed.

(** [sys_dup] when a slot is free. *)
Lemma sys_dup_runs s fd f x k :
  argfd 0 s = Ok (Some (fd, f)) s -> zget (ftable s) f = Some x -> 0 < fref x ->
  find_fd (ofile (cur s)) 0 = Some k ->
  exists l t, zset (ofile (cur s)) k (Some f) = Some l /\
    zset (ftable s) f (with_fref x (fref x + 1)) = Some t /\ sys_dup s = Ok k (duped s l t).
Proof.
  intros Ha Hx Hr Hk. pose proof (find_fd_spec _ _ _ Hk) as (Hk0 & Hz & _). rewrite Z.sub_0_r in Hz.
  apply zget_Some in Hz as [Hkl _]. pose proof Hx as [Hfl _]%zget_Some.
  eexists _, _. split; [by apply zset_in|]. split; [by apply zset_in|].
  unfold sys_dup. rewrite (kbind_Ok _ _ _ _ _ Ha).
  unfold fdalloc, set_ofile, filedup, set_cur, get_file, put_file, kbind, kgets, kopt, kret. cbn.
  rewrite Hk, zset_in by done. cbn. rewrite (proj2 (Z.ltb_ge k 0)) by lia. cbn. rewrite Hx.
  rewrite (proj2 (Z.ltb_ge (fref x) 1)) by lia. cbn. by rewrite zset_in.
Qed.

(** [sys_close] of a descriptor whose file has other references. *)
Lemma sys_close_runs kend me s k f x l t :
  argfd 0 s = Ok (Some (k, f)) s -> zget (ftable s) f = Some x -> 1 < fref x ->
  zset (ofile (cur s)) k None = Some l -> zset (ftable s) f (with_fref x (fref x - 1)) = Some t ->
  sys_close kend me s = Ok 0 (duped s l t).
Proof.
  intros Ha Hx Hr Hl Ht. unfold sys_close. rewrite (kbind_Ok _ _ _ _ _ Ha).
  unfold set_ofile, fileclose, set_cur, get_file, put_file, kbind, kgets, kopt, kret. cbn.
  rewrite Hl. cbn. rewrite Hx. rewrite (proj2 (Z.ltb_ge (fref x) 1)) by lia.
  rewrite (proj2 (Z.ltb_lt 0 (fref x - 1))) by lia. cbn. by rewrite Ht.
Qed.

(** C37. [sys_dup] of a valid descriptor returns the lowest free descriptor, makes
    it refer to the same file and counts the reference, or returns -1 and
    changes nothing when all descriptors are in use; closing the new descriptor
    brings back the state before the [dup].  Neither call panics. *)
Theorem dup_close_roundtrip kend me o s fd f x :
  counted o s -> (forall g, 0 <= o g) -> length (ofile (cur s)) = Z.to_nat NOFILE ->
  argfd 0 s = Ok (Some (fd, f)) s -> zget (ftable s) f = Some x ->
  (sys_dup s = Ok (-1) s /\ Forall (fun d => d <> None) (ofile (cur s))) \/
  (exists k l t, sys_dup s = Ok k (duped s l t) /\
    zget (ofile (cur s)) k = Some None /\
    (forall j, 0 <= j < k -> exists g, zget (ofile (cur s)) j = Some (Some g)) /\
    zset (ofile (cur s)) k (Some f) = Some l /\
    zset (ftable s) f (with_fref x (fref x + 1)) = Some t /\
    forall a, zget a 0 = Some k ->
      sys_close kend me (with_args (duped s l t) a) = Ok 0 (with_args s a)).
Proof.
  intros Hc Ho Hlen Ha Hx. pose proof (argfd_found _ _ _ _ _ Ha) as [_ Hfd].
  pose proof (refs_pos _ _ _ Hfd) as Hpos. pose proof (Hc f x Hx) as Href. pose proof (Ho f) as Hof.
  destruct (find_fd (ofile (cur s)) 0) as [k|] eqn:Hk; [right|left].
  - destruct (sys_dup_runs s fd f x k Ha Hx ltac:(lia) Hk) as (l & t & Hl & Ht & E).
    pose proof (find_fd_spec _ _ _ Hk) as (Hk0 & Hz & Hlow). rewrite Z.sub_0_r in Hz.
    exists k, l, t. split; [done|]. split; [done|]. split.
    { intros j Hj. rewrite <- (Z.sub_0_r j). auto. }
    do 2 (split; [done|]). intros a Hka.
    assert (0 <= k < NOFILE) as Hkn.
    { apply zget_Some in Hz as [Hz _]. rewrite Hlen, Z2Nat.id in Hz by done. done. }
    rewrite (sys_close_runs kend me _ k f (with_fref x (fref x + 1)) (ofile (cur s)) (ftable s)).
    + unfold duped, with_args. cbn. by destruct s as [? ? ? ? ? []].
    + eapply argfd_runs; [done|..|done|by apply zget_zset_eq in Hl].
      apply i32_small. unfold NOFILE in Hkn. lia.
    + by apply zget_zset_eq in Ht.
    + cbn. lia.
    + cbn. by eapply zset_back.
    + cbn. rewrite Z.add_simpl_r. eapply zset_back; [done|]. rewrite Hx. by destruct x.
  - split; [|by eapply find_fd_none]. unfold sys_dup. rewrite (kbind_Ok _ _ _ _ _ Ha).
    unfold fdalloc, kbind, kgets, kret. cbn. by rewrite Hk.
Qed.
End Calls.

(** ** A process with one open file *)

Definition desk (fds : list (option Z)) (refcount : Z) : ksys (St := bview) (U := list Z) (D := unit) :=
  {| kfs := {| st := {| contents := fun _ => []; held := ∅; dirty := ∅; logged := ∅ |};
               sb := SuperBlock 0 0 0 0 0 0 0 0; itable := [] |};
     ftable := [with_fref file0 refcount; file0]; pipes := ∅;
     pages := {| kmem := fun _ => 0; freelist := 0 |}; devs := tt;
     cur := {| umem := []; psize := 0; args := [0]; ofile := fds; cwd := 0 |} |}.

Lemma desk_counted fds n : refs fds 0 = n -> refs fds 1 = 0 -> counted (fun _ => 0) (desk fds n).
Proof.
  intros H0 H1 f x [Hf Hx]%zget_Some. cbn in Hf, Hx.
  assert (f = 0 \/ f = 1) as [-> | ->] by lia; injection Hx as <-; cbn; lia.
Qed.

Lemma calls_counted_witness :
  exists s' : ksys (St := bview) (U := list Z) (D := unit),
    counted (fun _ => 0) s' /\ map fref (ftable s') = [0; 0].
Proof.
  eexists. split.
  - apply (calls_counted (U := list Z) (D := unit) 0 1 (fun _ => None) (fun _ => None) (fun _ => false) []
             21 (sys_close 0 1) (fun _ => 0) (desk [Some 0; None] 1) 0); [reflexivity| |vm_compute; reflexivity].
    by apply desk_counted.
  - reflexivity.
Defined.

Lemma dup_close_roundtrip_witness :
  exists k l t, sys_dup (desk ([Some 0] ++ replicate 15 None) 1)
                  = Ok k (duped (desk ([Some 0] ++ replicate 15 None) 1) l t) /\ k = 1.
Proof.
  destruct (dup_close_roundtrip 0 1 (fun _ => 0) (desk ([Some 0] ++ replicate 15 None) 1) 0 0
              (with_fref file0 1)) as [[E _]|(k & l & t & E & Hk & _)].
  - by apply desk_counted.
  - done.
  - reflexivity.
  - reflexivity.
  - reflexivity.
  - vm_compute in E. discriminate.
  - exists k, l, t. split; [exact E|]. vm_compute in E. congruence.
Defined.
