(* ===== verification/FileTheorems.v ===== *)
(** [filewrite] ([kernel/file.c]) and the log: a write is split into
    transactions, and each of them fits the reservation of [begin_op]. *)

From stdpp Require Import functions.
From S2P Require Import Prelude Mem Sleeplock UserMem Block Bio BlockStore.
From S2P Require Import Fs FsBlocks FsInode FsFile FsData FsTrunc FsTheorems Kalloc Pipe File.

Section Chunk.
Implicit Types (v : bview) (B : superblock).

Lemma bitmap_one B : 0 <= sb_size B < BPB -> bitmap B = {[bmapstart B]}.
Proof.
  intros HB. unfold bitmap. rewrite Z.div_small by done.
  apply set_eq. intros b. rewrite elem_of_list_to_set, elem_of_seqZ, elem_of_singleton. lia.
Qed.

Lemma blocks_of_chunk off n : 0 <= n <= max_write -> (blocks_of off n <= 4)%nat.
Proof.
  intros Hn. unfold blocks_of. change max_write with (3 * BSIZE) in Hn.
  pose proof (Z.mod_pos_bound off BSIZE ltac:(done)).
  assert ((off mod BSIZE + n + BSIZE - 1) / BSIZE < 5); [|lia].
  apply Z.div_lt_upper_bound; unfold BSIZE in *; lia.
Qed.

(** The reservation of one operation is room for a chunk. *)
Lemma chunk_room v B ip off n :
  0 <= sb_size B < BPB -> 0 <= n <= max_write -> dirty v = ∅ -> held v = ∅ ->
  (base.size (logged v) + Z.to_nat MAXOPBLOCKS <= log_cap)%nat ->
  room (write_log B ip) (2 * blocks_of off n) 2 v.
Proof.
  intros HB Hn Hd Hh Hl. pose proof (blocks_of_chunk off n Hn) as Hb. split; [done| |].
  - unfold write_log. rewrite bitmap_one by done.
    pose proof (size_insert_le ({[bmapstart B]} ∪ logged v) (IBLOCK (inum ip) B)) as H1.
    pose proof (size_insert_le (logged v) (bmapstart B)) as H2.
    replace (logged v ∪ ({[IBLOCK (inum ip) B]} ∪ {[bmapstart B]}))
      with ({[IBLOCK (inum ip) B]} ∪ ({[bmapstart B]} ∪ logged v)) by set_solver +.
    change (Z.to_nat MAXOPBLOCKS) with 10%nat in Hl. lia.
  - rewrite Hh, map_size_empty. unfold max_held. lia.
Qed.
End Chunk.

(** One transaction of [filewrite] fits its reservation: on a file system whose
    bitmap is one block, writing a chunk of at most [max_write] bytes at any
    offset, aligned or not, never makes [log_write] panic as long as
    [MAXOPBLOCKS] entries of the log are free. *)
Theorem chunk_fits_reservation {St} `{BlockStoreLaws St} {U} `{UserMemLaws U}
    (s : @fstate St) v B T i ip (src : anymem U) addr off n bs :
  fs_is s v B T -> fs_wf v B -> inode_wf v B ip -> filled v ip -> dinode_ok ip ->
  0 <= inum ip < ninodes B -> sb_size B < BPB -> dirty v = ∅ -> held v = ∅ ->
  zget T i = Some ip -> i_dev ip = ROOTDEV ->
  (base.size (logged v) + Z.to_nat MAXOPBLOCKS <= log_cap)%nat ->
  0 <= off <= i_size ip -> 0 <= n <= max_write -> off + n <= MAXFILE * BSIZE ->
  any_wf src -> any_read src addr n = Some bs -> Forall (fun x => 0 <= x < 256) bs ->
  exists w s' v' ip', writei i src addr off n s = Ok w s' /\ fs_is s' v' B (tset T i ip') /\
    file_written B v ip v' ip' off (take (Z.to_nat w) bs) /\
    (w < n -> forall b, 0 <= b < sb_size B -> used v' B b = true).
Proof.
  intros Hs Hf Hw Hfill Hdi Hin HB Hd Hh Hi Hdev Hl Hoff Hn Hend Hsw Hrd Hbs.
  pose proof (layout_size B (wf_layout v B Hf)) as HB0.
  destruct (writei_spec s v B T i ip src addr off n bs 0 0) as (w & s' & v' & ip' & _ & E & Hs' & _ & Hwr & Hfull);
    try done; try lia; [|by exists w, s', v', ip'].
  rewrite Nat.add_0_r. apply chunk_room; try done. lia.
Qed.

Lemma chunk_fits_reservation_witness :
  exists w s' v' ip',
    writei (U := list Z) 0 (Kernel (replicate 3072 7)) 0 3 3072 small_state = Ok w s' /\
    fs_is s' v' small_sb (tset [small_inode] 0 ip') /\
    file_written small_sb small_view small_inode v' ip' 3 (take (Z.to_nat w) (replicate 3072 7)) /\
    (w < 3072 -> forall b, 0 <= b < 20 -> used v' small_sb b = true).
Proof.
  apply (chunk_fits_reservation small_state small_view small_sb [small_inode] 0 small_inode
           (Kernel (replicate 3072 7)) 0 3 3072 (replicate 3072 7)); try done.
  - apply small_is, small_data_ok.
  - apply small_wf.
  - apply small_inode_wf.
  - by apply small_filled.
  - by apply small_dinode_ok.
  - vm_compute. lia.
  - apply Forall_replicate. lia.
Defined.

(** ** The loop of [filewrite] *)

Section Loop.
Context {St : Type} `{BlockStore St} `{Transactions St} {U : Type} `{UserMem U} {D : Type}.
Implicit Types s : ksys (St := St) (U := U) (D := D).

Lemma filewrite_loop_done me f addr n k i s : n <= i -> filewrite_loop me k f addr n i s = Ok i s.
Proof. intros Hi. destruct k; cbn [filewrite_loop]; [done|]. by rewrite (proj2 (Z.ltb_ge i n)). Qed.

Lemma filewrite_loop_fuel me f addr n k k' i s :
  n - i <= Z.of_nat k * max_write -> n - i <= Z.of_nat k' * max_write ->
  filewrite_loop me k f addr n i s = filewrite_loop me k' f addr n i s.
Proof.
  assert (0 < max_write) as Hm by done. revert k' i s.
  induction k as [|k IH]; intros k' i s Hk Hk'; [by rewrite !filewrite_loop_done by lia|].
  destruct (Z.ltb_spec i n) as [Hi|Hi]; [|by rewrite !filewrite_loop_done by lia].
  destruct k' as [|k']; [lia|]. cbn [filewrite_loop]. rewrite (proj2 (Z.ltb_lt i n) Hi). unfold kbind.
  destruct (write_some _ _ _ _ s) as [r s1| |]; try done. case_match eqn:Hr; [|done].
  apply Z.eqb_eq in Hr. subst r.
  destruct (Z.ltb_spec max_write (n - i)); apply IH; lia.
Qed.
End Loop.

(** The loop of [filewrite] ends: the iterations the model allows are enough
    whatever the transactions return, so that more of them give the same
    result, for every count, negative ones included. *)
Lemma filewrite_terminates {St} `{BlockStore St} `{Transactions St} {U} `{UserMem U} {D}
    me f addr n k (s : ksys (St := St) (U := U) (D := D)) :
  (Z.to_nat (n / max_write) <= k)%nat ->
  filewrite_loop me (S k) f addr n 0 s = filewrite_loop me (S (Z.to_nat (n / max_write))) f addr n 0 s.
Proof.
  intros Hk. assert (n < (n / max_write + 1) * max_write) as Hn.
  { rewrite Z.mul_comm, Z.add_1_r. apply Z.mul_succ_div_gt. done. }
  assert (0 < max_write) by done.
  apply filewrite_loop_fuel; nia.
Qed.
