(* ===== verification/Vm.v ===== *)
(** Page tables ([kernel/vm.c]).

    Page tables live in physical memory: a page-table page holds 512 64-bit
    entries, and [walk] follows three levels of them.  The operations run on
    the memory and free list of [Kalloc]; [kend] is the end of the kernel
    image, [etext] and [trampoline] the other two linker symbols.

    This file has the operations and the theory of [walk]; [VmSpace] has
    mapping, unmapping and copying.  The theory is stated with an ownership
    map that gives every page-table page its level and the part of the address
    space it covers.

    Shown here: the bit layout of entries round-trips; [walk] never leaves
    the pages the table owns; distinct pages have distinct entries; creating
    missing tables changes no translation. *)

From stdpp Require Import functions.
From S2P Require Import Prelude Mem Kalloc.

(** ** Constants of [riscv.h] and [memlayout.h] *)

Definition PTE_V : Z := Z.shiftl 1 0.
Definition PTE_R : Z := Z.shiftl 1 1.
Definition PTE_W : Z := Z.shiftl 1 2.
Definition PTE_X : Z := Z.shiftl 1 3.
Definition PTE_U : Z := Z.shiftl 1 4.

Definition PA2PTE (pa : Z) : Z := u64 (Z.shiftl (Z.shiftr pa 12) 10).
Definition PTE2PA (pte : Z) : Z := u64 (Z.shiftl (Z.shiftr pte 10) 12).
Definition PTE_FLAGS (pte : Z) : Z := Z.land pte 0x3FF.

Definition PXMASK : Z := 0x1FF.
Definition PXSHIFT (level : Z) : Z := 12 + 9 * level.
Definition PX (level va : Z) : Z := Z.land (Z.shiftr va (PXSHIFT level)) PXMASK.

Definition MAXVA : Z := Z.shiftl 1 (9 + 9 + 9 + 12 - 1).
Definition TRAMPOLINE : Z := MAXVA - PGSIZE.
Definition TRAPFRAME : Z := TRAMPOLINE - PGSIZE.
Definition KSTACK (p : Z) : Z := TRAMPOLINE - (p + 1) * 2 * PGSIZE.
Definition UART0 : Z := 0x10000000.
Definition VIRTIO0 : Z := 0x10001000.
Definition PLIC : Z := 0x0c000000.
Definition NPROC : Z := 64.

(** A flag test [pte & f]. *)
Definition has (pte f : Z) : bool := negb (Z.land pte f =? 0).

(** Entry [i] of the page-table page at [pagetable]. *)
Definition entry (pagetable i : Z) : Z := pagetable + 8 * i.

(** ** Memory access *)

Definition load (a : Z) : M kstate Z := kgets (fun s => ld64 (kmem s) a).

Definition store (a v : Z) : M kstate unit :=
  kmodify (fun s => {| kmem := st64 (kmem s) a v; freelist := freelist s |}).

Definition fill (a c n : Z) : M kstate unit :=
  kmodify (fun s => {| kmem := memset (kmem s) a c n; freelist := freelist s |}).

Definition move (dst src n : Z) : M kstate unit :=
  kmodify (fun s => {| kmem := memmove (kmem s) dst src n; freelist := freelist s |}).

(** Kernel buffers are byte lists; [copyin] and [copyout] move between them and
    the pages. *)
Fixpoint store_bytes (m : mem) (a : Z) (bs : list Z) : mem :=
  match bs with
  | [] => m
  | b :: bs => store_bytes (st8 m a b) (a + 1) bs
  end.

(** ** Walking *)

(** The loop of [walk]: [level] table levels above the leaf are left. *)
Fixpoint walk_loop (level : nat) (pagetable va : Z) (alloc : bool) : M kstate Z :=
  match level with
  | O => kret (entry pagetable (PX 0 va))
  | S level' =>
      let pte := entry pagetable (PX (Z.of_nat level) va) in
      let! v := load pte in
      if has v PTE_V then walk_loop level' (PTE2PA v) va alloc
      else if alloc then
        let! pg := kalloc in
        if pg =? 0 then kret 0
        else
          fill pg 0 PGSIZE ;;;
          store pte (Z.lor (PA2PTE pg) PTE_V) ;;;
          walk_loop level' pg va alloc
      else kret 0
  end.

Definition walk (pagetable va : Z) (alloc : bool) : M kstate Z :=
  if MAXVA <=? va then panic "walk" else walk_loop 2 pagetable va alloc.

Definition walkaddr (pagetable va : Z) : M kstate Z :=
  if MAXVA <=? va then kret 0
  else
    let! pte := walk pagetable va false in
    if pte =? 0 then kret 0
    else
      let! v := load pte in
      if negb (has v PTE_V) then kret 0
      else if negb (has v PTE_U) then kret 0
      else kret (PTE2PA v).

(** ** Mapping *)

(** The loop of [mappages]; [k] pages are left when the arithmetic wraps
    nowhere, and in any case [k] steps of [PGSIZE] lead from [a] to [last]. *)
Fixpoint mappages_loop (k : nat) (pagetable a last pa perm : Z) : M kstate Z :=
  match k with
  | O => kret 0
  | S k =>
      let! pte := walk pagetable a true in
      if pte =? 0 then kret (-1)
      else
        let! v := load pte in
        if has v PTE_V then panic "mappages: remap"
        else
          store pte (Z.lor (Z.lor (PA2PTE pa) perm) PTE_V) ;;;
          if a =? last then kret 0
          else mappages_loop k pagetable (u64 (a + PGSIZE)) last (u64 (pa + PGSIZE)) perm
  end.

Definition mappages (pagetable va size pa perm : Z) : M kstate Z :=
  if size =? 0 then panic "mappages: size"
  else
    let a := PGROUNDDOWN va in
    let last := PGROUNDDOWN (u64 (va + size - 1)) in
    mappages_loop (S (Z.to_nat (u64 (last - a) / PGSIZE))) pagetable a last pa perm.

Section Vm.
Context (kend etext trampoline : Z).

Definition kvmmap (kpgtbl va pa sz perm : Z) : M kstate unit :=
  let! r := mappages kpgtbl va sz pa perm in
  if r =? 0 then kret tt else panic "kvmmap".

(** [proc_mapstacks] for processes [p .. NPROC - 1]. *)
Fixpoint proc_mapstacks (k : nat) (kpgtbl p : Z) : M kstate unit :=
  match k with
  | O => kret tt
  | S k =>
      let! pa := kalloc in
      if pa =? 0 then panic "kalloc"
      else
        kvmmap kpgtbl (KSTACK p) pa PGSIZE (Z.lor PTE_R PTE_W) ;;;
        proc_mapstacks k kpgtbl (p + 1)
  end.

Definition kvmmake : M kstate Z :=
  let! kpgtbl := kalloc in
  fill kpgtbl 0 PGSIZE ;;;
  kvmmap kpgtbl UART0 UART0 PGSIZE (Z.lor PTE_R PTE_W) ;;;
  kvmmap kpgtbl VIRTIO0 VIRTIO0 PGSIZE (Z.lor PTE_R PTE_W) ;;;
  kvmmap kpgtbl PLIC PLIC 0x400000 (Z.lor PTE_R PTE_W) ;;;
  kvmmap kpgtbl KERNBASE KERNBASE (etext - KERNBASE) (Z.lor PTE_R PTE_X) ;;;
  kvmmap kpgtbl etext etext (PHYSTOP - etext) (Z.lor PTE_R PTE_W) ;;;
  kvmmap kpgtbl TRAMPOLINE trampoline PGSIZE (Z.lor PTE_R PTE_X) ;;;
  proc_mapstacks (Z.to_nat NPROC) kpgtbl 0 ;;;
  kret kpgtbl.

(** ** Unmapping *)

Fixpoint uvmunmap_loop (npages : nat) (pagetable a : Z) (do_free : bool) : M kstate unit :=
  match npages with
  | O => kret tt
  | S npages =>
      let! pte := walk pagetable a false in
      if pte =? 0 then panic "uvmunmap: walk"
      else
        let! v := load pte in
        if negb (has v PTE_V) then panic "uvmunmap: not mapped"
        else if PTE_FLAGS v =? PTE_V then panic "uvmunmap: not a leaf"
        else
          (if do_free then kfree kend (PTE2PA v) else kret tt) ;;;
          store pte 0 ;;;
          uvmunmap_loop npages pagetable (a + PGSIZE) do_free
  end.

(** The loop runs while [a < va + npages * PGSIZE], a sum at 64 bits. *)
Definition uvmunmap (pagetable va npages : Z) (do_free : bool) : M kstate unit :=
  if negb (va mod PGSIZE =? 0) then panic "uvmunmap: not aligned"
  else
    uvmunmap_loop (Z.to_nat ((u64 (va + u64 (npages * PGSIZE)) - va) / PGSIZE))
      pagetable va do_free.

Definition uvmcreate : M kstate Z :=
  let! pagetable := kalloc in
  if pagetable =? 0 then kret 0
  else fill pagetable 0 PGSIZE ;;; kret pagetable.

Definition uvmfirst (pagetable : Z) (src : list Z) : M kstate unit :=
  if PGSIZE <=? Z.of_nat (length src) then panic "uvmfirst: more than a page"
  else
    let! pg := kalloc in
    fill pg 0 PGSIZE ;;;
    mappages pagetable 0 PGSIZE pg (Z.lor (Z.lor (Z.lor PTE_W PTE_R) PTE_X) PTE_U) ;;;
    kmodify (fun s => {| kmem := store_bytes (kmem s) pg src; freelist := freelist s |}).

(** ** Growing and shrinking *)

Definition uvmdealloc (pagetable oldsz newsz : Z) : M kstate Z :=
  if oldsz <=? newsz then kret oldsz
  else
    (if u64 (PGROUNDUP newsz) <? u64 (PGROUNDUP oldsz) then
       let npages := i32 ((u64 (PGROUNDUP oldsz) - u64 (PGROUNDUP newsz)) / PGSIZE) in
       uvmunmap pagetable (u64 (PGROUNDUP newsz)) (u64 npages) true
     else kret tt) ;;;
    kret newsz.

(** The loop of [uvmalloc] from [a]; [oldsz] is rounded up. *)
Fixpoint uvmalloc_loop (k : nat) (pagetable oldsz newsz a xperm : Z) : M kstate Z :=
  match k with
  | O => kret newsz
  | S k =>
      if a <? newsz then
        let! pg := kalloc in
        if pg =? 0 then uvmdealloc pagetable a oldsz ;;; kret 0
        else
          fill pg 0 PGSIZE ;;;
          let! r := mappages pagetable a PGSIZE pg (Z.lor (Z.lor PTE_R PTE_U) xperm) in
          if negb (r =? 0)
          then kfree kend pg ;;; uvmdealloc pagetable a oldsz ;;; kret 0
          else uvmalloc_loop k pagetable oldsz newsz (u64 (a + PGSIZE)) xperm
      else kret newsz
  end.

(** One iteration per page of the new range, and the final test.  ([walk]
    panics long before [a] could wrap around.) *)
Definition uvmalloc (pagetable oldsz newsz xperm : Z) : M kstate Z :=
  if newsz <? oldsz then kret oldsz
  else
    let oldsz := u64 (PGROUNDUP oldsz) in
    uvmalloc_loop (S (Z.to_nat ((newsz - oldsz) / PGSIZE + 1)))
      pagetable oldsz newsz oldsz xperm.

(** ** Freeing *)

(** The loop of [freewalk] over the last [k] entries; [free_child] is the
    recursive call. *)
Fixpoint freewalk_loop (free_child : Z -> M kstate unit) (k : nat) (pagetable i : Z)
    : M kstate unit :=
  match k with
  | O => kret tt
  | S k =>
      let! pte := load (entry pagetable i) in
      if has pte PTE_V && (Z.land pte (Z.lor (Z.lor PTE_R PTE_W) PTE_X) =? 0) then
        free_child (PTE2PA pte) ;;;
        store (entry pagetable i) 0 ;;;
        freewalk_loop free_child k pagetable (i + 1)
      else if has pte PTE_V then panic "freewalk: leaf"
      else freewalk_loop free_child k pagetable (i + 1)
  end.

(** [freewalk] of a table [level] levels above the leaves.  The source recurses
    without a bound; tables deeper than three levels, which no operation
    builds, stop the model. *)
Fixpoint freewalk (level : nat) (pagetable : Z) : M kstate unit :=
  freewalk_loop (fun child => match level with
                              | O => panic "freewalk: depth"
                              | S level => freewalk level child
                              end) 512 pagetable 0 ;;;
  kfree kend pagetable.

Definition uvmfree (pagetable sz : Z) : M kstate unit :=
  (if 0 <? sz then uvmunmap pagetable 0 (u64 (PGROUNDUP sz) / PGSIZE) true else kret tt) ;;;
  freewalk 2 pagetable.

(** ** Copying address spaces *)

Fixpoint uvmcopy_loop (k : nat) (old new sz i : Z) : M kstate Z :=
  match k with
  | O => kret 0
  | S k =>
      if i <? sz then
        let! pte := walk old i false in
        if pte =? 0 then panic "uvmcopy: pte should exist"
        else
          let! v := load pte in
          if negb (has v PTE_V) then panic "uvmcopy: page not present"
          else
            let err := uvmunmap new 0 (i / PGSIZE) true ;;; kret (-1) in
            let! pg := kalloc in
            if pg =? 0 then err
            else
              move pg (PTE2PA v) PGSIZE ;;;
              let! r := mappages new i PGSIZE pg (PTE_FLAGS v) in
              if negb (r =? 0) then kfree kend pg ;;; err
              else uvmcopy_loop k old new sz (i + PGSIZE)
      else kret 0
  end.

Definition uvmcopy (old new sz : Z) : M kstate Z :=
  uvmcopy_loop (S (Z.to_nat (sz / PGSIZE + 1))) old new sz 0.

Definition uvmclear (pagetable va : Z) : M kstate unit :=
  let! pte := walk pagetable va false in
  if pte =? 0 then panic "uvmclear"
  else
    let! v := load pte in
    store pte (Z.land v (Z.lnot PTE_U)).
End Vm.

(** ** Copying between kernel and user

    [walkaddr] refuses addresses from [MAXVA] on, so the address of the next
    page never wraps around. *)

(** [copyout] of the bytes [bs]; each iteration stores at least one byte, so
    [length bs] iterations are enough. *)
Fixpoint copyout_loop (k : nat) (pagetable dstva : Z) (bs : list Z) : M kstate Z :=
  match bs, k with
  | [], _ => kret 0
  | _, O => kret 0
  | _, S k =>
      let va0 := PGROUNDDOWN dstva in
      let! pa0 := walkaddr pagetable va0 in
      if pa0 =? 0 then kret (-1)
      else
        let n := Z.min (PGSIZE - (dstva - va0)) (Z.of_nat (length bs)) in
        kmodify (fun s =>
          {| kmem := store_bytes (kmem s) (pa0 + (dstva - va0)) (take (Z.to_nat n) bs);
             freelist := freelist s |}) ;;;
        copyout_loop k pagetable (va0 + PGSIZE) (drop (Z.to_nat n) bs)
  end.

Definition copyout (pagetable dstva : Z) (bs : list Z) : M kstate Z :=
  copyout_loop (length bs) pagetable dstva bs.

(** [copyin] of [len] bytes: the bytes stored at [dst], and whether the result
    is 0; when it is -1, the pages before the one not mapped were stored. *)
Fixpoint copyin_loop (k : nat) (pagetable srcva len : Z) : M kstate (list Z * bool) :=
  match k with
  | O => kret ([], true)
  | S k =>
      if 0 <? len then
        let va0 := PGROUNDDOWN srcva in
        let! pa0 := walkaddr pagetable va0 in
        if pa0 =? 0 then kret ([], false)
        else
          let n := Z.min (PGSIZE - (srcva - va0)) len in
          let! chunk := kgets (fun s =>
            bytes_at (kmem s) (pa0 + (srcva - va0)) (Z.to_nat n)) in
          let! rest := copyin_loop k pagetable (va0 + PGSIZE) (len - n) in
          kret (chunk ++ rest.1, rest.2)
      else kret ([], true)
  end.

Definition copyin (pagetable srcva len : Z) : M kstate (list Z * bool) :=
  copyin_loop (Z.to_nat len) pagetable srcva len.

(** The inner loop of [copyinstr] over the [n] bytes left of a page: the bytes
    before a NUL, and whether one was met. *)
Fixpoint copyinstr_page (n : nat) (m : mem) (p : Z) : list Z * bool :=
  match n with
  | O => ([], false)
  | S n =>
      if m p =? 0 then ([], true)
      else let '(bs, nul) := copyinstr_page n m (p + 1) in (m p :: bs, nul)
  end.

Fixpoint copyinstr_loop (k : nat) (pagetable srcva max : Z) : M kstate (option (list Z)) :=
  match k with
  | O => kret None
  | S k =>
      if 0 <? max then
        let va0 := PGROUNDDOWN srcva in
        let! pa0 := walkaddr pagetable va0 in
        if pa0 =? 0 then kret None
        else
          let n := Z.min (PGSIZE - (srcva - va0)) max in
          let! r := kgets (fun s =>
            copyinstr_page (Z.to_nat n) (kmem s) (pa0 + (srcva - va0))) in
          if r.2 then kret (Some r.1)
          else
            let! rest := copyinstr_loop k pagetable (va0 + PGSIZE) (max - n) in
            kret (match rest with Some r' => Some (r.1 ++ r') | None => None end)
      else kret None
  end.

Definition copyinstr (pagetable srcva max : Z) : M kstate (option (list Z)) :=
  copyinstr_loop (S (Z.to_nat max)) pagetable srcva max.

(** ** Page-table theory *)

(** The page-table entry of [va] below the table at [p], 0 where an interior
    entry is not valid. *)
Fixpoint pte_below (level : nat) (m : mem) (p va : Z) : Z :=
  let v := ld64 m (entry p (PX (Z.of_nat level) va)) in
  match level with
  | O => v
  | S level => if has v PTE_V then pte_below level m (PTE2PA v) va else 0
  end.

Definition pte_of (m : mem) (root va : Z) : Z := pte_below 2 m root va.

(** The address of that entry, 0 where an interior entry is not valid. *)
Fixpoint slot_below (level : nat) (m : mem) (p va : Z) : Z :=
  match level with
  | O => entry p (PX 0 va)
  | S level' =>
      let v := ld64 m (entry p (PX (Z.of_nat level) va)) in
      if has v PTE_V then slot_below level' m (PTE2PA v) va else 0
  end.

(** The part of the address space a table at [level] that serves [va] covers. *)
Definition prefix (level : nat) (va : Z) : Z := Z.shiftr va (PXSHIFT (Z.of_nat level + 1)).

(** The prefixes of addresses below [MAXVA]. *)
Definition key_ok (level : nat) (y : Z) : Prop :=
  0 <= y /\ y * 2 ^ PXSHIFT (Z.of_nat level + 1) < MAXVA.

(** [tables m root T]: [T] is the set of pages of the tree at [root], each with
    its level and the prefix it covers. *)
Record tables (kend : Z) (m : mem) (root : Z) (T : gmap Z (nat * Z)) : Prop := {
  tables_root : T !! root = Some (2%nat, 0);
  tables_level : forall p L x, T !! p = Some (L, x) -> (L <= 2)%nat;
  tables_key : forall p L x, T !! p = Some (L, x) -> key_ok L x;
  tables_top : forall p x, T !! p = Some (2%nat, x) -> p = root;
  tables_page : forall p k, T !! p = Some k -> page_ok kend p;
  tables_pointer : forall p L x i, T !! p = Some (S L, x) -> 0 <= i < 512 ->
    has (ld64 m (entry p i)) PTE_V = true ->
    Z.land (ld64 m (entry p i)) (Z.lor (Z.lor PTE_R PTE_W) PTE_X) = 0;
  tables_child : forall p L x i, T !! p = Some (S L, x) -> 0 <= i < 512 ->
    has (ld64 m (entry p i)) PTE_V = true ->
    T !! PTE2PA (ld64 m (entry p i)) = Some (L, x * 512 + i);
  tables_parent : forall q L y, T !! q = Some (L, y) -> (L < 2)%nat ->
    exists p x i, T !! p = Some (S L, x) /\ 0 <= i < 512 /\ y = x * 512 + i /\
      has (ld64 m (entry p i)) PTE_V = true /\ PTE2PA (ld64 m (entry p i)) = q;
}.

(** *** Entries *)

Lemma has_lor_r a f : f <> 0 -> has (Z.lor a f) f = true.
Proof.
  intros Hf. unfold has. replace (Z.land (Z.lor a f) f) with f.
  - destruct (f =? 0) eqn:E; [lia|done].
  - apply Z.bits_inj'. intros n Hn. rewrite Z.land_spec, Z.lor_spec.
    by destruct (Z.testbit a n), (Z.testbit f n).
Qed.

Lemma has_zero f : has 0 f = false.
Proof. reflexivity. Qed.

Lemma has_flags v f : Z.land 0x3FF f = f -> has (PTE_FLAGS v) f = has v f.
Proof. intros Hf. unfold has, PTE_FLAGS. by rewrite <- Z.land_assoc, Hf. Qed.

Lemma u64_small x : 0 <= x < 2 ^ 64 -> u64 x = x.
Proof. intros. unfold u64. apply Z.mod_small. lia. Qed.

Lemma page_shift pa : pa mod PGSIZE = 0 -> Z.shiftl (Z.shiftr pa 12) 12 = pa.
Proof.
  intros H. rewrite Z.shiftl_mul_pow2, Z.shiftr_div_pow2 by lia.
  change (2 ^ 12) with PGSIZE. pose proof (Z.div_mod pa PGSIZE). unfold PGSIZE in *. lia.
Qed.

Definition pa_ok (pa : Z) : Prop := pa mod PGSIZE = 0 /\ 0 <= pa < 2 ^ 56.

Lemma PA2PTE_mul pa : pa_ok pa -> PA2PTE pa = pa / PGSIZE * 1024.
Proof.
  intros [? ?]. unfold PA2PTE.
  rewrite Z.shiftl_mul_pow2, Z.shiftr_div_pow2 by lia. apply u64_small.
  change (2 ^ 12) with PGSIZE. change (2 ^ 10) with 1024. unfold PGSIZE in *.
  Z.to_euclidean_division_equations. lia.
Qed.

Lemma lor_flags k f : 0 <= f < 1024 -> Z.lor (k * 1024) f = k * 1024 + f.
Proof.
  intros Hf. rewrite <- Z.add_lor_land.
  replace (Z.land (k * 1024) f) with 0; [lia|].
  rewrite <- (Z.mod_small f 1024) by lia. change 1024 with (2 ^ 10) at 2.
  rewrite <- (Z.land_ones f 10) by lia.
  rewrite (Z.land_comm f), Z.land_assoc, Z.land_ones by lia.
  change (2 ^ 10) with 1024. by rewrite Z.mod_mul.
Qed.

Lemma pte_bound pa perm :
  pa_ok pa -> 0 <= perm < 1024 -> 0 <= Z.lor (PA2PTE pa) perm < 2 ^ 64.
Proof.
  intros Hpa Hperm. rewrite PA2PTE_mul, lor_flags by done. destruct Hpa as [_ Hpa].
  unfold PGSIZE. Z.to_euclidean_division_equations. lia.
Qed.

(** What an entry records of the page and of the flags can be read back. *)
Lemma PTE2PA_PA2PTE pa perm :
  pa_ok pa -> 0 <= perm < 1024 -> PTE2PA (Z.lor (PA2PTE pa) perm) = pa.
Proof.
  intros Hpa Hperm. rewrite PA2PTE_mul by done. destruct Hpa as [Hal Hpa].
  unfold PTE2PA. rewrite Z.shiftr_lor.
  rewrite (Z.shiftr_div_pow2 perm), (Z.div_small perm), Z.lor_0_r by lia.
  rewrite Z.shiftr_div_pow2 by lia. change (2 ^ 10) with 1024. rewrite Z.div_mul by lia.
  rewrite <- (page_shift pa) at 2 by done.
  rewrite (Z.shiftr_div_pow2 pa) by lia. change (2 ^ 12) with PGSIZE.
  apply u64_small. rewrite Z.shiftl_mul_pow2 by lia. change (2 ^ 12) with 4096.
  unfold PGSIZE in *. Z.to_euclidean_division_equations. lia.
Qed.

Lemma PTE_FLAGS_PA2PTE pa perm :
  pa_ok pa -> 0 <= perm < 1024 -> PTE_FLAGS (Z.lor (PA2PTE pa) perm) = perm.
Proof.
  intros Hpa Hperm. rewrite PA2PTE_mul by done. unfold PTE_FLAGS.
  change 0x3FF with (Z.ones 10). rewrite Z.land_lor_distr_l, !Z.land_ones by lia.
  change (2 ^ 10) with 1024. rewrite Z.mod_mul, Z.lor_0_l, Z.mod_small by lia. done.
Qed.

(** An entry made by [walk] is no leaf. *)
Lemma pointer_flags pa :
  pa_ok pa -> Z.land (Z.lor (PA2PTE pa) PTE_V) (Z.lor (Z.lor PTE_R PTE_W) PTE_X) = 0.
Proof.
  intros Hpa. pose proof (PTE_FLAGS_PA2PTE pa PTE_V Hpa ltac:(done)) as E.
  unfold PTE_FLAGS in E.
  change (Z.lor (Z.lor PTE_R PTE_W) PTE_X) with (Z.land 0x3FF 14).
  by rewrite Z.land_assoc, E.
Qed.

Lemma page_pa_ok kend pg : 0 < kend -> page_ok kend pg -> pa_ok pg.
Proof. intros ? [? ?]. split; [done|]. unfold PHYSTOP, KERNBASE in *. lia. Qed.

(** *** Indices *)

Lemma PX_range level va : 0 <= PX level va < 512.
Proof.
  unfold PX, PXMASK. change 0x1FF with (Z.ones 9). rewrite Z.land_ones by lia.
  change (2 ^ 9) with 512. apply Z.mod_pos_bound. lia.
Qed.

Lemma prefix_S L va :
  prefix L va = prefix (S L) va * 512 + PX (Z.of_nat (S L)) va.
Proof.
  unfold prefix, PX, PXSHIFT, PXMASK. change 0x1FF with (Z.ones 9).
  rewrite Z.land_ones, !Z.shiftr_div_pow2 by lia. change (2 ^ 9) with 512.
  replace (12 + 9 * (Z.of_nat L + 1)) with (12 + 9 * Z.of_nat (S L)) by lia.
  replace (12 + 9 * (Z.of_nat (S L) + 1)) with (12 + 9 * Z.of_nat (S L) + 9) by lia.
  assert (0 <= 12 + 9 * Z.of_nat (S L)) as Hk by lia. revert Hk.
  generalize (12 + 9 * Z.of_nat (S L)) as k. intros k Hk.
  rewrite Z.pow_add_r by lia. change (2 ^ 9) with 512.
  rewrite <- Z.div_div by lia. pose proof (Z.div_mod (va / 2 ^ k) 512). lia.
Qed.

Lemma prefix_top va : 0 <= va < MAXVA -> prefix 2 va = 0.
Proof.
  change MAXVA with (2 ^ 38). unfold prefix, PXSHIFT. intros H.
  rewrite Z.shiftr_div_pow2 by lia. apply Z.div_small.
  change (12 + 9 * (Z.of_nat 2 + 1)) with 39. lia.
Qed.

Lemma prefix_key_ok L va : 0 <= va < MAXVA -> key_ok L (prefix L va).
Proof.
  intros Hva. unfold key_ok, prefix. set (k := PXSHIFT _).
  assert (0 <= k) by (unfold k, PXSHIFT; lia). rewrite Z.shiftr_div_pow2 by done.
  assert (0 < 2 ^ k) by (apply Z.pow_pos_nonneg; lia).
  split; [apply Z.div_pos; lia|]. pose proof (Z.mul_div_le va (2 ^ k)). lia.
Qed.

Lemma page_number va : va / PGSIZE = prefix 0 va * 512 + PX 0 va.
Proof.
  unfold prefix, PX, PXSHIFT, PXMASK, PGSIZE. change 0x1FF with (Z.ones 9).
  rewrite Z.land_ones, !Z.shiftr_div_pow2 by lia. change (12 + 9 * 0) with 12.
  change (12 + 9 * (Z.of_nat 0 + 1)) with 21. change (2 ^ 9) with 512.
  change (2 ^ 12) with 4096. change (2 ^ 21) with (4096 * 512).
  rewrite <- Z.div_div by lia. pose proof (Z.div_mod (va / 4096) 512). lia.
Qed.

(** Every entry of a leaf table is the entry of some page. *)
Lemma leaf_page y i :
  key_ok 0 y -> 0 <= i < 512 ->
  let va := (y * 512 + i) * PGSIZE in
  0 <= va < MAXVA /\ prefix 0 va = y /\ PX 0 va = i.
Proof.
  intros [Hy Hmax] Hi va. change (2 ^ _) with (2 ^ 21) in Hmax. change MAXVA with (2 ^ 38) in *.
  split; [unfold va, PGSIZE; lia|].
  pose proof (page_number va) as E. unfold va at 1 in E. rewrite Z.div_mul in E by done.
  pose proof (PX_range 0 va). lia.
Qed.

Lemma entry_disjoint p q i j :
  p mod PGSIZE = 0 -> q mod PGSIZE = 0 -> 0 <= i < 512 -> 0 <= j < 512 ->
  (p, i) <> (q, j) -> disjoint (entry p i) 8 (entry q j) 8.
Proof.
  intros Hp Hq Hi Hj Hne. unfold entry, disjoint.
  destruct (decide (p = q)) as [->|Hpq].
  - assert (i <> j) by congruence. lia.
  - pose proof (page_disjoint p q Hp Hq Hpq). unfold disjoint, PGSIZE in *. lia.
Qed.

Lemma PX_page level va va' :
  0 <= level -> va / PGSIZE = va' / PGSIZE -> PX level va = PX level va'.
Proof.
  intros Hl H. unfold PX, PXSHIFT. f_equal.
  rewrite <- !Z.shiftr_shiftr by lia. f_equal.
  rewrite !Z.shiftr_div_pow2 by lia. exact H.
Qed.

Lemma slot_page level m p va va' :
  va / PGSIZE = va' / PGSIZE -> slot_below level m p va = slot_below level m p va'.
Proof.
  intros H. revert p. induction level as [|L IH]; intros p; cbn [slot_below].
  - by rewrite (PX_page 0 va va').
  - rewrite (PX_page (Z.of_nat (S L)) va va') by (done || lia). case_match; auto.
Qed.

Section Tables.
Context (kend : Z) (kend_pos : 0 < kend).
Implicit Types (m : mem) (T : gmap Z (nat * Z)).

Lemma table_nonzero m root T p k : tables kend m root T -> T !! p = Some k -> 0 < p.
Proof. intros Ht Hp. destruct (tables_page _ _ _ _ Ht _ _ Hp) as [_ ?]. lia. Qed.

Lemma tables_aligned m root T p k :
  tables kend m root T -> T !! p = Some k -> p mod PGSIZE = 0.
Proof. intros Ht Hp. by destruct (tables_page _ _ _ _ Ht _ _ Hp). Qed.

(** One step of the walk stays in the table. *)
Lemma tables_down m root T p L va :
  tables kend m root T -> T !! p = Some (S L, prefix (S L) va) ->
  has (ld64 m (entry p (PX (Z.of_nat (S L)) va))) PTE_V = true ->
  T !! PTE2PA (ld64 m (entry p (PX (Z.of_nat (S L)) va))) = Some (L, prefix L va).
Proof.
  intros Ht Hp Hv. rewrite prefix_S.
  eapply tables_child; eauto using PX_range.
Qed.

Lemma tables_start m root T va :
  tables kend m root T -> 0 <= va < MAXVA -> T !! root = Some (2%nat, prefix 2 va).
Proof. intros Ht Hva. rewrite prefix_top by done. by eapply tables_root. Qed.

(** A slot is an entry of a leaf table that serves its address. *)
Lemma slot_in_table m root T L p va :
  tables kend m root T -> T !! p = Some (L, prefix L va) ->
  slot_below L m p va = 0 \/
  exists q, T !! q = Some (0%nat, prefix 0 va) /\ slot_below L m p va = entry q (PX 0 va).
Proof.
  intros Ht. revert p. induction L as [|L IH]; intros p Hp; cbn [slot_below]; [eauto|].
  case_match eqn:Hv; [|by left]. eapply IH, tables_down; eauto.
Qed.

Lemma pte_below_slot m root T L p va :
  tables kend m root T -> T !! p = Some (L, prefix L va) ->
  pte_below L m p va =
    if slot_below L m p va =? 0 then 0 else ld64 m (slot_below L m p va).
Proof.
  intros Ht. revert p. induction L as [|L IH]; intros p Hp; cbn [slot_below pte_below].
  - pose proof (table_nonzero _ _ _ _ _ Ht Hp). pose proof (PX_range 0 va).
    destruct (entry p (PX 0 va) =? 0) eqn:E; [unfold entry in *; lia|done].
  - case_match eqn:Hv; [|done]. eapply IH, tables_down; eauto.
Qed.

(** Distinct pages have distinct entries. *)
Lemma slot_inj m root T va va' :
  tables kend m root T -> 0 <= va < MAXVA -> 0 <= va' < MAXVA ->
  slot_below 2 m root va <> 0 -> slot_below 2 m root va = slot_below 2 m root va' ->
  va / PGSIZE = va' / PGSIZE.
Proof.
  intros Ht Hva Hva' Hn Heq.
  destruct (slot_in_table _ _ _ _ _ va Ht (tables_start _ _ _ _ Ht Hva))
    as [?|(q & Hq & Eq)]; [congruence|].
  destruct (slot_in_table _ _ _ _ _ va' Ht (tables_start _ _ _ _ Ht Hva'))
    as [?|(q' & Hq' & Eq')]; [congruence|].
  pose proof (tables_aligned _ _ _ _ _ Ht Hq). pose proof (tables_aligned _ _ _ _ _ Ht Hq').
  destruct (decide ((q, PX 0 va) = (q', PX 0 va'))) as [[= -> HPX]|Hne].
  - rewrite !page_number. congruence.
  - exfalso. pose proof (entry_disjoint q q' (PX 0 va) (PX 0 va')) as Hd.
    unfold disjoint in Hd. specialize (Hd ltac:(done) ltac:(done) (PX_range _ _) (PX_range _ _) Hne).
    lia.
Qed.

(** Every table page serves the addresses it is recorded for. *)
Lemma tables_up m root T q L va :
  tables kend m root T -> T !! q = Some (L, prefix L va) -> (L < 2)%nat ->
  exists p, T !! p = Some (S L, prefix (S L) va) /\
    has (ld64 m (entry p (PX (Z.of_nat (S L)) va))) PTE_V = true /\
    PTE2PA (ld64 m (entry p (PX (Z.of_nat (S L)) va))) = q.
Proof.
  intros Ht Hq HL. pose proof (PX_range (Z.of_nat (S L)) va).
  destruct (tables_parent _ _ _ _ Ht _ _ _ Hq HL) as (p & x & i & Hp & Hi & Hy & Hv & Hpa).
  rewrite prefix_S in Hy. assert (x = prefix (S L) va) as -> by lia.
  assert (i = PX (Z.of_nat (S L)) va) as -> by lia. eauto.
Qed.

Lemma slot_leaf m root T q va :
  tables kend m root T -> T !! q = Some (0%nat, prefix 0 va) ->
  slot_below 2 m root va = entry q (PX 0 va).
Proof.
  intros Ht Hq.
  destruct (tables_up _ _ _ _ _ _ Ht Hq ltac:(lia)) as (p1 & Hp1 & Hv1 & Hpa1).
  destruct (tables_up _ _ _ _ _ _ Ht Hp1 ltac:(lia)) as (p2 & Hp2 & Hv2 & Hpa2).
  rewrite (tables_top _ _ _ _ Ht _ _ Hp2) in *.
  cbn [slot_below]. by rewrite Hv2, Hpa2, Hv1, Hpa1.
Qed.

(** *** Writes that keep the interior *)

Definition same_interior m m' T : Prop :=
  forall p L x i, T !! p = Some (S L, x) -> 0 <= i < 512 ->
    ld64 m' (entry p i) = ld64 m (entry p i).

Lemma tables_same_interior m m' root T :
  same_interior m m' T -> tables kend m root T -> tables kend m' root T.
Proof.
  intros Hs Ht. split.
  - by eapply tables_root.
  - by eapply tables_level.
  - by eapply tables_key.
  - by eapply tables_top.
  - by eapply tables_page.
  - intros p L x i Hp Hi. rewrite (Hs _ _ _ _ Hp Hi). by eapply tables_pointer.
  - intros p L x i Hp Hi. rewrite (Hs _ _ _ _ Hp Hi). by eapply tables_child.
  - intros q L y Hq HL.
    destruct (tables_parent _ _ _ _ Ht _ _ _ Hq HL) as (p & x & i & Hp & Hi & ?).
    exists p, x, i. rewrite (Hs _ _ _ _ Hp Hi). naive_solver.
Qed.

Lemma slot_same_interior m m' root T L p va :
  same_interior m m' T -> tables kend m root T -> T !! p = Some (L, prefix L va) ->
  slot_below L m' p va = slot_below L m p va.
Proof.
  intros Hs Ht. revert p. induction L as [|L IH]; intros p Hp; cbn [slot_below]; [done|].
  rewrite (Hs _ _ _ _ Hp (PX_range _ _)). case_match eqn:Hv; [|done].
  eapply IH, tables_down; eauto.
Qed.

(** *** Linking a new table *)

(** [m'] is [m] with the invalid entry [i] of [p] pointing to the cleared page
    [pg]. *)
Record linked m m' T (p i pg : Z) : Prop := {
  linked_entry : ld64 m' (entry p i) = Z.lor (PA2PTE pg) PTE_V;
  linked_other : forall q k j, T !! q = Some k -> 0 <= j < 512 -> (q, j) <> (p, i) ->
    ld64 m' (entry q j) = ld64 m (entry q j);
  linked_clear : forall j, 0 <= j < 512 -> ld64 m' (entry pg j) = 0;
}.

Lemma linked_valid m m' T p i pg :
  linked m m' T p i pg -> page_ok kend pg ->
  has (ld64 m' (entry p i)) PTE_V = true /\ PTE2PA (ld64 m' (entry p i)) = pg.
Proof.
  intros Hl Hpg. rewrite (linked_entry _ _ _ _ _ _ Hl). split.
  - by apply has_lor_r.
  - apply PTE2PA_PA2PTE; [by eapply page_pa_ok|done].
Qed.

Lemma link_tables m m' root T p L x i pg :
  tables kend m root T -> linked m m' T p i pg -> T !! p = Some (S L, x) ->
  0 <= i < 512 -> has (ld64 m (entry p i)) PTE_V = false ->
  T !! pg = None -> page_ok kend pg -> key_ok L (x * 512 + i) ->
  tables kend m' root (<[pg := (L, x * 512 + i)]> T).
Proof.
  intros Ht Hl Hp Hi Hinv Hnew Hok Hkey.
  destruct (linked_valid _ _ _ _ _ _ Hl Hok) as [Hv Hpa].
  assert (forall q k, T !! q = Some k -> pg <> q) as Hne by congruence.
  pose proof (tables_level _ _ _ _ Ht _ _ _ Hp) as HL.
  split.
  - rewrite lookup_insert_ne; eauto using tables_root.
  - intros q L' y. rewrite lookup_insert_Some. intros [[? [= <- <-]]|[? ?]]; [lia|].
    by eapply tables_level.
  - intros q L' y. rewrite lookup_insert_Some. intros [[? [= <- <-]]|[? ?]]; [done|].
    by eapply tables_key.
  - intros q y. rewrite lookup_insert_Some. intros [[? [= ? ?]]|[? ?]]; [lia|].
    by eapply tables_top.
  - intros q k. rewrite lookup_insert_Some. intros [[<- ?]|[? ?]]; [done|].
    by eapply tables_page.
  - intros q L' y j. rewrite lookup_insert_Some.
    intros [[<- [= -> <-]]|[? Hq]] Hj Hhas.
    { rewrite (linked_clear _ _ _ _ _ _ Hl) in Hhas by done. done. }
    destruct (decide ((q, j) = (p, i))) as [[= -> ->]|Hqj].
    + rewrite (linked_entry _ _ _ _ _ _ Hl). apply pointer_flags. by eapply page_pa_ok.
    + rewrite (linked_other _ _ _ _ _ _ Hl _ _ _ Hq Hj Hqj) in Hhas |- *.
      by eapply tables_pointer.
  - intros q L' y j. rewrite lookup_insert_Some.
    intros [[<- [= -> <-]]|[? Hq]] Hj Hhas.
    { rewrite (linked_clear _ _ _ _ _ _ Hl) in Hhas by done. done. }
    destruct (decide ((q, j) = (p, i))) as [[= -> ->]|Hqj].
    + rewrite Hpa, lookup_insert_eq. congruence.
    + rewrite (linked_other _ _ _ _ _ _ Hl _ _ _ Hq Hj Hqj) in Hhas |- *.
      pose proof (tables_child _ _ _ _ Ht _ _ _ _ Hq Hj Hhas) as Hc.
      rewrite lookup_insert_ne; eauto.
  - intros q L' y. rewrite lookup_insert_Some. intros [[<- [= <- <-]]|[? Hq]] HL'.
    + exists p, x, i. rewrite lookup_insert_ne by eauto. done.
    + destruct (tables_parent _ _ _ _ Ht _ _ _ Hq HL') as (p' & x' & j & Hp' & Hj & ? & Hh & ?).
      exists p', x', j. rewrite lookup_insert_ne by eauto.
      rewrite (linked_other _ _ _ _ _ _ Hl _ _ _ Hp' Hj); [done|]. congruence.
Qed.

(** Below a cleared table nothing is mapped. *)
Lemma pte_below_clear L m pg va :
  (forall j, 0 <= j < 512 -> ld64 m (entry pg j) = 0) -> pte_below L m pg va = 0.
Proof.
  intros Hz. destruct L; cbn [pte_below]; rewrite Hz by apply PX_range; [done|].
  by rewrite has_zero.
Qed.

(** Linking an empty table changes no translation. *)
Lemma link_pte m m' root T p L x i pg L' q va :
  tables kend m root T -> linked m m' T p i pg -> T !! p = Some (S L, x) ->
  has (ld64 m (entry p i)) PTE_V = false -> page_ok kend pg ->
  T !! q = Some (L', prefix L' va) ->
  pte_below L' m' q va = pte_below L' m q va.
Proof.
  intros Ht Hl Hp Hinv Hok.
  destruct (linked_valid _ _ _ _ _ _ Hl Hok) as [Hv Hpa].
  revert q. induction L' as [|L' IH]; intros q Hq; cbn [pte_below].
  - eapply linked_other; eauto using PX_range. congruence.
  - destruct (decide ((q, PX (Z.of_nat (S L')) va) = (p, i))) as [E|Hne].
    + injection E as -> HPX. rewrite HPX, Hinv, Hv, Hpa.
      eapply pte_below_clear, linked_clear; eauto.
    + rewrite (linked_other _ _ _ _ _ _ Hl _ _ _ Hq (PX_range _ _) Hne).
      case_match eqn:Hh; [|done]. eapply IH, tables_down; eauto.
Qed.
End Tables.
