(* ===== verification/VmSpace.v ===== *)
(** Address spaces ([kernel/vm.c], on the page-table theory of [Vm]).

    [space kend root T mp l s] says that in state [s] the page-table pages
    [T], rooted at [root], translate exactly as the finite map [mp] from page
    numbers to entries says, and that the free list is [l].  Mapping,
    unmapping, growing, shrinking, copying and freeing an address space are
    updates of that map. *)

From stdpp Require Import functions.
From S2P Require Import Prelude Mem Kalloc Vm.

(** ** Pages *)

Lemma in_page_inj p q a :
  p mod PGSIZE = 0 -> q mod PGSIZE = 0 -> in_page p a -> in_page q a -> p = q.
Proof.
  intros Hp Hq Ha Hb. destruct (decide (p = q)) as [|Hne]; [done|].
  pose proof (page_disjoint p q Hp Hq Hne). unfold disjoint, in_page in *. lia.
Qed.

Lemma entry_in_page p i a : 0 <= i < 512 -> entry p i <= a < entry p i + 8 -> in_page p a.
Proof. unfold entry, in_page, PGSIZE. lia. Qed.

Lemma entry_same (m m' : mem) p i :
  0 <= i < 512 -> (forall a, in_page p a -> m' a = m a) ->
  ld64 m' (entry p i) = ld64 m (entry p i).
Proof. intros Hi H. apply ld64_eq. eauto using entry_in_page. Qed.

Lemma free_pages_frame kend s s' l :
  freelist s' = freelist s ->
  (forall pg a, pg ∈ l -> in_page pg a -> kmem s' a = kmem s a) ->
  free_pages kend s l -> free_pages kend s' l.
Proof.
  intros Hh Hm [Hc Hnd]. split; [|done]. rewrite Hh.
  eapply chain_ext; [|exact Hc]. intros a Ha. apply ld64_eq.
  intros b Hb. eapply Hm; [done|]. unfold in_page, PGSIZE. lia.
Qed.

Lemma free_pages_page_ok kend s l pg : free_pages kend s l -> pg ∈ l -> page_ok kend pg.
Proof.
  intros [Hc _] Hin. apply chain_page_ok in Hc. rewrite list.Forall_forall in Hc. auto.
Qed.

Lemma st64_out m a v b : ~ (a <= b < a + 8) -> st64 m a v b = m b.
Proof. intros. unfold st64. apply st_le_out. lia. Qed.

Lemma memset_page m pg c a :
  memset m pg c PGSIZE a = if decide (in_page pg a) then u8 c else m a.
Proof.
  unfold memset. rewrite memset_loop_spec. unfold in_page.
  case_decide; zcases; cbn [andb]; try done; unfold PGSIZE in *; lia.
Qed.

(** [outside P m m']: memory differs only in the pages [P]. *)
Definition outside (P : Z -> Prop) (m m' : mem) : Prop :=
  forall a, (forall p, P p -> ~ in_page p a) -> m' a = m a.

Lemma outside_refl P m : outside P m m.
Proof. done. Qed.

Lemma outside_trans P m m1 m2 : outside P m m1 -> outside P m1 m2 -> outside P m m2.
Proof. intros H1 H2 a Ha. rewrite H2, H1; done. Qed.

Lemma outside_weaken (P Q : Z -> Prop) m m' :
  (forall p, P p -> Q p) -> outside P m m' -> outside Q m m'.
Proof. intros HPQ H a Ha. apply H. eauto. Qed.

(** A page's bytes survive changes to other pages. *)
Lemma outside_page P m m' q a :
  outside P m m' -> q mod PGSIZE = 0 -> in_page q a ->
  (forall p, P p -> p mod PGSIZE = 0) -> ~ P q -> m' a = m a.
Proof.
  intros H Hq Ha HP Hn. apply H. intros p Hp Hpa.
  by rewrite (in_page_inj p q a (HP _ Hp) Hq Hpa Ha) in Hp.
Qed.

Lemma load_Ok a s : load a s = Ok (ld64 (kmem s) a) s.
Proof. reflexivity. Qed.

Lemma fill_Ok a c n s :
  fill a c n s = Ok tt {| kmem := memset (kmem s) a c n; freelist := freelist s |}.
Proof. reflexivity. Qed.

(** ** Address spaces *)

Section Space.
Context (kend : Z) (kend_pos : 0 < kend) (root : Z).
Implicit Types (T : gmap Z (nat * Z)) (mp : gmap Z Z) (l : list Z) (s : kstate).

Record space T mp l s : Prop := {
  sp_tables : tables kend (kmem s) root T;
  sp_free : free_pages kend s l;
  sp_disj : forall p, p ∈ l -> T !! p = None;
  sp_map : forall va, 0 <= va < MAXVA ->
    pte_of (kmem s) root va = default 0 (mp !! (va / PGSIZE));
  sp_valid : forall vpn v, mp !! vpn = Some v ->
    0 <= vpn < MAXVA / PGSIZE /\ has v PTE_V = true;
}.

(** [grown T l s T' l' s']: tables were added, from the front of the free list;
    only table pages changed. *)
Record grown T l s T' l' s' : Prop := {
  gr_sub : T ⊆ T';
  gr_new : exists new, l = new ++ l' /\
    forall q, is_Some (T' !! q) <-> is_Some (T !! q) \/ q ∈ new;
  gr_frame : outside (fun q => is_Some (T' !! q)) (kmem s) (kmem s');
}.

Lemma grown_refl T l s : grown T l s T l s.
Proof. split; [done| |done]. exists []. split; [done|]. set_solver. Qed.

Lemma grown_trans T l s T1 l1 s1 T2 l2 s2 :
  grown T l s T1 l1 s1 -> grown T1 l1 s1 T2 l2 s2 -> grown T l s T2 l2 s2.
Proof.
  intros [Hs1 (n1 & -> & Hn1) Hf1] [Hs2 (n2 & -> & Hn2) Hf2]. split.
  - by etrans.
  - exists (n1 ++ n2). rewrite app_assoc. split; [done|]. intros q.
    rewrite Hn2, Hn1. set_solver.
  - eapply outside_trans, Hf2. eapply outside_weaken, Hf1. cbn. intros q Hq.
    rewrite Hn2. by left.
Qed.

(** *** Walking *)

Lemma walk_loop_lookup L p va s :
  walk_loop L p va false s = Ok (slot_below L (kmem s) p va) s.
Proof.
  revert p. induction L as [|L IH]; intros p; [done|].
  cbn [walk_loop slot_below]. unfold kbind at 1. cbn [load kgets].
  unfold load, kgets. case_match; [apply IH|done].
Qed.

Lemma walk_lookup va s :
  va < MAXVA -> walk root va false s = Ok (slot_below 2 (kmem s) root va) s.
Proof.
  intros H. unfold walk. destruct (Z.leb_spec MAXVA va); [lia|]. apply walk_loop_lookup.
Qed.

(** *** Adding a table *)

Lemma page_entry_zero m pg j :
  0 <= j < 512 -> (forall a, in_page pg a -> m a = 0) -> ld64 m (entry pg j) = 0.
Proof.
  intros Hj Hz. rewrite (ld64_eq m (fun _ => 0)); [done|].
  intros b Hb. eapply Hz, entry_in_page; eauto.
Qed.

(** The memory after [walk] has linked [pg]. *)
Definition link_mem (m : mem) (p i pg : Z) : mem :=
  st64 (memset m pg 0 PGSIZE) (entry p i) (Z.lor (PA2PTE pg) PTE_V).

Lemma link_mem_out m p i pg a :
  0 <= i < 512 -> ~ in_page pg a -> ~ (entry p i <= a < entry p i + 8) ->
  link_mem m p i pg a = m a.
Proof.
  intros Hi Hpg Ha. unfold link_mem. rewrite st64_out, memset_page by done.
  by rewrite decide_False.
Qed.

Lemma link_mem_linked m m1 T p L x i pg :
  (forall q k, T !! q = Some k -> page_ok kend q) ->
  T !! p = Some (S L, x) -> 0 <= i < 512 -> T !! pg = None -> page_ok kend pg ->
  (forall a, ~ in_page pg a -> m1 a = m a) ->
  linked m (link_mem m1 p i pg) T p i pg.
Proof.
  intros HT Hp Hi Hnew Hok Hm1. pose proof (page_pa_ok _ _ kend_pos Hok) as Hpa.
  assert (forall q k a, T !! q = Some k -> in_page q a -> ~ in_page pg a) as Hout.
  { intros q k a Hq Ha Hb. destruct (HT _ _ Hq) as [Hq0 _], Hok as [Hpg0 _].
    rewrite (in_page_inj _ _ _ Hq0 Hpg0 Ha Hb) in Hq. congruence. }
  assert (forall q k j, T !! q = Some k -> 0 <= j < 512 ->
    ld64 (memset m1 pg 0 PGSIZE) (entry q j) = ld64 m (entry q j)) as Hsame.
  { intros q k j Hq Hj. apply ld64_eq. intros a Ha.
    assert (~ in_page pg a) by eauto using entry_in_page.
    rewrite memset_page, decide_False; auto. }
  split.
  - apply ld64_st64_eq, pte_bound; [done|]. by cbn.
  - intros q k j Hq Hj Hne. unfold link_mem. rewrite ld64_st64_ne; [eauto|].
    apply entry_disjoint; [apply (HT _ _ Hp)|apply (HT _ _ Hq)|done|done|congruence].
  - intros j Hj. unfold link_mem. rewrite ld64_st64_ne.
    + apply page_entry_zero; [done|]. intros a Ha. by rewrite memset_page, decide_True.
    + apply entry_disjoint; [apply (HT _ _ Hp)|apply Hok|done|done|congruence].
Qed.

Lemma new_table T mp pg l s p L x i :
  space T mp (pg :: l) s -> T !! p = Some (S L, x) -> 0 <= i < 512 ->
  has (ld64 (kmem s) (entry p i)) PTE_V = false -> key_ok L (x * 512 + i) ->
  exists s1, kalloc s = Ok pg s1 /\
    let s' := {| kmem := link_mem (kmem s1) p i pg; freelist := freelist s1 |} in
    let T' := <[pg := (L, x * 512 + i)]> T in
    space T' mp l s' /\ grown T (pg :: l) s T' l s'.
Proof.
  intros [Ht Hf Hd Hmap Hval] Hp Hi Hinv Hkey.
  destruct (kalloc_free kend kend_pos _ _ _ Hf) as (s1 & Hk & Hf1 & Hok & Hnin & Hs1 & _).
  exists s1. split; [done|]. intros s' T'.
  assert (T !! pg = None) as Hnew by (apply Hd; set_solver).
  pose proof (link_mem_linked _ _ _ _ _ _ _ _ (tables_page _ _ _ _ Ht) Hp Hi Hnew Hok Hs1) as Hl.
  assert (forall q, is_Some (T' !! q) <-> is_Some (T !! q) \/ q = pg) as HT'.
  { intros q. unfold T'. rewrite lookup_insert_is_Some'. naive_solver. }
  split; [split|split].
  - by eapply link_tables.
  - eapply free_pages_frame; [..|exact Hf1]; [done|]. intros q a Hq Ha.
    pose proof (free_pages_page_ok _ _ _ _ Hf1 Hq) as [Hq0 _].
    pose proof (Hd q ltac:(set_solver)) as HqT.
    apply link_mem_out; [done|..]; intros Hb.
    + destruct Hok as [Hpg0 _]. rewrite (in_page_inj _ _ _ Hq0 Hpg0 Ha Hb) in *. done.
    + apply entry_in_page in Hb; [|done].
      destruct (tables_page _ _ _ _ Ht _ _ Hp) as [Hp0 _].
      rewrite (in_page_inj _ _ _ Hq0 Hp0 Ha Hb) in *. congruence.
  - intros q Hq. apply eq_None_not_Some. rewrite HT'. intros [Hq'| ->]; [|done].
    rewrite (Hd q) in Hq' by set_solver. by destruct Hq'.
  - intros va Hva. rewrite <- (Hmap va Hva). eapply link_pte; eauto.
    by apply (tables_start kend (kmem s)).
  - done.
  - by apply insert_subseteq.
  - exists [pg]. split; [done|]. intros q. rewrite HT'. set_solver.
  - intros a Ha. cbn [kmem s']. rewrite link_mem_out; [|done|..].
    + apply Hs1, Ha, HT'. by right.
    + apply Ha, HT'. by right.
    + intros Hb. apply entry_in_page in Hb; [|done].
      eapply (Ha p); [|done]. apply HT'. by left.
Qed.

(** [walk] with [alloc] adds the missing tables and returns the slot; it
    returns 0 only when the free list runs out. *)
Lemma walk_loop_alloc L p va T mp l s :
  space T mp l s -> T !! p = Some (L, prefix L va) -> 0 <= va < MAXVA ->
  exists r s' T' l', walk_loop L p va true s = Ok r s' /\
    space T' mp l' s' /\ grown T l s T' l' s' /\
    (r = 0 /\ l' = [] \/
     exists q, T' !! q = Some (0%nat, prefix 0 va) /\ r = entry q (PX 0 va)).
Proof.
  revert p T l s. induction L as [|L IH]; intros p T l s Hsp Hp Hva.
  { exists (entry p (PX 0 va)), s, T, l. eauto 10 using grown_refl. }
  cbn [walk_loop].
  rewrite (kbind_Ok _ _ _ _ _ (load_Ok _ s)).
  destruct (has _ PTE_V) eqn:Hv.
  { apply (IH _ T); [done| |done]. eapply tables_down; eauto using sp_tables. }
  destruct l as [|pg l].
  { rewrite (kbind_Ok _ _ _ _ _ (kalloc_empty kend _ (sp_free _ _ _ _ Hsp))).
    exists 0, s, T, []. eauto 10 using grown_refl. }
  destruct (new_table _ _ _ _ _ _ _ _ _ Hsp Hp (PX_range (Z.of_nat (S L)) va) Hv)
    as (s1 & Hk & Hsp' & Hgr); [rewrite <- prefix_S; by apply prefix_key_ok|].
  rewrite (kbind_Ok _ _ _ _ _ Hk).
  destruct (Z.eqb_spec pg 0) as [->|_].
  { destruct (free_pages_page_ok _ _ _ 0 (sp_free _ _ _ _ Hsp)); [set_solver|lia]. }
  cbn [fill store kmodify kbind]. unfold kbind, fill, store, kmodify. cbn [kmem freelist].
  fold (link_mem (kmem s1) p (PX (Z.of_nat (S L)) va) pg).
  destruct (IH pg _ _ _ Hsp') as (r & s' & T' & l' & Hw & Hsp2 & Hgr2 & Hr).
  { rewrite lookup_insert_eq, <- prefix_S. done. }
  { done. }
  exists r, s', T', l'. split; [exact Hw|]. eauto using grown_trans.
Qed.

Lemma walk_alloc va T mp l s :
  space T mp l s -> 0 <= va < MAXVA ->
  exists r s' T' l', walk root va true s = Ok r s' /\
    space T' mp l' s' /\ grown T l s T' l' s' /\
    (r = 0 /\ l' = [] \/
     exists q, T' !! q = Some (0%nat, prefix 0 va) /\ r = entry q (PX 0 va)).
Proof.
  intros Hsp Hva. unfold walk. destruct (Z.leb_spec MAXVA va); [lia|].
  eapply walk_loop_alloc; [done| |done]. by eapply tables_start, Hva; apply Hsp.
Qed.

(** *** Changing an entry *)

Lemma store_leaf T mp mp' l s q va v :
  space T mp l s -> T !! q = Some (0%nat, prefix 0 va) -> 0 <= va < MAXVA ->
  0 <= v < 2 ^ 64 ->
  (forall n, default 0 (mp' !! n) =
     if decide (n = va / PGSIZE) then v else default 0 (mp !! n)) ->
  (forall n w, mp' !! n = Some w -> 0 <= n < MAXVA / PGSIZE /\ has w PTE_V = true) ->
  space T mp' l {| kmem := st64 (kmem s) (entry q (PX 0 va)) v; freelist := freelist s |}.
Proof.
  intros [Ht Hf Hd Hmap Hval] Hq Hva Hv Hmp' Hval'.
  pose proof (tables_aligned _ _ _ _ _ _ Ht Hq) as Hq0.
  set (a := entry q (PX 0 va)). set (m' := st64 (kmem s) a v).
  assert (same_interior (kmem s) m' T) as Hsame.
  { intros p L x i Hp Hi. apply ld64_st64_ne, entry_disjoint; try done.
    - by eapply tables_aligned.
    - apply PX_range.
    - congruence. }
  pose proof (slot_leaf _ _ _ _ _ _ Ht Hq) as Hslot.
  pose proof (table_nonzero _ kend_pos _ _ _ _ _ Ht Hq) as Hqpos.
  pose proof (PX_range 0 va) as HPX.
  split; [by eapply tables_same_interior| |done| |done].
  - eapply free_pages_frame; [..|exact Hf]; [done|]. intros p b Hp Hb.
    apply st64_out. intros Hb'. apply entry_in_page in Hb'; [|done].
    destruct (free_pages_page_ok _ _ _ _ Hf Hp) as [Hp0 _].
    pose proof (Hd p Hp). rewrite (in_page_inj _ _ _ Hp0 Hq0 Hb Hb') in *. congruence.
  - intros va' Hva'. rewrite Hmp'. pose proof (tables_start _ _ _ _ _ Ht Hva') as Hr.
    cbn [kmem]. unfold pte_of.
    rewrite (pte_below_slot kend kend_pos m' root T) by eauto using tables_same_interior.
    rewrite (slot_same_interior kend (kmem s) m' root T) by done.
    rewrite <- (Hmap va' Hva'). unfold pte_of.
    rewrite (pte_below_slot kend kend_pos (kmem s) root T) by done.
    case_decide as E.
    + rewrite (slot_page _ _ _ _ _ E), Hslot.
      destruct (Z.eqb_spec (entry q (PX 0 va)) 0); [unfold entry in *; lia|].
      by apply ld64_st64_eq.
    + destruct (Z.eqb_spec (slot_below 2 (kmem s) root va') 0) as [|Hn]; [done|].
      destruct (slot_in_table _ _ _ _ _ _ _ Ht Hr) as [|(q' & Hq' & Hs')]; [done|].
      rewrite Hs'. apply ld64_st64_ne, entry_disjoint; try done.
      * by eapply tables_aligned.
      * apply PX_range.
      * intros [= -> HPX']. apply E. rewrite !page_number.
        assert (prefix 0 va' = prefix 0 va) by congruence. congruence.
Qed.

(** *** Mapping *)

Definition make_pte (pa perm : Z) : Z := Z.lor (Z.lor (PA2PTE pa) perm) PTE_V.

Lemma lor_bound a b : 0 <= a < 1024 -> 0 <= b < 1024 -> 0 <= Z.lor a b < 1024.
Proof.
  intros Ha Hb. assert (0 <= Z.lor a b) as Hp by (apply Z.lor_nonneg; lia).
  split; [done|]. destruct (decide (Z.lor a b = 0)); [lia|].
  change 1024 with (2 ^ 10). apply Z.log2_lt_pow2; [lia|]. rewrite Z.log2_lor by lia.
  assert (forall c, 0 <= c < 1024 -> Z.log2 c < 10) as Hlog.
  { intros c Hc. destruct (decide (c = 0)) as [->|]; [done|]. apply Z.log2_lt_pow2; lia. }
  apply Z.max_lub_lt; auto.
Qed.

Lemma make_pte_spec pa perm :
  pa_ok pa -> 0 <= perm < 1024 ->
  0 <= make_pte pa perm < 2 ^ 64 /\ has (make_pte pa perm) PTE_V = true /\
  PTE2PA (make_pte pa perm) = pa /\ PTE_FLAGS (make_pte pa perm) = Z.lor perm PTE_V.
Proof.
  intros Hpa Hperm. unfold make_pte.
  assert (0 <= Z.lor perm PTE_V < 1024) as Hf by (by apply lor_bound).
  split; [|split_and!].
  - rewrite <- Z.lor_assoc. by apply pte_bound.
  - by apply has_lor_r.
  - rewrite <- Z.lor_assoc. by apply PTE2PA_PA2PTE.
  - rewrite <- Z.lor_assoc. by apply PTE_FLAGS_PA2PTE.
Qed.

(** [k] consecutive pages from page [vpn] and frame [pa] on. *)
Fixpoint map_range (k : nat) (vpn pa perm : Z) (mp : gmap Z Z) : gmap Z Z :=
  match k with
  | O => mp
  | S k => map_range k (vpn + 1) (pa + PGSIZE) perm (<[vpn := make_pte pa perm]> mp)
  end.

Lemma map_range_lookup k vpn pa perm mp n :
  map_range k vpn pa perm mp !! n =
    if decide (vpn <= n < vpn + Z.of_nat k)
    then Some (make_pte (pa + (n - vpn) * PGSIZE) perm) else mp !! n.
Proof.
  revert vpn pa mp. induction k as [|k IH]; intros vpn pa mp; cbn [map_range].
  - rewrite decide_False by lia. done.
  - rewrite IH. destruct (decide (n = vpn)) as [->|Hne].
    + rewrite decide_False, decide_True by lia. rewrite lookup_insert_eq.
      do 2 f_equal. lia.
    + rewrite lookup_insert_ne by done.
      destruct (decide (vpn <= n < vpn + Z.of_nat (S k))).
      * rewrite decide_True by lia. do 2 f_equal. lia.
      * rewrite decide_False by lia. done.
Qed.

(** What a mapping of [k] pages can end in: a page was mapped already, memory
    for tables ran out after [j] pages, or all pages are mapped. *)
Inductive map_outcome (k : nat) (vpn pa perm : Z) T mp l s : res kstate Z -> Prop :=
| map_remap j :
    (j < k)%nat -> is_Some (mp !! (vpn + Z.of_nat j)) ->
    map_outcome k vpn pa perm T mp l s (Panic "mappages: remap")
| map_nomem j T' s' :
    (j < k)%nat -> space T' (map_range j vpn pa perm mp) [] s' -> grown T l s T' [] s' ->
    (forall n, vpn <= n < vpn + Z.of_nat j -> mp !! n = None) ->
    map_outcome k vpn pa perm T mp l s (Ok (-1) s')
| map_done T' l' s' :
    space T' (map_range k vpn pa perm mp) l' s' -> grown T l s T' l' s' ->
    (forall n, vpn <= n < vpn + Z.of_nat k -> mp !! n = None) ->
    map_outcome k vpn pa perm T mp l s (Ok 0 s').

(** The body of the loop of [mappages]. *)
Lemma map_one T mp l s a pa perm :
  space T mp l s -> 0 <= a < MAXVA -> pa_ok pa -> 0 <= perm < 1024 ->
  (exists r s1 T' l', walk root a true s = Ok r s1 /\ space T' mp l' s1 /\
    grown T l s T' l' s1 /\
    (r = 0 /\ l' = [] \/
     r <> 0 /\ ld64 (kmem s1) r = default 0 (mp !! (a / PGSIZE)) /\
     (mp !! (a / PGSIZE) = None ->
      let s' := {| kmem := st64 (kmem s1) r (make_pte pa perm); freelist := freelist s1 |} in
      space T' (<[a / PGSIZE := make_pte pa perm]> mp) l' s' /\ grown T l s T' l' s'))).
Proof.
  intros Hsp Ha Hpa Hperm.
  destruct (walk_alloc a _ _ _ _ Hsp Ha) as (r & s1 & T' & l' & Hw & Hsp1 & Hgr & Hr).
  exists r, s1, T', l'. split_and!; [done..|].
  destruct Hr as [[-> ->]|(q & Hq & ->)]; [by left|right].
  pose proof (sp_tables _ _ _ _ Hsp1) as Ht. pose proof (PX_range 0 a) as HPX.
  pose proof (table_nonzero _ kend_pos _ _ _ _ _ Ht Hq).
  assert (entry q (PX 0 a) <> 0) as Hnz by (unfold entry; lia).
  split_and!; [done| |].
  - rewrite <- (sp_map _ _ _ _ Hsp1 a Ha). unfold pte_of.
    rewrite (pte_below_slot kend kend_pos (kmem s1) root T') by eauto using tables_start.
    rewrite (slot_leaf _ _ _ _ _ _ Ht Hq).
    by destruct (Z.eqb_spec (entry q (PX 0 a)) 0).
  - intros Hnone s'. destruct (make_pte_spec _ _ Hpa Hperm) as (Hb & Hv & _). split.
    + eapply store_leaf; eauto.
      * intros n. destruct (decide (n = a / PGSIZE)) as [->|Hne].
        { by rewrite lookup_insert_eq. }
        by rewrite lookup_insert_ne.
      * intros n w. rewrite lookup_insert_Some. intros [[<- <-]|[_ Hn]].
        { split; [|done]. split; [apply Z.div_pos; [lia|done]|].
          apply Z.div_lt_upper_bound; [done|]. change (PGSIZE * (MAXVA / PGSIZE)) with MAXVA. lia. }
        by eapply sp_valid.
    + destruct Hgr as [Hsub Hnew Hfr]. split; [done|done|].
      intros b Hb'. cbn [kmem s']. rewrite st64_out; [by apply Hfr|].
      intros Hb2. apply entry_in_page in Hb2; [|done]. eapply (Hb' q); [by eexists|done].
Qed.

Lemma page_next a : 0 <= a -> (a + PGSIZE) / PGSIZE = a / PGSIZE + 1.
Proof. intros. rewrite <- (Z.mul_1_l PGSIZE) at 1. by rewrite Z.div_add. Qed.

Lemma aligned_next a : a mod PGSIZE = 0 -> (a + PGSIZE) mod PGSIZE = 0.
Proof. intros H. rewrite <- (Z.mul_1_l PGSIZE) at 1. by rewrite Z.mod_add. Qed.

Lemma map_outcome_S k vpn pa perm T mp l s T1 l1 s1 r :
  mp !! vpn = None -> grown T l s T1 l1 s1 ->
  map_outcome k (vpn + 1) (pa + PGSIZE) perm T1 (<[vpn := make_pte pa perm]> mp) l1 s1 r ->
  map_outcome (S k) vpn pa perm T mp l s r.
Proof.
  intros Hn Hgr Ho. destruct Ho as [j Hj Hm|j T' s' Hj Hsp Hg Hfr|T' l' s' Hsp Hg Hfr].
  - apply (map_remap _ _ _ _ _ _ _ _ (S j)); [lia|].
    rewrite lookup_insert_ne in Hm by lia.
    replace (vpn + Z.of_nat (S j)) with (vpn + 1 + Z.of_nat j) by lia. done.
  - apply (map_nomem _ _ _ _ _ _ _ _ (S j) T'); [lia|done|by eapply grown_trans|].
    intros n Hn'. destruct (decide (n = vpn)) as [->|]; [done|].
    rewrite <- (Hfr n) by lia. by rewrite lookup_insert_ne.
  - apply (map_done _ _ _ _ _ _ _ _ T' l'); [done|by eapply grown_trans|].
    intros n Hn'. destruct (decide (n = vpn)) as [->|]; [done|].
    rewrite <- (Hfr n) by lia. by rewrite lookup_insert_ne.
Qed.

(** One iteration of [mappages]. *)
Lemma mappages_iter k a last pa perm T mp l s :
  space T mp l s -> 0 <= a < MAXVA -> pa_ok pa -> 0 <= perm < 1024 ->
  (exists T' s', mappages_loop (S k) root a last pa perm s = Ok (-1) s' /\
     space T' mp [] s' /\ grown T l s T' [] s') \/
  is_Some (mp !! (a / PGSIZE)) /\
    mappages_loop (S k) root a last pa perm s = Panic "mappages: remap" \/
  mp !! (a / PGSIZE) = None /\
    exists T' l' s', space T' (<[a / PGSIZE := make_pte pa perm]> mp) l' s' /\
      grown T l s T' l' s' /\
      mappages_loop (S k) root a last pa perm s =
        if a =? last then Ok 0 s'
        else mappages_loop k root (u64 (a + PGSIZE)) last (u64 (pa + PGSIZE)) perm s'.
Proof.
  intros Hsp Ha Hpa Hperm. cbn [mappages_loop].
  destruct (map_one _ _ _ _ a pa perm Hsp Ha Hpa Hperm)
    as (r & s1 & T' & l' & Hw & Hsp1 & Hgr & Hr).
  rewrite (kbind_Ok _ _ _ _ _ Hw).
  destruct Hr as [[-> ->]|(Hnz & Hld & Hst)]; [left; by exists T', s1|right].
  destruct (Z.eqb_spec r 0) as [|_]; [done|].
  rewrite (kbind_Ok _ _ _ _ _ (load_Ok r s1)), Hld.
  destruct (mp !! (a / PGSIZE)) as [v|] eqn:Hmp; [left|right].
  - change (default 0 (Some v)) with v. rewrite (proj2 (sp_valid _ _ _ _ Hsp _ _ Hmp)). eauto.
  - change (default 0 (None : option Z)) with 0. rewrite has_zero. destruct (Hst eq_refl) as [Hsp2 Hgr2]. split; [done|].
    do 3 eexists. split_and!; [done..|]. by destruct (a =? last).
Qed.

Lemma mappages_loop_spec k a pa perm T mp l s :
  space T mp l s -> a mod PGSIZE = 0 -> pa mod PGSIZE = 0 -> 0 <= a -> 0 <= pa ->
  a + Z.of_nat (S k) * PGSIZE <= MAXVA -> pa + Z.of_nat (S k) * PGSIZE <= 2 ^ 56 ->
  0 <= perm < 1024 ->
  map_outcome (S k) (a / PGSIZE) pa perm T mp l s
    (mappages_loop (S k) root a (a + Z.of_nat k * PGSIZE) pa perm s).
Proof.
  revert a pa T mp l s. induction k as [|k IH];
    intros a pa T mp l s Hsp Hal Hpal Ha Hpa Htop Hptop Hperm;
    change MAXVA with (2 ^ 38) in *;
    (edestruct mappages_iter as
      [(T' & s' & -> & ? & ?)|[[? ->]|(Hn & T' & l' & s' & Hsp' & Hgr & ->)]];
      [exact Hsp|change MAXVA with (2 ^ 38)|split|exact Hperm|..];
      try (unfold PGSIZE in *; lia)); try done.
  1, 4: by apply (map_nomem _ _ _ _ _ _ _ _ 0%nat T'); [lia|done..|lia].
  1, 3: by apply (map_remap _ _ _ _ _ _ _ _ 0%nat); [lia|rewrite Z.add_0_r].
  - rewrite Z.add_0_r, Z.eqb_refl. apply (map_done _ _ _ _ _ _ _ _ T' l'); [done|done|].
    intros n Hn'. by assert (n = a / PGSIZE) as -> by lia.
  - destruct (Z.eqb_spec a (a + Z.of_nat (S k) * PGSIZE)) as [E|_];
      [unfold PGSIZE in E; lia|].
    rewrite !u64_small by (unfold PGSIZE in *; lia).
    eapply map_outcome_S; [done|exact Hgr|]. rewrite <- (page_next a Ha).
    replace (a + Z.of_nat (S k) * PGSIZE) with (a + PGSIZE + Z.of_nat k * PGSIZE) by lia.
    apply IH; auto using aligned_next; unfold PGSIZE in *; lia.
Qed.

Lemma PGROUNDDOWN_mul a : PGROUNDDOWN a = a / PGSIZE * PGSIZE.
Proof.
  unfold PGROUNDDOWN. rewrite land_pagemask.
  pose proof (Z.div_mod a PGSIZE). unfold PGSIZE in *. lia.
Qed.

Lemma mappages_spec va size pa perm T mp l s :
  space T mp l s -> 0 <= va -> 0 < size -> va + size <= MAXVA ->
  pa mod PGSIZE = 0 -> 0 <= pa ->
  let k := Z.to_nat ((va + size - 1) / PGSIZE - va / PGSIZE + 1) in
  pa + Z.of_nat k * PGSIZE <= 2 ^ 56 -> 0 <= perm < 1024 ->
  map_outcome k (va / PGSIZE) pa perm T mp l s (mappages root va size pa perm s).
Proof.
  intros Hsp Hva Hsz Htop Hpal Hpa k Hptop Hperm. unfold mappages.
  change MAXVA with (2 ^ 38) in *.
  destruct (Z.eqb_spec size 0) as [|_]; [lia|].
  rewrite (u64_small (va + size - 1)), !PGROUNDDOWN_mul by lia.
  assert (va / PGSIZE <= (va + size - 1) / PGSIZE) as Hle by (apply Z.div_le_mono; done || lia).
  assert ((va + size - 1) / PGSIZE < 2 ^ 26) as Hhi
    by (apply Z.div_lt_upper_bound; unfold PGSIZE; lia).
  assert (0 <= va / PGSIZE) as Hlo by (apply Z.div_pos; done || lia).
  set (x := va / PGSIZE) in *. set (y := (va + size - 1) / PGSIZE) in *.
  rewrite u64_small by (unfold PGSIZE; lia).
  rewrite <- Z.mul_sub_distr_r, Z.div_mul by done.
  replace k with (S (Z.to_nat (y - x))) in * by lia.
  replace (y * PGSIZE) with (x * PGSIZE + Z.of_nat (Z.to_nat (y - x)) * PGSIZE)
    by (rewrite Z2Nat.id; lia).
  replace x with (x * PGSIZE / PGSIZE) at 2 by (by rewrite Z.div_mul).
  apply mappages_loop_spec; try done.
  - by apply Z.mod_mul.
  - unfold PGSIZE; lia.
  - change MAXVA with (2 ^ 38). unfold PGSIZE in *. lia.
Qed.
End Space.

(** ** User address spaces *)

(** The pages below the trapframe belong to the process. *)
Definition ULIM : Z := TRAPFRAME / PGSIZE.

Section User.
Context (kend : Z) (kend_pos : 0 < kend) (root : Z).
Implicit Types (F : gset Z) (T : gmap Z (nat * Z)) (mp : gmap Z Z) (l : list Z) (s : kstate).

Abbreviation space := (space kend root).
Abbreviation grown := (grown).

(** The frames of the user pages. *)
Definition user_frame mp p : Prop := exists n v, mp !! n = Some v /\ n < ULIM /\ PTE2PA v = p.

(** [F] is the set of pages in use here or free: the free list, the
    page-table pages and the frames of user pages split it up. *)
Record parts F T mp l : Prop := {
  pt_leaf : forall n v, mp !! n = Some v -> n < ULIM ->
    PTE_FLAGS v <> PTE_V /\ page_ok kend (PTE2PA v) /\
    (PTE2PA v ∉ l) /\ T !! PTE2PA v = None;
  pt_inj : forall n n' v v', mp !! n = Some v -> mp !! n' = Some v' ->
    n < ULIM -> n' < ULIM -> PTE2PA v = PTE2PA v' -> n = n';
  pt_all : forall p, p ∈ F <-> p ∈ l \/ is_Some (T !! p) \/ user_frame mp p;
}.

Definition uspace F T mp l s : Prop := space T mp l s /\ parts F T mp l.

(** The pages that hold no user data. *)
Definition spare F mp (p : Z) : Prop := p ∈ F /\ ~ user_frame mp p.

(** The part of [space] that is about the tables alone. *)
Record maps T mp (m : mem) : Prop := {
  mp_tables : tables kend m root T;
  mp_map : forall va, 0 <= va < MAXVA -> pte_of m root va = default 0 (mp !! (va / PGSIZE));
  mp_valid : forall vpn v, mp !! vpn = Some v ->
    0 <= vpn < MAXVA / PGSIZE /\ has v PTE_V = true;
}.

Lemma space_maps T mp l s : space T mp l s -> maps T mp (kmem s).
Proof. intros []. by split. Qed.

(** Changes outside the page-table pages keep the translation. *)
Lemma maps_frame T mp m m' :
  maps T mp m -> (forall q a, is_Some (T !! q) -> in_page q a -> m' a = m a) ->
  maps T mp m'.
Proof.
  intros [Ht Hmap Hval] Hsame.
  assert (forall q k i, T !! q = Some k -> 0 <= i < 512 ->
    ld64 m' (entry q i) = ld64 m (entry q i)) as He
    by eauto using entry_same, mk_is_Some.
  assert (same_interior m m' T) as Hint by (intros ?????; eauto).
  split; [by eapply tables_same_interior| |done].
  intros va Hva. rewrite <- Hmap by done. unfold pte_of.
  pose proof (tables_start _ _ _ _ _ Ht Hva) as Hr.
  rewrite (pte_below_slot kend kend_pos m' root T) by eauto using tables_same_interior.
  rewrite (pte_below_slot kend kend_pos m root T) by done.
  rewrite (slot_same_interior kend m m' root T) by done.
  destruct (Z.eqb_spec (slot_below 2 m root va) 0) as [|Hnz]; [done|].
  destruct (slot_in_table _ _ _ _ _ _ _ Ht Hr) as [|(q & Hq & ->)]; [done|].
  eauto using PX_range.
Qed.

Lemma space_frame T mp l l' s s' :
  space T mp l s ->
  (forall q a, is_Some (T !! q) -> in_page q a -> kmem s' a = kmem s a) ->
  free_pages kend s' l' -> (forall p, p ∈ l' -> T !! p = None) -> space T mp l' s'.
Proof.
  intros Hsp Hsame Hf' Hd'.
  destruct (maps_frame _ _ _ _ (space_maps _ _ _ _ Hsp) Hsame). by split.
Qed.

Lemma table_page_ok T mp l s q : space T mp l s -> is_Some (T !! q) -> page_ok kend q.
Proof. intros Hsp [k Hk]. eapply tables_page, Hk. apply Hsp. Qed.

Lemma table_not_page T mp l s q p a :
  space T mp l s -> is_Some (T !! q) -> T !! p = None -> p mod PGSIZE = 0 ->
  in_page q a -> ~ in_page p a.
Proof.
  intros Hsp Hq Hp Hal Ha Hb. destruct (table_page_ok _ _ _ _ _ Hsp Hq) as [Hq0 _].
  rewrite (in_page_inj _ _ _ Hq0 Hal Ha Hb), Hp in Hq. by destruct Hq.
Qed.

(** *** Taking and returning a page *)

(** Taking a page off the free list and writing into it. *)
Lemma take_page T mp pg l s :
  space T mp (pg :: l) s ->
  exists s1, kalloc s = Ok pg s1 /\ page_ok kend pg /\ (pg ∉ l) /\ T !! pg = None /\
    outside (eq pg) (kmem s) (kmem s1) /\
    forall m, outside (eq pg) (kmem s1) m ->
      space T mp l {| kmem := m; freelist := freelist s1 |}.
Proof.
  intros Hsp. pose proof (sp_free _ _ _ _ _ _ Hsp) as Hf.
  pose proof (sp_disj _ _ _ _ _ _ Hsp) as Hd.
  destruct (kalloc_free kend kend_pos _ _ _ Hf) as (s1 & Hk & Hf1 & Hok & Hnin & Hs1 & _).
  assert (T !! pg = None) as Hnew by (apply Hd; set_solver).
  exists s1. split_and!; try done.
  - intros a Ha. apply Hs1. by apply Ha.
  - intros m Hm. eapply space_frame; [exact Hsp|..]; cbn [kmem].
    + intros q a Hq Ha. pose proof (table_not_page _ _ _ _ _ pg a Hsp Hq Hnew (proj1 Hok) Ha).
      rewrite Hm, Hs1; [done|done|]. by intros ? <-.
    + eapply free_pages_frame; [..|exact Hf1]; [done|]. intros q a Hq Ha. apply Hm.
      intros ? <- Hb. destruct (free_pages_page_ok _ _ _ _ Hf1 Hq) as [Hq0 _].
      by rewrite (in_page_inj _ _ _ Hq0 (proj1 Hok) Ha Hb) in Hq.
    + intros p Hp. apply Hd. set_solver.
Qed.

Lemma give_page T mp pg l s :
  space T mp l s -> page_ok kend pg -> pg ∉ l -> T !! pg = None ->
  exists s', kfree kend pg s = Ok tt s' /\ space T mp (pg :: l) s' /\
    outside (eq pg) (kmem s) (kmem s').
Proof.
  intros Hsp Hok Hnin Hnew.
  destruct (kfree_free kend kend_pos _ _ pg (sp_free _ _ _ _ _ _ Hsp) Hok Hnin)
    as (s' & Hk & Hf & Hout).
  exists s'. split_and!; [done| |].
  - eapply space_frame; [exact Hsp|..]; [|done|].
    + intros q a Hq Ha. apply Hout. by eapply table_not_page; [..|exact Ha]; [..|apply Hok].
    + intros p [->|Hp]%elem_of_cons; [done|]. by eapply sp_disj.
  - intros a Ha. apply Hout. by apply Ha.
Qed.

(** *** The split of the pages *)

Lemma parts_grown F T mp l s T' l' s' :
  parts F T mp l -> grown T l s T' l' s' -> parts F T' mp l'.
Proof.
  intros [Hleaf Hinj Hall] [Hsub (new & -> & Hnew) _]. split; [|done|].
  - intros n v Hn Hlim. destruct (Hleaf n v Hn Hlim) as (Hfl & Hok & Hl & HT).
    split_and!; [done|done|set_solver|]. apply eq_None_not_Some. rewrite Hnew, HT.
    intros [[? ?]|?]; [done|set_solver].
  - intros p. rewrite Hall, elem_of_app, Hnew. tauto.
Qed.

Lemma parts_take F T mp pg l :
  parts F T mp (pg :: l) -> pg ∉ l -> T !! pg = None -> parts (F ∖ {[pg]}) T mp l.
Proof.
  intros [Hleaf Hinj Hall] Hnin Hnew. split; [|done|].
  - intros n v Hn Hlim. specialize (Hleaf n v Hn Hlim). set_solver.
  - intros p. rewrite elem_of_difference, elem_of_singleton, Hall, elem_of_cons. split.
    + naive_solver.
    + intros [Hp|[Hp|Hp]]; (split; [by auto|intros ->]); [done| |].
      * rewrite Hnew in Hp. by destruct Hp.
      * destruct Hp as (n & v & Hn & Hlim & <-). specialize (Hleaf n v Hn Hlim). set_solver.
Qed.

Lemma parts_give F T mp pg l :
  parts F T mp l -> pg ∉ F -> parts ({[pg]} ∪ F) T mp (pg :: l).
Proof.
  intros [Hleaf Hinj Hall] Hpg. split; [|done|].
  - intros n v Hn Hlim. destruct (Hleaf n v Hn Hlim) as (? & ? & ? & ?).
    split_and!; try done. rewrite elem_of_cons. intros [E|?]; [|done].
    apply Hpg, Hall. right; right. by exists n, v.
  - intros p. rewrite elem_of_union, elem_of_singleton, elem_of_cons, Hall. tauto.
Qed.

Lemma user_frame_insert mp n v p :
  mp !! n = None -> n < ULIM ->
  user_frame (<[n := v]> mp) p <-> p = PTE2PA v \/ user_frame mp p.
Proof.
  intros Hn Hlim. unfold user_frame. split.
  - intros (n' & v' & Hn' & Hlim' & <-). apply lookup_insert_Some in Hn'.
    destruct Hn' as [[<- <-]|[? ?]]; eauto 10.
  - intros [->|(n' & v' & Hn' & Hlim' & <-)].
    + exists n, v. by rewrite lookup_insert_eq.
    + exists n', v'. rewrite lookup_insert_ne by congruence. done.
Qed.

Lemma parts_insert F T mp l n v :
  parts F T mp l -> mp !! n = None -> n < ULIM ->
  PTE_FLAGS v <> PTE_V -> page_ok kend (PTE2PA v) -> PTE2PA v ∉ F ->
  parts ({[PTE2PA v]} ∪ F) T (<[n := v]> mp) l.
Proof.
  intros [Hleaf Hinj Hall] Hn Hlim Hfl Hok HF.
  assert (forall n' v', mp !! n' = Some v' -> n' < ULIM -> PTE2PA v <> PTE2PA v') as Hne.
  { intros n' v' Hn' Hlim' E. apply HF, Hall. right; right. by exists n', v'. }
  split.
  - intros n' v'. rewrite lookup_insert_Some. intros [[<- <-]|[? ?]]; [|by eauto].
    intros _. split_and!; [done|done|..].
    + intros Hl. apply HF, Hall. by left.
    + apply eq_None_not_Some. intros HT. apply HF, Hall. by right; left.
  - intros n1 n2 v1 v2. rewrite !lookup_insert_Some.
    intros [[<- <-]|[? H1]] [[<- <-]|[? H2]] ?? E; [done| | |by eauto]; exfalso.
    + by eapply (Hne n2 v2).
    + by eapply (Hne n1 v1).
  - intros p. rewrite elem_of_union, elem_of_singleton, Hall, user_frame_insert by done. tauto.
Qed.

Lemma parts_delete F T mp l n v :
  parts F T mp l -> mp !! n = Some v -> n < ULIM ->
  parts (F ∖ {[PTE2PA v]}) T (delete n mp) l.
Proof.
  intros [Hleaf Hinj Hall] Hn Hlim. destruct (Hleaf n v Hn Hlim) as (_ & _ & Hl & HT). split.
  - intros n' v'. rewrite lookup_delete_Some. intros [_ ?]. eauto.
  - intros n1 n2 v1 v2. rewrite !lookup_delete_Some. intros [_ ?] [_ ?]. eauto.
  - intros p. rewrite elem_of_difference, elem_of_singleton, Hall. unfold user_frame. split.
    + intros [[?|[?|(n' & v' & Hn' & Hlim' & <-)]] Hne]; [by auto..|].
      right; right. exists n', v'. rewrite lookup_delete_ne by congruence. done.
    + intros [Hp|[Hp|(n' & v' & Hn' & Hlim' & <-)]].
      * split; [by auto|by intros ->].
      * split; [by auto|intros ->]. rewrite HT in Hp. by destruct Hp.
      * apply lookup_delete_Some in Hn'. destruct Hn' as [Hne Hn'].
        split; [by eauto 10|]. intros E. apply Hne. by eapply (Hinj n n').
Qed.

Lemma uspace_page_ok F T mp l s p : uspace F T mp l s -> p ∈ F -> page_ok kend p.
Proof.
  intros [Hsp Hpt] HF. apply (pt_all _ _ _ _ Hpt) in HF.
  destruct HF as [Hl|[HT|(n & v & Hn & Hlim & <-)]].
  - eapply free_pages_page_ok, Hl. apply Hsp.
  - by eapply table_page_ok.
  - by destruct (pt_leaf _ _ _ _ Hpt n v Hn Hlim) as (_ & ? & _).
Qed.

(** Changes to spare pages keep user data. *)
Lemma user_kept F T mp l s m m' p a :
  uspace F T mp l s -> outside (spare F mp) m m' -> user_frame mp p -> in_page p a ->
  m' a = m a.
Proof.
  intros Hus Hout Hp Ha. eapply outside_page; [exact Hout| |exact Ha|..].
  - eapply (uspace_page_ok _ _ _ _ _ p); [done|]. apply (pt_all _ _ _ _ (proj2 Hus)). auto.
  - intros q [Hq _]. by eapply uspace_page_ok.
  - by intros [_ ?].
Qed.

(** *** Mapping a fresh page *)

Lemma ULIM_bound : ULIM * PGSIZE + 2 * PGSIZE = MAXVA.
Proof. reflexivity. Qed.

Lemma parts_table_spare F T mp l p : parts F T mp l -> is_Some (T !! p) -> spare F mp p.
Proof.
  intros [Hleaf _ Hall] Hp. split; [by apply Hall; auto|].
  intros (n & v & Hn & Hlim & <-). destruct (Hleaf n v Hn Hlim) as (_ & _ & _ & E).
  rewrite E in Hp. by destruct Hp.
Qed.

Lemma parts_free_spare F T mp l p : parts F T mp l -> p ∈ l -> spare F mp p.
Proof.
  intros [Hleaf _ Hall] Hp. split; [by apply Hall; auto|].
  intros (n & v & Hn & Hlim & <-). by destruct (Hleaf n v Hn Hlim) as (_ & _ & E & _).
Qed.

Lemma map_page n pa perm T mp l s :
  space T mp l s -> 0 <= n < ULIM + 2 -> mp !! n = None -> pa_ok pa -> 0 <= perm < 1024 ->
  (exists T' s', mappages root (n * PGSIZE) PGSIZE pa perm s = Ok (-1) s' /\
     space T' mp [] s' /\ grown T l s T' [] s') \/
  (exists T' l' s', mappages root (n * PGSIZE) PGSIZE pa perm s = Ok 0 s' /\
     space T' (<[n := make_pte pa perm]> mp) l' s' /\ grown T l s T' l' s').
Proof.
  intros Hsp Hn Hmp [Hpal Hpa] Hperm. pose proof ULIM_bound as HU.
  assert ((n * PGSIZE + PGSIZE - 1) / PGSIZE = n) as Ediv.
  { replace (n * PGSIZE + PGSIZE - 1) with (PGSIZE - 1 + n * PGSIZE) by lia.
    by rewrite Z.div_add. }
  pose proof (mappages_spec kend kend_pos root (n * PGSIZE) PGSIZE pa perm T mp l s Hsp) as Hm.
  rewrite Ediv, Z.div_mul, Z.sub_diag in Hm by done. cbn zeta in Hm.
  change (Z.to_nat (0 + 1)) with 1%nat in Hm.
  assert (pa + Z.of_nat 1 * PGSIZE <= 2 ^ 56) as Htop.
  { unfold PGSIZE in *. Z.to_euclidean_division_equations. lia. }
  destruct Hm as [j Hj Hs|j T' s' Hj Hsp' Hgr _|T' l' s' Hsp' Hgr _];
    try done; try (unfold PGSIZE in *; lia).
  - assert (j = 0%nat) as -> by lia. rewrite Z.add_0_r, Hmp in Hs. by destruct Hs.
  - assert (j = 0%nat) as -> by lia. left. by exists T', s'.
  - right. by exists T', l', s'.
Qed.

(** Taking a page, filling it with [m], and mapping it at page [n]. *)
Lemma map_fresh n perm F T mp pg l s :
  uspace F T mp (pg :: l) s -> 0 <= n < ULIM -> mp !! n = None ->
  0 <= perm < 1024 -> Z.lor perm PTE_V <> PTE_V ->
  exists s1, kalloc s = Ok pg s1 /\ pg <> 0 /\ outside (eq pg) (kmem s) (kmem s1) /\
    spare F mp pg /\ page_ok kend pg /\
    forall m, outside (eq pg) (kmem s1) m ->
    let map := mappages root (n * PGSIZE) PGSIZE pg perm
                 {| kmem := m; freelist := freelist s1 |} in
    let mp' := <[n := make_pte pg perm]> mp in
    (exists T' l' s', map = Ok 0 s' /\ uspace F T' mp' l' s' /\
       outside (spare F mp') m (kmem s')) \/
    (exists T' s' s'', map = Ok (-1) s' /\ kfree kend pg s' = Ok tt s'' /\
       uspace F T' mp [pg] s'' /\ outside (spare F mp) m (kmem s'')).
Proof.
  intros [Hsp Hpt] Hn Hmp Hperm Hleaf.
  pose proof (parts_free_spare _ _ _ _ pg Hpt ltac:(set_solver)) as Hspare.
  destruct (take_page _ _ _ _ _ Hsp) as (s1 & Hk & Hok & Hnin & HT & Hout & Hm).
  pose proof (page_pa_ok _ _ kend_pos Hok) as Hpa.
  destruct (make_pte_spec _ _ Hpa Hperm) as (_ & _ & E2PA & EFL).
  pose proof (parts_take _ _ _ _ _ Hpt Hnin HT) as Hpt1.
  assert (F = {[pg]} ∪ F ∖ {[pg]}) as HF by apply (union_difference_singleton_L _ _ (proj1 Hspare)).
  exists s1. split; [done|]. split; [destruct Hok; lia|]. do 3 (split; [done|]).
  intros m Hm1 map mp'.
  destruct (map_page n pg perm _ _ _ _ (Hm m Hm1) ltac:(lia) Hmp Hpa Hperm)
    as [(T' & s' & Hmap & Hsp' & Hgr)|(T' & l' & s' & Hmap & Hsp' & Hgr)];
    pose proof (parts_grown _ _ _ _ _ _ _ _ Hpt1 Hgr) as Hpt'; [right|left].
  - assert (T' !! pg = None) as HT'.
    { apply eq_None_not_Some. intros Hs. pose proof (parts_table_spare _ _ _ _ _ Hpt' Hs) as [? _].
      set_solver. }
    destruct (give_page _ _ pg _ _ Hsp' Hok ltac:(set_solver) HT') as (s'' & Hk' & Hsp'' & Hout').
    exists T', s', s''. split_and!; [done|done| |].
    + split; [done|]. rewrite HF. apply parts_give; [done|set_solver].
    + eapply outside_trans; [|eapply outside_weaken, Hout'; by intros ? <-].
      eapply outside_weaken, (gr_frame _ _ _ _ _ _ Hgr). intros p Hp.
      destruct (parts_table_spare _ _ _ _ _ Hpt' Hp). split; [set_solver|done].
  - exists T', l', s'. split_and!; [done| |].
    + split; [done|]. rewrite HF. rewrite <- E2PA at 1.
      apply parts_insert; rewrite ?E2PA, ?EFL; try done; [lia|set_solver].
    + eapply outside_weaken, (gr_frame _ _ _ _ _ _ Hgr). intros p Hp.
      destruct (parts_table_spare _ _ _ _ _ Hpt' Hp) as [HpF Hpu].
      split; [set_solver|]. unfold mp'. rewrite user_frame_insert, E2PA by (done || lia).
      intros [->|?]; [set_solver|done].
Qed.

(** *** Unmapping *)

Lemma vpn_va n : n * PGSIZE / PGSIZE = n.
Proof. by apply Z.div_mul. Qed.

Lemma vpn_bound n : 0 <= n < MAXVA / PGSIZE -> 0 <= n * PGSIZE < MAXVA.
Proof. change (MAXVA / PGSIZE) with (2 ^ 26). change MAXVA with (2 ^ 38). unfold PGSIZE. lia. Qed.

Lemma mapped_slot n v T mp s :
  maps T mp (kmem s) -> mp !! n = Some v ->
  let va := n * PGSIZE in
  exists q, T !! q = Some (0%nat, prefix 0 va) /\
    walk root va false s = Ok (entry q (PX 0 va)) s /\
    entry q (PX 0 va) <> 0 /\ ld64 (kmem s) (entry q (PX 0 va)) = v.
Proof.
  intros [Ht Hmap Hval] Hmp va. destruct (Hval n v Hmp) as [Hn Hv].
  apply vpn_bound in Hn as Hva. fold va in Hva. specialize (Hmap va Hva).
  replace (va / PGSIZE) with n in Hmap by (symmetry; apply vpn_va).
  rewrite Hmp in Hmap. change (default 0 (Some v)) with v in Hmap.
  unfold pte_of in Hmap.
  rewrite (pte_below_slot kend kend_pos (kmem s) root T) in Hmap by eauto using tables_start.
  rewrite (walk_lookup root va s) by lia.
  destruct (Z.eqb_spec (slot_below 2 (kmem s) root va) 0) as [|Hnz].
  { rewrite <- Hmap in Hv. done. }
  destruct (slot_in_table _ _ _ _ _ _ _ Ht (tables_start _ _ _ _ _ Ht Hva))
    as [|(q & Hq & E)]; [done|].
  exists q. rewrite E in *. done.
Qed.

(** The body of the loop of [uvmunmap], freeing. *)
Lemma unmap_one n v F T mp l s :
  uspace F T mp l s -> mp !! n = Some v -> n < ULIM ->
  exists r s1, walk root (n * PGSIZE) false s = Ok r s /\ r <> 0 /\
    ld64 (kmem s) r = v /\ kfree kend (PTE2PA v) s = Ok tt s1 /\
    let s' := {| kmem := st64 (kmem s1) r 0; freelist := freelist s1 |} in
    uspace F T (delete n mp) (PTE2PA v :: l) s' /\
    outside (spare F (delete n mp)) (kmem s) (kmem s').
Proof.
  intros [Hsp Hpt] Hmp Hlim.
  destruct (mapped_slot _ _ _ _ _ (space_maps _ _ _ _ Hsp) Hmp) as (q & Hq & Hw & Hnz & Hld).
  destruct (pt_leaf _ _ _ _ Hpt n v Hmp Hlim) as (Hfl & Hok & Hnin & HT).
  destruct (give_page _ _ _ _ _ Hsp Hok Hnin HT) as (s1 & Hk & Hsp1 & Hout).
  destruct (sp_valid _ _ _ _ _ _ Hsp n v Hmp) as [Hn Hv].
  assert (user_frame mp (PTE2PA v)) as Huf by (by exists n, v).
  assert (PTE2PA v ∈ F) as HF by (apply (pt_all _ _ _ _ Hpt); auto).
  pose proof (parts_delete _ _ _ _ _ _ Hpt Hmp Hlim) as Hpt'.
  exists (entry q (PX 0 (n * PGSIZE))), s1. do 4 (split; [done|]). split; [split|].
  - eapply store_leaf; [done|exact Hsp1|exact Hq|by apply vpn_bound|done|..].
    + intros n'. rewrite vpn_va. destruct (decide (n' = n)) as [->|Hne].
      * by rewrite lookup_delete_eq.
      * by rewrite lookup_delete_ne.
    + intros n' w. rewrite lookup_delete_Some. intros [_ ?]. by eapply sp_valid.
  - rewrite (union_difference_singleton_L _ _ HF). apply parts_give; [done|set_solver].
  - intros a Ha. cbn [kmem]. rewrite st64_out.
    + apply Hout. intros ? <-. apply Ha. split; [done|].
      intros Hd. enough (PTE2PA v ∈ F ∖ {[PTE2PA v]}) by set_solver.
      apply (pt_all _ _ _ _ Hpt'). auto.
    + intros Hb. apply entry_in_page in Hb; [|apply PX_range].
      eapply (Ha q); [|done]. destruct (parts_table_spare _ _ _ _ q Hpt') as [??]; [by eexists|].
      split; [set_solver|done].
Qed.

Fixpoint unmap_range (k : nat) (n : Z) (mp : gmap Z Z) : gmap Z Z :=
  match k with
  | O => mp
  | S k => unmap_range k (n + 1) (delete n mp)
  end.

Lemma unmap_range_lookup k n mp i :
  unmap_range k n mp !! i = if decide (n <= i < n + Z.of_nat k) then None else mp !! i.
Proof.
  revert n mp. induction k as [|k IH]; intros n mp; cbn [unmap_range].
  - by rewrite decide_False by lia.
  - rewrite IH. destruct (decide (i = n)) as [->|Hne].
    + rewrite decide_False, decide_True by lia. apply lookup_delete_eq.
    + rewrite lookup_delete_ne by done. repeat case_decide; try done; lia.
Qed.

Lemma spare_delete F mp n p : spare F mp p -> spare F (delete n mp) p.
Proof.
  intros [? Hu]. split; [done|]. intros (n' & v & Hn & ?). apply Hu. exists n', v.
  apply lookup_delete_Some in Hn. naive_solver.
Qed.

Lemma spare_unmap_range F k n mp p : spare F mp p -> spare F (unmap_range k n mp) p.
Proof. revert n mp. induction k; cbn; auto using spare_delete. Qed.

Lemma uvmunmap_loop_spec k n F T mp l s :
  uspace F T mp l s -> 0 <= n -> n + Z.of_nat k <= ULIM ->
  (forall i, n <= i < n + Z.of_nat k -> is_Some (mp !! i)) ->
  exists l' s', uvmunmap_loop kend k root (n * PGSIZE) true s = Ok tt s' /\
    uspace F T (unmap_range k n mp) l' s' /\
    outside (spare F (unmap_range k n mp)) (kmem s) (kmem s').
Proof.
  revert n mp l s. induction k as [|k IH]; intros n mp l s Hus Hn Hlim Hmp; cbn [unmap_range].
  { exists l, s. split; [done|]. split; [done|]. apply outside_refl. }
  destruct (Hmp n ltac:(lia)) as [v Hv].
  destruct (unmap_one n v F T mp l s Hus Hv ltac:(lia)) as (r & s1 & Hw & Hnz & Hld & Hk & Hus1 & Hout).
  destruct (pt_leaf _ _ _ _ (proj2 Hus) n v Hv ltac:(lia)) as (Hfl & _).
  destruct (sp_valid _ _ _ _ _ _ (proj1 Hus) n v Hv) as [_ HV].
  cbn [uvmunmap_loop]. rewrite (kbind_Ok _ _ _ _ _ Hw).
  destruct (Z.eqb_spec r 0) as [|_]; [done|].
  rewrite (kbind_Ok _ _ _ _ _ (load_Ok r s)), Hld, HV. cbn [negb].
  destruct (Z.eqb_spec (PTE_FLAGS v) PTE_V) as [|_]; [done|].
  rewrite (kbind_Ok _ _ _ _ _ Hk).
  destruct (IH (n + 1) _ _ _ Hus1) as (l' & s' & Hl & Hus' & Hout'); [lia|lia| |].
  { intros i Hi. rewrite lookup_delete_ne by lia. apply Hmp. lia. }
  exists l', s'. split; [|split; [done|]].
  - rewrite <- Hl. replace (n * PGSIZE + PGSIZE) with ((n + 1) * PGSIZE) by lia. done.
  - eapply outside_trans; [|exact Hout']. eapply outside_weaken, Hout.
    apply spare_unmap_range.
Qed.
End User.

(** ** A new address space *)

Section Create.
Context (kend : Z) (kend_pos : 0 < kend).

Lemma tables_new m pg :
  page_ok kend pg -> (forall a, in_page pg a -> m a = 0) ->
  tables kend m pg {[pg := (2%nat, 0)]}.
Proof.
  intros Hok Hz.
  assert (forall i, 0 <= i < 512 -> ld64 m (entry pg i) = 0) as He
    by (intros; by apply page_entry_zero).
  split.
  - apply lookup_singleton_eq.
  - intros p L x. rewrite lookup_singleton_Some. intros [_ [= <- _]]. lia.
  - intros p L x. rewrite lookup_singleton_Some. intros [_ [= <- <-]]. split; [lia|done].
  - intros p x. rewrite lookup_singleton_Some. by intros [-> _].
  - intros p k. rewrite lookup_singleton_Some. by intros [<- _].
  - intros p L x i. rewrite lookup_singleton_Some. intros [<- _] Hi. by rewrite He.
  - intros p L x i. rewrite lookup_singleton_Some. intros [<- _] Hi. by rewrite He.
  - intros p L y. rewrite lookup_singleton_Some. intros [_ [= <- _]]. lia.
Qed.

Lemma uvmcreate_spec s pg l :
  free_pages kend s (pg :: l) ->
  exists s', uvmcreate s = Ok pg s' /\
    uspace kend pg (list_to_set (pg :: l)) {[pg := (2%nat, 0)]} ∅ l s' /\
    outside (eq pg) (kmem s) (kmem s').
Proof.
  intros Hf. destruct (kalloc_free kend kend_pos _ _ _ Hf) as (s1 & Hk & Hf1 & Hok & Hnin & Hs1 & _).
  unfold uvmcreate. rewrite (kbind_Ok _ _ _ _ _ Hk).
  destruct (Z.eqb_spec pg 0) as [->|_]; [destruct Hok; lia|].
  rewrite (kbind_Ok _ _ _ _ _ (fill_Ok _ _ _ _)). eexists. split; [reflexivity|].
  assert (forall a, in_page pg a -> memset (kmem s1) pg 0 PGSIZE a = 0) as Hz
    by (intros a Ha; by rewrite memset_page, decide_True).
  assert (forall a, ~ in_page pg a -> memset (kmem s1) pg 0 PGSIZE a = kmem s a) as Hsame
    by (intros a Ha; rewrite memset_page, decide_False by done; by apply Hs1).
  split; [split; [split|split]|]; cbn [kmem].
  - by apply tables_new.
  - eapply free_pages_frame; [..|exact Hf1]; [done|]. intros q a Hq Ha. cbn [kmem].
    rewrite Hsame, Hs1; [done|..]; intros Hb;
      destruct (free_pages_page_ok _ _ _ _ Hf1 Hq) as [Hq0 _];
      rewrite (in_page_inj _ _ _ Hq0 (proj1 Hok) Ha Hb) in Hq; done.
  - intros p Hp. apply lookup_singleton_ne. by intros ->.
  - intros va Hva. rewrite lookup_empty. apply pte_below_clear.
    intros j Hj. by apply page_entry_zero.
  - intros n v. by rewrite lookup_empty.
  - intros n v. by rewrite lookup_empty.
  - intros n n' v v'. by rewrite lookup_empty.
  - intros p. rewrite list_to_set_cons, elem_of_union, elem_of_singleton, elem_of_list_to_set.
    unfold user_frame. split.
    + intros [->|Hp]; [|by left]. right; left. rewrite lookup_singleton_eq. by eexists.
    + intros [Hp|[[k Hk']|(n & v & Hn & _)]]; [by right| |by rewrite lookup_empty in Hn].
      apply lookup_singleton_Some in Hk' as [<- _]. by left.
  - intros a Ha. apply Hsame. by apply Ha.
Qed.
End Create.

(** Booting with the last [n] pages of memory free and creating an address
    space. *)
Lemma first_space n :
  0 < n <= 32768 ->
  let kend := PHYSTOP - n * PGSIZE in
  exists s root l s', kinit kend {| kmem := fun _ => 0; freelist := 0 |} = Ok tt s /\
    uvmcreate s = Ok root s' /\
    uspace kend root (list_to_set (root :: l)) {[root := (2%nat, 0)]} ∅ l s' /\
    forall p, p ∈ root :: l <-> page_ok kend p.
Proof.
  intros Hn kend. assert (0 < kend) as Hk by (unfold kend, PHYSTOP, KERNBASE, PGSIZE; lia).
  destruct (kinit_spec kend Hk (fun _ => 0)) as (s & l & Hi & Hf & Hl).
  destruct l as [|pg l].
  { exfalso. apply (not_elem_of_nil kend). apply Hl. split.
    - unfold kend, PHYSTOP, KERNBASE, PGSIZE. Z.to_euclidean_division_equations. lia.
    - unfold kend, PGSIZE. lia. }
  destruct (uvmcreate_spec kend Hk s pg l Hf) as (s' & Hc & Hus & _).
  exists s, pg, l, s'. done.
Qed.

(** ** Theorems *)

(** C31. [mappages] does exactly what its comment says, for ranges that need not
    be page aligned: starting from a page table that translates as [mp], it
    either finds a page of the range already mapped and panics, or runs out of
    memory for page-table pages and returns -1 with a prefix of the range
    mapped, or returns 0 with exactly the pages of the range mapped to
    consecutive frames.  Page-table pages are taken from the free list only, no
    other translation changes, and no byte outside page-table pages changes. *)
Theorem mappages_exact kend root va size pa perm T mp l s :
  0 < kend -> space kend root T mp l s -> 0 <= va -> 0 < size -> va + size <= MAXVA ->
  pa mod PGSIZE = 0 -> 0 <= pa ->
  let k := Z.to_nat ((va + size - 1) / PGSIZE - va / PGSIZE + 1) in
  pa + Z.of_nat k * PGSIZE <= 2 ^ 56 -> 0 <= perm < 1024 ->
  map_outcome kend root k (va / PGSIZE) pa perm T mp l s (mappages root va size pa perm s) /\
  forall n, map_range k (va / PGSIZE) pa perm mp !! n =
    if decide (va / PGSIZE <= n <= (va + size - 1) / PGSIZE)
    then Some (make_pte (pa + (n - va / PGSIZE) * PGSIZE) perm) else mp !! n.
Proof.
  intros Hk Hsp Hva Hsz Htop Hal Hpa k Hptop Hperm. split; [by apply mappages_spec|].
  intros n. rewrite map_range_lookup.
  assert (va / PGSIZE <= (va + size - 1) / PGSIZE) by (apply Z.div_le_mono; done || lia).
  repeat case_decide; (done || lia).
Qed.

(** Mapping three pages with an unaligned range in a new address space. *)
Lemma mappages_exact_witness :
  let kend := PHYSTOP - 8 * PGSIZE in
  exists s root s' T mp l, kinit kend {| kmem := fun _ => 0; freelist := 0 |} = Ok tt s /\
    uvmcreate s = Ok root s' /\
    map_outcome kend root 3 1 PLIC PTE_R T mp l s' (mappages root 5000 8192 PLIC PTE_R s').
Proof.
  intros kend. destruct (first_space 8 ltac:(lia)) as (s & pg & l & s' & Hi & Hc & [Hsp _] & _).
  exists s, pg, s', {[pg := (2%nat, 0)]}, ∅, l. split; [done|]. split; [done|].
  by apply (mappages_exact kend pg 5000 8192 PLIC PTE_R _ _ _ _ ltac:(done) Hsp).
Defined.
