(* ===== verification/VmOps.v ===== *)
(** Growing, shrinking, copying and freeing user address spaces
    ([uvmalloc], [uvmdealloc], [uvmcopy], [uvmfree] of [kernel/vm.c]).

    The pages of a state are split into free pages, page-table pages and the
    frames of user pages ([uspace] of [VmSpace]); the operations move pages
    between the three parts and lose none. *)

From stdpp Require Import functions.
From S2P Require Import Prelude Mem Kalloc Vm VmSpace.

(** The number of pages of [sz] bytes. *)
Definition npages (sz : Z) : Z := PGROUNDUP sz / PGSIZE.

Lemma npages_mul sz : PGROUNDUP sz = npages sz * PGSIZE.
Proof.
  unfold npages. destruct (PGROUNDUP_spec sz) as [H _].
  pose proof (Z.div_mod (PGROUNDUP sz) PGSIZE). unfold PGSIZE in *. lia.
Qed.

Lemma npages_bounds sz : sz <= npages sz * PGSIZE < sz + PGSIZE.
Proof. rewrite <- npages_mul. by destruct (PGROUNDUP_spec sz). Qed.

Lemma npages_exact n : npages (n * PGSIZE) = n.
Proof. pose proof (npages_bounds (n * PGSIZE)). unfold PGSIZE in *. lia. Qed.

Lemma npages_mono a b : a <= b -> npages a <= npages b.
Proof. pose proof (npages_bounds a). pose proof (npages_bounds b). unfold PGSIZE in *. lia. Qed.

Lemma npages_ulim sz : sz <= ULIM * PGSIZE -> npages sz <= ULIM.
Proof. intros H. apply npages_mono in H. by rewrite npages_exact in H. Qed.

Section Ops.
Context (kend : Z) (kend_pos : 0 < kend) (root : Z).
Implicit Types (F : gset Z) (T : gmap Z (nat * Z)) (mp : gmap Z Z) (l : list Z) (s : kstate).

Abbreviation uspace := (uspace kend root).

(** ** Shrinking *)

Lemma uvmunmap_spec k n F T mp l s :
  uspace F T mp l s -> 0 <= n -> n + Z.of_nat k <= ULIM ->
  (forall i, n <= i < n + Z.of_nat k -> is_Some (mp !! i)) ->
  exists l' s', uvmunmap kend root (n * PGSIZE) (Z.of_nat k) true s = Ok tt s' /\
    uspace F T (unmap_range k n mp) l' s' /\
    outside (spare F (unmap_range k n mp)) (kmem s) (kmem s').
Proof.
  intros Hus Hn Hlim Hmp. unfold uvmunmap. rewrite Z.mod_mul by done. cbn [negb Z.eqb].
  pose proof ULIM_bound as HU. change MAXVA with (2 ^ 38) in HU.
  rewrite !u64_small by (rewrite ?u64_small; unfold PGSIZE in *; lia).
  replace (n * PGSIZE + Z.of_nat k * PGSIZE - n * PGSIZE) with (Z.of_nat k * PGSIZE) by lia.
  rewrite Z.div_mul, Nat2Z.id by done. by eapply uvmunmap_loop_spec.
Qed.

Lemma pgup_small sz : 0 <= sz <= ULIM * PGSIZE -> u64 (PGROUNDUP sz) = npages sz * PGSIZE.
Proof.
  intros Hsz. rewrite npages_mul. apply u64_small.
  pose proof (npages_bounds sz). pose proof ULIM_bound as HU.
  change MAXVA with (2 ^ 38) in HU. unfold PGSIZE in *. lia.
Qed.

Lemma uvmdealloc_spec oldsz newsz F T mp l s :
  uspace F T mp l s -> 0 <= newsz <= oldsz -> oldsz <= ULIM * PGSIZE ->
  (forall i, npages newsz <= i < npages oldsz -> is_Some (mp !! i)) ->
  let mp' := unmap_range (Z.to_nat (npages oldsz - npages newsz)) (npages newsz) mp in
  exists l' s', uvmdealloc kend root oldsz newsz s = Ok newsz s' /\
    uspace F T mp' l' s' /\ outside (spare F mp') (kmem s) (kmem s').
Proof.
  intros Hus Hsz Hlim Hmp mp'. unfold uvmdealloc.
  pose proof (npages_mono newsz oldsz) as Hmono. pose proof (npages_ulim oldsz Hlim) as HU.
  pose proof (npages_bounds newsz) as Hb. pose proof ULIM_bound as HUL.
  change MAXVA with (2 ^ 38) in HUL.
  rewrite !pgup_small by lia.
  assert (npages oldsz <= npages newsz ->
    exists l' s', Ok newsz s = Ok newsz s' /\ uspace F T mp' l' s' /\
      outside (spare F mp') (kmem s) (kmem s')) as Hsame.
  { intros. exists l, s. unfold mp'.
    replace (Z.to_nat (npages oldsz - npages newsz)) with 0%nat by lia.
    split; [done|]. split; [done|apply outside_refl]. }
  destruct (Z.leb_spec oldsz newsz) as [Hle|Hgt].
  { assert (oldsz = newsz) as -> by lia. apply Hsame. lia. }
  destruct (Z.ltb_spec (npages newsz * PGSIZE) (npages oldsz * PGSIZE)) as [Hlt|Hge];
    [|apply Hsame; unfold PGSIZE in *; lia].
  rewrite <- Z.mul_sub_distr_r, Z.div_mul by done.
  rewrite i32_small, u64_small by (unfold PGSIZE in *; lia).
  destruct (uvmunmap_spec (Z.to_nat (npages oldsz - npages newsz)) (npages newsz) F T mp l s)
    as (l' & s' & Hu & Hus' & Hout); [done|unfold PGSIZE in *; lia|lia|intros i Hi; apply Hmp; lia|].
  rewrite Z2Nat.id in Hu by (unfold PGSIZE in *; lia).
  exists l', s'. rewrite (kbind_Ok _ _ _ _ _ Hu). done.
Qed.

(** ** Growing *)

(** Pages [n0 .. n-1] of [mp'] are fresh pages with the given permissions and
    contents, the others those of [mp]. *)
Definition extended (perm : Z -> Z) (content : Z -> Z -> Z) (n0 n : Z) mp mp' (m : mem) : Prop :=
  forall i, if decide (n0 <= i < n)
    then exists pg, mp' !! i = Some (make_pte pg (perm i)) /\ page_ok kend pg /\
           forall o, 0 <= o < PGSIZE -> m (pg + o) = content i o
    else mp' !! i = mp !! i.

Lemma extended_frame perm con n0 n mp mp' m p :
  extended perm con n0 n mp mp' m -> (forall i, n0 <= i < n -> mp !! i = None) ->
  user_frame mp p -> user_frame mp' p.
Proof.
  intros He Hn (i & v & Hi & ?). exists i, v. specialize (He i).
  case_decide; [by rewrite Hn in Hi|]. by rewrite He.
Qed.

Lemma extended_spare F perm con n0 n mp mp' m p :
  extended perm con n0 n mp mp' m -> (forall i, n0 <= i < n -> mp !! i = None) ->
  spare F mp' p -> spare F mp p.
Proof. intros ?? [??]. split; eauto using extended_frame. Qed.

Lemma unmap_extended perm con n0 n mp mp0 m :
  extended perm con n0 n mp0 mp m -> (forall i, n0 <= i < n -> mp0 !! i = None) ->
  n0 <= n -> unmap_range (Z.to_nat (n - n0)) n0 mp = mp0.
Proof.
  intros Hext Hfree Hn. apply map_eq. intros i. rewrite unmap_range_lookup, Z2Nat.id by lia.
  specialize (Hext i). replace (n0 + (n - n0)) with n by lia.
  case_decide; [by rewrite Hfree|done].
Qed.

Lemma extended_mapped perm con n0 n mp mp0 m i :
  extended perm con n0 n mp0 mp m -> n0 <= i < n -> is_Some (mp !! i).
Proof.
  intros Hext Hi. specialize (Hext i). rewrite decide_True in Hext by done.
  destruct Hext as (pg & -> & _). by eexists.
Qed.

(** Undoing the growth after a failure. *)
Lemma dealloc_back perm con n0 n F T mp mp0 l s m :
  uspace F T mp l s -> extended perm con n0 n mp0 mp m ->
  (forall i, n0 <= i < n -> mp0 !! i = None) -> 0 <= n0 <= n -> n <= ULIM ->
  exists l' s', uvmdealloc kend root (n * PGSIZE) (n0 * PGSIZE) s = Ok (n0 * PGSIZE) s' /\
    uspace F T mp0 l' s' /\ outside (spare F mp0) (kmem s) (kmem s').
Proof.
  intros Hus Hext Hfree Hn0 Hn.
  destruct (uvmdealloc_spec (n * PGSIZE) (n0 * PGSIZE) F T mp l s Hus) as (l' & s' & Hd & Hus' & Hout).
  - unfold PGSIZE; lia.
  - unfold PGSIZE; lia.
  - intros i. rewrite !npages_exact. by apply (extended_mapped _ _ _ _ _ _ _ _ Hext).
  - rewrite !npages_exact, (unmap_extended _ _ _ _ _ _ _ Hext) in Hus', Hout by (done || lia).
    eauto.
Qed.

Lemma extended_step perm con n0 n F T mp mp0 l s m s' pg :
  uspace F T mp l s -> extended perm con n0 n mp0 mp (kmem s) ->
  outside (eq pg) (kmem s) m -> (forall o, 0 <= o < PGSIZE -> m (pg + o) = con n o) ->
  mp !! n = None -> n0 <= n -> n < ULIM -> spare F mp pg -> page_ok kend pg ->
  (forall i, n0 <= i <= n -> 0 <= perm i < 1024) ->
  (exists T' l', uspace F T' (<[n := make_pte pg (perm n)]> mp) l' s') ->
  outside (spare F (<[n := make_pte pg (perm n)]> mp)) m (kmem s') ->
  extended perm con n0 (n + 1) mp0 (<[n := make_pte pg (perm n)]> mp) (kmem s').
Proof.
  intros Hus Hext Hm Hcon Hn Hn0 Hlim Hsp Hok Hperm (T' & l' & Hus') Hout i.
  pose proof (make_pte_spec pg (perm n) (page_pa_ok _ _ kend_pos Hok) (Hperm n ltac:(lia)))
    as (_ & _ & E & _).
  assert (forall p a, user_frame (<[n := make_pte pg (perm n)]> mp) p -> in_page p a ->
    kmem s' a = m a) as Hkept by (intros; by eapply user_kept).
  assert (forall p o, 0 <= o < PGSIZE -> in_page p (p + o)) as Hpo by (unfold in_page; lia).
  destruct (decide (i = n)) as [->|Hne].
  - rewrite decide_True, lookup_insert_eq by lia. exists pg. split_and!; [done|done..|].
    intros o Ho. rewrite <- (Hcon o Ho). eapply Hkept; [|by apply Hpo].
    apply user_frame_insert; auto.
  - rewrite lookup_insert_ne by done. specialize (Hext i).
    destruct (decide (n0 <= i < n)) as [Hin|].
    + rewrite decide_True by lia. destruct Hext as (pg' & Hi & Hok' & Hz).
      exists pg'. split_and!; [done|done..|]. intros o Ho. rewrite <- (Hz o Ho).
      assert (user_frame mp pg') as Hu.
      { exists i, (make_pte pg' (perm i)). split_and!; [done|lia|].
        apply make_pte_spec; [by eapply page_pa_ok|]. apply Hperm. lia. }
      rewrite (Hkept pg'); [|by apply user_frame_insert; auto|by apply Hpo].
      eapply user_kept; [exact Hus| |exact Hu|by apply Hpo].
      eapply outside_weaken, Hm. by intros ? <-.
    + by rewrite decide_False by lia.
Qed.

Lemma user_perm xperm :
  0 <= xperm < 1024 ->
  let perm := Z.lor (Z.lor PTE_R PTE_U) xperm in
  0 <= perm < 1024 /\ Z.lor perm PTE_V <> PTE_V.
Proof.
  intros Hx perm. split; [by apply lor_bound|]. intros E.
  assert (Z.testbit (Z.lor perm PTE_V) 1 = Z.testbit PTE_V 1) as Hb by by rewrite E.
  unfold perm in Hb. rewrite !Z.lor_spec in Hb. done.
Qed.

(** One iteration of [uvmalloc]: it undoes the growth, or maps a cleared page
    and goes on. *)
Lemma uvmalloc_iter k n oldsz newsz F T mp l s xperm :
  let perm := Z.lor (Z.lor PTE_R PTE_U) xperm in
  let go k n := uvmalloc_loop kend k root oldsz newsz (n * PGSIZE) xperm in
  uspace F T mp l s -> 0 <= xperm < 1024 -> 0 <= n < ULIM -> n * PGSIZE < newsz ->
  mp !! n = None ->
  (exists T' l' s',
     go (S k) n s = (uvmdealloc kend root (n * PGSIZE) oldsz ;;; kret 0) s' /\
     uspace F T' mp l' s' /\ outside (spare F mp) (kmem s) (kmem s')) \/
  (exists pg m T' l' s', go (S k) n s = go k (n + 1) s' /\
     uspace F T' (<[n := make_pte pg perm]> mp) l' s' /\
     outside (eq pg) (kmem s) m /\ (forall o, 0 <= o < PGSIZE -> m (pg + o) = 0) /\
     spare F mp pg /\ page_ok kend pg /\
     outside (spare F (<[n := make_pte pg perm]> mp)) m (kmem s')).
Proof.
  intros perm go Hus Hx Hn Hlt Hmpn. destruct (user_perm xperm Hx) as [Hperm Hleaf].
  pose proof ULIM_bound as HUL. change MAXVA with (2 ^ 38) in HUL.
  subst go. cbn [uvmalloc_loop].
  destruct (Z.ltb_spec (n * PGSIZE) newsz); [|lia].
  destruct l as [|pg l].
  { left. rewrite (kbind_Ok _ _ _ _ _ (kalloc_empty kend _ (sp_free _ _ _ _ _ _ (proj1 Hus)))).
    exists T, [], s. split; [done|]. split; [done|apply outside_refl]. }
  destruct (map_fresh _ kend_pos _ n perm _ _ _ _ _ _ Hus Hn Hmpn Hperm Hleaf)
    as (s1 & Hka & Hnz & Hs1 & Hsp & Hok & Hm).
  rewrite (kbind_Ok _ _ _ _ _ Hka). destruct (Z.eqb_spec pg 0) as [|_]; [done|].
  rewrite (kbind_Ok _ _ _ _ _ (fill_Ok _ _ _ _)).
  assert (outside (eq pg) (kmem s1) (memset (kmem s1) pg 0 PGSIZE)) as Hms.
  { intros a Ha. rewrite memset_page, decide_False; [done|]. by apply Ha. }
  assert (outside (eq pg) (kmem s) (memset (kmem s1) pg 0 PGSIZE)) as Hm0
    by (by eapply outside_trans).
  destruct (Hm _ Hms) as
    [(T' & l' & s' & Hmap & Hus' & Hout')|(T' & s' & s'' & Hmap & Hkf & Hus' & Hout')];
    rewrite (kbind_Ok _ _ _ _ _ Hmap); cbn [Z.eqb negb].
  - right. exists pg, (memset (kmem s1) pg 0 PGSIZE), T', l', s'. split_and!; try done.
    + rewrite u64_small by (unfold PGSIZE in *; lia). do 2 f_equal. lia.
    + intros o Ho. by rewrite memset_page, decide_True by (unfold in_page; lia).
  - left. rewrite (kbind_Ok _ _ _ _ _ Hkf). exists T', [pg], s''. split; [done|].
    split; [done|]. eapply outside_trans; [|exact Hout'].
    eapply outside_weaken, Hm0. by intros ? <-.
Qed.

Lemma uvmalloc_loop_spec k n n0 newsz F T mp mp0 l s s0 xperm :
  let perm := Z.lor (Z.lor PTE_R PTE_U) xperm in
  uspace F T mp l s -> 0 <= xperm < 1024 ->
  0 <= n0 <= n -> n <= npages newsz -> newsz <= ULIM * PGSIZE ->
  npages newsz - n < Z.of_nat k ->
  (forall i, n0 <= i < npages newsz -> mp0 !! i = None) ->
  extended (fun _ => perm) (fun _ _ => 0) n0 n mp0 mp (kmem s) -> outside (spare F mp0) (kmem s0) (kmem s) ->
  exists r T' mp' l' s',
    uvmalloc_loop kend k root (n0 * PGSIZE) newsz (n * PGSIZE) xperm s = Ok r s' /\
    uspace F T' mp' l' s' /\ outside (spare F mp0) (kmem s0) (kmem s') /\
    (r = newsz /\ extended (fun _ => perm) (fun _ _ => 0) n0 (npages newsz) mp0 mp' (kmem s') \/ r = 0 /\ mp' = mp0).
Proof.
  intros perm Hus Hx. revert n T mp l s Hus.
  induction k as [|k IH]; intros n T mp l s Hus Hn0 Hn Hlim Hk Hfree Hext Hout; [lia|].
  pose proof (npages_bounds newsz) as Hb. pose proof (npages_ulim newsz Hlim) as HU.
  destruct (decide (n * PGSIZE < newsz)) as [Hlt|Hge].
  2: { cbn [uvmalloc_loop]. destruct (Z.ltb_spec (n * PGSIZE) newsz); [lia|].
       assert (n = npages newsz) as -> by (unfold PGSIZE in *; lia).
       exists newsz, T, mp, l, s. eauto 10. }
  assert (n < npages newsz) as Hnn by (unfold PGSIZE in *; lia).
  assert (mp !! n = None) as Hmpn.
  { specialize (Hext n). rewrite decide_False in Hext by lia. rewrite Hext. apply Hfree. lia. }
  assert (forall i, n0 <= i < n -> mp0 !! i = None) as Hfree' by (intros; apply Hfree; lia).
  destruct (uvmalloc_iter k n (n0 * PGSIZE) newsz _ _ _ _ _ _ Hus Hx ltac:(lia) Hlt Hmpn) as
    [(T1 & l1 & s1 & -> & Hus1 & Hout1)|(pg & m & T1 & l1 & s1 & -> & Hus1 & Hm & Hz & Hsp & Hok & Hout1)].
  - destruct (dealloc_back _ _ _ _ _ _ _ _ _ _ _ Hus1 Hext Hfree') as (l' & s' & Hd & Hus' & Hout');
      [lia|lia|]. rewrite (kbind_Ok _ _ _ _ _ Hd).
    exists 0, T1, mp0, l', s'. split; [done|]. split; [done|]. split; [|by right].
    eapply outside_trans, Hout'. eapply outside_trans; [done|].
    eapply outside_weaken, Hout1. intros p. by eapply extended_spare.
  - assert (extended (fun _ => perm) (fun _ _ => 0) n0 (n + 1) mp0 (<[n := make_pte pg perm]> mp) (kmem s1)) as Hext1.
    { apply (extended_step (fun _ => perm) (fun _ _ => 0) n0 n F T mp mp0 l s m s1 pg); try done; try lia;
        [by intros; apply user_perm|by eauto]. }
    apply (IH (n + 1) T1 _ l1 s1 Hus1); try done; try lia.
    eapply outside_trans; [exact Hout|]. eapply outside_trans.
    + eapply outside_weaken, Hm. intros ? <-. by eapply (extended_spare _ _ _ _ _ _ _ _ _ Hext).
    + eapply outside_weaken, Hout1. intros p. apply (extended_spare _ _ _ _ _ _ _ _ _ Hext1).
      intros; apply Hfree; lia.
Qed.

Lemma uvmalloc_spec oldsz newsz xperm F T mp l s :
  uspace F T mp l s -> 0 <= xperm < 1024 -> 0 <= oldsz <= newsz ->
  newsz <= ULIM * PGSIZE ->
  (forall i, npages oldsz <= i < npages newsz -> mp !! i = None) ->
  exists r T' mp' l' s', uvmalloc kend root oldsz newsz xperm s = Ok r s' /\
    uspace F T' mp' l' s' /\ outside (spare F mp) (kmem s) (kmem s') /\
    (r = newsz /\
       extended (fun _ => Z.lor (Z.lor PTE_R PTE_U) xperm) (fun _ _ => 0)
         (npages oldsz) (npages newsz) mp mp' (kmem s')
     \/ r = 0 /\ mp' = mp).
Proof.
  intros Hus Hx Hsz Hlim Hfree. unfold uvmalloc.
  destruct (Z.ltb_spec newsz oldsz); [lia|]. rewrite pgup_small by lia.
  pose proof (npages_mono oldsz newsz ltac:(lia)). pose proof (npages_bounds oldsz).
  pose proof (npages_bounds newsz).
  apply uvmalloc_loop_spec with (T := T) (mp := mp) (l := l); try done.
  - unfold PGSIZE in *; lia.
  - assert (npages newsz - npages oldsz <= (newsz - npages oldsz * PGSIZE) / PGSIZE + 1).
    { unfold PGSIZE in *. Z.to_euclidean_division_equations. lia. }
    lia.
  - intros i. by rewrite decide_False by lia.
Qed.
End Ops.

(** Running [f] in the address space [first_space] creates. *)
Lemma boot_run {A} kend (f : Z -> M kstate A) init s0 root s :
  kinit kend init = Ok tt s0 -> uvmcreate s0 = Ok root s ->
  (kinit kend ;;; let! p := uvmcreate in f p) init = f root s.
Proof. intros Hi Hc. by rewrite (kbind_Ok _ _ _ _ _ Hi), (kbind_Ok _ _ _ _ _ Hc). Qed.

(** Three pages fit into a machine with eight. *)
Lemma three_pages_run kend xperm :
  kend = PHYSTOP - 8 * PGSIZE -> xperm = PTE_W \/ xperm = PTE_X ->
  match (kinit kend ;;; let! p := uvmcreate in uvmalloc kend p 0 9000 xperm)
    {| kmem := fun _ => 0; freelist := 0 |} with
  | Ok r s => (r, freelist s =? 0)
  | _ => (-1, true)
  end = (9000, false).
Proof. intros -> [-> | ->]; vm_compute; reflexivity. Qed.

Lemma three_pages_result kend xperm s0 root s r s' :
  kend = PHYSTOP - 8 * PGSIZE -> xperm = PTE_W \/ xperm = PTE_X ->
  kinit kend {| kmem := fun _ => 0; freelist := 0 |} = Ok tt s0 -> uvmcreate s0 = Ok root s ->
  uvmalloc kend root 0 9000 xperm s = Ok r s' -> r = 9000 /\ freelist s' <> 0.
Proof.
  intros Hk Hx Hi Hc Hr. pose proof (three_pages_run kend xperm Hk Hx) as E. clear Hk Hx.
  rewrite (boot_run _ (fun p => uvmalloc _ p 0 9000 xperm) _ _ _ _ Hi Hc), Hr in E.
  injection E as -> E. by destruct (Z.eqb_spec (freelist s') 0).
Qed.

(** A process with three pages. *)
Lemma three_pages xperm :
  xperm = PTE_W \/ xperm = PTE_X ->
  let kend := PHYSTOP - 8 * PGSIZE in
  exists root F T mp l s, uspace kend root F T mp l s /\
    (forall i, is_Some (mp !! i) <-> 0 <= i < npages 9000) /\
    (forall i v, mp !! i = Some v -> PTE_FLAGS v = Z.lor (Z.lor (Z.lor PTE_R PTE_U) xperm) PTE_V) /\
    (forall p, p ∈ F <-> page_ok kend p) /\ l <> [].
Proof.
  intros Hx kend. assert (0 <= xperm < 1024) as Hxb by (by destruct Hx as [-> | ->]).
  destruct (first_space 8 ltac:(lia)) as (s0 & root & l0 & s1 & Hi & Hc & Hus & HF).
  destruct (uvmalloc_spec kend ltac:(done) root 0 9000 xperm _ _ _ _ s1 Hus)
    as (r & T & mp & l & s & Hr & Hus' & _ & Hres); [done|done|done|by intros; rewrite lookup_empty|].
  pose proof (three_pages_result kend xperm _ _ _ _ _ eq_refl Hx Hi Hc Hr) as [-> Hfl].
  destruct Hres as [[_ Hext]|[? _]]; [|done]. change (npages 0) with 0 in Hext.
  exists root, (list_to_set (root :: l0)), T, mp, l, s. split; [exact Hus'|]. split; [|split; [|split]].
  - intros i. specialize (Hext i). rewrite lookup_empty in Hext. case_decide.
    + destruct Hext as (pg & -> & _). split; [done|by eexists].
    + rewrite Hext. split; [by intros [? ?]|done].
  - intros i v Hv. specialize (Hext i). rewrite lookup_empty in Hext. case_decide; [|congruence].
    destruct Hext as (pg & Hpg & Hok & _). assert (v = make_pte pg (Z.lor (Z.lor PTE_R PTE_U) xperm)) as ->
      by congruence.
    apply make_pte_spec; [by apply (page_pa_ok kend)|by apply user_perm].
  - intros p. rewrite elem_of_list_to_set. apply HF.
  - intros ->. by destruct (sp_free _ _ _ _ _ _ (proj1 Hus')) as [Hf _].
Qed.

(** ** Theorems *)

(** C17. Growing a process gives it cleared pages and loses nothing: whatever
    the free memory, [uvmalloc] returns either the new size, with exactly the
    pages of the new range mapped, readable and user accessible with the extra
    permissions asked for and filled with zeros, or 0 with the map as it was.
    In both cases every page of the machine is still either free, or a
    page-table page, or the frame of one user page (the set [F] is split
    afresh), and no byte outside spare pages, in particular no byte of the
    process, has changed. *)
Theorem uvmalloc_all_or_nothing kend root oldsz newsz xperm F T mp l s :
  0 < kend -> uspace kend root F T mp l s -> 0 <= xperm < 1024 ->
  0 <= oldsz <= newsz -> newsz <= ULIM * PGSIZE ->
  (forall i, npages oldsz <= i < npages newsz -> mp !! i = None) ->
  exists r T' mp' l' s', uvmalloc kend root oldsz newsz xperm s = Ok r s' /\
    uspace kend root F T' mp' l' s' /\ outside (spare F mp) (kmem s) (kmem s') /\
    (r = newsz /\ extended kend (fun _ => Z.lor (Z.lor PTE_R PTE_U) xperm) (fun _ _ => 0)
                    (npages oldsz) (npages newsz) mp mp' (kmem s')
     \/ r = 0 /\ mp' = mp).
Proof. intros. by eapply uvmalloc_spec. Qed.

Lemma uvmalloc_all_or_nothing_witness :
  let kend := PHYSTOP - 8 * PGSIZE in
  exists s root F mp' s', uvmalloc kend root 0 9000 PTE_W s = Ok 9000 s' /\
    extended kend (fun _ => Z.lor (Z.lor PTE_R PTE_U) PTE_W) (fun _ _ => 0) 0 3 ∅ mp' (kmem s') /\
    outside (spare F ∅) (kmem s) (kmem s').
Proof.
  intros kend. destruct (first_space 8 ltac:(lia)) as (s0 & root & l & s & Hi & Hc & Hus & _).
  destruct (uvmalloc_all_or_nothing kend root 0 9000 PTE_W _ _ _ _ s ltac:(done) Hus)
    as (r & T' & mp' & l' & s' & Hr & _ & Hout & Hres); [done|done|done|by intros; rewrite lookup_empty|].
  pose proof (three_pages_result kend PTE_W _ _ _ _ _ eq_refl (or_introl eq_refl) Hi Hc Hr) as [-> _].
  destruct Hres as [[_ Hext]|[? _]]; [|done].
  change (npages 0) with 0 in Hext. change (npages 9000) with 3 in Hext.
  exists s, root, (list_to_set (root :: l)), mp', s'.
  split; [exact Hr|]. split; [exact Hext|exact Hout].
Defined.
