(* ===== verification/VmFree.v ===== *)
(** Freeing page tables ([freewalk] and [uvmfree] of [kernel/vm.c]).

    [tree L m p ps]: in memory [m] the pages [ps] are the page-table pages
    below and including [p], in the order in which [freewalk] frees them, and no
    page is mapped.  [freewalk] returns exactly these pages, and [uvmfree]
    every page of the address space. *)

From stdpp Require Import functions.
From S2P Require Import Prelude Mem Kalloc Vm VmSpace VmOps.

(** Entries from [i] on; [kids] lists the pages below each of them. *)
Fixpoint entries_tree (below : Z -> list Z -> Prop) (m : mem) (p i : Z)
    (kids : list (list Z)) : Prop :=
  match kids with
  | [] => True
  | ks :: kids =>
      let v := ld64 m (entry p i) in
      (if has v PTE_V
       then Z.land v (Z.lor (Z.lor PTE_R PTE_W) PTE_X) = 0 /\ below (PTE2PA v) ks
       else ks = []) /\
      entries_tree below m p (i + 1) kids
  end.

Fixpoint tree (L : nat) (m : mem) (p : Z) (ps : list Z) : Prop :=
  exists kids, length kids = 512%nat /\ ps = concat kids ++ [p] /\
    entries_tree (fun c ks => match L with
                              | O => False
                              | S L => tree L m c ks
                              end) m p 0 kids.

Lemma entries_tree_impl (P Q : Z -> list Z -> Prop) m m' p i kids :
  entries_tree P m p i kids -> 0 <= i -> i + Z.of_nat (length kids) <= 512 ->
  (forall j, i <= j < 512 -> ld64 m' (entry p j) = ld64 m (entry p j)) ->
  (forall c ks, ks ∈ kids -> P c ks -> Q c ks) ->
  entries_tree Q m' p i kids.
Proof.
  revert i. induction kids as [|ks kids IH]; intros i; cbn [entries_tree length]; [done|].
  intros [Hk He] Hi Hlen Hm HPQ. rewrite Hm by lia. split.
  - case_match; [|done]. split; [naive_solver|]. apply HPQ; [set_solver|naive_solver].
  - apply IH; try done; try lia; [intros; apply Hm; lia|]. intros. apply HPQ; set_solver.
Qed.

Lemma tree_frame L m m' p ps :
  tree L m p ps -> (forall q a, q ∈ ps -> in_page q a -> m' a = m a) -> tree L m' p ps.
Proof.
  revert p ps. induction L as [|L IH]; intros p ps (kids & Hlen & -> & He) Hsame;
    exists kids; (split; [done|]; split; [done|]);
    (eapply entries_tree_impl; [exact He|done|lia|..]).
  1, 3: intros j Hj; apply entry_same; [lia|]; intros a; apply Hsame; set_solver.
  - done.
  - intros c ks Hks Ht. apply IH; [done|]. intros q a Hq. apply Hsame.
    apply elem_of_app. left. apply list_elem_of_In, in_concat.
    exists ks. by rewrite <- !list_elem_of_In.
Qed.

Section Free.
Context (kend : Z) (kend_pos : 0 < kend).
Implicit Types (l ps : list Z) (s : kstate) (m : mem).

(** What [freewalk] of a tree with pages [ps] does. *)
Definition frees (c : M kstate unit) ps s l : Prop :=
  exists s', c s = Ok tt s' /\ free_pages kend s' (reverse ps ++ l) /\
    outside (fun q => q ∈ ps) (kmem s) (kmem s').

Lemma page_other p q a :
  p mod PGSIZE = 0 -> q mod PGSIZE = 0 -> p <> q -> in_page q a -> ~ in_page p a.
Proof. intros Hp Hq Hne Ha Hb. by rewrite (in_page_inj p q a) in Hne. Qed.

(** Pages off [ps] keep their bytes. *)
Lemma outside_other ps m m' q a :
  outside (fun q => q ∈ ps) m m' -> Forall (page_ok kend) ps -> page_ok kend q ->
  q ∉ ps -> in_page q a -> m' a = m a.
Proof.
  intros Hout Hps [Hq _] Hnin Ha. apply Hout. intros p Hp.
  rewrite list.Forall_forall in Hps. destruct (Hps p Hp) as [Hp0 _].
  apply (page_other p q); try done. by intros ->.
Qed.

Lemma nodup_child (ks rest l : list Z) (p : Z) :
  NoDup ((ks ++ rest) ++ p :: l) ->
  NoDup (ks ++ l) /\ (p ∉ reverse ks ++ l) /\ NoDup (rest ++ p :: reverse ks ++ l) /\
  NoDup ((ks ++ rest) ++ [p]).
Proof.
  rewrite (reverse_Permutation ks) at 2. rewrite !list.NoDup_app, !list.NoDup_cons.
  rewrite !list.NoDup_app.
  intros ((Hks & Hkr & Hrest) & Hall & Hp & Hl).
  assert (NoDup (reverse ks)) by (by rewrite reverse_Permutation).
  split_and!; try done; try set_solver. constructor.
Qed.

(** Clearing an entry of [p] does not disturb the free list. *)
Lemma free_pages_clear s l p i :
  free_pages kend s l -> page_ok kend p -> p ∉ l -> 0 <= i < 512 ->
  free_pages kend {| kmem := st64 (kmem s) (entry p i) 0; freelist := freelist s |} l.
Proof.
  intros Hf [Hp _] Hnin Hi. eapply free_pages_frame; [..|exact Hf]; [done|].
  intros q a Hq Ha. apply st64_out. intros Hb. apply entry_in_page in Hb; [|done].
  destruct (free_pages_page_ok _ _ _ _ Hf Hq) as [Hq0 _].
  by rewrite (in_page_inj _ _ _ Hq0 Hp Ha Hb) in Hq.
Qed.

Section Loop.
Context (below : mem -> Z -> list Z -> Prop) (free_child : Z -> M kstate unit).
Context (below_frame : forall m m' c ks, below m c ks ->
  (forall q a, q ∈ ks -> in_page q a -> m' a = m a) -> below m' c ks).
Context (free_child_frees : forall c ks s l, below (kmem s) c ks ->
  free_pages kend s l -> NoDup (ks ++ l) -> Forall (page_ok kend) ks ->
  frees (free_child c) ks s l).

(** The entries still to visit are not disturbed by freeing a child and
    clearing its entry. *)
Lemma entries_after ks kids p i s s1 :
  entries_tree (below (kmem s)) (kmem s) p (i + 1) kids ->
  0 <= i -> i + Z.of_nat (length (ks :: kids)) = 512 ->
  NoDup (concat (ks :: kids) ++ [p]) -> Forall (page_ok kend) (p :: concat (ks :: kids)) ->
  outside (fun q => q ∈ ks) (kmem s) (kmem s1) ->
  let m2 := st64 (kmem s1) (entry p i) 0 in
  entries_tree (below m2) m2 p (i + 1) kids.
Proof.
  intros He Hi Hlen Hnd Hok Hout m2. cbn [concat length] in *.
  apply list.NoDup_app in Hnd. destruct Hnd as (Hnd & Hp & _).
  apply list.NoDup_app in Hnd. destruct Hnd as (_ & Hdisj & _).
  apply Forall_cons_1 in Hok. destruct Hok as [Hpok Hok].
  apply Forall_app in Hok as [Hks Hkids].
  assert (p ∉ ks) as Hpks by (intros ?; apply (Hp p); set_solver).
  eapply entries_tree_impl; [exact He|lia|lia|..].
  - intros j Hj. unfold m2. rewrite ld64_st64_ne.
    + apply entry_same; [lia|]. intros a. by apply (outside_other ks).
    + apply entry_disjoint; try apply Hpok; try lia. intros [= E]. lia.
  - intros c ks' Hin Hb. eapply below_frame; [exact Hb|]. intros q a Hq Ha.
    assert (q ∈ concat kids) as Hqc
      by (apply list_elem_of_In, in_concat; exists ks'; by rewrite <- !list_elem_of_In).
    rewrite list.Forall_forall in Hkids. specialize (Hkids q Hqc).
    unfold m2. rewrite st64_out.
    + apply (outside_other ks _ _ q); try done. intros ?. by apply (Hdisj q).
    + intros Hb'. apply entry_in_page in Hb'; [|lia].
      eapply (page_other p q); [apply Hpok|apply Hkids| |exact Ha|exact Hb'].
      intros ->. apply (Hp q); set_solver.
Qed.

Lemma freewalk_loop_frees kids p i s l :
  entries_tree (below (kmem s)) (kmem s) p i kids ->
  0 <= i -> i + Z.of_nat (length kids) = 512 ->
  free_pages kend s l -> NoDup (concat kids ++ p :: l) ->
  Forall (page_ok kend) (p :: concat kids) ->
  exists s', freewalk_loop free_child (length kids) p i s = Ok tt s' /\
    free_pages kend s' (reverse (concat kids) ++ l) /\
    outside (fun q => q ∈ p :: concat kids) (kmem s) (kmem s').
Proof.
  revert i s l. induction kids as [|ks kids IH]; intros i s l He Hi Hlen Hf Hnd Hok.
  { exists s. split; [done|]. split; [done|apply outside_refl]. }
  destruct He as [Hk He]. cbn [length freewalk_loop].
  rewrite (kbind_Ok _ _ _ _ _ (load_Ok _ s)).
  pose proof Hnd as Hnd'. pose proof Hok as Hok'. cbn [concat length] in Hnd', Hok', Hlen.
  destruct (has _ PTE_V) eqn:Hv; cbn [andb].
  - destruct Hk as [Hfl Hb]. rewrite Hfl. cbn [Z.eqb].
    apply Forall_cons_1 in Hok' as [Hpok Hok']. apply Forall_app in Hok' as [Hks Hkids].
    assert (NoDup (ks ++ l) /\ (p ∉ reverse ks ++ l) /\
      NoDup (concat kids ++ p :: reverse ks ++ l) /\
      NoDup ((ks ++ concat kids) ++ [p])) as (Hn1 & Hn2 & Hn3 & Hn4).
    { by apply nodup_child. }
    destruct (free_child_frees _ _ s l Hb Hf Hn1 Hks) as (s1 & Hc & Hf1 & Hout1).
    rewrite (kbind_Ok _ _ _ _ _ Hc).
    pose proof (free_pages_clear s1 _ p i Hf1 Hpok Hn2 ltac:(lia)) as Hf2.
    destruct (IH (i + 1) {| kmem := _; freelist := _ |} _
      (entries_after ks kids p i s s1 He Hi Hlen Hn4 Hok Hout1)
      ltac:(lia) ltac:(lia) Hf2 Hn3) as (s' & Hl & Hf' & Hout').
    { by constructor. }
    exists s'. split; [exact Hl|]. split.
    + cbn [concat]. by rewrite reverse_app, <- app_assoc.
    + cbn [concat]. intros a Ha. rewrite Hout' by (intros; apply Ha; set_solver). cbn [kmem].
      rewrite st64_out by (intros Hb'; apply entry_in_page in Hb'; [|lia];
        by apply (Ha p); [set_solver|]).
      apply Hout1. intros. apply Ha. set_solver.
  - subst ks. cbn [concat app] in *. apply IH; try done; lia.
Qed.

Lemma freewalk_node kids p s l :
  entries_tree (below (kmem s)) (kmem s) p 0 kids -> length kids = 512%nat ->
  free_pages kend s l -> NoDup ((concat kids ++ [p]) ++ l) ->
  Forall (page_ok kend) (concat kids ++ [p]) ->
  frees (freewalk_loop free_child 512 p 0 ;;; kfree kend p) (concat kids ++ [p]) s l.
Proof.
  intros He Hlen Hf Hnd Hok. rewrite <- app_assoc in Hnd. cbn [app] in Hnd.
  rewrite Forall_app, Forall_singleton in Hok. destruct Hok as [Hkids Hp].
  destruct (freewalk_loop_frees kids p 0 s l He) as (s1 & Hl & Hf1 & Hout1);
    [lia|lia|done|done|by constructor|]. rewrite Hlen in Hl.
  destruct (kfree_free kend kend_pos s1 _ p Hf1 Hp) as (s2 & Hk & Hf2 & Hout2).
  { apply list.NoDup_app in Hnd as (_ & Hd & Hn). apply list.NoDup_cons in Hn as [Hn _].
    rewrite elem_of_app, elem_of_reverse. intros [H|H]; [|done].
    apply (Hd p H). set_solver +. }
  exists s2. rewrite (kbind_Ok _ _ _ _ _ Hl). split; [done|]. split.
  - by rewrite reverse_snoc.
  - intros a Ha. rewrite Hout2 by (apply Ha; set_solver +).
    apply Hout1. intros q Hq. apply Ha. set_solver + Hq.
Qed.
End Loop.

(** [freewalk] returns exactly the pages of the tree. *)
Lemma freewalk_frees L p ps s l :
  tree L (kmem s) p ps -> free_pages kend s l -> NoDup (ps ++ l) ->
  Forall (page_ok kend) ps -> frees (freewalk kend L p) ps s l.
Proof.
  revert p ps s l. induction L as [|L IH]; intros p ps s l (kids & Hlen & -> & He) Hf Hnd Hok.
  - apply (freewalk_node (fun _ _ _ => False)); done.
  - apply (freewalk_node (tree L)); try done; eauto using tree_frame.
Qed.
End Free.

(** ** The tables of an empty address space form a tree *)

Section Tree.
Context (kend : Z) (kend_pos : 0 < kend) (m : mem) (root : Z) (T : gmap Z (nat * Z)).
Context (Ht : tables kend m root T).
Context (Hempty : forall q y i, T !! q = Some (0%nat, y) -> 0 <= i < 512 ->
  has (ld64 m (entry q i)) PTE_V = false).

(** The prefix [n] levels up. *)
Definition up (n : nat) (y : Z) : Z := Nat.iter n (fun z => z / 512) y.

Lemma key_div x i : 0 <= i < 512 -> (x * 512 + i) / 512 = x /\ (x * 512 + i) mod 512 = i.
Proof. intros. Z.to_euclidean_division_equations. lia. Qed.

Lemma tables_key_inj L p q y :
  T !! p = Some (L, y) -> T !! q = Some (L, y) -> p = q.
Proof.
  remember (2 - L)%nat as d eqn:Hd. revert L p q y Hd.
  induction d as [|d IH]; intros L p q y Hd Hp Hq.
  - pose proof (tables_level _ _ _ _ Ht _ _ _ Hp). assert (L = 2%nat) as -> by lia.
    by rewrite (tables_top _ _ _ _ Ht _ _ Hp), (tables_top _ _ _ _ Ht _ _ Hq).
  - destruct (tables_parent _ _ _ _ Ht _ _ _ Hp ltac:(lia)) as (p1 & x1 & i1 & Hp1 & Hi1 & Hy1 & _ & <-).
    destruct (tables_parent _ _ _ _ Ht _ _ _ Hq ltac:(lia)) as (q1 & x2 & i2 & Hq1 & Hi2 & Hy2 & _ & <-).
    assert (x1 = x2) as -> by lia. assert (i1 = i2) as -> by lia.
    by rewrite (IH (S L) p1 q1 x2 ltac:(lia) Hp1 Hq1).
Qed.

Lemma ancestor n L q y :
  T !! q = Some (L, y) -> (L + n <= 2)%nat -> exists a, T !! a = Some ((L + n)%nat, up n y).
Proof.
  intros Hq. induction n as [|n IH]; intros Hn.
  - exists q. by rewrite Nat.add_0_r.
  - destruct (IH ltac:(lia)) as [a Ha].
    destruct (tables_parent _ _ _ _ Ht _ _ _ Ha ltac:(lia)) as (p & x & i & Hp & Hi & Hy & _).
    exists p. replace (L + S n)%nat with (S (L + n)) by lia. rewrite Hp. repeat f_equal.
    cbn [up Nat.iter nat_rect]. change (x = up n y / 512). rewrite Hy. by apply eq_sym, key_div.
Qed.

(** The table pages below prefix [x] at level [L]. *)
Definition covered (L : nat) (x q : Z) : Prop :=
  exists n y, (n <= L)%nat /\ T !! q = Some ((L - n)%nat, y) /\ up n y = x.

Lemma covered_S L p x q :
  T !! p = Some (S L, x) ->
  covered (S L) x q <->
    q = p \/ exists i, 0 <= i < 512 /\ has (ld64 m (entry p i)) PTE_V = true /\
               covered L (x * 512 + i) q.
Proof.
  intros Hp. pose proof (tables_level _ _ _ _ Ht _ _ _ Hp) as HL. split.
  - intros (n & y & Hn & Hq & Hup). destruct n as [|n].
    { left. rewrite Nat.sub_0_r in Hq. cbn in Hup. subst y. by eapply tables_key_inj. }
    right. exists (up n y mod 512).
    assert (up n y = x * 512 + up n y mod 512) as E.
    { change (up n y / 512 = x) in Hup. rewrite <- Hup.
      rewrite (Z.div_mod (up n y) 512) at 1 by lia. lia. }
    pose proof (Z.mod_pos_bound (up n y) 512 ltac:(lia)) as Hi.
    split; [done|]. split.
    + destruct (ancestor n _ _ _ Hq ltac:(lia)) as [a Ha].
      replace (S L - S n + n)%nat with L in Ha by lia.
      destruct (tables_parent _ _ _ _ Ht _ _ _ Ha ltac:(lia)) as (p' & x' & i' & Hp' & Hi' & Hy & Hv & _).
      assert (x' = x) as -> by lia. assert (i' = up n y mod 512) as <- by lia.
      by rewrite (tables_key_inj _ _ _ _ Hp Hp').
    + exists n, y. rewrite <- E. split; [lia|]. split; [|done]. exact Hq.
  - intros [->|(i & Hi & _ & n & y & Hn & Hq & Hup)].
    + exists 0%nat, x. split; [lia|]. split; [|done]. by rewrite Nat.sub_0_r.
    + exists (S n), y. split; [lia|]. split; [exact Hq|].
      change (up n y / 512 = x). rewrite Hup. by apply key_div.
Qed.

Lemma covered_disjoint L x x' q : covered L x q -> covered L x' q -> x = x'.
Proof.
  intros (n & y & Hn & Hq & <-) (n' & y' & Hn' & Hq' & <-). rewrite Hq in Hq'.
  injection Hq' as E <-. by assert (n = n') as -> by lia.
Qed.

Lemma covered_not_self L p x i : T !! p = Some (S L, x) -> ~ covered L (x * 512 + i) p.
Proof. intros Hp (n & y & Hn & Hq & _). rewrite Hp in Hq. injection Hq as E _. lia. Qed.

(** The last [k] entries of [p], given the trees of its children. *)
Lemma entries_exist L p x (below : Z -> list Z -> Prop) k :
  T !! p = Some (S L, x) -> (k <= 512)%nat ->
  (forall c y, T !! c = Some (L, y) -> exists ks, below c ks /\ NoDup ks /\
     forall q, q ∈ ks <-> covered L y q) ->
  exists kids, length kids = k /\ entries_tree below m p (512 - Z.of_nat k) kids /\
    NoDup (concat kids) /\
    forall q, q ∈ concat kids <->
      exists i, 512 - Z.of_nat k <= i < 512 /\ has (ld64 m (entry p i)) PTE_V = true /\
        covered L (x * 512 + i) q.
Proof.
  intros Hp Hk Hchild. induction k as [|k IH].
  { exists []. split_and!; [done|done|constructor|]. intros q. split; [set_solver|].
    intros (i & ? & _). lia. }
  destruct (IH ltac:(lia)) as (kids & Hlen & He & Hnd & Hin). clear IH.
  remember (512 - Z.of_nat (S k)) as i eqn:Hi.
  replace (512 - Z.of_nat k) with (i + 1) in * by lia.
  assert (0 <= i < 512) as Hir by lia.
  destruct (has (ld64 m (entry p i)) PTE_V) eqn:Hv.
  - pose proof (tables_child _ _ _ _ Ht _ _ _ _ Hp Hir Hv) as Hc.
    destruct (Hchild _ _ Hc) as (ks & Hb & Hks & Hkin).
    exists (ks :: kids). cbn [length concat entries_tree]. rewrite Hv. split_and!; [lia| |done|done|..].
    + by eapply tables_pointer.
    + apply list.NoDup_app. split_and!; [done| |done]. intros q Hq1 Hq2.
      apply Hkin in Hq1. apply Hin in Hq2 as (j & Hj & _ & Hq2).
      pose proof (covered_disjoint _ _ _ _ Hq1 Hq2). lia.
    + intros q. rewrite elem_of_app, Hkin, Hin. split.
      * intros [?|(j & ? & ? & ?)]; [exists i|exists j]; split_and!; try done; lia.
      * intros (j & Hj & Hvj & Hq). destruct (decide (j = i)) as [->|]; [by left|].
        right. exists j. split_and!; try done; lia.
  - exists ([] :: kids). cbn [length concat entries_tree app]. rewrite Hv.
    split_and!; [lia|done|done|done|]. intros q. rewrite Hin. split.
    + intros (j & ? & ?). exists j. split; [lia|done].
    + intros (j & Hj & Hvj & Hq). exists j. split; [|done].
      destruct (decide (j = i)) as [->|]; [congruence|lia].
Qed.

Lemma entries_empty p y k :
  T !! p = Some (0%nat, y) -> (k <= 512)%nat ->
  entries_tree (fun _ _ => False) m p (512 - Z.of_nat k) (replicate k []).
Proof.
  intros Hp. induction k as [|k IH]; intros Hk; [done|]. cbn [replicate entries_tree].
  rewrite (Hempty p y) by (done || lia). split; [done|].
  replace (512 - Z.of_nat (S k) + 1) with (512 - Z.of_nat k) by lia. apply IH. lia.
Qed.

Lemma concat_replicate_nil (k : nat) : concat (replicate k ([] : list Z)) = [].
Proof. by induction k. Qed.

Lemma tree_exists L p x :
  T !! p = Some (L, x) ->
  exists ps, tree L m p ps /\ NoDup ps /\ forall q, q ∈ ps <-> covered L x q.
Proof.
  revert p x. induction L as [|L IH]; intros p x Hp.
  - exists [p]. split; [|split].
    + exists (replicate 512 []). rewrite length_replicate, concat_replicate_nil.
      split; [done|]. split; [done|]. by apply (entries_empty p x 512).
    + apply NoDup_singleton.
    + intros q. rewrite list_elem_of_singleton. split.
      * intros ->. by exists 0%nat, x.
      * intros (n & y & Hn & Hq & Hup). assert (n = 0%nat) as -> by lia. cbn in Hq, Hup.
        subst y. by eapply tables_key_inj.
  - destruct (entries_exist L p x (tree L m) 512 Hp ltac:(lia) IH) as (kids & Hlen & He & Hnd & Hin).
    exists (concat kids ++ [p]). split; [by exists kids|]. split.
    + apply list.NoDup_app. split; [done|]. split; [|apply NoDup_singleton].
      intros q Hq ->%list_elem_of_singleton. apply Hin in Hq as (i & _ & _ & Hq).
      by eapply covered_not_self.
    + intros q. rewrite elem_of_app, list_elem_of_singleton, Hin, covered_S by done.
      change (512 - Z.of_nat 512) with 0. tauto.
Qed.

(** The pages of the tree at the root are all table pages. *)
Lemma covered_root q : covered 2 0 q <-> is_Some (T !! q).
Proof.
  split; [intros (n & y & _ & -> & _); by eexists|]. intros [[L y] Hq].
  pose proof (tables_level _ _ _ _ Ht _ _ _ Hq). exists (2 - L)%nat, y.
  split; [lia|]. replace (2 - (2 - L))%nat with L by lia. split; [done|].
  destruct (ancestor (2 - L) _ _ _ Hq ltac:(lia)) as [a Ha].
  replace (L + (2 - L))%nat with 2%nat in Ha by lia.
  pose proof (tables_top _ _ _ _ Ht _ _ Ha) as ->.
  rewrite (tables_root _ _ _ _ Ht) in Ha. congruence.
Qed.
End Tree.

(** ** Freeing an address space *)

Section Uvmfree.
Context (kend : Z) (kend_pos : 0 < kend) (root : Z).
Implicit Types (F : gset Z) (T : gmap Z (nat * Z)) (mp : gmap Z Z) (l : list Z) (s : kstate).

Lemma empty_leaves T l s q y i :
  space kend root T ∅ l s -> T !! q = Some (0%nat, y) -> 0 <= i < 512 ->
  has (ld64 (kmem s) (entry q i)) PTE_V = false.
Proof.
  intros Hsp Hq Hi. pose proof (sp_tables _ _ _ _ _ _ Hsp) as Ht.
  destruct (leaf_page y i (tables_key _ _ _ _ Ht _ _ _ Hq) Hi) as (Hva & Hpre & HPX).
  set (va := (y * 512 + i) * PGSIZE) in *.
  assert (T !! q = Some (0%nat, prefix 0 va)) as Hq' by (by rewrite Hpre).
  pose proof (sp_map _ _ _ _ _ _ Hsp va Hva) as Hm. rewrite lookup_empty in Hm.
  unfold pte_of in Hm.
  rewrite (pte_below_slot kend kend_pos (kmem s) root T) in Hm by eauto using tables_start.
  rewrite (slot_leaf _ _ _ _ _ _ Ht Hq'), HPX in Hm.
  pose proof (table_nonzero _ kend_pos _ _ _ _ _ Ht Hq).
  destruct (Z.eqb_spec (entry q i) 0); [unfold entry in *; lia|]. by rewrite Hm.
Qed.

(** Freeing the tables of an empty address space. *)
Lemma freewalk_space F T l s :
  uspace kend root F T ∅ l s ->
  exists s' l', freewalk kend 2 root s = Ok tt s' /\ free_pages kend s' l' /\
    (forall p, p ∈ l' <-> p ∈ F) /\ outside (fun p => p ∈ F) (kmem s) (kmem s').
Proof.
  intros Hus. pose proof Hus as [Hsp Hpt]. pose proof (sp_tables _ _ _ _ _ _ Hsp) as Ht.
  pose proof (sp_free _ _ _ _ _ _ Hsp) as Hf.
  destruct (tree_exists kend kend_pos (kmem s) root T Ht (fun q y i => empty_leaves T l s q y i Hsp)
    2 root 0 (tables_root _ _ _ _ Ht)) as (ps & Htree & Hnd & Hin).
  assert (forall p, p ∈ ps <-> is_Some (T !! p)) as Hps
    by (intros p; rewrite Hin; by eapply covered_root).
  assert (forall p, p ∈ F <-> p ∈ ps \/ p ∈ l) as HF.
  { intros p. rewrite (pt_all _ _ _ _ _ Hpt), Hps. split; [|tauto].
    intros [?|[?|(n & v & Hn & _)]]; [tauto|tauto|]. by rewrite lookup_empty in Hn. }
  destruct (freewalk_frees kend kend_pos 2 root ps s l Htree Hf) as (s' & Hw & Hf' & Hout).
  - apply list.NoDup_app. split; [done|]. split; [|by destruct Hf].
    intros p Hp Hl. apply Hps in Hp. rewrite (sp_disj _ _ _ _ _ _ Hsp p Hl) in Hp. by destruct Hp.
  - apply list.Forall_forall. intros p Hp. apply Hps in Hp. by eapply table_page_ok.
  - exists s', (reverse ps ++ l). split; [done|]. split; [done|]. split.
    + intros p. rewrite HF, elem_of_app, elem_of_reverse. done.
    + eapply outside_weaken, Hout. intros p Hp. apply HF. by left.
Qed.

Lemma uvmfree_spec sz F T mp l s :
  uspace kend root F T mp l s -> 0 <= sz <= ULIM * PGSIZE ->
  (forall i, is_Some (mp !! i) <-> 0 <= i < npages sz) ->
  exists s' l', uvmfree kend root sz s = Ok tt s' /\ free_pages kend s' l' /\
    (forall p, p ∈ l' <-> p ∈ F) /\ outside (fun p => p ∈ F) (kmem s) (kmem s').
Proof.
  intros Hus Hsz Hmp. pose proof (npages_ulim sz ltac:(lia)) as HU.
  assert (0 <= npages sz) as Hnp by (pose proof (npages_bounds sz); unfold PGSIZE in *; lia).
  assert (exists l1 s1, (if 0 <? sz then uvmunmap kend root 0 (u64 (PGROUNDUP sz) / PGSIZE) true
      else kret tt) s = Ok tt s1 /\ uspace kend root F T ∅ l1 s1 /\
      outside (spare F ∅) (kmem s) (kmem s1)) as (l1 & s1 & Hun & Hus1 & Hout1).
  { destruct (Z.ltb_spec 0 sz) as [Hpos|Hz].
    - rewrite pgup_small, Z.div_mul by (done || lia).
      destruct (uvmunmap_spec kend kend_pos root (Z.to_nat (npages sz)) 0 F T mp l s Hus)
        as (l1 & s1 & Hu & Hus1 & Hout1); [done|lia|intros i Hi; apply Hmp; lia|].
      replace (unmap_range _ 0 mp) with (∅ : gmap Z Z) in *.
      { exists l1, s1. rewrite Z2Nat.id in Hu by done. done. }
      apply map_eq. intros i. rewrite unmap_range_lookup, lookup_empty. case_decide; [done|].
      destruct (mp !! i) eqn:E; [|done].
      assert (0 <= i < npages sz) by (apply Hmp; by eexists). lia.
    - assert (sz = 0) as -> by lia. change (npages 0) with 0 in *. exists l, s.
      assert (mp = ∅) as ->; [|split; [done|split; [done|apply outside_refl]]].
      apply map_empty. intros i. apply eq_None_not_Some. rewrite Hmp. lia. }
  destruct (freewalk_space F T l1 s1 Hus1) as (s' & l' & Hw & Hf & Hl & Hout).
  exists s', l'. unfold uvmfree. rewrite (kbind_Ok _ _ _ _ _ Hun). split; [done|].
  split; [done|]. split; [done|]. eapply outside_trans, Hout.
  eapply outside_weaken, Hout1. by intros p [? _].
Qed.
End Uvmfree.

(** ** Theorems *)

(** Every page of [F] is on the free list, once. *)
Definition all_free (kend : Z) (F : gset Z) (s : kstate) : Prop :=
  exists l, free_pages kend s l /\ forall p, p ∈ l <-> p ∈ F.

(** C29. Freeing an address space gives back every page it used.  [F] are the
    pages that are free, hold page tables or are frames of user pages; when
    the user pages are exactly those below [sz], [uvmfree] does not panic, and
    afterwards all of [F] is on the free list, each page once.  Nothing outside
    [F] is written. *)
Theorem uvmfree_returns_all kend root sz F T mp l s :
  0 < kend -> uspace kend root F T mp l s -> 0 <= sz <= ULIM * PGSIZE ->
  (forall i, is_Some (mp !! i) <-> 0 <= i < npages sz) ->
  exists s', uvmfree kend root sz s = Ok tt s' /\ all_free kend F s' /\
    outside (fun p => p ∈ F) (kmem s) (kmem s').
Proof.
  intros Hk Hus Hsz Hmp.
  destruct (uvmfree_spec kend Hk root sz F T mp l s Hus Hsz Hmp) as (s' & l' & ? & ? & ? & ?).
  exists s'. split; [done|]. split; [by exists l'|done].
Qed.

(** A process with three pages, on a machine with eight: all eight are free
    afterwards. *)
Lemma uvmfree_returns_all_witness :
  let kend := PHYSTOP - 8 * PGSIZE in
  exists root s s' l, uvmfree kend root 9000 s = Ok tt s' /\ free_pages kend s' l /\
    forall p, p ∈ l <-> page_ok kend p.
Proof.
  intros kend. destruct (three_pages PTE_W (or_introl eq_refl)) as (root & F & T & mp & l & s & Hus & Hmp & _ & HF & _).
  destruct (uvmfree_returns_all kend root 9000 F T mp l s ltac:(done) Hus)
    as (s' & Hfree & (l' & Hl' & Hall) & _); [done|exact Hmp|].
  exists root, s, s', l'. split; [exact Hfree|]. split; [exact Hl'|].
  intros p. rewrite Hall. apply HF.
Defined.
