(* ===== verification/VmCopy.v ===== *)
(** Copying between the kernel and user memory ([copyin], [copyout] and
    [copyinstr] of [kernel/vm.c]).

    Seen from the kernel, a user address space is a partial map from virtual
    addresses to bytes ([ubyte]).  The page-by-page loops read and write it
    byte for byte, and so provide the interface [UserMem] the pipe and the
    console are verified against. *)

From stdpp Require Import functions.
From S2P Require Import Prelude Mem Kalloc UserMem Vm VmSpace VmOps.

(** ** The bytes of an address space *)

(** The frame of the user page that holds [va]. *)
Definition upa (mp : gmap Z Z) (va : Z) : option Z :=
  match mp !! (va / PGSIZE) with
  | Some v => if has v PTE_U then Some (PTE2PA v) else None
  | None => None
  end.

Definition ubyte (mp : gmap Z Z) (m : mem) (va : Z) : option Z :=
  match upa mp va with
  | Some pa => Some (m (pa + va mod PGSIZE))
  | None => None
  end.

(** The [k] bytes at [va], if all are mapped. *)
Fixpoint read_bytes (view : Z -> option Z) (k : nat) (va : Z) : option (list Z) :=
  match k with
  | O => Some []
  | S k => b ← view va; bs ← read_bytes view k (va + 1); Some (b :: bs)
  end.

(** The string at [va] of fewer than [k] bytes, if it is mapped. *)
Fixpoint read_str (view : Z -> option Z) (k : nat) (va : Z) : option (list Z) :=
  match k with
  | O => None
  | S k =>
      b ← view va;
      if b =? 0 then Some [] else bs ← read_str view k (va + 1); Some (b :: bs)
  end.

Lemma read_bytes_app view j k va :
  read_bytes view (j + k) va =
    (bs ← read_bytes view j va; bs' ← read_bytes view k (va + Z.of_nat j); Some (bs ++ bs')).
Proof.
  revert va. induction j as [|j IH]; intros va; cbn [Nat.add read_bytes mbind option_bind].
  - rewrite Z.add_0_r. by destruct (read_bytes view k va).
  - destruct (view va) as [b|]; cbn; [|done]. rewrite IH.
    replace (va + Z.of_nat (S j)) with (va + 1 + Z.of_nat j) by lia.
    destruct (read_bytes view j (va + 1)) as [bs|]; cbn; [|done].
    by destruct (read_bytes view k (va + 1 + Z.of_nat j)).
Qed.

Lemma read_bytes_ext view view' k va :
  (forall i, va <= i < va + Z.of_nat k -> view i = view' i) ->
  read_bytes view k va = read_bytes view' k va.
Proof.
  revert va. induction k as [|k IH]; intros va H; cbn [read_bytes]; [done|].
  rewrite (H va) by lia. rewrite IH; [done|]. intros i Hi. apply H. lia.
Qed.

Lemma read_bytes_list view bs va :
  (forall i b, bs !! i = Some b -> view (va + Z.of_nat i) = Some b) ->
  read_bytes view (length bs) va = Some bs.
Proof.
  revert va. induction bs as [|b bs IH]; intros va H; cbn [length read_bytes]; [done|].
  pose proof (H 0%nat b eq_refl) as H0. rewrite Z.add_0_r in H0. rewrite H0. cbn.
  rewrite IH; [done|]. intros i c Hi. rewrite <- (H (S i) c) by done. f_equal. lia.
Qed.

Lemma read_bytes_length view k va bs : read_bytes view k va = Some bs -> length bs = k.
Proof.
  revert va bs. induction k as [|k IH]; intros va bs; cbn [read_bytes].
  - by intros [= <-].
  - destruct (view va) as [b|]; cbn; [|done].
    destruct (read_bytes view k (va + 1)) as [bs'|] eqn:E; cbn; [|done].
    intros [= <-]. cbn. by erewrite IH.
Qed.

Lemma read_bytes_None view k va i :
  view i = None -> va <= i < va + Z.of_nat k -> read_bytes view k va = None.
Proof.
  intros Hi. revert va. induction k as [|k IH]; intros va Hr; [lia|]. cbn [read_bytes].
  destruct (decide (i = va)) as [->|]; [by rewrite Hi|].
  rewrite IH by lia. by destruct (view va).
Qed.

(** ** Pages *)

Lemma page_split va : va = va / PGSIZE * PGSIZE + va mod PGSIZE.
Proof. pose proof (Z.div_mod va PGSIZE). unfold PGSIZE in *. lia. Qed.

Lemma page_offset va : 0 <= va mod PGSIZE < PGSIZE.
Proof. apply Z.mod_pos_bound. done. Qed.

(** Addresses of the same page. *)
Lemma same_page va j :
  0 <= j -> va mod PGSIZE + j < PGSIZE ->
  (va + j) / PGSIZE = va / PGSIZE /\ (va + j) mod PGSIZE = va mod PGSIZE + j.
Proof.
  intros Hj Hlt. unfold PGSIZE in *. Z.to_euclidean_division_equations. lia.
Qed.

Lemma upa_same_page mp va j :
  0 <= j -> va mod PGSIZE + j < PGSIZE -> upa mp (va + j) = upa mp va.
Proof. intros Hj Hlt. unfold upa. by rewrite (proj1 (same_page va j Hj Hlt)). Qed.

Lemma ubyte_None mp m va : upa mp va = None -> ubyte mp m va = None.
Proof. unfold ubyte. by intros ->. Qed.

Lemma ubyte_same_page mp m va j pa :
  0 <= j -> va mod PGSIZE + j < PGSIZE -> upa mp va = Some pa ->
  ubyte mp m (va + j) = Some (m (pa + va mod PGSIZE + j)).
Proof.
  intros Hj Hlt Hpa. unfold ubyte. rewrite upa_same_page, Hpa by done.
  rewrite (proj2 (same_page va j Hj Hlt)). do 2 f_equal. lia.
Qed.

Lemma bytes_at_length m a k : length (bytes_at m a k) = k.
Proof. unfold bytes_at. rewrite length_fmap, length_seqZ. lia. Qed.

Lemma bytes_at_lookup m a k i b :
  bytes_at m a k !! i = Some b -> (i < k)%nat /\ b = m (a + Z.of_nat i).
Proof.
  unfold bytes_at. rewrite list_lookup_fmap. intros (x & Hx & ->)%fmap_Some.
  apply lookup_seqZ in Hx as [-> ?]. split; [lia|]. do 2 f_equal.
Qed.

(** Reading within a page. *)
Lemma read_bytes_page mp m va k pa :
  upa mp va = Some pa -> va mod PGSIZE + Z.of_nat k <= PGSIZE ->
  read_bytes (ubyte mp m) k va = Some (bytes_at m (pa + va mod PGSIZE) k).
Proof.
  intros Hpa Hk. rewrite <- (bytes_at_length m (pa + va mod PGSIZE) k) at 1.
  apply read_bytes_list. intros i b Hb. apply bytes_at_lookup in Hb as [Hi ->].
  eapply ubyte_same_page; [lia|lia|done].
Qed.

(** Writing a byte list. *)
Lemma store_bytes_spec m a bs x :
  store_bytes m a bs x =
    if decide (a <= x < a + Z.of_nat (length bs))
    then default 0 (bs !! Z.to_nat (x - a)) else m x.
Proof.
  revert m a. induction bs as [|b bs IH]; intros m a; cbn [store_bytes length].
  - by rewrite decide_False by lia.
  - rewrite IH. destruct (decide (a + 1 <= x < a + 1 + Z.of_nat (length bs))).
    + rewrite decide_True by lia.
      replace (Z.to_nat (x - a)) with (S (Z.to_nat (x - (a + 1)))) by lia. done.
    + rewrite st8_case. destruct (Z.eqb_spec x a) as [->|Hne].
      * rewrite decide_True by lia. by rewrite Z.sub_diag.
      * by rewrite decide_False by lia.
Qed.

(** ** The loops *)

Section Copy.
Context (kend : Z) (kend_pos : 0 < kend) (root : Z).
Implicit Types (F : gset Z) (T : gmap Z (nat * Z)) (mp : gmap Z Z) (l : list Z) (s : kstate).

(** Pages at the top (the trapframe and the trampoline) are not for users. *)
Definition no_user_top mp : Prop :=
  forall n v, mp !! n = Some v -> has v PTE_U = true -> n < ULIM.

Lemma upa_frame F T mp l va pa :
  parts kend F T mp l -> no_user_top mp -> upa mp va = Some pa ->
  user_frame mp pa /\ page_ok kend pa /\ (pa ∉ l) /\ T !! pa = None.
Proof.
  intros Hpt Htop. unfold upa. destruct (mp !! (va / PGSIZE)) as [v|] eqn:Hv; [|done].
  destruct (has v PTE_U) eqn:HU; [|done]. intros [= <-].
  pose proof (Htop _ _ Hv HU) as Hlim.
  destruct (pt_leaf _ _ _ _ _ Hpt _ _ Hv Hlim) as (_ & ? & ? & ?).
  split_and!; try done. by exists (va / PGSIZE), v.
Qed.

Lemma walkaddr_spec F T mp l s va :
  uspace kend root F T mp l s -> no_user_top mp -> 0 <= va ->
  walkaddr root va s = Ok (default 0 (upa mp va)) s.
Proof.
  intros [Hsp Hpt] Htop Hva. unfold walkaddr, upa.
  destruct (Z.leb_spec MAXVA va) as [Hge|Hlt].
  { destruct (mp !! (va / PGSIZE)) as [v|] eqn:Hv; [|done].
    destruct (sp_valid _ _ _ _ _ _ Hsp _ _ Hv) as [Hr _].
    assert (MAXVA / PGSIZE <= va / PGSIZE) by (by apply Z.div_le_mono). lia. }
  rewrite (kbind_Ok _ _ _ _ _ (walk_lookup root va s Hlt)).
  pose proof (sp_map _ _ _ _ _ _ Hsp va ltac:(lia)) as Hm. unfold pte_of in Hm.
  rewrite (pte_below_slot kend kend_pos (kmem s) root T) in Hm
    by (apply Hsp || (eapply tables_start; [apply Hsp|lia])).
  destruct (Z.eqb_spec (slot_below 2 (kmem s) root va) 0) as [E|Hnz].
  - destruct (mp !! (va / PGSIZE)) as [v|] eqn:Hv; [|done].
    destruct (sp_valid _ _ _ _ _ _ Hsp _ _ Hv) as [_ HV]. cbn in Hm. by rewrite <- Hm in HV.
  - rewrite (kbind_Ok _ _ _ _ _ (load_Ok _ s)), Hm.
    destruct (mp !! (va / PGSIZE)) as [v|] eqn:Hv; [|done].
    destruct (sp_valid _ _ _ _ _ _ Hsp _ _ Hv) as [_ HV].
    change (default 0 (Some v)) with v. rewrite HV. cbn [negb].
    by destruct (has v PTE_U).
Qed.

(** The part of an access that lies in the first page. *)
Lemma chunk_bounds va len :
  0 < len ->
  let n := Z.min (PGSIZE - (va - PGROUNDDOWN va)) len in
  0 < n <= len /\ va mod PGSIZE + n <= PGSIZE /\
  (n < len -> PGROUNDDOWN va + PGSIZE = va + n).
Proof.
  intros Hlen n. unfold n. rewrite PGROUNDDOWN_mul.
  pose proof (page_split va). pose proof (page_offset va). lia.
Qed.

Lemma pa_offset va pa : pa + (va - PGROUNDDOWN va) = pa + va mod PGSIZE.
Proof. rewrite PGROUNDDOWN_mul. pose proof (page_split va). lia. Qed.

Lemma upa_down mp va : upa mp (PGROUNDDOWN va) = upa mp va.
Proof.
  unfold upa. rewrite PGROUNDDOWN_mul, Z.div_mul by done. done.
Qed.

Lemma down_nonneg va : 0 <= va -> 0 <= PGROUNDDOWN va.
Proof. intros. rewrite PGROUNDDOWN_mul. pose proof (Z.div_pos va PGSIZE ltac:(done) ltac:(done)). unfold PGSIZE in *. lia. Qed.

(** [copied view va len r]: [r] is what [copyin] of [len] bytes delivers. *)
Definition copied (view : Z -> option Z) (va len : Z) (r : list Z * bool) : Prop :=
  read_bytes view (Z.to_nat len) va = (if r.2 then Some r.1 else None) /\
  read_bytes view (length r.1) va = Some r.1 /\ Z.of_nat (length r.1) <= Z.max 0 len.

Lemma copied_zero view va : copied view va 0 ([], true).
Proof. split; [done|]. split; [done|]. cbn. lia. Qed.

Lemma copied_app view va n len bs r :
  read_bytes view (Z.to_nat n) va = Some bs -> 0 <= n <= len ->
  copied view (va + n) (len - n) r -> copied view va len (bs ++ r.1, r.2).
Proof.
  intros Hbs Hn (H1 & H2 & H3). pose proof (read_bytes_length _ _ _ _ Hbs) as Hl.
  unfold copied. cbn [fst snd].
  replace (Z.to_nat len) with (Z.to_nat n + Z.to_nat (len - n))%nat by lia.
  rewrite length_app, !read_bytes_app, Hl, Z2Nat.id, Hbs by lia. cbn.
  rewrite H1, H2. destruct r as [rb []]; cbn in *; (split; [done|split; [done|lia]]).
Qed.

Lemma copyin_loop_spec k va len F T mp l s :
  uspace kend root F T mp l s -> no_user_top mp -> 0 <= va -> 0 <= len <= Z.of_nat k ->
  exists r, copyin_loop k root va len s = Ok r s /\ copied (ubyte mp (kmem s)) va len r.
Proof.
  intros Hus Htop. revert va len. induction k as [|k IH]; intros va len Hva Hlen.
  { assert (len = 0) as -> by lia. exists ([], true). split; [done|apply copied_zero]. }
  cbn [copyin_loop]. destruct (Z.ltb_spec 0 len) as [Hpos|].
  2: { assert (len = 0) as -> by lia. exists ([], true). split; [done|apply copied_zero]. }
  rewrite (kbind_Ok _ _ _ _ _ (walkaddr_spec _ _ _ _ _ _ Hus Htop (down_nonneg va Hva))).
  rewrite upa_down. destruct (upa mp va) as [pa|] eqn:Hpa.
  2: { exists ([], false). split; [done|]. split; [|split; [done|cbn; lia]].
       destruct (Z.to_nat len) eqn:E; [lia|]. cbn [read_bytes]. by rewrite ubyte_None. }
  destruct (upa_frame _ _ _ _ _ _ (proj2 Hus) Htop Hpa) as (_ & Hok & _).
  change (default 0 (Some pa)) with pa.
  destruct (Z.eqb_spec pa 0) as [->|_]; [destruct Hok; lia|].
  destruct (chunk_bounds va len Hpos) as (Hn & Hpg & Hnext).
  set (n := Z.min (PGSIZE - (va - PGROUNDDOWN va)) len) in *.
  unfold kgets. unfold kbind at 1. rewrite pa_offset.
  destruct (IH (PGROUNDDOWN va + PGSIZE) (len - n)) as (r & Hr & Hc); [|lia|].
  { pose proof (down_nonneg va Hva). unfold PGSIZE. lia. }
  rewrite (kbind_Ok _ _ _ _ _ Hr). eexists. split; [reflexivity|].
  apply copied_app with (n := n); [apply read_bytes_page; (done || lia)|lia|].
  destruct (decide (n < len)) as [Hlt|]; [by rewrite <- Hnext|].
  assert (len - n = 0) as E by lia. rewrite E in *.
  destruct Hc as (H1 & _ & H3). destruct r as [[|b bs] []]; cbn in *; done.
Qed.

Lemma copyin_spec va len F T mp l s :
  uspace kend root F T mp l s -> no_user_top mp -> 0 <= va ->
  exists r, Vm.copyin root va len s = Ok r s /\ copied (ubyte mp (kmem s)) va len r.
Proof.
  intros Hus Htop Hva. unfold Vm.copyin. destruct (decide (0 <= len)).
  - apply copyin_loop_spec with (F := F) (T := T) (l := l); (done || lia).
  - exists ([], true). unfold copied. replace (Z.to_nat len) with 0%nat by lia.
    split; [done|]. split; [done|]. split; [done|cbn; lia].
Qed.

(** *** Writing *)

Definition write_user s pa va bs : kstate :=
  {| kmem := store_bytes (kmem s) (pa + va mod PGSIZE) bs; freelist := freelist s |}.

(** The view after [bs] was written at [va]. *)
Definition written (view : Z -> option Z) (va : Z) (bs : list Z) (i : Z) : option Z :=
  if decide (va <= i < va + Z.of_nat (length bs)) then bs !! Z.to_nat (i - va) else view i.

Lemma store_bytes_page m pa va bs a :
  pa mod PGSIZE = 0 -> va mod PGSIZE + Z.of_nat (length bs) <= PGSIZE ->
  ~ in_page pa a -> store_bytes m (pa + va mod PGSIZE) bs a = m a.
Proof.
  intros Hpa Hlen Ha. rewrite store_bytes_spec, decide_False; [done|].
  unfold in_page in Ha. pose proof (page_offset va). lia.
Qed.

(** Writing within a user page changes just these bytes. *)
Lemma write_user_spec F T mp l s va pa bs :
  uspace kend root F T mp l s -> no_user_top mp -> upa mp va = Some pa ->
  va mod PGSIZE + Z.of_nat (length bs) <= PGSIZE ->
  uspace kend root F T mp l (write_user s pa va bs) /\
  forall i, ubyte mp (kmem (write_user s pa va bs)) i = written (ubyte mp (kmem s)) va bs i.
Proof.
  intros Hus Htop Hpa Hlen. pose proof Hus as [Hsp Hpt].
  destruct (upa_frame _ _ _ _ _ _ Hpt Htop Hpa) as (_ & [Hal Hr] & Hl & HT).
  pose proof (page_offset va) as Hoff. split; [split; [|done]|].
  - eapply space_frame; [done|exact Hsp|..]; cbn [kmem write_user].
    + intros q a Hq Ha. apply store_bytes_page; [done|done|].
      by eapply (table_not_page kend root T mp l s q pa a).
    + eapply free_pages_frame; [..|apply Hsp]; [done|]. intros q a Hq Ha.
      apply store_bytes_page; [done|done|]. intros Hb.
      destruct (free_pages_page_ok _ _ _ _ (sp_free _ _ _ _ _ _ Hsp) Hq) as [Hq0 _].
      by rewrite (in_page_inj _ _ _ Hq0 Hal Ha Hb) in Hq.
    + apply Hsp.
  - intros i. unfold written, ubyte. destruct (upa mp i) as [pi|] eqn:Hi.
    2: { rewrite decide_False; [done|]. intros Hr'.
         pose proof (upa_same_page mp va (i - va) ltac:(lia) ltac:(lia)) as E.
         replace (va + (i - va)) with i in E by lia. congruence. }
    cbn [kmem write_user]. destruct (decide (va <= i < va + Z.of_nat (length bs))) as [Hin|Hout].
    + destruct (same_page va (i - va) ltac:(lia) ltac:(lia)) as [E1 E2].
      pose proof (upa_same_page mp va (i - va) ltac:(lia) ltac:(lia)) as E.
      replace (va + (i - va)) with i in E, E1, E2 by lia.
      assert (pi = pa) as -> by congruence.
      rewrite store_bytes_spec, E2, decide_True by lia.
      replace (pa + (va mod PGSIZE + (i - va)) - (pa + va mod PGSIZE)) with (i - va) by lia.
      destruct (bs !! Z.to_nat (i - va)) eqn:Hb; [done|].
      apply lookup_ge_None in Hb. lia.
    + f_equal. destruct (decide (pi = pa)) as [->|Hne].
      * rewrite store_bytes_spec, decide_False; [done|].
        enough (i / PGSIZE = va / PGSIZE) as E.
        { pose proof (page_split i). pose proof (page_split va). lia. }
        unfold upa in Hpa, Hi.
        destruct (mp !! (va / PGSIZE)) as [v1|] eqn:H1; [|done].
        destruct (mp !! (i / PGSIZE)) as [v2|] eqn:H2; [|done].
        destruct (has v1 PTE_U) eqn:U1; [|done]. destruct (has v2 PTE_U) eqn:U2; [|done].
        eapply (pt_inj _ _ _ _ _ Hpt); eauto. congruence.
      * apply store_bytes_page; [done|done|]. intros Hb. apply Hne.
        destruct (upa_frame _ _ _ _ _ _ Hpt Htop Hi) as (_ & [Hali _] & _).
        eapply in_page_inj; [done|done| |exact Hb].
        pose proof (page_offset i). unfold in_page. lia.
Qed.

Lemma written_app view va bs bs' i :
  written (written view va bs) (va + Z.of_nat (length bs)) bs' i = written view va (bs ++ bs') i.
Proof.
  unfold written. rewrite length_app.
  destruct (decide (va + Z.of_nat (length bs) <= i < va + Z.of_nat (length bs) + Z.of_nat (length bs'))).
  - rewrite decide_True, lookup_app_r by lia. f_equal. lia.
  - destruct (decide (va <= i < va + Z.of_nat (length bs))).
    + rewrite decide_True, lookup_app_l by lia. done.
    + by rewrite decide_False by lia.
Qed.

Lemma written_ext view view' va bs i : view i = view' i -> written view va bs i = written view' va bs i.
Proof. unfold written. by case_decide. Qed.

(** [copyout] stores a prefix of the bytes, all of them if they are mapped. *)
Lemma copyout_loop_spec k va bs F T mp l s :
  uspace kend root F T mp l s -> no_user_top mp -> 0 <= va -> (length bs <= k)%nat ->
  exists ws rest s', bs = ws ++ rest /\
    copyout_loop k root va bs s = Ok (match rest with [] => 0 | _ => -1 end) s' /\
    uspace kend root F T mp l s' /\
    (forall i, ubyte mp (kmem s') i = written (ubyte mp (kmem s)) va ws i) /\
    (rest <> [] -> upa mp (va + Z.of_nat (length ws)) = None).
Proof.
  intros Hus Htop. revert va bs s Hus. induction k as [|k IH]; intros va bs s Hus Hva Hlen.
  { destruct bs; [|cbn in Hlen; lia]. exists [], [], s. split_and!; try done; try apply Hus.
    intros i. unfold written. cbn. by rewrite decide_False by lia. }
  destruct bs as [|b bs].
  { exists [], [], s. split_and!; try done; try apply Hus.
    intros i. unfold written. cbn. by rewrite decide_False by lia. }
  cbn [copyout_loop]. set (all := b :: bs) in *.
  rewrite (kbind_Ok _ _ _ _ _ (walkaddr_spec _ _ _ _ _ _ Hus Htop (down_nonneg va Hva))).
  rewrite upa_down. destruct (upa mp va) as [pa|] eqn:Hpa.
  2: { exists [], all, s. split_and!; try done; try apply Hus.
       - intros i. unfold written. cbn. by rewrite decide_False by lia.
       - cbn. by rewrite Z.add_0_r. }
  destruct (upa_frame _ _ _ _ _ _ (proj2 Hus) Htop Hpa) as (_ & Hok & _).
  change (default 0 (Some pa)) with pa.
  destruct (Z.eqb_spec pa 0) as [->|_]; [destruct Hok; lia|].
  destruct (chunk_bounds va (Z.of_nat (length all)) ltac:(cbn; lia)) as (Hn & Hpg & Hnext).
  set (n := Z.min (PGSIZE - (va - PGROUNDDOWN va)) (Z.of_nat (length all))) in *.
  assert (Z.of_nat (length (take (Z.to_nat n) all)) = n) as Htk by (rewrite length_take; lia).
  rewrite pa_offset.
  destruct (write_user_spec _ _ _ _ _ va pa (take (Z.to_nat n) all) Hus Htop Hpa ltac:(lia))
    as [Hus1 Hw1].
  destruct (IH (PGROUNDDOWN va + PGSIZE) (drop (Z.to_nat n) all) _ Hus1)
    as (ws & rest & s' & Hbs & Hrun & Hus' & Hw & Hfail).
  { pose proof (down_nonneg va Hva). unfold PGSIZE. lia. }
  { rewrite length_drop. cbn [length all] in *. lia. }
  exists (take (Z.to_nat n) all ++ ws), rest, s'. rewrite length_app, Nat2Z.inj_add, Htk.
  split; [by rewrite <- app_assoc, <- Hbs, take_drop|]. split; [exact Hrun|].
  split; [done|].
  assert (drop (Z.to_nat n) all <> [] -> PGROUNDDOWN va + PGSIZE = va + n) as Hnx.
  { intros Hd. apply Hnext. destruct (decide (n < Z.of_nat (length all))); [done|].
    destruct Hd. apply drop_ge. lia. }
  split.
  - intros i. rewrite Hw, <- written_app, Htk. destruct (decide (ws = [])) as [->|Hne].
    + unfold written at 1 2. cbn [length]. rewrite !decide_False by lia. apply Hw1.
    + rewrite Hnx by (rewrite Hbs; by destruct ws). by apply written_ext, Hw1.
  - intros Hr. rewrite Z.add_assoc, <- Hnx; [by apply Hfail|]. rewrite Hbs. by destruct ws.
Qed.

Lemma copyout_spec va bs F T mp l s :
  uspace kend root F T mp l s -> no_user_top mp -> 0 <= va ->
  exists ws rest s', bs = ws ++ rest /\
    Vm.copyout root va bs s = Ok (match rest with [] => 0 | _ => -1 end) s' /\
    uspace kend root F T mp l s' /\
    (forall i, ubyte mp (kmem s') i = written (ubyte mp (kmem s)) va ws i) /\
    (rest <> [] -> upa mp (va + Z.of_nat (length ws)) = None).
Proof. intros. by apply copyout_loop_spec. Qed.

(** *** Strings *)

Lemma copyinstr_page_spec mp m va pa k j :
  upa mp va = Some pa -> va mod PGSIZE + Z.of_nat k <= PGSIZE ->
  read_str (ubyte mp m) (k + j) va =
    (let '(bs, nul) := copyinstr_page k m (pa + va mod PGSIZE) in
     if nul then Some bs
     else bs' ← read_str (ubyte mp m) j (va + Z.of_nat k); Some (bs ++ bs')).
Proof.
  intros Hpa Hk.
  enough (forall d, va mod PGSIZE + Z.of_nat d + Z.of_nat k <= PGSIZE ->
    read_str (ubyte mp m) (k + j) (va + Z.of_nat d) =
      (let '(bs, nul) := copyinstr_page k m (pa + va mod PGSIZE + Z.of_nat d) in
       if nul then Some bs
       else bs' ← read_str (ubyte mp m) j (va + Z.of_nat d + Z.of_nat k); Some (bs ++ bs'))) as H.
  { specialize (H 0%nat). rewrite !Z.add_0_r in H. apply H. done. }
  clear Hk. induction k as [|k IH]; intros d Hd.
  { cbn. rewrite Z.add_0_r. by destruct (read_str _ _ _). }
  cbn [Nat.add read_str copyinstr_page].
  rewrite (ubyte_same_page mp m va (Z.of_nat d) pa) by (done || lia). cbn [mbind option_bind].
  destruct (_ =? 0) eqn:Hz; [done|].
  replace (va + Z.of_nat d + 1) with (va + Z.of_nat (S d)) by lia.
  rewrite IH by lia.
  replace (pa + va mod PGSIZE + Z.of_nat d + 1) with (pa + va mod PGSIZE + Z.of_nat (S d)) by lia.
  destruct (copyinstr_page k m _) as [bs []]; cbn; [done|].
  replace (va + Z.of_nat (S d) + Z.of_nat k) with (va + Z.of_nat d + Z.of_nat (S k)) by lia.
  by destruct (read_str _ j _).
Qed.

Lemma copyinstr_loop_spec k va max F T mp l s :
  uspace kend root F T mp l s -> no_user_top mp -> 0 <= va -> 0 <= max < Z.of_nat k ->
  copyinstr_loop k root va max s = Ok (read_str (ubyte mp (kmem s)) (Z.to_nat max) va) s.
Proof.
  intros Hus Htop. revert va max. induction k as [|k IH]; intros va max Hva Hmax; [lia|].
  cbn [copyinstr_loop]. destruct (Z.ltb_spec 0 max) as [Hpos|]; [|by assert (max = 0) as -> by lia].
  rewrite (kbind_Ok _ _ _ _ _ (walkaddr_spec _ _ _ _ _ _ Hus Htop (down_nonneg va Hva))).
  rewrite upa_down. destruct (upa mp va) as [pa|] eqn:Hpa.
  2: { destruct (Z.to_nat max) eqn:E; [lia|]. cbn [read_str]. by rewrite ubyte_None. }
  destruct (upa_frame _ _ _ _ _ _ (proj2 Hus) Htop Hpa) as (_ & Hok & _).
  change (default 0 (Some pa)) with pa.
  destruct (Z.eqb_spec pa 0) as [->|_]; [destruct Hok; lia|].
  destruct (chunk_bounds va max Hpos) as (Hn & Hpg & Hnext).
  set (n := Z.min (PGSIZE - (va - PGROUNDDOWN va)) max) in *.
  unfold kgets. unfold kbind at 1. rewrite pa_offset.
  replace (Z.to_nat max) with (Z.to_nat n + Z.to_nat (max - n))%nat by lia.
  rewrite (copyinstr_page_spec mp _ va pa) by (done || lia).
  destruct (copyinstr_page _ _ _) as [bs []]; cbn [fst snd]; [done|].
  rewrite (kbind_Ok _ _ _ _ _ (IH (PGROUNDDOWN va + PGSIZE) (max - n)
    ltac:(pose proof (down_nonneg va Hva); unfold PGSIZE; lia) ltac:(lia))).
  unfold kret. f_equal. destruct (decide (n < max)) as [Hlt|].
  - rewrite Hnext, Z2Nat.id by (done || lia). by destruct (read_str _ _ _).
  - by assert (max - n = 0) as -> by lia.
Qed.

(** [copyinstr] reads the string at [va], if it ends before [max] bytes and
    before an unmapped page. *)
Lemma copyinstr_spec va max F T mp l s :
  uspace kend root F T mp l s -> no_user_top mp -> 0 <= va -> 0 <= max ->
  copyinstr root va max s = Ok (read_str (ubyte mp (kmem s)) (Z.to_nat max) va) s.
Proof. intros. eapply copyinstr_loop_spec; try done. lia. Qed.

(** ** The interface *)

(** The address space at [root], as the rest of the kernel uses it.  Negative
    numbers are no addresses. *)
Definition vm_copyin s (va n : Z) : option (list Z) :=
  if va <? 0 then None
  else match Vm.copyin root va n s with Ok (bs, true) _ => Some bs | _ => None end.

Definition vm_copyin_part s (va n : Z) : list Z :=
  if va <? 0 then []
  else match Vm.copyin root va n s with Ok (bs, _) _ => bs | _ => [] end.

Definition vm_copyout s (va : Z) (bs : list Z) : kstate * bool :=
  if va <? 0 then (s, false)
  else match Vm.copyout root va bs s with Ok r s' => (s', r =? 0) | _ => (s, false) end.

Definition vm_mem : UserMem kstate := 
  {| UserMem.copyin := vm_copyin; UserMem.copyin_part := vm_copyin_part;
     UserMem.copyout := vm_copyout |}.

Definition vm_wf s : Prop :=
  exists F T mp l, uspace kend root F T mp l s /\ no_user_top mp.

Lemma copyin_loop_length k va len s r s' :
  0 <= len <= Z.of_nat k -> copyin_loop k root va len s = Ok r s' ->
  if r.2 then Z.of_nat (length r.1) = len else Z.of_nat (length r.1) <= len.
Proof.
  revert va len s r s'. induction k as [|k IH]; intros va len s r s' Hlen Hr; cbn [copyin_loop] in Hr.
  { injection Hr as <- _. cbn. lia. }
  destruct (Z.ltb_spec 0 len) as [Hpos|]; [|injection Hr as <- _; cbn; lia].
  kinv Hr. destruct (_ =? 0); [injection Hr as <- _; cbn; lia|].
  destruct (chunk_bounds va len Hpos) as (Hn & _).
  set (n := Z.min (PGSIZE - (va - PGROUNDDOWN va)) len) in *.
  kinv Hr. unfold kgets in Hrun0. injection Hrun0 as <- <-. unfold kret in Hr.
  injection Hr as <- _. apply IH in Hrun1; [|lia]. cbn [fst snd].
  rewrite length_app, bytes_at_length. destruct r2 as [rb []]; cbn in *; lia.
Qed.

Lemma vm_copyin_spec s va n F T mp l :
  uspace kend root F T mp l s -> no_user_top mp -> 0 <= va ->
  vm_copyin s va n = read_bytes (ubyte mp (kmem s)) (Z.to_nat n) va.
Proof.
  intros Hus Htop Hva. unfold vm_copyin. destruct (Z.ltb_spec va 0); [lia|].
  destruct (copyin_spec va n F T mp l s Hus Htop Hva) as ([bs ok] & -> & H1 & _).
  rewrite H1. by destruct ok.
Qed.

Definition vm_laws : @UserMemLaws kstate vm_mem.
Proof.
  refine (@Build_UserMemLaws kstate vm_mem vm_wf _ _ _ _ _ _ _);
    cbn [UserMem.copyin UserMem.copyin_part UserMem.copyout vm_mem].
  - intros s va n bs Hn. unfold vm_copyin. destruct (va <? 0); [done|].
    destruct (Vm.copyin root va n s) as [[b []] s'| |] eqn:E; [|done..]. intros [= <-].
    apply copyin_loop_length in E; [done|lia].
  - intros s va n Hn _. unfold vm_copyin_part. destruct (va <? 0); [cbn; lia|].
    destruct (Vm.copyin root va n s) as [[b ok] s'| |] eqn:E; [|cbn; lia..].
    apply copyin_loop_length in E; [|lia]. cbn in E. destruct ok; lia.
  - intros s va bs (F & T & mp & l & Hus & Htop). unfold vm_copyout.
    destruct (Z.ltb_spec va 0); [by exists F, T, mp, l|].
    destruct (copyout_spec va bs F T mp l s Hus Htop) as (ws & rest & s' & _ & -> & Hus' & _); [done|].
    by exists F, T, mp, l.
  - intros s va bs s' (F & T & mp & l & Hus & Htop). unfold vm_copyout.
    destruct (Z.ltb_spec va 0) as [|Hva]; [done|].
    destruct (copyout_spec va bs F T mp l s Hus Htop Hva) as (ws & rest & s1 & -> & -> & Hus' & Hw & _).
    destruct rest; [|done]. intros [= <-]. rewrite app_nil_r.
    rewrite (vm_copyin_spec _ _ _ _ _ _ _ Hus' Htop Hva), Nat2Z.id.
    apply read_bytes_list. intros i b Hi. rewrite Hw. unfold written.
    apply lookup_lt_Some in Hi as Hlt. rewrite decide_True by lia. rewrite <- Hi. f_equal. lia.
  - intros s va bs s' b r va' n (F & T & mp & l & Hus & Htop). unfold vm_copyout.
    destruct (Z.ltb_spec va 0) as [|Hva]; [by intros [= <- <-]|].
    destruct (copyout_spec va bs F T mp l s Hus Htop Hva) as (ws & rest & s1 & -> & -> & Hus' & Hw & _).
    intros [= <- _] Hdisj. destruct (Z.ltb_spec va' 0) as [|Hva'].
    { unfold vm_copyin. by destruct (Z.ltb_spec va' 0); [|lia]. }
    rewrite (vm_copyin_spec _ _ _ _ _ _ _ Hus Htop Hva').
    rewrite (vm_copyin_spec _ _ _ _ _ _ _ Hus' Htop Hva'). intros <-. apply read_bytes_ext.
    intros i Hi. rewrite Hw. unfold written. rewrite length_app in Hdisj.
    by rewrite decide_False by lia.
  - intros s va n m (F & T & mp & l & Hus & Htop) Hn Hm. destruct (Z.ltb_spec va 0) as [|Hva].
    { unfold vm_copyin. by rewrite (proj2 (Z.ltb_lt va 0)). }
    rewrite !(vm_copyin_spec _ _ _ _ _ _ _ Hus Htop) by lia.
    rewrite Z2Nat.inj_add, read_bytes_app, Z2Nat.id by done. done.
  - intros s va bs r (F & T & mp & l & Hus & Htop) Hr. unfold vm_copyout.
    destruct (Z.ltb_spec va 0) as [|Hva].
    { unfold vm_copyin in Hr. by destruct (Z.ltb_spec va 0); [|lia]. }
    rewrite (vm_copyin_spec _ _ _ _ _ _ _ Hus Htop Hva), Nat2Z.id in Hr.
    destruct (copyout_spec va bs F T mp l s Hus Htop Hva) as (ws & rest & s1 & Hbs & -> & _ & _ & Hn).
    destruct rest as [|x rest]; [done|]. exfalso.
    assert (read_bytes (ubyte mp (kmem s)) (length bs) va = None) as Hnone; [|congruence].
    apply (read_bytes_None _ _ _ (va + Z.of_nat (length ws))); [by apply ubyte_None, Hn|].
    rewrite Hbs, length_app. cbn. lia.
Defined.
End Copy.

(** ** Theorems *)

(** C30. Copying between kernel and user memory page by page is copying byte by
    byte.  In a process whose user bytes are [ubyte mp (kmem s)]: [copyin]
    returns the bytes asked for if all are mapped for the user, and -1 after
    storing a prefix of them otherwise; [copyinstr] returns the string if it ends in time and in mapped
    memory; [copyout] changes exactly the bytes it stores, which are all of
    them, or those before the first address not mapped for the user when it
    returns -1.  None of the three panics, whatever the address and length,
    and [copyin] and [copyinstr] change nothing. *)
Theorem copy_by_bytes kend root F T mp l s va len bs :
  0 < kend -> uspace kend root F T mp l s -> no_user_top mp -> 0 <= va -> 0 <= len ->
  (exists r, Vm.copyin root va len s = Ok r s /\ copied (ubyte mp (kmem s)) va len r) /\
  copyinstr root va len s = Ok (read_str (ubyte mp (kmem s)) (Z.to_nat len) va) s /\
  exists ws rest s', bs = ws ++ rest /\
    Vm.copyout root va bs s = Ok (match rest with [] => 0 | _ => -1 end) s' /\
    uspace kend root F T mp l s' /\
    (forall i, ubyte mp (kmem s') i = written (ubyte mp (kmem s)) va ws i) /\
    (rest <> [] -> ubyte mp (kmem s) (va + Z.of_nat (length ws)) = None).
Proof.
  intros Hk Hus Htop Hva Hlen. split; [by eapply copyin_spec|]. split; [by eapply copyinstr_spec|].
  destruct (copyout_spec kend Hk root va bs F T mp l s Hus Htop Hva)
    as (ws & rest & s' & ? & ? & ? & ? & Hn).
  exists ws, rest, s'. split_and!; try done. intros Hr. by apply ubyte_None, Hn.
Qed.

(** Reading and writing across a page boundary and past the end of a process of
    three pages. *)
Lemma copy_by_bytes_witness :
  exists root mp s s', Vm.copyout root 12286 [1; 2; 3] s = Ok (-1) s' /\
    ubyte mp (kmem s') 12286 = Some 1 /\ ubyte mp (kmem s') 12287 = Some 2 /\
    exists r, Vm.copyin root 4095 2 s = Ok r s /\ copied (ubyte mp (kmem s)) 4095 2 r.
Proof.
  destruct (three_pages PTE_W (or_introl eq_refl)) as (root & F & T & mp & l & s & Hus & Hmp & Hfl & _).
  assert (no_user_top mp) as Htop.
  { intros n v Hv _. assert (0 <= n < npages 9000) as Hn by (apply Hmp; by eexists).
    change (npages 9000) with 3 in Hn. change ULIM with 67108862. lia. }
  assert (forall i, 0 <= i < 12288 -> ubyte mp (kmem s) i <> None) as Hin.
  { intros i Hi. unfold ubyte, upa. destruct (proj2 (Hmp (i / PGSIZE))) as [v Hv].
    - change (npages 9000) with 3. unfold PGSIZE. Z.to_euclidean_division_equations. lia.
    - by rewrite Hv, <- (has_flags v), (Hfl _ _ Hv). }
  destruct (copy_by_bytes (PHYSTOP - 8 * PGSIZE) root F T mp l s 12286 0 [1; 2; 3] ltac:(done) Hus Htop ltac:(done) ltac:(done))
    as (_ & _ & ws & rest & s' & Hbs & Ho & _ & Hw & Hf).
  destruct (copy_by_bytes (PHYSTOP - 8 * PGSIZE) root F T mp l s 4095 2 [] ltac:(done) Hus Htop ltac:(done) ltac:(done))
    as (Hi & _).
  assert (ubyte mp (kmem s) 12288 = None) as Hend.
  { unfold ubyte, upa. change (12288 / PGSIZE) with 3.
    destruct (mp !! 3) eqn:E; [|done]. assert (0 <= 3 < npages 9000) as H3 by (apply Hmp; by eexists).
    change (npages 9000) with 3 in H3. lia. }
  assert (ws = [1; 2]) as ->.
  { destruct ws as [|a [|b [|c ws]]]; cbn in Hbs; simplify_eq; try done.
    - by destruct (Hin 12286 ltac:(lia) (Hf ltac:(done))).
    - by destruct (Hin 12287 ltac:(lia) (Hf ltac:(done))).
    - exfalso. specialize (Hw 12288). unfold written in Hw. rewrite decide_True in Hw by (cbn; lia).
      unfold ubyte in Hw, Hend. by destruct (upa mp 12288). }
  cbn in Hbs. simplify_eq. exists root, mp, s, s'. split; [done|].
  split; [by rewrite Hw|]. split; [by rewrite Hw|done].
Defined.

(** [copyout] does not look at the write permission: the kernel stores into
    a user page that is mapped read-only, such as the text of a program, where
    a store by the program itself would fault. *)
Theorem copyout_writes_readonly_pages kend root F T mp l s n v b :
  0 < kend -> uspace kend root F T mp l s -> no_user_top mp -> mp !! n = Some v ->
  has v PTE_U = true -> has v PTE_W = false ->
  exists s', Vm.copyout root (n * PGSIZE) [b] s = Ok 0 s' /\
    uspace kend root F T mp l s' /\ ubyte mp (kmem s') (n * PGSIZE) = Some b.
Proof.
  intros Hk Hus Htop Hv HU _. destruct (sp_valid _ _ _ _ _ _ (proj1 Hus) n v Hv) as [[Hn _] _].
  destruct (copyout_spec kend Hk root (n * PGSIZE) [b] F T mp l s Hus Htop)
    as (ws & rest & s' & Hbs & Ho & Hus' & Hw & Hf); [unfold PGSIZE; lia|].
  destruct ws as [|c ws]; cbn in Hbs; simplify_eq.
  - exfalso. specialize (Hf ltac:(done)). cbn in Hf. rewrite Z.add_0_r in Hf.
    unfold upa in Hf. by rewrite vpn_va, Hv, HU in Hf.
  - destruct ws, rest; try done. exists s'. split; [done|]. split; [done|].
    rewrite Hw. unfold written. by rewrite decide_True, Z.sub_diag by (cbn; lia).
Qed.

(** A program whose pages are readable and executable only. *)
Lemma copyout_writes_readonly_pages_witness :
  exists root mp v s s', mp !! 0 = Some v /\ has v PTE_W = false /\
    Vm.copyout root 0 [42] s = Ok 0 s' /\ ubyte mp (kmem s') 0 = Some 42.
Proof.
  destruct (three_pages PTE_X (or_intror eq_refl)) as (root & F & T & mp & l & s & Hus & Hmp & Hfl & _).
  destruct (proj2 (Hmp 0)) as [v Hv]; [done|]. pose proof (Hfl _ _ Hv) as Ef.
  destruct (copyout_writes_readonly_pages (PHYSTOP - 8 * PGSIZE) root F T mp l s 0 v 42 ltac:(done) Hus)
    as (s' & Ho & _ & Hb); [|done|by rewrite <- has_flags, Ef|by rewrite <- has_flags, Ef|].
  - intros n w Hn _. assert (0 <= n < npages 9000) as Hr by (apply Hmp; by eexists).
    change (npages 9000) with 3 in Hr. change ULIM with 67108862. lia.
  - exists root, mp, v, s, s'. split; [done|]. split; [by rewrite <- has_flags, Ef|done].
Defined.
