(* ===== verification/VmFork.v ===== *)
(** Copying an address space for [fork] ([uvmcopy] of [kernel/vm.c]).

    The child's pages are fresh copies of the parent's with the same
    permissions, and nothing of the parent changes; a copy that runs out of
    memory leaves the child's map as it was. *)

From stdpp Require Import functions.
From S2P Require Import Prelude Mem Kalloc Vm VmSpace VmOps VmCopy.

Section Fork.
Context (kend : Z) (kend_pos : 0 < kend) (old new : Z).
Implicit Types (F : gset Z) (T : gmap Z (nat * Z)) (mp : gmap Z Z) (l : list Z) (s : kstate).

Abbreviation uspace := (uspace kend new).

(** The parent: tables and frames outside the pages [F] of the child and the
    free list, [np] pages mapped as leaves. *)
Record parent F T mp (np : Z) (m : mem) : Prop := {
  pa_maps : maps kend old T mp m;
  pa_tables : forall q, is_Some (T !! q) -> q ∉ F;
  pa_pages : forall n, 0 <= n < np -> exists v, mp !! n = Some v /\
    PTE_FLAGS v <> PTE_V /\ page_ok kend (PTE2PA v) /\ (PTE2PA v ∉ F);
}.

Lemma not_in_page F p a :
  (forall q, q ∈ F -> page_ok kend q) -> p ∉ F -> p mod PGSIZE = 0 -> in_page p a ->
  forall q, q ∈ F -> ~ in_page q a.
Proof.
  intros HF Hp Hal Ha q Hq Hb. destruct (HF q Hq) as [Hq0 _].
  by rewrite (in_page_inj _ _ _ Hq0 Hal Hb Ha) in Hq.
Qed.

(** Work on the child does not touch the parent. *)
Lemma parent_frame F T mp np m m' :
  parent F T mp np m -> (forall q, q ∈ F -> page_ok kend q) ->
  outside (fun q => q ∈ F) m m' ->
  parent F T mp np m' /\
  forall n v o, mp !! n = Some v -> 0 <= n < np -> 0 <= o < PGSIZE ->
    m' (PTE2PA v + o) = m (PTE2PA v + o).
Proof.
  intros [Hmaps Htab Hpg] HF Hout. split.
  - split; [|done|done]. eapply maps_frame; [done|exact Hmaps|]. intros q a Hq Ha. apply Hout.
    apply (not_in_page F q a); auto. destruct Hq as [k Hk].
    by destruct (tables_page _ _ _ _ (mp_tables _ _ _ _ _ Hmaps) _ _ Hk).
  - intros n v o Hn Hr Ho. apply Hout. destruct (Hpg n Hr) as (v' & Hv' & _ & [Hal _] & Hnin).
    assert (v' = v) as -> by congruence. apply (not_in_page F (PTE2PA v)); auto.
    unfold in_page. lia.
Qed.

Lemma flags_bound v : 0 <= PTE_FLAGS v < 1024.
Proof.
  unfold PTE_FLAGS. change 0x3FF with (Z.ones 10). rewrite Z.land_ones by lia.
  apply Z.mod_pos_bound. lia.
Qed.

Lemma flags_valid v : has v PTE_V = true -> Z.lor (PTE_FLAGS v) PTE_V = PTE_FLAGS v.
Proof.
  unfold has. intros Hv. apply Z.bits_inj'. intros n Hn. rewrite Z.lor_spec.
  destruct (decide (n = 0)) as [->|Hne].
  - replace (Z.testbit (PTE_FLAGS v) 0) with true; [done|]. symmetry.
    unfold PTE_FLAGS. rewrite Z.land_spec. cbn [Z.testbit Z.odd]. rewrite andb_true_r.
    destruct (Z.testbit v 0) eqn:E; [done|]. exfalso.
    replace (Z.land v PTE_V) with 0 in Hv; [done|]. symmetry. change PTE_V with (Z.ones 1).
    rewrite Z.land_ones by lia. change (2 ^ 1) with 2. by rewrite <- Z.bit0_mod, E.
  - assert (Z.testbit PTE_V n = false) as ->; [|by rewrite orb_false_r].
    change PTE_V with (2 ^ 0). rewrite Z.pow2_bits_false; [done|lia].
Qed.

(** Permissions and contents of the parent's pages. *)
Definition perm_of mp (n : Z) : Z := PTE_FLAGS (default 0 (mp !! n)).
Definition content_of mp (m : mem) (n o : Z) : Z := m (PTE2PA (default 0 (mp !! n)) + o).

Lemma uspace_pages F T mp l s : uspace F T mp l s -> forall q, q ∈ F -> page_ok kend q.
Proof. intros Hus q. by apply (uspace_page_ok kend new F T mp l s). Qed.

(** One iteration of [uvmcopy]: it undoes the copy, or maps a copy of page [n]
    and goes on. *)
Lemma uvmcopy_iter k n np sz F T Tp mp mpp l s :
  let go k n := uvmcopy_loop kend k old new sz (n * PGSIZE) in
  let perm := perm_of mpp n in
  uspace F T mp l s -> parent F Tp mpp np (kmem s) ->
  0 <= n < np -> n < ULIM -> n * PGSIZE < sz -> mp !! n = None ->
  (exists T' l' s',
     go (S k) n s = (uvmunmap kend new 0 n true ;;; kret (-1)) s' /\
     uspace F T' mp l' s' /\ outside (spare F mp) (kmem s) (kmem s')) \/
  (exists pg m T' l' s', go (S k) n s = go k (n + 1) s' /\
     uspace F T' (<[n := make_pte pg perm]> mp) l' s' /\
     outside (eq pg) (kmem s) m /\
     (forall o, 0 <= o < PGSIZE -> m (pg + o) = content_of mpp (kmem s) n o) /\
     spare F mp pg /\ page_ok kend pg /\
     outside (spare F (<[n := make_pte pg perm]> mp)) m (kmem s')).
Proof.
  intros go perm Hus Hpar Hn Hlim Hlt Hmpn. subst go.
  destruct (pa_pages _ _ _ _ _ Hpar n Hn) as (v & Hv & Hfl & Hok & HnF).
  destruct (mapped_slot kend kend_pos old n v Tp mpp s (pa_maps _ _ _ _ _ Hpar) Hv)
    as (q & Hq & Hw & Hnz & Hld).
  destruct (mp_valid _ _ _ _ _ (pa_maps _ _ _ _ _ Hpar) n v Hv) as [_ HV].
  assert (perm = PTE_FLAGS v) as Eperm by (unfold perm, perm_of; by rewrite Hv).
  cbn [uvmcopy_loop]. destruct (Z.ltb_spec (n * PGSIZE) sz); [|lia].
  rewrite (kbind_Ok _ _ _ _ _ Hw). destruct (Z.eqb_spec (entry q (PX 0 (n * PGSIZE))) 0); [done|].
  rewrite (kbind_Ok _ _ _ _ _ (load_Ok _ s)), Hld, HV, vpn_va. cbn [negb].
  destruct l as [|pg l].
  { left. rewrite (kbind_Ok _ _ _ _ _ (kalloc_empty kend _ (sp_free _ _ _ _ _ _ (proj1 Hus)))).
    exists T, [], s. split; [done|]. split; [done|apply outside_refl]. }
  destruct (map_fresh _ kend_pos _ n perm _ _ _ _ _ _ Hus) as (s1 & Hka & Hnz' & Hs1 & Hsp & Hok' & Hm);
    [lia|done|rewrite Eperm; apply flags_bound|by rewrite Eperm, flags_valid|].
  rewrite (kbind_Ok _ _ _ _ _ Hka). destruct (Z.eqb_spec pg 0) as [|_]; [done|].
  set (m := memmove (kmem s1) pg (PTE2PA v) PGSIZE).
  assert (outside (eq pg) (kmem s1) m) as Hms.
  { intros a Ha. unfold m. rewrite memmove_spec by done. specialize (Ha pg eq_refl).
    unfold in_page in Ha. zcases; cbn [andb]; (done || lia). }
  rewrite (kbind_Ok _ _ _ _ _ (eq_refl : move pg (PTE2PA v) PGSIZE s1 =
    Ok tt {| kmem := m; freelist := freelist s1 |})), <- Eperm.
  assert (outside (eq pg) (kmem s) m) as Hm0 by (by eapply outside_trans).
  destruct (Hm _ Hms) as
    [(T' & l' & s' & Hmap & Hus' & Hout')|(T' & s' & s'' & Hmap & Hkf & Hus' & Hout')];
    rewrite (kbind_Ok _ _ _ _ _ Hmap); cbn [Z.eqb negb].
  - right. exists pg, m, T', l', s'. split_and!; try done.
    + do 2 f_equal. lia.
    + intros o Ho. unfold m, content_of. rewrite memmove_spec, Hv by done.
      change (default 0 (Some v)) with v. 
      replace (PTE2PA v + (pg + o - pg)) with (PTE2PA v + o) by lia.
      zcases; cbn [andb]; try lia. apply Hs1. intros ? <- Hb.
      destruct Hok as [Hal _], Hok' as [Hal' _], Hsp as [HpF _].
      assert (pg = PTE2PA v) as E; [|by rewrite E in HpF].
      eapply in_page_inj; [done|done|exact Hb|]. unfold in_page. lia.
  - left. rewrite (kbind_Ok _ _ _ _ _ Hkf). exists T', [pg], s''. split; [done|].
    split; [done|]. eapply outside_trans; [|exact Hout'].
    eapply outside_weaken, Hm0. by intros ? <-.
Qed.

Lemma spare_in_F F mp m m' : outside (spare F mp) m m' -> outside (fun q => q ∈ F) m m'.
Proof. apply outside_weaken. by intros q [? _]. Qed.

Lemma uvmcopy_loop_spec k n sz F T Tp mp mp0 mpp l s s0 :
  let np := npages sz in
  let ext n mp m := extended kend (perm_of mpp) (content_of mpp (kmem s0)) 0 n mp0 mp m in
  uspace F T mp l s -> parent F Tp mpp np (kmem s0) ->
  0 <= n <= np -> np <= ULIM -> np - n < Z.of_nat k ->
  (forall i, 0 <= i < np -> mp0 !! i = None) ->
  ext n mp (kmem s) -> outside (spare F mp0) (kmem s0) (kmem s) ->
  exists r T' mp' l' s', uvmcopy_loop kend k old new sz (n * PGSIZE) s = Ok r s' /\
    uspace F T' mp' l' s' /\ outside (spare F mp0) (kmem s0) (kmem s') /\
    (r = 0 /\ ext np mp' (kmem s') \/ r = -1 /\ mp' = mp0).
Proof.
  intros np ext Hus Hpar0. revert n T mp l s Hus.
  induction k as [|k IH]; intros n T mp l s Hus Hn Hlim Hk Hfree Hext Hout; [lia|].
  pose proof (npages_bounds sz) as Hb. fold np in Hb.
  destruct (parent_frame _ _ _ _ _ _ Hpar0 (uspace_pages _ _ _ _ _ Hus) (spare_in_F _ _ _ _ Hout))
    as [Hpar Hcon].
  destruct (decide (n * PGSIZE < sz)) as [Hlt|Hge].
  2: { cbn [uvmcopy_loop]. destruct (Z.ltb_spec (n * PGSIZE) sz); [lia|].
       assert (n = np) as -> by (unfold PGSIZE in *; lia). exists 0, T, mp, l, s. eauto 10. }
  assert (n < np) as Hnn by (unfold PGSIZE in *; lia).
  assert (mp !! n = None) as Hmpn.
  { specialize (Hext n). rewrite decide_False in Hext by lia. rewrite Hext. apply Hfree. lia. }
  assert (forall i, 0 <= i < n -> mp0 !! i = None) as Hfree' by (intros; apply Hfree; lia).
  destruct (uvmcopy_iter k n np sz _ _ _ _ _ _ _ Hus Hpar ltac:(lia) ltac:(lia) Hlt Hmpn) as
    [(T1 & l1 & s1 & -> & Hus1 & Hout1)|(pg & m & T1 & l1 & s1 & -> & Hus1 & Hm & Hz & Hsp & Hok & Hout1)].
  - destruct (uvmunmap_spec kend kend_pos new (Z.to_nat n) 0 F T1 mp l1 s1 Hus1)
      as (l' & s' & Hu & Hus' & Hout'); [done|lia| |].
    { intros i Hi. apply (extended_mapped _ _ _ _ _ _ _ _ _ Hext). lia. }
    rewrite Z2Nat.id in Hu by lia. rewrite (kbind_Ok _ _ _ _ _ Hu).
    pose proof (unmap_extended _ _ _ _ _ _ _ _ Hext Hfree' ltac:(lia)) as E.
    rewrite Z.sub_0_r in E. rewrite E in Hus', Hout'.
    exists (-1), T1, mp0, l', s'. split; [done|]. split; [done|]. split; [|by right].
    eapply outside_trans, Hout'. eapply outside_trans; [exact Hout|].
    eapply outside_weaken, Hout1. intros p. by apply (extended_spare _ _ _ _ _ _ _ _ _ _ Hext).
  - assert (ext (n + 1) (<[n := make_pte pg (perm_of mpp n)]> mp) (kmem s1)) as Hext1.
    { apply (extended_step _ kend_pos new _ _ 0 n F T mp mp0 l s m s1 pg); try done; try lia.
      - intros o Ho. rewrite Hz by done. unfold content_of.
        destruct (pa_pages _ _ _ _ _ Hpar0 n ltac:(lia)) as (v & Hv & _). rewrite Hv.
        eapply Hcon; (done || lia).
      - intros i Hi. apply flags_bound.
      - by eauto. }
    apply (IH (n + 1) T1 _ l1 s1 Hus1); try done; try lia.
    eapply outside_trans; [exact Hout|]. eapply outside_trans.
    + eapply outside_weaken, Hm. intros ? <-. by eapply (extended_spare _ _ _ _ _ _ _ _ _ _ Hext).
    + eapply outside_weaken, Hout1. intros p. apply (extended_spare _ _ _ _ _ _ _ _ _ _ Hext1).
      intros; apply Hfree; lia.
Qed.

Lemma uvmcopy_spec sz F T Tp mp mpp l s :
  uspace F T mp l s -> parent F Tp mpp (npages sz) (kmem s) ->
  0 <= sz <= ULIM * PGSIZE -> (forall i, 0 <= i < npages sz -> mp !! i = None) ->
  exists r T' mp' l' s', uvmcopy kend old new sz s = Ok r s' /\
    uspace F T' mp' l' s' /\ outside (spare F mp) (kmem s) (kmem s') /\
    (r = 0 /\ extended kend (perm_of mpp) (content_of mpp (kmem s)) 0 (npages sz) mp mp' (kmem s')
     \/ r = -1 /\ mp' = mp).
Proof.
  intros Hus Hpar Hsz Hfree. unfold uvmcopy. change 0 with (0 * PGSIZE) at 1.
  pose proof (npages_bounds sz) as Hb. pose proof (npages_ulim sz ltac:(lia)).
  apply uvmcopy_loop_spec with (T := T) (Tp := Tp) (mp := mp) (l := l); try done.
  - unfold PGSIZE in *. lia.
  - assert (npages sz <= sz / PGSIZE + 1).
    { unfold PGSIZE in *. Z.to_euclidean_division_equations. lia. }
    lia.
  - intros i. by rewrite decide_False by lia.
Qed.
End Fork.

(** ** The copy, byte by byte *)

Lemma user_flag pg perm :
  pa_ok pg -> 0 <= perm < 1024 -> has (make_pte pg perm) PTE_U = has perm PTE_U.
Proof.
  intros Hpg Hperm. destruct (make_pte_spec pg perm Hpg Hperm) as (_ & _ & _ & E).
  rewrite <- has_flags, E by done. unfold has. rewrite Z.land_lor_distr_l.
  change (Z.land PTE_V PTE_U) with 0. by rewrite Z.lor_0_r.
Qed.

Lemma extended_ubyte kend mpp m0 n mp mp' m va :
  0 < kend -> extended kend (perm_of mpp) (content_of mpp m0) 0 n mp mp' m ->
  (forall i, 0 <= i < n -> is_Some (mpp !! i)) -> 0 <= va < n * PGSIZE ->
  ubyte mp' m va = ubyte mpp m0 va.
Proof.
  intros Hk Hext Hmpp Hva. unfold ubyte, upa.
  assert (0 <= va / PGSIZE < n) as Hn.
  { split; [apply Z.div_pos; (done || lia)|]. apply Z.div_lt_upper_bound; [done|]. lia. }
  specialize (Hext (va / PGSIZE)). rewrite decide_True in Hext by done.
  destruct Hext as (pg & Hpg & Hok & Hcon). destruct (Hmpp _ Hn) as [v Hv].
  pose proof (page_pa_ok kend pg Hk Hok) as Hpa.
  assert (perm_of mpp (va / PGSIZE) = PTE_FLAGS v) as Hperm by (unfold perm_of; by rewrite Hv).
  rewrite Hpg, Hv, Hperm, user_flag, has_flags by (done || apply flags_bound).
  destruct (has v PTE_U); [|done].
  destruct (make_pte_spec pg (PTE_FLAGS v) Hpa (flags_bound v)) as (_ & _ & -> & _).
  f_equal. rewrite Hcon by apply page_offset. unfold content_of. by rewrite Hv.
Qed.

(** Page [n] of the child: the parent's flags and bytes in a frame of its own. *)
Definition copied_page (mpp : gmap Z Z) (m0 : mem) (mp' : gmap Z Z) (m : mem) (n : Z) : Prop :=
  exists v v', mpp !! n = Some v /\ mp' !! n = Some v' /\ PTE_FLAGS v' = PTE_FLAGS v /\
    forall o, 0 <= o < PGSIZE -> m (PTE2PA v' + o) = m0 (PTE2PA v + o).

Lemma extended_page kend mpp m0 n mp mp' m i :
  0 < kend -> extended kend (perm_of mpp) (content_of mpp m0) 0 n mp mp' m ->
  (exists v, mpp !! i = Some v /\ has v PTE_V = true) -> 0 <= i < n ->
  copied_page mpp m0 mp' m i.
Proof.
  intros Hk Hext (v & Hv & HV) Hi. specialize (Hext i). rewrite decide_True in Hext by done.
  destruct Hext as (pg & Hpg & Hok & Hcon). pose proof (page_pa_ok kend pg Hk Hok) as Hpa.
  assert (perm_of mpp i = PTE_FLAGS v) as Hperm by (unfold perm_of; by rewrite Hv).
  rewrite Hperm in Hpg. destruct (make_pte_spec pg (PTE_FLAGS v) Hpa (flags_bound v)) as (_ & _ & Ep & Ef).
  exists v, (make_pte pg (PTE_FLAGS v)). split_and!; [done|done|by rewrite Ef, flags_valid|].
  intros o Ho. rewrite Ep, Hcon by done. unfold content_of. by rewrite Hv.
Qed.

(** ** Theorems *)

(** C15. [uvmcopy] gives [fork] a faithful and separate copy.  [F] are the pages
    of the child and the free pages, none of which belongs to the parent.  If
    the result is 0, every page below the (rounded) size is mapped in the child
    with the parent's permissions and contents, so that a user access reads
    the same byte in the child as in the parent or fails in both; if it is -1,
    the child's map is as it was and its pages are returned.  In both
    cases the parent is untouched and shares no page with the child, and every
    page of [F] is accounted for. *)
Theorem uvmcopy_copies kend old new sz F T Tp mp mpp l s :
  0 < kend -> uspace kend new F T mp l s -> parent kend old F Tp mpp (npages sz) (kmem s) ->
  0 <= sz <= ULIM * PGSIZE -> (forall i, 0 <= i < npages sz -> mp !! i = None) ->
  exists r T' mp' l' s', uvmcopy kend old new sz s = Ok r s' /\
    uspace kend new F T' mp' l' s' /\ parent kend old F Tp mpp (npages sz) (kmem s') /\
    (forall va, 0 <= va < npages sz * PGSIZE -> ubyte mpp (kmem s') va = ubyte mpp (kmem s) va) /\
    (r = 0 /\ (forall i, 0 <= i < npages sz -> copied_page mpp (kmem s) mp' (kmem s') i) /\
     (forall va, 0 <= va < npages sz * PGSIZE -> ubyte mp' (kmem s') va = ubyte mpp (kmem s) va)
     \/ r = -1 /\ mp' = mp).
Proof.
  intros Hk Hus Hpar Hsz Hfree.
  destruct (uvmcopy_spec kend Hk old new sz F T Tp mp mpp l s Hus Hpar Hsz Hfree)
    as (r & T' & mp' & l' & s' & Hr & Hus' & Hout & Hres).
  destruct (parent_frame kend Hk old _ _ _ _ _ _ Hpar (uspace_pages kend new _ _ _ _ _ Hus)
    (spare_in_F _ _ _ _ Hout)) as [Hpar' Hcon].
  exists r, T', mp', l', s'. split; [done|]. split; [done|]. split; [done|]. split.
  - intros va Hva. unfold ubyte, upa. destruct (mpp !! (va / PGSIZE)) as [v|] eqn:Hv; [|done].
    destruct (has v PTE_U); [|done]. f_equal. eapply Hcon; [done| |apply page_offset].
    split; [apply Z.div_pos; (done || lia)|]. apply Z.div_lt_upper_bound; [done|]. lia.
  - destruct Hres as [[-> Hext]|[-> ->]]; [left|by right]. split; [done|]. split.
    + intros i Hi. eapply extended_page; try done.
      destruct (pa_pages _ _ _ _ _ _ _ Hpar i Hi) as (v & Hv & _). exists v. split; [done|].
      by apply (mp_valid _ _ _ _ _ (pa_maps _ _ _ _ _ _ _ Hpar) i v).
    + intros va Hva. eapply extended_ubyte; try done. intros i Hi.
      destruct (pa_pages _ _ _ _ _ _ _ Hpar i Hi) as (v & -> & _). by eexists.
Qed.

(** Copying a process of three pages: the child's table is new. *)
Lemma uvmcopy_copies_witness :
  let kend := PHYSTOP - 8 * PGSIZE in
  exists old new s r s', uvmcopy kend old new 9000 s = Ok r s' /\ (r = 0 \/ r = -1).
Proof.
  intros kend.
  destruct (three_pages PTE_W (or_introl eq_refl)) as (old & F & Tp & mpp & [|pg l] & s0 & [Hsp Hpt] & Hmpp & Hfl & _ & Hne); [done|].
  destruct (uvmcreate_spec kend ltac:(done) s0 pg l (sp_free _ _ _ _ _ _ Hsp)) as (s & _ & Hus & Hout).
  assert (forall q, q ∈ (list_to_set (pg :: l) : gset Z) <-> q ∈ pg :: l) as Hset
    by (intros q; apply elem_of_list_to_set).
  destruct (uvmcopy_copies kend old pg 9000 (list_to_set (pg :: l)) _ Tp _ mpp l s ltac:(done) Hus)
    as (r & T' & mp' & l' & s' & Hr & _ & _ & _ & Hres).
  - split.
    + eapply maps_frame; [done|eapply space_maps, Hsp|]. intros q a Hq Ha. apply Hout.
      intros ? <-. apply (table_not_page kend old Tp mpp (pg :: l) s0 q pg a); try done.
      * eapply sp_disj; [exact Hsp|]. set_solver +.
      * eapply (free_pages_page_ok kend s0 (pg :: l) pg); [apply Hsp|]. set_solver +.
    + intros q Hq. rewrite Hset. intros Hin. rewrite (sp_disj _ _ _ _ _ _ Hsp q Hin) in Hq.
      by destruct Hq.
    + intros n Hn. destruct (proj2 (Hmpp n) Hn) as [v Hv]. exists v. split; [done|].
      destruct (pt_leaf _ _ _ _ _ Hpt n v Hv) as (? & ? & ? & _).
      { change (npages 9000) with 3 in Hn. change ULIM with 67108862. lia. }
      rewrite Hset. done.
  - done.
  - intros. by rewrite lookup_empty.
  - exists old, pg, s, r, s'. split; [exact Hr|]. destruct Hres as [[? _]|[? _]]; auto.
Defined.
