(* ===== verification/Proc.v ===== *)
(** Processes ([kernel/proc.c]).

    The process table, the page allocator and the files form one state.  A
    [struct proc *] is its index in the table.  A kernel function is run from its
    start, or from the wakeup that ends a [sleep], up to its return or the next
    [sleep] or [sched]; [wait_lock] and the process locks make each of the table
    operations below atomic.  The files are an interface, [ProcFiles]: what
    [fork], [exit] and [userinit] call in the file table and the inode cache. *)

From S2P Require Import Prelude Mem Kalloc Block Vm.

Inductive procstate : Type := UNUSED | USED | SLEEPING | RUNNABLE | RUNNING | ZOMBIE.

#[export] Instance procstate_eq_dec : EqDecision procstate.
Proof. solve_decision. Defined.

(** [struct proc]: a null pointer is [None], or 0 for a page. *)
Record proc : Type := Proc {
  p_state : procstate;
  p_chan : option chan;
  p_killed : Z;
  p_xstate : Z;
  p_pid : Z;
  p_parent : option Z;
  p_kstack : Z;
  p_sz : Z;
  p_pagetable : Z;
  p_trapframe : Z;
  p_context : list Z;
  p_ofile : list (option Z);
  p_cwd : option Z;
  p_name : list Z
}.

(** *** Assignments to the fields *)

Definition with_state (p : proc) (x : procstate) : proc :=
  Proc x (p_chan p) (p_killed p) (p_xstate p) (p_pid p) (p_parent p) (p_kstack p)
    (p_sz p) (p_pagetable p) (p_trapframe p) (p_context p) (p_ofile p) (p_cwd p) (p_name p).
Definition with_chan (p : proc) (x : option chan) : proc :=
  Proc (p_state p) x (p_killed p) (p_xstate p) (p_pid p) (p_parent p) (p_kstack p)
    (p_sz p) (p_pagetable p) (p_trapframe p) (p_context p) (p_ofile p) (p_cwd p) (p_name p).
Definition with_killed (p : proc) (x : Z) : proc :=
  Proc (p_state p) (p_chan p) x (p_xstate p) (p_pid p) (p_parent p) (p_kstack p)
    (p_sz p) (p_pagetable p) (p_trapframe p) (p_context p) (p_ofile p) (p_cwd p) (p_name p).
Definition with_xstate (p : proc) (x : Z) : proc :=
  Proc (p_state p) (p_chan p) (p_killed p) x (p_pid p) (p_parent p) (p_kstack p)
    (p_sz p) (p_pagetable p) (p_trapframe p) (p_context p) (p_ofile p) (p_cwd p) (p_name p).
Definition with_pid (p : proc) (x : Z) : proc :=
  Proc (p_state p) (p_chan p) (p_killed p) (p_xstate p) x (p_parent p) (p_kstack p)
    (p_sz p) (p_pagetable p) (p_trapframe p) (p_context p) (p_ofile p) (p_cwd p) (p_name p).
Definition with_parent (p : proc) (x : option Z) : proc :=
  Proc (p_state p) (p_chan p) (p_killed p) (p_xstate p) (p_pid p) x (p_kstack p)
    (p_sz p) (p_pagetable p) (p_trapframe p) (p_context p) (p_ofile p) (p_cwd p) (p_name p).
Definition with_sz (p : proc) (x : Z) : proc :=
  Proc (p_state p) (p_chan p) (p_killed p) (p_xstate p) (p_pid p) (p_parent p) (p_kstack p)
    x (p_pagetable p) (p_trapframe p) (p_context p) (p_ofile p) (p_cwd p) (p_name p).
Definition with_pagetable (p : proc) (x : Z) : proc :=
  Proc (p_state p) (p_chan p) (p_killed p) (p_xstate p) (p_pid p) (p_parent p) (p_kstack p)
    (p_sz p) x (p_trapframe p) (p_context p) (p_ofile p) (p_cwd p) (p_name p).
Definition with_trapframe (p : proc) (x : Z) : proc :=
  Proc (p_state p) (p_chan p) (p_killed p) (p_xstate p) (p_pid p) (p_parent p) (p_kstack p)
    (p_sz p) (p_pagetable p) x (p_context p) (p_ofile p) (p_cwd p) (p_name p).
Definition with_context (p : proc) (x : list Z) : proc :=
  Proc (p_state p) (p_chan p) (p_killed p) (p_xstate p) (p_pid p) (p_parent p) (p_kstack p)
    (p_sz p) (p_pagetable p) (p_trapframe p) x (p_ofile p) (p_cwd p) (p_name p).
Definition with_ofile (p : proc) (x : list (option Z)) : proc :=
  Proc (p_state p) (p_chan p) (p_killed p) (p_xstate p) (p_pid p) (p_parent p) (p_kstack p)
    (p_sz p) (p_pagetable p) (p_trapframe p) (p_context p) x (p_cwd p) (p_name p).
Definition with_cwd (p : proc) (x : option Z) : proc :=
  Proc (p_state p) (p_chan p) (p_killed p) (p_xstate p) (p_pid p) (p_parent p) (p_kstack p)
    (p_sz p) (p_pagetable p) (p_trapframe p) (p_context p) (p_ofile p) x (p_name p).
Definition with_name (p : proc) (x : list Z) : proc :=
  Proc (p_state p) (p_chan p) (p_killed p) (p_xstate p) (p_pid p) (p_parent p) (p_kstack p)
    (p_sz p) (p_pagetable p) (p_trapframe p) (p_context p) (p_ofile p) (p_cwd p) x.

(** [safestrcpy(p->name, s, sizeof(p->name))]. *)
Definition set_name (p : proc) (s : list Z) : proc :=
  with_name p (bytes_at (safestrcpy (two (p_name p) s) 0 FAR 16) 0 16).

(** Offsets in [struct trapframe], and its size. *)
Definition TF_kernel_satp : Z := 0.
Definition TF_kernel_sp : Z := 8.
Definition TF_kernel_trap : Z := 16.
Definition TF_epc : Z := 24.
Definition TF_kernel_hartid : Z := 32.
Definition TF_sp : Z := 48.
Definition TF_a0 : Z := 112.
Definition TF_a1 : Z := 120.
Definition TF_a7 : Z := 168.
Definition TRAPFRAME_SIZE : Z := 288.

(** ** What the process code needs from the files

    The operations may allocate and free pages (a pipe is a page).  [f_put] is
    [begin_op(); iput(ip); end_op()] and [f_root] is [namei("/")]. *)
Class ProcFiles (F : Type) : Type := {
  f_dup : Z -> M (kstate * F) Z;
  f_close : Z -> M (kstate * F) unit;
  f_idup : Z -> M (kstate * F) Z;
  f_put : Z -> M (kstate * F) unit;
  f_root : M (kstate * F) (option Z)
}.

Section Proc.
Context {F : Type} `{ProcFiles F}.
Context (kend trampoline forkret : Z).

(** [cpus] holds [c->proc] for each CPU. *)
Record pworld : Type := PWorld {
  procs : list proc;
  cpus : list (option Z);
  nextpid : Z;
  initproc : option Z;
  kpages : kstate;
  kfiles : F
}.

Definition set_procs (w : pworld) (t : list proc) : pworld :=
  {| procs := t; cpus := cpus w; nextpid := nextpid w; initproc := initproc w;
     kpages := kpages w; kfiles := kfiles w |}.

Definition get_proc (i : Z) : M pworld proc := fun w =>
  match zget (procs w) i with Some p => Ok p w | None => Panic "undefined access" end.

Definition put_proc (i : Z) (p : proc) : M pworld unit := fun w =>
  match zset (procs w) i p with Some t => Ok tt (set_procs w t) | None => Panic "undefined access" end.

Definition update (i : Z) (f : proc -> proc) : M pworld unit :=
  let! p := get_proc i in put_proc i (f p).

Definition on_files {A} (m : M (kstate * F) A) : M pworld A := fun w =>
  let up (x : kstate * F) :=
    {| procs := procs w; cpus := cpus w; nextpid := nextpid w; initproc := initproc w;
       kpages := x.1; kfiles := x.2 |} in
  match m (kpages w, kfiles w) with
  | Ok a x => Ok a (up x)
  | Panic msg => Panic msg
  | Sleep c x => Sleep c (up x)
  end.

Definition on_mem {A} (m : M kstate A) : M pworld A := fun w =>
  let up x := {| procs := procs w; cpus := cpus w; nextpid := nextpid w; initproc := initproc w;
                 kpages := x; kfiles := kfiles w |} in
  match m (kpages w) with
  | Ok a x => Ok a (up x)
  | Panic msg => Panic msg
  | Sleep c x => Sleep c (up x)
  end.

(** ** Initialisation *)

(** The table [procinit] leaves; the kernel image starts with zeroes. *)
Definition proc0 (i : Z) : proc :=
  Proc UNUSED None 0 0 0 None (KSTACK i) 0 0 0 (replicate 14 0) (replicate 16 None) None
    (replicate 16 0).

Definition procinit : list proc := proc0 <$> seqZ 0 NPROC.

(** ** Process memory *)

Definition proc_pagetable (trapframe : Z) : M kstate Z :=
  let! pagetable := uvmcreate in
  if pagetable =? 0 then kret 0
  else
    let! r := mappages pagetable TRAMPOLINE PGSIZE trampoline (Z.lor PTE_R PTE_X) in
    if r <? 0 then uvmfree kend pagetable 0 ;;; kret 0
    else
      let! r := mappages pagetable TRAPFRAME PGSIZE trapframe (Z.lor PTE_R PTE_W) in
      if r <? 0 then
        uvmunmap kend pagetable TRAMPOLINE 1 false ;;;
        uvmfree kend pagetable 0 ;;;
        kret 0
      else kret pagetable.

Definition proc_freepagetable (pagetable sz : Z) : M kstate unit :=
  uvmunmap kend pagetable TRAMPOLINE 1 false ;;;
  uvmunmap kend pagetable TRAPFRAME 1 false ;;;
  uvmfree kend pagetable sz.

(** ** Allocation *)

Definition allocpid : M pworld Z := fun w =>
  Ok (nextpid w) {| procs := procs w; cpus := cpus w; nextpid := i32 (nextpid w + 1);
                    initproc := initproc w; kpages := kpages w; kfiles := kfiles w |}.

(** The index of the first [UNUSED] process, from [i] on. *)
Fixpoint find_unused (t : list proc) (i : Z) : option Z :=
  match t with
  | [] => None
  | p :: t => if decide (p_state p = UNUSED) then Some i else find_unused t (i + 1)
  end.

Definition freeproc (i : Z) : M pworld unit :=
  let! p := get_proc i in
  (if p_trapframe p =? 0 then kret tt else on_mem (kfree kend (p_trapframe p))) ;;;
  update i (fun p => with_trapframe p 0) ;;;
  (if p_pagetable p =? 0 then kret tt
   else on_mem (proc_freepagetable (p_pagetable p) (p_sz p))) ;;;
  update i (fun p =>
    with_state (with_xstate (with_killed (with_chan (with_name (with_parent (with_pid
      (with_sz (with_pagetable p 0) 0) 0) None) (set8 (p_name p) 0 0)) None) 0) 0) UNUSED).

Definition allocproc : M pworld (option Z) :=
  let! t := kgets procs in
  match find_unused t 0 with
  | None => kret None
  | Some i =>
      let! pid := allocpid in
      update i (fun p => with_state (with_pid p pid) USED) ;;;
      let! tf := on_mem kalloc in
      update i (fun p => with_trapframe p tf) ;;;
      if tf =? 0 then freeproc i ;;; kret None
      else
        let! pt := on_mem (proc_pagetable tf) in
        update i (fun p => with_pagetable p pt) ;;;
        if pt =? 0 then freeproc i ;;; kret None
        else
          update i (fun p => with_context p (forkret :: p_kstack p + PGSIZE :: replicate 12 0)) ;;;
          kret (Some i)
  end.

(** The program of the first process. *)
Definition initcode : list Z :=
  [0x17; 0x05; 0x00; 0x00; 0x13; 0x05; 0x45; 0x02;
   0x97; 0x05; 0x00; 0x00; 0x93; 0x85; 0x35; 0x02;
   0x93; 0x08; 0x70; 0x00; 0x73; 0x00; 0x00; 0x00;
   0x93; 0x08; 0x20; 0x00; 0x73; 0x00; 0x00; 0x00;
   0xef; 0xf0; 0x9f; 0xff; 0x2f; 0x69; 0x6e; 0x69;
   0x74; 0x00; 0x00; 0x24; 0x00; 0x00; 0x00; 0x00;
   0x00; 0x00; 0x00; 0x00].

(** ["initcode"]. *)
Definition initcode_name : list Z := [105; 110; 105; 116; 99; 111; 100; 101; 0].

Definition set_initproc (i : Z) : M pworld unit := kmodify (fun w =>
  {| procs := procs w; cpus := cpus w; nextpid := nextpid w; initproc := Some i;
     kpages := kpages w; kfiles := kfiles w |}).

Definition userinit : M pworld unit :=
  let! p := allocproc in
  let! i := kopt p in
  set_initproc i ;;;
  let! p := get_proc i in
  on_mem (uvmfirst (p_pagetable p) initcode) ;;;
  update i (fun p => with_sz p PGSIZE) ;;;
  on_mem (store (p_trapframe p + TF_epc) 0) ;;;
  on_mem (store (p_trapframe p + TF_sp) PGSIZE) ;;;
  update i (fun p => set_name p initcode_name) ;;;
  let! root := on_files f_root in
  update i (fun p => with_cwd p root) ;;;
  update i (fun p => with_state p RUNNABLE).

Definition growproc (i n : Z) : M pworld Z :=
  let! p := get_proc i in
  if 0 <? n then
    let! sz := on_mem (uvmalloc kend (p_pagetable p) (p_sz p) (u64 (p_sz p + n)) PTE_W) in
    if sz =? 0 then kret (-1) else update i (fun p => with_sz p sz) ;;; kret 0
  else if n <? 0 then
    let! sz := on_mem (uvmdealloc kend (p_pagetable p) (p_sz p) (u64 (p_sz p + n))) in
    update i (fun p => with_sz p sz) ;;; kret 0
  else update i (fun q => with_sz q (p_sz p)) ;;; kret 0.

(** ** Fork *)

(** The loop that duplicates the descriptors [fd], ... of the parent. *)
Fixpoint dup_files (l : list (option Z)) (np fd : Z) : M pworld unit :=
  match l with
  | [] => kret tt
  | o :: l =>
      match o with
      | Some f =>
          let! g := on_files (f_dup f) in
          let! q := get_proc np in
          let! t := kopt (zset (p_ofile q) fd (Some g)) in
          put_proc np (with_ofile q t)
      | None => kret tt
      end ;;;
      dup_files l np (fd + 1)
  end.

(** [fork] up to the first release of [np->lock]: the new entry and its pid.  The
    entry is [USED] and has no parent yet. *)
Definition fork_copy (i : Z) : M pworld (option (Z * Z)) :=
  let! np := allocproc in
  match np with
  | None => kret None
  | Some np =>
      let! p := get_proc i in
      let! q := get_proc np in
      let! r := on_mem (uvmcopy kend (p_pagetable p) (p_pagetable q) (p_sz p)) in
      if r <? 0 then freeproc np ;;; kret None
      else
        update np (fun q => with_sz q (p_sz p)) ;;;
        on_mem (move (p_trapframe q) (p_trapframe p) TRAPFRAME_SIZE) ;;;
        on_mem (store (p_trapframe q + TF_a0) 0) ;;;
        dup_files (p_ofile p) np 0 ;;;
        let! d := kopt (p_cwd p) in
        let! d := on_files (f_idup d) in
        update np (fun q => with_cwd q (Some d)) ;;;
        update np (fun q => set_name q (p_name p)) ;;;
        kret (Some (np, p_pid q))
  end.

(** The part under [wait_lock]. *)
Definition fork_adopt (i np : Z) : M pworld unit := update np (fun q => with_parent q (Some i)).

(** The part under the second [np->lock]. *)
Definition fork_ready (np : Z) : M pworld unit := update np (fun q => with_state q RUNNABLE).

(** The whole call; other processes may run between its three parts. *)
Definition fork (i : Z) : M pworld Z :=
  let! r := fork_copy i in
  match r with
  | None => kret (-1)
  | Some (np, pid) => fork_adopt i np ;;; fork_ready np ;;; kret pid
  end.

(** ** Sleeping and scheduling *)

(** The channel that is the address of a process. *)
Definition proc_chan (i : Z) : chan := Chan "proc" i.

(** What [wakeup(c)] does to process [j]; [me] is [myproc()]. *)
Definition wake1 (me : option Z) (c : option chan) (j : nat) (p : proc) : proc :=
  if decide (me = Some (Z.of_nat j)) then p
  else if decide (p_state p = SLEEPING /\ p_chan p = c) then with_state p RUNNABLE
  else p.

Definition wakeup (me : option Z) (c : option chan) : M pworld unit :=
  kmodify (fun w => set_procs w (imap (wake1 me c) (procs w))).

(** The CPU that ran [i] is back in the scheduler. *)
Definition sched (i : Z) : M pworld unit :=
  let! p := get_proc i in
  if decide (p_state p = RUNNING) then panic "sched running"
  else kmodify (fun w =>
    {| procs := procs w; cpus := (fun x => if decide (x = Some i) then None else x) <$> cpus w;
       nextpid := nextpid w; initproc := initproc w; kpages := kpages w; kfiles := kfiles w |}).

(** [scheduler] on CPU [c] picks [i].  A process that wakes up from [sleep]
    clears [p->chan] before it gives up its lock. *)
Definition run (c i : Z) : M pworld unit :=
  let! p := get_proc i in
  if decide (p_state p = RUNNABLE) then
    put_proc i (with_chan (with_state p RUNNING) None) ;;;
    fun w => match zset (cpus w) c (Some i) with
             | Some l => Ok tt {| procs := procs w; cpus := l; nextpid := nextpid w;
                                  initproc := initproc w; kpages := kpages w; kfiles := kfiles w |}
             | None => Panic "undefined access"
             end
  else kret tt.

Definition yield (i : Z) : M pworld unit :=
  update i (fun p => with_state p RUNNABLE) ;;; sched i.

Definition sleep {A} (i : Z) (c : chan) : M pworld A :=
  update i (fun p => with_state (with_chan p (Some c)) SLEEPING) ;;;
  sched i ;;;
  ksleep c.

(** ** Exit and wait *)

Definition null_or_chan (p : option Z) : option chan := proc_chan <$> p.

(** The loop of [reparent] over the last [k] processes, from [j] on. *)
Fixpoint reparent_loop (k : nat) (i j : Z) : M pworld unit :=
  match k with
  | O => kret tt
  | S k =>
      let! pp := get_proc j in
      (if decide (p_parent pp = Some i) then
         let! init := kgets initproc in
         put_proc j (with_parent pp init) ;;;
         wakeup (Some i) (null_or_chan init)
       else kret tt) ;;;
      reparent_loop k i (j + 1)
  end.

Definition reparent (i : Z) : M pworld unit := reparent_loop (Z.to_nat NPROC) i 0.

(** The loop of [exit] over the descriptors. *)
Fixpoint close_files (l : list (option Z)) (i fd : Z) : M pworld unit :=
  match l with
  | [] => kret tt
  | o :: l =>
      match o with
      | Some f =>
          on_files (f_close f) ;;;
          let! p := get_proc i in
          let! t := kopt (zset (p_ofile p) fd None) in
          put_proc i (with_ofile p t)
      | None => kret tt
      end ;;;
      close_files l i (fd + 1)
  end.

(** [exit] up to its call of [sched], which does not return. *)
Definition exit (i status : Z) : M pworld unit :=
  let! init := kgets initproc in
  if decide (init = Some i) then panic "init exiting"
  else
    let! p := get_proc i in
    close_files (p_ofile p) i 0 ;;;
    let! d := kopt (p_cwd p) in
    on_files (f_put d) ;;;
    update i (fun p => with_cwd p None) ;;;
    reparent i ;;;
    let! p := get_proc i in
    wakeup (Some i) (null_or_chan (p_parent p)) ;;;
    update i (fun p => with_state (with_xstate p status) ZOMBIE) ;;;
    sched i.

(** The scan of [wait] from [j] on: whether there are children, and the first
    that has exited. *)
Fixpoint find_zombie (t : list proc) (i j : Z) : bool * option Z :=
  match t with
  | [] => (false, None)
  | p :: t =>
      if decide (p_parent p = Some i) then
        if decide (p_state p = ZOMBIE) then (true, Some j)
        else (true, (find_zombie t i (j + 1)).2)
      else find_zombie t i (j + 1)
  end.

Definition int32_bytes (x : Z) : list Z := put32 (replicate 4 0) 0 x.

Definition wait (i addr : Z) : M pworld Z :=
  let! t := kgets procs in
  let! p := get_proc i in
  match find_zombie t i 0 with
  | (_, Some j) =>
      let! pp := get_proc j in
      let! r := (if addr =? 0 then kret 0
                 else on_mem (copyout (p_pagetable p) addr (int32_bytes (p_xstate pp)))) in
      if r <? 0 then kret (-1)
      else freeproc j ;;; kret (p_pid pp)
  | (havekids, None) =>
      if negb havekids || negb (p_killed p =? 0) then kret (-1)
      else sleep i (proc_chan i)
  end.

(** ** Kill *)

Fixpoint find_pid (t : list proc) (pid j : Z) : option Z :=
  match t with
  | [] => None
  | p :: t => if p_pid p =? pid then Some j else find_pid t pid (j + 1)
  end.

Definition kill (pid : Z) : M pworld Z :=
  let! t := kgets procs in
  match find_pid t pid 0 with
  | Some j =>
      update j (fun p =>
        let p := with_killed p 1 in
        if decide (p_state p = SLEEPING) then with_state p RUNNABLE else p) ;;;
      kret 0
  | None => kret (-1)
  end.

Definition setkilled (i : Z) : M pworld unit := update i (fun p => with_killed p 1).

Definition killed (i : Z) : M pworld Z := let! p := get_proc i in kret (p_killed p).
End Proc.
