(* ===== verification/ProcTable.v ===== *)
(** The life cycle of processes: the process table reduced to what decides it.

    [abs] keeps the state, channel, pid, parent and killed flag of each process, the CPUs,
    [nextpid] and [initproc].  Each operation of [Proc] is related to its effect
    on this table, whatever the memory and the files do. *)

From S2P Require Import Prelude Mem Kalloc Block Vm Proc.

Record core : Type := Core {
  c_state : procstate;
  c_chan : option chan;
  c_pid : Z;
  c_parent : option Z;
  c_killed : Z
}.

Record atable : Type := ATable {
  cores : list core;
  acpus : list (option Z);
  anext : Z;
  ainit : option Z
}.

Definition core_of (p : proc) : core :=
  Core (p_state p) (p_chan p) (p_pid p) (p_parent p) (p_killed p).

Definition dead : core := Core UNUSED None 0 None 0.

Definition live (c : core) : Prop := c_state c <> UNUSED /\ c_state c <> ZOMBIE.

Definition set_cores (a : atable) (l : list core) : atable :=
  {| cores := l; acpus := acpus a; anext := anext a; ainit := ainit a |}.

Definition set_core (a : atable) (i : Z) (c : core) : atable :=
  set_cores a (<[Z.to_nat i := c]> (cores a)).

Definition set_next (a : atable) (n : Z) : atable :=
  {| cores := cores a; acpus := acpus a; anext := n; ainit := ainit a |}.

(** The CPU of [i] given up. *)
Definition off_cpu (a : atable) (i : Z) : atable :=
  {| cores := cores a; acpus := (fun x => if decide (x = Some i) then None else x) <$> acpus a;
     anext := anext a; ainit := ainit a |}.

(** What [wakeup] does to an entry. *)
Definition wake_core (me : option Z) (c : option chan) (j : nat) (x : core) : core :=
  if decide (me = Some (Z.of_nat j)) then x
  else if decide (c_state x = SLEEPING /\ c_chan x = c)
       then Core RUNNABLE (c_chan x) (c_pid x) (c_parent x) (c_killed x) else x.

Definition woken (me : option Z) (c : option chan) (a : atable) : atable :=
  set_cores a (imap (wake_core me c) (cores a)).

Lemma zget_fmap {A B} (f : A -> B) l i : zget (f <$> l) i = f <$> zget l i.
Proof. unfold zget. case_decide; [|done]. apply list_lookup_fmap. Qed.

Lemma zget_imap {A B} (f : nat -> A -> B) l i : zget (imap f l) i = f (Z.to_nat i) <$> zget l i.
Proof. unfold zget. case_decide; [|done]. apply list_lookup_imap. Qed.

Section Table.
Context {F : Type} `{ProcFiles F}.
Context (kend trampoline forkret : Z).
Abbreviation pworld := (pworld (F := F)).
Implicit Types w : pworld.

Definition abs w : atable :=
  {| cores := core_of <$> procs w; acpus := cpus w; anext := nextpid w; ainit := initproc w |}.

(** *** Operations that leave the table *)

Definition inert {A} (m : M pworld A) : Prop := forall w a w', m w = Ok a w' -> abs w' = abs w.

Lemma inert_bind {A B} (m : M pworld A) (k : A -> M pworld B) :
  inert m -> (forall a, inert (k a)) -> inert (kbind m k).
Proof.
  intros Hm Hk w b w' E. apply kbind_Ok_inv in E as (a & w1 & E1 & E2).
  rewrite (Hk a w1 b w' E2). by apply (Hm w a w1).
Qed.

Lemma inert_ret {A} (a : A) : inert (kret a).
Proof. by intros w b w' [= <- <-]. Qed.

Lemma inert_if {A} (b : bool) (m n : M pworld A) : inert m -> inert n -> inert (if b then m else n).
Proof. by destruct b. Qed.

Lemma inert_mem {A} (m : M kstate A) : inert (on_mem m).
Proof. intros w a w' E. unfold on_mem in E. destruct (m _); simplify_eq; done. Qed.

Lemma inert_files {A} (m : M (kstate * F) A) : inert (on_files m).
Proof. intros w a w' E. unfold on_files in E. destruct (m _); simplify_eq; done. Qed.

Lemma inert_get i : inert (get_proc i).
Proof. intros w a w' E. unfold get_proc in E. destruct (zget _ _); by simplify_eq. Qed.

Lemma inert_kopt {A} (o : option A) : inert (kopt o).
Proof. intros w a w' E. unfold kopt, kret in E. destruct o; by simplify_eq. Qed.

Lemma get_proc_Ok i w p w' : get_proc i w = Ok p w' -> w' = w /\ zget (procs w) i = Some p.
Proof. unfold get_proc. destruct (zget _ _); by intros [= <- <-]. Qed.

Lemma put_proc_Ok i p w r w' :
  put_proc i p w = Ok r w' -> 0 <= i < Z.of_nat (length (procs w)) /\
    w' = set_procs w (<[Z.to_nat i := p]> (procs w)).
Proof.
  unfold put_proc. destruct (zset _ _ _) as [t|] eqn:E; [|done]. intros [= <- <-].
  by apply zset_Some in E as [? ->].
Qed.

Lemma abs_set_procs w i p : abs (set_procs w (<[Z.to_nat i := p]> (procs w))) = set_core (abs w) i (core_of p).
Proof. unfold abs, set_core, set_cores, set_procs. cbn. by rewrite list_fmap_insert. Qed.

(** The effect of an assignment to fields of process [i]. *)
Lemma update_Ok i f w r w' :
  update i f w = Ok r w' -> exists p, zget (procs w) i = Some p /\
    w' = set_procs w (<[Z.to_nat i := f p]> (procs w)) /\ abs w' = set_core (abs w) i (core_of (f p)).
Proof.
  intros E. apply kbind_Ok_inv in E as (p & w1 & [-> Hp]%get_proc_Ok & [_ ->]%put_proc_Ok).
  exists p. split; [done|]. split; [done|]. apply abs_set_procs.
Qed.

Lemma set_core_id a i c : zget (cores a) i = Some c -> set_core a i c = a.
Proof.
  intros [_ Hc]%zget_Some. unfold set_core, set_cores. rewrite list_insert_id by done. by destruct a.
Qed.

Lemma zget_abs w i p : zget (procs w) i = Some p -> zget (cores (abs w)) i = Some (core_of p).
Proof. intros Hp. cbn. by rewrite zget_fmap, Hp. Qed.

Lemma zget_abs_inv w i c :
  zget (cores (abs w)) i = Some c -> exists p, zget (procs w) i = Some p /\ c = core_of p.
Proof. cbn. rewrite zget_fmap. destruct (zget _ _) as [p|]; [|done]. intros [= <-]. eauto. Qed.

Lemma inert_update i f : (forall p, core_of (f p) = core_of p) -> inert (update i f).
Proof.
  intros Hf w a w' (p & Hp & _ & ->)%update_Ok. rewrite Hf. apply set_core_id. by apply zget_abs.
Qed.

Lemma set_core_twice a i c d : set_core (set_core a i c) i d = set_core a i d.
Proof. unfold set_core, set_cores. cbn. by rewrite list_insert_insert_eq. Qed.

Lemma zget_set_core a i c x : zget (cores a) i = Some x -> zget (cores (set_core a i c)) i = Some c.
Proof. intros Hx. unfold set_core, set_cores. cbn. by rewrite (zget_insert _ _ _ _ x), decide_True. Qed.

Lemma set_core_next a i c n : set_core (set_next a n) i c = set_next (set_core a i c) n.
Proof. done. Qed.
End Table.

Create HintDb inert discriminated.
#[export] Hint Resolve inert_ret inert_mem inert_files inert_get inert_kopt : inert.
#[export] Hint Extern 2 (inert (update _ _)) => apply inert_update; done : inert.
#[export] Hint Extern 4 (inert (kbind _ _)) => apply inert_bind; [|intros] : inert.
#[export] Hint Extern 5 (inert (if _ then _ else _)) => case_match : inert.
#[export] Hint Extern 5 (inert (match _ with _ => _ end)) => case_match : inert.

Section Effects.
Context {F : Type} `{ProcFiles F}.
Context (kend trampoline forkret : Z).
Abbreviation pworld := (pworld (F := F)).
Implicit Types w : pworld.

Lemma freeproc_effect i w r w' :
  freeproc kend i w = Ok r w' -> abs w' = set_core (abs w) i dead.
Proof.
  intros E. apply kbind_Ok_inv in E as (p & w1 & E1 & E). apply inert_get in E1.
  apply kbind_Ok_inv in E as ([] & w2 & E2 & E).
  apply inert_if in E2; [|apply inert_ret|apply inert_mem].
  apply kbind_Ok_inv in E as ([] & w3 & E3 & E). apply inert_update in E3; [|done].
  apply kbind_Ok_inv in E as ([] & w4 & E4 & E).
  apply inert_if in E4; [|apply inert_ret|apply inert_mem].
  apply update_Ok in E as (q & _ & _ & ->). by rewrite E4, E3, E2, E1.
Qed.

Lemma find_unused_spec t k i :
  find_unused t k = Some i -> exists p, zget t (i - k) = Some p /\ p_state p = UNUSED.
Proof.
  revert k. induction t as [|p t IH]; intros k; cbn [find_unused]; [done|].
  case_decide as Hp; [intros [= <-]; exists p; by rewrite Z.sub_diag|].
  intros (q & Hq & Hs)%IH. exists q. split; [|done]. by apply zget_later.
Qed.

(** [allocproc]: no free entry, an entry taken and given back for lack of
    memory, or a fresh entry. *)
Inductive alloc_effect w : option Z -> atable -> Prop :=
| alloc_full : alloc_effect w None (abs w)
| alloc_failed i p : zget (procs w) i = Some p -> p_state p = UNUSED ->
    alloc_effect w None (set_next (set_core (abs w) i dead) (i32 (nextpid w + 1)))
| alloc_done i p : find_unused (procs w) 0 = Some i -> zget (procs w) i = Some p -> p_state p = UNUSED ->
    alloc_effect w (Some i)
      (set_next (set_core (abs w) i (Core USED (p_chan p) (nextpid w) (p_parent p) (p_killed p)))
         (i32 (nextpid w + 1))).

Lemma allocproc_effect w r w' :
  allocproc kend trampoline forkret w = Ok r w' -> alloc_effect w r (abs w').
Proof.
  intros E. apply kbind_Ok_inv in E as (t & w1 & [= <- <-] & E).
  destruct (find_unused _ 0) as [i|] eqn:Hf; [|injection E as <- <-; constructor].
  pose proof Hf as (p & Hp & Hs)%find_unused_spec. rewrite Z.sub_0_r in Hp.
  apply kbind_Ok_inv in E as (pid & w2 & [= <- <-] & E).
  apply kbind_Ok_inv in E as ([] & w3 & E3 & E). apply update_Ok in E3 as (q & Hq & _ & E3).
  cbn in Hq. rewrite Hp in Hq. injection Hq as <-.
  apply kbind_Ok_inv in E as (tf & w4 & E4%inert_mem & E).
  apply kbind_Ok_inv in E as ([] & w5 & E5 & E). apply inert_update in E5; [|done].
  assert (abs w5 = set_next (set_core (abs w) i (Core USED (p_chan p) (nextpid w) (p_parent p) (p_killed p)))
                     (i32 (nextpid w + 1))) as Habs by (rewrite E5, E4, E3; done).
  assert (forall r0 w6 w7, freeproc kend i w6 = Ok r0 w7 -> abs w6 = abs w5 ->
            alloc_effect w None (abs w7)) as Hfail.
  { intros r0 w6 w7 E6%freeproc_effect E67. rewrite E6, E67, Habs.
    rewrite set_core_next, set_core_twice. by eapply (alloc_failed w i p). }
  destruct (tf =? 0).
  { apply kbind_Ok_inv in E as ([] & w6 & E6 & [= <- <-]). by eapply Hfail. }
  apply kbind_Ok_inv in E as (pt & w6 & E6%inert_mem & E).
  apply kbind_Ok_inv in E as ([] & w7 & E7 & E). apply inert_update in E7; [|done].
  destruct (pt =? 0).
  { apply kbind_Ok_inv in E as ([] & w8 & E8 & [= <- <-]). eapply Hfail; [done|congruence]. }
  apply kbind_Ok_inv in E as ([] & w8 & E8 & [= <- <-]). apply inert_update in E8; [|done].
  rewrite E8, E7, E6, Habs. by econstructor.
Qed.

Lemma inert_set_fd i fd x :
  inert (let! p := get_proc (F := F) i in
         let! t := kopt (zset (p_ofile p) fd x) in
         put_proc i (with_ofile p t)).
Proof.
  intros w a w' E. apply kbind_Ok_inv in E as (q & w2 & [-> Hq]%get_proc_Ok & E).
  apply kbind_Ok_inv in E as (t & w3 & E3 & [_ ->]%put_proc_Ok).
  unfold kopt, kret in E3. destruct (zset _ _ _); [|done]. injection E3 as <- <-.
  rewrite abs_set_procs. apply set_core_id. by apply (zget_abs w i q).
Qed.

Lemma inert_dup_files l np fd : inert (dup_files l np fd).
Proof.
  revert fd. induction l as [|[f|] l IH]; intros fd; cbn [dup_files]; [apply inert_ret| |].
  - apply inert_bind; [|auto]. apply inert_bind; [apply inert_files|]. intros g. apply inert_set_fd.
  - apply inert_bind; [apply inert_ret|auto].
Qed.

Lemma inert_close_files l i fd : inert (close_files l i fd).
Proof.
  revert fd. induction l as [|[f|] l IH]; intros fd; cbn [close_files]; [apply inert_ret| |].
  - apply inert_bind; [|auto]. apply inert_bind; [apply inert_files|]. intros _. apply inert_set_fd.
  - apply inert_bind; [apply inert_ret|auto].
Qed.

Lemma inert_growproc i n : inert (growproc (F := F) kend i n).
Proof. unfold growproc. auto 10 with inert. Qed.

(** The first part of [fork]: an error, or a new entry. *)
Inductive copy_effect w : option (Z * Z) -> atable -> Prop :=
| copy_full : copy_effect w None (abs w)
| copy_failed j p : zget (procs w) j = Some p -> p_state p = UNUSED ->
    copy_effect w None (set_next (set_core (abs w) j dead) (i32 (nextpid w + 1)))
| copy_done j p : find_unused (procs w) 0 = Some j -> zget (procs w) j = Some p -> p_state p = UNUSED ->
    copy_effect w (Some (j, nextpid w))
      (set_next (set_core (abs w) j (Core USED (p_chan p) (nextpid w) (p_parent p) (p_killed p)))
         (i32 (nextpid w + 1))).

Lemma fork_copy_effect i w r w' :
  fork_copy kend trampoline forkret i w = Ok r w' -> copy_effect w r (abs w').
Proof.
  intros E. apply kbind_Ok_inv in E as (np & w1 & E1%allocproc_effect & E).
  remember (abs w1) as a1 eqn:Ha. destruct E1 as [|j p Hp Hs|j p Hf Hp Hs].
  - injection E as <- <-. rewrite <- Ha. constructor.
  - injection E as <- <-. rewrite <- Ha. by econstructor.
  - apply kbind_Ok_inv in E as (pi & w2 & [-> _]%get_proc_Ok & E).
    apply kbind_Ok_inv in E as (q & w2 & [-> Hq]%get_proc_Ok & E).
    assert (p_pid q = nextpid w) as Hpid.
    { apply zget_abs in Hq. rewrite <- Ha in Hq. change (cores (set_next ?a _)) with (cores a) in Hq.
      rewrite (zget_set_core _ _ _ _ (zget_abs w j p Hp)) in Hq. by injection Hq. }
    apply kbind_Ok_inv in E as (rc & w2 & E2%inert_mem & E). destruct (rc <? 0).
    { apply kbind_Ok_inv in E as ([] & w3 & E3%freeproc_effect & [= <- <-]).
      rewrite E3, E2, <- Ha, set_core_next, set_core_twice. by eapply (copy_failed w j p). }
    apply kbind_Ok_inv in E as ([] & w3 & E3 & E). apply inert_update in E3; [|done].
    apply kbind_Ok_inv in E as ([] & w4 & E4%inert_mem & E).
    apply kbind_Ok_inv in E as ([] & w5 & E5%inert_mem & E).
    apply kbind_Ok_inv in E as ([] & w6 & E6%inert_dup_files & E).
    apply kbind_Ok_inv in E as (d & w7 & E7%inert_kopt & E).
    apply kbind_Ok_inv in E as (d' & w8 & E8%inert_files & E).
    apply kbind_Ok_inv in E as ([] & w9 & E9 & E). apply inert_update in E9; [|done].
    apply kbind_Ok_inv in E as ([] & w10 & E10 & [= <- <-]). apply inert_update in E10; [|done].
    assert (abs w10 = abs w1) as -> by congruence. rewrite <- Ha, Hpid. by apply (copy_done w j p).
Qed.

(** [fork] run without interruption: an error, or a child that is ready to run. *)
Inductive fork_effect (i : Z) w : Z -> atable -> Prop :=
| fork_full : fork_effect i w (-1) (abs w)
| fork_failed j p : zget (procs w) j = Some p -> p_state p = UNUSED ->
    fork_effect i w (-1) (set_next (set_core (abs w) j dead) (i32 (nextpid w + 1)))
| fork_done j p : find_unused (procs w) 0 = Some j -> zget (procs w) j = Some p -> p_state p = UNUSED ->
    fork_effect i w (nextpid w)
      (set_next (set_core (abs w) j (Core RUNNABLE (p_chan p) (nextpid w) (Some i) (p_killed p)))
         (i32 (nextpid w + 1))).

Lemma fork_effect_Ok i w r w' :
  fork kend trampoline forkret i w = Ok r w' -> fork_effect i w r (abs w').
Proof.
  intros E. apply kbind_Ok_inv in E as (o & w1 & E1%fork_copy_effect & E).
  remember (abs w1) as a1 eqn:Ha. destruct E1 as [|j p Hp Hs|j p Hf Hp Hs].
  - injection E as <- <-. rewrite <- Ha. constructor.
  - injection E as <- <-. rewrite <- Ha. by econstructor.
  - apply kbind_Ok_inv in E as ([] & w11 & (q1 & Hq1 & _ & E11)%update_Ok & E).
    apply kbind_Ok_inv in E as ([] & w12 & (q2 & Hq2 & _ & E12)%update_Ok & [= <- <-]).
    apply zget_abs in Hq1, Hq2. rewrite <- Ha in Hq1. rewrite E11 in Hq2.
    change (cores (set_next ?a _)) with (cores a) in Hq1.
    rewrite (zget_set_core _ _ _ _ (zget_abs w j p Hp)) in Hq1. injection Hq1 as Hst Hch Hpi _ Hki.
    rewrite <- Ha in Hq2, E11. rewrite set_core_next, set_core_twice in Hq2, E11.
    change (cores (set_next ?a _)) with (cores a) in Hq2.
    rewrite (zget_set_core _ _ _ _ (zget_abs w j p Hp)) in Hq2. injection Hq2 as _ Hch2 Hpi2 Hpa2 Hki2.
    rewrite E12, E11, set_core_next, set_core_twice.
    replace (core_of (with_state q2 RUNNABLE)) with (Core RUNNABLE (p_chan p) (nextpid w) (Some i) (p_killed p))
      by (unfold core_of; cbn; congruence).
    by apply (fork_done i w j p).
Qed.

(** ** Exit *)

Lemma wakeup_effect me c w r w' : wakeup me c w = Ok r w' -> abs w' = woken me c (abs w).
Proof.
  intros [= <- <-]. unfold abs, woken, set_cores. cbn. f_equal.
  rewrite fmap_imap, imap_fmap. apply imap_ext. intros j p _. unfold wake1, wake_core, core_of. cbn.
  by repeat case_decide.
Qed.

(** The parent of an orphan of [i] is [init]. *)
Definition adopt (init : option Z) (i : Z) (p : option Z) : option Z :=
  if decide (p = Some i) then init else p.

(** An entry other than the one that exits: it may have been woken. *)
Record aged (c c' : core) : Prop := {
  aged_chan : c_chan c' = c_chan c;
  aged_pid : c_pid c' = c_pid c;
  aged_state : c_state c' = c_state c \/ (c_state c = SLEEPING /\ c_state c' = RUNNABLE);
}.

(** The state of the loop of [reparent] at entry [j], started in [a]. *)
Record adopting (i j : Z) (a a' : atable) : Prop := {
  ad_cpus : acpus a' = acpus a;
  ad_next : anext a' = anext a;
  ad_init : ainit a' = ainit a;
  ad_length : length (cores a') = length (cores a);
  ad_cores : forall k c, zget (cores a) k = Some c -> exists c', zget (cores a') k = Some c' /\
    aged c c' /\ (k = i -> c_state c' = c_state c) /\
    c_parent c' = (if decide (k < j) then adopt (ainit a) i (c_parent c) else c_parent c) /\
    (k <> i -> c_state c = SLEEPING -> c_chan c = null_or_chan (ainit a) ->
     (exists l d, l < j /\ zget (cores a) l = Some d /\ c_parent d = Some i) -> c_state c' = RUNNABLE)
}.

Lemma aged_trans c c' c'' : aged c c' -> aged c' c'' -> aged c c''.
Proof.
  intros [H1 H2 H3] [H1' H2' H3']. split; [congruence|congruence|].
  destruct H3 as [|[]], H3' as [|[]]; try (left; congruence); right; split; congruence.
Qed.

Lemma aged_wake me c k x : aged x (wake_core me c k x).
Proof.
  unfold wake_core. repeat case_decide; split; try done; try (by left). right. tauto.
Qed.

Lemma wake_core_parent me c k x : c_parent (wake_core me c k x) = c_parent x.
Proof. unfold wake_core. by repeat case_decide. Qed.

Lemma wake_core_self i c x : 0 <= i -> wake_core (Some i) c (Z.to_nat i) x = x.
Proof. intros Hi. unfold wake_core. rewrite decide_True; [done|]. by rewrite Z2Nat.id. Qed.

Lemma wake_core_hit i c k x :
  0 <= k -> k <> i -> c_state x = SLEEPING -> c_chan x = c ->
  c_state (wake_core (Some i) c (Z.to_nat k) x) = RUNNABLE.
Proof.
  intros Hk Hne Hs Hc. unfold wake_core. rewrite decide_False, decide_True; [done|done|].
  rewrite Z2Nat.id by done. congruence.
Qed.

Lemma adopting_start i a : adopting i 0 a a.
Proof.
  split; try done. intros k c Hk. exists c. pose proof Hk as [Hb _]%zget_Some.
  split; [done|]. split; [split; auto|]. split; [done|]. split; [by rewrite decide_False by lia|].
  intros _ _ _ (l & d & Hl & [Hd _]%zget_Some & _). lia.
Qed.

Lemma adopting_skip i j a a' c :
  adopting i j a a' -> zget (cores a) j = Some c -> c_parent c <> Some i -> adopting i (j + 1) a a'.
Proof.
  intros Had Hc Hp. split; try apply Had. intros k x Hx.
  destruct (ad_cores _ _ _ _ Had k x Hx) as (x' & Hx' & Ha & Hs & Hpar & Hwake).
  exists x'. split; [done|]. split; [done|]. split; [done|]. split.
  - rewrite Hpar. destruct (Z.eq_dec k j) as [->|].
    + rewrite decide_False, decide_True by lia. unfold adopt. rewrite decide_False; congruence.
    + repeat case_decide; try done; lia.
  - intros Hk Hsl Hch (l & d & Hl & Hd & Hdp). apply Hwake; try done. exists l, d.
    split; [|done]. destruct (Z.eq_dec l j) as [->|]; [congruence|lia].
Qed.

Lemma adopting_take i j a a' c' :
  adopting i j a a' -> zget (cores a') j = Some c' -> c_parent c' = Some i -> 0 <= i ->
  adopting i (j + 1) a (woken (Some i) (null_or_chan (ainit a))
    (set_core a' j (Core (c_state c') (c_chan c') (c_pid c') (ainit a) (c_killed c')))).
Proof.
  intros Had Hc Hp Hi. pose proof Hc as [Hjl _]%zget_Some.
  split; try apply Had; [unfold woken, set_core, set_cores; cbn;
    rewrite length_imap, length_insert; apply Had|].
  intros k x Hx. pose proof Hx as [Hk _]%zget_Some.
  destruct (ad_cores _ _ _ _ Had k x Hx) as (x' & Hx' & Ha & Hs & Hpar & Hwake).
  unfold woken, set_core, set_cores. cbn [cores]. rewrite zget_imap, (zget_insert _ _ _ _ c') by done.
  set (y := if decide (k = j) then Core (c_state c') (c_chan c') (c_pid c') (ainit a) (c_killed c') else x').
  assert (c_state y = c_state x' /\ c_chan y = c_chan x' /\ c_pid y = c_pid x') as (Hy1 & Hy2 & Hy3).
  { unfold y. destruct (decide (k = j)) as [Hkj|]; [|auto]. subst k. rewrite Hc in Hx'. by injection Hx' as <-. }
  exists (wake_core (Some i) (null_or_chan (ainit a)) (Z.to_nat k) y).
  split; [unfold y; rewrite Hx'; by destruct (decide (k = j))|].
  assert (aged x y) as Hay by (destruct Ha as [A1 A2 A3]; split; rewrite ?Hy1, ?Hy2, ?Hy3; done).
  split; [eapply aged_trans; [done|apply aged_wake]|].
  split; [intros ->; rewrite wake_core_self by done; rewrite Hy1; auto|]. split.
  - rewrite wake_core_parent. unfold y. destruct (decide (k = j)) as [Hkj|]; cbn [c_parent].
    + subst k. rewrite decide_True by lia. rewrite Hc in Hx'. injection Hx' as <-.
      rewrite decide_False in Hpar by lia. unfold adopt. rewrite decide_True by congruence. done.
    + rewrite Hpar. repeat case_decide; try done; lia.
  - intros Hki Hsl Hch _. destruct (aged_state _ _ Hay) as [Hst|[_ Hst]].
    + apply wake_core_hit; try done; [lia|congruence|]. rewrite Hy2. by rewrite (aged_chan _ _ Ha).
    + unfold wake_core. repeat case_decide; done.
Qed.

Lemma reparent_loop_effect k i j a w r w' :
  0 <= i -> adopting i j a (abs w) -> j + Z.of_nat k = Z.of_nat (length (procs w)) -> 0 <= j ->
  reparent_loop k i j w = Ok r w' -> adopting i (j + Z.of_nat k) a (abs w').
Proof.
  intros Hi. revert j w. induction k as [|k IH]; intros j w Had Hlen Hj E; cbn [reparent_loop] in E.
  { injection E as <- <-. by replace (j + Z.of_nat 0) with j by lia. }
  apply kbind_Ok_inv in E as (pp & w1 & [-> Hpp]%get_proc_Ok & E).
  apply kbind_Ok_inv in E as ([] & w2 & E2 & E).
  assert (adopting i (j + 1) a (abs w2) /\ length (procs w2) = length (procs w)) as [Had2 Hl2].
  { case_decide as Hp.
    - apply kbind_Ok_inv in E2 as (init & w3 & [= <- <-] & E2).
      apply kbind_Ok_inv in E2 as ([] & w4 & [_ ->]%put_proc_Ok & E2).
      pose proof E2 as E2'. apply wakeup_effect in E2. rewrite abs_set_procs in E2.
      split; [|injection E2' as <-; cbn; by rewrite length_imap, length_insert].
      rewrite E2. pose proof (ad_init _ _ _ _ Had) as Hin. cbn in Hin. rewrite Hin.
      by apply (adopting_take i j a (abs w) (core_of pp)); [|apply zget_abs| |].
    - injection E2 as <-. split; [|done]. pose proof (zget_abs _ _ _ Hpp) as Hc.
      destruct (zget (cores a) j) as [c|] eqn:Hcj.
      + eapply adopting_skip; [done|done|].
        destruct (ad_cores _ _ _ _ Had j c Hcj) as (c' & Hc' & _ & _ & Hpar & _).
        rewrite Hc in Hc'. injection Hc' as <-. rewrite decide_False in Hpar by lia. cbn in Hpar. congruence.
      + exfalso. pose proof (ad_length _ _ _ _ Had) as Hal. apply zget_Some in Hc as [Hc _].
        destruct (zget_is_Some (cores a) j ltac:(lia)) as [? ?]. congruence. }
  replace (j + Z.of_nat (S k)) with (j + 1 + Z.of_nat k) by lia. apply (IH (j + 1) w2); [done|lia|lia|done].
Qed.

Lemma sched_effect i w r w' : sched i w = Ok r w' -> abs w' = off_cpu (abs w) i.
Proof.
  intros E. apply kbind_Ok_inv in E as (p & w1 & [-> _]%get_proc_Ok & E).
  case_decide; [done|]. by injection E as <- <-.
Qed.

(** [exit] as a whole. *)
Record exited (i : Z) (a a' : atable) : Prop := {
  ex_cpus : acpus a' = acpus (off_cpu a i);
  ex_next : anext a' = anext a;
  ex_init : ainit a' = ainit a;
  ex_length : length (cores a') = length (cores a);
  ex_self : forall c, zget (cores a) i = Some c -> exists c', zget (cores a') i = Some c' /\
    c_state c' = ZOMBIE /\ c_pid c' = c_pid c /\ c_parent c' = adopt (ainit a) i (c_parent c);
  ex_other : forall k c, k <> i -> zget (cores a) k = Some c -> exists c', zget (cores a') k = Some c' /\
    aged c c' /\ c_parent c' = adopt (ainit a) i (c_parent c);
  ex_wake_init : forall k c c', k <> i -> zget (cores a) k = Some c -> zget (cores a') k = Some c' ->
    c_state c' = SLEEPING -> c_chan c' = null_or_chan (ainit a) ->
    forall l d, zget (cores a) l = Some d -> c_parent d <> Some i;
  ex_wake_parent : forall k c', k <> i -> zget (cores a') k = Some c' -> c_state c' = SLEEPING ->
    forall d, zget (cores a') i = Some d -> c_chan c' <> null_or_chan (c_parent d)
}.

Lemma adopting_exited i a a1 c :
  0 <= i -> adopting i (Z.of_nat (length (cores a))) a a1 -> zget (cores a1) i = Some c ->
  exited i a (off_cpu (set_core (woken (Some i) (null_or_chan (c_parent c)) a1) i
                         (Core ZOMBIE (c_chan c) (c_pid c) (c_parent c) (c_killed c))) i).
Proof.
  intros Hi Had Hc.
  set (a2 := woken _ _ a1). set (a3 := set_core _ _ _).
  assert (zget (cores a2) i = Some c) as Hc2.
  { unfold a2, woken, set_cores. cbn [cores]. rewrite zget_imap, Hc. cbn. by rewrite wake_core_self. }
  assert (forall k x, zget (cores a1) k = Some x -> k <> i ->
    zget (cores a3) k = Some (wake_core (Some i) (null_or_chan (c_parent c)) (Z.to_nat k) x)) as Hget.
  { intros k x Hx Hk. unfold a3, set_core. cbn [cores set_cores]. rewrite (zget_insert _ _ _ _ c) by done.
    rewrite decide_False by done. unfold a2, woken, set_cores. cbn [cores]. by rewrite zget_imap, Hx. }
  assert (zget (cores a3) i = Some (Core ZOMBIE (c_chan c) (c_pid c) (c_parent c) (c_killed c))) as Hgi
    by (eapply zget_set_core; done).
  assert (length (cores a3) = length (cores a)) as Hl3.
  { unfold a3, a2, set_core, woken, set_cores. cbn [cores].
    rewrite length_insert, length_imap. apply Had. }
  assert (forall k c', zget (cores a3) k = Some c' -> exists x, zget (cores a) k = Some x) as Hback.
  { intros k c' [Hk _]%zget_Some. apply zget_is_Some. lia. }
  assert (forall k x, zget (cores a) k = Some x -> 0 <= k < Z.of_nat (length (cores a))) as Hrange
    by (by intros k x [? _]%zget_Some).
  split; cbn [cores acpus anext ainit off_cpu].
  - f_equal. apply Had.
  - apply Had.
  - apply Had.
  - done.
  - intros x Hx. eexists. split; [exact Hgi|]. cbn.
    destruct (ad_cores _ _ _ _ Had i x Hx) as (x' & Hx' & Ha & _ & Hp & _).
    rewrite Hc in Hx'. injection Hx' as <-. rewrite decide_True in Hp by (apply Hrange in Hx; lia).
    split; [done|]. split; [apply Ha|done].
  - intros k x Hk Hx. destruct (ad_cores _ _ _ _ Had k x Hx) as (x' & Hx' & Ha & _ & Hp & _).
    eexists. split; [by apply Hget|]. rewrite wake_core_parent.
    rewrite decide_True in Hp by (apply Hrange in Hx; lia). split; [|done].
    eapply aged_trans; [done|apply aged_wake].
  - intros k x c' Hk Hx Hc' Hs Hch l d Hd Hdp.
    destruct (ad_cores _ _ _ _ Had k x Hx) as (x' & Hx' & Ha & _ & _ & Hw).
    rewrite (Hget k x' Hx' Hk) in Hc'. injection Hc' as <-.
    pose proof (aged_wake (Some i) (null_or_chan (c_parent c)) (Z.to_nat k) x') as Hag.
    destruct (aged_state _ _ Hag) as [Hst|[_ Hst]]; [|congruence].
    destruct (aged_state _ _ Ha) as [Hst'|[_ Hst']]; [|congruence].
    rewrite (aged_chan _ _ Hag), (aged_chan _ _ Ha) in Hch.
    rewrite Hw in Hst; try congruence. exists l, d. split; [|done]. apply Hrange in Hd. lia.
  - intros k c' Hk Hc' Hs d Hd Hch. rewrite Hgi in Hd. injection Hd as <-. cbn in Hch.
    destruct (Hback k c' Hc') as [x Hx].
    destruct (ad_cores _ _ _ _ Had k x Hx) as (x' & Hx' & _).
    rewrite (Hget k x' Hx' Hk) in Hc'. injection Hc' as <-. apply Hrange in Hx.
    pose proof (aged_wake (Some i) (null_or_chan (c_parent c)) (Z.to_nat k) x') as Hag.
    rewrite (aged_chan _ _ Hag) in Hch.
    destruct (aged_state _ _ Hag) as [Hst|[_ Hst]]; [|congruence].
    rewrite wake_core_hit in Hs; try done; [lia|congruence].
Qed.

Lemma exit_effect i st w r w' :
  Z.of_nat (length (procs w)) = NPROC -> exit i st w = Ok r w' ->
  initproc w <> Some i /\ exited i (abs w) (abs w').
Proof.
  intros Hlen E. apply kbind_Ok_inv in E as (init & w1 & [= <- <-] & E).
  case_decide as Hinit; [done|]. split; [done|].
  apply kbind_Ok_inv in E as (p & w1 & [-> Hp]%get_proc_Ok & E).
  assert (0 <= i) as Hi by (apply zget_Some in Hp as [? _]; lia).
  apply kbind_Ok_inv in E as ([] & w2 & E2%inert_close_files & E).
  apply kbind_Ok_inv in E as (d & w3 & E3%inert_kopt & E).
  apply kbind_Ok_inv in E as ([] & w4 & E4%inert_files & E).
  apply kbind_Ok_inv in E as ([] & w5 & E5 & E). apply inert_update in E5; [|done].
  assert (abs w5 = abs w) as Hw5 by congruence.
  assert (length (procs w5) = length (procs w)) as Hl5.
  { apply (f_equal cores) in Hw5. cbn in Hw5. apply (f_equal length) in Hw5. by rewrite !length_fmap in Hw5. }
  apply kbind_Ok_inv in E as ([] & w6 & E6 & E).
  apply (reparent_loop_effect _ _ _ (abs w)) in E6; [|done|rewrite Hw5; apply adopting_start|
    rewrite Hl5, Hlen; done|done].
  apply kbind_Ok_inv in E as (p6 & w7 & [-> Hp6]%get_proc_Ok & E).
  apply kbind_Ok_inv in E as ([] & w8 & E8 & E). apply wakeup_effect in E8.
  apply kbind_Ok_inv in E as ([] & w9 & E9 & E%sched_effect).
  apply update_Ok in E9 as (p8 & Hp8 & _ & E9). apply zget_abs in Hp6, Hp8.
  rewrite E8 in Hp8. unfold woken in Hp8. cbn [cores set_cores] in Hp8.
  rewrite zget_imap, Hp6 in Hp8. cbn in Hp8. rewrite wake_core_self in Hp8 by done. injection Hp8 as H1 H2 H3 H4 H5.
  rewrite E, E9, E8.
  replace (core_of (with_state (with_xstate p8 st) ZOMBIE))
    with (Core ZOMBIE (p_chan p6) (p_pid p6) (p_parent p6) (p_killed p6))
    by (unfold core_of; cbn; congruence).
  apply (adopting_exited i (abs w) (abs w6) (core_of p6)); [done| |done].
  replace (Z.of_nat (length (cores (abs w)))) with (0 + Z.of_nat (Z.to_nat NPROC)); [done|].
  cbn [cores abs]. rewrite length_fmap, Hlen. done.
Qed.

(** ** The other operations *)

Lemma find_zombie_spec t i k b j :
  find_zombie t i k = (b, Some j) ->
  exists p, zget t (j - k) = Some p /\ p_parent p = Some i /\ p_state p = ZOMBIE.
Proof.
  revert k b. induction t as [|p t IH]; intros k b; cbn [find_zombie]; [done|].
  assert (forall b', find_zombie t i (k + 1) = (b', Some j) ->
    exists q, zget (p :: t) (j - k) = Some q /\ p_parent q = Some i /\ p_state q = ZOMBIE) as Hnext.
  { intros b' (q & Hq & Hpq)%IH. exists q. split; [by apply zget_later|done]. }
  case_decide as Hp; [case_decide as Hs|]; [|destruct (find_zombie t i (k + 1)) as [b' o] eqn:E|].
  - intros [= <- <-]. exists p. by rewrite Z.sub_diag.
  - cbn. intros [= <- ->]. by eapply Hnext.
  - apply Hnext.
Qed.

Lemma find_zombie_none t i k b :
  find_zombie t i k = (b, None) ->
  forall p, p ∈ t -> p_parent p = Some i -> b = true /\ p_state p <> ZOMBIE.
Proof.
  revert k b. induction t as [|q t IH]; intros k b; cbn [find_zombie]; [by intros _ p ?%elem_of_nil|].
  intros E p Hp Hpar. apply elem_of_cons in Hp. case_decide as Hq; [case_decide as Hs; [done|]|].
  - destruct (find_zombie t i (k + 1)) as [b' o] eqn:E'. cbn in E. injection E as <- ->.
    split; [done|]. destruct Hp as [->|Hp]; [done|]. by apply (IH _ _ E').
  - destruct Hp as [->|Hp]; [done|]. by apply (IH _ _ E).
Qed.

Lemma find_pid_spec t pid k j :
  find_pid t pid k = Some j -> exists p, zget t (j - k) = Some p /\ p_pid p = pid.
Proof.
  revert k. induction t as [|p t IH]; intros k; cbn [find_pid]; [done|].
  destruct (Z.eqb_spec (p_pid p) pid); [intros [= <-]; exists p; by rewrite Z.sub_diag|].
  intros (q & Hq & Hpq)%IH. exists q. split; [by apply zget_later|done].
Qed.
End Effects.
