(* ===== verification/ProcLife.v ===== *)
(** Reachable process tables ([kernel/proc.c]).

    [pstep] runs the operations of [Proc] on the processes that are on a CPU, in
    any order, together with the scheduler and wakeups from elsewhere in the
    kernel.  The invariant of the reachable tables says who may share what:
    pids, parents, CPUs, and that nobody sleeps in [wait] with a child to reap. *)

From S2P Require Import Prelude Mem Kalloc Block Vm Proc ProcTable.

(** ** The invariant *)

Definition running (a : atable) (i : Z) : Prop :=
  exists c, zget (cores a) i = Some c /\ c_state c = RUNNING.

Definition on_cpu (l : list (option Z)) (i : Z) : Prop := exists k, zget l k = Some (Some i).

Record ainv (a : atable) : Prop := {
  ai_length : Z.of_nat (length (cores a)) = NPROC;
  ai_init : exists i c, ainit a = Some i /\ zget (cores a) i = Some c /\ live c;
  ai_dead : forall i c, zget (cores a) i = Some c -> c_state c = UNUSED ->
    c_chan c = None /\ c_pid c = 0 /\ c_parent c = None;
  ai_pid : forall i c, zget (cores a) i = Some c -> c_state c <> UNUSED -> 0 < c_pid c < anext a;
  ai_unique : forall i j c d, zget (cores a) i = Some c -> zget (cores a) j = Some d ->
    c_state c <> UNUSED -> c_state d <> UNUSED -> c_pid c = c_pid d -> i = j;
  ai_parent : forall i c, zget (cores a) i = Some c -> c_state c <> UNUSED -> ainit a <> Some i ->
    (c_state c = USED /\ c_parent c = None) \/
    exists j d, c_parent c = Some j /\ zget (cores a) j = Some d /\ live d;
  ai_running : forall i, running a i <-> on_cpu (acpus a) i;
  ai_one_cpu : forall i k l, zget (acpus a) k = Some (Some i) -> zget (acpus a) l = Some (Some i) -> k = l;
  ai_wait : forall i j c, zget (cores a) i = Some c -> c_state c = SLEEPING ->
    c_chan c = Some (proc_chan j) -> i = j /\
    forall l d, zget (cores a) l = Some d -> c_parent d = Some i -> c_state d <> ZOMBIE
}.

Definition set_acpus (a : atable) (l : list (option Z)) : atable :=
  {| cores := cores a; acpus := l; anext := anext a; ainit := ainit a |}.

(** Entry [k] after an assignment to entry [i]. *)
Lemma zget_set a i k c x y :
  zget (cores a) i = Some x -> zget (cores (set_core a i c)) k = Some y ->
  (k = i /\ y = c) \/ (k <> i /\ zget (cores a) k = Some y).
Proof.
  intros Hx. unfold set_core, set_cores. cbn [cores]. rewrite (zget_insert _ _ _ _ x) by done.
  case_decide; intros; simplify_eq; auto.
Qed.

Lemma zget_set_ne a i k c x :
  zget (cores a) i = Some x -> k <> i -> zget (cores (set_core a i c)) k = zget (cores a) k.
Proof.
  intros Hx Hk. unfold set_core, set_cores. cbn [cores]. rewrite (zget_insert _ _ _ _ x) by done.
  by rewrite decide_False.
Qed.

Ltac split_entries := repeat match goal with
  | H : zget (cores (set_core ?a ?i _)) ?k = Some _, Hx : zget (cores ?a) ?i = Some _ |- _ =>
      apply (zget_set a i k _ _ _ Hx) in H as [[? ?]|[? H]]; simplify_eq
  end.

Section Changes.
Implicit Types a : atable.

(** A live entry that has its parent stays live and keeps its pid and parent. *)
Lemma inv_live_change a i c c' l :
  ainv a -> zget (cores a) i = Some c -> live c -> (c_state c = USED -> c_parent c <> None) -> live c' ->
  c_pid c' = c_pid c -> c_parent c' = c_parent c ->
  (c_state c' = RUNNING <-> on_cpu l i) ->
  (forall j, j <> i -> on_cpu l j <-> on_cpu (acpus a) j) ->
  (forall j k k', zget l k = Some (Some j) -> zget l k' = Some (Some j) -> k = k') ->
  (forall j, c_state c' = SLEEPING -> c_chan c' = Some (proc_chan j) -> i = j /\
     forall m d, zget (cores a) m = Some d -> c_parent d = Some i -> c_state d <> ZOMBIE) ->
  ainv (set_acpus (set_core a i c') l).
Proof.
  intros Hinv Hc Hl Hup Hl' Hpid Hpar Hrun Hother Hone Hwait.
  assert (forall j d, zget (cores a) j = Some d -> live d ->
            exists d', zget (cores (set_core a i c')) j = Some d' /\ live d') as Hlive.
  { intros j d Hd Hld. destruct (decide (j = i)) as [->|Hj].
    - exists c'. split; [|done]. by eapply zget_set_core.
    - exists d. split; [|done]. by rewrite (zget_set_ne _ _ _ _ c). }
  split; cbn [cores acpus anext ainit set_acpus].
  - unfold set_core, set_cores. cbn [cores]. rewrite length_insert. apply Hinv.
  - destruct (ai_init _ Hinv) as (j & d & Hj & Hd & Hld).
    destruct (Hlive j d Hd Hld) as (d' & ? & ?). eauto.
  - intros j d Hj Hs. split_entries; [by destruct Hl'|]. by eapply ai_dead.
  - intros j d Hj Hs. split_entries; [rewrite Hpid; apply (ai_pid a Hinv i c Hc), Hl|by apply (ai_pid a Hinv j)].
  - intros j k d e Hj Hk Hs Ht Hp. destruct Hl, Hl'. split_entries; try done; rewrite ?Hpid in Hp;
      eapply ai_unique; done.
  - intros j d Hj Hs Hinit. cbn in Hinit.
    assert (exists d0, zget (cores a) j = Some d0 /\ c_state d0 <> UNUSED /\ c_parent d0 = c_parent d /\
              (c_state d0 = USED -> c_parent d0 = None -> c_state d = USED)) as (d0 & Hd0 & Hs0 & Hp0 & Hu0).
    { split_entries; [exists c; destruct Hl; split; [done|]; split; [done|]; split; [done|]|by exists d].
      intros Hu Hn. by destruct (Hup Hu). }
    destruct (ai_parent _ Hinv j d0 Hd0 Hs0 Hinit) as [[Hu Hn]|(m & e & Hpe & He & Hle)].
    { left. split; [auto|congruence]. }
    right. destruct (Hlive m e He Hle) as (e' & ? & ?). exists m, e'. split; [congruence|done].
  - intros j. destruct (decide (j = i)) as [->|Hj].
    + rewrite <- Hrun. split.
      * intros (d & Hd & Hs). cbn [cores set_acpus] in Hd. by split_entries.
      * intros Hs. exists c'. split; [by eapply zget_set_core|done].
    + rewrite Hother by done. rewrite <- (ai_running _ Hinv). unfold running.
      cbn [cores set_acpus]. by rewrite (zget_set_ne _ _ _ _ c).
  - apply Hone.
  - intros j k d Hj Hs Hch.
    assert (forall m e, zget (cores (set_core a i c')) m = Some e -> c_state e = ZOMBIE -> m <> i) as Hz.
    { intros m e Hm He ->. destruct Hl'. by split_entries. }
    assert (j = k /\ forall m d, zget (cores a) m = Some d -> c_parent d = Some j -> c_state d <> ZOMBIE)
      as [-> Hno] by (split_entries; [by apply Hwait|by eapply ai_wait]).
    split; [done|]. intros m e Hm Hpe Hse. pose proof (Hz m e Hm Hse) as Hmi.
    rewrite (zget_set_ne _ _ _ _ c) in Hm by done. by eapply Hno.
Qed.

(** Some entries were woken. *)
Lemma inv_aged a a' :
  ainv a -> acpus a' = acpus a -> anext a' = anext a -> ainit a' = ainit a ->
  length (cores a') = length (cores a) ->
  (forall k c, zget (cores a) k = Some c -> exists c', zget (cores a') k = Some c' /\ aged c c' /\
     c_parent c' = c_parent c) ->
  ainv a'.
Proof.
  intros Hinv Hcpu Hnext Hinit Hlen Hall.
  assert (forall k c', zget (cores a') k = Some c' -> exists c, zget (cores a) k = Some c /\
            aged c c' /\ c_parent c' = c_parent c) as Hback.
  { intros k c' Hk. pose proof Hk as [Hb _]%zget_Some. rewrite Hlen in Hb.
    destruct (zget_is_Some (cores a) k Hb) as [c Hc]. destruct (Hall k c Hc) as (d & Hd & ?).
    exists c. simplify_eq. done. }
  assert (forall c c', aged c c' -> live c -> live c') as Hlive.
  { intros c c' Hag [H1 H2]. destruct (aged_state _ _ Hag) as [Hs|[_ Hs]]; split; congruence. }
  assert (forall c c', aged c c' -> c_state c' <> UNUSED -> c_state c <> UNUSED) as Hused.
  { intros c c' Hag H1. destruct (aged_state _ _ Hag) as [Hs|[Hs _]]; congruence. }
  split; rewrite ?Hcpu, ?Hnext, ?Hinit, ?Hlen.
  - apply Hinv.
  - destruct (ai_init _ Hinv) as (j & d & Hj & Hd & Hld). destruct (Hall j d Hd) as (d' & Hd' & Hag & _).
    eauto 6.
  - intros k c' Hk Hs. destruct (Hback k c' Hk) as (c & Hc & Hag & Hp).
    destruct (aged_state _ _ Hag) as [Hst|[_ Hst]]; [|congruence].
    destruct (ai_dead _ Hinv k c Hc ltac:(congruence)) as (? & ? & ?). destruct Hag as [Hch Hpid _].
    repeat split; congruence.
  - intros k c' Hk Hs. destruct (Hback k c' Hk) as (c & Hc & Hag & Hp).
    rewrite (aged_pid _ _ Hag). eapply ai_pid; eauto.
  - intros k l c' d' Hk Hl Hs Ht Hpid. destruct (Hback k c' Hk) as (c & Hc & Hag & _).
    destruct (Hback l d' Hl) as (d & Hd & Hag' & _). rewrite (aged_pid _ _ Hag), (aged_pid _ _ Hag') in Hpid.
    eapply ai_unique; eauto.
  - intros k c' Hk Hs Hi. destruct (Hback k c' Hk) as (c & Hc & Hag & Hp).
    rewrite Hp. destruct (ai_parent _ Hinv k c Hc (Hused _ _ Hag Hs) Hi) as [[Hu Hn]|(j & d & Hpj & Hd & Hld)].
    { left. split; [|done]. destruct (aged_state _ _ Hag) as [|[]]; congruence. }
    right. destruct (Hall j d Hd) as (d' & Hd' & Hag' & _). exists j, d'. eauto.
  - intros k. rewrite <- (ai_running _ Hinv). split.
    + intros (c' & Hk & Hs). destruct (Hback k c' Hk) as (c & Hc & Hag & _). exists c. split; [done|].
      destruct (aged_state _ _ Hag) as [|[]]; congruence.
    + intros (c & Hk & Hs). destruct (Hall k c Hk) as (c' & Hc' & Hag & _). exists c'. split; [done|].
      destruct (aged_state _ _ Hag) as [|[]]; congruence.
  - apply Hinv.
  - intros k j c' Hk Hs Hch. destruct (Hback k c' Hk) as (c & Hc & Hag & _).
    destruct (aged_state _ _ Hag) as [Hst|[_ Hst]]; [|congruence]. rewrite (aged_chan _ _ Hag) in Hch.
    destruct (ai_wait _ Hinv k j c Hc ltac:(congruence) Hch) as [Hkj Hno]. split; [done|].
    intros l d' Hl Hpd Hz. destruct (Hback l d' Hl) as (d & Hd & Hag' & Hp). rewrite Hp in Hpd.
    apply (Hno l d Hd Hpd). destruct (aged_state _ _ Hag') as [|[]]; congruence.
Qed.

Lemma inv_one a j c c' :
  ainv a -> zget (cores a) j = Some c -> aged c c' -> c_parent c' = c_parent c -> ainv (set_core a j c').
Proof.
  intros Hinv Hc Hag Hp. apply (inv_aged a); try done.
  - unfold set_core, set_cores. cbn [cores]. apply length_insert.
  - intros k d Hk. destruct (decide (k = j)) as [->|Hkj].
    + exists c'. simplify_eq. split; [by eapply zget_set_core|done].
    + exists d. split; [by rewrite (zget_set_ne _ _ _ _ _ Hc)|]. split; [split; auto|done].
Qed.

Lemma inv_woken me c a : ainv a -> ainv (woken me c a).
Proof.
  intros Hinv. apply (inv_aged a); try done.
  - unfold woken, set_cores. cbn [cores]. apply length_imap.
  - intros k x Hx. exists (wake_core me c (Z.to_nat k) x). split; [|split].
    + unfold woken, set_cores. cbn [cores]. by rewrite zget_imap, Hx.
    + apply aged_wake.
    + apply wake_core_parent.
Qed.

(** A free entry is taken, with a new pid. *)
Lemma inv_new a c j pj :
  ainv a -> zget (cores a) j = Some pj -> c_state pj = UNUSED ->
  c_state c = USED -> c_pid c = anext a -> c_parent c = None -> 0 < anext a ->
  ainv (set_next (set_core a j c) (anext a + 1)).
Proof.
  intros Hinv Hj Hu Hs Hp Hpar Hpos.
  assert (ainit a <> Some j) as Hjinit.
  { intros Hi. destruct (ai_init _ Hinv) as (k & d & Hk & Hd & [Hl _]). simplify_eq. }
  assert (forall k d, zget (cores a) k = Some d -> live d ->
            zget (cores (set_core a j c)) k = Some d) as Hkeep.
  { intros k d Hk [Hl _]. rewrite (zget_set_ne _ _ _ _ pj); [done|done|]. intros ->. simplify_eq. }
  split; cbn [cores acpus anext ainit set_next].
  - unfold set_core, set_cores. cbn [cores]. rewrite length_insert. apply Hinv.
  - destruct (ai_init _ Hinv) as (k & d & Hk & Hd & Hld). exists k, d. split; [done|]. auto.
  - intros k d Hk Hd. split_entries; [congruence|]. by eapply ai_dead.
  - intros k d Hk Hd. split_entries; [lia|]. pose proof (ai_pid a Hinv k d). intuition lia.
  - intros k l d e Hk Hl Hd He Hpid.
    assert (forall m f, zget (cores a) m = Some f -> c_state f <> UNUSED -> c_pid f <> anext a) as Hfresh.
    { intros m f Hm Hf. pose proof (ai_pid a Hinv m f Hm Hf). lia. }
    split_entries; try done.
    + exfalso. apply (Hfresh k d); congruence.
    + exfalso. apply (Hfresh l e); congruence.
    + by eapply ai_unique.
  - intros k d Hk Hd Hi. split_entries.
    + by left.
    + destruct (ai_parent a Hinv k d Hk Hd Hi) as [|(m & e & ? & ? & ?)]; [by left|]. right. exists m, e. auto.
  - intros k. change (acpus (set_next (set_core a j c) (anext a + 1))) with (acpus a).
    rewrite <- (ai_running _ Hinv). unfold running. cbn [cores set_next]. split.
    + intros (d & Hk & Hd). split_entries; [congruence|]. by exists d.
    + intros (d & Hk & Hd). exists d. split; [|done]. apply Hkeep; [done|]. split; congruence.
  - apply Hinv.
  - intros k l d Hk Hd Hch. split_entries; [congruence|].
    destruct (ai_wait a Hinv k l d Hk Hd Hch) as [-> Hno]. split; [done|].
    intros m e Hm Hpe. split_entries. by eapply Hno.
Qed.

(** A running process becomes the parent of an entry that has none. *)
Lemma inv_adopt a i j c c' :
  ainv a -> running a i -> zget (cores a) j = Some c -> c_state c = USED -> c_state c' = USED ->
  c_pid c' = c_pid c -> c_parent c' = Some i -> ainv (set_core a j c').
Proof.
  intros Hinv (ci & Hci & Hri) Hj Hs Hs' Hp Hpar.
  assert (forall k d, zget (cores a) k = Some d -> live d ->
            exists d', zget (cores (set_core a j c')) k = Some d' /\ live d') as Hlive.
  { intros k d Hk Hl. destruct (decide (k = j)) as [->|Hkj].
    - exists c'. split; [by eapply zget_set_core|]. split; congruence.
    - exists d. by rewrite (zget_set_ne _ _ _ _ _ Hj). }
  split.
  - unfold set_core, set_cores. cbn [cores]. rewrite length_insert. apply Hinv.
  - destruct (ai_init _ Hinv) as (k & d & Hk & Hd & Hld). destruct (Hlive k d Hd Hld) as (d' & ? & ?). by exists k, d'.
  - intros k d Hk Hd. split_entries; [congruence|]. by eapply ai_dead.
  - intros k d Hk Hd. split_entries; [|by apply (ai_pid a Hinv k)]. rewrite Hp.
    apply (ai_pid a Hinv j c Hj). congruence.
  - intros k l d e Hk Hl Hd He Hpid. split_entries; try done; (eapply ai_unique; [done..| | |]; congruence).
  - intros k d Hk Hd Hi. split_entries.
    + right. destruct (Hlive i ci Hci) as (d & ? & ?); [split; congruence|]. by exists i, d.
    + destruct (ai_parent a Hinv k d Hk Hd Hi) as [|(m & e & ? & Hm & Hl)]; [by left|]. right.
      destruct (Hlive m e Hm Hl) as (e' & ? & ?). by exists m, e'.
  - intros k. change (acpus (set_core a j c')) with (acpus a).
    rewrite <- (ai_running _ Hinv). unfold running. split.
    + intros (d & Hk & Hd). split_entries; [congruence|]. by exists d.
    + intros (d & Hk & Hd). exists d. split; [|done]. rewrite (zget_set_ne _ _ _ _ _ Hj); [done|congruence].
  - apply Hinv.
  - intros k l d Hk Hd Hch. split_entries; [congruence|].
    destruct (ai_wait a Hinv k l d Hk Hd Hch) as [-> Hno]. split; [done|].
    intros m e Hm Hpe. split_entries; [congruence|]. by eapply Hno.
Qed.

(** An entry that is not live is cleared. *)
Lemma inv_reap a j cj : ainv a -> zget (cores a) j = Some cj -> ~ live cj -> ainv (set_core a j dead).
Proof.
  intros Hinv Hj Hz.
  assert (ainit a <> Some j) as Hjinit.
  { intros Hi. destruct (ai_init _ Hinv) as (k & d & Hk & Hd & Hl). by simplify_eq. }
  assert (forall k d, zget (cores a) k = Some d -> live d ->
            zget (cores (set_core a j dead)) k = Some d) as Hkeep.
  { intros k d Hk Hl. rewrite (zget_set_ne _ _ _ _ cj); [done|done|]. intros ->. by simplify_eq. }
  split.
  - unfold set_core, set_cores. cbn [cores]. rewrite length_insert. apply Hinv.
  - destruct (ai_init _ Hinv) as (k & d & Hk & Hd & Hld). exists k, d. split; [done|]. auto.
  - intros k d Hk Hd. split_entries; try done. by eapply ai_dead.
  - intros k d Hk Hd. split_entries; try done. by apply (ai_pid a Hinv k d).
  - intros k l d e Hk Hl Hd He Hpid. split_entries; try done. by eapply ai_unique.
  - intros k d Hk Hd Hi. split_entries; try done.
    destruct (ai_parent a Hinv k d Hk Hd Hi) as [|(m & e & ? & ? & ?)]; [by left|]. right. exists m, e. auto.
  - intros k. change (acpus (set_core a j dead)) with (acpus a).
    rewrite <- (ai_running _ Hinv). unfold running. split.
    + intros (d & Hk & Hd). split_entries; try done. by exists d.
    + intros (d & Hk & Hd). exists d. split; [|done]. apply Hkeep; [done|]. split; congruence.
  - apply Hinv.
  - intros k l d Hk Hd Hch. split_entries; try done.
    destruct (ai_wait a Hinv k l d Hk Hd Hch) as [-> Hno]. split; [done|].
    intros m e Hm Hpe. split_entries; try done. by eapply Hno.
Qed.

(** *** CPUs *)

Lemma zget_off (l : list (option Z)) (i k j : Z) :
  zget ((fun x => if decide (x = Some i) then None else x) <$> l) k = Some (Some j) <->
  zget l k = Some (Some j) /\ j <> i.
Proof.
  rewrite zget_fmap. destruct (zget l k) as [[m|]|]; cbn; [|naive_solver|naive_solver].
  case_decide; naive_solver.
Qed.

Lemma on_cpu_off a i j : on_cpu (acpus (off_cpu a i)) j <-> on_cpu (acpus a) j /\ j <> i.
Proof.
  unfold on_cpu, off_cpu. cbn [acpus]. setoid_rewrite zget_off. naive_solver.
Qed.

(** The running process [i] gives up its CPU. *)
Lemma inv_off a i c c' :
  ainv a -> zget (cores a) i = Some c -> c_state c = RUNNING -> live c' -> c_pid c' = c_pid c ->
  c_parent c' = c_parent c -> c_state c' <> RUNNING ->
  (forall j, c_state c' = SLEEPING -> c_chan c' = Some (proc_chan j) -> i = j /\
     forall m d, zget (cores a) m = Some d -> c_parent d = Some i -> c_state d <> ZOMBIE) ->
  ainv (off_cpu (set_core a i c') i).
Proof.
  intros Hinv Hc Hl Hl' Hpid Hpar Hrun Hwait.
  apply (inv_live_change a i c c' (acpus (off_cpu a i))); try done; try (split; congruence); try congruence.
  - rewrite on_cpu_off. naive_solver.
  - intros j Hj. rewrite on_cpu_off. naive_solver.
  - intros j k k' [Hk _]%zget_off [Hk' _]%zget_off. by eapply ai_one_cpu.
Qed.

(** A ready process gets a free CPU. *)
Lemma inv_run a i c c' k l :
  ainv a -> zget (cores a) i = Some c -> c_state c = RUNNABLE -> c_state c' = RUNNING ->
  c_pid c' = c_pid c -> c_parent c' = c_parent c -> zget (acpus a) k = Some None ->
  zset (acpus a) k (Some i) = Some l -> ainv (set_acpus (set_core a i c') l).
Proof.
  intros Hinv Hc Hs Hs' Hpid Hpar Hk Hl.
  assert (~ on_cpu (acpus a) i) as Hoff.
  { rewrite <- (ai_running _ Hinv). intros (d & Hd & Hr). congruence. }
  assert (forall m j, zget l m = Some (Some j) -> (m = k /\ j = i) \/ (m <> k /\ zget (acpus a) m = Some (Some j)))
    as Hget.
  { intros m j Hm. destruct (decide (m = k)) as [->|Hne].
    - rewrite (zget_zset_eq _ _ _ _ Hl) in Hm. injection Hm as ->. by left.
    - right. split; [done|]. by rewrite <- (zget_zset_ne _ _ _ _ _ Hl). }
  apply (inv_live_change a i c c' l); try done; try (split; congruence); try congruence.
  - split; [intros _; exists k; by eapply zget_zset_eq|done].
  - intros j Hj. split.
    + intros [m Hm]. apply Hget in Hm as [[_ ?]|[_ Hm]]; [done|]. by exists m.
    + intros [m Hm]. exists m. rewrite (zget_zset_ne _ _ _ _ _ Hl); [done|]. intros ->. congruence.
  - intros j m m' Hm Hm'.
    apply Hget in Hm as [[-> ->]|[? Hm]], Hm' as [[-> ?]|[? Hm']]; try done.
    + destruct Hoff. by exists m'.
    + subst j. destruct Hoff. by exists m.
    + by eapply ai_one_cpu.
Qed.

(** *** Exit *)

Section Exit.
Context (a a' : atable) (i : Z).
Context (Hinv : ainv a) (Hex : exited i a a') (Hrun : running a i) (Hnot : ainit a <> Some i).

(** Every entry comes from one with the same pid, whose parent was adopted. *)
Lemma exited_back k c' :
  zget (cores a') k = Some c' -> exists c, zget (cores a) k = Some c /\ c_pid c' = c_pid c /\
    c_parent c' = adopt (ainit a) i (c_parent c) /\
    if decide (k = i) then c_state c = RUNNING /\ c_state c' = ZOMBIE else aged c c'.
Proof.
  intros Hk. pose proof Hk as [Hb _]%zget_Some. rewrite (ex_length _ _ _ Hex) in Hb.
  destruct (zget_is_Some (cores a) k Hb) as [c Hc]. exists c. split; [done|]. case_decide as Hki.
  - subst k. destruct (ex_self _ _ _ Hex c Hc) as (d & Hd & Hz & Hp & Hpar).
    destruct Hrun as (e & He & Hr). simplify_eq. done.
  - destruct (ex_other _ _ _ Hex k c Hki Hc) as (d & Hd & Hag & Hpar). simplify_eq.
    split; [apply Hag|done].
Qed.

Lemma exited_live k c : zget (cores a) k = Some c -> live c -> k <> i ->
  exists c', zget (cores a') k = Some c' /\ live c'.
Proof.
  intros Hk [H1 H2] Hki. destruct (ex_other _ _ _ Hex k c Hki Hk) as (c' & Hc' & Hag & _).
  exists c'. split; [done|]. destruct (aged_state _ _ Hag) as [Hs|[_ Hs]]; split; congruence.
Qed.

Lemma exited_used k c' c : zget (cores a') k = Some c' -> zget (cores a) k = Some c ->
  c_state c' <> UNUSED -> c_state c <> UNUSED.
Proof.
  intros Hk Hc Hs. destruct (exited_back k c' Hk) as (d & Hd & _ & _ & H1). simplify_eq.
  case_decide; [intuition congruence|]. destruct (aged_state _ _ H1) as [|[]]; congruence.
Qed.

Lemma exited_sleeps k j c' :
  zget (cores a') k = Some c' -> c_state c' = SLEEPING -> c_chan c' = Some (proc_chan j) ->
  k <> i /\ k = j /\ exists c, zget (cores a) k = Some c /\ c_state c = SLEEPING /\
    forall l d, zget (cores a) l = Some d -> c_parent d = Some k -> c_state d <> ZOMBIE.
Proof.
  intros Hk Hs Hch. destruct (exited_back k c' Hk) as (c & Hc & _ & _ & H1).
  case_decide as Hki; [destruct H1; congruence|].
  destruct (aged_state _ _ H1) as [Hst|[_ Hst]]; [|congruence]. rewrite (aged_chan _ _ H1) in Hch.
  destruct (ai_wait a Hinv k j c Hc ltac:(congruence) Hch) as [Hkj Hno].
  split; [done|]. split; [done|]. exists c. split; [done|]. split; [congruence|done].
Qed.

Lemma inv_exit : ainv a'.
Proof.
  split; rewrite ?(ex_length _ _ _ Hex), ?(ex_next _ _ _ Hex), ?(ex_init _ _ _ Hex).
  - apply Hinv.
  - destruct (ai_init _ Hinv) as (k & c & Hk & Hc & Hl).
    destruct (exited_live k c Hc Hl) as (c' & ? & ?); [congruence|]. eauto.
  - intros k c' Hk Hs. destruct (exited_back k c' Hk) as (c & Hc & Hp & Hpar & H1).
    case_decide; [destruct H1; congruence|]. destruct (aged_state _ _ H1) as [Hst|[_ Hst]]; [|congruence].
    destruct (ai_dead _ Hinv k c Hc ltac:(congruence)) as (? & ? & Hnone). rewrite (aged_chan _ _ H1).
    unfold adopt in Hpar. rewrite Hnone, decide_False in Hpar by done. repeat split; congruence.
  - intros k c' Hk Hs. destruct (exited_back k c' Hk) as (c & Hc & -> & _). eapply ai_pid; [done|done|].
    by eapply exited_used.
  - intros k l c' d' Hk Hl Hs Ht Hpid. destruct (exited_back k c' Hk) as (c & Hc & Hp & _).
    destruct (exited_back l d' Hl) as (d & Hd & Hq & _).
    apply (ai_unique a Hinv k l c d Hc Hd); [by apply (exited_used k c')|by apply (exited_used l d')|congruence].
  - intros k c' Hk Hs Hki. destruct (exited_back k c' Hk) as (c & Hc & _ & Hpar & H1).
    destruct (ai_parent a Hinv k c Hc) as [[Hu Hn]|(j & d & Hj & Hd & Hl)]; [by eapply exited_used|done| |].
    { left. case_decide as Hki'; [destruct H1; congruence|]. rewrite Hpar, Hn. split; [|done].
      destruct (aged_state _ _ H1) as [|[]]; congruence. }
    right. clear H1. rewrite Hj in Hpar. unfold adopt in Hpar. case_decide as Hji.
    + destruct (ai_init _ Hinv) as (m & e & Hm & He & Hle).
      destruct (exited_live m e He Hle) as (e' & ? & ?); [congruence|]. exists m, e'. split; [congruence|done].
    + destruct (exited_live j d Hd Hl) as (d' & ? & ?); [congruence|]. eauto.
  - intros k. rewrite (ex_cpus _ _ _ Hex), on_cpu_off, <- (ai_running _ Hinv). split.
    + intros (c' & Hk & Hs). destruct (exited_back k c' Hk) as (c & Hc & _ & _ & H1).
      case_decide; [destruct H1; congruence|]. split; [|done]. exists c. split; [done|].
      destruct (aged_state _ _ H1) as [|[]]; congruence.
    + intros [(c & Hc & Hs) Hki]. destruct (ex_other _ _ _ Hex k c Hki Hc) as (c' & Hc' & Hag & _).
      exists c'. split; [done|]. destruct (aged_state _ _ Hag) as [|[]]; congruence.
  - rewrite (ex_cpus _ _ _ Hex). intros j k l [Hk _]%zget_off [Hl _]%zget_off. by eapply ai_one_cpu.
  - intros k j c' Hk Hs Hch. destruct (exited_sleeps k j c' Hk Hs Hch) as (Hki & -> & c & Hc & Hsc & Hno).
    split; [done|]. intros l d' Hl Hpd Hz. destruct (exited_back l d' Hl) as (d & Hd & _ & Hpar & H1).
    case_decide as Hli.
    + subst l. apply (ex_wake_parent _ _ _ Hex j c' Hki Hk Hs d' Hl). by rewrite Hpd.
    + rewrite Hpd in Hpar. unfold adopt in Hpar. case_decide as Hpi.
      * apply (ex_wake_init _ _ _ Hex j c c' Hki Hc Hk Hs) with l d; [|done|done]. by rewrite <- Hpar.
      * apply (Hno l d Hd); [congruence|]. destruct (aged_state _ _ H1) as [|[]]; congruence.
Qed.
End Exit.
End Changes.

(** ** Steps *)

Section Steps.
Context {F : Type} `{ProcFiles F}.
Context (kend trampoline forkret : Z).
Abbreviation pworld := (pworld (F := F)).
Implicit Types w : pworld.

(** One operation of a process that is on a CPU, of the scheduler, or of the
    rest of the kernel.  [fork] is three steps, for it lets go of the lock of the
    new process between them: the entry is then [USED], and it is the [fork] that
    made it that gives it its parent and makes it ready.  Process numbers are
    followed until the counter would overflow.  A process sleeps on the address of a process only in [wait]; the
    rest of the kernel, sleeping in [exit] and [fork] for the sake of files
    included, does not touch the part of the table [abs] keeps. *)
Inductive pstep w : pworld -> Prop :=
| step_run c i w' : zget (cpus w) c = Some None -> run c i w = Ok tt w' -> pstep w w'
| step_fork_copy i r w' : on_cpu (cpus w) i -> nextpid w < 2 ^ 31 - 1 ->
    fork_copy kend trampoline forkret i w = Ok r w' -> pstep w w'
| step_fork_adopt i np p w' : on_cpu (cpus w) i -> zget (procs w) np = Some p -> p_state p = USED ->
    fork_adopt i np w = Ok tt w' -> pstep w w'
| step_fork_ready np p w' : zget (procs w) np = Some p -> p_state p = USED -> p_parent p <> None ->
    fork_ready np w = Ok tt w' -> pstep w w'
| step_exit i st w' : on_cpu (cpus w) i -> exit i st w = Ok tt w' -> pstep w w'
| step_wait i addr r w' : on_cpu (cpus w) i -> wait kend i addr w = Ok r w' -> pstep w w'
| step_wait_sleep i addr c w' : on_cpu (cpus w) i -> wait kend i addr w = Sleep c w' -> pstep w w'
| step_sleep i c w' : on_cpu (cpus w) i -> chan_obj c <> "proc" ->
    sleep (A := unit) i c w = Sleep c w' -> pstep w w'
| step_yield i w' : on_cpu (cpus w) i -> yield i w = Ok tt w' -> pstep w w'
| step_kill pid r w' : kill pid w = Ok r w' -> pstep w w'
| step_setkilled i w' : on_cpu (cpus w) i -> setkilled i w = Ok tt w' -> pstep w w'
| step_growproc i n r w' : on_cpu (cpus w) i -> growproc kend i n w = Ok r w' -> pstep w w'
| step_wakeup me c w' : wakeup me (Some c) w = Ok tt w' -> pstep w w'
| step_kernel w' : abs w' = abs w -> pstep w w'.

Lemma inv_fork w r a : ainv (abs w) -> nextpid w < 2 ^ 31 - 1 -> copy_effect w r a -> ainv a.
Proof.
  intros Hinv Hnext Hf.
  assert (0 < nextpid w) as Hpos.
  { destruct (ai_init _ Hinv) as (k & c & _ & Hc & [Hl _]). pose proof (ai_pid _ Hinv k c Hc Hl). cbn in *. lia. }
  assert (i32 (nextpid w + 1) = nextpid w + 1) as Hi32 by (apply i32_small; lia).
  destruct Hf as [|j p Hj Hs|j p _ Hj Hs]; [done| |]; rewrite Hi32; apply zget_abs in Hj.
  - assert (ainv (set_core (abs w) j dead)) as Hr by (eapply inv_reap; [done|done|]; intros []; done).
    split; try apply Hr. intros k c Hk Hc. pose proof (ai_pid _ Hr k c Hk Hc). cbn in *. lia.
  - eapply (inv_new (abs w) _ j (core_of p)); try done. by destruct (ai_dead _ Hinv j _ Hj Hs) as (_ & _ & ?).
Qed.

Lemma inv_ready w np p w' :
  ainv (abs w) -> zget (procs w) np = Some p -> p_state p = USED -> p_parent p <> None ->
  fork_ready np w = Ok tt w' -> ainv (abs w').
Proof.
  intros Hinv Hp Hs Hpar (q & Hq & _ & ->)%update_Ok. simplify_eq. apply zget_abs in Hp as Hc.
  assert (~ on_cpu (acpus (abs w)) np) as Hoff.
  { rewrite <- (ai_running _ Hinv). intros (d & Hd & Hr). simplify_eq. cbn in *. congruence. }
  apply (inv_live_change (abs w) np (core_of p) (core_of (with_state p RUNNABLE)) (acpus (abs w)));
    try done; try (split; cbn; congruence).
  intros j k k'. by eapply ai_one_cpu.
Qed.

Lemma sleep_effect A i c w c' w' :
  sleep (A := A) i c w = Sleep c' w' -> exists p, zget (procs w) i = Some p /\
    abs w' = off_cpu (set_core (abs w) i (Core SLEEPING (Some c) (p_pid p) (p_parent p) (p_killed p))) i.
Proof.
  unfold sleep, kbind. destruct (update _ _ w) as [[] w1| |] eqn:E1; [|done|].
  - apply update_Ok in E1 as (p & Hp & _ & E1). destruct (sched i w1) as [[] w2| |] eqn:E2; [|done|].
    + intros [= _ <-]. exists p. split; [done|]. apply sched_effect in E2. by rewrite E2, E1.
    + unfold sched, kbind in E2. destruct (get_proc i w1) eqn:E3; [|done|].
      * by case_decide.
      * unfold get_proc in E3. by case_match.
  - unfold update, kbind, get_proc, put_proc in E1. repeat case_match; by simplify_eq.
Qed.

(** What a call of [wait] leaves when it sleeps before its own [sleep]. *)
Lemma kbind_Sleep_inv {A B} (m : M pworld A) (k : A -> M pworld B) w c w' :
  kbind m k w = Sleep c w' -> m w = Sleep c w' \/ exists a w1, m w = Ok a w1 /\ k a w1 = Sleep c w'.
Proof. unfold kbind. destruct (m w) eqn:E; intros; simplify_eq; eauto. Qed.

Lemma on_mem_Sleep {A} (m : M kstate A) w c w' : on_mem m w = Sleep c w' -> abs w' = abs w.
Proof. unfold on_mem. destruct (m _); intros; by simplify_eq. Qed.

Lemma update_Sleep i f w c w' : update i f w <> Sleep c w'.
Proof. unfold update, kbind, get_proc, put_proc. repeat case_match; by simplify_eq. Qed.

Lemma freeproc_Sleep i w c w' : freeproc kend i w = Sleep c w' -> abs w' = abs w.
Proof.
  assert (forall (b : bool) (m : M kstate unit) w c w', (if b then kret tt else on_mem m) w = Sleep c w' ->
    abs w' = abs w) as Hif by (intros [] m w0 c0 w0'; [done|apply on_mem_Sleep]).
  intros E. apply kbind_Sleep_inv in E as [E|(p & w1 & [-> _]%get_proc_Ok & E)].
  { unfold get_proc in E. by case_match. }
  apply kbind_Sleep_inv in E as [E|([] & w2 & E2 & E)]; [by eapply Hif|].
  apply inert_if in E2; [|apply inert_ret|apply inert_mem].
  apply kbind_Sleep_inv in E as [E|([] & w3 & E3 & E)]; [by apply update_Sleep in E|].
  apply inert_update in E3; [|done].
  apply kbind_Sleep_inv in E as [E|([] & w4 & E4 & E)]; [|by apply update_Sleep in E].
  apply Hif in E. congruence.
Qed.

(** The branches of [wait]. *)
Inductive wait_effect i w : atable -> Prop :=
| wait_same : wait_effect i w (abs w)
| wait_reap j p : zget (procs w) j = Some p -> p_parent p = Some i -> p_state p = ZOMBIE ->
    wait_effect i w (set_core (abs w) j dead)
| wait_sleeps p : zget (procs w) i = Some p ->
    (forall j q, zget (procs w) j = Some q -> p_parent q = Some i -> p_state q <> ZOMBIE) ->
    wait_effect i w (off_cpu (set_core (abs w) i
      (Core SLEEPING (Some (proc_chan i)) (p_pid p) (p_parent p) (p_killed p))) i).

Lemma wait_reap_effect i addr j (p pp : proc) w :
  zget (procs w) j = Some pp -> p_parent pp = Some i -> p_state pp = ZOMBIE ->
  let m := (let! r := (if addr =? 0 then kret 0
              else on_mem (copyout (p_pagetable p) addr (int32_bytes (p_xstate pp)))) in
            if r <? 0 then kret (-1) else freeproc kend j ;;; kret (p_pid pp)) in
  (forall r w', m w = Ok r w' -> wait_effect i w (abs w')) /\
  (forall c w', m w = Sleep c w' -> wait_effect i w (abs w')).
Proof.
  intros Hj Hp Hz m. split.
  - intros r w' E. apply kbind_Ok_inv in E as (rc & w1 & E1 & E).
    apply inert_if in E1; [|apply inert_ret|apply inert_mem]. destruct (rc <? 0).
    { injection E as <- <-. rewrite E1. constructor. }
    apply kbind_Ok_inv in E as ([] & w2 & E2%freeproc_effect & [= <- <-]).
    rewrite E2, E1. by eapply wait_reap.
  - intros c w' E. assert (abs w' = abs w) as ->; [|constructor].
    apply kbind_Sleep_inv in E as [E|(rc & w1 & E1 & E)].
    { destruct (addr =? 0); [done|]. by apply on_mem_Sleep in E. }
    apply inert_if in E1; [|apply inert_ret|apply inert_mem]. destruct (rc <? 0); [done|].
    apply kbind_Sleep_inv in E as [E%freeproc_Sleep|([] & w2 & _ & E)]; [congruence|done].
Qed.

Lemma wait_effects i addr w p :
  zget (procs w) i = Some p ->
  (forall r w', wait kend i addr w = Ok r w' -> wait_effect i w (abs w')) /\
  (forall c w', wait kend i addr w = Sleep c w' -> wait_effect i w (abs w')).
Proof.
  intros Hp. assert (forall j q, zget (procs w) j = Some q -> get_proc j w = Ok q w) as Hget
    by (intros j q Hq; unfold get_proc; by rewrite Hq).
  unfold wait. rewrite !(kbind_Ok (kgets procs) _ w _ w eq_refl), !(kbind_Ok _ _ _ _ _ (Hget i p Hp)).
  destruct (find_zombie (procs w) i 0) as [b [j|]] eqn:Ef.
  - apply find_zombie_spec in Ef as (pp & Hj & Hpar & Hz). rewrite Z.sub_0_r in Hj.
    rewrite !(kbind_Ok _ _ _ _ _ (Hget j pp Hj)). by apply (wait_reap_effect i addr j p pp w).
  - pose proof (find_zombie_none _ _ _ _ Ef) as Hno. destruct (_ || _).
    { split; [|done]. intros r w' [= <- <-]. constructor. }
    split.
    + intros r w' E. exfalso. unfold sleep, kbind in E. repeat case_match; done.
    + intros c w' E. apply sleep_effect in E as (q & Hq & ->). apply wait_sleeps; [done|].
      intros j r Hj Hpr. apply (Hno r); [|done]. apply zget_Some in Hj as [_ Hj].
      by eapply list_elem_of_lookup_2.
Qed.

Lemma running_live w i :
  ainv (abs w) -> on_cpu (cpus w) i -> exists p, zget (procs w) i = Some p /\ p_state p = RUNNING.
Proof.
  intros Hinv Hon. apply (ai_running _ Hinv) in Hon as (c & Hc & Hs).
  apply zget_abs_inv in Hc as (p & Hp & ->). by exists p.
Qed.

Lemma inv_wait i w a : ainv (abs w) -> on_cpu (cpus w) i -> wait_effect i w a -> ainv a.
Proof.
  intros Hinv Hon He. destruct He as [|j p Hj _ Hz|p Hp Hno]; [done| |].
  - eapply inv_reap; [done|by apply zget_abs|]. by intros [].
  - destruct (running_live w i Hinv Hon) as (q & Hq & Hs). simplify_eq.
    eapply inv_off; [done|by apply zget_abs|..]; try done; try (split; cbn; congruence).
    cbn. intros j _ [= ->]. split; [done|].
    intros m d Hm Hpd. apply zget_abs_inv in Hm as (r & Hr & ->). by eapply Hno.
Qed.

Lemma inv_kill pid w r w' : ainv (abs w) -> kill pid w = Ok r w' -> ainv (abs w').
Proof.
  intros Hinv E. apply kbind_Ok_inv in E as (t & w1 & [= <- <-] & E).
  destruct (find_pid _ _ _) as [j|]; [|by injection E as <- <-].
  apply kbind_Ok_inv in E as ([] & w1 & (p & Hp & _ & E1)%update_Ok & [= <- <-]). rewrite E1.
  eapply inv_one; [done|by apply zget_abs| |]; cbn; case_decide; try done; split; auto.
Qed.

Lemma table_step w w' : ainv (abs w) -> pstep w w' -> ainv (abs w').
Proof.
  intros Hinv Hstep. destruct Hstep as [c i w' Hc E|i r w' Hi Hn E|i np p w' Hi Hp Hs E|np p w' Hp Hs Hpar E|i st w' Hi E|i addr r w' Hi E
    |i addr c w' Hi E|i c w' Hi Hc E|i w' Hi E|pid r w' E|i w' Hi E|i n r w' Hi E|me c w' E|w' ->].
  - apply kbind_Ok_inv in E as (p & w1 & [-> Hp]%get_proc_Ok & E).
    case_decide as Hs; [|by injection E as <-].
    apply kbind_Ok_inv in E as ([] & w1 & [_ ->]%put_proc_Ok & E). cbn in E.
    destruct (zset (cpus w) c (Some i)) as [l|] eqn:El; [|done]. injection E as <-.
    pose proof (inv_run (abs w) i (core_of p) (core_of (with_chan (with_state p RUNNING) None)) c l) as Hr.
    unfold abs at 1. cbn. rewrite list_fmap_insert. apply Hr; try done. by apply zget_abs.
  - apply fork_copy_effect in E. by eapply inv_fork.
  - apply update_Ok in E as (q & Hq & _ & ->). simplify_eq.
    eapply (inv_adopt (abs w) i); [done|by apply ai_running|by apply zget_abs|done..].
  - by eapply inv_ready.
  - apply exit_effect in E as [Hn E].
    + eapply inv_exit; [exact Hinv|done| |done]. by apply ai_running.
    + pose proof (ai_length _ Hinv) as Hl. cbn in Hl. by rewrite length_fmap in Hl.
  - destruct (running_live w i Hinv Hi) as (p & Hp & _). apply (wait_effects i addr w p Hp) in E.
    by eapply inv_wait.
  - destruct (running_live w i Hinv Hi) as (p & Hp & _). apply (wait_effects i addr w p Hp) in E.
    by eapply inv_wait.
  - destruct (running_live w i Hinv Hi) as (q & Hq & Hs). apply sleep_effect in E as (p & Hp & ->). simplify_eq.
    eapply inv_off; [done|by apply zget_abs|..]; try done; try (split; cbn; congruence).
    cbn. intros j _ [= ->]. done.
  - destruct (running_live w i Hinv Hi) as (q & Hq & Hs).
    apply kbind_Ok_inv in E as ([] & w1 & (p & Hp & _ & E1)%update_Ok & E%sched_effect). simplify_eq.
    rewrite E, E1. eapply inv_off; [done|by apply zget_abs|..]; try done; split; cbn; congruence.
  - by eapply inv_kill.
  - apply update_Ok in E as (p & Hp & _ & E). rewrite E.
    eapply inv_one; [done|by apply zget_abs| |done]. split; auto.
  - apply inert_growproc in E. by rewrite E.
  - apply wakeup_effect in E. rewrite E. by apply inv_woken.
  - done.
Qed.

(** ** Boot *)

(** The state [userinit] starts from. *)
Definition boot (m : kstate) (f : F) : pworld :=
  {| procs := procinit; cpus := replicate 8 None; nextpid := 1; initproc := None;
     kpages := m; kfiles := f |}.

Lemma zget_boot m f i c : zget (cores (abs (boot m f))) i = Some c -> c = dead.
Proof.
  intros Hc. apply zget_abs_inv in Hc as (p & Hp & ->). cbn [procs boot] in Hp. unfold procinit in Hp.
  rewrite zget_fmap in Hp. destruct (zget _ _); [|done]. by injection Hp as <-.
Qed.

Lemma userinit_effect m f w :
  userinit kend trampoline forkret (boot m f) = Ok tt w ->
  exists i, is_Some (zget (cores (abs (boot m f))) i) /\
    abs w = {| cores := <[Z.to_nat i := Core RUNNABLE None 1 None 0]> (cores (abs (boot m f)));
               acpus := replicate 8 None; anext := 2; ainit := Some i |}.
Proof.
  intros E. apply kbind_Ok_inv in E as (o & w1 & E1%allocproc_effect & E).
  apply kbind_Ok_inv in E as (i & w2 & E2 & E). destruct o as [j|]; [|done]. injection E2 as <- <-.
  remember (Some j) as o eqn:Ho. remember (abs w1) as a1 eqn:Ha.
  destruct E1 as [| |i p _ Hp Hs]; [done|done|]. injection Ho as ->. exists j. symmetry in Ha.
  apply kbind_Ok_inv in E as ([] & w2 & [= <-] & E).
  apply kbind_Ok_inv in E as (q & w3 & [-> _]%get_proc_Ok & E).
  set (w2 := PWorld _ _ _ _ _ _) in E.
  apply kbind_Ok_inv in E as ([] & w3 & E3%inert_mem & E).
  apply kbind_Ok_inv in E as ([] & w4 & E4 & E). apply inert_update in E4; [|done].
  apply kbind_Ok_inv in E as ([] & w5 & E5%inert_mem & E).
  apply kbind_Ok_inv in E as ([] & w6 & E6%inert_mem & E).
  apply kbind_Ok_inv in E as ([] & w7 & E7 & E). apply inert_update in E7; [|done].
  apply kbind_Ok_inv in E as (root & w8 & E8%inert_files & E).
  apply kbind_Ok_inv in E as ([] & w9 & E9 & E). apply inert_update in E9; [|done].
  assert (abs w9 = abs w2) as H9 by congruence.
  apply update_Ok in E as (r & Hr & _ & ->). apply zget_abs in Hr. rewrite H9 in Hr. rewrite H9.
  assert (cores (abs w2) = cores (abs w1)) as Hcores by done. rewrite Hcores, Ha in Hr.
  change (cores (set_next ?a _)) with (cores a) in Hr. apply zget_abs in Hp.
  rewrite (zget_set_core _ _ _ _ Hp) in Hr. injection Hr as H1 H2 H3 H4 H5.
  pose proof (zget_boot m f j _ Hp) as Hdead. injection Hdead as D1 D2 D3 D4 D5.
  split; [rewrite Hp; done|].
  replace (core_of (with_state r RUNNABLE)) with (Core RUNNABLE None 1 None 0)
    by (unfold core_of; cbn in *; congruence).
  apply (f_equal cores) in Ha as Hc. apply (f_equal acpus) in Ha as Hcpu. apply (f_equal anext) in Ha as Hn.
  unfold w2, abs, set_core, set_cores. cbn in *. rewrite Hc, Hcpu, Hn. by rewrite list_insert_insert_eq.
Qed.

Lemma table_boot m f w : userinit kend trampoline forkret (boot m f) = Ok tt w -> ainv (abs w).
Proof.
  intros (i & [ci Hci] & ->)%userinit_effect. set (b := abs (boot m f)) in *.
  set (c := Core RUNNABLE None 1 None 0).
  assert (forall k d, zget (<[Z.to_nat i := c]> (cores b)) k = Some d -> (k = i /\ d = c) \/ d = dead) as Hget.
  { intros k d. rewrite (zget_insert _ _ _ _ ci) by done. case_decide; [intros [= <-]; auto|].
    intros Hk. right. by apply (zget_boot m f k). }
  assert (zget (<[Z.to_nat i := c]> (cores b)) i = Some c) as Hi
    by (rewrite (zget_insert _ _ _ _ ci), decide_True; done).
  split; cbn [cores acpus anext ainit].
  - rewrite length_insert. done.
  - exists i, c. done.
  - intros k d [[-> ->]| ->]%Hget; done.
  - intros k d [[-> ->]| ->]%Hget; [|done]. cbn. lia.
  - intros k l d e [[-> ->]| ->]%Hget [[-> ->]| ->]%Hget; done.
  - intros k d [[-> ->]| ->]%Hget; done.
  - intros k. split.
    + intros (d & [[-> ->]| ->]%Hget & Hs); done.
    + intros [l Hl]. apply zget_Some in Hl as [_ Hl]. by apply lookup_replicate in Hl as [? _].
  - intros k l l' Hl. apply zget_Some in Hl as [_ Hl]. by apply lookup_replicate in Hl as [? _].
  - intros k l d [[-> ->]| ->]%Hget; done.
Qed.
End Steps.


(** ** A machine with eight free pages and no files *)

Definition no_files : ProcFiles unit :=
  {| f_dup f := kret f; f_close _ := kret tt; f_idup i := kret i; f_put _ := kret tt; f_root := kret (Some 0) |}.

Definition eight_end : Z := PHYSTOP - 8 * PGSIZE.

Definition eight_pages : kstate :=
  match kinit eight_end {| kmem := fun _ => 0; freelist := 0 |} with
  | Ok _ s => s
  | _ => {| kmem := fun _ => 0; freelist := 0 |}
  end.

Definition is_ok {S A} (r : res S A) : bool := match r with Ok _ _ => true | _ => false end.

(** Boot, then the first process runs on CPU 0. *)
Lemma boot_runs {F} `{ProcFiles F} kend trampoline forkret m f :
  is_ok ((userinit kend trampoline forkret ;;; run 0 0) (boot m f)) = true -> exists w0 w,
  userinit kend trampoline forkret (boot m f) = Ok tt w0 /\
  run 0 0 w0 = Ok tt w /\ pstep kend trampoline forkret w0 w.
Proof.
  intros E. destruct (kbind _ _ _) as [[] w| |] eqn:E'; [|done|done].
  apply kbind_Ok_inv in E' as ([] & w0 & E1 & E2). exists w0, w. split; [done|]. split; [done|].
  apply (step_run _ _ _ _ 0 0); [|done].
  apply userinit_effect in E1 as (i & _ & Hw0). change (cpus w0) with (acpus (abs w0)). by rewrite Hw0.
Qed.

Lemma eight_starts :
  is_ok ((userinit (H := no_files) eight_end 0x80007000 0 ;;; run 0 0) (boot eight_pages tt)) = true.
Proof. vm_compute. reflexivity. Qed.


(** ** Kill *)

Lemma find_pid_zero {F} (w : pworld (F := F)) :
  ainv (abs w) -> find_pid (procs w) 0 0 = find_unused (procs w) 0.
Proof.
  intros Hinv.
  assert (Forall (fun p => p_pid p = 0 <-> p_state p = UNUSED) (procs w)) as Hall.
  { apply list.Forall_forall. intros p (n & Hn)%list_elem_of_lookup_1.
    assert (zget (cores (abs w)) (Z.of_nat n) = Some (core_of p)) as Hc.
    { apply zget_abs. apply zget_Some. rewrite Nat2Z.id. apply lookup_lt_Some in Hn as Hl. split; [lia|done]. }
    split.
    - intros Hp. destruct (decide (p_state p = UNUSED)) as [|Hs]; [done|].
      pose proof (ai_pid _ Hinv _ _ Hc Hs). cbn in *. lia.
    - intros Hs. by apply (ai_dead _ Hinv _ _ Hc) in Hs as (_ & ? & _). }
  generalize 0 at 2 3. induction Hall as [|p t Hp _ IH]; intros k; [done|]. cbn [find_pid find_unused].
  destruct (Z.eqb_spec (p_pid p) 0), (decide (p_state p = UNUSED)); try done; tauto.
Qed.

Lemma find_unused_ext t t' k : p_state <$> t = p_state <$> t' -> find_unused t k = find_unused t' k.
Proof.
  revert t' k. induction t as [|p t IH]; intros [|p' t'] k; cbn; try done. intros [= Hp Ht].
  rewrite Hp. case_decide; [done|]. by apply IH.
Qed.

(** [kill(0)] succeeds while there is a free process entry: it marks the free
    entry the next [fork] takes as killed.  The process that [fork] creates
    next is born killed, although nobody killed it. *)
Theorem kill_zero_dooms_next_fork {F} `{ProcFiles F} kend trampoline forkret (w : pworld (F := F)) j :
  ainv (abs w) -> find_unused (procs w) 0 = Some j ->
  exists w1, kill 0 w = Ok 0 w1 /\
    forall i r w2, fork kend trampoline forkret i w1 = Ok r w2 -> r <> -1 ->
      exists p, zget (procs w2) j = Some p /\ p_pid p = r /\ p_killed p = 1 /\ p_state p = RUNNABLE.
Proof.
  intros Hinv Hj. pose proof Hj as (p & Hp & Hs)%find_unused_spec. rewrite Z.sub_0_r in Hp.
  pose proof Hp as [Hb _]%zget_Some.
  exists (set_procs w (<[Z.to_nat j := with_killed p 1]> (procs w))). split.
  { unfold kill. rewrite (kbind_Ok (kgets procs) _ w _ w eq_refl), find_pid_zero, Hj by done.
    unfold update, get_proc, put_proc, kbind. rewrite Hp. cbn. rewrite decide_False by congruence.
    by rewrite zset_in. }
  set (w1 := set_procs _ _). intros i r w2 E%fork_effect_Ok Hr.
  assert (zget (procs w1) j = Some (with_killed p 1)) as Hp1
    by (unfold w1; cbn [procs set_procs]; by rewrite (zget_insert _ _ _ _ p), decide_True).
  assert (find_unused (procs w1) 0 = Some j) as Hj1.
  { rewrite <- Hj. apply find_unused_ext. unfold w1. cbn [procs set_procs]. rewrite list_fmap_insert.
    apply list_insert_id. rewrite list_lookup_fmap. apply zget_Some in Hp as [_ ->]. done. }
  remember (abs w2) as a2 eqn:Ha. destruct E as [| |k q Hk Hq _]; [done|done|].
  rewrite Hj1 in Hk. injection Hk as <-. rewrite Hp1 in Hq. injection Hq as <-.
  pose proof (zget_set_core (abs w1) j (Core RUNNABLE (p_chan p) (nextpid w1) (Some i) 1)
                _ (zget_abs w1 j _ Hp1)) as Hg.
  apply (f_equal cores) in Ha. cbn [cores set_next] in Ha.
  change (p_chan (with_killed p 1)) with (p_chan p) in Ha. change (p_killed (with_killed p 1)) with 1 in Ha.
  rewrite Ha in Hg. apply zget_abs_inv in Hg as (q & Hq & [=]). by exists q.
Qed.

Lemma boot_free {F} `{ProcFiles F} kend trampoline forkret m f j :
  match userinit kend trampoline forkret (boot m f) with
  | Ok _ w => find_unused (procs w) 0
  | _ => None
  end = Some j ->
  exists w, userinit kend trampoline forkret (boot m f) = Ok tt w /\ find_unused (procs w) 0 = Some j.
Proof. destruct (userinit _ _ _ _) as [[] w| |]; [|done|done]. by exists w. Qed.

Lemma eight_free :
  match userinit (H := no_files) eight_end 0x80007000 0 (boot eight_pages tt) with
  | Ok _ w => find_unused (procs w) 0
  | _ => None
  end = Some 1.
Proof. vm_compute. reflexivity. Qed.

Lemma kill_zero_dooms_next_fork_witness : exists w w1 : pworld (F := unit), kill 0 w = Ok 0 w1 /\
  forall i r w2, fork (H := no_files) eight_end 0x80007000 0 i w1 = Ok r w2 -> r <> -1 ->
    exists p, zget (procs w2) 1 = Some p /\ p_pid p = r /\ p_killed p = 1 /\ p_state p = RUNNABLE.
Proof.
  destruct (boot_free (H := no_files) eight_end 0x80007000 0 eight_pages tt 1 eight_free) as (w & E & Hf).
  exists w. apply (kill_zero_dooms_next_fork (H := no_files) eight_end 0x80007000 0 w 1); [|exact Hf].
  exact (table_boot (H := no_files) eight_end 0x80007000 0 eight_pages tt w E).
Defined.
