(* ===== verification/ProcMem.v ===== *)
(** The memory of a process ([kernel/proc.c] over [kernel/vm.c]).

    [pspace]: an address space with user pages below [sz], the trampoline and
    the trapframe at the top, and nothing else.  [proc_pagetable] creates one,
    [growproc] keeps it, [proc_freepagetable] takes it apart; no page is lost on
    any path. *)

From S2P Require Import Prelude Mem Kalloc Block Vm VmSpace VmOps VmFree Proc ProcTable ProcLife.

Section Top.
Context (kend : Z) (kend_pos : 0 < kend) (root : Z).
Implicit Types (F : gset Z) (T : gmap Z (nat * Z)) (mp : gmap Z Z) (l : list Z) (s : kstate).

Abbreviation uspace := (uspace kend root).

Lemma parts_top F T mp mp' l :
  parts kend F T mp l -> (forall i, i < ULIM -> mp' !! i = mp !! i) -> parts kend F T mp' l.
Proof.
  intros [H1 H2 H3] Hsame.
  assert (forall p, user_frame mp' p <-> user_frame mp p) as Huf.
  { intros p. split; intros (k & x & Hk & Hlt & Hp); exists k, x; split; try done.
    - by rewrite <- Hsame.
    - by rewrite Hsame. }
  split.
  - intros n v Hn Hlt. rewrite Hsame in Hn by done. by apply (H1 n).
  - intros n n' v v' Hn Hn' Hlt Hlt'. rewrite Hsame in Hn, Hn' by done. by apply H2.
  - intros p. rewrite Huf. apply H3.
Qed.

Lemma spare_top F mp mp' p : (forall i, i < ULIM -> mp' !! i = mp !! i) -> spare F mp' p -> spare F mp p.
Proof.
  intros Hsame [HF Hu]. split; [done|]. intros (k & x & Hk & Hlt & Hp). apply Hu. exists k, x.
  by rewrite Hsame.
Qed.

(** Mapping a page of the kernel at the top. *)
Lemma map_top n pa perm F T mp l s :
  uspace F T mp l s -> ULIM <= n < ULIM + 2 -> mp !! n = None -> pa_ok pa -> 0 <= perm < 1024 ->
  (exists T' s', mappages root (n * PGSIZE) PGSIZE pa perm s = Ok (-1) s' /\ uspace F T' mp [] s' /\
     outside (spare F mp) (kmem s) (kmem s')) \/
  (exists T' l' s', mappages root (n * PGSIZE) PGSIZE pa perm s = Ok 0 s' /\
     uspace F T' (<[n := make_pte pa perm]> mp) l' s' /\ outside (spare F mp) (kmem s) (kmem s')).
Proof.
  intros [Hsp Hpt] Hn Hmp Hpa Hperm. assert (0 <= ULIM) by done.
  destruct (map_page kend kend_pos root n pa perm T mp l s Hsp) as
    [(T' & s' & Hm & Hsp' & Hgr)|(T' & l' & s' & Hm & Hsp' & Hgr)]; try done; try lia; [left|right];
    pose proof (parts_grown kend kend_pos _ _ _ _ _ _ _ _ Hpt Hgr) as Hpt'.
  - exists T', s'. split; [done|]. split; [by split|].
    eapply outside_weaken, (gr_frame _ _ _ _ _ _ Hgr). intros p Hp. by eapply parts_table_spare.
  - exists T', l', s'. split; [done|]. split; [split; [done|]|].
    + eapply parts_top; [done|]. intros i Hi. by rewrite lookup_insert_ne by lia.
    + eapply outside_weaken, (gr_frame _ _ _ _ _ _ Hgr). intros p Hp. by eapply parts_table_spare.
Qed.

(** Taking such a mapping away. *)
Lemma unmap_top n v F T mp l s :
  uspace F T mp l s -> ULIM <= n -> mp !! n = Some v -> PTE_FLAGS v <> PTE_V ->
  exists s', uvmunmap kend root (n * PGSIZE) 1 false s = Ok tt s' /\ uspace F T (delete n mp) l s' /\
    outside (spare F mp) (kmem s) (kmem s').
Proof.
  intros [Hsp Hpt] Hn Hmp Hfl.
  destruct (mapped_slot kend kend_pos root n v T mp s (space_maps _ _ _ _ _ _ Hsp) Hmp) as (q & Hq & Hw & Hnz & Hld).
  destruct (sp_valid _ _ _ _ _ _ Hsp n v Hmp) as [Hnb Hv].
  pose proof (vpn_bound n Hnb) as Hva. change MAXVA with (2 ^ 38) in Hva.
  unfold uvmunmap. rewrite Z.mod_mul by done. cbn [negb Z.eqb].
  rewrite !u64_small by (rewrite ?u64_small; unfold PGSIZE in *; lia).
  replace (n * PGSIZE + 1 * PGSIZE - n * PGSIZE) with (1 * PGSIZE) by lia.
  rewrite Z.div_mul by done. change (Z.to_nat 1) with 1%nat. cbn [uvmunmap_loop].
  rewrite (kbind_Ok _ _ _ _ _ Hw). destruct (Z.eqb_spec (entry q (PX 0 (n * PGSIZE))) 0) as [|_]; [done|].
  rewrite (kbind_Ok _ _ _ _ _ (load_Ok _ s)), Hld, Hv. cbn [negb].
  destruct (Z.eqb_spec (PTE_FLAGS v) PTE_V) as [|_]; [done|].
  eexists. split; [reflexivity|]. cbn [kmem]. split; [split|].
  - eapply store_leaf; [done|exact Hsp|exact Hq|by apply vpn_bound|done|..].
    + intros n'. rewrite vpn_va. destruct (decide (n' = n)) as [->|Hne].
      * by rewrite lookup_delete_eq.
      * by rewrite lookup_delete_ne.
    + intros n' w. rewrite lookup_delete_Some. intros [_ ?]. by eapply sp_valid.
  - eapply parts_top; [done|]. intros i Hi. by rewrite lookup_delete_ne by lia.
  - intros a Ha. apply st64_out. intros Hb. apply entry_in_page in Hb; [|apply PX_range].
    eapply (Ha q); [|done]. eapply parts_table_spare; [done|by eexists].
Qed.
End Top.

(** ** The address space of a process *)

Definition RX : Z := Z.lor PTE_R PTE_X.
Definition RW : Z := Z.lor PTE_R PTE_W.

Section Space.
Context (kend trampoline : Z) (kend_pos : 0 < kend) (tramp_ok : pa_ok trampoline).
Implicit Types (F : gset Z) (T : gmap Z (nat * Z)) (mp : gmap Z Z) (l : list Z) (s : kstate).

(** [F] are the pages that are free or belong to the address space. *)
Definition pspace (root tf sz : Z) F s : Prop :=
  exists T mp l, uspace kend root F T mp l s /\ 0 <= sz <= ULIM * PGSIZE /\
    (forall i, i < ULIM -> is_Some (mp !! i) <-> 0 <= i < npages sz) /\
    mp !! (ULIM + 1) = Some (make_pte trampoline RX) /\ mp !! ULIM = Some (make_pte tf RW).

Lemma top_flags pa perm :
  pa_ok pa -> perm = RX \/ perm = RW -> PTE_FLAGS (make_pte pa perm) <> PTE_V.
Proof.
  intros Hpa Hperm. destruct (make_pte_spec pa perm Hpa) as (_ & _ & _ & ->); destruct Hperm as [-> | ->]; done.
Qed.

(** Freeing an address space without user pages. *)
Lemma free_empty root F T l s :
  uspace kend root F T ∅ l s -> exists s', uvmfree kend root 0 s = Ok tt s' /\ all_free kend F s' /\
    outside (fun p => p ∈ F) (kmem s) (kmem s').
Proof.
  intros Hus. destruct (uvmfree_spec kend kend_pos root 0 F T ∅ l s Hus) as (s' & l' & E & Hf & Hl & Hout).
  - split; [lia|done].
  - intros i. change (npages 0) with 0. rewrite lookup_empty. split; [by intros []|lia].
  - exists s'. split; [done|]. split; [by exists l'|done].
Qed.

Lemma outside_spare F mp m m' : outside (spare F mp) m m' -> outside (fun p => p ∈ F) m m'.
Proof. apply outside_weaken. by intros p []. Qed.

Lemma proc_pagetable_spec tf l s :
  free_pages kend s l -> pa_ok tf ->
  exists r s', proc_pagetable kend trampoline tf s = Ok r s' /\
    outside (fun p => p ∈ (list_to_set l : gset Z)) (kmem s) (kmem s') /\
    (r = 0 /\ all_free kend (list_to_set l) s' \/
     r <> 0 /\ pspace r tf 0 (list_to_set l) s').
Proof.
  intros Hf Htf. unfold proc_pagetable. destruct l as [|pg l].
  { assert (uvmcreate s = Ok 0 s) as E by (unfold uvmcreate; by rewrite (kbind_Ok _ _ _ _ _ (kalloc_empty _ _ Hf))).
    rewrite (kbind_Ok _ _ _ _ _ E). exists 0, s. split; [done|]. split; [apply outside_refl|]. left.
    split; [done|]. exists []. split; [done|]. set_solver. }
  destruct (uvmcreate_spec kend kend_pos s pg l Hf) as (s1 & E1 & Hus1 & Hout1).
  rewrite (kbind_Ok _ _ _ _ _ E1). set (F := list_to_set (pg :: l)) in *.
  assert (outside (fun p => p ∈ F) (kmem s) (kmem s1)) as HoF
    by (eapply outside_weaken, Hout1; intros ? <-; set_solver).
  assert (pg <> 0) as Hpg by (destruct (free_pages_page_ok _ _ _ pg Hf) as [_ ?]; [set_solver|lia]).
  rewrite (proj2 (Z.eqb_neq pg 0)) by done.
  change TRAMPOLINE with ((ULIM + 1) * PGSIZE). change TRAPFRAME with (ULIM * PGSIZE).
  change (Z.lor PTE_R PTE_X) with RX. change (Z.lor PTE_R PTE_W) with RW.
  destruct (map_top kend kend_pos pg (ULIM + 1) trampoline RX F _ ∅ l s1 Hus1)
    as [(T2 & s2 & E2 & Hus2 & Ho2)|(T2 & l2 & s2 & E2 & Hus2 & Ho2)];
    [done|apply lookup_empty|done|done| |]; rewrite (kbind_Ok _ _ _ _ _ E2); cbn [Z.ltb Z.compare];
    apply outside_spare in Ho2.
  { destruct (free_empty pg F T2 [] s2 Hus2) as (s3 & E3 & Hall & Ho3). exists 0, s3.
    rewrite (kbind_Ok _ _ _ _ _ E3). split; [done|]. split; [eauto using outside_trans|by left]. }
  destruct (map_top kend kend_pos pg ULIM tf RW F T2 _ l2 s2 Hus2)
    as [(T3 & s3 & E3 & Hus3 & Ho3)|(T3 & l3 & s3 & E3 & Hus3 & Ho3)];
    [done|by rewrite lookup_insert_ne, lookup_empty|done|done| |];
    rewrite (kbind_Ok _ _ _ _ _ E3); cbn [Z.ltb Z.compare]; apply outside_spare in Ho3.
  { destruct (unmap_top kend kend_pos pg (ULIM + 1) _ F T3 _ [] s3 Hus3 ltac:(lia)
                (lookup_insert_eq _ _ _) (top_flags _ _ tramp_ok (or_introl eq_refl)))
      as (s4 & E4 & Hus4 & Ho4). apply outside_spare in Ho4.
    rewrite insert_empty, delete_singleton_eq in Hus4.
    destruct (free_empty pg F T3 [] s4 Hus4) as (s5 & E5 & Hall & Ho5). exists 0, s5.
    rewrite (kbind_Ok _ _ _ _ _ E4), (kbind_Ok _ _ _ _ _ E5). split; [done|].
    split; [|by left]. eauto 10 using outside_trans. }
  exists pg, s3. split; [done|]. split; [eauto 10 using outside_trans|]. right. split; [done|].
  eexists T3, _, l3. split; [done|]. split; [split; [lia|done]|]. split; [|split].
  - intros i Hi. change (npages 0) with 0. rewrite !lookup_insert_ne, lookup_empty by lia.
    split; [by intros []|lia].
  - rewrite lookup_insert_ne by lia. apply lookup_insert_eq.
  - apply lookup_insert_eq.
Qed.

Lemma proc_freepagetable_spec root tf sz F s :
  pspace root tf sz F s -> pa_ok tf ->
  exists s', proc_freepagetable kend root sz s = Ok tt s' /\ all_free kend F s' /\
    outside (fun p => p ∈ F) (kmem s) (kmem s').
Proof.
  intros (T & mp & l & Hus & Hsz & Hmp & Htr & Htf) Hok. unfold proc_freepagetable.
  change TRAMPOLINE with ((ULIM + 1) * PGSIZE). change TRAPFRAME with (ULIM * PGSIZE).
  destruct (unmap_top kend kend_pos root (ULIM + 1) _ F T mp l s Hus ltac:(lia) Htr
              (top_flags _ _ tramp_ok (or_introl eq_refl))) as (s1 & E1 & Hus1 & Ho1).
  rewrite (kbind_Ok _ _ _ _ _ E1).
  destruct (unmap_top kend kend_pos root ULIM (make_pte tf RW) F T _ l s1 Hus1 ltac:(lia))
    as (s2 & E2 & Hus2 & Ho2); [by rewrite lookup_delete_ne by lia|apply top_flags; auto|].
  rewrite (kbind_Ok _ _ _ _ _ E2). apply outside_spare in Ho1, Ho2.
  destruct (uvmfree_spec kend kend_pos root sz F T _ l s2 Hus2 Hsz) as (s3 & l3 & E3 & Hf & Hl & Ho3).
  { intros n. destruct (decide (n < ULIM)) as [Hn|Hn].
    - rewrite !lookup_delete_ne by lia. by apply Hmp.
    - pose proof (npages_ulim sz ltac:(lia)). split; [|lia]. intros [v Hv]. exfalso.
      apply lookup_delete_Some in Hv as [? [? Hv]%lookup_delete_Some].
      destruct (sp_valid _ _ _ _ _ _ (proj1 Hus) n v Hv) as [Hb _].
      change (MAXVA / PGSIZE) with (ULIM + 2) in Hb. lia. }
  exists s3. split; [done|]. split; [by exists l3|]. eauto using outside_trans.
Qed.

(** *** The size of a process is limited by the memory of the machine *)

Lemma pspace_frames n root tf sz F s :
  PHYSTOP = n * PGSIZE -> pspace root tf sz F s -> npages sz <= n.
Proof.
  intros HP (T & mp & l & [Hsp Hpt] & Hsz & Hmp & _). pose proof (npages_ulim sz ltac:(lia)) as HU.
  assert (0 <= n) as Hn by (unfold PHYSTOP, KERNBASE, PGSIZE in HP; lia).
  set (frame i := PTE2PA (default 0 (mp !! i))).
  assert (forall i, 0 <= i < npages sz -> exists v, mp !! i = Some v) as Hget.
  { intros i Hi. apply Hmp; lia. }
  assert (NoDup (frame <$> seqZ 0 (npages sz))) as Hnd.
  { apply NoDup_fmap_2_strong; [|apply NoDup_seqZ]. intros i j Hi Hj Hij.
    rewrite elem_of_seqZ in Hi, Hj. destruct (Hget i ltac:(lia)) as [v Hv], (Hget j ltac:(lia)) as [u Hu].
    unfold frame in Hij. rewrite Hv, Hu in Hij. cbn in Hij. eapply (pt_inj _ _ _ _ _ Hpt); try done; lia. }
  assert (frame <$> seqZ 0 (npages sz) ⊆ (fun k => k * PGSIZE) <$> seqZ 0 n) as Hsub.
  { intros p (i & -> & Hi)%list_elem_of_fmap. rewrite elem_of_seqZ in Hi.
    destruct (Hget i ltac:(lia)) as [v Hv]. unfold frame. rewrite Hv. cbn.
    destruct (pt_leaf _ _ _ _ _ Hpt i v Hv ltac:(lia)) as (_ & [Hm Hp] & _).
    apply list_elem_of_fmap. exists (PTE2PA v / PGSIZE). rewrite elem_of_seqZ.
    revert Hm Hp HP. generalize (PTE2PA v). unfold PGSIZE. intros.
    Z.to_euclidean_division_equations. lia. }
  pose proof (submseteq_length _ _ (NoDup_submseteq _ _ Hnd Hsub)) as Hlen.
  rewrite !length_fmap, !length_seqZ in Hlen. lia.
Qed.

Lemma pspace_bound root tf sz F s : pspace root tf sz F s -> npages sz <= PHYSTOP / PGSIZE.
Proof. by apply pspace_frames. Qed.

(** *** Resizing *)

Lemma grow_spec root tf sz n F s :
  pspace root tf sz F s -> 0 < n < 2 ^ 31 ->
  exists r s', uvmalloc kend root sz (u64 (sz + n)) PTE_W s = Ok r s' /\
    outside (fun p => p ∈ F) (kmem s) (kmem s') /\
    (r = 0 /\ pspace root tf sz F s' \/ r = sz + n /\ pspace root tf (sz + n) F s').
Proof.
  intros Hps Hn. pose proof (pspace_bound _ _ _ _ _ Hps) as Hb.
  destruct Hps as (T & mp & l & Hus & Hsz & Hmp & Htr & Htf).
  pose proof (npages_bounds sz) as Hnp. pose proof (npages_mono sz (sz + n) ltac:(lia)) as Hmono.
  assert (sz + n <= ULIM * PGSIZE) as Hlim.
  { change (PHYSTOP / PGSIZE) with 557056 in Hb. change (ULIM * PGSIZE) with (2 ^ 38 - 2 * 4096).
    unfold PGSIZE in *. lia. }
  pose proof (npages_ulim _ Hlim) as HU.
  assert (u64 (sz + n) = sz + n) as -> by (apply u64_small; change (ULIM * PGSIZE) with (2 ^ 38 - 2 * 4096) in Hlim; lia).
  assert (0 <= npages sz) as Hpos by (unfold PGSIZE in *; lia).
  destruct (uvmalloc_spec kend kend_pos root sz (sz + n) PTE_W F T mp l s Hus)
    as (r & T' & mp' & l' & s' & E & Hus' & Ho & Hr); [done|lia|done| |].
  { intros i Hi. apply eq_None_not_Some. rewrite Hmp by lia. lia. }
  exists r, s'. split; [done|]. split; [by eapply outside_spare|]. destruct Hr as [[-> Hext]|[-> ->]].
  - right. split; [done|]. exists T', mp', l'. split; [done|]. split; [lia|].
    assert (forall i, ~ npages sz <= i < npages (sz + n) -> mp' !! i = mp !! i) as Hsame.
    { intros i Hi. specialize (Hext i). by rewrite decide_False in Hext. }
    split; [|by rewrite !Hsame by lia].
    intros i Hi. destruct (decide (npages sz <= i < npages (sz + n))) as [Hin|Hout].
    + split; [lia|]. intros _. by eapply (extended_mapped kend).
    + rewrite Hsame, Hmp by lia. lia.
  - left. split; [done|]. exists T', mp, l'. auto.
Qed.

Lemma shrink_spec root tf sz n F s :
  pspace root tf sz F s -> - 2 ^ 31 <= n < 0 ->
  exists r s', uvmdealloc kend root sz (u64 (sz + n)) s = Ok r s' /\
    outside (fun p => p ∈ F) (kmem s) (kmem s') /\
    r = (if sz + n <? 0 then sz else sz + n) /\ pspace root tf r F s'.
Proof.
  intros Hps Hn. pose proof Hps as (T & mp & l & Hus & Hsz & Hmp & Htr & Htf).
  pose proof (npages_ulim sz ltac:(lia)) as HU.
  assert (sz < 2 ^ 38) as Hsz38 by (change (ULIM * PGSIZE) with (2 ^ 38 - 2 * 4096) in Hsz; lia).
  destruct (Z.ltb_spec (sz + n) 0) as [Hneg|Hpos].
  { exists sz, s. split; [|split; [apply outside_refl|done]]. unfold uvmdealloc.
    assert (u64 (sz + n) = sz + n + 2 ^ 64) as ->.
    { unfold u64. rewrite <- (Z_mod_plus_full _ 1), Z.mod_small; lia. }
    by rewrite (proj2 (Z.leb_le sz (sz + n + 2 ^ 64))) by lia. }
  rewrite (u64_small (sz + n)) by lia.
  pose proof (npages_mono (sz + n) sz ltac:(lia)) as Hmono. pose proof (npages_bounds (sz + n)) as Hnb.
  destruct (uvmdealloc_spec kend kend_pos root sz (sz + n) F T mp l s Hus) as (l' & s' & E & Hus' & Ho);
    [lia|lia| |].
  { intros i Hi. apply Hmp; [lia|]. unfold PGSIZE in *. lia. }
  exists (sz + n), s'. split; [done|]. split; [by eapply outside_spare|]. split; [done|].
  eexists T, _, l'. split; [done|]. split; [lia|].
  assert (forall i, unmap_range (Z.to_nat (npages sz - npages (sz + n))) (npages (sz + n)) mp !! i
            = if decide (npages (sz + n) <= i < npages sz) then None else mp !! i) as Hget.
  { intros i. rewrite unmap_range_lookup, Z2Nat.id by lia.
    by replace (npages (sz + n) + (npages sz - npages (sz + n))) with (npages sz) by lia. }
  split; [|rewrite !Hget, !decide_False by lia; done].
  intros i Hi. rewrite Hget. case_decide as Hd.
  - split; [by intros []|lia].
  - rewrite Hmp by lia. lia.
Qed.

(** Giving back a page that is not part of it. *)
Lemma pspace_give root tf sz F s pg :
  pspace root tf sz F s -> page_ok kend pg -> pg ∉ F ->
  exists s', kfree kend pg s = Ok tt s' /\ pspace root tf sz ({[pg]} ∪ F) s'.
Proof.
  intros (T & mp & l & [Hsp Hpt] & Hrest) Hok Hnin.
  assert (forall q, q ∈ l \/ is_Some (T !! q) -> q <> pg) as Hne.
  { intros q Hq ->. apply Hnin, (pt_all _ _ _ _ _ Hpt). tauto. }
  destruct (give_page kend kend_pos root T mp pg l s Hsp Hok) as (s' & E & Hsp' & _).
  - intros Hl. by apply (Hne pg); auto.
  - apply eq_None_not_Some. intros HT. by apply (Hne pg); auto.
  - exists s'. split; [done|]. exists T, mp, (pg :: l). split; [|done]. split; [done|]. by apply parts_give.
Qed.
End Space.

(** ** Processes *)

Section Procs.
Context {Fs : Type}.
Context (kend trampoline forkret : Z) (kend_pos : 0 < kend) (tramp_ok : pa_ok trampoline).
Implicit Types (w : pworld (F := Fs)) (G : gset Z).

(** Process [i] and the free list account for the pages of [G]. *)
Definition pmem w i G : Prop :=
  exists p F, zget (procs w) i = Some p /\ page_ok kend (p_trapframe p) /\
    (p_trapframe p ∉ F) /\ G = {[p_trapframe p]} ∪ F /\ p_pagetable p <> 0 /\
    pspace kend trampoline (p_pagetable p) (p_trapframe p) (p_sz p) F (kpages w).

(** The computations on process [i] and on memory, as functions. *)
Lemma update_runs i f w p :
  zget (procs w) i = Some p ->
  update i f w = Ok tt (set_procs w (<[Z.to_nat i := f p]> (procs w))).
Proof.
  intros Hp. unfold update, kbind, get_proc, put_proc. rewrite Hp.
  apply zget_Some in Hp as [Hi _]. by rewrite zset_in.
Qed.

Definition set_pages w (s : kstate) : pworld :=
  {| procs := procs w; cpus := cpus w; nextpid := nextpid w; initproc := initproc w;
     kpages := s; kfiles := kfiles w |}.

Lemma on_mem_runs {A} (m : M kstate A) w a s : m (kpages w) = Ok a s -> on_mem m w = Ok a (set_pages w s).
Proof. intros E. unfold on_mem. by rewrite E. Qed.

Lemma get_proc_runs i w p : zget (procs w) i = Some p -> get_proc i w = Ok p w.
Proof. intros Hp. unfold get_proc. by rewrite Hp. Qed.

Lemma zget_set_procs w i p q :
  zget (procs w) i = Some p -> zget (procs (set_procs w (<[Z.to_nat i := q]> (procs w)))) i = Some q.
Proof. intros Hp. cbn [procs set_procs]. by rewrite (zget_insert _ _ _ _ p), decide_True. Qed.

Lemma growproc_runs i n w G :
  pmem w i G -> - 2 ^ 31 <= n < 2 ^ 31 ->
  exists r w', growproc kend i n w = Ok r w' /\ (r = 0 \/ r = -1) /\ pmem w' i G.
Proof.
  intros (p & F & Hp & Hok & Hnin & -> & Hpt & Hps) Hn. unfold growproc.
  rewrite (kbind_Ok _ _ _ _ _ (get_proc_runs i w p Hp)).
  assert (forall s' sz, pspace kend trampoline (p_pagetable p) (p_trapframe p) sz F s' ->
    exists w', (update i (fun p => with_sz p sz) ;;; kret 0) (set_pages w s') = Ok 0 w' /\
      pmem w' i ({[p_trapframe p]} ∪ F)) as Hset.
  { intros s' sz Hps'. eexists. split.
    - rewrite (kbind_Ok _ _ _ _ _ (update_runs i _ (set_pages w s') p Hp)). reflexivity.
    - exists (with_sz p sz), F. split; [by apply (zget_set_procs (set_pages w s') i p)|]. done. }
  destruct (Z.ltb_spec 0 n) as [Hpos|Hneg]; [|destruct (Z.ltb_spec n 0) as [Hlt|Hge]].
  - destruct (grow_spec kend trampoline kend_pos _ _ _ n F (kpages w) Hps ltac:(lia))
      as (r & s' & E & _ & [[-> Hps']|[-> Hps']]); rewrite (kbind_Ok _ _ _ _ _ (on_mem_runs _ _ _ _ E)).
    + exists (-1), (set_pages w s'). split; [done|]. split; [auto|]. exists p, F. done.
    + destruct Hps as (_ & _ & _ & _ & Hsz & _). rewrite (proj2 (Z.eqb_neq (p_sz p + n) 0)) by lia.
      destruct (Hset s' _ Hps') as (w' & E' & Hm). exists 0, w'. auto.
  - destruct (shrink_spec kend trampoline kend_pos _ _ _ n F (kpages w) Hps ltac:(lia))
      as (r & s' & E & _ & _ & Hps'). rewrite (kbind_Ok _ _ _ _ _ (on_mem_runs _ _ _ _ E)).
    destruct (Hset s' _ Hps') as (w' & E' & Hm). exists 0, w'. auto.
  - destruct (Hset (kpages w) _ Hps) as (w' & E' & Hm). exists 0, w'.
    replace (set_pages w (kpages w)) with w in E' by (by destruct w). auto.
Qed.

(** Any number of calls of [sbrk]. *)
Fixpoint grow_all (i : Z) (ns : list Z) : M (pworld (F := Fs)) unit :=
  match ns with
  | [] => kret tt
  | n :: ns => growproc kend i n ;;; grow_all i ns
  end.

Lemma grow_all_runs i ns w G :
  pmem w i G -> Forall (fun n => - 2 ^ 31 <= n < 2 ^ 31) ns ->
  exists w', grow_all i ns w = Ok tt w' /\ pmem w' i G.
Proof.
  intros Hm Hns. revert w Hm. induction Hns as [|n ns Hn _ IH]; intros w Hm; cbn [grow_all]; [by exists w|].
  destruct (growproc_runs i n w G Hm Hn) as (r & w1 & E & _ & Hm1). rewrite (kbind_Ok _ _ _ _ _ E). auto.
Qed.

Lemma freeproc_runs i w G :
  pmem w i G -> exists w', freeproc kend i w = Ok tt w' /\ all_free kend G (kpages w').
Proof.
  intros (p & F & Hp & Hok & Hnin & -> & Hpt & Hps). unfold freeproc.
  rewrite (kbind_Ok _ _ _ _ _ (get_proc_runs i w p Hp)).
  rewrite (proj2 (Z.eqb_neq (p_trapframe p) 0)) by (destruct Hok; lia).
  destruct (pspace_give kend trampoline kend_pos _ _ _ _ _ _ Hps Hok Hnin) as (s1 & E1 & Hps1).
  rewrite (kbind_Ok _ _ _ _ _ (on_mem_runs _ w _ _ E1)).
  rewrite (kbind_Ok _ _ _ _ _ (update_runs i _ (set_pages w s1) p Hp)).
  rewrite (proj2 (Z.eqb_neq (p_pagetable p) 0)) by done.
  destruct (proc_freepagetable_spec kend trampoline kend_pos tramp_ok _ _ _ _ _ Hps1
              (page_pa_ok _ _ kend_pos Hok)) as (s2 & E2 & Hall & _).
  set (w1 := set_procs _ _). rewrite (kbind_Ok _ _ _ _ _ (on_mem_runs _ w1 _ _ E2)).
  eexists. split; [apply (update_runs _ _ (set_pages w1 s2) (with_trapframe p 0))|done].
  by apply (zget_set_procs (set_pages w s1) i p).
Qed.

(** A free entry, as [procinit] and [freeproc] leave it. *)
Definition clean w i : Prop :=
  find_unused (procs w) 0 = Some i /\
  forall p, zget (procs w) i = Some p -> p_pagetable p = 0 /\ p_sz p = 0.

(** [freeproc] of an entry that got no page table. *)
Lemma freeproc_partial i w p l :
  zget (procs w) i = Some p -> p_pagetable p = 0 -> free_pages kend (kpages w) l ->
  p_trapframe p = 0 \/ page_ok kend (p_trapframe p) /\ p_trapframe p ∉ l ->
  exists w', freeproc kend i w = Ok tt w' /\
    all_free kend ((if p_trapframe p =? 0 then ∅ else {[p_trapframe p]}) ∪ list_to_set l) (kpages w').
Proof.
  intros Hp Hpt Hf Htf. unfold freeproc. rewrite (kbind_Ok _ _ _ _ _ (get_proc_runs i w p Hp)), Hpt.
  assert (exists s1 l1, (if p_trapframe p =? 0 then kret tt else on_mem (kfree kend (p_trapframe p))) w
            = Ok tt (set_pages w s1) /\ free_pages kend s1 l1 /\
            (list_to_set l1 : gset Z) = (if p_trapframe p =? 0 then ∅ else {[p_trapframe p]}) ∪ list_to_set l)
    as (s1 & l1 & E1 & Hf1 & Hl1).
  { destruct Htf as [-> |[Hok Hnin]].
    - exists (kpages w), l. split; [by destruct w|]. split; [done|]. cbn. set_solver.
    - destruct (kfree_free kend kend_pos _ l _ Hf Hok Hnin) as (s1 & E & Hf1 & _).
      rewrite (proj2 (Z.eqb_neq (p_trapframe p) 0)) by (destruct Hok; lia).
      exists s1, (p_trapframe p :: l). split; [by apply on_mem_runs|]. done. }
  rewrite (kbind_Ok _ _ _ _ _ E1).
  rewrite (kbind_Ok _ _ _ _ _ (update_runs i _ (set_pages w s1) p Hp)). cbn [Z.eqb].
  set (w1 := set_procs _ _). rewrite (kbind_Ok _ _ _ _ _ (eq_refl : kret tt w1 = Ok tt w1)).
  eexists. split; [apply (update_runs _ _ w1 (with_trapframe p 0)), (zget_set_procs (set_pages w s1) i p), Hp|].
  exists l1. split; [done|]. intros q. by rewrite <- Hl1, elem_of_list_to_set.
Qed.

Lemma allocproc_runs i w l :
  clean w i -> free_pages kend (kpages w) l ->
  exists r w', allocproc kend trampoline forkret w = Ok r w' /\
    (r = None /\ all_free kend (list_to_set l) (kpages w') \/
     r = Some i /\ pmem w' i (list_to_set l)).
Proof.
  intros [Hi Hclean] Hf. pose proof Hi as (p & Hp & _)%find_unused_spec. rewrite Z.sub_0_r in Hp.
  destruct (Hclean p Hp) as [Hpt Hsz]. unfold allocproc.
  rewrite (kbind_Ok (kgets procs) _ w _ w eq_refl), Hi.
  set (w1 := {| procs := procs w; cpus := cpus w; nextpid := i32 (nextpid w + 1);
                initproc := initproc w; kpages := kpages w; kfiles := kfiles w |}).
  rewrite (kbind_Ok allocpid _ w (nextpid w) w1 eq_refl).
  rewrite (kbind_Ok _ _ _ _ _ (update_runs i _ w1 p Hp)).
  set (p1 := with_state _ _). set (w2 := set_procs _ _).
  assert (zget (procs w2) i = Some p1) as Hp2 by (by apply (zget_set_procs w1 i p)).
  destruct l as [|tf l].
  { rewrite (kbind_Ok _ _ _ _ _ (on_mem_runs _ w2 _ _ (kalloc_empty kend _ Hf))).
    rewrite (kbind_Ok _ _ _ _ _ (update_runs i _ (set_pages w2 (kpages w)) p1 Hp2)). cbn [Z.eqb].
    set (w3 := set_procs _ _).
    destruct (freeproc_partial i w3 (with_trapframe p1 0) []) as (w4 & E4 & Hall);
      [by apply (zget_set_procs (set_pages w2 (kpages w)) i p1)|done|done|by left|].
    rewrite (kbind_Ok _ _ _ _ _ E4). exists None, w4. split; [done|]. left. done. }
  destruct (kalloc_free kend kend_pos _ _ _ Hf) as (s1 & E1 & Hf1 & Hok & Hnin & _).
  assert (tf <> 0) as Htf by (destruct Hok; lia).
  rewrite (kbind_Ok _ _ _ _ _ (on_mem_runs _ w2 _ _ E1)).
  rewrite (kbind_Ok _ _ _ _ _ (update_runs i _ (set_pages w2 s1) p1 Hp2)).
  rewrite (proj2 (Z.eqb_neq tf 0)) by done. set (w3 := set_procs _ _).
  assert (zget (procs w3) i = Some (with_trapframe p1 tf)) as Hp3
    by (by apply (zget_set_procs (set_pages w2 s1) i p1)).
  destruct (proc_pagetable_spec kend trampoline kend_pos tramp_ok tf l s1 Hf1 (page_pa_ok _ _ kend_pos Hok))
    as (r & s2 & E2 & _ & Hr).
  rewrite (kbind_Ok _ _ _ _ _ (on_mem_runs _ w3 _ _ E2)).
  rewrite (kbind_Ok _ _ _ _ _ (update_runs i _ (set_pages w3 s2) _ Hp3)). set (w4 := set_procs _ _).
  assert (zget (procs w4) i = Some (with_pagetable (with_trapframe p1 tf) r)) as Hp4
    by (by apply (zget_set_procs (set_pages w3 s2) i _ _ Hp3)).
  destruct Hr as [[-> (l2 & Hf2 & Hl2)]|[Hr Hps]].
  - cbn [Z.eqb]. destruct (freeproc_partial i w4 _ l2 Hp4) as (w5 & E5 & Hall); [done|done| |].
    { right. split; [done|]. cbn. rewrite Hl2, elem_of_list_to_set. done. }
    rewrite (kbind_Ok _ _ _ _ _ E5). exists None, w5. split; [done|]. left. split; [done|].
    cbn [p_trapframe with_pagetable with_trapframe] in Hall. rewrite (proj2 (Z.eqb_neq tf 0)) in Hall by done.
    replace (list_to_set (tf :: l) : gset Z) with ({[tf]} ∪ list_to_set l2 : gset Z); [done|].
    apply set_eq. intros q. rewrite list_to_set_cons, !elem_of_union, elem_of_list_to_set, Hl2. done.
  - rewrite (proj2 (Z.eqb_neq r 0)) by done.
    rewrite (kbind_Ok _ _ _ _ _ (update_runs i _ w4 _ Hp4)). eexists (Some i), _. split; [done|]. right.
    split; [done|]. eexists _, (list_to_set l). split; [by apply (zget_set_procs w4 i _ _ Hp4)|].
    cbn. rewrite Hsz. split; [done|]. split; [by rewrite elem_of_list_to_set|]. done.
Qed.
End Procs.

(** C16. A process gives back all the memory it took.  From a free list [l],
    [allocproc] either fails and every page of [l] is free again, or it creates a
    process; then, whatever sizes the process asks for with [growproc], growing,
    shrinking, failing for lack of memory or asking for nonsense, no call
    panics, and [freeproc] puts every page of [l] back on the free list, each
    once. *)
Theorem process_memory_returned {Fs} kend trampoline forkret
    (w : pworld (F := Fs)) i l ns :
  0 < kend -> pa_ok trampoline -> clean w i -> free_pages kend (kpages w) l ->
  Forall (fun n => - 2 ^ 31 <= n < 2 ^ 31) ns ->
  exists r w1, allocproc kend trampoline forkret w = Ok r w1 /\
    (r = None /\ all_free kend (list_to_set l) (kpages w1) \/
     r = Some i /\ exists w2 w3, grow_all kend i ns w1 = Ok tt w2 /\ freeproc kend i w2 = Ok tt w3 /\
       all_free kend (list_to_set l) (kpages w3)).
Proof.
  intros Hk Ht Hc Hf Hns. destruct (allocproc_runs kend trampoline forkret Hk Ht i w l Hc Hf)
    as (r & w1 & E & [[-> Hall]|[-> Hm]]); eexists _, w1; (split; [exact E|]); [by left|right].
  split; [done|]. destruct (grow_all_runs kend trampoline Hk i ns w1 _ Hm Hns) as (w2 & E2 & Hm2).
  destruct (freeproc_runs kend trampoline Hk Ht i w2 _ Hm2) as (w3 & E3 & Hall). by exists w2, w3.
Qed.

Lemma process_memory_returned_witness :
  exists s l r w1, kinit eight_end {| kmem := fun _ => 0; freelist := 0 |} = Ok tt s /\
    free_pages eight_end s l /\
    allocproc (F := unit) eight_end 0x80007000 0 (boot s tt) = Ok r w1 /\
    (r = None /\ all_free eight_end (list_to_set l) (kpages w1) \/
     r = Some 0 /\ exists w2 w3, grow_all eight_end 0 [5000; -4000; 2147483647; -2147483648] w1 = Ok tt w2 /\
       freeproc eight_end 0 w2 = Ok tt w3 /\ all_free eight_end (list_to_set l) (kpages w3)).
Proof.
  destruct (kinit_spec eight_end ltac:(done) (fun _ => 0)) as (s & l & E & Hf & _).
  destruct (process_memory_returned eight_end 0x80007000 0 (boot s tt) 0 l
    [5000; -4000; 2147483647; -2147483648]) as (r & w1 & Ea & Hr).
  - done.
  - done.
  - split; [done|]. intros p [= <-]. done.
  - exact Hf.
  - repeat (apply Forall_cons; [lia|]); apply Forall_nil.
  - exists s, l, r, w1. done.
Defined.
