(* ===== verification/Exec.v ===== *)
(** Program loading ([kernel/exec.c], [sys_exec] of [kernel/sysfile.c] and the
    argument access of [kernel/syscall.c] on the memory of a process).

    [exec] works on the state of [Proc]: the new address space is built page by
    page in physical memory beside the old one, which is freed last.  The
    argument strings are in kernel pages ([argv] holds their addresses), as
    [sys_exec] has fetched them.  The file is read through the interface
    [ExecFiles]. *)

From S2P Require Import Prelude Mem Kalloc Block Vm Proc.

Definition MAXARG : Z := 32.
Definition EXEC_MAXPATH : Z := 128.

(** ** The executable *)

Definition ELF_MAGIC : Z := 0x464C457F.
Definition ELF_PROG_LOAD : Z := 1.
Definition ELFHDR : Z := 64.
Definition PROGHDR : Z := 56.

Definition elf_magic (b : list Z) : Z := get_le 4 b 0.
Definition elf_entry (b : list Z) : Z := get_le 8 b 24.
Definition elf_phoff (b : list Z) : Z := get_le 8 b 32.
Definition elf_phnum (b : list Z) : Z := get_le 2 b 56.

Definition ph_type (b : list Z) : Z := get_le 4 b 0.
Definition ph_flags (b : list Z) : Z := get_le 4 b 4.
Definition ph_off (b : list Z) : Z := get_le 8 b 8.
Definition ph_vaddr (b : list Z) : Z := get_le 8 b 16.
Definition ph_filesz (b : list Z) : Z := get_le 8 b 32.
Definition ph_memsz (b : list Z) : Z := get_le 8 b 40.

Definition flags2perm (flags : Z) : Z :=
  let perm := if Z.land flags 1 =? 0 then 0 else PTE_X in
  if Z.land flags 2 =? 0 then perm else Z.lor perm PTE_W.

(** What [exec] needs from the file system: transactions, path lookup from the
    current directory, and reading a locked inode.  [x_read ip off n] is
    [readi] into a kernel buffer: the bytes it delivers. *)
Class ExecFiles (F : Type) : Type := {
  x_begin : M F unit;
  x_end : M F unit;
  x_namei : option Z -> list Z -> M F (option Z);
  x_lock : Z -> M F unit;
  x_read : Z -> Z -> Z -> M F (list Z);
  x_unlockput : Z -> M F unit
}.

(** What [exec] relies on: a read delivers at most the bytes asked for. *)
Class ExecFilesLaws (F : Type) `{ExecFiles F} : Prop := {
  x_read_le : forall ip off n f bs f', x_read ip off n f = Ok bs f' -> 0 <= n ->
    Z.of_nat (length bs) <= n;
  x_read_byte : forall ip off n f bs f', x_read ip off n f = Ok bs f' ->
    Forall (fun b => 0 <= b < 256) bs
}.

Section Exec.
Context {F : Type} `{ExecFiles F}.
Context (kend trampoline : Z).

Abbreviation pworld := (@pworld F).

Definition on_fs {A} (m : M F A) : M pworld A := fun w =>
  let up x := {| procs := procs w; cpus := cpus w; nextpid := nextpid w; initproc := initproc w;
                 kpages := kpages w; kfiles := x |} in
  match m (kfiles w) with
  | Ok a x => Ok a (up x)
  | Panic msg => Panic msg
  | Sleep c x => Sleep c (up x)
  end.

(** ** Loading *)

(** The loop of [loadseg] from [i] on: whether all reads were complete.  The
    fuel [k] is enough unless [i] wraps around, and then the loop does not end. *)
Fixpoint loadseg_loop (k : nat) (pagetable va ip offset sz i : Z) : M pworld bool :=
  match k with
  | O => panic "loadseg: does not return"
  | S k =>
      if i <? sz then
        let! pa := on_mem (walkaddr pagetable (u64 (va + i))) in
        if pa =? 0 then panic "loadseg: address should exist"
        else
          let n := if sz - i <? PGSIZE then sz - i else PGSIZE in
          let! bs := on_fs (x_read ip (u32 (offset + i)) n) in
          on_mem (kmodify (fun s =>
            {| kmem := store_bytes (kmem s) pa bs; freelist := freelist s |})) ;;;
          if negb (Z.of_nat (length bs) =? n) then kret false
          else loadseg_loop k pagetable va ip offset sz (u32 (i + PGSIZE))
      else kret true
  end.

(** [offset] and [sz] are [uint] parameters. *)
Definition loadseg (pagetable va ip offset sz : Z) : M pworld bool :=
  loadseg_loop (S (Z.to_nat (u32 sz / PGSIZE + 1))) pagetable va ip (u32 offset) (u32 sz) 0.

(** The program headers from [off] on, [k] of them: the size reached, and
    whether there was no error. *)
Fixpoint load_segments (k : nat) (pagetable ip off sz : Z) : M pworld (Z * bool) :=
  match k with
  | O => kret (sz, true)
  | S k =>
      let! ph := on_fs (x_read ip (u32 off) PROGHDR) in
      if negb (Z.of_nat (length ph) =? PROGHDR) then kret (sz, false)
      else if negb (ph_type ph =? ELF_PROG_LOAD)
      then load_segments k pagetable ip (i32 (off + PROGHDR)) sz
      else if ph_memsz ph <? ph_filesz ph then kret (sz, false)
      else if u64 (ph_vaddr ph + ph_memsz ph) <? ph_vaddr ph then kret (sz, false)
      else if negb (ph_vaddr ph mod PGSIZE =? 0) then kret (sz, false)
      else
        let! sz1 := on_mem (uvmalloc kend pagetable sz (u64 (ph_vaddr ph + ph_memsz ph))
                              (flags2perm (ph_flags ph))) in
        if sz1 =? 0 then kret (sz, false)
        else
          let! ok := loadseg pagetable (ph_vaddr ph) ip (ph_off ph) (ph_filesz ph) in
          if negb ok then kret (sz1, false)
          else load_segments k pagetable ip (i32 (off + PROGHDR)) sz1
  end.

(** ** The stack *)

(** Little-endian bytes of the array of pointers. *)
Definition encode64s (l : list Z) : list Z := concat ((fun v => put_le 8 (replicate 8 0) 0 v) <$> l).

(** [for(argc = 0; argv[argc]; argc++)]: the stack pointer and the array
    [ustack] after it, [None] on [goto bad]. *)
Fixpoint push_args (pagetable stackbase : Z) (argv : list Z) (sp argc : Z) (ustack : list Z)
    : M pworld (option (Z * list Z)) :=
  match argv with
  | [] => kret (Some (sp, ustack))
  | a :: argv =>
      if MAXARG <=? argc then kret None
      else
        let! len := on_mem (kgets (fun s => strlen (Z.to_nat PGSIZE) (kmem s) a)) in
        let! len := kopt len in
        let sp := u64 (sp - (len + 1)) in
        let sp := sp - sp mod 16 in
        if sp <? stackbase then kret None
        else
          let! bs := on_mem (kgets (fun s => bytes_at (kmem s) a (Z.to_nat (len + 1)))) in
          let! r := on_mem (copyout pagetable sp bs) in
          if r <? 0 then kret None
          else
            let! ustack := kopt (zset ustack argc sp) in
            push_args pagetable stackbase argv sp (argc + 1) ustack
  end.

(** The name of the program: what follows the last slash. *)
Fixpoint last_elem (s last : list Z) : list Z :=
  match s with
  | [] => last
  | c :: s => last_elem s (if c =? 47 then s else last)
  end.

(** The label [bad]. *)
Definition bad (pagetable sz : Z) (ip : option Z) : M pworld Z :=
  (if pagetable =? 0 then kret tt else on_mem (proc_freepagetable kend pagetable sz)) ;;;
  match ip with
  | Some ip => on_fs (x_unlockput ip) ;;; on_fs x_end
  | None => kret tt
  end ;;;
  kret (-1).

(** From the first two pages of the stack to the commit; [sz] is the size after
    loading. *)
Definition setup_stack (i pagetable entry sz : Z) (path : list Z) (argv : list Z) : M pworld Z :=
  let! p := get_proc i in
  let oldsz := p_sz p in
  let sz := u64 (PGROUNDUP sz) in
  let! sz1 := on_mem (uvmalloc kend pagetable sz (u64 (sz + 2 * PGSIZE)) PTE_W) in
  if sz1 =? 0 then bad pagetable sz None
  else
    let sz := sz1 in
    on_mem (uvmclear pagetable (sz - 2 * PGSIZE)) ;;;
    let stackbase := sz - PGSIZE in
    let! r := push_args pagetable stackbase argv sz 0 (replicate (Z.to_nat MAXARG) 0) in
    match r with
    | None => bad pagetable sz None
    | Some (sp, ustack) =>
        let argc := Z.of_nat (length argv) in
        let! ustack := kopt (zset ustack argc 0) in
        let sp := u64 (sp - (argc + 1) * 8) in
        let sp := sp - sp mod 16 in
        if sp <? stackbase then bad pagetable sz None
        else
          let! r := on_mem (copyout pagetable sp (encode64s (take (Z.to_nat (argc + 1)) ustack))) in
          if r <? 0 then bad pagetable sz None
          else
            on_mem (store (p_trapframe p + TF_a1) sp) ;;;
            update i (fun p => set_name p (last_elem path path ++ [0])) ;;;
            update i (fun p => with_sz (with_pagetable p pagetable) sz) ;;;
            on_mem (store (p_trapframe p + TF_epc) entry) ;;;
            on_mem (store (p_trapframe p + TF_sp) sp) ;;;
            on_mem (proc_freepagetable kend (p_pagetable p) oldsz) ;;;
            kret argc
    end.

Definition exec (i : Z) (path : list Z) (argv : list Z) : M pworld Z :=
  let! p := get_proc i in
  on_fs x_begin ;;;
  let! r := on_fs (x_namei (p_cwd p) path) in
  match r with
  | None => on_fs x_end ;;; kret (-1)
  | Some ip =>
      on_fs (x_lock ip) ;;;
      let! elf := on_fs (x_read ip 0 ELFHDR) in
      if negb (Z.of_nat (length elf) =? ELFHDR) then bad 0 0 (Some ip)
      else if negb (elf_magic elf =? ELF_MAGIC) then bad 0 0 (Some ip)
      else
        let! pagetable := on_mem (proc_pagetable kend trampoline (p_trapframe p)) in
        if pagetable =? 0 then bad 0 0 (Some ip)
        else
          let! r := load_segments (Z.to_nat (elf_phnum elf)) pagetable ip (i32 (elf_phoff elf)) 0 in
          if negb r.2 then bad pagetable r.1 (Some ip)
          else
            on_fs (x_unlockput ip) ;;;
            on_fs x_end ;;;
            setup_stack i pagetable (elf_entry elf) r.1 path argv
  end.

(** ** The system call *)

(** [argraw(n)]: register [a<n>] of the trap frame. *)
Definition arg_of (i n : Z) : M pworld Z :=
  let! p := get_proc i in
  if (0 <=? n) && (n <=? 5) then on_mem (load (p_trapframe p + TF_a0 + 8 * n)) else panic "argraw".

Definition fetchaddr_of (i addr : Z) : M pworld (option Z) :=
  let! p := get_proc i in
  if (p_sz p <=? addr) || (p_sz p <? u64 (addr + 8)) then kret None
  else
    let! r := on_mem (copyin (p_pagetable p) addr 8) in
    kret (if r.2 : bool then Some (get_le 8 r.1 0) else None).

(** The bytes of the string before its NUL.  What a failing call leaves in the
    buffer is not read by any caller. *)
Definition fetchstr_of (i addr max : Z) : M pworld (option (list Z)) :=
  let! p := get_proc i in on_mem (copyinstr (p_pagetable p) addr max).

(** The argument loop from index [n] on: the pages filled so far, and whether
    the list was complete.  A page that [fetchstr] could not fill is among
    them. *)
Fixpoint fetch_args (k : nat) (i uargv n : Z) (argv : list Z) : M pworld (list Z * bool) :=
  match k with
  | O => kret (argv, false)
  | S k =>
      let! uarg := fetchaddr_of i (u64 (uargv + 8 * n)) in
      match uarg with
      | None => kret (argv, false)
      | Some uarg =>
          if uarg =? 0 then kret (argv, true)
          else
            let! a := on_mem kalloc in
            if a =? 0 then kret (argv, false)
            else
              let! str := fetchstr_of i uarg PGSIZE in
              match str with
              | None => kret (argv ++ [a], false)
              | Some str =>
                  on_mem (kmodify (fun s =>
                    {| kmem := store_bytes (kmem s) a (str ++ [0]); freelist := freelist s |})) ;;;
                  fetch_args k i uargv (n + 1) (argv ++ [a])
              end
      end
  end.

Fixpoint free_args (argv : list Z) : M pworld unit :=
  match argv with
  | [] => kret tt
  | a :: argv => on_mem (kfree kend a) ;;; free_args argv
  end.

(** The array [argv] has [MAXARG] entries, so the loop ends with its index. *)
Definition sys_exec (i : Z) : M pworld Z :=
  let! uargv := arg_of i 1 in
  let! upath := arg_of i 0 in
  let! path := fetchstr_of i upath EXEC_MAXPATH in
  match path with
  | None => kret (-1)
  | Some path =>
      let! r := fetch_args (Z.to_nat MAXARG) i uargv 0 [] in
      if r.2 : bool then
        let! ret := exec i path r.1 in
        free_args r.1 ;;;
        kret ret
      else free_args r.1 ;;; kret (-1)
  end.
End Exec.
