(* ===== verification/MachineTypes.v ===== *)
(** The machine types of the kernel's data.

    Numbers are unbounded in the model; the source's have widths.  The functions
    of [kernel/kalloc.c] and [kernel/vm.c], and [allocproc] and [growproc] of
    [kernel/proc.c], keep every byte of memory a byte and every pointer and size
    of a process a 64-bit word, which the theorems on [exec] rely on. *)

From S2P Require Import Prelude Mem Kalloc Block UserMem Vm Proc ProcTable ProcLife Exec.

Definition word_ok (x : Z) : Prop := 0 <= x < 2 ^ 64.
Definition int_ok (x : Z) : Prop := - 2 ^ 31 <= x < 2 ^ 31.

Lemma word_u64 x : word_ok (u64 x).
Proof. apply Z.mod_pos_bound. lia. Qed.

Lemma int_i32 x : int_ok (i32 x).
Proof. unfold int_ok, i32. pose proof (Z.mod_pos_bound (x + 2 ^ 31) (2 ^ 32)). lia. Qed.

(** ** Typed computations *)

(** From a state that satisfies [I], the computation ends in one that does, and
    its result satisfies [P]. *)
Definition typed {S A} (I : S -> Prop) (m : M S A) (P : A -> Prop) : Prop := forall s, I s ->
  match m s with
  | Ok a s' => P a /\ I s'
  | Panic _ => True
  | Sleep _ s' => I s'
  end.

Abbreviation any := (fun _ => True).

Section Typed.
Context {S : Type} (I : S -> Prop).

Lemma typed_ret {A} (a : A) (P : A -> Prop) : P a -> typed I (kret a) P.
Proof. by intros Ha s Hs. Qed.

Lemma typed_bind {A B} (m : M S A) (k : A -> M S B) P Q :
  typed I m P -> (forall a, P a -> typed I (k a) Q) -> typed I (kbind m k) Q.
Proof.
  intros Hm Hk s Hs. unfold kbind. specialize (Hm s Hs). destruct (m s) as [a s'| |]; [|done..].
  destruct Hm as [Ha Hs']. by apply Hk.
Qed.

Lemma typed_panic {A} msg (P : A -> Prop) : typed I (panic msg) P.
Proof. by intros s Hs. Qed.

Lemma typed_sleep {A} c (P : A -> Prop) : typed I (ksleep c) P.
Proof. by intros s Hs. Qed.

Lemma typed_opt {A} (o : option A) (P : A -> Prop) : (forall a, o = Some a -> P a) -> typed I (kopt o) P.
Proof. intros Ho s Hs. destruct o; cbn; auto. Qed.

Lemma typed_gets {A} (f : S -> A) (P : A -> Prop) : (forall s, I s -> P (f s)) -> typed I (kgets f) P.
Proof. intros Hf s Hs. cbn. auto. Qed.

Lemma typed_modify (f : S -> S) P : P tt -> (forall s, I s -> I (f s)) -> typed I (kmodify f) P.
Proof. intros HP Hf s Hs. cbn. auto. Qed.

Lemma typed_weaken {A} (m : M S A) (P Q : A -> Prop) :
  typed I m P -> (forall a, P a -> Q a) -> typed I m Q.
Proof. intros Hm HPQ s Hs. specialize (Hm s Hs). destruct (m s); naive_solver. Qed.

Lemma typed_any {A} (m : M S A) P : typed I m P -> typed I m any.
Proof. intros Hm. by eapply typed_weaken. Qed.
End Typed.

Create HintDb types.
#[export] Hint Resolve word_u64 int_i32 : types.

(** One step through a computation; what is left are calls and facts on data. *)
Ltac typed_step :=
  match goal with
  | |- forall _, _ => intros
  | |- typed _ (kbind _ _) _ => eapply typed_bind
  | |- typed _ (kret _) _ => apply typed_ret
  | |- typed _ (panic _) _ => apply typed_panic
  | |- typed _ (ksleep _) _ => apply typed_sleep
  | |- typed _ (if ?b then _ else _) _ => destruct b eqn:?
  | |- typed _ (match ?x with Some _ => _ | None => _ end) _ => destruct x eqn:?
  | |- typed _ (match ?x with (_, _) => _ end) _ => destruct x eqn:?
  | |- typed _ _ _ => solve [eauto 3 with types]
  | |- typed _ _ (fun _ => True) => eapply typed_any; solve [eauto 3 with types]
  | |- True => exact I
  end.

Ltac typed_auto := repeat (cbv beta; typed_step).

(** ** Memory *)

Record kstate_ok (s : kstate) : Prop := {
  ks_bytes : bytes_ok (kmem s);
  ks_free : word_ok (freelist s)
}.

Abbreviation mtyped := (typed kstate_ok).

Lemma typed_load a : mtyped (load a) word_ok.
Proof. apply typed_gets. intros s [Hb _]. by apply ld64_bound. Qed.

Lemma typed_store a v : mtyped (store a v) any.
Proof. apply typed_modify; [done|]. intros s []. split; [by apply st_le_bytes|done]. Qed.

Lemma typed_fill a c n : mtyped (fill a c n) any.
Proof. apply typed_modify; [done|]. intros s []. split; [by apply memset_bytes|done]. Qed.

Lemma typed_move dst src n : 0 <= n -> mtyped (move dst src n) any.
Proof. intros Hn. apply typed_modify; [done|]. intros s []. split; [by apply memmove_bytes|done]. Qed.

Definition bytes (bs : list Z) : Prop := Forall (fun b => 0 <= b < 256) bs.

Lemma bytes_ok_store m a bs : bytes bs -> bytes_ok m -> bytes_ok (store_bytes m a bs).
Proof.
  intros Hbs. revert m a. induction Hbs as [|b bs Hb _ IH]; intros m a Hm; [done|]. cbn [store_bytes].
  apply IH. intros x. unfold st8, insert, functions.fn_insert. case_decide; [done|apply Hm].
Qed.

Lemma bytes_at_bytes m a k : bytes_ok m -> bytes (bytes_at m a k).
Proof. intros Hm. apply list.Forall_fmap, list.Forall_forall. intros x _. apply Hm. Qed.

Lemma typed_store_bytes a bs : bytes bs ->
  mtyped (kmodify (fun s => {| kmem := store_bytes (kmem s) a bs; freelist := freelist s |})) any.
Proof.
  intros Hbs. apply typed_modify; [done|]. intros s []. split; [by apply bytes_ok_store|done].
Qed.
#[export] Hint Resolve typed_load typed_store typed_fill typed_move : types.

Lemma typed_kalloc : mtyped kalloc word_ok.
Proof.
  intros s [Hb Hf]. unfold kalloc. destruct (_ =? _); [done|]. split; [done|].
  split; [by apply memset_bytes|by apply ld64_bound].
Qed.

#[export] Hint Resolve typed_kalloc : types.

Lemma typed_walk_loop level pagetable va alloc : mtyped (walk_loop level pagetable va alloc) any.
Proof.
  revert pagetable. induction level as [|level IH]; intros pagetable; cbn [walk_loop]; typed_auto.
Qed.
#[export] Hint Resolve typed_walk_loop : types.

Lemma typed_walk pagetable va alloc : mtyped (walk pagetable va alloc) any.
Proof. unfold walk. typed_auto. Qed.
#[export] Hint Resolve typed_walk : types.

Lemma typed_walkaddr pagetable va : mtyped (walkaddr pagetable va) any.
Proof. unfold walkaddr. typed_auto. Qed.
#[export] Hint Resolve typed_walkaddr : types.

Lemma typed_mappages_loop k pagetable a last pa perm : mtyped (mappages_loop k pagetable a last pa perm) any.
Proof. revert a pa. induction k as [|k IH]; intros a pa; cbn [mappages_loop]; typed_auto. Qed.
#[export] Hint Resolve typed_mappages_loop : types.

Lemma typed_mappages pagetable va size pa perm : mtyped (mappages pagetable va size pa perm) any.
Proof. unfold mappages. typed_auto. Qed.
#[export] Hint Resolve typed_mappages : types.

Lemma typed_uvmcreate : mtyped uvmcreate word_ok.
Proof. unfold uvmcreate. typed_auto. all: done. Qed.
#[export] Hint Resolve typed_uvmcreate : types.

Lemma typed_uvmfirst pagetable src : bytes src -> mtyped (uvmfirst pagetable src) any.
Proof. intros Hs. unfold uvmfirst. typed_auto. by apply typed_store_bytes. Qed.

Lemma typed_uvmclear pagetable va : mtyped (uvmclear pagetable va) any.
Proof. unfold uvmclear. typed_auto. Qed.

Lemma typed_copyout_loop k pagetable va bs : bytes bs -> mtyped (copyout_loop k pagetable va bs) any.
Proof.
  revert va bs. induction k as [|k IH]; intros va bs Hbs; destruct bs; cbn [copyout_loop]; typed_auto.
  - apply typed_store_bytes. by apply Forall_take.
  - apply IH. by apply Forall_drop.
Qed.

Lemma typed_copyout pagetable va bs : bytes bs -> mtyped (copyout pagetable va bs) any.
Proof. apply typed_copyout_loop. Qed.

Lemma typed_copyin_loop k pagetable va len :
  mtyped (copyin_loop k pagetable va len) (fun r => bytes r.1).
Proof.
  revert va len. induction k as [|k IH]; intros va len; cbn [copyin_loop]; typed_auto; try by constructor.
  - apply typed_gets with (P := bytes). intros s Hs. apply bytes_at_bytes, Hs.
  - apply Forall_app. done.
Qed.

Lemma typed_copyin pagetable va len : mtyped (copyin pagetable va len) (fun r => bytes r.1).
Proof. apply typed_copyin_loop. Qed.

Section Memory.
Context (kend : Z) (kend_pos : 0 < kend).

Lemma typed_kfree pa : mtyped (kfree kend pa) any.
Proof.
  intros s [Hb Hf]. unfold kfree.
  destruct (_ || (PHYSTOP <=? pa)) eqn:E; [done|]. split; [done|].
  apply orb_false_iff in E as [[_ E2]%orb_false_iff E3].
  split; [by apply st_le_bytes, memset_bytes|]. cbn. unfold word_ok, PHYSTOP, KERNBASE in *. lia.
Qed.
#[local] Hint Resolve typed_kfree : types.

Lemma typed_freerange_loop k a b : mtyped (freerange_loop kend k a b) any.
Proof. revert a. induction k as [|k IH]; intros a; cbn [freerange_loop]; typed_auto. Qed.

Lemma typed_kinit : mtyped (kinit kend) any.
Proof. apply typed_freerange_loop. Qed.

Lemma typed_uvmunmap_loop k pagetable a free : mtyped (uvmunmap_loop kend k pagetable a free) any.
Proof. revert a. induction k as [|k IH]; intros a; cbn [uvmunmap_loop]; typed_auto. Qed.
#[local] Hint Resolve typed_uvmunmap_loop : types.

Lemma typed_uvmunmap pagetable va n free : mtyped (uvmunmap kend pagetable va n free) any.
Proof. unfold uvmunmap. typed_auto. Qed.
#[local] Hint Resolve typed_uvmunmap : types.

Lemma typed_uvmdealloc pagetable oldsz newsz :
  word_ok oldsz -> word_ok newsz -> mtyped (uvmdealloc kend pagetable oldsz newsz) word_ok.
Proof. intros Ho Hn. unfold uvmdealloc. typed_auto. all: done. Qed.

Lemma typed_uvmalloc_loop k pagetable oldsz newsz a xperm :
  word_ok oldsz -> word_ok newsz -> word_ok a ->
  mtyped (uvmalloc_loop kend k pagetable oldsz newsz a xperm) word_ok.
Proof.
  intros Ho Hn. revert a. induction k as [|k IH]; intros a Ha; cbn [uvmalloc_loop]; typed_auto; try done.
  all: by eapply typed_any, typed_uvmdealloc.
Qed.

Lemma typed_uvmalloc pagetable oldsz newsz xperm :
  word_ok oldsz -> word_ok newsz -> mtyped (uvmalloc kend pagetable oldsz newsz xperm) word_ok.
Proof. intros Ho Hn. unfold uvmalloc. typed_auto; [done|]. apply typed_uvmalloc_loop; auto with types. Qed.

Lemma typed_freewalk_loop child k pagetable i :
  (forall q, mtyped (child q) any) -> mtyped (freewalk_loop child k pagetable i) any.
Proof. intros Hc. revert i. induction k as [|k IH]; intros i; cbn [freewalk_loop]; typed_auto. Qed.

Lemma typed_freewalk level pagetable : mtyped (freewalk kend level pagetable) any.
Proof.
  revert pagetable. induction level as [|level IH]; intros pagetable; cbn [freewalk];
    (eapply typed_bind; [apply typed_freewalk_loop|]); typed_auto.
Qed.
#[local] Hint Resolve typed_freewalk : types.

Lemma typed_uvmfree pagetable sz : mtyped (uvmfree kend pagetable sz) any.
Proof. unfold uvmfree. typed_auto. Qed.
#[local] Hint Resolve typed_uvmfree : types.

Lemma typed_uvmcopy_loop k old new sz i : mtyped (uvmcopy_loop kend k old new sz i) any.
Proof.
  revert i. induction k as [|k IH]; intros i; cbn [uvmcopy_loop]; cbv zeta; typed_auto.
  by apply typed_move.
Qed.

Lemma typed_uvmcopy old new sz : mtyped (uvmcopy kend old new sz) any.
Proof. apply typed_uvmcopy_loop. Qed.

Lemma typed_proc_pagetable trampoline tf : mtyped (proc_pagetable kend trampoline tf) word_ok.
Proof. unfold proc_pagetable. typed_auto. all: done. Qed.

Lemma typed_proc_freepagetable pagetable sz : mtyped (proc_freepagetable kend pagetable sz) any.
Proof. unfold proc_freepagetable. typed_auto. Qed.
End Memory.
#[export] Hint Resolve typed_uvmfirst typed_uvmclear typed_copyout typed_copyin typed_kfree typed_uvmdealloc typed_uvmalloc
  typed_uvmcopy typed_proc_pagetable typed_proc_freepagetable : types.

(** ** Processes *)

Record proc_ok (p : proc) : Prop := {
  po_killed : int_ok (p_killed p);
  po_xstate : int_ok (p_xstate p);
  po_pid : int_ok (p_pid p);
  po_sz : word_ok (p_sz p);
  po_pagetable : word_ok (p_pagetable p);
  po_trapframe : word_ok (p_trapframe p);
  po_context : length (p_context p) = 14%nat;
  po_ofile : length (p_ofile p) = 16%nat;
  po_name : length (p_name p) = 16%nat
}.

Section Processes.
Context {F : Type} `{!ProcFiles F}.
Context (kend trampoline forkret : Z) (kend_pos : 0 < kend).
Abbreviation pworld := (@pworld F).

Record world_ok (w : pworld) : Prop := {
  wo_procs : Forall proc_ok (procs w);
  wo_count : length (procs w) = Z.to_nat NPROC;
  wo_next : int_ok (nextpid w);
  wo_mem : kstate_ok (kpages w)
}.

Abbreviation wtyped := (typed world_ok).

Lemma typed_on_mem {A} (m : M kstate A) P : mtyped m P -> wtyped (on_mem m) P.
Proof.
  intros Hm w [Hp Hc Hn Hk]. unfold on_mem. specialize (Hm _ Hk).
  destruct (m (kpages w)) as [a s| |]; [destruct Hm; split; [done|]|done|]; by split.
Qed.

Lemma typed_get_proc i : wtyped (get_proc i) proc_ok.
Proof.
  intros w Hw. unfold get_proc. destruct (zget (procs w) i) as [p|] eqn:E; [|done]. split; [|done].
  apply zget_Some in E as [_ E]. by apply (Forall_lookup_1 _ _ _ _ (wo_procs _ Hw) E).
Qed.

Lemma typed_put_proc i p : proc_ok p -> wtyped (put_proc i p) any.
Proof.
  intros Hp w [Hps Hc Hn Hk]. unfold put_proc. destruct (zset (procs w) i p) as [t|] eqn:E; [|done].
  split; [done|]. unfold zset in E. case_match; [|done]. injection E as <-.
  split; cbn; try done; [by apply Forall_insert|by rewrite length_insert].
Qed.

Lemma typed_update i f : (forall p, proc_ok p -> proc_ok (f p)) -> wtyped (update i f) any.
Proof.
  intros Hf. eapply typed_bind; [apply typed_get_proc|]. intros p Hp. by apply typed_put_proc, Hf.
Qed.

Lemma length_set8 b i v : length (set8 b i v) = length b.
Proof. unfold set8. destruct (zset b i v) eqn:E; [by apply zset_length in E|done]. Qed.

Lemma length_bytes_at m a k : length (bytes_at m a k) = k.
Proof. unfold bytes_at. rewrite length_fmap, length_seqZ. lia. Qed.

(** Facts on the data: the fields of a process after assignments. *)
Ltac data_ok :=
  repeat match goal with
  | |- context [decide ?P] => destruct (decide P)
  | H : proc_ok _ |- _ => destruct H
  end;
  match goal with
  | |- proc_ok _ => split; cbn [with_state with_chan with_killed with_xstate
      with_pid with_parent with_sz with_pagetable with_trapframe with_context with_ofile with_cwd with_name
      set_name p_killed p_xstate p_pid p_sz p_pagetable p_trapframe p_context p_ofile p_name]
  end;
  rewrite ?length_bytes_at, ?length_set8; cbn [length]; rewrite ?length_replicate;
  try (done || congruence || (unfold int_ok, word_ok in *; lia) || auto with types).

Ltac proc_step :=
  match goal with
  | |- typed _ (on_mem _) (fun _ => True) => eapply typed_any, typed_on_mem; solve [eauto 4 with types]
  | |- typed _ (on_mem _) _ => apply typed_on_mem; solve [eauto 4 with types]
  | |- typed _ (get_proc _) _ => apply typed_get_proc
  | |- typed _ (put_proc _ _) _ => apply typed_put_proc
  | |- typed _ (update _ _) _ => apply typed_update; intros; cbv beta
  | |- typed _ (on_mem _) _ => eapply typed_any, typed_on_mem; solve [by apply typed_move|by apply typed_uvmfirst]
  | |- typed _ (kgets _) _ => apply typed_gets with (P := any); done
  | |- typed _ (kopt (zset ?l _ _)) _ =>
      apply typed_opt with (P := fun t => length t = length l); intros; by eapply zset_length
  | |- typed _ (kopt _) _ => apply typed_opt with (P := any); done
  | |- typed _ (kmodify _) _ => apply typed_modify with (P := any); [done|intros ? []; by split]
  | |- proc_ok _ => solve [data_ok]
  end.

Ltac proc_auto := repeat (cbv beta; first [proc_step|typed_step]); try done.

Lemma typed_freeproc i : wtyped (freeproc kend i) any.
Proof. unfold freeproc. proc_auto. Qed.

Lemma typed_allocpid : wtyped allocpid int_ok.
Proof. intros w []. cbn. split; [done|]. split; try done. apply int_i32. Qed.

Lemma typed_set_initproc i : wtyped (set_initproc i) any.
Proof. unfold set_initproc. proc_auto. Qed.
#[local] Hint Resolve typed_freeproc typed_allocpid typed_set_initproc : types.

Lemma typed_allocproc : wtyped (allocproc kend trampoline forkret) any.
Proof. unfold allocproc. proc_auto. Qed.
#[local] Hint Resolve typed_allocproc : types.

Lemma typed_growproc i n : wtyped (growproc kend i n) any.
Proof.
  unfold growproc. eapply typed_bind; [apply typed_get_proc|]. intros p Hp.
  pose proof (po_sz _ Hp). proc_auto.
Qed.

Lemma world_ok_boot m f : kstate_ok m -> world_ok (boot m f).
Proof.
  intros Hm. split; [|done|done|done]. apply list.Forall_fmap, list.Forall_forall. intros i Hi.
  split; cbn; done.
Qed.
End Processes.

(** ** A machine with one program *)

(** The only file: an executable without segments, whose entry is 0. *)
Definition tiny_elf : list Z :=
  [0x7f; 0x45; 0x4c; 0x46] ++ replicate 28 0 ++ [64] ++ replicate 31 0.

Definition one_file : ExecFiles unit :=
  {| x_begin := kret tt; x_end := kret tt; x_namei _ _ := kret (Some 0); x_lock _ := kret tt;
     x_read _ off n := kret (take (Z.to_nat n) (drop (Z.to_nat off) tiny_elf));
     x_unlockput _ := kret tt |}.

Lemma one_file_laws : @ExecFilesLaws unit one_file.
Proof.
  split; intros ip off n f bs f' [= <- _].
  - intros Hn. rewrite length_take. lia.
  - apply Forall_take, Forall_drop. apply (bool_decide_unpack _). by vm_compute.
Qed.
