(* ===== verification/ExecMem.v ===== *)
(** Two address spaces at a time, as [exec] keeps them ([kernel/exec.c] over
    [kernel/vm.c]).

    [img] is the address space of a process with its map; an address space is
    kept by anything that changes only pages it does not own, whatever becomes
    of the free list.  The operations of [exec] on the new space: growing to
    any size a program header may ask for, loading a page, clearing the guard
    page, and copying out. *)

From stdpp Require Import functions.
From S2P Require Import Prelude Mem Kalloc Vm VmSpace VmOps VmFree VmCopy VmFork Proc ProcTable ProcLife ProcMem.

Section Images.
Context (kend trampoline : Z) (kend_pos : 0 < kend) (tramp_ok : pa_ok trampoline).
Implicit Types (F : gset Z) (T : gmap Z (nat * Z)) (mp : gmap Z Z) (l : list Z) (s : kstate).

Record img (root tf sz : Z) F T mp l s : Prop := {
  im_space : uspace kend root F T mp l s;
  im_size : 0 <= sz <= ULIM * PGSIZE;
  im_pages : forall i, i < ULIM -> is_Some (mp !! i) <-> 0 <= i < npages sz;
  im_tramp : mp !! (ULIM + 1) = Some (make_pte trampoline RX);
  im_trap : mp !! ULIM = Some (make_pte tf RW);
}.

Lemma img_pspace root tf sz F T mp l s :
  img root tf sz F T mp l s -> pspace kend trampoline root tf sz F s.
Proof. intros []. exists T, mp, l. auto. Qed.

Lemma pspace_img root tf sz F s :
  pspace kend trampoline root tf sz F s -> exists T mp l, img root tf sz F T mp l s.
Proof. intros (T & mp & l & ? & ? & ? & ? & ?). exists T, mp, l. by split. Qed.

(** The pages of the space itself. *)
Definition own T mp (p : Z) : Prop := is_Some (T !! p) \/ user_frame mp p.

Lemma own_not_free root F T mp l s p : uspace kend root F T mp l s -> own T mp p -> p ∉ l.
Proof.
  intros [Hsp Hpt] [HT|(n & v & Hn & Hlt & <-)] Hl.
  - rewrite (sp_disj _ _ _ _ _ _ Hsp p Hl) in HT. by destruct HT.
  - by destruct (pt_leaf _ _ _ _ _ Hpt n v Hn Hlt) as (_ & _ & ? & _).
Qed.

Lemma own_page_ok root F T mp l s p : uspace kend root F T mp l s -> own T mp p -> page_ok kend p.
Proof.
  intros Hus Hp. eapply uspace_page_ok; [exact Hus|].
  apply (pt_all _ _ _ _ _ (proj2 Hus)). destruct Hp; auto.
Qed.

(** Pages apart from those changed keep their bytes. *)
Lemma own_kept (P : Z -> Prop) root F T mp l s m m' p a :
  uspace kend root F T mp l s -> own T mp p -> in_page p a ->
  outside P m m' -> (forall q, P q -> page_ok kend q) -> (forall q, P q -> ~ own T mp q) ->
  m' a = m a.
Proof.
  intros Hus Hp Ha Hout Hok Hd. eapply (outside_page P m m' p a); [done| |done|..].
  - by destruct (own_page_ok _ _ _ _ _ _ _ Hus Hp).
  - intros q Hq. by destruct (Hok q Hq).
  - intros HP. by eapply Hd.
Qed.

(** A space survives any change to other pages, and any free list made of
    other pages; [F'] are then the pages of the space and the free ones. *)
Lemma uspace_kept root F T mp l s l' s' (P : Z -> Prop) :
  uspace kend root F T mp l s -> free_pages kend s' l' ->
  outside P (kmem s) (kmem s') -> (forall q, P q -> page_ok kend q) ->
  (forall q, P q -> ~ own T mp q) -> (forall q, q ∈ l' -> ~ own T mp q) ->
  uspace kend root (list_to_set l' ∪ (F ∖ list_to_set l)) T mp l' s'.
Proof.
  intros Hus Hf Hout Hok HP Hl'. pose proof Hus as [Hsp Hpt]. split.
  - eapply space_frame; [done|exact Hsp| |done|].
    + intros q a Hq Ha. eapply own_kept; [exact Hus|by left|done..].
    + intros q Hq. apply eq_None_not_Some. intros HT. eapply Hl'; [done|by left].
  - split.
    + intros n v Hn Hlt. destruct (pt_leaf _ _ _ _ _ Hpt n v Hn Hlt) as (? & ? & _ & ?).
      split_and!; try done. intros Hin. eapply Hl'; [done|]. right. by exists n, v.
    + apply Hpt.
    + intros q. rewrite elem_of_union, elem_of_list_to_set, elem_of_difference,
        elem_of_list_to_set, (pt_all _ _ _ _ _ Hpt).
      split; [naive_solver|]. intros [?|Hq]; [auto|]. right. split; [auto|].
      eapply own_not_free; [exact Hus|]. by destruct Hq; [left|right].
Qed.

Lemma img_kept root tf sz F T mp l s l' s' (P : Z -> Prop) :
  img root tf sz F T mp l s -> free_pages kend s' l' ->
  outside P (kmem s) (kmem s') -> (forall q, P q -> page_ok kend q) ->
  (forall q, P q -> ~ own T mp q) -> (forall q, q ∈ l' -> ~ own T mp q) ->
  img root tf sz (list_to_set l' ∪ (F ∖ list_to_set l)) T mp l' s'.
Proof. intros [] ?????. split; try done. by eapply uspace_kept. Qed.

(** The bytes of user pages survive as well. *)
Lemma ubyte_kept root tf sz F T mp l s s' (P : Z -> Prop) va :
  img root tf sz F T mp l s -> outside P (kmem s) (kmem s') ->
  (forall q, P q -> page_ok kend q) -> (forall q, P q -> ~ own T mp q) ->
  va < ULIM * PGSIZE ->
  ubyte mp (kmem s') va = ubyte mp (kmem s) va.
Proof.
  intros Him Hout Hok HP Hva. unfold ubyte, upa.
  destruct (mp !! (va / PGSIZE)) as [v|] eqn:Hv; [|done].
  destruct (has v PTE_U); [|done]. f_equal.
  pose proof (page_offset va). eapply own_kept; [apply Him| | |done..].
  - right. exists (va / PGSIZE), v. split_and!; try done.
    apply Z.div_lt_upper_bound; [done|]. unfold PGSIZE in *. lia.
  - unfold in_page. lia.
Qed.

(** ** Growing to any size *)

(** A page the user can read. *)
Definition user_pte (v : Z) : Prop :=
  has v PTE_U = true /\ has v PTE_R = true /\ 0 <= v < 2 ^ 64.

(** The user pages of an image under construction are accessible. *)
Definition users (sz : Z) mp : Prop :=
  forall i, 0 <= i < npages sz -> exists v, mp !! i = Some v /\ user_pte v.

Lemma has_perm pg perm bit :
  pa_ok pg -> 0 <= perm < 1024 -> bit = PTE_U \/ bit = PTE_R -> has (make_pte pg perm) bit = has perm bit.
Proof.
  intros Hpg Hperm Hbit. destruct (make_pte_spec pg perm Hpg Hperm) as (_ & _ & _ & E).
  assert (Z.land 0x3FF bit = bit /\ Z.land PTE_V bit = 0) as [H1 H2] by (by destruct Hbit; subst).
  unfold has. rewrite <- H1 at 1. rewrite Z.land_assoc.
  change (Z.land (make_pte pg perm) 0x3FF) with (PTE_FLAGS (make_pte pg perm)).
  by rewrite E, Z.land_lor_distr_l, H2, Z.lor_0_r.
Qed.

Lemma user_pte_new pg xperm :
  pa_ok pg -> 0 <= xperm < 1024 -> user_pte (make_pte pg (Z.lor (Z.lor PTE_R PTE_U) xperm)).
Proof.
  intros Hpg Hx. destruct (user_perm xperm Hx) as [Hp _].
  assert (forall a b, 0 < a -> negb (Z.lor a b =? 0) = true) as Hlor.
  { intros a b Ha. destruct (Z.eqb_spec (Z.lor a b) 0) as [E|]; [|done].
    apply Z.lor_eq_0_iff in E as [? _]. lia. }
  split; [|split].
  - rewrite has_perm by auto. unfold has. rewrite !Z.land_lor_distr_l.
    by apply (Hlor (Z.lor (Z.land PTE_R PTE_U) (Z.land PTE_U PTE_U))).
  - rewrite has_perm by auto. unfold has. rewrite !Z.land_lor_distr_l.
    by apply (Hlor (Z.lor (Z.land PTE_R PTE_R) (Z.land PTE_U PTE_R))).
  - by apply make_pte_spec.
Qed.

(** Failing before [newsz] is failing for every larger size. *)
Lemma uvmalloc_fails k k' root oldsz newsz newsz' a xperm s s' :
  uvmalloc_loop kend k root oldsz newsz a xperm s = Ok 0 s' -> newsz <> 0 ->
  newsz <= newsz' -> (k <= k')%nat ->
  uvmalloc_loop kend k' root oldsz newsz' a xperm s = Ok 0 s'.
Proof.
  intros E Hnz Hle. revert k' a s E. induction k as [|k IH]; intros k' a s E Hk.
  { by injection E as ? <-. }
  destruct k' as [|k']; [lia|]. cbn [uvmalloc_loop] in E |- *.
  destruct (Z.ltb_spec a newsz) as [Ha|Ha]; [|by injection E as ? <-].
  destruct (Z.ltb_spec a newsz'); [|lia].
  apply kbind_Ok_inv in E as (pg & s1 & E1 & E). rewrite (kbind_Ok _ _ _ _ _ E1).
  destruct (pg =? 0); [done|].
  apply kbind_Ok_inv in E as (x & s2 & E2 & E). rewrite (kbind_Ok _ _ _ _ _ E2).
  apply kbind_Ok_inv in E as (r & s3 & E3 & E). rewrite (kbind_Ok _ _ _ _ _ E3).
  destruct (negb (r =? 0)); [done|]. apply IH; [done|lia].
Qed.

(** [uvmalloc] extends an image below the trap frame. *)
Lemma img_extend root tf sz newsz xperm F T mp l s :
  img root tf sz F T mp l s -> users sz mp -> 0 <= xperm < 1024 ->
  sz <= newsz -> newsz <= ULIM * PGSIZE ->
  exists r T' mp' l' s', uvmalloc kend root sz newsz xperm s = Ok r s' /\
    outside (fun p => p ∈ F) (kmem s) (kmem s') /\
    (r = newsz /\ img root tf newsz F T' mp' l' s' /\ users newsz mp'
     \/ r = 0 /\ mp' = mp /\ img root tf sz F T' mp' l' s').
Proof.
  intros [Hus Hsz Hmp Htr Htf] Hu Hx Hle Hlim.
  pose proof (npages_bounds sz) as Hnp. pose proof (npages_mono sz newsz Hle) as Hmono.
  pose proof (npages_ulim _ Hlim) as HU.
  assert (0 <= npages sz) as Hpos by (unfold PGSIZE in *; lia).
  destruct (uvmalloc_spec kend kend_pos root sz newsz xperm F T mp l s Hus)
    as (r & T' & mp' & l' & s' & E & Hus' & Ho & Hr); [done|lia|done| |].
  { intros i Hi. apply eq_None_not_Some. rewrite Hmp by lia. lia. }
  exists r, T', mp', l', s'. split; [done|]. split; [by eapply outside_spare|].
  destruct Hr as [[-> Hext]|[-> ->]]; [left|right; split_and!; done].
  assert (forall i, ~ npages sz <= i < npages newsz -> mp' !! i = mp !! i) as Hsame.
  { intros i Hi. specialize (Hext i). by rewrite decide_False in Hext. }
  split; [done|]. split; [split; [done|lia| |by rewrite Hsame by lia..]|].
  - intros i Hi. destruct (decide (npages sz <= i < npages newsz)) as [Hin|Hout].
    + split; [lia|]. intros _. by eapply (extended_mapped kend).
    + rewrite Hsame, Hmp by lia. lia.
  - intros i Hi. destruct (decide (npages sz <= i < npages newsz)) as [Hin|Hout].
    + specialize (Hext i). rewrite decide_True in Hext by done.
      destruct Hext as (pg & -> & Hok & _). eexists. split; [done|].
      apply user_pte_new; [by apply (page_pa_ok kend)|done].
    + rewrite Hsame by lia. apply Hu. lia.
Qed.

(** A size beyond the trap frame fails for want of memory. *)
Lemma img_alloc root tf sz newsz xperm F T mp l s :
  img root tf sz F T mp l s -> users sz mp -> 0 <= xperm < 1024 -> 0 <= newsz ->
  exists r T' mp' l' s', uvmalloc kend root sz newsz xperm s = Ok r s' /\
    outside (fun p => p ∈ F) (kmem s) (kmem s') /\
    (r = 0 /\ img root tf sz F T' mp' l' s' /\ users sz mp'
     \/ 0 < r /\ r = Z.max sz newsz /\ img root tf r F T' mp' l' s' /\ users r mp').
Proof.
  intros Him Hu Hx Hnew. destruct (Z.ltb_spec newsz sz) as [Hlt|Hge].
  { exists sz, T, mp, l, s. split; [unfold uvmalloc; by rewrite (proj2 (Z.ltb_lt _ _))|].
    split; [apply outside_refl|]. right. split_and!; try done; lia. }
  destruct (decide (newsz <= ULIM * PGSIZE)) as [Hlim|Hbig].
  - destruct (img_extend root tf sz newsz xperm F T mp l s Him Hu Hx Hge Hlim)
      as (r & T' & mp' & l' & s' & E & Ho & [(-> & Him' & Hu')|(-> & -> & Him')]).
    + exists newsz, T', mp', l', s'. split; [done|]. split; [done|].
      pose proof (im_size _ _ _ _ _ _ _ _ Him) as Hsz.
      destruct (decide (newsz = 0)) as [->|Hnz]; [left|right; split_and!; done || lia].
      assert (sz = 0) as -> by lia. done.
    + exists 0, T', mp, l', s'. auto 10.
  - pose proof (im_size _ _ _ _ _ _ _ _ Him) as Hsz.
    destruct (img_extend root tf sz (ULIM * PGSIZE) xperm F T mp l s Him Hu Hx ltac:(lia) ltac:(lia))
      as (r & T' & mp' & l' & s' & E & Ho & [(-> & Him' & Hu')|(-> & -> & Him')]).
    { exfalso. apply img_pspace in Him'. apply pspace_bound in Him' as Hb; [|done].
      rewrite npages_exact in Hb. done. }
    exists 0, T', mp, l', s'. split; [|split; [done|by left]].
    unfold uvmalloc in E |- *. destruct (Z.ltb_spec (ULIM * PGSIZE) sz); [lia|].
    destruct (Z.ltb_spec newsz sz); [lia|].
    eapply uvmalloc_fails; [exact E|done|lia|].
    set (u := u64 (PGROUNDUP sz)).
    assert ((ULIM * PGSIZE - u) / PGSIZE <= (newsz - u) / PGSIZE) by (apply Z.div_le_mono; [done|lia]).
    lia.
Qed.

(** ** Writing into the new image *)

Lemma img_top root tf sz F T mp l s :
  img root tf sz F T mp l s -> pa_ok tf -> no_user_top mp.
Proof.
  intros Him Htf n v Hv HU. destruct (decide (n < ULIM)) as [|Hn]; [done|]. exfalso.
  destruct (sp_valid _ _ _ _ _ _ (proj1 (im_space _ _ _ _ _ _ _ _ Him)) n v Hv) as [Hb _].
  change (MAXVA / PGSIZE) with (ULIM + 2) in Hb.
  assert (n = ULIM \/ n = ULIM + 1) as [-> | ->] by lia;
    rewrite ?(im_trap _ _ _ _ _ _ _ _ Him), ?(im_tramp _ _ _ _ _ _ _ _ Him) in Hv;
    injection Hv as <-; by rewrite user_flag in HU.
Qed.

Lemma users_upa sz mp va :
  users sz mp -> 0 <= va < npages sz * PGSIZE -> is_Some (upa mp va).
Proof.
  intros Hu Hva. destruct (Hu (va / PGSIZE)) as (v & Hv & HU & _).
  - split; [apply Z.div_pos; [lia|done]|]. apply Z.div_lt_upper_bound; [done|lia].
  - unfold upa. rewrite Hv, HU. by eexists.
Qed.

(** Bytes stored in a page of the user. *)
Lemma img_write root tf sz F T mp l s va pa bs :
  img root tf sz F T mp l s -> pa_ok tf -> upa mp va = Some pa ->
  va mod PGSIZE + Z.of_nat (length bs) <= PGSIZE ->
  img root tf sz F T mp l (write_user s pa va bs) /\
  outside (fun p => p ∈ F) (kmem s) (kmem (write_user s pa va bs)).
Proof.
  intros Him Htf Hpa Hlen. pose proof (img_top _ _ _ _ _ _ _ _ Him Htf) as Htop.
  pose proof Him as [Hus ????].
  destruct (write_user_spec kend kend_pos root F T mp l s va pa bs Hus Htop Hpa Hlen) as [Hus' _].
  split; [by split|]. intros a Ha. cbn [kmem write_user].
  destruct (upa_frame _ _ _ _ _ _ _ (proj2 Hus) Htop Hpa) as (Hf & [Hal _] & _).
  apply store_bytes_page; [done|done|]. apply Ha.
  apply (pt_all _ _ _ _ _ (proj2 Hus)). auto.
Qed.

(** [copyout] writes nothing but user pages. *)
Lemma copyout_outside root tf sz F T mp l s va bs :
  img root tf sz F T mp l s -> pa_ok tf -> 0 <= va ->
  exists r s', Vm.copyout root va bs s = Ok r s' /\ img root tf sz F T mp l s' /\
    outside (fun p => p ∈ F) (kmem s) (kmem s').
Proof.
  intros Him Htf Hva. pose proof (img_top _ _ _ _ _ _ _ _ Him Htf) as Htop.
  unfold Vm.copyout. generalize (le_n (length bs)). generalize (length bs) at 2 3 as k.
  intros k. revert va bs s Him Hva. induction k as [|k IH]; intros va bs s Him Hva Hlen.
  { destruct bs; [|cbn in Hlen; lia]. exists 0, s. split; [done|]. split; [done|apply outside_refl]. }
  destruct bs as [|b bs]; [exists 0, s; split; [done|]; split; [done|apply outside_refl]|].
  cbn [copyout_loop]. set (all := b :: bs) in *.
  rewrite (kbind_Ok _ _ _ _ _ (walkaddr_spec kend kend_pos root _ _ _ _ _ _
    (im_space _ _ _ _ _ _ _ _ Him) Htop (down_nonneg va Hva))).
  rewrite upa_down. destruct (upa mp va) as [pa|] eqn:Hpa.
  2: { exists (-1), s. split; [done|]. split; [done|apply outside_refl]. }
  destruct (upa_frame _ _ _ _ _ _ _ (proj2 (im_space _ _ _ _ _ _ _ _ Him)) Htop Hpa) as (_ & Hok & _).
  change (default 0 (Some pa)) with pa.
  destruct (Z.eqb_spec pa 0) as [->|_]; [destruct Hok; lia|].
  destruct (chunk_bounds va (Z.of_nat (length all)) ltac:(cbn; lia)) as (Hn & Hpg & Hnext).
  set (n := Z.min (PGSIZE - (va - PGROUNDDOWN va)) (Z.of_nat (length all))) in *.
  assert (Z.of_nat (length (take (Z.to_nat n) all)) = n) as Htk by (rewrite length_take; lia).
  rewrite pa_offset.
  destruct (img_write root tf sz F T mp l s va pa (take (Z.to_nat n) all) Him Htf Hpa ltac:(lia))
    as [Him1 Ho1].
  destruct (IH (PGROUNDDOWN va + PGSIZE) (drop (Z.to_nat n) all) _ Him1) as (r & s' & E & Him' & Ho').
  { pose proof (down_nonneg va Hva). unfold PGSIZE. lia. }
  { rewrite length_drop. cbn [length all] in *. lia. }
  exists r, s'. split; [exact E|]. split; [done|]. by eapply outside_trans.
Qed.

(** Changing the permissions of a page. *)
Lemma parts_replace n v v' F T mp l :
  parts kend F T mp l -> mp !! n = Some v -> PTE2PA v' = PTE2PA v -> PTE_FLAGS v' <> PTE_V ->
  parts kend F T (<[n := v']> mp) l.
Proof.
  intros [Hleaf Hinj Hall] Hv Hpa Hfl.
  assert (forall i w, <[n := v']> mp !! i = Some w ->
    exists w0, mp !! i = Some w0 /\ PTE2PA w = PTE2PA w0 /\ (PTE_FLAGS w0 <> PTE_V -> PTE_FLAGS w <> PTE_V)) as Hget.
  { intros i w. rewrite lookup_insert_Some. intros [[<- <-]|[_ ?]]; [by exists v|by exists w]. }
  split.
  - intros i w Hi Hlt. destruct (Hget i w Hi) as (w0 & Hi0 & -> & Hf).
    destruct (Hleaf i w0 Hi0 Hlt) as (? & ? & ? & ?). auto.
  - intros i j w u Hi Hj Hlt Hlt' E. destruct (Hget i w Hi) as (w0 & Hi0 & Ew & _).
    destruct (Hget j u Hj) as (u0 & Hj0 & Eu & _). eapply Hinj; try done. congruence.
  - intros p. rewrite Hall. do 2 f_equiv. split.
    + intros (i & w & Hi & Hlt & <-). destruct (decide (i = n)) as [->|Hne].
      * exists n, v'. rewrite lookup_insert_eq. split_and!; try done. congruence.
      * exists i, w. by rewrite lookup_insert_ne.
    + intros (i & w & Hi & Hlt & <-). destruct (Hget i w Hi) as (w0 & Hi0 & -> & _).
      by exists i, w0.
Qed.

(** Clearing the user bit of an entry. *)
Lemma clear_user v :
  0 <= v < 2 ^ 64 -> has v PTE_V = true ->
  PTE2PA (Z.land v (Z.lnot PTE_U)) = PTE2PA v /\ has (Z.land v (Z.lnot PTE_U)) PTE_V = true /\
  has (Z.land v (Z.lnot PTE_U)) PTE_U = false /\ 0 <= Z.land v (Z.lnot PTE_U) < 2 ^ 64.
Proof.
  intros Hv HV. split_and!.
  - unfold PTE2PA. do 2 f_equal. apply Z.bits_inj'. intros n Hn.
    rewrite !Z.shiftr_spec, Z.land_spec, Z.lnot_spec by lia.
    unfold PTE_U. rewrite Z.shiftl_1_l, Z.pow2_bits_false by lia. by rewrite andb_true_r.
  - unfold has in *. rewrite <- Z.land_assoc. by change (Z.land (Z.lnot PTE_U) PTE_V) with PTE_V.
  - unfold has. rewrite <- Z.land_assoc. change (Z.land (Z.lnot PTE_U) PTE_U) with 0.
    by rewrite Z.land_0_r.
  - apply Z.land_nonneg. lia.
  - assert (Z.land v (Z.lnot PTE_U) = Z.land (Z.land v (Z.lnot PTE_U)) (Z.ones 64)) as ->.
    { rewrite <- Z.land_assoc, (Z.land_comm (Z.lnot _)), Z.land_assoc, Z.land_ones by lia.
      by rewrite Z.mod_small. }
    rewrite Z.land_ones by lia. apply Z.mod_pos_bound. lia.
Qed.

(** [uvmclear] makes a page inaccessible to the user. *)
Lemma img_clear root tf sz F T mp l s n v :
  img root tf sz F T mp l s -> mp !! n = Some v -> 0 <= n < npages sz ->
  PTE_FLAGS (Z.land v (Z.lnot PTE_U)) <> PTE_V -> 0 <= v < 2 ^ 64 ->
  exists s', uvmclear root (n * PGSIZE) s = Ok tt s' /\
    img root tf sz F T (<[n := Z.land v (Z.lnot PTE_U)]> mp) l s' /\
    outside (fun p => p ∈ F) (kmem s) (kmem s').
Proof.
  intros [Hus Hsz Hmp Htr Htf] Hv Hn Hfl Hv64. pose proof Hus as [Hsp Hpt].
  pose proof (npages_ulim sz ltac:(lia)) as HU.
  destruct (mapped_slot kend kend_pos root n v T mp s (space_maps _ _ _ _ _ _ Hsp) Hv)
    as (q & Hq & Hw & Hnz & Hld).
  destruct (sp_valid _ _ _ _ _ _ Hsp n v Hv) as [Hnb HV].
  destruct (clear_user v Hv64 HV) as (Hpa & HV' & _ & Hr).
  set (v' := Z.land v (Z.lnot PTE_U)) in *.
  unfold uvmclear. rewrite (kbind_Ok _ _ _ _ _ Hw).
  destruct (Z.eqb_spec (entry q (PX 0 (n * PGSIZE))) 0) as [|_]; [done|].
  rewrite (kbind_Ok _ _ _ _ _ (load_Ok _ s)), Hld.
  eexists. split; [reflexivity|]. cbn [kmem]. split; [split; [split| | | |]|].
  - eapply store_leaf; [done|exact Hsp|exact Hq|by apply vpn_bound|done|..].
    + intros n'. rewrite vpn_va. destruct (decide (n' = n)) as [->|Hne].
      * by rewrite lookup_insert_eq.
      * by rewrite lookup_insert_ne.
    + intros n' w. rewrite lookup_insert_Some. intros [[<- <-]|[_ ?]]; [done|by eapply sp_valid].
  - by eapply (parts_replace n v v').
  - done.
  - intros i Hi. destruct (decide (i = n)) as [->|Hne].
    + rewrite lookup_insert_eq. split; [lia|]. intros _. by eexists.
    + rewrite lookup_insert_ne by done. by apply Hmp.
  - by rewrite lookup_insert_ne by lia.
  - by rewrite lookup_insert_ne by lia.
  - intros a Ha. apply st64_out. intros Hb. apply entry_in_page in Hb; [|apply PX_range].
    eapply (Ha q); [|done]. apply (pt_all _ _ _ _ _ Hpt). right. left. by eexists.
Qed.

Lemma guard_flags v : user_pte v -> PTE_FLAGS (Z.land v (Z.lnot PTE_U)) <> PTE_V.
Proof.
  intros (_ & HR & _) E.
  assert (Z.testbit (PTE_FLAGS (Z.land v (Z.lnot PTE_U))) 1 = false) as Hb by (by rewrite E).
  unfold PTE_FLAGS in Hb. rewrite !Z.land_spec, Z.lnot_spec in Hb by lia.
  change (Z.testbit PTE_U 1) with false in Hb. change (Z.testbit 0x3FF 1) with true in Hb.
  rewrite !andb_true_r in Hb. unfold has in HR.
  assert (Z.land v PTE_R = 0) as E'; [|by rewrite E' in HR].
  apply Z.bits_inj'. intros n Hn. rewrite Z.land_spec, Z.bits_0.
  destruct (decide (n = 1)) as [->|Hne]; [by rewrite Hb|].
  unfold PTE_R. rewrite Z.shiftl_1_l, Z.pow2_bits_false by lia. apply andb_false_r.
Qed.

(** ** Changes elsewhere *)

Lemma img_free_sub root tf sz F T mp l s p : img root tf sz F T mp l s -> p ∈ l -> p ∈ F.
Proof. intros Him Hp. apply (pt_all _ _ _ _ _ (proj2 (im_space _ _ _ _ _ _ _ _ Him))). auto. Qed.

Lemma img_own_sub root tf sz F T mp l s p : img root tf sz F T mp l s -> own T mp p -> p ∈ F.
Proof.
  intros Him Hp. apply (pt_all _ _ _ _ _ (proj2 (im_space _ _ _ _ _ _ _ _ Him))). by destruct Hp; auto.
Qed.

Lemma set_split F l : (forall p, p ∈ l -> p ∈ F) -> (list_to_set l : gset Z) ∪ (F ∖ list_to_set l) = F.
Proof.
  intros Hl. apply set_eq. intros q. rewrite elem_of_union, elem_of_difference, elem_of_list_to_set.
  split; [intros [?|[? _]]; auto|]. destruct (decide (q ∈ l)); auto.
Qed.

(** Changes to pages that are neither free nor part of the space. *)
Lemma img_same root tf sz F T mp l s s' (P : Z -> Prop) :
  img root tf sz F T mp l s -> freelist s' = freelist s -> outside P (kmem s) (kmem s') ->
  (forall q, P q -> page_ok kend q) -> (forall q, P q -> q ∉ F) ->
  img root tf sz F T mp l s'.
Proof.
  intros Him Hfl Hout Hok HP. pose proof (im_space _ _ _ _ _ _ _ _ Him) as [Hsp _].
  pose proof (sp_free _ _ _ _ _ _ Hsp) as Hf.
  assert (free_pages kend s' l) as Hf'.
  { eapply free_pages_frame; [done| |done]. intros pg a Hpg Ha.
    eapply (outside_page P _ _ pg a); [done| |done|..].
    - by destruct (free_pages_page_ok _ _ _ _ Hf Hpg).
    - intros q Hq. by destruct (Hok q Hq).
    - intros Hq. eapply HP; [done|]. by eapply img_free_sub. }
  rewrite <- (set_split F l) by (intros q; by eapply img_free_sub).
  eapply img_kept; [exact Him|exact Hf'|exact Hout|done| |].
  - intros q Hq Ho. eapply HP; [done|]. by eapply img_own_sub.
  - intros q Hq Ho. by eapply (own_not_free root F T mp l s q); [apply Him|..].
Qed.
End Images.
