(* ===== verification/ExecTheorems.v ===== *)
(** [exec] replaces the image of a process or leaves it as it was.

    The file system may refuse to go on (sleep or panic); every other step of
    [exec] is shown to return.  Either the result is -1, the process is as
    before and every page [exec] took is free again; or the process has a new
    image with its arguments on the stack, and every page of the old image is
    free.  No page is lost either way. *)

From stdpp Require Import functions.
From S2P Require Import Prelude Mem Kalloc Block UserMem Vm VmSpace VmOps VmFree VmCopy VmFork.
From S2P Require Import Proc ProcTable ProcLife ProcMem Exec ExecMem.

Section Yields.
Context {Fs : Type} `{ExecFiles Fs}.
Abbreviation pworld := (@pworld Fs).
Implicit Types w : pworld.

(** The calls [exec] makes into the file system. *)
Inductive fs_call : forall {A : Type}, M Fs A -> Prop :=
| call_begin : fs_call x_begin
| call_end : fs_call x_end
| call_namei c path : fs_call (x_namei c path)
| call_lock ip : fs_call (x_lock ip)
| call_read ip off n : fs_call (x_read ip off n)
| call_unlockput ip : fs_call (x_unlockput ip).

(** The computation returns with [Q]; if it does not return, then because a
    call of the file system panics with the same message, or sleeps on the same
    channel and leaves the file system in that state. *)
Definition yields {A} (m : M pworld A) w (Q : A -> pworld -> Prop) : Prop :=
  match m w with
  | Ok a w' => Q a w'
  | Panic msg => exists B (c : M Fs B) f, fs_call c /\ c f = Panic msg
  | Sleep ch w' => exists B (c : M Fs B) f, fs_call c /\ c f = Sleep ch (kfiles w')
  end.

Lemma yields_bind {A B} (m : M pworld A) (k : A -> M pworld B) w Q R :
  yields m w Q -> (forall a w', Q a w' -> yields (k a) w' R) -> yields (kbind m k) w R.
Proof.
  unfold yields, kbind. destruct (m w); [|done..]. intros HQ Hk. by apply Hk.
Qed.

Lemma yields_Ok {A} (m : M pworld A) w a w' (Q : A -> pworld -> Prop) :
  m w = Ok a w' -> Q a w' -> yields m w Q.
Proof. intros E HQ. unfold yields. by rewrite E. Qed.

Lemma yields_step {A B} (m : M pworld A) (k : A -> M pworld B) w a w' R :
  m w = Ok a w' -> yields (k a) w' R -> yields (kbind m k) w R.
Proof. intros E Hk. unfold yields. by rewrite (kbind_Ok _ _ _ _ _ E). Qed.

Lemma yields_mem {A B} (m : M kstate A) (k : A -> M pworld B) w a s R :
  m (kpages w) = Ok a s -> yields (k a) (set_pages w s) R -> yields (kbind (on_mem m) k) w R.
Proof.
  intros E Hk. unfold yields. by rewrite (kbind_Ok _ _ _ _ _ (on_mem_runs m w a s E)).
Qed.

(** Only the state of the file system changes. *)
Definition set_fs w (f : Fs) : pworld :=
  {| procs := procs w; cpus := cpus w; nextpid := nextpid w; initproc := initproc w;
     kpages := kpages w; kfiles := f |}.

Lemma yields_fs {A B} (m : M Fs A) (k : A -> M pworld B) w R :
  fs_call m ->
  (forall a f, m (kfiles w) = Ok a f -> yields (k a) (set_fs w f) R) ->
  yields (kbind (on_fs m) k) w R.
Proof.
  intros Hc Hk. unfold yields, kbind, on_fs.
  destruct (m (kfiles w)) as [a f|msg|c f] eqn:E; [by apply Hk|by exists A, m, (kfiles w)..].
Qed.

Lemma yields_fs_last {A} (m : M Fs A) w R :
  fs_call m -> (forall a f, m (kfiles w) = Ok a f -> R a (set_fs w f)) -> yields (on_fs m) w R.
Proof.
  intros Hc HR. unfold yields, on_fs.
  destruct (m (kfiles w)) as [a f|msg|c f] eqn:E; [by apply HR|by exists A, m, (kfiles w)..].
Qed.

Lemma yields_weaken {A} (m : M pworld A) w (Q R : A -> pworld -> Prop) :
  yields m w Q -> (forall a w', Q a w' -> R a w') -> yields m w R.
Proof. unfold yields. destruct (m w); auto. Qed.
End Yields.

(** The calls of the file system. *)
Ltac fs_step := apply yields_fs; [constructor|].

(** ** Strings in kernel pages *)

Definition kstring (m : mem) (a : Z) (str : list Z) : Prop :=
  Z.of_nat (length str) < PGSIZE /\
  (forall j c, str !! j = Some c -> m (a + Z.of_nat j) = c /\ c <> 0) /\
  m (a + Z.of_nat (length str)) = 0.

Lemma kstring_ext m m' a str :
  kstring m a str -> (forall x, in_page a x -> m' x = m x) -> kstring m' a str.
Proof.
  intros (Hlen & Hc & Hz) Hm. split; [done|]. split.
  - intros j c Hj. rewrite Hm; [by apply Hc|]. apply lookup_lt_Some in Hj. unfold in_page. lia.
  - rewrite Hm; [done|]. unfold in_page. lia.
Qed.

Lemma kstring_strlen m a str :
  kstring m a str -> strlen (Z.to_nat PGSIZE) m a = Some (Z.of_nat (length str)).
Proof.
  intros (Hlen & Hc & Hz). apply (strlen_loop_spec _ m a 0 (Z.of_nat (length str))).
  - rewrite Z2Nat.id by done. lia.
  - intros j Hj. destruct (lookup_lt_is_Some_2 str (Z.to_nat j)) as [c Hj']; [lia|].
    apply Hc in Hj' as [E Hn]. rewrite Z2Nat.id in E by lia. congruence.
  - done.
Qed.

Lemma kstring_bytes m a str :
  kstring m a str -> bytes_at m a (Z.to_nat (Z.of_nat (length str) + 1)) = str ++ [0].
Proof.
  intros (Hlen & Hc & Hz). apply list_eq_same_length with (n := S (length str)).
  - rewrite length_app. simpl. lia.
  - rewrite bytes_at_length. lia.
  - intros j x y Hj Hx Hy. apply bytes_at_lookup in Hx as [_ ->].
    apply lookup_app_Some in Hy as [Hy|[Hge Hy]].
    + by apply Hc in Hy as [-> _].
    + assert (j = length str) as -> by lia. rewrite Nat.sub_diag in Hy. by injection Hy as <-.
Qed.

(** ** Arguments on the stack *)

(** A string of the user at an aligned address. *)
Definition ustring (v : Z -> option Z) (a : Z) (str : list Z) : Prop :=
  read_bytes v (S (length str)) a = Some (str ++ [0]) /\ a mod 16 = 0.

Lemma ustring_ext v v' a str b :
  ustring v a str -> b <= a -> (forall x, b <= x -> v' x = v x) -> ustring v' a str.
Proof.
  intros [Hr Ha] Hb Hx. split; [|done]. rewrite <- Hr. apply read_bytes_ext.
  intros x Hxr. apply Hx. lia.
Qed.

Lemma ustrings_ext v v' ptrs strs b :
  Forall2 (ustring v) ptrs strs -> Forall (fun a => b <= a) ptrs ->
  (forall x, b <= x -> v' x = v x) -> Forall2 (ustring v') ptrs strs.
Proof.
  intros Hs Hb Hx. induction Hs as [|a str ptrs strs Hs _ IH]; [constructor|].
  inversion Hb; subst. constructor; [by eapply ustring_ext|auto].
Qed.

(** What the program finds: [argc] strings, and the array of their addresses
    with a null pointer at its end where [sp] points. *)
Definition args_on_stack (v : Z -> option Z) (sp : Z) (strs : list (list Z)) : Prop :=
  sp mod 16 = 0 /\ exists ptrs,
    read_bytes v (length (encode64s (ptrs ++ [0]))) sp = Some (encode64s (ptrs ++ [0])) /\
    Forall2 (ustring v) ptrs strs.

Section Exec.
Context {Fs : Type} `{!ExecFiles Fs} `{!ExecFilesLaws Fs}.
Context (kend trampoline : Z) (kend_pos : 0 < kend) (tramp_ok : pa_ok trampoline).
Abbreviation pworld := (@pworld Fs).
Abbreviation img := (img kend trampoline).
Implicit Types (w : pworld) (F : gset Z) (T : gmap Z (nat * Z)) (mp : gmap Z Z) (l : list Z).

(** The process that calls [exec]: its address space with its map, and the free
    pages. *)
Context (w0 : pworld) (i : Z) (p : proc) (Fo : gset Z) (To : gmap Z (nat * Z)) (mpo : gmap Z Z)
  (l0 : list Z).
Hypothesis Hp : zget (procs w0) i = Some p.
Hypothesis Hold : img (p_pagetable p) (p_trapframe p) (p_sz p) Fo To mpo l0 (kpages w0).
Hypothesis Htf : page_ok kend (p_trapframe p).
Hypothesis Htf_out : p_trapframe p ∉ Fo.

Let Fn : gset Z := list_to_set l0.
Let tf : Z := p_trapframe p.

Definition same_world w : Prop :=
  procs w = procs w0 /\ cpus w = cpus w0 /\ nextpid w = nextpid w0 /\ initproc w = initproc w0.

(** The new image, built from the free pages; [acc] says whether the user can
    access all of its pages. *)
Record fresh (acc : bool) w (root sz : Z) T mp l : Prop := {
  fr_world : same_world w;
  fr_img : img root tf sz Fn T mp l (kpages w);
  fr_users : acc = true -> users sz mp;
  fr_out : outside (fun q => q ∈ Fn) (kmem (kpages w0)) (kmem (kpages w));
}.

(** The old state of affairs. *)
Definition restored w : Prop :=
  same_world w /\ (exists l, img (p_pagetable p) tf (p_sz p) Fo To mpo l (kpages w)) /\
  outside (fun q => q ∈ Fn) (kmem (kpages w0)) (kmem (kpages w)).

Lemma tf_ok : pa_ok tf.
Proof. by apply (page_pa_ok kend). Qed.

Lemma free_ok q : q ∈ Fn -> page_ok kend q.
Proof.
  unfold Fn. rewrite elem_of_list_to_set. intros Hq.
  eapply free_pages_page_ok; [|done]. apply (im_space _ _ _ _ _ _ _ _ _ _ Hold).
Qed.

Lemma free_not_own q : q ∈ Fn -> ~ own To mpo q.
Proof.
  unfold Fn. rewrite elem_of_list_to_set. intros Hq Ho.
  by eapply (own_not_free kend); [apply Hold|..].
Qed.

Lemma free_old q : q ∈ Fn -> q ∈ Fo.
Proof. unfold Fn. rewrite elem_of_list_to_set. by eapply img_free_sub. Qed.

(** With all the pages free again, the old image is as before. *)
Lemma restore w :
  same_world w -> all_free kend Fn (kpages w) ->
  outside (fun q => q ∈ Fn) (kmem (kpages w0)) (kmem (kpages w)) -> restored w.
Proof.
  intros Hw (l & Hf & Hl) Hout. split; [done|]. split; [|done]. exists l.
  assert (Fo = list_to_set l ∪ (Fo ∖ list_to_set l0)) as ->.
  { rewrite <- (set_split Fo l0) at 1 by (intros q; by eapply img_free_sub). f_equal.
    apply set_eq. intros q. rewrite !elem_of_list_to_set, Hl. unfold Fn.
    by rewrite elem_of_list_to_set. }
  eapply (img_kept kend trampoline kend_pos); [exact Hold|exact Hf|exact Hout|apply free_ok|apply free_not_own|].
  intros q Hq. apply free_not_own. by apply Hl.
Qed.

Lemma restored_fs w f : restored w -> restored (set_fs w f).
Proof. done. Qed.

(** The label [bad] with a new page table. *)
Lemma bad_new acc w root sz T mp l ip :
  fresh acc w root sz T mp l -> root <> 0 ->
  yields (bad kend root sz ip) w (fun r w' => r = -1 /\ restored w').
Proof.
  intros [Hw Him _ Hout] Hroot. unfold bad. rewrite (proj2 (Z.eqb_neq root 0)) by done.
  destruct (proc_freepagetable_spec kend trampoline kend_pos tramp_ok root tf sz Fn (kpages w)
    (img_pspace _ _ _ _ _ _ _ _ _ _ Him) tf_ok) as (s' & E & Hall & Ho).
  eapply yields_mem; [exact E|].
  assert (restored (set_pages w s')) as Hr.
  { apply restore; [done|done|]. by eapply outside_trans. }
  destruct ip as [ip|]; [|by apply (yields_Ok _ _ (-1) (set_pages w s'))].
  eapply yields_bind with (Q := fun _ w' => restored w').
  - fs_step. intros [] f E1. by apply yields_fs_last; [constructor|].
  - intros _ w' Hr'. by apply (yields_Ok _ _ (-1) w').
Qed.

(** ** Loading *)

Lemma img_small root sz F T mp l s : img root tf sz F T mp l s -> 0 <= sz < 2 ^ 32 - PGSIZE.
Proof.
  intros Him. pose proof (im_size _ _ _ _ _ _ _ _ _ _ Him) as Hsz.
  apply img_pspace in Him. apply pspace_bound in Him; [|done].
  pose proof (npages_bounds sz). change (PHYSTOP / PGSIZE) with 557056 in Him.
  unfold PGSIZE in *. lia.
Qed.

Lemma fresh_top acc w root sz T mp l : fresh acc w root sz T mp l -> no_user_top mp.
Proof.
  intros [_ Him _ _]. by eapply (img_top kend trampoline tramp_ok); [exact Him|apply tf_ok].
Qed.

Lemma fresh_fs acc w root sz T mp l f :
  fresh acc w root sz T mp l -> fresh acc (set_fs w f) root sz T mp l.
Proof. intros []. by split. Qed.

(** The state after a page of the new image was written. *)
Lemma fresh_write acc w root sz T mp l va pa bs :
  fresh acc w root sz T mp l -> upa mp va = Some pa ->
  va mod PGSIZE + Z.of_nat (length bs) <= PGSIZE ->
  fresh acc (set_pages w (write_user (kpages w) pa va bs)) root sz T mp l.
Proof.
  intros [Hw Him Hu Hout] Hpa Hlen.
  destruct (img_write kend trampoline kend_pos tramp_ok root tf sz Fn T mp l (kpages w) va pa bs Him tf_ok Hpa Hlen)
    as [Him' Ho].
  split; try done. by eapply outside_trans.
Qed.

Lemma loadseg_loop_yields k w root sz T mp l va ip off n j :
  fresh true w root sz T mp l -> va mod PGSIZE = 0 -> 0 <= va -> va + n <= sz ->
  0 <= j < n + PGSIZE -> j mod PGSIZE = 0 -> n - j + PGSIZE <= Z.of_nat k * PGSIZE ->
  yields (loadseg_loop k root va ip off n j) w (fun _ w' => fresh true w' root sz T mp l).
Proof.
  revert w j. induction k as [|k IH]; intros w j Hfr Hva Hva0 Hle Hj Hj0 Hk; [lia|].
  cbn [loadseg_loop]. destruct (Z.ltb_spec j n) as [Hlt|Hge]; [|done].
  pose proof (img_small _ _ _ _ _ _ _ (fr_img _ _ _ _ _ _ _ Hfr)) as Hsmall.
  pose proof (npages_bounds sz) as Hnp.
  rewrite u64_small by (unfold PGSIZE in *; lia).
  destruct (users_upa sz mp (va + j) (fr_users _ _ _ _ _ _ _ Hfr eq_refl) ltac:(lia)) as [pa Hpa].
  pose proof (fresh_top _ _ _ _ _ _ _ Hfr) as Htop.
  pose proof (im_space _ _ _ _ _ _ _ _ _ _ (fr_img _ _ _ _ _ _ _ Hfr)) as Hus.
  eapply yields_mem; [eapply (walkaddr_spec kend kend_pos); [done|done|lia]|].
  rewrite Hpa. change (default 0 (Some pa)) with pa.
  destruct (upa_frame _ _ _ _ _ _ _ (proj2 Hus) Htop Hpa) as (_ & Hok & _).
  rewrite (proj2 (Z.eqb_neq pa 0)) by (destruct Hok; lia).
  replace (set_pages w (kpages w)) with w by by destruct w.
  set (m := if n - j <? PGSIZE then n - j else PGSIZE).
  assert (0 <= m <= PGSIZE) as Hm by (unfold m, PGSIZE; destruct (Z.ltb_spec (n - j) 4096); lia).
  fs_step. intros bs f E.
  pose proof (x_read_le _ _ _ _ _ _ E ltac:(lia)) as Hlen.
  eapply yields_mem; [reflexivity|]. cbn [kpages set_fs].
  assert ((va + j) mod PGSIZE = 0) as Hmod by (rewrite Z.add_mod, Hva, Hj0 by done; done).
  pose proof (fresh_write true (set_fs w f) root sz T mp l (va + j) pa bs
    (fresh_fs _ _ _ _ _ _ _ _ Hfr) Hpa ltac:(lia)) as Hfr'.
  unfold write_user in Hfr'. rewrite Hmod, Z.add_0_r in Hfr'.
  destruct (negb _); [done|].
  unfold u32. rewrite Z.mod_small by (unfold PGSIZE in *; lia).
  apply IH; [done|done|done|done|unfold PGSIZE in *; lia| |unfold PGSIZE in *; lia].
  rewrite Z.add_mod, Hj0 by done. done.
Qed.

Lemma flags2perm_bound flags : 0 <= flags2perm flags < 1024.
Proof. unfold flags2perm. by destruct (_ =? _), (_ =? _). Qed.

Lemma load_segments_yields k w root sz T mp l ip off :
  fresh true w root sz T mp l ->
  yields (load_segments kend k root ip off sz) w
    (fun r w' => exists T mp l, fresh true w' root r.1 T mp l).
Proof.
  revert w sz T mp l off. induction k as [|k IH]; intros w sz T mp l off Hfr.
  { by exists T, mp, l. }
  cbn [load_segments]. fs_step. intros ph f E.
  pose proof (x_read_byte _ _ _ _ _ _ E) as Hb.
  pose proof (fresh_fs _ _ _ _ _ _ _ f Hfr) as Hfr1.
  destruct (negb _); [by exists T, mp, l|].
  destruct (negb _); [by eapply IH|].
  destruct (Z.ltb_spec (ph_memsz ph) (ph_filesz ph)) as [|Hsz]; [by exists T, mp, l|].
  destruct (Z.ltb_spec (u64 (ph_vaddr ph + ph_memsz ph)) (ph_vaddr ph)) as [|Hov]; [by exists T, mp, l|].
  destruct (Z.eqb_spec (ph_vaddr ph mod PGSIZE) 0) as [Hal|]; [|by exists T, mp, l]. cbn [negb].
  pose proof (get_le_bound 8 ph 16 Hb) as Hv. pose proof (get_le_bound 8 ph 40 Hb) as Hms.
  pose proof (get_le_bound 8 ph 32 Hb) as Hfs.
  change (get_le 8 ph 16) with (ph_vaddr ph) in Hv. change (get_le 8 ph 40) with (ph_memsz ph) in Hms.
  change (get_le 8 ph 32) with (ph_filesz ph) in Hfs. change (256 ^ Z.of_nat 8) with (2 ^ 64) in *.
  assert (u64 (ph_vaddr ph + ph_memsz ph) = ph_vaddr ph + ph_memsz ph) as Hu.
  { unfold u64 in *. destruct (decide (ph_vaddr ph + ph_memsz ph < 2 ^ 64)).
    - by rewrite Z.mod_small by lia.
    - rewrite <- (Z_mod_plus_full _ (-1)), Z.mod_small in Hov by lia. lia. }
  rewrite Hu. destruct Hfr1 as [Hw1 Him1 Hu1 Ho1].
  destruct (img_alloc kend trampoline kend_pos root tf sz (ph_vaddr ph + ph_memsz ph)
    (flags2perm (ph_flags ph)) Fn T mp l (kpages (set_fs w f)) Him1 (Hu1 eq_refl)
    (flags2perm_bound _) ltac:(lia))
    as (r & T' & mp' & l' & s' & Er & Hout & [(-> & Him' & Hu')|(Hr & -> & Him' & Hu')]).
  - eapply yields_mem; [exact Er|]. cbn [Z.eqb]. apply (yields_Ok _ _ (sz, false) _ _ eq_refl).
    exists T', mp', l'. split; try done. by eapply outside_trans.
  - eapply yields_mem; [exact Er|]. set (sz1 := Z.max sz (ph_vaddr ph + ph_memsz ph)) in *.
    rewrite (proj2 (Z.eqb_neq sz1 0)) by lia.
    assert (fresh true (set_pages (set_fs w f) s') root sz1 T' mp' l') as Hfr2.
    { split; try done. by eapply outside_trans. }
    assert (0 <= u32 (ph_filesz ph) <= ph_filesz ph) as Hf32.
    { unfold u32. pose proof (Z.mod_le (ph_filesz ph) (2 ^ 32)).
      pose proof (Z.mod_pos_bound (ph_filesz ph) (2 ^ 32)). lia. }
    eapply yields_bind.
    + unfold loadseg. apply loadseg_loop_yields; [exact Hfr2|done|lia|lia|unfold PGSIZE; lia|done|].
      pose proof (Z.mul_succ_div_gt (u32 (ph_filesz ph)) PGSIZE ltac:(done)).
      pose proof (Z.div_pos (u32 (ph_filesz ph)) PGSIZE ltac:(lia) ltac:(done)). lia.
    + cbv beta. intros ok w' Hfr3. destruct (negb ok); [by exists T', mp', l'|]. by eapply IH.
Qed.

(** ** The stack *)

Abbreviation view w mp := (ubyte mp (kmem (kpages w))).

(** Copying bytes into the new image. *)
Lemma copyout_fresh w root sz T mp l va bs :
  fresh false w root sz T mp l -> 0 <= va ->
  exists r s', Vm.copyout root va bs (kpages w) = Ok r s' /\
    fresh false (set_pages w s') root sz T mp l /\
    (forall x, ~ va <= x < va + Z.of_nat (length bs) -> ubyte mp (kmem s') x = view w mp x) /\
    (r < 0 \/ read_bytes (ubyte mp (kmem s')) (length bs) va = Some bs).
Proof.
  intros Hfr Hva. pose proof (fresh_top _ _ _ _ _ _ _ Hfr) as Htop.
  destruct Hfr as [Hw Him Hu Hout].
  destruct (copyout_outside kend trampoline kend_pos tramp_ok root tf sz Fn T mp l (kpages w) va bs
    Him tf_ok Hva) as (r & s' & E & Him' & Ho).
  destruct (copyout_spec kend kend_pos root va bs Fn T mp l (kpages w) (im_space _ _ _ _ _ _ _ _ _ _ Him)
    Htop Hva) as (ws & rest & s1 & -> & E' & _ & Hv & _).
  rewrite E' in E. injection E as <- <-.
  exists (match rest with [] => 0 | _ => -1 end), s1. split; [done|].
  split; [split; try done; by eapply outside_trans|]. split.
  - intros x Hx. rewrite Hv. unfold written. rewrite decide_False; [done|].
    rewrite length_app in Hx. lia.
  - destruct rest; [right|left; lia]. rewrite app_nil_r. apply read_bytes_list.
    intros j b Hj. rewrite Hv. unfold written. pose proof (lookup_lt_Some _ _ _ Hj).
    rewrite decide_True by lia. by replace (Z.to_nat _) with j by lia.
Qed.

(** An argument: its page is neither free nor part of the old image. *)
Definition arg_page (a : Z) (str : list Z) : Prop :=
  page_ok kend a /\ (a ∉ Fo) /\ kstring (kmem (kpages w0)) a str.

Lemma arg_kept acc w root sz T mp l a str :
  fresh acc w root sz T mp l -> arg_page a str -> kstring (kmem (kpages w)) a str.
Proof.
  intros Hfr ([Hal _] & Hn & Hk). eapply kstring_ext; [done|]. intros x Hx.
  eapply (outside_page _ _ _ a x); [apply Hfr|done|done| |].
  - intros q Hq. by destruct (free_ok q Hq).
  - cbv beta. intros Hq. by apply Hn, free_old.
Qed.

Lemma push_args_yields argv strs w root sz T mp l base sp argc ustack :
  fresh false w root sz T mp l -> Forall2 arg_page argv strs ->
  PGSIZE <= base <= sp -> sp < 2 ^ 64 -> 0 <= argc -> argc + Z.of_nat (length argv) < MAXARG ->
  Z.of_nat (length ustack) = MAXARG ->
  yields (push_args root base argv sp argc ustack) w (fun r w' =>
    fresh false w' root sz T mp l /\
    match r with
    | None => True
    | Some (sp', us) =>
        base <= sp' <= sp /\ (forall x, sp <= x -> view w' mp x = view w mp x) /\
        exists ptrs, us = take (Z.to_nat argc) ustack ++ ptrs ++
            drop (Z.to_nat argc + length argv) ustack /\
          length ptrs = length argv /\ Forall (fun a => sp' <= a) ptrs /\
          Forall2 (ustring (view w' mp)) ptrs strs
    end).
Proof.
  intros Hfr Hargs. revert w sp argc ustack Hfr.
  induction Hargs as [|a str argv strs Ha Hargs IH]; intros w sp argc ustack Hfr Hsp H64 Hc Hmax Hus.
  { split; [done|]. split; [lia|]. split; [done|]. exists [].
    rewrite Nat.add_0_r. simpl. by rewrite take_drop. }
  cbn [push_args]. cbn [length] in Hmax.
  destruct (Z.leb_spec MAXARG argc); [lia|].
  pose proof (arg_kept _ _ _ _ _ _ _ _ _ Hfr Ha) as Hk. pose proof Hk as (Hlen & _).
  eapply yields_mem; [reflexivity|]. rewrite (kstring_strlen _ _ _ Hk). cbn [kopt].
  replace (set_pages w (kpages w)) with w by by destruct w.
  unfold kret at 1. unfold kbind at 1. cbv beta iota.
  set (len := Z.of_nat (length str)) in *.
  rewrite u64_small by (unfold PGSIZE in *; lia).
  set (sp1 := sp - (len + 1)). pose proof (Z.mod_pos_bound sp1 16 ltac:(lia)) as Hm16.
  set (sp2 := sp1 - sp1 mod 16).
  destruct (Z.ltb_spec sp2 base) as [|Hbase]; [by split|].
  eapply yields_mem; [reflexivity|]. unfold len. rewrite (kstring_bytes _ _ _ Hk).
  replace (set_pages w (kpages w)) with w by by destruct w. fold len.
  destruct (copyout_fresh w root sz T mp l sp2 (str ++ [0]) Hfr ltac:(unfold PGSIZE in *; lia))
    as (r & s' & E & Hfr' & Hout & Hread).
  eapply yields_mem; [exact E|]. destruct (Z.ltb_spec r 0) as [|Hr]; [by split|].
  destruct Hread as [|Hread]; [lia|].
  rewrite zset_in by lia. unfold kopt, kret at 1. unfold kbind at 1. cbv beta iota.
  assert (sp2 mod 16 = 0) as Hal by (unfold sp2; rewrite Zminus_mod_idemp_r, Z.sub_diag; done).
  pose proof (IH (set_pages w s') sp2 (argc + 1) (<[Z.to_nat argc := sp2]> ustack) Hfr') as Hrec.
  unfold yields in *. destruct (push_args _ _ _ _ _ _ _) as [res w'|msg|ch w'];
    [|apply Hrec; rewrite ?length_insert; lia..].
  destruct Hrec as [Hfr2 Hres]; try (rewrite ?length_insert; lia).
  split; [done|]. destruct res as [[sp' us]|]; [|done].
  destruct Hres as (Hsp' & Hv & ptrs & -> & Hl & Hge & Hstr). rewrite length_app in Hout. cbn [length] in Hout.
  split; [lia|]. split.
  { intros x Hx. rewrite Hv by lia. cbn [kpages set_pages]. apply Hout. lia. }
  exists (sp2 :: ptrs). split_and!.
  - rewrite drop_insert_lt by lia.
    replace (Z.to_nat (argc + 1)) with (S (Z.to_nat argc)) by lia.
    rewrite (take_S_r _ _ sp2) by (apply list_lookup_insert_eq; lia).
    rewrite take_insert_ge by lia. rewrite <- app_assoc. simpl. do 3 f_equal. f_equal. lia.
  - simpl. lia.
  - constructor; [lia|done].
  - constructor; [|done]. apply (ustring_ext (ubyte mp (kmem s')) _ _ _ sp2); [|lia|done].
    split; [|done]. rewrite length_app in Hread. simpl in Hread. by rewrite Nat.add_1_r in Hread.
Qed.

(** ** The commit *)

(** The new state of affairs: the process has the new image, with the argument
    registers set, and everything else of [Fo] is free. *)
Definition replaced (path : list Z) (strs : list (list Z)) (entry : Z) w : Prop :=
  exists root sz T mp l sp,
    procs w = <[Z.to_nat i := with_sz (with_pagetable (set_name p (last_elem path path ++ [0])) root) sz]>
      (procs w0) /\
    cpus w = cpus w0 /\ nextpid w = nextpid w0 /\ initproc w = initproc w0 /\
    img root tf sz Fo T mp l (kpages w) /\
    ld64 (kmem (kpages w)) (tf + TF_a1) = sp /\ ld64 (kmem (kpages w)) (tf + TF_sp) = sp /\
    ld64 (kmem (kpages w)) (tf + TF_epc) = entry /\
    args_on_stack (view w mp) sp strs.

Lemma tf_slot off x v m : 0 <= off < 281 -> ~ in_page tf x -> st64 m (tf + off) v x = m x.
Proof. intros Ho Hx. apply st64_out. unfold in_page, PGSIZE in Hx. lia. Qed.

(** The trap frame after the three stores. *)
Definition regs (m : mem) (sp entry : Z) : mem :=
  st64 (st64 (st64 m (tf + TF_a1) sp) (tf + TF_epc) entry) (tf + TF_sp) sp.

Lemma regs_outside m sp entry : outside (eq tf) m (regs m sp entry).
Proof.
  intros x Hx. specialize (Hx tf eq_refl). unfold regs.
  by rewrite !tf_slot by (done || vm_compute; intuition congruence).
Qed.

Lemma regs_values m sp entry :
  0 <= sp < 2 ^ 64 -> 0 <= entry < 2 ^ 64 ->
  ld64 (regs m sp entry) (tf + TF_a1) = sp /\ ld64 (regs m sp entry) (tf + TF_sp) = sp /\
  ld64 (regs m sp entry) (tf + TF_epc) = entry.
Proof.
  intros Hsp He. unfold regs, TF_a1, TF_sp, TF_epc. split_and!.
  - rewrite !ld64_st64_ne by (unfold disjoint; lia). by apply ld64_st64_eq.
  - by apply ld64_st64_eq.
  - rewrite ld64_st64_ne by (unfold disjoint; lia). by apply ld64_st64_eq.
Qed.

Lemma view_kept root sz F T mp l s s' (P : Z -> Prop) x :
  img root tf sz F T mp l s -> outside P (kmem s) (kmem s') ->
  (forall q, P q -> page_ok kend q) -> (forall q, P q -> ~ own T mp q) ->
  ubyte mp (kmem s') x = ubyte mp (kmem s) x.
Proof.
  intros Him Ho Hok HP. destruct (decide (x < ULIM * PGSIZE)) as [Hx|Hx].
  - by eapply (ubyte_kept kend trampoline).
  - unfold ubyte, upa. destruct (mp !! (x / PGSIZE)) as [v|] eqn:Hv; [|done].
    destruct (has v PTE_U) eqn:HU; [|done].
    pose proof (img_top kend trampoline tramp_ok _ _ _ _ _ _ _ _ Him tf_ok _ _ Hv HU) as Hlt.
    exfalso. apply Hx. pose proof (Z.mul_succ_div_gt x PGSIZE ltac:(done)). unfold PGSIZE in *. lia.
Qed.

(** Freeing the old image: the new one then shares [Fo] with the free list. *)
Lemma free_old_image root sz T mp l s :
  img root tf sz Fn T mp l s ->
  outside (fun q => q ∈ Fn \/ q = tf) (kmem (kpages w0)) (kmem s) ->
  exists l' s', proc_freepagetable kend (p_pagetable p) (p_sz p) s = Ok tt s' /\
    img root tf sz Fo T mp l' s' /\
    (forall x, in_page tf x -> kmem s' x = kmem s x) /\
    (forall x, ubyte mp (kmem s') x = ubyte mp (kmem s) x).
Proof.
  intros Him Hout.
  assert (forall q, q ∈ l -> q ∈ l0) as Hsub.
  { intros q Hq. apply (img_free_sub _ _ _ _ _ _ _ _ _ _ _ Him) in Hq. unfold Fn in Hq.
    by rewrite elem_of_list_to_set in Hq. }
  assert (forall q, q ∈ Fn \/ q = tf -> ~ own To mpo q) as Hno.
  { intros q [Hq| ->]; [by apply free_not_own|]. intros Ho. apply Htf_out. by eapply img_own_sub. }
  pose proof (img_kept kend trampoline kend_pos _ _ _ _ _ _ _ _ l s _ Hold
    (sp_free _ _ _ _ _ _ (proj1 (im_space _ _ _ _ _ _ _ _ _ _ Him))) Hout) as Hold'.
  set (Fx := list_to_set l ∪ (Fo ∖ list_to_set l0)) in *.
  assert (forall q, q ∈ Fx <-> q ∈ l \/ (q ∈ Fo /\ q ∉ l0)) as HFx.
  { intros q. unfold Fx. set_solver. }
  destruct (proc_freepagetable_spec kend trampoline kend_pos tramp_ok (p_pagetable p) tf (p_sz p) Fx s)
    as (s' & E & (l' & Hf & Hl') & Ho); [|apply tf_ok|].
  { eapply img_pspace. apply Hold'.
    - intros q [Hq| ->]; [by apply free_ok|done].
    - done.
    - intros q Hq. apply Hno. left. unfold Fn. rewrite elem_of_list_to_set. auto. }
  assert (forall q, q ∈ Fx -> page_ok kend q) as Hokx.
  { intros q [Hq|[Hq _]]%HFx.
    - apply free_ok. unfold Fn. rewrite elem_of_list_to_set. auto.
    - by eapply (uspace_page_ok kend); [apply Hold|]. }
  assert (forall q, q ∈ Fx -> ~ own T mp q) as Hnox.
  { intros q [Hq|[_ Hq]]%HFx Hown.
    - by eapply (own_not_free kend); [apply Him|..].
    - apply Hq. apply (img_own_sub _ _ _ _ _ _ _ _ _ _ _ Him) in Hown. unfold Fn in Hown.
      by rewrite elem_of_list_to_set in Hown. }
  exists l', s'. split; [done|]. split; [|split].
  - replace Fo with (list_to_set l' ∪ (Fn ∖ list_to_set l)).
    + eapply (img_kept kend trampoline kend_pos); [exact Him|exact Hf|exact Ho|done|done|].
      intros q Hq. apply Hnox. by apply Hl'.
    + apply set_eq. intros q. rewrite elem_of_union, elem_of_difference, !elem_of_list_to_set, Hl', HFx.
      unfold Fn. rewrite elem_of_list_to_set. split.
      * intros [[Hq|[Hq _]]|[Hq _]]; [|done|]; apply (img_free_sub _ _ _ _ _ _ _ _ _ _ _ Hold); auto.
      * intros Hq. destruct (decide (q ∈ l0)); [|auto]. destruct (decide (q ∈ l)); auto.
  - intros x Hx. eapply (outside_page _ _ _ tf x); [exact Ho|apply Htf|done| |].
    + intros q Hq. by destruct (Hokx q Hq).
    + intros [Hq|[Hq _]]%HFx; [|done]. apply Htf_out.
      apply (img_free_sub _ _ _ _ _ _ _ _ _ _ _ Hold). auto.
  - intros x. by eapply view_kept.
Qed.

Lemma get_proc_same w : same_world w -> get_proc i w = Ok p w.
Proof. intros (E & _). apply get_proc_runs. by rewrite E. Qed.

(** From the stack with the pointer array to the end of [exec]. *)
Lemma commit_yields w root sz T mp l sp entry path strs (argc : Z) :
  fresh false w root sz T mp l -> 0 <= sp < 2 ^ 64 -> 0 <= entry < 2 ^ 64 ->
  args_on_stack (view w mp) sp strs ->
  yields (on_mem (store (tf + TF_a1) sp) ;;;
    update i (fun p => set_name p (last_elem path path ++ [0])) ;;;
    update i (fun p => with_sz (with_pagetable p root) sz) ;;;
    on_mem (store (tf + TF_epc) entry) ;;;
    on_mem (store (tf + TF_sp) sp) ;;;
    on_mem (proc_freepagetable kend (p_pagetable p) (p_sz p)) ;;;
    kret argc) w (fun r w' => r = argc /\ replaced path strs entry w').
Proof.
  intros [Hw Him _ Hout] Hsp Hent Hargs. destruct Hw as (Hprocs & Hcpus & Hnext & Hinit).
  set (m1 := regs (kmem (kpages w)) sp entry).
  set (s1 := {| kmem := m1; freelist := freelist (kpages w) |}).
  assert (img root tf sz Fn T mp l s1) as Him1.
  { eapply (img_same kend trampoline kend_pos); [exact Him|done|apply regs_outside|by intros ? <-|].
    intros q <- Hq. by apply Htf_out, free_old. }
  destruct (free_old_image root sz T mp l s1 Him1) as (l' & s' & E & Him' & Htfs & Hv).
  { eapply outside_trans; [eapply outside_weaken, Hout; cbv beta; auto|].
    eapply outside_weaken, regs_outside. cbv beta. auto. }
  eapply yields_mem; [reflexivity|].
  assert (zget (procs w) i = Some p) as Hpw by by rewrite Hprocs.
  set (p1 := set_name p (last_elem path path ++ [0])).
  eapply yields_step; [by apply (update_runs i _ _ p)|].
  eapply yields_step; [apply (update_runs i _ _ p1); by apply (zget_set_procs (set_pages w _) i p)|].
  eapply yields_mem; [reflexivity|]. eapply yields_mem; [reflexivity|].
  eapply yields_mem; [exact E|].
  eapply yields_Ok; [reflexivity|]. split; [done|].
  destruct (regs_values (kmem (kpages w)) sp entry Hsp Hent) as (Ha1 & Hrsp & Hepc).
  assert (forall off, 0 <= off < 281 -> ld64 (kmem s') (tf + off) = ld64 m1 (tf + off)) as Hld.
  { intros off Hoff. apply ld64_eq. intros x Hx. apply Htfs. unfold in_page, PGSIZE. lia. }
  exists root, sz, T, mp, l', sp. cbn [procs cpus nextpid initproc kpages set_procs set_pages].
  split_and!; try done.
  - rewrite list_insert_insert_eq. by rewrite Hprocs.
  - by rewrite Hld by done.
  - by rewrite Hld by done.
  - by rewrite Hld by done.
  - assert (forall x, ubyte mp (kmem s') x = view w mp x) as Hvw.
    { intros x. rewrite Hv. eapply view_kept; [exact Him|apply regs_outside|by intros ? <-|].
      intros q <- Hq. apply Htf_out, free_old. by eapply img_own_sub. }
    destruct Hargs as (Hal & ptrs & Hr & Hs). split; [done|]. exists ptrs. split.
    + rewrite <- Hr. by apply read_bytes_ext.
    + revert Hs. apply Forall2_impl. intros a str [Hr' ?]. split; [|done].
      rewrite <- Hr'. by apply read_bytes_ext.
Qed.

Lemma length_put_le k b off v : length (put_le k b off v) = length b.
Proof.
  revert b off v. induction k as [|k IH]; intros b off v; cbn [put_le]; [done|].
  rewrite IH. unfold set8. destruct (zset b off (v mod 256)) as [b'|] eqn:E; [|done].
  by apply zset_length in E.
Qed.

Lemma encode64s_length l : length (encode64s l) = (8 * length l)%nat.
Proof.
  unfold encode64s. induction l as [|v l IH]; [done|]. cbn [fmap list_fmap concat length].
  rewrite length_app, length_put_le. simpl in *. lia.
Qed.

(** The image at its size rounded up. *)
Lemma fresh_round acc w root sz T mp l :
  fresh acc w root sz T mp l -> fresh acc w root (npages sz * PGSIZE) T mp l.
Proof.
  intros [Hw [Hus Hsz Hpg Ht1 Ht2] Hu Ho]. pose proof (npages_ulim sz ltac:(lia)).
  pose proof (npages_bounds sz). split; try done.
  - split; try done; [unfold PGSIZE in *; lia|]. by rewrite npages_exact.
  - unfold users. by rewrite npages_exact.
Qed.

Lemma stack_frame_length (ptrs argv : list Z) :
  length ptrs = length argv -> (Z.of_nat (length argv) < MAXARG) ->
  let us := ptrs ++ drop (length argv) (replicate (Z.to_nat MAXARG) 0) in
  zset us (Z.of_nat (length argv)) 0 = Some (<[length argv := 0]> us) /\
  take (Z.to_nat (Z.of_nat (length argv) + 1)) (<[length argv := 0]> us) = ptrs ++ [0].
Proof.
  intros Hl Hmax us.
  assert (length us = Z.to_nat MAXARG) as Hus.
  { unfold us. rewrite length_app, length_drop, length_replicate. lia. }
  assert (drop (length argv) (replicate (Z.to_nat MAXARG) 0) =
          0 :: drop (S (length argv)) (replicate (Z.to_nat MAXARG) 0)) as Hd.
  { apply drop_S. apply lookup_replicate. split; [done|]. lia. }
  split.
  - rewrite zset_in by (rewrite Hus; lia). by rewrite Nat2Z.id.
  - replace (Z.to_nat (Z.of_nat (length argv) + 1)) with (length ptrs + 1)%nat by lia.
    unfold us. rewrite Hd. rewrite <- Hl. rewrite insert_app_r_alt, Nat.sub_diag by lia. simpl.
    rewrite take_app_add. done.
Qed.

(** ** [exec] *)

(** The two pages of the stack: the lower one is the guard. *)
Lemma stack_pages w root sz T mp l :
  fresh true w root sz T mp l -> exists T' mp' l' s,
  let sz' := npages sz * PGSIZE in
  uvmalloc kend root sz' (sz' + 2 * PGSIZE) PTE_W (kpages w) = Ok 0 s /\
    fresh true (set_pages w s) root sz' T' mp' l' \/
  uvmalloc kend root sz' (sz' + 2 * PGSIZE) PTE_W (kpages w) = Ok (sz' + 2 * PGSIZE) s /\
    exists s', uvmclear root sz' s = Ok tt s' /\
      fresh false (set_pages (set_pages w s) s') root (sz' + 2 * PGSIZE) T' mp' l'.
Proof.
  intros Hfr%fresh_round. set (sz' := npages sz * PGSIZE) in *.
  pose proof (img_small _ _ _ _ _ _ _ (fr_img _ _ _ _ _ _ _ Hfr)) as Hsmall.
  destruct Hfr as [Hw Him Hu Hout].
  destruct (img_alloc kend trampoline kend_pos root tf sz' (sz' + 2 * PGSIZE) PTE_W Fn T mp l (kpages w)
    Him (Hu eq_refl) ltac:(done) ltac:(unfold PGSIZE in *; lia))
    as (r & T2 & mp2 & l2 & s2 & E & Ho2 & [(-> & Him2 & Hu2)|(Hr & -> & Him2 & Hu2)]).
  { exists T2, mp2, l2, s2. left. split; [done|]. split; try done. by eapply outside_trans. }
  rewrite (Z.max_r sz' (sz' + 2 * PGSIZE)) in * by (unfold PGSIZE; lia).
  set (sz1 := sz' + 2 * PGSIZE) in *.
  assert (npages sz1 = npages sz + 2) as Hnp.
  { unfold sz1, sz'. replace (npages sz * PGSIZE + 2 * PGSIZE) with ((npages sz + 2) * PGSIZE) by lia.
    apply npages_exact. }
  assert (0 <= npages sz) as Hnp0 by (unfold sz', PGSIZE in *; lia).
  destruct (Hu2 (npages sz) ltac:(lia)) as (v & Hv & Huv).
  destruct (img_clear kend trampoline kend_pos root tf sz1 Fn T2 mp2 l2 s2 (npages sz) v Him2 Hv
    ltac:(lia) (guard_flags v Huv) ltac:(apply Huv)) as (s3 & E3 & Him3 & Ho3).
  eexists T2, _, l2, s2. right. split; [done|]. exists s3. split; [done|]. split; try done.
  eapply outside_trans; [exact Hout|]. by eapply outside_trans.
Qed.

Lemma setup_stack_yields w root sz T mp l entry path argv strs :
  fresh true w root sz T mp l -> root <> 0 -> 0 <= entry < 2 ^ 64 ->
  Forall2 arg_page argv strs -> Z.of_nat (length argv) < MAXARG ->
  yields (setup_stack kend i root entry sz path argv) w (fun r w' =>
    r = -1 /\ restored w' \/ r = Z.of_nat (length argv) /\ replaced path strs entry w').
Proof.
  intros Hfr Hroot Hent Hargs Hmax. unfold setup_stack.
  eapply yields_step; [apply get_proc_same, Hfr|].
  rewrite pgup_small by apply Hfr.
  destruct (stack_pages _ _ _ _ _ _ Hfr) as (T2 & mp3 & l2 & s2 & Hst).
  pose proof (img_small _ _ _ _ _ _ _ (fr_img _ _ _ _ _ _ _ (fresh_round _ _ _ _ _ _ _ Hfr))) as Hsmall.
  set (sz' := npages sz * PGSIZE) in *.
  rewrite (u64_small (sz' + 2 * PGSIZE)) by (unfold PGSIZE in *; lia).
  assert (forall acc w sz T mp l r, fresh acc w root sz T mp l -> r = None ->
    yields (bad kend root sz r) w (fun r w' => r = -1 /\ restored w' \/
      r = Z.of_nat (length argv) /\ replaced path strs entry w')) as Hbad.
  { intros acc w1 sz1 T1 mp1 l1 r Hf _. pose proof (bad_new _ _ _ _ _ _ _ r Hf Hroot) as Hb.
    revert Hb. unfold yields. destruct (bad _ _ _ _ _); [|done..]. by left. }
  destruct Hst as [[E Hfr2]|(E & s3 & E3 & Hfr3)]; (eapply yields_mem; [exact E|]); [by eapply Hbad|].
  set (sz1 := sz' + 2 * PGSIZE) in *.
  rewrite (proj2 (Z.eqb_neq sz1 0)) by (unfold sz1, PGSIZE in *; lia).
  replace (sz1 - 2 * PGSIZE) with sz' by (unfold sz1; lia).
  eapply yields_mem; [exact E3|].
  pose proof (img_small _ _ _ _ _ _ _ (fr_img _ _ _ _ _ _ _ Hfr3)) as Hsmall3.
  eapply yields_bind.
  { apply (push_args_yields argv strs _ root sz1 T2 mp3 l2); try done; unfold sz1, PGSIZE in *; lia. }
  cbv beta. intros res w4 [Hfr4 Hres]. destruct res as [[sp us]|]; [|by eapply Hbad].
  destruct Hres as (Hsp & _ & ptrs & -> & Hl & Hge & Hstr).
  change (Z.to_nat 0) with O. rewrite Nat.add_0_l, take_0, app_nil_l.
  destruct (stack_frame_length ptrs argv Hl Hmax) as [Hz Ht]. rewrite Hz. cbn [kopt].
  eapply yields_step; [reflexivity|]. rewrite Ht. clear Hz Ht.
  change MAXARG with 32 in Hmax.
  rewrite (u64_small (sp - _)) by (unfold sz1, sz', PGSIZE in *; lia).
  set (sp1 := sp - (Z.of_nat (length argv) + 1) * 8).
  pose proof (Z.mod_pos_bound sp1 16 ltac:(lia)) as Hm16. set (sp2 := sp1 - sp1 mod 16).
  destruct (Z.ltb_spec sp2 (sz1 - PGSIZE)) as [|Hbase]; [by eapply Hbad|].
  destruct (copyout_fresh w4 root sz1 T2 mp3 l2 sp2 (encode64s (ptrs ++ [0])) Hfr4
    ltac:(unfold sz1, PGSIZE in *; lia)) as (r & s5 & E5 & Hfr5 & Hkeep & Hread).
  eapply yields_mem; [exact E5|]. destruct (Z.ltb_spec r 0) as [|Hr0]; [by eapply Hbad|].
  destruct Hread as [|Hread]; [lia|].
  assert (args_on_stack (view (set_pages w4 s5) mp3) sp2 strs) as Hargs'.
  { split; [unfold sp2; rewrite Zminus_mod_idemp_r, Z.sub_diag; done|].
    exists ptrs. split; [exact Hread|]. eapply ustrings_ext; [exact Hstr|exact Hge|].
    rewrite encode64s_length, length_app, Hl in Hkeep. cbn [length] in Hkeep.
    intros x Hx. apply Hkeep. lia. }
  pose proof (commit_yields (set_pages w4 s5) root sz1 T2 mp3 l2 sp2 entry path strs
    (Z.of_nat (length argv)) Hfr5 ltac:(unfold sz1, PGSIZE in *; lia) Hent Hargs') as Hc.
  revert Hc. unfold yields. destruct (kbind _ _ _) as [a w6| |]; [|done..]. by right.
Qed.

(** Without a page table there is nothing to undo. *)
Lemma bad_none w ip :
  restored w -> yields (bad kend 0 0 (Some ip)) w (fun r w' => r = -1 /\ restored w').
Proof.
  intros Hr. unfold bad. cbn [Z.eqb]. eapply yields_step; [reflexivity|].
  eapply yields_bind with (Q := fun _ w' => restored w').
  - fs_step. intros [] f E1. by apply yields_fs_last; [constructor|].
  - intros _ w' Hr'. by apply (yields_Ok _ _ (-1) w').
Qed.

Lemma exec_yields path argv strs :
  Forall2 arg_page argv strs -> Z.of_nat (length argv) < MAXARG ->
  yields (exec kend trampoline i path argv) w0 (fun r w' =>
    r = -1 /\ restored w' \/
    r = Z.of_nat (length argv) /\ exists entry, replaced path strs entry w').
Proof.
  intros Hargs Hmax. unfold exec.
  assert (restored w0) as H0.
  { split; [done|]. split; [by exists l0|apply outside_refl]. }
  eapply yields_step; [by apply get_proc_same|].
  fs_step. intros [] f1 _.
  fs_step. intros [ip|] f2 _.
  2: { fs_step. intros [] f3 _. eapply yields_Ok; [reflexivity|]. by left. }
  fs_step. intros [] f3 _.
  fs_step. intros elf f4 Eelf.
  set (w1 := set_fs _ _).
  assert (forall (x : list Z) R, x = [] -> yields (bad kend 0 0 (Some ip)) w1 (fun r w' => r = -1 /\ restored w' \/ R r w')) as Hbad.
  { intros _ R _. eapply yields_weaken; [by apply bad_none|]. by left. }
  destruct (negb _); [by eapply (Hbad [])|]. destruct (negb _); [by eapply (Hbad [])|].
  destruct (proc_pagetable_spec kend trampoline kend_pos tramp_ok tf l0 (kpages w0)
    (sp_free _ _ _ _ _ _ (proj1 (im_space _ _ _ _ _ _ _ _ _ _ Hold))) tf_ok)
    as (root & s1 & E1 & Ho1 & [[-> Hall]|[Hroot Hps]]); (eapply yields_mem; [exact E1|]).
  { cbn [Z.eqb]. eapply yields_weaken; [apply bad_none|by left]. by apply restore. }
  rewrite (proj2 (Z.eqb_neq root 0)) by done.
  apply pspace_img in Hps as (T & mp & l & Him).
  assert (fresh true (set_pages w1 s1) root 0 T mp l) as Hfr.
  { split; try done. intros _ n Hn. change (npages 0) with 0 in Hn. lia. }
  eapply yields_bind; [by eapply load_segments_yields|].
  cbv beta. intros [sz ok] w2 (T2 & mp2 & l2 & Hfr2). cbn [fst snd] in *.
  destruct (negb ok); [eapply yields_weaken; [by eapply bad_new|by left]|].
  fs_step. intros [] f5 _. fs_step. intros [] f6 _.
  eapply yields_weaken; [eapply setup_stack_yields; [by do 2 apply fresh_fs|done| |done|done]|].
  - pose proof (get_le_bound 8 elf 24 (x_read_byte _ _ _ _ _ _ Eelf)) as Hb. exact Hb.
  - cbv beta. intros r w' [?|[? ?]]; [by left|right; eauto].
Qed.
End Exec.
