(* ===== verification/ExecCall.v ===== *)
(** The system call [exec] from the user's arguments to the new program's.

    [sys_exec] copies the path and the argument strings out of the old image
    into pages of its own, runs [exec], and frees those pages.  The strings the
    new program finds on its stack are those the old one passed; a call that
    fails leaves the process as it was; and no page is lost. *)

From S2P Require Import Prelude Mem Kalloc Block UserMem Vm VmSpace VmOps VmFree VmCopy VmFork.
From S2P Require Import Proc ProcTable ProcLife ProcMem Exec MachineTypes ExecMem ExecTheorems.

(** ** The arguments as the old program has them *)

Definition uword (v : Z -> option Z) (a : Z) : option Z :=
  (fun bs => get_le 8 bs 0) <$> read_bytes v 8 a.

(** An array of pointers to strings, ended by a null pointer. *)
Inductive user_args (v : Z -> option Z) : Z -> list (list Z) -> Prop :=
| user_args_nil a : uword v a = Some 0 -> user_args v a []
| user_args_cons a q str strs :
    uword v a = Some q -> q <> 0 -> read_str v (Z.to_nat PGSIZE) q = Some str ->
    user_args v (u64 (a + 8)) strs -> user_args v a (str :: strs).

Lemma read_str_spec v k a str :
  read_str v k a = Some str -> (length str < k)%nat /\ Forall (fun c => c <> 0) str.
Proof.
  revert a str. induction k as [|k IH]; intros a str; cbn [read_str]; [done|].
  destruct (v a) as [b|]; cbn; [|done]. destruct (Z.eqb_spec b 0).
  - intros [= <-]. cbn. split; [lia|constructor].
  - destruct (read_str v k (a + 1)) as [bs|] eqn:E; cbn; [|done]. intros [= <-].
    apply IH in E as [? ?]. cbn. split; [lia|by constructor].
Qed.

Lemma read_str_ext v v' k a : (forall x, v' x = v x) -> read_str v' k a = read_str v k a.
Proof.
  intros Hv. revert a. induction k as [|k IH]; intros a; cbn [read_str]; [done|].
  rewrite Hv. destruct (v a) as [b|]; cbn; [|done]. by rewrite IH.
Qed.

(** A string stored in a page of the kernel. *)
Lemma kstring_stored m a str :
  Z.of_nat (length str) < PGSIZE -> Forall (fun c => c <> 0) str ->
  kstring (store_bytes m a (str ++ [0])) a str.
Proof.
  intros Hlen Hnz. split; [done|]. split.
  - intros j c Hj. pose proof (lookup_lt_Some _ _ _ Hj) as Hlt.
    rewrite store_bytes_spec, length_app. cbn [length]. rewrite decide_True by lia.
    replace (Z.to_nat _) with j by lia. rewrite lookup_app_l, Hj by done. split; [done|].
    by apply (Forall_lookup_1 _ _ _ _ Hnz Hj).
  - rewrite store_bytes_spec, length_app. cbn [length]. rewrite decide_True by lia.
    replace (Z.to_nat _) with (length str) by lia. by rewrite lookup_app_r, Nat.sub_diag.
Qed.

Section SysExec.
Context {Fs : Type} `{!ExecFiles Fs} `{!ExecFilesLaws Fs}.
Context (kend trampoline : Z) (kend_pos : 0 < kend) (tramp_ok : pa_ok trampoline).
Abbreviation pworld := (@pworld Fs).
Abbreviation img := (img kend trampoline).
Implicit Types (w : pworld) (F : gset Z) (T : gmap Z (nat * Z)) (mp : gmap Z Z) (l : list Z).

(** ** Freeing the argument pages *)

Lemma img_free_page root tf sz F T mp l s a :
  img root tf sz F T mp l s -> page_ok kend a -> a ∉ F ->
  exists s', kfree kend a s = Ok tt s' /\ img root tf sz ({[a]} ∪ F) T mp (a :: l) s' /\
    outside (eq a) (kmem s) (kmem s').
Proof.
  intros Him Hok Ha.
  pose proof (sp_free _ _ _ _ _ _ (proj1 (im_space _ _ _ _ _ _ _ _ _ _ Him))) as Hf.
  assert (a ∉ l) as Hal by (intros Hl; by apply Ha; eapply img_free_sub).
  assert (~ own T mp a) as Hown by (intros Ho; by apply Ha; eapply img_own_sub).
  destruct (kfree_free kend kend_pos s l a Hf Hok Hal) as (s' & E & Hf' & Hm).
  assert (outside (eq a) (kmem s) (kmem s')) as Hout by (intros x Hx; apply Hm; by apply Hx).
  exists s'. split; [done|]. split; [|done].
  replace ({[a]} ∪ F) with (list_to_set (a :: l) ∪ (F ∖ list_to_set l)).
  - eapply (img_kept kend trampoline kend_pos); [exact Him|exact Hf'|exact Hout|by intros ? <-|by intros ? <-|].
    intros q [-> |Hq]%elem_of_cons; [done|]. intros Ho. by eapply (own_not_free kend); [apply Him|..].
  - rewrite list_to_set_cons, <- union_assoc_L. f_equal. apply set_split.
    intros q. by eapply img_free_sub.
Qed.

Lemma free_args_runs argv w root tf sz F T mp l :
  img root tf sz F T mp l (kpages w) -> NoDup argv ->
  (forall a, a ∈ argv -> page_ok kend a /\ a ∉ F) ->
  exists s' l', free_args kend argv w = Ok tt (set_pages w s') /\
    img root tf sz (list_to_set argv ∪ F) T mp l' s' /\
    outside (fun q => q ∈ argv) (kmem (kpages w)) (kmem s').
Proof.
  revert w F l. induction argv as [|a argv IH]; intros w F l Him Hnd Hok.
  { exists (kpages w), l. split; [by destruct w|]. split; [|apply outside_refl].
    by rewrite list_to_set_nil, union_empty_l_L. }
  apply list.NoDup_cons in Hnd as [Ha Hnd]. destruct (Hok a ltac:(set_solver)) as [Hpa Hna].
  destruct (img_free_page _ _ _ _ _ _ _ _ _ Him Hpa Hna) as (s1 & E1 & Him1 & Ho1).
  destruct (IH (set_pages w s1) _ _ Him1 Hnd) as (s2 & l2 & E2 & Him2 & Ho2).
  { intros b Hb. destruct (Hok b ltac:(set_solver)). split; [done|]. set_solver. }
  exists s2, l2. cbn [free_args]. rewrite (kbind_Ok _ _ _ _ _ (on_mem_runs _ _ _ _ E1)), E2.
  split; [done|]. split.
  - rewrite list_to_set_cons. by replace ({[a]} ∪ list_to_set argv ∪ F)
      with (list_to_set argv ∪ ({[a]} ∪ F) : gset Z) by set_solver.
  - eapply outside_trans; eapply outside_weaken; [|exact Ho1| |exact Ho2]; cbv beta; set_solver.
Qed.

(** ** Fetching the arguments *)

Context (w0 : pworld) (i : Z) (p : proc) (Fo : gset Z) (To : gmap Z (nat * Z)) (mpo : gmap Z Z)
  (l0 : list Z).
Hypothesis Hp : zget (procs w0) i = Some p.
Hypothesis Hold : img (p_pagetable p) (p_trapframe p) (p_sz p) Fo To mpo l0 (kpages w0).
Hypothesis Htf : page_ok kend (p_trapframe p).
Hypothesis Htf_out : p_trapframe p ∉ Fo.
Hypothesis Hbytes : bytes_ok (kmem (kpages w0)).

Let tf : Z := p_trapframe p.
Let v0 : Z -> option Z := ubyte mpo (kmem (kpages w0)).

(** [sys_exec] has the pages [argv], taken from the free ones. *)
Record holding_pages (argv : list Z) l w : Prop := {
  hp_world : same_world w0 w;
  hp_img : img (p_pagetable p) tf (p_sz p) (Fo ∖ list_to_set argv) To mpo l (kpages w);
  hp_dup : NoDup argv;
  hp_free : forall a, a ∈ argv -> a ∈ l0;
  hp_out : outside (fun q => q ∈ l0) (kmem (kpages w0)) (kmem (kpages w));
}.

Lemma free0_ok q : q ∈ l0 -> page_ok kend q.
Proof. intros Hq. eapply free_pages_page_ok; [|done]. apply (im_space _ _ _ _ _ _ _ _ _ _ Hold). Qed.

Lemma free0_not_own q : q ∈ l0 -> ~ own To mpo q.
Proof. intros Hq Ho. by eapply (own_not_free kend); [apply Hold|..]. Qed.

Lemma free0_in q : q ∈ l0 -> q ∈ Fo.
Proof. by eapply img_free_sub. Qed.

(** While the pages taken were free, the user's view is the old one. *)
Lemma view_old w x :
  outside (fun q => q ∈ l0) (kmem (kpages w0)) (kmem (kpages w)) ->
  ubyte mpo (kmem (kpages w)) x = v0 x.
Proof.
  intros Ho. unfold v0. eapply (view_kept kend trampoline kend_pos tramp_ok p Htf); [exact Hold|exact Ho|..].
  - apply free0_ok.
  - apply free0_not_own.
Qed.

Lemma holding_start : holding_pages [] l0 w0.
Proof.
  split; [done| |constructor|set_solver|apply outside_refl].
  by rewrite list_to_set_nil, difference_empty_L.
Qed.

(** One page more, whatever is then written into it. *)
Lemma holding_take argv l w :
  holding_pages argv l w ->
  (on_mem kalloc w = Ok 0 w) \/
  exists a l' s, on_mem kalloc w = Ok a (set_pages w s) /\ a <> 0 /\ page_ok kend a /\ (a ∉ argv) /\
    outside (eq a) (kmem (kpages w)) (kmem s) /\
    forall s', freelist s' = freelist s -> outside (eq a) (kmem s) (kmem s') ->
      holding_pages (argv ++ [a]) l' (set_pages w s').
Proof.
  intros [Hw Him Hnd Hfr Ho].
  pose proof (sp_free _ _ _ _ _ _ (proj1 (im_space _ _ _ _ _ _ _ _ _ _ Him))) as Hf.
  destruct l as [|a l].
  { left. rewrite (on_mem_runs _ _ _ _ (kalloc_empty kend _ Hf)). by destruct w. }
  right. destruct (kalloc_free kend kend_pos _ _ _ Hf) as (s & E & Hf' & Hok & Hnin & Hm & _).
  assert (a ∈ Fo /\ a ∉ argv) as [HaF Haa].
  { pose proof (img_free_sub _ _ _ _ _ _ _ _ _ _ a Him ltac:(left)). set_solver. }
  assert (a ∈ l0) as Ha0.
  { destruct (decide (a ∈ l0)); [done|]. exfalso.
    pose proof (own_not_free kend _ _ _ _ _ _ a (im_space _ _ _ _ _ _ _ _ _ _ Him)) as Hno.
    apply Hno; [|left]. destruct (proj1 (pt_all _ _ _ _ _ (proj2 (im_space _ _ _ _ _ _ _ _ _ _ Hold)) a) HaF)
      as [?|[?|?]]; [done|by left|by right]. }
  exists a, l, s. split; [by apply on_mem_runs|]. split; [destruct Hok; lia|]. split; [done|].
  split; [done|].
  assert (outside (eq a) (kmem (kpages w)) (kmem s)) as Hs by (intros x Hx; apply Hm; by apply Hx).
  split; [done|]. intros s' Hfl Hout.
  assert (outside (eq a) (kmem (kpages w)) (kmem s')) as Hout' by by eapply outside_trans.
  assert (free_pages kend s' l) as Hf2.
  { eapply free_pages_frame; [exact Hfl| |exact Hf']. intros pg x Hpg Hx.
    eapply (outside_page _ _ _ pg x); [exact Hout|by eapply free_pages_page_ok|done| |].
    - intros q <-. apply Hok.
    - by intros ->. }
  split; [done| | | |].
  - replace (Fo ∖ list_to_set (argv ++ [a])) with (list_to_set l ∪ ((Fo ∖ list_to_set argv) ∖ list_to_set (a :: l)) : gset Z).
    + eapply (img_kept kend trampoline kend_pos); [exact Him|exact Hf2|exact Hout'|by intros ? <-|..].
      * intros q <-. by apply free0_not_own.
      * intros q Hq Hown. eapply (own_not_free kend); [apply Him|exact Hown|by right].
    + apply set_eq. intros q. assert (q ∈ l -> q ∈ Fo /\ (q ∉ argv) /\ q <> a) as Hq.
      { intros Hq. pose proof (img_free_sub _ _ _ _ _ _ _ _ _ _ q Him ltac:(by right)).
        split_and!; [set_solver..|]. by intros ->. }
      destruct (decide (q ∈ l)); set_solver.
  - apply list.NoDup_app. split_and!; [done|set_solver|]. apply NoDup_singleton.
  - intros b. set_solver.
  - eapply outside_trans; [exact Ho|]. eapply outside_weaken; [|exact Hout']. cbv beta. by intros ? <-.
Qed.

Lemma tf_page : pa_ok tf.
Proof. by apply (page_pa_ok kend). Qed.

Lemma holding_proc argv l w : holding_pages argv l w -> get_proc i w = Ok p w.
Proof. intros Hh. eapply get_proc_same; [exact Hp|apply Hh]. Qed.

Lemma holding_space argv l w :
  holding_pages argv l w ->
  uspace kend (p_pagetable p) (Fo ∖ list_to_set argv) To mpo l (kpages w) /\ no_user_top mpo.
Proof.
  intros Hh. split; [apply Hh|]. eapply (img_top kend trampoline tramp_ok); [apply Hh|apply tf_page].
Qed.

Lemma fetchaddr_runs argv l w a :
  holding_pages argv l w -> 0 <= a ->
  exists r, fetchaddr_of i a w = Ok r w /\ (r = None \/ r = uword v0 a).
Proof.
  intros Hh Ha. unfold fetchaddr_of. rewrite (kbind_Ok _ _ _ _ _ (holding_proc _ _ _ Hh)).
  destruct (_ || _); [eexists; split; [done|by left]|].
  destruct (holding_space _ _ _ Hh) as [Hus Htop].
  destruct (copyin_spec kend kend_pos _ a 8 _ _ _ _ _ Hus Htop Ha) as ([bs ok] & E & Hc & _).
  rewrite (kbind_Ok _ _ _ _ _ (on_mem_runs _ _ _ _ E)). eexists. split; [by destruct w|].
  change (Z.to_nat 8) with 8%nat in Hc. cbn [fst snd] in *. destruct ok; [right|by left]. unfold uword.
  rewrite <- (read_bytes_ext (ubyte mpo (kmem (kpages w)))), Hc; [done|].
  intros x _. apply view_old, Hh.
Qed.

Lemma fetchstr_runs argv l w a max :
  holding_pages argv l w -> 0 <= a -> 0 <= max ->
  fetchstr_of i a max w = Ok (read_str v0 (Z.to_nat max) a) w.
Proof.
  intros Hh Ha Hm. unfold fetchstr_of. rewrite (kbind_Ok _ _ _ _ _ (holding_proc _ _ _ Hh)).
  destruct (holding_space _ _ _ Hh) as [Hus Htop].
  rewrite (on_mem_runs _ _ _ _ (copyinstr_spec kend kend_pos _ a max _ _ _ _ _ Hus Htop Ha Hm)).
  rewrite (read_str_ext v0) by (intros x; apply view_old, Hh). by destruct w.
Qed.

Lemma read_bytes_Forall (v : Z -> option Z) (P : Z -> Prop) k a bs :
  (forall x b, v x = Some b -> P b) -> read_bytes v k a = Some bs -> Forall P bs.
Proof.
  intros Hv. revert a bs. induction k as [|k IH]; intros a bs; cbn [read_bytes].
  - intros [= <-]. constructor.
  - destruct (v a) as [b|] eqn:E; cbn; [|done].
    destruct (read_bytes v k (a + 1)) as [bs'|] eqn:E'; cbn; [|done]. intros [= <-].
    constructor; eauto.
Qed.

Lemma uword_nonneg a q : uword v0 a = Some q -> 0 <= q.
Proof.
  unfold uword. destruct (read_bytes v0 8 a) as [bs|] eqn:E; cbn; [|done]. intros [= <-].
  apply (get_le_bound 8 bs 0). eapply read_bytes_Forall; [|exact E].
  intros x b. unfold v0, ubyte. destruct (upa mpo x); cbn; [|done]. intros [= <-]. apply Hbytes.
Qed.

(** The pages hold the strings [strs]. *)
Definition strings w argv strs : Prop := Forall2 (kstring (kmem (kpages w))) argv strs.

Lemma strings_store w s argv strs a str l q :
  holding_pages argv l w -> strings w argv strs -> page_ok kend a -> a ∉ argv ->
  outside (eq a) (kmem (kpages w)) (kmem s) -> read_str v0 (Z.to_nat PGSIZE) q = Some str ->
  let s' := {| kmem := store_bytes (kmem s) a (str ++ [0]); freelist := freelist s |} in
  outside (eq a) (kmem s) (kmem s') /\ strings (set_pages w s') (argv ++ [a]) (strs ++ [str]).
Proof.
  intros Hh Hs Hok Ha Ho Hstr s'. apply read_str_spec in Hstr as [Hlen Hnz].
  assert (Z.of_nat (length str) < PGSIZE) as Hlt by lia.
  assert (outside (eq a) (kmem s) (kmem s')) as Ho'.
  { intros x Hx. specialize (Hx a eq_refl). cbn [kmem s']. rewrite store_bytes_spec, length_app.
    cbn [length]. rewrite decide_False; [done|]. unfold in_page in Hx. lia. }
  split; [done|]. apply Forall2_app; [|by constructor; [apply kstring_stored|constructor]].
  apply Forall2_same_length_lookup. split; [by eapply Forall2_length|].
  intros j b t Hb Ht. eapply kstring_ext; [exact (Forall2_lookup_lr _ _ _ _ _ _ Hs Hb Ht)|].
  apply list_elem_of_lookup_2 in Hb.
  assert (page_ok kend b) as Hbok by (apply free0_ok; by eapply hp_free).
  intros x Hx. eapply (outside_page _ _ _ b x); [by eapply outside_trans|apply Hbok|done| |].
  - intros ? <-. apply Hok.
  - by intros ->.
Qed.

Lemma next_arg uargv n : u64 (u64 (uargv + 8 * n) + 8) = u64 (uargv + 8 * (n + 1)).
Proof. unfold u64. rewrite Zplus_mod_idemp_l. f_equal. lia. Qed.

Lemma fetch_args_runs k uargv n argv strs l w :
  holding_pages argv l w -> strings w argv strs ->
  exists r w' l', fetch_args k i uargv n argv w = Ok r w' /\ holding_pages r.1 l' w' /\
    (r.2 = true -> exists strs', strings w' r.1 (strs ++ strs') /\
       user_args v0 (u64 (uargv + 8 * n)) strs' /\ (length r.1 < length argv + k)%nat).
Proof.
  revert n argv strs l w. induction k as [|k IH]; intros n argv strs l w Hh Hs.
  { by exists (argv, false), w, l. }
  cbn [fetch_args]. pose proof (Z.mod_pos_bound (uargv + 8 * n) (2 ^ 64) ltac:(lia)) as Hb.
  fold (u64 (uargv + 8 * n)) in Hb.
  destruct (fetchaddr_runs _ _ _ (u64 (uargv + 8 * n)) Hh ltac:(lia)) as (r & E & Hr).
  rewrite (kbind_Ok _ _ _ _ _ E). destruct r as [q|]; [|by exists (argv, false), w, l].
  destruct Hr as [|Hr]; [done|]. symmetry in Hr. pose proof (uword_nonneg _ _ Hr) as Hq.
  destruct (Z.eqb_spec q 0) as [-> |Hq0].
  { exists (argv, true), w, l. split; [done|]. split; [done|]. intros _. exists [].
    rewrite app_nil_r. split; [done|]. split; [by constructor|]. cbn. lia. }
  destruct (holding_take _ _ _ Hh) as [E1|(a & l1 & s1 & E1 & Ha0 & Hok & Ha & Ho1 & Hnew)].
  { rewrite (kbind_Ok _ _ _ _ _ E1). by exists (argv, false), w, l. }
  rewrite (kbind_Ok _ _ _ _ _ E1). rewrite (proj2 (Z.eqb_neq a 0)) by done.
  pose proof (Hnew s1 eq_refl (outside_refl _ _)) as Hh1.
  rewrite (kbind_Ok _ _ _ _ _ (fetchstr_runs _ _ _ q PGSIZE Hh1 Hq ltac:(done))).
  destruct (read_str v0 (Z.to_nat PGSIZE) q) as [str|] eqn:Estr; [|by exists (argv ++ [a], false), (set_pages w s1), l1].
  destruct (strings_store w s1 argv strs a str l q Hh Hs Hok Ha Ho1 Estr) as [Ho2 Hs2].
  set (s2 := {| kmem := _; freelist := _ |}) in *.
  rewrite (kbind_Ok _ _ _ _ _ (on_mem_runs (kmodify _) (set_pages w s1) tt s2 eq_refl)).
  destruct (IH (n + 1) (argv ++ [a]) (strs ++ [str]) l1 (set_pages w s2) (Hnew s2 eq_refl Ho2) Hs2)
    as (r & w' & l' & E3 & Hh3 & Hr3).
  exists r, w', l'. split; [exact E3|]. split; [done|]. intros Ht.
  destruct (Hr3 Ht) as (strs' & Hs3 & Hu & Hlen). exists (str :: strs').
  rewrite <- app_assoc in Hs3. split; [done|]. rewrite length_app in Hlen. cbn [length] in Hlen.
  split; [|lia]. apply (user_args_cons _ _ q); try done. by rewrite next_arg.
Qed.

(** ** The call *)

Lemma give_back argv w root sz T mp l :
  img root tf sz (Fo ∖ list_to_set argv) T mp l (kpages w) -> NoDup argv ->
  (forall a, a ∈ argv -> a ∈ l0) ->
  exists s' l', free_args kend argv w = Ok tt (set_pages w s') /\
    img root tf sz Fo T mp l' s' /\ outside (fun q => q ∈ argv) (kmem (kpages w)) (kmem s') /\
    (forall x, ubyte mp (kmem s') x = ubyte mp (kmem (kpages w)) x).
Proof.
  intros Him Hnd Hfr.
  destruct (free_args_runs argv w _ _ _ _ _ _ _ Him Hnd) as (s' & l' & E & Him' & Ho).
  { intros a Ha. split; [by apply free0_ok, Hfr|]. set_solver. }
  exists s', l'. split; [done|]. split; [|split; [done|]].
  - replace (list_to_set argv ∪ Fo ∖ list_to_set argv) with Fo in Him'; [done|].
    symmetry. apply set_split. intros a Ha. by apply free0_in, Hfr.
  - intros x. eapply (view_kept kend trampoline kend_pos tramp_ok p Htf); [exact Him|exact Ho|..].
    + cbv beta. intros q Hq. by apply free0_ok, Hfr.
    + cbv beta. intros q Hq Hown. apply (img_own_sub _ _ _ _ _ _ _ _ _ _ _ Him) in Hown. set_solver.
Qed.

(** Taking the pages back from a failed call. *)
Lemma give_back_restored argv l w1 w2 :
  holding_pages argv l w1 -> restored kend trampoline w1 p (Fo ∖ list_to_set argv) To mpo l w2 ->
  exists w3, free_args kend argv w2 = Ok tt w3 /\ restored kend trampoline w0 p Fo To mpo l0 w3.
Proof.
  intros [Hw Him Hnd Hfr Ho] ((? & ? & ? & ?) & (l2 & Him2) & Ho2).
  destruct (give_back argv w2 _ _ _ _ _ Him2 Hnd Hfr) as (s3 & l3 & E & Him3 & Ho3 & _).
  assert (forall q, q ∈ l -> q ∈ l0) as Hsub.
  { intros q Hq. pose proof (img_free_sub _ _ _ _ _ _ _ _ _ _ q Him Hq) as HF.
    destruct (proj1 (pt_all _ _ _ _ _ (proj2 (im_space _ _ _ _ _ _ _ _ _ _ Hold)) q) ltac:(set_solver))
      as [?|Hown]; [done|]. exfalso.
    by eapply (own_not_free kend _ _ _ _ _ _ q (im_space _ _ _ _ _ _ _ _ _ _ Him)). }
  eexists. split; [exact E|]. destruct Hw as (? & ? & ? & ?).
  split; [split_and!; cbn; congruence|]. split; [by exists l3|].
  eapply outside_trans; [eapply outside_weaken, Ho; set_solver|].
  eapply outside_trans; eapply outside_weaken; [|exact Ho2| |exact Ho3]; cbv beta; set_solver.
Qed.

(** And from one that has replaced the image. *)
Lemma give_back_replaced argv l w1 w2 path strs entry :
  holding_pages argv l w1 ->
  replaced kend trampoline w1 i p (Fo ∖ list_to_set argv) path strs entry w2 ->
  exists w3, free_args kend argv w2 = Ok tt w3 /\
    replaced kend trampoline w0 i p Fo path strs entry w3.
Proof.
  intros [Hw Him Hnd Hfr Ho] (root & sz & T & mp & l2 & sp & ? & ? & ? & ? & Him2 & Ha1 & Hsp & Hepc & Hal & ptrs & Hr & Hs).
  destruct (give_back argv w2 _ _ _ _ _ Him2 Hnd Hfr) as (s3 & l3 & E & Him3 & Ho3 & Hv).
  assert (forall off, 0 <= off < 281 -> ld64 (kmem s3) (tf + off) = ld64 (kmem (kpages w2)) (tf + off)) as Hld.
  { intros off Hoff. apply ld64_eq. intros x Hx.
    eapply (outside_page _ _ _ tf x); [exact Ho3|apply Htf|unfold in_page, PGSIZE; lia|..]; cbv beta.
    - intros q Hq. by destruct (free0_ok q (Hfr q Hq)).
    - intros Hq. apply Htf_out. by apply free0_in, Hfr. }
  eexists. split; [exact E|]. destruct Hw as (? & ? & ? & ?).
  exists root, sz, T, mp, l3, sp. cbn [procs cpus nextpid initproc kpages set_pages].
  split_and!; try congruence; try done.
  - by rewrite Hld by done.
  - by rewrite Hld by done.
  - by rewrite Hld by done.
  - split; [done|]. exists ptrs. split.
    + rewrite <- Hr. by apply read_bytes_ext.
    + revert Hs. apply Forall2_impl. intros a str [Hr' ?]. split; [|done].
      rewrite <- Hr'. by apply read_bytes_ext.
Qed.

Lemma arg_runs n : 0 <= n <= 5 ->
  arg_of i n w0 = Ok (ld64 (kmem (kpages w0)) (tf + TF_a0 + 8 * n)) w0.
Proof.
  intros Hn. unfold arg_of. rewrite (kbind_Ok _ _ _ _ _ (holding_proc _ _ _ holding_start)).
  destruct (Z.leb_spec 0 n), (Z.leb_spec n 5); try lia. cbn [andb].
  rewrite (on_mem_runs _ _ _ _ (load_Ok _ _)). by destruct w0.
Qed.

Lemma args_ready argv strs l w :
  holding_pages argv l w -> strings w argv strs ->
  Forall2 (arg_page kend w (Fo ∖ list_to_set argv)) argv strs.
Proof.
  intros Hh Hs. apply Forall2_same_length_lookup. split; [by eapply Forall2_length|].
  intros j a t Ha Ht. pose proof (list_elem_of_lookup_2 _ _ _ Ha) as Hin. split.
  - by apply free0_ok; eapply hp_free.
  - split; [|exact (Forall2_lookup_lr _ _ _ _ _ _ Hs Ha Ht)].
    rewrite elem_of_difference, elem_of_list_to_set. tauto.
Qed.

Lemma sys_exec_yields :
  yields (sys_exec kend trampoline i) w0 (fun r w' =>
    r = -1 /\ restored kend trampoline w0 p Fo To mpo l0 w' \/
    exists path strs entry,
      read_str v0 (Z.to_nat EXEC_MAXPATH) (ld64 (kmem (kpages w0)) (tf + TF_a0)) = Some path /\
      user_args v0 (ld64 (kmem (kpages w0)) (tf + TF_a1)) strs /\
      r = Z.of_nat (length strs) /\ replaced kend trampoline w0 i p Fo path strs entry w').
Proof.
  unfold sys_exec. do 2 (eapply yields_step; [apply arg_runs; lia|]).
  rewrite Z.mul_0_r, Z.add_0_r.
  replace (tf + TF_a0 + 8 * 1) with (tf + TF_a1) by (unfold TF_a0, TF_a1; lia).
  set (uargv := ld64 _ (tf + TF_a1)). set (upath := ld64 _ (tf + TF_a0)).
  pose proof (ld64_bound _ (tf + TF_a1) Hbytes) as Hb1. fold uargv in Hb1.
  pose proof (ld64_bound _ (tf + TF_a0) Hbytes) as Hb0. fold upath in Hb0.
  eapply yields_step; [apply (fetchstr_runs _ _ _ upath EXEC_MAXPATH holding_start); [lia|done]|].
  assert (restored kend trampoline w0 p Fo To mpo l0 w0) as H0.
  { split; [done|]. split; [by exists l0|apply outside_refl]. }
  destruct (read_str v0 _ upath) as [path|] eqn:Epath; [|by left].
  destruct (fetch_args_runs (Z.to_nat MAXARG) uargv 0 [] [] l0 w0 holding_start ltac:(constructor))
    as ([argv ok] & w1 & l1 & E1 & Hh & Hr). cbn [fst snd] in *.
  eapply yields_step; [exact E1|]. cbn [fst snd]. destruct ok.
  2: { destruct (give_back_restored argv l1 w1 w1 Hh) as (w3 & E3 & Hres).
       { split; [done|]. split; [exists l1; apply Hh|apply outside_refl]. }
       eapply yields_step; [exact E3|]. eapply yields_Ok; [reflexivity|]. by left. }
  destruct (Hr eq_refl) as (strs & Hs & Hu & Hlen). rewrite app_nil_l in Hs. cbn [length] in Hlen.
  rewrite Z.mul_0_r, Z.add_0_r, u64_small in Hu by lia.
  eapply yields_bind.
  { eapply (exec_yields kend trampoline kend_pos tramp_ok w1 i p _ To mpo l1).
    - rewrite (proj1 (hp_world _ _ _ Hh)). exact Hp.
    - apply Hh.
    - exact Htf.
    - rewrite elem_of_difference. intros [? _]. by apply Htf_out.
    - by eapply args_ready.
    - change (Z.to_nat MAXARG) with 32%nat in Hlen. change MAXARG with 32. lia. }
  cbv beta. intros r w2 [[-> Hres]|(-> & entry & Hrep)].
  - destruct (give_back_restored argv l1 w1 w2 Hh Hres) as (w3 & E3 & Hres3).
    eapply yields_step; [exact E3|]. eapply yields_Ok; [reflexivity|]. by left.
  - destruct (give_back_replaced argv l1 w1 w2 _ _ _ Hh Hrep) as (w3 & E3 & Hrep3).
    eapply yields_step; [exact E3|]. eapply yields_Ok; [reflexivity|]. right.
    exists path, strs, entry. split_and!; try done. f_equal. by eapply Forall2_length.
Qed.
End SysExec.

(** C5. The system call [exec] replaces the image of the calling process or
    leaves everything as it was; it panics only if the file system does, and
    sleeps only in the file system.  If it returns -1, the process table, the
    page table, every byte of user memory and the set of free pages are as
    before.  Otherwise the process has a new page table, every page of the old
    image is free again, the program counter is the entry of the executable, the
    result is the number of arguments, and registers [a1] and [sp] point to an
    array with the addresses of exactly the strings that the old program passed,
    each aligned and ended by a NUL.  No page is lost either way, including those
    that held the strings in between. *)
Theorem sys_exec_all_or_nothing {Fs} `{!ExecFiles Fs, !ExecFilesLaws Fs}
    kend trampoline (w : pworld (F := Fs)) i p F T mp l :
  0 < kend -> pa_ok trampoline -> zget (procs w) i = Some p ->
  img kend trampoline (p_pagetable p) (p_trapframe p) (p_sz p) F T mp l (kpages w) ->
  page_ok kend (p_trapframe p) -> p_trapframe p ∉ F -> bytes_ok (kmem (kpages w)) ->
  let view w mp := ubyte mp (kmem (kpages w)) in
  let reg off := ld64 (kmem (kpages w)) (p_trapframe p + off) in
  yields (sys_exec kend trampoline i) w (fun r w' =>
    r = -1 /\ restored kend trampoline w p F T mp l w' /\ (forall x, view w' mp x = view w mp x) \/
    exists path strs entry,
      read_str (view w mp) (Z.to_nat EXEC_MAXPATH) (reg TF_a0) = Some path /\
      user_args (view w mp) (reg TF_a1) strs /\
      r = Z.of_nat (length strs) /\ replaced kend trampoline w i p F path strs entry w').
Proof.
  intros Hk Ht Hp Him Htf Hout Hb view reg.
  eapply yields_weaken; [by eapply sys_exec_yields|]. cbv beta.
  intros r w' [[-> Hres]|?]; [left|by right]. split; [done|]. split; [done|].
  intros x. eapply (view_old kend trampoline Hk Ht w p F T mp l); try done. destruct Hres as (_ & _ & Ho).
  eapply outside_weaken, Ho. cbv beta. intros q. by rewrite elem_of_list_to_set.
Qed.

(** ** A process of one page *)

Definition many_end : Z := PHYSTOP - 24 * PGSIZE.

Definition many_pages : kstate :=
  match kinit many_end {| kmem := fun _ => 0; freelist := 0 |} with
  | Ok _ s => s
  | _ => {| kmem := fun _ => 0; freelist := 0 |}
  end.

Definition created kend (r : res (pworld (F := unit)) (option Z)) : bool :=
  match r with
  | Ok (Some 0) w => match growproc kend 0 4096 w with Ok 0 _ => true | _ => false end
  | _ => false
  end.

Lemma many_created : created many_end (allocproc many_end 0x80007000 0 (boot many_pages tt)) = true.
Proof. vm_compute. reflexivity. Qed.

Lemma new_process kend trampoline s l :
  0 < kend -> pa_ok trampoline -> free_pages kend s l -> kstate_ok s ->
  created kend (allocproc kend trampoline 0 (boot s tt)) = true -> exists w p F T mp l,
  zget (procs w) 0 = Some p /\ page_ok kend (p_trapframe p) /\ (p_trapframe p ∉ F) /\
  img kend trampoline (p_pagetable p) (p_trapframe p) (p_sz p) F T mp l (kpages (F := unit) w) /\
  bytes_ok (kmem (kpages w)).
Proof.
  intros Hk Ht Hf Hok Hc.
  destruct (allocproc_runs kend trampoline 0 Hk Ht 0 (boot s tt) l)
    as (r & w1 & E1 & Hr); [split; [done|by intros p [= <-]]|done|].
  rewrite E1 in Hc. destruct Hr as [[-> _]|[-> Hm]]; [done|].
  destruct (growproc_runs kend trampoline Hk 0 4096 w1 _ Hm ltac:(lia))
    as (r2 & w2 & E2 & _ & p & F & Hp & Htf & Hn & _ & _ & Hps).
  apply pspace_img in Hps as (T & mp & l2 & Him).
  pose proof (world_ok_boot (F := unit) s tt Hok) as Hw0.
  pose proof (typed_allocproc (F := unit) kend trampoline 0 Hk _ Hw0) as Hw1. rewrite E1 in Hw1.
  pose proof (typed_growproc (F := unit) kend Hk 0 4096 _ (proj2 Hw1)) as Hw2. rewrite E2 in Hw2.
  exists w2, p, F, T, mp, l2. split_and!; try done. apply Hw2.
Qed.

Lemma kinit_ok kend s :
  0 < kend -> kinit kend {| kmem := fun _ => 0; freelist := 0 |} = Ok tt s -> kstate_ok s.
Proof.
  intros Hk E. assert (kstate_ok {| kmem := fun _ => 0; freelist := 0 |}) as H0 by by split.
  pose proof (typed_kinit kend Hk _ H0) as Ht. rewrite E in Ht. apply Ht.
Qed.

Lemma many_pages_eq s :
  kinit many_end {| kmem := fun _ => 0; freelist := 0 |} = Ok tt s -> many_pages = s.
Proof. intros E. unfold many_pages. rewrite E. reflexivity. Qed.

Lemma many_process : exists w p F T mp l,
  zget (procs w) 0 = Some p /\ page_ok many_end (p_trapframe p) /\ (p_trapframe p ∉ F) /\
  img many_end 0x80007000 (p_pagetable p) (p_trapframe p) (p_sz p) F T mp l (kpages (F := unit) w) /\
  bytes_ok (kmem (kpages w)).
Proof.
  assert (0 < many_end) as Hk by done. assert (pa_ok 0x80007000) as Ht by done.
  destruct (kinit_spec many_end Hk (fun _ => 0)) as (s & l & E & Hf & _).
  pose proof many_created as Hc. rewrite (many_pages_eq s E) in Hc.
  exact (new_process many_end _ s l Hk Ht Hf (kinit_ok _ _ Hk E) Hc).
Qed.

Lemma sys_exec_all_or_nothing_witness : exists w p F T mp l,
  zget (procs (F := unit) w) 0 = Some p /\
  match @sys_exec unit one_file many_end 0x80007000 0 w with
  | Ok r w' => r = -1 /\ restored many_end 0x80007000 w p F T mp l w' \/
      exists path strs entry, r = Z.of_nat (length strs) /\
        replaced many_end 0x80007000 w 0 p F path strs entry w'
  | _ => False
  end.
Proof.
  destruct many_process as (w & p & F & T & mp & l & Hp & Htf & Hn & Him & Hb).
  exists w, p, F, T, mp, l. split; [exact Hp|].
  pose proof (@sys_exec_all_or_nothing unit one_file one_file_laws many_end 0x80007000 w 0 p F T mp l
    ltac:(done) ltac:(done) Hp Him Htf Hn Hb) as Hy.
  unfold yields in Hy. destruct (sys_exec _ _ _ _) as [r w'|msg|c w'].
  - destruct Hy as [(? & ? & _)|(path & strs & entry & _ & _ & ? & ?)]; [left; done|right; by exists path, strs, entry].
  - destruct Hy as (B & c & f & Hc & E). by destruct Hc.
  - destruct Hy as (B & c' & f & Hc & E). by destruct Hc.
Defined.
