(* ===== verification/Grep.v ===== *)
(** The pattern matcher and the line loop of [user/grep.c].

    A C string is the list of its bytes before the NUL, so that [s + 1] is the
    tail and reading the NUL is reaching the end of the list.  The buffer of
    [grep] is the array [buf] of 1024 cells, which the loop shares between
    [read], the scan for newlines (which writes NUL over a newline and puts it
    back only for a line it prints) and [memmove].  The descriptor it reads is
    the parameter [read].

    Shown: [match] decides the search problem of the regular expressions with
    [^ . * $]; [grep] prints exactly the lines of its input that match, in
    whatever pieces [read] delivers it, and stops. *)

From S2P Require Import Prelude.

Module Grep.

(** ** The matcher *)

Definition CARET : Z := 94.
Definition STAR : Z := 42.
Definition DOT : Z := 46.
Definition DOLLAR : Z := 36.
Definition NL : Z := 10.

(** [matchstar(c, re, text)], where [here] is [matchhere] of the same [re]. *)
Fixpoint matchstar (c : Z) (here : list Z -> bool) (text : list Z) : bool :=
  here text ||
  match text with
  | [] => false
  | t :: text => ((t =? c) || (c =? DOT)) && matchstar c here text
  end.

Fixpoint matchhere (re text : list Z) : bool :=
  match re with
  | [] => true
  | c :: re1 =>
      let one :=
        match text with
        | t :: text => ((c =? DOT) || (c =? t)) && matchhere re1 text
        | [] => false
        end in
      match re1 with
      | s :: re2 => if s =? STAR then matchstar c (matchhere re2) text else one
      | [] => if c =? DOLLAR then match text with [] => true | _ => false end else one
      end
  end.

(** The [do ... while] of [match]: it looks at the empty string too. *)
Fixpoint match_from (re text : list Z) : bool :=
  matchhere re text ||
  match text with [] => false | _ :: text => match_from re text end.

Definition match_ (re text : list Z) : bool :=
  match re with
  | c :: re' => if c =? CARET then matchhere re' text else match_from re text
  | [] => match_from re text
  end.

(** ** The line loop *)

Definition BUFSIZE : nat := 1024.

(** [strchr] from [p] on: the index of the first [c] of the C string. *)
Fixpoint strchr (l : list Z) (c : Z) (p : nat) : option nat :=
  match l with
  | [] => None
  | x :: l => if x =? 0 then None else if x =? c then Some p else strchr l c (S p)
  end.

(** Bytes written over a buffer at [at]. *)
Definition overwrite (buf : list Z) (at_ : nat) (bs : list Z) : list Z :=
  take at_ buf ++ bs ++ drop (at_ + length bs) buf.

(** The inner loop: scan from [p]; the result is the buffer, the start of the
    unfinished line and the output. *)
Fixpoint grep_lines (k : nat) (pattern buf : list Z) (p : nat) (out : list Z)
    : list Z * nat * list Z :=
  match k with
  | O => (buf, p, out)
  | S k =>
      match strchr (drop p buf) NL p with
      | None => (buf, p, out)
      | Some q =>
          let buf := <[q := 0]> buf in
          if match_ pattern (cstring (drop p buf)) then
            let buf := <[q := NL]> buf in
            grep_lines k pattern buf (q + 1) (out ++ take (q + 1 - p) (drop p buf))
          else grep_lines k pattern buf (q + 1) out
      end
  end.

Section Loop.
(** [read(fd, _, n)]: the bytes delivered, none at the end of the file or on
    an error, and the descriptor afterwards. *)
Context {R : Type} (read : R -> nat -> list Z * R).

Fixpoint grep_loop (fuel : nat) (pattern : list Z) (m : nat) (buf : list Z)
    (fd : R) (out : list Z) : option (list Z) :=
  match fuel with
  | O => None
  | S fuel =>
      let '(bs, fd) := read fd (BUFSIZE - m - 1) in
      match bs with
      | [] => Some out
      | _ =>
          let buf := overwrite buf m bs in
          let m := (m + length bs)%nat in
          let buf := <[m := 0]> buf in
          let '(buf, p, out) := grep_lines BUFSIZE pattern buf 0 out in
          if (0 <? m)%nat then
            let m := (m - p)%nat in
            let buf := overwrite buf 0 (take m (drop p buf)) in
            grep_loop fuel pattern m buf fd out
          else grep_loop fuel pattern m buf fd out
      end
  end.

Definition grep (fuel : nat) (pattern : list Z) (fd : R) : option (list Z) :=
  grep_loop fuel pattern 0 (replicate BUFSIZE 0) fd [].
End Loop.

(** What a descriptor promises: a read delivers at most what was asked for,
    the next bytes of the file, and nothing only at its end. *)
Class Reader {R : Type} (read : R -> nat -> list Z * R) (content : R -> list Z) : Prop := {
  read_le : forall r n, (length (read r n).1 <= n)%nat;
  read_content : forall r n, content r = (read r n).1 ++ content (read r n).2;
  read_progress : forall r n, (0 < n)%nat -> (read r n).1 = [] -> content r = []
}.

#[local] Opaque BUFSIZE.

(** ** The language of a pattern *)

Inductive piece : Type :=
| One (c : Z)
| Star (c : Z).

(** The pieces of a pattern, and whether it ends in an anchor. *)
Fixpoint pieces (re : list Z) : list piece * bool :=
  match re with
  | [] => ([], false)
  | c :: re1 =>
      match re1 with
      | s :: re2 =>
          if s =? STAR then (Star c :: (pieces re2).1, (pieces re2).2)
          else (One c :: (pieces re1).1, (pieces re1).2)
      | [] => if c =? DOLLAR then ([], true) else ([One c], false)
      end
  end.

Definition stands_for (c x : Z) : Prop := c = DOT \/ c = x.

Inductive lang : list piece -> list Z -> Prop :=
| lang_nil : lang [] []
| lang_one c x ps s : stands_for c x -> lang ps s -> lang (One c :: ps) (x :: s)
| lang_star c ps s1 s2 :
    Forall (stands_for c) s1 -> lang ps s2 -> lang (Star c :: ps) (s1 ++ s2).

(** [text] begins with a string of the language; an anchor makes it all of
    [text]. *)
Definition begins (re text : list Z) : Prop :=
  exists s rest, text = s ++ rest /\ lang (pieces re).1 s /\
    ((pieces re).2 = true -> rest = []).

Definition searches (re text : list Z) : Prop :=
  match re with
  | c :: re' =>
      if c =? CARET then begins re' text
      else exists pre suf, text = pre ++ suf /\ begins re suf
  | [] => True
  end.

(** The complete lines of an input, without their newlines, and the bytes
    after the last one. *)
Fixpoint lines (s : list Z) : list (list Z) * list Z :=
  match s with
  | [] => ([], [])
  | c :: s =>
      let '(ls, rest) := lines s in
      if c =? NL then ([] :: ls, rest)
      else match ls with [] => ([], c :: rest) | l :: ls => ((c :: l) :: ls, rest) end
  end.

Definition selected (pattern : list Z) (ls : list (list Z)) : list Z :=
  concat ((fun l => if match_ pattern l then l ++ [NL] else []) <$> ls).

(** ** [match] decides the search *)

Lemma stands_for_iff c x : (c =? DOT) || (c =? x) = true <-> stands_for c x.
Proof. rewrite orb_true_iff, !Z.eqb_eq. done. Qed.

Lemma stands_for_iff' c x : (x =? c) || (c =? DOT) = true <-> stands_for c x.
Proof. rewrite <- stands_for_iff, orb_comm, (Z.eqb_sym x c). done. Qed.

(** [c*re] begins a text after any run of bytes [c] stands for. *)
Lemma matchstar_iff c here text :
  matchstar c here text = true <->
  exists s1 s2, text = s1 ++ s2 /\ Forall (stands_for c) s1 /\ here s2 = true.
Proof.
  induction text as [|t text IH]; simpl; rewrite orb_true_iff.
  - split.
    + intros [H|]; [exists [], []|]; done.
    + intros (s1 & s2 & Happ & _ & H). symmetry in Happ.
      apply app_nil in Happ as [-> ->]. auto.
  - rewrite andb_true_iff, stands_for_iff', IH. split.
    + intros [H | (Hc & s1 & s2 & -> & Hs & H)].
      * by exists [], (t :: text).
      * exists (t :: s1), s2. auto.
    + intros ([|x s1] & s2 & Happ & Hs & H); simplify_eq/=; [auto|].
      inversion Hs; subst. right. split; [done|]. by exists s1, s2.
Qed.

Lemma begins_star c re text :
  begins (c :: STAR :: re) text <->
  exists s1 s2, text = s1 ++ s2 /\ Forall (stands_for c) s1 /\ begins re s2.
Proof.
  unfold begins. simpl. split.
  - intros (s & rest & -> & Hl & He). inversion Hl; subst.
    exists s1, (s2 ++ rest). rewrite (assoc_L (++)). naive_solver.
  - intros (s1 & s2 & -> & Hs & s & rest & -> & Hl & He).
    exists (s1 ++ s), rest. rewrite (assoc_L (++)). split_and!; [done|by constructor|done].
Qed.

(** A piece for one byte takes the first byte of the text. *)
Lemma begins_one c re text :
  (pieces (c :: re)).1 = One c :: (pieces re).1 ->
  (pieces (c :: re)).2 = (pieces re).2 ->
  begins (c :: re) text <->
  exists t text', text = t :: text' /\ stands_for c t /\ begins re text'.
Proof.
  unfold begins. intros -> ->. split.
  - intros (s & rest & -> & Hl & He). inversion Hl; subst. naive_solver.
  - intros (t & text' & -> & Hc & s & rest & -> & Hl & He).
    exists (t :: s), rest. split_and!; [done|by constructor|done].
Qed.

Lemma one_iff c re1 text (P : Prop) :
  (forall t, matchhere re1 t = true <-> begins re1 t) ->
  (P <-> exists t text', text = t :: text' /\ stands_for c t /\ begins re1 text') ->
  (match text with
   | t :: text => ((c =? DOT) || (c =? t)) && matchhere re1 text
   | [] => false
   end = true <-> P).
Proof.
  intros IH ->. destruct text as [|t text].
  - naive_solver.
  - rewrite andb_true_iff, stands_for_iff, IH. naive_solver.
Qed.

Lemma begins_nil t : begins [] t.
Proof. exists [], t. split_and!; [done|constructor|done]. Qed.

Lemma matchhere_single c text : matchhere [c] text = true <-> begins [c] text.
Proof.
  simpl. destruct (c =? DOLLAR) eqn:Hc.
  - unfold begins; simpl. rewrite Hc. simpl. split.
    + destruct text; [|done]. exists [], []. eauto using lang.
    + intros (s & rest & -> & Hl & He). inversion Hl; subst. by rewrite He.
  - apply (one_iff c []).
    + intros t. split; [intros _; apply begins_nil|done].
    + apply begins_one; simpl; by rewrite Hc.
Qed.

Lemma matchhere_pair c s re text :
  (forall t, matchhere re t = true <-> begins re t) ->
  (forall t, matchhere (s :: re) t = true <-> begins (s :: re) t) ->
  matchhere (c :: s :: re) text = true <-> begins (c :: s :: re) text.
Proof.
  intros IH IH1. change (matchhere (c :: s :: re) text) with
    (if s =? STAR then matchstar c (matchhere re) text else
     match text with
     | t :: text => ((c =? DOT) || (c =? t)) && matchhere (s :: re) text
     | [] => false
     end).
  destruct (s =? STAR) eqn:Hs.
  - apply Z.eqb_eq in Hs as ->. rewrite matchstar_iff, begins_star.
    repeat (f_equiv; intros ?). by rewrite IH.
  - apply one_iff; [done|]. apply begins_one; simpl; by rewrite Hs.
Qed.

Lemma matchhere_iff re text : matchhere re text = true <-> begins re text.
Proof.
  cut ((forall t, matchhere re t = true <-> begins re t) /\
       forall c t, matchhere (c :: re) t = true <-> begins (c :: re) t); [naive_solver|].
  clear text. induction re as [|s re [IH IH1]].
  - split; [|apply matchhere_single]. intros t.
    split; [intros _; apply begins_nil|done].
  - split; [apply IH1|]. intros c t. by apply matchhere_pair.
Qed.

Lemma match_from_iff re text :
  match_from re text = true <-> exists pre suf, text = pre ++ suf /\ begins re suf.
Proof.
  induction text as [|t text IH]; simpl; rewrite orb_true_iff, matchhere_iff.
  - split.
    + intros [H|]; [exists [], []|]; done.
    + intros (pre & suf & Happ & H). symmetry in Happ.
      apply app_nil in Happ as [-> ->]. auto.
  - rewrite IH. split.
    + intros [H | (pre & suf & -> & H)]; [by exists [], (t :: text)|].
      by exists (t :: pre), suf.
    + intros ([|x pre] & suf & Happ & H); simplify_eq/=; eauto 6.
Qed.

(** ** Lines *)

Definition no_nul (s : list Z) : Prop := Forall (fun c => c <> 0) s.
Definition no_nl (s : list Z) : Prop := Forall (fun c => c <> NL) s.

Lemma lines_app s t :
  lines (s ++ t) = ((lines s).1 ++ (lines ((lines s).2 ++ t)).1, (lines ((lines s).2 ++ t)).2).
Proof.
  induction s as [|c s IH]; simpl; [by destruct (lines t)|].
  rewrite IH. destruct (lines s) as [[|l ls] rest] eqn:E; simpl;
    destruct (c =? NL) eqn:Hc; simpl; try done.
  rewrite Hc. by destruct (lines (rest ++ t)) as [[|l' ls'] rest'].
Qed.

Lemma lines_line l t : no_nl l -> lines (l ++ NL :: t) = (l :: (lines t).1, (lines t).2).
Proof.
  induction 1 as [|c l Hc _ IH]; simpl; [by destruct (lines t)|].
  rewrite IH. by destruct (Z.eqb_spec c NL).
Qed.

Lemma lines_none l : no_nl l -> lines l = ([], l).
Proof.
  induction 1 as [|c l Hc _ IH]; simpl; [done|].
  rewrite IH. by destruct (Z.eqb_spec c NL).
Qed.

(** The text splits at its first newline. *)
Lemma first_line s : no_nl s \/ exists l t, s = l ++ NL :: t /\ no_nl l.
Proof.
  induction s as [|c s [IH | (l & t & -> & IH)]]; [left; constructor|..];
    destruct (decide (c = NL)) as [->|Hc].
  - right. exists [], s. split; [done|constructor].
  - left. by constructor.
  - right. exists [], (l ++ NL :: t). split; [done|constructor].
  - right. exists (c :: l), t. split; [done|by constructor].
Qed.

Lemma strchr_none s rest p : no_nul s -> no_nl s -> strchr (s ++ 0 :: rest) NL p = None.
Proof.
  intros Hn. revert p. induction Hn as [|c s Hc _ IH]; intros p Hl; [done|].
  inversion Hl; subst. simpl. rewrite IH by done.
  by destruct (Z.eqb_spec c 0), (Z.eqb_spec c NL).
Qed.

Lemma strchr_line l t p :
  no_nul l -> no_nl l -> strchr (l ++ NL :: t) NL p = Some (p + length l)%nat.
Proof.
  intros Hn. revert p. induction Hn as [|c l Hc _ IH]; intros p Hl; simpl; [f_equal; lia|].
  inversion Hl; subst. rewrite IH by done.
  destruct (Z.eqb_spec c 0), (Z.eqb_spec c NL); try done. f_equal. lia.
Qed.

(** A buffer known up to the end of a line, changed at its newline. *)
Lemma insert_at (pre l : list Z) c t x :
  <[(length pre + length l)%nat := x]> (pre ++ l ++ c :: t) = pre ++ l ++ x :: t.
Proof.
  rewrite insert_app_r_alt by lia.
  replace (length pre + length l - length pre)%nat with (length l + 0)%nat by lia.
  by rewrite insert_app_r.
Qed.

Lemma selected_cons pattern l ls :
  selected pattern (l :: ls) =
  (if match_ pattern l then l ++ [NL] else []) ++ selected pattern ls.
Proof. done. Qed.

Lemma selected_app pattern l1 l2 :
  selected pattern (l1 ++ l2) = selected pattern l1 ++ selected pattern l2.
Proof. unfold selected. by rewrite fmap_app, concat_app. Qed.

(** ** The loops *)

Lemma grep_lines_runs pattern k pre s rest out :
  no_nul s -> (length s < k)%nat ->
  exists pre', grep_lines k pattern (pre ++ s ++ 0 :: rest) (length pre) out =
      (pre' ++ (lines s).2 ++ 0 :: rest, length pre', out ++ selected pattern (lines s).1) /\
    (length pre' + length (lines s).2 = length pre + length s)%nat.
Proof.
  revert pre s out. induction k as [|k IH]; intros pre s out Hn Hk; [lia|].
  simpl. rewrite drop_app_length.
  destruct (first_line s) as [Hl | (l & t & -> & Hl)].
  { exists pre. rewrite strchr_none, lines_none by done. simpl.
    rewrite app_nil_r. done. }
  apply Forall_app in Hn as [Hnl [_ Hnt]%Forall_cons_1].
  rewrite <- (assoc_L (++) l), <- app_comm_cons, strchr_line by done.
  rewrite insert_at, drop_app_length, cstring_upto, lines_line by done.
  cbn [fst snd]. rewrite selected_cons. rewrite length_app in Hk; simpl in Hk.
  destruct (match_ pattern l) eqn:Hm.
  - rewrite insert_at, drop_app_length.
    destruct (IH (pre ++ l ++ [NL]) t (out ++ (l ++ [NL]))) as (pre' & E & Hlen); [done|lia|].
    exists pre'. rewrite !length_app in Hlen. rewrite !length_app. simpl in *.
    split; [|lia]. rewrite (assoc_L (++) out), <- E.
    f_equal; [by rewrite <- !(assoc_L (++))|rewrite !length_app; simpl; lia|].
    f_equal. replace (_ - _)%nat with (length l + 1)%nat by lia.
    rewrite take_app_add. done.
  - destruct (IH (pre ++ l ++ [0]) t out) as (pre' & E & Hlen); [done|lia|].
    exists pre'. rewrite !length_app in Hlen. rewrite !length_app. simpl in *.
    split; [|lia]. rewrite <- E.
    f_equal; [by rewrite <- !(assoc_L (++))|rewrite !length_app; simpl; lia].
Qed.

(** Every line fits the buffer with its newline and the NUL. *)
Definition short (s : list Z) : Prop :=
  Forall (fun l => (length l + 2 <= BUFSIZE)%nat) ((lines s).1 ++ [(lines s).2]).

Lemma short_rest s t : short (s ++ t) -> short ((lines s).2 ++ t).
Proof.
  unfold short. rewrite lines_app. simpl. rewrite <- (assoc_L (++)).
  by intros [_ ?]%Forall_app.
Qed.

Lemma short_pending p t : no_nl p -> short (p ++ t) -> (length p + 2 <= BUFSIZE)%nat.
Proof.
  unfold short. intros Hp. rewrite lines_app, (lines_none p) by done. simpl.
  destruct (first_line t) as [Ht | (l & t' & -> & Hl)].
  - rewrite lines_none by (by apply Forall_app). simpl.
    intros [Hs _]%Forall_cons_1. cbv beta in Hs. rewrite length_app in Hs. lia.
  - rewrite (assoc_L (++)), lines_line by (by apply Forall_app). simpl.
    intros [Hs _]%Forall_cons_1. cbv beta in Hs. rewrite length_app in Hs. lia.
Qed.

Lemma lines_rest_no_nl s : no_nl (lines s).2.
Proof.
  induction s as [|c s IH]; simpl; [constructor|].
  destruct (lines s) as [[|l ls] rest], (Z.eqb_spec c NL); simpl in *; try done.
  by constructor.
Qed.

Lemma lines_rest_no_nul s : no_nul s -> no_nul (lines s).2.
Proof.
  induction 1 as [|c s Hc _ IH]; simpl; [constructor|].
  destruct (lines s) as [[|l ls] rest], (Z.eqb_spec c NL); simpl in *; try done.
  by constructor.
Qed.

Section Reading.
Context {R : Type} {read : R -> nat -> list Z * R} {content : R -> list Z}
  `{!Reader read content}.

(** One round: the bytes read join the pending line, and what is left of them
    is the new pending line. *)
Lemma grep_loop_step fuel pattern pend tail fd out :
  length (pend ++ tail) = BUFSIZE -> no_nul (pend ++ (read fd (BUFSIZE - length pend - 1)).1) ->
  (length pend + 2 <= BUFSIZE)%nat -> (read fd (BUFSIZE - length pend - 1)).1 <> [] ->
  let s := pend ++ (read fd (BUFSIZE - length pend - 1)).1 in
  exists tail', length ((lines s).2 ++ tail') = BUFSIZE /\
    grep_loop read (S fuel) pattern (length pend) (pend ++ tail) fd out =
    grep_loop read fuel pattern (length (lines s).2) ((lines s).2 ++ tail')
      (read fd (BUFSIZE - length pend - 1)).2 (out ++ selected pattern (lines s).1).
Proof.
  intros Hlen Hn Hp Hne. pose proof (read_le fd (BUFSIZE - length pend - 1)) as Hle.
  cbn [grep_loop]. destruct (read fd (BUFSIZE - length pend - 1)) as [bs fd'].
  cbn [fst snd] in *. destruct bs as [|b bs'] eqn:Hbs; [done|].
  rewrite <- Hbs in *. clear Hne. set (s := pend ++ bs) in *.
  rewrite length_app in Hlen.
  destruct (drop (length bs) tail) as [|x rest] eqn:Hrest.
  { apply (f_equal length) in Hrest. rewrite length_drop in Hrest. simpl in Hrest. lia. }
  unfold overwrite at 1. rewrite take_app_length, <- drop_drop, drop_app_length, Hrest.
  rewrite insert_at.
  destruct (grep_lines_runs pattern BUFSIZE [] s rest out) as (pre & E & Hpre).
  { done. }
  { unfold s. rewrite length_app. lia. }
  unfold s in E at 1. cbn [app length] in E. rewrite <- (assoc_L (++)) in E. rewrite E. clear E.
  assert (Hs : length s = (length pend + length bs)%nat) by (unfold s; apply length_app).
  destruct (Nat.ltb_spec 0 (length pend + length bs)); [|subst bs; simpl in *; lia].
  rewrite drop_app_length. cbn [length] in Hpre.
  replace (length pend + length bs - length pre)%nat with (length (lines s).2) by lia.
  rewrite take_app_length. unfold overwrite. cbn [take app Nat.add].
  eexists. split; [|done].
  rewrite length_app, length_drop, !length_app. simpl.
  apply (f_equal length) in Hrest. rewrite length_drop in Hrest. simpl in Hrest. lia.
Qed.

Lemma grep_loop_runs fuel pattern pend tail fd out :
  length (pend ++ tail) = BUFSIZE -> no_nl pend ->
  no_nul (pend ++ content fd) -> short (pend ++ content fd) ->
  (length (content fd) < fuel)%nat ->
  grep_loop read fuel pattern (length pend) (pend ++ tail) fd out =
  Some (out ++ selected pattern (lines (pend ++ content fd)).1).
Proof.
  revert pend tail fd out. induction fuel as [|fuel IH];
    intros pend tail fd out Hlen Hnl Hn Hs Hf; [lia|].
  pose proof (short_pending _ _ Hnl Hs) as Hp.
  pose proof (read_content fd (BUFSIZE - length pend - 1)) as Hc.
  destruct (decide ((read fd (BUFSIZE - length pend - 1)).1 = [])) as [Hnil|Hne].
  - assert (content fd = []) as -> by (eapply read_progress; [|done]; lia).
    cbn [grep_loop]. destruct (read _ _) as [bs fd'] eqn:E. simpl in Hnil. subst bs.
    rewrite app_nil_r, lines_none by done. simpl. by rewrite app_nil_r.
  - rewrite Hc, (assoc_L (++)) in Hn, Hs. rewrite Hc, (assoc_L (++)), lines_app. cbn [fst snd].
    apply Forall_app in Hn as [Hn1 Hn2].
    edestruct (grep_loop_step fuel pattern pend tail fd out)
      as (tail' & Hlen' & ->); try done.
    rewrite IH; try done.
    + by rewrite selected_app, (assoc_L (++)).
    + apply lines_rest_no_nl.
    + apply Forall_app. split; [by apply lines_rest_no_nul|done].
    + by apply short_rest.
    + rewrite Hc, length_app in Hf. destruct (read _ _).1; [done|]. simpl in Hf. lia.
Qed.
End Reading.

(** ** Theorems *)

(** C39. [match] returns 1 exactly on the texts in which a string of the
    pattern's language occurs: anywhere, or at the start after [^], and up to
    the end before a final [$]. *)
Theorem match_decides re text : match_ re text = true <-> searches re text.
Proof.
  unfold match_, searches. destruct re as [|c re].
  - split; [done|]. intros _. by destruct text.
  - destruct (c =? CARET); [apply matchhere_iff|apply match_from_iff].
Qed.

(** C38. For input without NUL bytes whose lines, and the rest after the last newline,
    have at most 1022 bytes, [grep] stops and has printed exactly the lines ended
    by a newline that match the pattern, in order, however [read] cuts the input
    into pieces.  The rest after the last newline is never printed. *)
Theorem grep_filters_lines {R} (read : R -> nat -> list Z * R) (content : R -> list Z)
    `{!Reader read content} (pattern : list Z) (fd : R) (fuel : nat) :
  no_nul (content fd) -> short (content fd) -> (length (content fd) < fuel)%nat ->
  grep read fuel pattern fd =
  Some (concat ((fun l => l ++ [NL]) <$>
    filter (fun l => match_ pattern l = true) (lines (content fd)).1)).
Proof.
  intros Hn Hs Hf. unfold grep.
  pose proof (grep_loop_runs (read := read) fuel pattern [] (replicate BUFSIZE 0) fd []) as E.
  cbn [app length] in E. rewrite E; try done.
  2: { constructor. }
  f_equal. clear. induction (lines (content fd)).1 as [|l ls IH]; [done|].
  rewrite selected_cons, filter_cons. case_decide as Hm.
  - rewrite Hm, IH. done.
  - rewrite IH. by destruct (match_ pattern l).
Qed.

(** A file read in pieces of at most three bytes. *)
Definition read3 (r : list Z) (n : nat) : list Z * list Z :=
  (take (n `min` 3) r, drop (n `min` 3) r).

#[export] Instance read3_reader : Reader read3 (fun r => r).
Proof.
  split.
  - intros r n. simpl. rewrite length_take. lia.
  - intros r n. simpl. by rewrite take_drop.
  - intros r n Hn. simpl. destruct r; [done|].
    destruct n; [lia|]. by destruct n.
Qed.

(** Outside these conditions matching lines are lost: the last line when it has no
    newline, and everything from a line of 1023 bytes on, which fills the buffer. *)
Lemma grep_loses_lines :
  grep read3 20 [97] [98; 10; 97] = Some [] /\
  grep read3 400 [98] (replicate 1023 97 ++ [10; 98; 10]) = Some [].
Proof. split; vm_compute; reflexivity. Qed.

(** [grep 'a.*z$'] on three lines and an unfinished one. *)
Lemma grep_filters_lines_witness :
  grep read3 20 [97; 46; 42; 122; 36] [97; 98; 122; 10; 97; 122; 98; 10; 10; 97; 122] =
  Some [97; 98; 122; 10].
Proof.
  rewrite (grep_filters_lines read3 (fun r => r)).
  - vm_compute. reflexivity.
  - repeat constructor; lia.
  - unfold short. apply (bool_decide_unpack _). vm_compute. exact I.
  - simpl. lia.
Defined.
End Grep.
