(* ===== verification/ShParse.v ===== *)
(** The command line parser of [user/sh.c].

    The parser walks a NUL-terminated buffer with a pointer [s] up to its end
    [es]; both are indices here.  Commands are structures on the heap, so the
    heap is a list of nodes and a command pointer an index into it:
    [parseexec] goes on storing arguments into its command after
    [parseredirs] has wrapped it, which only a heap shows.  The words of a
    command are the indices of their first byte and of the byte after the
    last, until [nulterminate] writes a NUL there.

    [panic] leaves the parser with [Exit].  The mutually recursive functions
    and the loops take fuel, one unit for each call and each iteration;
    running out of it is the outcome [NoFuel].  [malloc] is taken to succeed,
    as the source does not test its result. *)

From S2P Require Import Prelude Fcntl.

Module Sh.

Definition MAXARGS : nat := 10.

Inductive node : Type :=
| EXEC (argv eargv : list nat)
| REDIR (cmd file efile : nat) (mode fd : Z)
| PIPE (left right : nat)
| LIST (left right : nat)
| BACK (cmd : nat).

Record pstate : Type := PState { ps : nat; heap : list node }.

Inductive out (A : Type) : Type :=
| Ret (a : A) (st : pstate)
| Exit (msg : string)
| NoFuel.
Arguments Ret {A} a st.
Arguments Exit {A} msg.
Arguments NoFuel {A}.

Definition P (A : Type) : Type := pstate -> out A.

Definition ret {A} (a : A) : P A := fun st => Ret a st.

Definition bind {A B} (m : P A) (k : A -> P B) : P B := fun st =>
  match m st with
  | Ret a st => k a st
  | Exit msg => Exit msg
  | NoFuel => NoFuel
  end.

Definition panic {A} (msg : string) : P A := fun _ => Exit msg.

Declare Scope sh_scope.
Delimit Scope sh_scope with sh.
Notation "'let*' x := m 'in' k" := (bind m (fun x => k))
  (at level 200, x pattern, m at level 100, k at level 200) : sh_scope.
Open Scope sh_scope.

(** ** Constructors *)

Definition malloc (n : node) : P nat := fun st =>
  Ret (length (heap st)) (PState (ps st) (heap st ++ [n])).

Definition execcmd : P nat := malloc (EXEC [] []).
Definition redircmd (subcmd file efile : nat) (mode fd : Z) : P nat :=
  malloc (REDIR subcmd file efile mode fd).
Definition pipecmd (left right : nat) : P nat := malloc (PIPE left right).
Definition listcmd (left right : nat) : P nat := malloc (LIST left right).
Definition backcmd (subcmd : nat) : P nat := malloc (BACK subcmd).

(** [cmd->argv[argc] = q; cmd->eargv[argc] = eq;], where [argc] is the number
    of arguments stored before. *)
Definition add_arg (cmd q eq : nat) : P unit := fun st =>
  match heap st !! cmd with
  | Some (EXEC argv eargv) =>
      Ret tt (PState (ps st) (<[cmd := EXEC (argv ++ [q]) (eargv ++ [eq])]> (heap st)))
  | _ => Exit "not an execcmd"
  end.

(** ** Tokens *)

Definition whitespace : list Z := [32; 9; 13; 10; 11].
Definition symbols : list Z := [60; 124; 62; 38; 59; 40; 41].

(** [strchr(s, c)] as a test. *)
Definition strchr (s : list Z) (c : Z) : bool := bool_decide (c ∈ s).

Definition PIPE_ : Z := 124.
Definition LPAREN : Z := 40.
Definition RPAREN : Z := 41.
Definition SEMI : Z := 59.
Definition AMP : Z := 38.
Definition LT : Z := 60.
Definition GT : Z := 62.
Definition PLUS : Z := 43.
Definition WORD : Z := 97.

Section Parser.
Context (buf : list Z) (es : nat).

(** [*s] *)
Definition char_at (s : nat) : Z := nth s buf 0.

Fixpoint skip (k : nat) (p : Z -> bool) (s : nat) : nat :=
  match k with
  | O => s
  | S k => if p (char_at s) then skip k p (S s) else s
  end.

(** [while(s < es && p( *s)) s++;] *)
Definition skip_while (p : Z -> bool) (s : nat) : nat := skip (es - s) p s.

Definition is_space (c : Z) : bool := strchr whitespace c.
Definition is_word (c : Z) : bool := negb (strchr whitespace c) && negb (strchr symbols c).

(** The kind of token at [s] and where it ends. *)
Definition token_at (s : nat) : Z * nat :=
  let c := char_at s in
  if c =? 0 then (0, s)
  else if strchr [PIPE_; LPAREN; RPAREN; SEMI; AMP; LT] c then (c, S s)
  else if c =? GT then if char_at (S s) =? GT then (PLUS, S (S s)) else (c, S s)
  else (WORD, skip_while is_word s).

(** The kind of the token, and its first and last position. *)
Definition gettoken : P (Z * nat * nat) := fun st =>
  let q := skip_while is_space (ps st) in
  let (r, eq) := token_at q in
  Ret (r, q, eq) (PState (skip_while is_space eq) (heap st)).

Definition peek (toks : list Z) : P bool := fun st =>
  let s := skip_while is_space (ps st) in
  Ret (negb (char_at s =? 0) && strchr toks (char_at s)) (PState s (heap st)).

(** ** The parser *)

Fixpoint parseredirs (n : nat) (cmd : nat) : P nat :=
  match n with
  | O => fun _ => NoFuel
  | S n =>
      let* b := peek [LT; GT] in
      if b then
        let* (tok, _, _) := gettoken in
        let* (r, q, eq) := gettoken in
        if negb (r =? WORD) then panic "missing file for redirection"
        else
          let* cmd :=
            if tok =? LT then redircmd cmd q eq O_RDONLY 0
            else if tok =? GT
            then redircmd cmd q eq (Z.lor (Z.lor O_WRONLY O_CREATE) O_TRUNC) 1
            else if tok =? PLUS then redircmd cmd q eq (Z.lor O_WRONLY O_CREATE) 1
            else ret cmd in
          parseredirs n cmd
      else ret cmd
  end.

(** The argument loop of [parseexec]. *)
Fixpoint parseargs (n : nat) (cmd r argc : nat) : P nat :=
  match n with
  | O => fun _ => NoFuel
  | S n =>
      let* b := peek [PIPE_; RPAREN; AMP; SEMI] in
      if b then ret r
      else
        let* (tok, q, eq) := gettoken in
        if tok =? 0 then ret r
        else if negb (tok =? WORD) then panic "syntax"
        else
          let* _ := add_arg cmd q eq in
          if (MAXARGS <=? S argc)%nat then panic "too many args"
          else
            let* r := parseredirs n r in
            parseargs n cmd r (S argc)
  end.

(** The [while(peek(ps, es, "&"))] of [parseline]. *)
Fixpoint parseback (n : nat) (cmd : nat) : P nat :=
  match n with
  | O => fun _ => NoFuel
  | S n =>
      let* b := peek [AMP] in
      if b then
        let* _ := gettoken in
        let* cmd := backcmd cmd in
        parseback n cmd
      else ret cmd
  end.

Fixpoint parseline (n : nat) : P nat :=
  match n with
  | O => fun _ => NoFuel
  | S n =>
      let* cmd := parsepipe n in
      let* cmd := parseback n cmd in
      let* b := peek [SEMI] in
      if b then
        let* _ := gettoken in
        let* r := parseline n in
        listcmd cmd r
      else ret cmd
  end

with parsepipe (n : nat) : P nat :=
  match n with
  | O => fun _ => NoFuel
  | S n =>
      let* cmd := parseexec n in
      let* b := peek [PIPE_] in
      if b then
        let* _ := gettoken in
        let* r := parsepipe n in
        pipecmd cmd r
      else ret cmd
  end

with parseblock (n : nat) : P nat :=
  match n with
  | O => fun _ => NoFuel
  | S n =>
      let* b := peek [LPAREN] in
      if negb b then panic "parseblock"
      else
        let* _ := gettoken in
        let* cmd := parseline n in
        let* b := peek [RPAREN] in
        if negb b then panic "syntax - missing )"
        else
          let* _ := gettoken in
          parseredirs n cmd
  end

with parseexec (n : nat) : P nat :=
  match n with
  | O => fun _ => NoFuel
  | S n =>
      let* b := peek [LPAREN] in
      if b then parseblock n
      else
        let* cmd := execcmd in
        let* r := parseredirs n cmd in
        parseargs n cmd r 0
  end.
End Parser.

(** ** NUL-termination *)

(** The tree hangs together through indices into the heap, so the recursion
    takes fuel as well. *)
Fixpoint nulterminate (n : nat) (h : list node) (cmd : nat) (buf : list Z) : option (list Z) :=
  match n with
  | O => None
  | S n =>
      match h !! cmd with
      | None => None
      | Some (EXEC argv eargv) => Some (foldl (fun buf e => <[e := 0]> buf) buf eargv)
      | Some (REDIR c file efile mode fd) =>
          buf ← nulterminate n h c buf; Some (<[efile := 0]> buf)
      | Some (PIPE l r) | Some (LIST l r) =>
          buf ← nulterminate n h l buf; nulterminate n h r buf
      | Some (BACK c) => nulterminate n h c buf
      end
  end.

(** [strlen(s)] of the buffer. *)
Fixpoint strlen (buf : list Z) : nat :=
  match buf with
  | [] => O
  | c :: buf => if c =? 0 then O else S (strlen buf)
  end.

(** The result of [parsecmd]: the command, the heap and the buffer. *)
Inductive parsed : Type :=
| Parsed (cmd : nat) (h : list node) (buf : list Z)
| Failed (msg : string)
| OutOfFuel.

Definition parsecmd (n : nat) (buf : list Z) : parsed :=
  let es := strlen buf in
  match (let* cmd := parseline buf es n in
         let* _ := peek buf es [] in
         fun st => if negb (ps st =? es)%nat then Exit "syntax" else Ret cmd st)
        (PState 0 []) with
  | Ret cmd st =>
      match nulterminate (S (length (heap st))) (heap st) cmd buf with
      | Some buf => Parsed cmd (heap st) buf
      | None => OutOfFuel
      end
  | Exit msg => Failed msg
  | NoFuel => OutOfFuel
  end.
End Sh.
