(* ===== verification/ShLex.v ===== *)
(** Tokens of a command line, and that [peek] and [gettoken] read them.

    A line spells a list of tokens when it consists of their texts with any
    white space between them, words being maximal and [>>] read as one token.
    Every line spells some list; on a line that spells one, [peek] looks at
    its head and [gettoken] removes it. *)

From S2P Require Import Prelude ShParse.

Module Lex.
Import Sh.

Inductive tok : Type :=
| TWord (w : list Z)
| TSym (c : Z)
| TGt
| TAppend.

Definition text (t : tok) : list Z :=
  match t with
  | TWord w => w
  | TSym c => [c]
  | TGt => [GT]
  | TAppend => [GT; GT]
  end.

(** What [gettoken] returns for a token. *)
Definition code (t : tok) : Z :=
  match t with
  | TWord _ => WORD
  | TSym c => c
  | TGt => GT
  | TAppend => PLUS
  end.

Definition simple : list Z := [PIPE_; LPAREN; RPAREN; SEMI; AMP; LT].

Definition is_tok (t : tok) : Prop :=
  match t with
  | TWord w => w <> [] /\ Forall (fun c => is_word c = true /\ c <> 0) w
  | TSym c => c ∈ simple
  | TGt | TAppend => True
  end.

(** [rest] does not continue the token. *)
Definition ends (t : tok) (rest : list Z) : Prop :=
  match t, rest with
  | TWord _, c :: _ => is_word c = false
  | TGt, c :: _ => c <> GT
  | _, _ => True
  end.

Definition spaces (w : list Z) : Prop := Forall (fun c => is_space c = true) w.

Inductive spells : list tok -> list Z -> Prop :=
| spells_nil w : spaces w -> spells [] w
| spells_cons w t toks rest :
    spaces w -> is_tok t -> ends t rest -> spells toks rest ->
    spells (t :: toks) (w ++ text t ++ rest).

(** The answer of [peek] for a set of symbols. *)
Definition peeks (set : list Z) (toks : list tok) : bool :=
  match toks with
  | TSym c :: _ => bool_decide (c ∈ set)
  | (TGt | TAppend) :: _ => bool_decide (GT ∈ set)
  | _ => false
  end.

(** ** Lines in a buffer *)

Lemma strlen_app l junk : Forall (fun c => c <> 0) l -> strlen (l ++ 0 :: junk) = length l.
Proof.
  induction 1 as [|c l Hc _ IH]; simpl; [done|].
  rewrite IH. by destruct (Z.eqb_spec c 0).
Qed.

Section Line.
Context (line junk : list Z).
Hypothesis line_ok : Forall (fun c => c <> 0) line.

Let buf : list Z := line ++ 0 :: junk.
Let es : nat := length line.

(** The parser stands before the tokens [toks]. *)
Definition before (s : nat) (toks : list tok) : Prop :=
  (s <= es)%nat /\ spells toks (drop s line).

(** The bytes from [q] up to [eq] are the word [w], which no byte continues. *)
Definition slice (q eq : nat) (w : list Z) : Prop :=
  (eq <= es)%nat /\ w <> [] /\ Forall (fun c => is_word c = true /\ c <> 0) w /\
  drop q line = w ++ drop eq line /\ eq = (q + length w)%nat /\
  ends (TWord w) (drop eq line).

Lemma char_at_drop s c l : drop s line = c :: l -> char_at buf s = c.
Proof.
  intros H. unfold char_at, buf. rewrite <- (take_drop s line), H, app_nth1.
  - rewrite app_nth2; rewrite length_take; [|lia].
    apply (f_equal length) in H. rewrite length_drop in H. simpl in H.
    by replace (s - _)%nat with O by lia.
  - apply (f_equal length) in H. rewrite length_drop in H. simpl in H.
    rewrite length_app, length_take. simpl. lia.
Qed.

Lemma char_at_end s : drop s line = [] -> (s <= es)%nat -> char_at buf s = 0.
Proof.
  intros H Hs. unfold char_at, buf.
  apply (f_equal length) in H. rewrite length_drop in H. simpl in H.
  rewrite app_nth2 by lia. fold es in H. unfold es in *.
  by replace (s - _)%nat with O by lia.
Qed.

Lemma drop_plus (s : nat) (w rest : list Z) :
  drop s line = w ++ rest -> drop (s + length w) line = rest.
Proof. intros H. by rewrite <- drop_drop, H, drop_app_length. Qed.

Lemma drop_bound (s : nat) (w rest : list Z) :
  (s <= es)%nat -> drop s line = w ++ rest -> (s + length w <= es)%nat.
Proof.
  intros Hs H. apply (f_equal length) in H. rewrite length_drop, length_app in H.
  unfold es in *. lia.
Qed.

(** The loops over a class of characters stop at the first byte outside. *)
Lemma skip_while_runs p s w rest :
  (s <= es)%nat -> drop s line = w ++ rest -> Forall (fun c => p c = true) w ->
  match rest with [] => True | c :: _ => p c = false end ->
  skip_while buf es p s = (s + length w)%nat.
Proof.
  intros Hs Hd Hw Hr. unfold skip_while.
  assert (Hk : (length w <= es - s)%nat) by (pose proof (drop_bound s w rest Hs Hd); lia).
  remember (es - s)%nat as k eqn:Ek. clear Hs.
  assert (Hend : rest = [] -> k = length w).
  { intros ->. apply (f_equal length) in Hd.
    rewrite length_drop, app_nil_r in Hd. unfold es in *. lia. }
  clear Ek. revert s k Hd Hk Hend. induction Hw as [|c w Hc _ IH]; intros s k Hd Hk Hend.
  - simpl in *. rewrite Nat.add_0_r. destruct k as [|k]; [done|]. simpl.
    destruct rest as [|c rest]; [by specialize (Hend eq_refl)|].
    by rewrite (char_at_drop s c rest), Hr.
  - simpl in *. destruct k as [|k]; [lia|]. simpl.
    rewrite (char_at_drop s c (w ++ rest)), Hc by done.
    rewrite IH; [lia| |lia|intros Hn; specialize (Hend Hn); lia].
    rewrite <- (drop_plus s [c] (w ++ rest)) by done. f_equal. simpl. lia.
Qed.

(** ** Reading tokens *)

Lemma text_head t :
  is_tok t -> exists c l, text t = c :: l /\ is_space c = false /\ c <> 0.
Proof.
  destruct t as [w|c| |]; simpl; intros Ht.
  - destruct Ht as [Hne Hw]. destruct w as [|c w]; [done|].
    apply Forall_cons_1 in Hw as [[Hc Hz] _]. exists c, w. split_and!; try done.
    unfold is_word in Hc. unfold is_space. by destruct (strchr whitespace c).
  - exists c, []. unfold simple in Ht. set_unfold in Ht.
    by destruct_or! Ht; subst.
  - by eexists _, _.
  - by eexists _, _.
Qed.

(** Skipping white space leads to the end of the line or to the text of the
    next token. *)
Definition stands_at (q : nat) (toks : list tok) : Prop :=
  (q <= es)%nat /\
  match toks with
  | [] => drop q line = []
  | t :: toks' => exists rest, drop q line = text t ++ rest /\ is_tok t /\ ends t rest /\
      spells toks' rest
  end.

Lemma skip_space s toks : before s toks -> stands_at (skip_while buf es is_space s) toks.
Proof.
  intros [Hs Hsp]. remember (drop s line) as l eqn:El.
  destruct Hsp as [w Hw | w t toks rest Hw Ht He Hsp].
  - rewrite (skip_while_runs is_space s w []); try done.
    2: { by rewrite app_nil_r. }
    split; [apply (drop_bound s w [])|apply (drop_plus s w [])]; try done; by rewrite app_nil_r.
  - destruct (text_head t Ht) as (c & l & Htext & Hc & Hz).
    rewrite (skip_while_runs is_space s w (text t ++ rest)); try done.
    2: { by rewrite Htext. }
    split; [by apply (drop_bound s w (text t ++ rest))|].
    exists rest. split_and!; try done. by apply drop_plus.
Qed.

Lemma stands_before q toks : stands_at q toks -> before q toks.
Proof.
  intros [Hq H]. split; [done|]. destruct toks as [|t toks].
  - rewrite H. by apply spells_nil, Forall_nil.
  - destruct H as (rest & -> & Ht & He & Hsp).
    by apply (spells_cons [] t toks rest); [apply Forall_nil|..].
Qed.

Lemma stands_char q t toks :
  stands_at q (t :: toks) -> exists c l, text t = c :: l /\ char_at buf q = c /\ c <> 0.
Proof.
  intros (Hq & rest & Hd & Ht & _).
  destruct (text_head t Ht) as (c & l & Htext & _ & Hz). exists c, l.
  split_and!; try done. rewrite Htext in Hd. by apply (char_at_drop q c (l ++ rest)).
Qed.

Lemma word_not_symbol c : is_word c = true -> (c ∉ symbols) /\ (c ∉ whitespace).
Proof.
  unfold is_word, strchr. rewrite andb_true_iff, !negb_true_iff, !bool_decide_eq_false. naive_solver.
Qed.

Lemma peek_runs set st toks :
  before (ps st) toks -> set ⊆ symbols ->
  exists s, peek buf es set st = Ret (peeks set toks) (PState s (heap st)) /\ before s toks.
Proof.
  intros Hb Hset. pose proof (skip_space _ _ Hb) as Hq.
  exists (skip_while buf es is_space (ps st)). split; [|by apply stands_before].
  unfold peek. f_equal. destruct toks as [|t toks].
  - destruct Hq as [Hq Hd]. by rewrite (char_at_end _ Hd).
  - destruct (stands_char _ _ _ Hq) as (c & l & Htext & -> & Hz).
    apply Z.eqb_neq in Hz. rewrite Hz. simpl. unfold strchr.
    destruct t as [w|c'| |]; simpl in *; simplify_eq; try done.
    destruct Hq as (_ & _ & _ & [_ Hw] & _). apply Forall_cons_1 in Hw as [[Hw _] _].
    apply word_not_symbol in Hw as [Hw _]. apply bool_decide_eq_false. set_solver.
Qed.

Lemma token_at_runs q t toks :
  stands_at q (t :: toks) -> token_at buf es q = (code t, (q + length (text t))%nat).
Proof.
  intros Hq. destruct (stands_char _ _ _ Hq) as (c & l & Htext & Hc & Hz).
  unfold token_at. rewrite Hc. apply Z.eqb_neq in Hz as ->.
  destruct Hq as (Hq & rest & Hd & Ht & He & _). destruct t as [w|c'| |]; simpl in *.
  - subst w. destruct Ht as [_ Hw]. pose proof Hw as Hw'. apply Forall_cons_1 in Hw as [[Hw _] _].
    apply word_not_symbol in Hw as [Hw _]. unfold strchr.
    rewrite bool_decide_eq_false_2 by (unfold symbols, PIPE_, LPAREN, RPAREN, SEMI, AMP, LT in *; set_solver).
    destruct (Z.eqb_spec c GT) as [->|_]; [unfold symbols, GT in *; set_solver|].
    f_equal. apply (skip_while_runs is_word q (c :: l) rest); try done.
    revert Hw'. apply Forall_impl. by intros ? [].
  - simplify_eq. unfold strchr. rewrite bool_decide_eq_true_2 by done. f_equal. lia.
  - injection Htext as <- <-. change (strchr [PIPE_; LPAREN; RPAREN; SEMI; AMP; LT] GT) with false.
    rewrite Z.eqb_refl.
    assert (Hd' : drop (S q) line = rest).
    { replace (S q) with (q + length [GT])%nat by (simpl; lia). by apply drop_plus. }
    destruct (Z.eqb_spec (char_at buf (S q)) GT) as [Hg|_]; [|simpl; f_equal; lia].
    destruct rest as [|c rest].
    + rewrite char_at_end in Hg; try done. apply (drop_bound q [GT] []) in Hd; simpl in *; lia.
    + by rewrite (char_at_drop _ _ _ Hd') in Hg.
  - injection Htext as <- <-. change (strchr [PIPE_; LPAREN; RPAREN; SEMI; AMP; LT] GT) with false.
    rewrite Z.eqb_refl.
    rewrite (char_at_drop (S q) GT rest); [simpl; f_equal; lia|].
    replace (S q) with (q + length [GT])%nat by (simpl; lia). by apply drop_plus.
Qed.

Lemma gettoken_end st :
  before (ps st) [] ->
  exists s, gettoken buf es st = Ret (0, s, s) (PState s (heap st)) /\ before s [].
Proof.
  intros Hb. pose proof (skip_space _ _ Hb) as Hq. unfold gettoken.
  set (q := skip_while buf es is_space (ps st)) in *. exists q.
  split; [|by apply stands_before]. destruct Hq as [Hq Hd].
  unfold token_at. rewrite (char_at_end _ Hd) by done. simpl. do 2 f_equal.
  by rewrite (skip_while_runs is_space q [] []).
Qed.

Lemma gettoken_runs st t toks :
  before (ps st) (t :: toks) ->
  exists q eq s, gettoken buf es st = Ret (code t, q, eq) (PState s (heap st)) /\
    before s toks /\ match t with TWord w => slice q eq w | _ => True end.
Proof.
  intros Hb. pose proof (skip_space _ _ Hb) as Hq. unfold gettoken.
  set (q := skip_while buf es is_space (ps st)) in *.
  rewrite (token_at_runs q t toks Hq).
  destruct Hq as (Hq & rest & Hd & Ht & He & Hsp).
  pose proof (drop_plus _ _ _ Hd) as Hd'. pose proof (drop_bound _ _ _ Hq Hd) as Hle.
  eexists q, _, _. split_and!; [done| |].
  - apply stands_before, skip_space. split; [done|]. by rewrite Hd'.
  - destruct t as [w|c| |]; try done. simpl in *. destruct Ht as [Hne Hw].
    split_and!; try done; by rewrite Hd'.
Qed.
End Line.

(** ** Every line spells some tokens *)

Lemma span (p : Z -> bool) l :
  exists w rest, l = w ++ rest /\ Forall (fun c => p c = true) w /\
    match rest with [] => True | c :: _ => p c = false end.
Proof.
  induction l as [|c l (w & rest & -> & Hw & Hr)]; [by exists [], []|].
  destruct (p c) eqn:Hc.
  - exists (c :: w), rest. auto.
  - by exists [], (c :: w ++ rest).
Qed.

(** The first token of a line that does not begin with white space. *)
Lemma first_token c l :
  Forall (fun c => c <> 0) (c :: l) -> is_space c = false ->
  exists t rest, c :: l = text t ++ rest /\ is_tok t /\ ends t rest.
Proof.
  intros Hnz Hsp. destruct (decide (c ∈ simple)) as [Hs|Hs].
  { by exists (TSym c), l. }
  destruct (decide (c = GT)) as [->|Hg].
  { destruct l as [|c l]; [by exists TGt, []|].
    destruct (decide (c = GT)) as [->|Hg]; [by exists TAppend, l|by exists TGt, (c :: l)]. }
  destruct (span is_word (c :: l)) as (w & rest & Hl & Hw & Hr).
  exists (TWord w), rest. split; [done|]. simpl. split; [split|done].
  - intros ->. simpl in Hl. subst rest. unfold is_word in Hr. unfold is_space in Hsp.
    rewrite Hsp in Hr. simpl in Hr. apply negb_false_iff, bool_decide_eq_true in Hr.
    unfold simple, symbols, GT, PIPE_, LPAREN, RPAREN, SEMI, AMP, LT in *. set_solver.
  - rewrite Hl in Hnz. apply Forall_app in Hnz as [Hnz _].
    by apply Forall_and.
Qed.

Lemma tokens_exist l : Forall (fun c => c <> 0) l -> exists toks, spells toks l.
Proof.
  remember (length l) as n eqn:En. assert (Hn : (length l <= n)%nat) by lia. clear En.
  revert l Hn. induction n as [|n IH]; intros l Hn Hnz;
    destruct (span is_space l) as (w & rest & -> & Hw & Hr);
    rewrite length_app in Hn; apply Forall_app in Hnz as [_ Hnz];
    (destruct rest as [|c rest];
      [exists []; rewrite app_nil_r; by apply spells_nil|simpl in Hn; try lia]).
  destruct (first_token c rest Hnz Hr) as (t & rest' & Hl & Ht & He).
  rewrite Hl in *. destruct (text_head t Ht) as (c' & l' & Htext & _).
  destruct (IH rest') as [toks Htoks].
  - apply (f_equal length) in Hl. rewrite Htext, length_app in Hl. simpl in Hl. lia.
  - by apply Forall_app in Hnz as [_ Hnz].
  - exists (t :: toks). by apply spells_cons.
Qed.
End Lex.
