(* ===== verification/ShGrammar.v ===== *)
(** The grammar of command lines, and that a parser on tokens decides it.

    [derives] is the grammar the functions of [user/sh.c] are written after:
    a line is pipelines with [&] and [;] between them, a pipeline is commands
    with [|] between them, a command is words mixed with redirections or a
    parenthesised line followed by redirections.  The token parser has the
    control flow of the parser of [ShParse] but reads a list of tokens and
    returns a tree. *)

From S2P Require Import Prelude ShParse ShLex.

Module Grammar.
Import Sh Lex.

#[local] Opaque MAXARGS.

(** ** Commands *)

Inductive redir : Type := RIn | ROut | RAppend.

Inductive cmd : Type :=
| CExec (argv : list (list Z))
| CRedir (c : cmd) (k : redir) (file : list Z)
| CPipe (left right : cmd)
| CList (left right : cmd)
| CBack (c : cmd).

Definition wrap (c : cmd) (rs : list (redir * list Z)) : cmd :=
  foldl (fun c r => CRedir c r.1 r.2) c rs.

Fixpoint backs (k : nat) (c : cmd) : cmd :=
  match k with O => c | S k => backs k (CBack c) end.

(** ** The grammar *)

Definition redir_of (t : tok) : option redir :=
  match t with
  | TSym c => if c =? LT then Some RIn else None
  | TGt => Some ROut
  | TAppend => Some RAppend
  | TWord _ => None
  end.

(** Words and redirections in any order. *)
Inductive items : list (list Z) -> list (redir * list Z) -> list tok -> Prop :=
| items_nil : items [] [] []
| items_word w ws rs t : items ws rs t -> items (w :: ws) rs (TWord w :: t)
| items_redir r k f ws rs t :
    redir_of r = Some k -> items ws rs t -> items ws ((k, f) :: rs) (r :: TWord f :: t).

Inductive level : Type := Line | Pipeline | Command.

Inductive derives : level -> cmd -> list tok -> Prop :=
| derives_exec ws rs t :
    items ws rs t -> (length ws < MAXARGS)%nat -> derives Command (wrap (CExec ws) rs) t
| derives_block c rs t t' :
    derives Line c t -> items [] rs t' ->
    derives Command (wrap c rs) (TSym LPAREN :: t ++ TSym RPAREN :: t')
| derives_command c t : derives Command c t -> derives Pipeline c t
| derives_pipe l r t t' :
    derives Command l t -> derives Pipeline r t' ->
    derives Pipeline (CPipe l r) (t ++ TSym PIPE_ :: t')
| derives_back k c t :
    derives Pipeline c t -> derives Line (backs k c) (t ++ replicate k (TSym AMP))
| derives_list k l r t t' :
    derives Pipeline l t -> derives Line r t' ->
    derives Line (CList (backs k l) r) ((t ++ replicate k (TSym AMP)) ++ TSym SEMI :: t').

(** ** A parser on tokens *)

Inductive tout (A : Type) : Type :=
| TRet (a : A) (toks : list tok)
| TExit (msg : string)
| TNoFuel.
Arguments TRet {A} a toks.
Arguments TExit {A} msg.
Arguments TNoFuel {A}.

Definition tbind {A B} (m : tout A) (k : A -> list tok -> tout B) : tout B :=
  match m with
  | TRet a toks => k a toks
  | TExit msg => TExit msg
  | TNoFuel => TNoFuel
  end.

Fixpoint tredirs (n : nat) (rs : list (redir * list Z)) (toks : list tok)
    : tout (list (redir * list Z)) :=
  match n with
  | O => TNoFuel
  | S n =>
      match toks with
      | t :: toks1 =>
          match redir_of t with
          | Some k =>
              match toks1 with
              | TWord f :: toks2 => tredirs n (rs ++ [(k, f)]) toks2
              | _ => TExit "missing file for redirection"
              end
          | None => TRet rs toks
          end
      | [] => TRet rs toks
      end
  end.

Fixpoint targs (n : nat) (ws : list (list Z)) (rs : list (redir * list Z)) (toks : list tok)
    : tout cmd :=
  match n with
  | O => TNoFuel
  | S n =>
      if peeks [PIPE_; RPAREN; AMP; SEMI] toks then TRet (wrap (CExec ws) rs) toks
      else
        match toks with
        | [] => TRet (wrap (CExec ws) rs) toks
        | TWord w :: toks =>
            if (MAXARGS <=? S (length ws))%nat then TExit "too many args"
            else tbind (tredirs n rs toks) (fun rs toks => targs n (ws ++ [w]) rs toks)
        | _ => TExit "syntax"
        end
  end.

Fixpoint tback (n : nat) (c : cmd) (toks : list tok) : tout cmd :=
  match n with
  | O => TNoFuel
  | S n => if peeks [AMP] toks then tback n (CBack c) (tail toks) else TRet c toks
  end.

Fixpoint tline (n : nat) (toks : list tok) : tout cmd :=
  match n with
  | O => TNoFuel
  | S n =>
      tbind (tpipe n toks) (fun c toks =>
      tbind (tback n c toks) (fun c toks =>
      if peeks [SEMI] toks then
        tbind (tline n (tail toks)) (fun r toks => TRet (CList c r) toks)
      else TRet c toks))
  end

with tpipe (n : nat) (toks : list tok) : tout cmd :=
  match n with
  | O => TNoFuel
  | S n =>
      tbind (texec n toks) (fun c toks =>
      if peeks [PIPE_] toks then
        tbind (tpipe n (tail toks)) (fun r toks => TRet (CPipe c r) toks)
      else TRet c toks)
  end

with tblock (n : nat) (toks : list tok) : tout cmd :=
  match n with
  | O => TNoFuel
  | S n =>
      if negb (peeks [LPAREN] toks) then TExit "parseblock"
      else
        tbind (tline n (tail toks)) (fun c toks =>
        if negb (peeks [RPAREN] toks) then TExit "syntax - missing )"
        else tbind (tredirs n [] (tail toks)) (fun rs toks => TRet (wrap c rs) toks))
  end

with texec (n : nat) (toks : list tok) : tout cmd :=
  match n with
  | O => TNoFuel
  | S n =>
      if peeks [LPAREN] toks then tblock n toks
      else tbind (tredirs n [] toks) (fun rs toks => targs n [] rs toks)
  end.

Lemma tbind_TRet_inv {A B} (m : tout A) (k : A -> list tok -> tout B) b toks :
  tbind m k = TRet b toks -> exists a toks1, m = TRet a toks1 /\ k a toks1 = TRet b toks.
Proof. destruct m; simpl; [eauto|done..]. Qed.

Lemma tbind_NoFuel {A B} (m : tout A) (k : A -> list tok -> tout B) :
  m <> TNoFuel -> (forall a toks, m = TRet a toks -> k a toks <> TNoFuel) ->
  tbind m k <> TNoFuel.
Proof. destruct m; simpl; intros H1 H2; [by apply H2|done..]. Qed.

(** ** Soundness *)

Definition toks_ok (toks : list tok) : Prop := Forall is_tok toks.

(** The token that [peek] finds for a set with one symbol. *)
Lemma peeks_one c toks :
  toks_ok toks -> c ∈ simple -> peeks [c] toks = true -> toks = TSym c :: tail toks.
Proof.
  intros Hok Hc. destruct toks as [|[w|c'| |] toks]; simpl; try done;
    rewrite bool_decide_eq_true, list_elem_of_singleton; [by intros ->|..];
    intros <-; unfold simple, GT, PIPE_, LPAREN, RPAREN, SEMI, AMP, LT in Hc; set_solver.
Qed.

Lemma items_app_redir ws rs t r k f :
  items ws rs t -> redir_of r = Some k -> items ws (rs ++ [(k, f)]) (t ++ [r; TWord f]).
Proof. induction 1; simpl; eauto using items. Qed.

Lemma items_app ws1 rs1 t1 ws2 rs2 t2 :
  items ws1 rs1 t1 -> items ws2 rs2 t2 -> items (ws1 ++ ws2) (rs1 ++ rs2) (t1 ++ t2).
Proof. induction 1; simpl; eauto using items. Qed.

Lemma tredirs_sound n rs toks rs' rest :
  tredirs n rs toks = TRet rs' rest ->
  exists rs1 t, rs' = rs ++ rs1 /\ toks = t ++ rest /\ items [] rs1 t.
Proof.
  revert rs toks. induction n as [|n IH]; intros rs toks; simpl; [done|].
  destruct toks as [|t toks].
  { intros [= <- <-]. exists [], []. rewrite app_nil_r. eauto using items. }
  destruct (redir_of t) as [k|] eqn:Hk.
  - destruct toks as [|[f|c| |] toks]; try done. intros H.
    apply IH in H as (rs1 & t1 & -> & -> & Hi).
    exists ((k, f) :: rs1), (t :: TWord f :: t1).
    rewrite <- (assoc_L (++)). eauto using items.
  - intros [= <- <-]. exists [], []. rewrite app_nil_r. eauto using items.
Qed.

Lemma targs_sound n ws rs toks c rest :
  targs n ws rs toks = TRet c rest -> (length ws < MAXARGS)%nat ->
  exists ws1 rs1 t, c = wrap (CExec (ws ++ ws1)) (rs ++ rs1) /\ toks = t ++ rest /\
    items ws1 rs1 t /\ (length (ws ++ ws1) < MAXARGS)%nat.
Proof.
  revert ws rs toks. induction n as [|n IH]; intros ws rs toks; simpl; [done|].
  destruct (peeks _ _).
  { intros [= <- <-]. exists [], [], []. rewrite !app_nil_r. eauto using items. }
  destruct toks as [|[w|c'| |] toks]; try done.
  { intros [= <- <-]. exists [], [], []. rewrite !app_nil_r. eauto using items. }
  destruct (Nat.leb_spec MAXARGS (S (length ws))); [done|].
  intros (rs2 & toks2 & E1 & E2)%tbind_TRet_inv _.
  apply tredirs_sound in E1 as (rs1 & t1 & -> & -> & Hi1).
  apply IH in E2 as (ws3 & rs3 & t3 & -> & -> & Hi3 & Hl).
  2: { rewrite length_app. simpl. lia. }
  exists (w :: ws3), (rs1 ++ rs3), (TWord w :: t1 ++ t3).
  rewrite <- !(assoc_L (++)). rewrite <- (assoc_L (++)) in Hl. split_and!; try done.
  { simpl. by rewrite <- (assoc_L (++)). }
  apply items_word. by apply (items_app [] rs1 t1 ws3 rs3 t3).
Qed.

Lemma tback_sound n c toks c' rest :
  toks_ok toks -> tback n c toks = TRet c' rest ->
  exists k, c' = backs k c /\ toks = replicate k (TSym AMP) ++ rest.
Proof.
  revert c toks. induction n as [|n IH]; intros c toks Hok; simpl; [done|].
  destruct (peeks [AMP] toks) eqn:Hp.
  - apply peeks_one in Hp; [|done|by vm_compute; set_solver]. rewrite Hp in Hok.
    apply Forall_cons_1 in Hok as [_ Hok]. intros H.
    apply IH in H as (k & -> & Ht); [|done]. exists (S k). split; [done|].
    rewrite Hp, Ht. done.
  - intros [= <- <-]. by exists O.
Qed.

Lemma toks_ok_app t1 t2 : toks_ok (t1 ++ t2) -> toks_ok t2.
Proof. by intros [_ ?]%Forall_app. Qed.

(** What the parser takes off the list derives the tree it returns. *)
Definition sound (p : nat -> list tok -> tout cmd) (lv : level) (n : nat) : Prop :=
  forall toks c rest, toks_ok toks -> p n toks = TRet c rest ->
  exists t, toks = t ++ rest /\ derives lv c t.

Lemma tblock_sound n : sound tline Line n -> sound tblock Command (S n).
Proof.
  intros IH toks c rest Hok. simpl.
  destruct (peeks [LPAREN] toks) eqn:Hp; simpl; [|done].
  apply peeks_one in Hp; [|done|by vm_compute; set_solver].
  rewrite Hp in Hok. apply Forall_cons_1 in Hok as [_ Hok].
  intros (c1 & toks1 & E1 & E2)%tbind_TRet_inv.
  apply IH in E1 as (t & Ht & Hd); [|done].
  assert (Hok1 : toks_ok toks1) by (rewrite Ht in Hok; by apply toks_ok_app in Hok).
  destruct (peeks [RPAREN] toks1) eqn:Hp1; simpl in E2; [|done].
  apply peeks_one in Hp1; [|done|by vm_compute; set_solver].
  apply tbind_TRet_inv in E2 as (rs & toks2 & E2 & [= <- <-]).
  apply tredirs_sound in E2 as (rs1 & t2 & -> & Ht2 & Hi).
  exists (TSym LPAREN :: t ++ TSym RPAREN :: t2). split.
  - rewrite Hp, Ht, Hp1, Ht2. simpl. by rewrite <- (assoc_L (++)).
  - by apply derives_block.
Qed.

Lemma texec_sound n : sound tblock Command n -> sound texec Command (S n).
Proof.
  intros IH toks c rest Hok. simpl. destruct (peeks [LPAREN] toks); [by apply IH|].
  intros (rs & toks1 & E1 & E2)%tbind_TRet_inv.
  apply tredirs_sound in E1 as (rs1 & t1 & -> & -> & Hi1).
  apply targs_sound in E2 as (ws & rs2 & t2 & -> & -> & Hi2 & Hl); [|simpl; by vm_compute; lia].
  exists (t1 ++ t2). rewrite <- (assoc_L (++)). split; [done|].
  apply derives_exec; [|done]. by apply (items_app [] rs1 t1).
Qed.

Lemma tpipe_sound n : sound texec Command n -> sound tpipe Pipeline n -> sound tpipe Pipeline (S n).
Proof.
  intros IHe IHp toks c rest Hok. simpl.
  intros (c1 & toks1 & E1 & E2)%tbind_TRet_inv.
  apply IHe in E1 as (t & -> & Hd); [|done]. apply toks_ok_app in Hok.
  destruct (peeks [PIPE_] toks1) eqn:Hp.
  - apply peeks_one in Hp; [|done|by vm_compute; set_solver].
    rewrite Hp in Hok. apply Forall_cons_1 in Hok as [_ Hok].
    apply tbind_TRet_inv in E2 as (r & toks2 & E2 & [= <- <-]).
    apply IHp in E2 as (t2 & Ht2 & Hd2); [|done].
    exists (t ++ TSym PIPE_ :: t2). split; [|by apply derives_pipe].
    rewrite Hp, Ht2, <- (assoc_L (++)). done.
  - injection E2 as <- <-. exists t. split; [done|]. by apply derives_command.
Qed.

Lemma tline_sound n : sound tpipe Pipeline n -> sound tline Line n -> sound tline Line (S n).
Proof.
  intros IHp IHl toks c rest Hok. simpl.
  intros (c1 & toks1 & E1 & E2)%tbind_TRet_inv.
  apply IHp in E1 as (t & -> & Hd); [|done]. apply toks_ok_app in Hok.
  apply tbind_TRet_inv in E2 as (c2 & toks2 & E2 & E3).
  apply tback_sound in E2 as (k & -> & ->); [|done]. apply toks_ok_app in Hok.
  destruct (peeks [SEMI] toks2) eqn:Hp.
  - apply peeks_one in Hp; [|done|by vm_compute; set_solver].
    rewrite Hp in Hok. apply Forall_cons_1 in Hok as [_ Hok].
    apply tbind_TRet_inv in E3 as (r & toks3 & E3 & [= <- <-]).
    apply IHl in E3 as (t3 & Ht3 & Hd3); [|done].
    exists ((t ++ replicate k (TSym AMP)) ++ TSym SEMI :: t3).
    split; [|by apply derives_list].
    rewrite Hp, Ht3, <- !(assoc_L (++)). done.
  - injection E3 as <- <-. exists (t ++ replicate k (TSym AMP)).
    rewrite <- (assoc_L (++)). split; [done|]. by apply derives_back.
Qed.

Lemma token_parser_sound n :
  sound tline Line n /\ sound tpipe Pipeline n /\ sound tblock Command n /\ sound texec Command n.
Proof.
  induction n as [|n (IHl & IHp & IHb & IHe)]; [by split_and!|].
  auto using tline_sound, tpipe_sound, tblock_sound, texec_sound.
Qed.

(** ** Completeness *)

(** The tokens that may follow: none, or a symbol of the set. *)
Definition ended (set : list Z) (toks : list tok) : Prop :=
  match toks with
  | [] => True
  | TSym c :: _ => c ∈ set
  | _ => False
  end.

Definition follow (lv : level) : list Z :=
  match lv with
  | Command => [PIPE_; RPAREN; AMP; SEMI]
  | Pipeline => [RPAREN; AMP; SEMI]
  | Line => [RPAREN]
  end.

Lemma ended_weaken set set' toks : set ⊆ set' -> ended set toks -> ended set' toks.
Proof. destruct toks as [|[]]; simpl; set_solver. Qed.

Lemma ended_peeks set set' toks :
  ended set toks -> (forall c, c ∈ set -> c ∉ set') -> peeks set' toks = false.
Proof.
  destruct toks as [|[w|c| |] toks]; simpl; try done.
  intros Hc Hd. apply bool_decide_eq_false. auto.
Qed.

Lemma ended_no_redir toks :
  ended (follow Command) toks -> match toks with t :: _ => redir_of t = None | [] => True end.
Proof.
  destruct toks as [|[w|c| |] toks]; simpl; try done.
  unfold PIPE_, RPAREN, AMP, SEMI, LT. destruct (Z.eqb_spec c 60); [set_solver|done].
Qed.

Lemma tredirs_complete n rs rs1 t rest :
  items [] rs1 t -> ended (follow Command) rest -> (length t < n)%nat ->
  tredirs n rs (t ++ rest) = TRet (rs ++ rs1) rest.
Proof.
  intros Hi He. remember [] as ws eqn:Ews. revert n rs.
  induction Hi as [|w ws rs1 t Hi IH|r k f ws rs1 t Hr Hi IH]; intros n rs Hn;
    (destruct n as [|n]; [simpl in Hn; lia|]); simplify_eq/=.
  - apply ended_no_redir in He. rewrite app_nil_r. destruct rest as [|t rest]; [done|].
    by rewrite He.
  - rewrite Hr, IH by (done || lia). by rewrite <- (assoc_L (++)).
Qed.

Lemma targs_ended m ws rs rest :
  ended (follow Command) rest -> (0 < m)%nat ->
  targs m ws rs rest = TRet (wrap (CExec ws) rs) rest.
Proof.
  destruct m as [|m]; [lia|]. intros He _. cbn [targs].
  destruct rest as [|[w|c| |] rest]; simpl in *; try done.
  by rewrite bool_decide_eq_true_2.
Qed.

(** Words and redirections are read by the argument loop with [parseredirs]
    before each round. *)
Lemma targs_complete ws1 rs1 t : items ws1 rs1 t -> forall n m ws rs rest,
  ended (follow Command) rest -> (length t < n)%nat -> (length t < m)%nat ->
  (length (ws ++ ws1) < MAXARGS)%nat ->
  tbind (tredirs n rs (t ++ rest)) (fun rs toks => targs m ws rs toks) =
  TRet (wrap (CExec (ws ++ ws1)) (rs ++ rs1)) rest.
Proof.
  induction 1 as [|w ws1 rs1 t Hi IH|r k f ws1 rs1 t Hr Hi IH];
    intros n m ws rs rest He Hn Hm Hl.
  - rewrite (tredirs_complete n rs [] [] rest items_nil He Hn). simpl in *.
    rewrite targs_ended by done. by rewrite !app_nil_r.
  - destruct n as [|n], m as [|m]; simpl in *; try lia.
    rewrite length_app in Hl. simpl in Hl.
    destruct (Nat.leb_spec MAXARGS (S (length ws))); [lia|].
    rewrite IH; [by rewrite <- (assoc_L (++))|done|lia|lia|].
    rewrite <- (assoc_L (++)), length_app. simpl. lia.
  - destruct n as [|n]; simpl in *; [lia|]. rewrite Hr.
    rewrite IH by (done || lia). by rewrite <- (assoc_L (++)).
Qed.

Lemma tback_complete n k c rest :
  ended [RPAREN; SEMI] rest -> (k < n)%nat ->
  tback n c (replicate k (TSym AMP) ++ rest) = TRet (backs k c) rest.
Proof.
  revert n c. induction k as [|k IH]; intros n c He Hn; (destruct n as [|n]; [lia|]); simpl.
  - by rewrite (ended_peeks [RPAREN; SEMI]) by (done || (vm_compute; set_solver)).
  - rewrite IH; [done..|lia].
Qed.

Lemma ended_backs k rest :
  ended (follow Pipeline) rest -> ended (follow Pipeline) (replicate k (TSym AMP) ++ rest).
Proof. destruct k; simpl; [done|]. intros _. vm_compute. set_solver. Qed.

Definition parser_of (lv : level) : nat -> list tok -> tout cmd :=
  match lv with Line => tline | Pipeline => tpipe | Command => texec end.

Definition need (lv : level) : nat :=
  match lv with Line => 4 | Pipeline => 3 | Command => 2 end.

Lemma texec_items n ws rs t rest :
  items ws rs t -> ended (follow Command) rest -> (length ws < MAXARGS)%nat ->
  (4 * length (t ++ rest) + 2 <= n)%nat ->
  texec n (t ++ rest) = TRet (wrap (CExec ws) rs) rest.
Proof.
  intros Hi He Hl Hn. rewrite length_app in Hn. destruct n as [|n]; [lia|]. cbn [texec].
  assert (peeks [LPAREN] (t ++ rest) = false) as ->.
  { destruct Hi as [|w ws rs t Hi|r k f ws rs t Hr Hi]; simpl.
    - apply (ended_peeks (follow Command)); [done|vm_compute; set_solver].
    - done.
    - destruct r as [w|c| |]; simpl in *; try done.
      destruct (Z.eqb_spec c LT); [subst; done|done]. }
  apply (targs_complete ws rs t Hi n n [] [] rest); [done|lia|lia|done].
Qed.

(** Lengths of concatenations. *)
Ltac count_in H :=
  repeat (rewrite ?length_app, ?length_replicate in H; cbn [length] in H).
Ltac count := repeat (rewrite ?length_app, ?length_replicate; cbn [length]).

Lemma complete lv c t : derives lv c t -> forall n rest,
  ended (follow lv) rest -> (4 * length (t ++ rest) + need lv <= n)%nat ->
  parser_of lv n (t ++ rest) = TRet c rest.
Proof.
  induction 1 as [ws rs t Hi Hl|c rs t t' Hd IH Hi|c t Hd IH|l r t t' Hd IH Hd' IH'
                 |k c t Hd IH|k l r t t' Hd IH Hd' IH']; intros n rest He Hn;
    cbn [parser_of need] in *.
  - by apply texec_items.
  - destruct n as [|[|n]]; try lia. simpl.
    rewrite <- (assoc_L (++)), <- app_comm_cons. count_in Hn.
    rewrite IH; [|vm_compute; set_solver|count; lia].
    simpl. rewrite (tredirs_complete n [] rs t' rest); [done|done|done|lia].
  - destruct n as [|n]; [lia|]. cbn [tpipe].
    rewrite (IH n rest); [|by apply (ended_weaken (follow Pipeline)); [vm_compute; set_solver|]|simpl; lia].
    simpl. by rewrite (ended_peeks (follow Pipeline)) by (done || (vm_compute; set_solver)).
  - destruct n as [|n]; [lia|]. cbn [tpipe].
    rewrite <- (assoc_L (++)), <- app_comm_cons in Hn |- *. count_in Hn.
    rewrite (IH n); [|vm_compute; set_solver|count; lia].
    simpl. rewrite (IH' n); [done|done|count; lia].
  - destruct n as [|n]; [lia|]. cbn [tline].
    rewrite <- !(assoc_L (++)) in Hn |- *. count_in Hn.
    rewrite (IH n); [|apply ended_backs; vm_compute; destruct rest as [|[]]; set_solver|].
    2: { count. lia. }
    simpl. rewrite tback_complete; [simpl|vm_compute; destruct rest as [|[]]; set_solver|lia].
    by rewrite (ended_peeks [RPAREN]) by (done || (vm_compute; set_solver)).
  - destruct n as [|n]; [lia|]. cbn [tline].
    rewrite <- !(assoc_L (++)), <- app_comm_cons in Hn |- *.
    count_in Hn.
    rewrite (IH n); [|apply ended_backs; vm_compute; set_solver|].
    2: { count. lia. }
    simpl. rewrite tback_complete; [simpl|vm_compute; set_solver|lia].
    rewrite (IH' n); [done|done|count; lia].
Qed.

(** ** Termination *)

Lemma tredirs_fuel n rs toks : (length toks < n)%nat -> tredirs n rs toks <> TNoFuel.
Proof.
  revert rs toks. induction n as [|n IH]; intros rs toks Hn; [lia|]. simpl.
  destruct toks as [|t [|[f|c| |] toks]]; simpl in *; try done;
    destruct (redir_of t); try done. apply IH. lia.
Qed.

Lemma targs_fuel n ws rs toks : (length toks < n)%nat -> targs n ws rs toks <> TNoFuel.
Proof.
  revert ws rs toks. induction n as [|n IH]; intros ws rs toks Hn; [lia|]. cbn [targs].
  destruct (peeks _ _); [done|]. destruct toks as [|[w|c| |] toks]; try done.
  destruct (_ <=? _)%nat; [done|]. simpl in Hn.
  apply tbind_NoFuel; [apply tredirs_fuel; lia|]. intros rs1 toks1 E.
  apply tredirs_sound in E as (rs2 & t & -> & -> & _). apply IH. count_in Hn. lia.
Qed.

Lemma tback_fuel n c toks : (length toks < n)%nat -> tback n c toks <> TNoFuel.
Proof.
  revert c toks. induction n as [|n IH]; intros c toks Hn; [lia|]. simpl.
  destruct (peeks [AMP] toks) eqn:Hp; [|done].
  destruct toks as [|t toks]; [done|]. apply IH. simpl in *. lia.
Qed.

Definition fueled (p : nat -> list tok -> tout cmd) (k n : nat) : Prop :=
  forall toks, toks_ok toks -> (4 * length toks + k <= n)%nat -> p n toks <> TNoFuel.

(** A symbol [peek] has found is a token less. *)
Lemma peeks_tail set toks :
  peeks set toks = true -> toks_ok toks ->
  toks_ok (tail toks) /\ length toks = S (length (tail toks)).
Proof.
  destruct toks as [|t toks]; [done|]. intros _ [_ Hok]%Forall_cons_1. done.
Qed.

Lemma sound_length p lv n toks c rest :
  sound p lv n -> toks_ok toks -> p n toks = TRet c rest ->
  toks_ok rest /\ (length rest <= length toks)%nat.
Proof.
  intros Hs Hok E. apply Hs in E as (t & -> & _); [|done].
  split; [by apply toks_ok_app in Hok|count; lia].
Qed.

Lemma token_parser_fuel n :
  fueled tline 4 n /\ fueled tpipe 3 n /\ fueled texec 2 n /\ fueled tblock 1 n.
Proof.
  induction n as [|n (IHl & IHp & IHe & IHb)]; [split_and!; intros ???; lia|].
  destruct (token_parser_sound n) as (Sl & Sp & Sb & Se).
  split_and!; intros toks Hok Hn; simpl.
  - apply tbind_NoFuel; [apply IHp; [done|lia]|]. intros c toks1 E.
    destruct (sound_length _ _ _ _ _ _ Sp Hok E) as [Hok1 Hl1].
    apply tbind_NoFuel; [apply tback_fuel; lia|]. intros c2 toks2 E2.
    apply tback_sound in E2 as (k & -> & ->); [|done]. apply toks_ok_app in Hok1. count_in Hl1.
    destruct (peeks [SEMI] toks2) eqn:Hp; [|done].
    destruct (peeks_tail _ _ Hp Hok1) as [Hok2 Hl2].
    apply tbind_NoFuel; [apply IHl; [done|lia]|done].
  - apply tbind_NoFuel; [apply IHe; [done|lia]|]. intros c toks1 E.
    destruct (sound_length _ _ _ _ _ _ Se Hok E) as [Hok1 Hl1].
    destruct (peeks [PIPE_] toks1) eqn:Hp; [|done].
    destruct (peeks_tail _ _ Hp Hok1) as [Hok2 Hl2].
    apply tbind_NoFuel; [apply IHp; [done|lia]|done].
  - destruct (peeks [LPAREN] toks); [apply IHb; [done|lia]|].
    apply tbind_NoFuel; [apply tredirs_fuel; lia|]. intros rs toks1 E.
    apply tredirs_sound in E as (rs1 & t & -> & -> & _). apply targs_fuel. count_in Hn. lia.
  - destruct (peeks [LPAREN] toks) eqn:Hp; simpl; [|done].
    destruct (peeks_tail _ _ Hp Hok) as [Hok2 Hl2].
    apply tbind_NoFuel; [apply IHl; [done|lia]|]. intros c toks1 E.
    destruct (sound_length _ _ _ _ _ _ Sl Hok2 E) as [Hok1 Hl1].
    destruct (peeks [RPAREN] toks1) eqn:Hp1; simpl; [|done].
    destruct (peeks_tail _ _ Hp1 Hok1) as [_ Hl3].
    apply tbind_NoFuel; [apply tredirs_fuel; lia|done].
Qed.
End Grammar.
