(* ===== verification/ShTheorems.v ===== *)
(** The parser of [user/sh.c] decides the grammar.

    The parser of [ShParse], which moves a pointer along the line and builds
    its commands on the heap, simulates the token parser of [ShGrammar]: with
    the same fuel it returns a pointer to the tree, fails with the same
    message or runs out of fuel exactly when the token parser does.  With
    soundness, completeness and termination there this gives the theorems on
    [parsecmd]. *)

From S2P Require Import Prelude Fcntl ShParse ShLex ShGrammar.

Module ShTheorems.
Import Sh Lex Grammar.

(** ** Trees on the heap *)

Definition mode_of (k : redir) : Z :=
  match k with
  | RIn => O_RDONLY
  | ROut => Z.lor (Z.lor O_WRONLY O_CREATE) O_TRUNC
  | RAppend => Z.lor O_WRONLY O_CREATE
  end.

Definition fd_of (k : redir) : Z := match k with RIn => 0 | _ => 1 end.

Section Heap.
(** How a pair of indices stands for a word. *)
Context (word : nat -> nat -> list Z -> Prop).

Inductive repr (h : list node) : nat -> cmd -> Prop :=
| repr_exec p argv eargv ws :
    h !! p = Some (EXEC argv eargv) -> Forall3 word argv eargv ws -> repr h p (CExec ws)
| repr_redir p c q eq k f t :
    h !! p = Some (REDIR c q eq (mode_of k) (fd_of k)) -> (c < p)%nat -> word q eq f ->
    repr h c t -> repr h p (CRedir t k f)
| repr_pipe p l r t t' :
    h !! p = Some (PIPE l r) -> (l < p)%nat -> (r < p)%nat ->
    repr h l t -> repr h r t' -> repr h p (CPipe t t')
| repr_list p l r t t' :
    h !! p = Some (LIST l r) -> (l < p)%nat -> (r < p)%nat ->
    repr h l t -> repr h r t' -> repr h p (CList t t')
| repr_back p c t :
    h !! p = Some (BACK c) -> (c < p)%nat -> repr h c t -> repr h p (CBack t).

(** [r] is [r0] wrapped in the redirections [rs]. *)
Inductive chain (h : list node) (r0 : nat) : nat -> list (redir * list Z) -> Prop :=
| chain_nil : chain h r0 r0 []
| chain_snoc r r' rs k f q eq :
    chain h r0 r' rs -> (r0 <= r' < r)%nat ->
    h !! r = Some (REDIR r' q eq (mode_of k) (fd_of k)) -> word q eq f ->
    chain h r0 r (rs ++ [(k, f)]).

Lemma repr_prefix h h' p c : h `prefix_of` h' -> repr h p c -> repr h' p c.
Proof. intros Hp. induction 1; econstructor; eauto using prefix_lookup_Some. Qed.

Lemma repr_bound h p c : repr h p c -> (p < length h)%nat.
Proof. destruct 1; by eapply lookup_lt_Some. Qed.

Lemma chain_prefix h h' r0 r rs : h `prefix_of` h' -> chain h r0 r rs -> chain h' r0 r rs.
Proof. intros Hp. induction 1; econstructor; eauto using prefix_lookup_Some. Qed.

Lemma chain_le h r0 r rs : chain h r0 r rs -> (r0 <= r)%nat.
Proof. destruct 1; lia. Qed.

Lemma wrapped_bound h r0 r rs : chain h r0 r rs -> (r0 < length h)%nat -> (r < length h)%nat.
Proof. destruct 1; [done|]. intros _. by eapply lookup_lt_Some. Qed.

(** Storing into the innermost command leaves the wrapping as it is. *)
Lemma chain_insert h r0 r rs n : chain h r0 r rs -> chain (<[r0 := n]> h) r0 r rs.
Proof.
  induction 1; econstructor; eauto. rewrite list_lookup_insert_ne by lia. done.
Qed.

Lemma chain_repr h r0 r rs c : chain h r0 r rs -> repr h r0 c -> repr h r (wrap c rs).
Proof.
  induction 1 as [|r r' rs k f q eq Hch IH Hlt Hh Hw]; intros Hr; [done|].
  unfold wrap. rewrite foldl_snoc. simpl. eapply repr_redir; eauto. lia.
Qed.
End Heap.

Lemma repr_mono (word word' : nat -> nat -> list Z -> Prop) h p c :
  (forall q eq w, word q eq w -> word' q eq w) -> repr word h p c -> repr word' h p c.
Proof.
  intros Hw. induction 1; econstructor; eauto. eapply Forall3_impl; eauto.
Qed.

(** ** Simulation *)

Section Sim.
Context (line junk : list Z).
Hypothesis line_ok : Forall (fun c => c <> 0) line.

Let buf : list Z := line ++ 0 :: junk.
Let es : nat := length line.
Let word := slice line.

Definition sim {A B} (R : A -> B -> list node -> Prop) (o : out A) (t : tout B) : Prop :=
  match o, t with
  | Ret a st, TRet b toks => before line (ps st) toks /\ R a b (heap st)
  | Exit m, TExit m' => m = m'
  | NoFuel, TNoFuel => True
  | _, _ => False
  end.

Lemma sim_bind {A A' B B'} (R : A -> A' -> list node -> Prop) (R' : B -> B' -> list node -> Prop)
    (m : P A) (k : A -> P B) st t k' :
  sim R (m st) t ->
  (forall a a' st toks, before line (ps st) toks -> R a a' (heap st) ->
    sim R' (k a st) (k' a' toks)) ->
  sim R' (bind m k st) (tbind t k').
Proof.
  unfold bind. destruct (m st) as [a st'| |], t as [a' toks| |]; simpl; try done.
  intros [Hb HR] Hk. by apply Hk.
Qed.

Lemma spells_ok toks l : spells toks l -> toks_ok toks.
Proof. induction 1; by constructor. Qed.

Lemma before_ok s toks : before line s toks -> toks_ok toks.
Proof. intros [_ H]. by apply spells_ok in H. Qed.

Lemma sim_peek {A B} (R : A -> B -> list node -> Prop) set (k : bool -> P A) st toks t :
  before line (ps st) toks -> set ⊆ symbols ->
  (forall s, before line s toks -> sim R (k (peeks set toks) (PState s (heap st))) t) ->
  sim R (bind (peek buf es set) k st) t.
Proof.
  intros Hb Hset Hk. unfold bind.
  destruct (peek_runs line junk line_ok set st toks Hb Hset) as (s & E & Hs).
  fold buf es in E. rewrite E. by apply Hk.
Qed.

Lemma sim_gettoken {A B} (R : A -> B -> list node -> Prop) (k : Z * nat * nat -> P A) st tk toks t :
  before line (ps st) (tk :: toks) ->
  (forall q eq s, before line s toks ->
    match tk with TWord w => word q eq w | _ => True end ->
    sim R (k (code tk, q, eq) (PState s (heap st))) t) ->
  sim R (bind (gettoken buf es) k st) t.
Proof.
  intros Hb Hk. unfold bind.
  destruct (gettoken_runs line junk line_ok st tk toks Hb) as (q & eq & s & E & Hs & Hw).
  fold buf es in E. rewrite E. by apply Hk.
Qed.

Lemma sim_end {A B} (R : A -> B -> list node -> Prop) (k : Z * nat * nat -> P A) st t :
  before line (ps st) [] ->
  (forall q s, before line s [] -> sim R (k (0, q, q) (PState s (heap st))) t) ->
  sim R (bind (gettoken buf es) k st) t.
Proof.
  intros Hb Hk. unfold bind. destruct (gettoken_end line junk st Hb) as (s & E & Hs).
  fold buf es in E. rewrite E. by apply Hk.
Qed.

Lemma sim_weaken {A B} (R R' : A -> B -> list node -> Prop) o t :
  sim R o t -> (forall a b h, R a b h -> R' a b h) -> sim R' o t.
Proof. destruct o, t; simpl; try done. naive_solver. Qed.

(** The token [peek] has found for one symbol is the next one. *)
Lemma sim_symbol {A B} (R : A -> B -> list node -> Prop) c (k : Z * nat * nat -> P A) st toks t :
  before line (ps st) toks -> c ∈ simple -> peeks [c] toks = true ->
  (forall x s, before line s (tail toks) -> sim R (k x (PState s (heap st))) t) ->
  sim R (bind (gettoken buf es) k st) t.
Proof.
  intros Hb Hc Hp Hk. pose proof (peeks_one _ _ (before_ok _ _ Hb) Hc Hp) as E.
  rewrite E in Hb. eapply sim_gettoken; [done|]. auto.
Qed.

Ltac next_peek := eapply sim_peek; [done|vm_compute; set_solver|].
Ltac next_symbol :=
  match goal with
  | H : peeks [?c] _ = true |- _ =>
      eapply (sim_symbol _ c); [done|vm_compute; set_solver|exact H|]
  end.

Lemma peeks_redir t toks :
  is_tok t -> peeks [LT; GT] (t :: toks) = match redir_of t with Some _ => true | None => false end.
Proof.
  destruct t as [w|c| |]; simpl; try done. intros Hc.
  destruct (Z.eqb_spec c LT) as [->|Hn]; [done|]. apply bool_decide_eq_false.
  unfold simple, PIPE_, LPAREN, RPAREN, SEMI, AMP, LT, GT in *. set_solver.
Qed.

Lemma code_word t : is_tok t -> (code t =? WORD) = match t with TWord _ => true | _ => false end.
Proof.
  destruct t as [w|c| |]; simpl; try done. intros Hc.
  destruct (Z.eqb_spec c WORD) as [->|]; [|done].
  unfold simple, PIPE_, LPAREN, RPAREN, SEMI, AMP, LT, WORD in *. set_solver.
Qed.

(** [redircmd] with the mode of the token. *)
Lemma redirs_node t k cmd q eq :
  redir_of t = Some k ->
  (if code t =? LT then redircmd cmd q eq O_RDONLY 0
   else if code t =? GT then redircmd cmd q eq (Z.lor (Z.lor O_WRONLY O_CREATE) O_TRUNC) 1
   else if code t =? PLUS then redircmd cmd q eq (Z.lor O_WRONLY O_CREATE) 1
   else ret cmd) = malloc (REDIR cmd q eq (mode_of k) (fd_of k)).
Proof.
  destruct t as [w|c| |]; simpl; try done; [|by intros [= <-]..].
  destruct (c =? LT); [|done]. by intros [= <-].
Qed.

Definition same_tree (h0 : list node) (p : nat) (c : cmd) (h : list node) : Prop :=
  h0 `prefix_of` h /\ repr word h p c.

Lemma parseredirs_sim n r0 cmd rs st toks :
  before line (ps st) toks -> chain word (heap st) r0 cmd rs -> (r0 < length (heap st))%nat ->
  sim (fun r rs' h => heap st `prefix_of` h /\ chain word h r0 r rs')
    (parseredirs buf es n cmd st) (tredirs n rs toks).
Proof.
  revert cmd rs st toks. induction n as [|n IH]; intros cmd rs st toks Hb Hc Hr; [done|].
  cbn [parseredirs]. next_peek. intros s Hs.
  destruct toks as [|t toks]; [by split_and!|].
  pose proof (before_ok _ _ Hs) as [Ht Hok]%Forall_cons_1.
  rewrite peeks_redir by done. cbn [tredirs].
  destruct (redir_of t) as [k|] eqn:Hk; [|by split_and!].
  eapply sim_gettoken; [done|]. intros _q _eq s1 Hs1 _. clear _q _eq. cbn [heap].
  destruct toks as [|t2 toks].
  { by eapply sim_end. }
  apply Forall_cons_1 in Hok as [Ht2 Hok].
  eapply sim_gettoken; [done|]. intros q eq s2 Hs2 Hw. cbn [heap].
  rewrite code_word by done. destruct t2 as [f|c| |]; cbn [negb]; try done.
  rewrite (redirs_node t k) by done. unfold bind at 1, malloc. cbn [ps heap].
  pose proof (wrapped_bound _ _ _ _ _ Hc Hr) as Hlt. pose proof (chain_le _ _ _ _ _ Hc) as Hle.
  pose proof (IH (length (heap st)) (rs ++ [(k, f)])
    (PState s2 (heap st ++ [REDIR cmd q eq (mode_of k) (fd_of k)])) toks Hs2) as Hsim.
  cbn [heap] in Hsim.
  assert (Hpre : heap st `prefix_of` heap st ++ [REDIR cmd q eq (mode_of k) (fd_of k)])
    by by eexists.
  eapply sim_weaken; [apply Hsim|].
  - eapply chain_snoc; [by eapply chain_prefix|lia|by apply list_lookup_middle|done].
  - rewrite length_app. simpl. lia.
  - intros r rs' h [Hh Hch]. split; [by etrans|done].
Qed.

Lemma prefix_insert (h0 h : list node) n :
  h0 `prefix_of` h -> h0 `prefix_of` <[length h0 := n]> h.
Proof.
  intros [k ->]. rewrite insert_app_r_alt by lia. by eexists.
Qed.

(** The command under construction: the node [cmd], allocated after [h0],
    holds the words so far, and [r] is [cmd] with its redirections. *)
Definition building (h0 : list node) (r : nat) (ws : list (list Z))
    (rs : list (redir * list Z)) (h : list node) : Prop :=
  exists argv eargv, h0 `prefix_of` h /\ h !! length h0 = Some (EXEC argv eargv) /\
    Forall3 word argv eargv ws /\ chain word h (length h0) r rs.

Lemma building_tree h0 r ws rs h :
  building h0 r ws rs h -> same_tree h0 r (wrap (CExec ws) rs) h.
Proof.
  intros (argv & eargv & Hp & Hh & Hw & Hc). split; [done|].
  eapply chain_repr; [done|]. by eapply repr_exec.
Qed.

Lemma building_more h0 r ws rs h r' rs' h' :
  building h0 r ws rs h -> h `prefix_of` h' -> chain word h' (length h0) r' rs' ->
  building h0 r' ws rs' h'.
Proof.
  intros (argv & eargv & Hp & Hh & Hw & Hc) Hp' Hc'. exists argv, eargv.
  split_and!; [by etrans|by eapply prefix_lookup_Some|done|done].
Qed.

(** [add_arg] stores the next word. *)
Lemma add_arg_runs h0 r ws rs q eq w st :
  building h0 r ws rs (heap st) -> word q eq w ->
  exists h, add_arg (length h0) q eq st = Ret tt (PState (ps st) h) /\
    building h0 r (ws ++ [w]) rs h.
Proof.
  intros (argv & eargv & Hp & Hh & Hws & Hc) Hw. unfold add_arg. rewrite Hh.
  eexists. split; [done|]. exists (argv ++ [q]), (eargv ++ [eq]). split_and!.
  - by apply prefix_insert.
  - apply list_lookup_insert_eq. by eapply lookup_lt_Some.
  - apply Forall3_app; [done|]. constructor; [done|constructor].
  - by apply chain_insert.
Qed.

Lemma parseargs_sim n h0 r ws rs st toks :
  before line (ps st) toks -> building h0 r ws rs (heap st) ->
  sim (same_tree h0) (parseargs buf es n (length h0) r (length ws) st) (targs n ws rs toks).
Proof.
  revert r ws rs st toks. induction n as [|n IH]; intros r ws rs st toks Hb Hbuild; [done|].
  cbn [parseargs targs]. next_peek. intros s Hs.
  destruct (peeks _ toks).
  { split; [done|]. by apply building_tree. }
  destruct toks as [|t toks].
  { eapply sim_end; [done|]. intros q s1 Hs1. split; [done|]. by apply building_tree. }
  pose proof (before_ok _ _ Hs) as [Ht Hok]%Forall_cons_1.
  eapply sim_gettoken; [done|]. intros q eq s1 Hs1 Hw. cbn [heap].
  assert (Hz : (code t =? 0) = false).
  { destruct t as [w|c| |]; try done. simpl in *. destruct (Z.eqb_spec c 0) as [->|]; [|done].
    unfold simple, PIPE_, LPAREN, RPAREN, SEMI, AMP, LT in *. set_solver. }
  rewrite Hz, code_word by done. destruct t as [w|c| |]; cbn [negb]; try done.
  destruct (add_arg_runs h0 r ws rs q eq w (PState s1 (heap st)) Hbuild Hw) as (h & E & Hbuild').
  unfold bind at 1. rewrite E. destruct (MAXARGS <=? S (length ws))%nat; [done|].
  destruct Hbuild' as (argv & eargv & Hall).
  eapply sim_bind.
  { apply parseredirs_sim; [done|apply Hall|]. destruct Hall as (_ & Hh & _).
    by eapply lookup_lt_Some. }
  intros r' rs' st' toks' Hb' [Hp' Hc'].
  replace (S (length ws)) with (length (ws ++ [w])) by (rewrite length_app; simpl; lia).
  apply IH; [done|]. eapply building_more; [|exact Hp'|exact Hc']. by exists argv, eargv.
Qed.

Definition simulates (p : nat -> P nat) (tp : nat -> list tok -> tout cmd) (n : nat) : Prop :=
  forall st toks, before line (ps st) toks -> sim (same_tree (heap st)) (p n st) (tp n toks).

(** A node on top of trees of the heap. *)
Lemma sim_malloc h0 n c st toks :
  before line (ps st) toks -> h0 `prefix_of` heap st ->
  repr word (heap st ++ [n]) (length (heap st)) c ->
  sim (same_tree h0) (malloc n st) (TRet c toks).
Proof.
  intros Hb Hp Hr. split; [done|]. split; [|done]. simpl. by apply prefix_app_r.
Qed.

Lemma parseback_sim n c0 cmd st toks h0 :
  before line (ps st) toks -> same_tree h0 cmd c0 (heap st) ->
  sim (same_tree h0) (parseback buf es n cmd st) (tback n c0 toks).
Proof.
  revert c0 cmd st toks. induction n as [|n IH]; intros c0 cmd st toks Hb [Hp Hr]; [done|].
  cbn [parseback tback]. next_peek. intros s Hs.
  destruct (peeks [AMP] toks) eqn:Hpk; [|by split_and!].
  next_symbol. intros _ s1 Hs1.
  unfold bind at 1, backcmd, malloc. apply IH; [done|]. cbn [heap]. split; [by apply prefix_app_r|].
  eapply repr_back; [by apply list_lookup_middle|by eapply repr_bound|].
  eapply repr_prefix; [|done]. by eexists.
Qed.

Lemma parseblock_sim n :
  simulates (parseline buf es) tline n -> simulates (parseblock buf es) tblock (S n).
Proof.
  intros IH st toks Hb. cbn [parseblock tblock].
  next_peek. intros s Hs.
  destruct (peeks [LPAREN] toks) eqn:Hpk; [|done]. cbn [negb].
  next_symbol. intros _ s1 Hs1. cbn [heap].
  eapply sim_bind; [by apply IH|]. intros cmd c st2 toks2 Hb2 [Hp2 Hr2]. cbn [heap] in Hp2.
  next_peek. intros s3 Hs3.
  destruct (peeks [RPAREN] toks2) eqn:Hpk2; [|done]. cbn [negb].
  next_symbol. intros _ s4 Hs4. cbn [heap].
  assert (Hsim := parseredirs_sim n cmd cmd [] (PState s4 (heap st2)) (tail toks2) Hs4
    (chain_nil _ _ _) (repr_bound _ _ _ _ Hr2)).
  cbn [heap] in Hsim. revert Hsim.
  unfold sim. destruct (parseredirs _ _ _ _ _) as [r st5| |], (tredirs _ _ _) as [rs toks5| |];
    simpl; try done.
  intros (Hb5 & Hp5 & Hc5). split; [done|]. split; [by etrans; [|exact Hp5]|].
  eapply chain_repr; [done|]. by eapply repr_prefix.
Qed.

Lemma parseexec_sim n :
  simulates (parseblock buf es) tblock n -> simulates (parseexec buf es) texec (S n).
Proof.
  intros IH st toks Hb. cbn [parseexec texec].
  next_peek. intros s Hs.
  destruct (peeks [LPAREN] toks); [exact (IH (PState s (heap st)) toks Hs)|].
  unfold bind at 1, execcmd, malloc. cbn [ps heap].
  eapply sim_bind.
  - apply (parseredirs_sim n (length (heap st)) _ []); [done|apply chain_nil|].
    simpl. rewrite length_app. simpl. lia.
  - intros r rs st1 toks1 Hb1 [Hp1 Hc1]. cbn [heap] in Hp1.
    apply (parseargs_sim n (heap st) r []); [done|]. exists [], [].
    split_and!; [by etrans; [by eexists|]| |constructor|done].
    eapply prefix_lookup_Some; [|done]. by apply list_lookup_middle.
Qed.

Lemma parsepipe_sim n :
  simulates (parseexec buf es) texec n -> simulates (parsepipe buf es) tpipe n ->
  simulates (parsepipe buf es) tpipe (S n).
Proof.
  intros IHe IHp st toks Hb. cbn [parsepipe tpipe].
  eapply sim_bind; [by apply IHe|]. intros cmd c st1 toks1 Hb1 [Hp1 Hr1].
  next_peek. intros s Hs.
  destruct (peeks [PIPE_] toks1) eqn:Hpk; [|by split_and!].
  next_symbol. intros _ s2 Hs2. cbn [heap].
  eapply sim_bind; [by apply IHp|]. intros r c' st3 toks3 Hb3 [Hp3 Hr3]. cbn [heap] in Hp3.
  apply sim_malloc; [done|by etrans|].
  assert (Hpre : heap st3 `prefix_of` heap st3 ++ [PIPE cmd r]) by by eexists.
  pose proof (repr_bound _ _ _ _ Hr1). pose proof (prefix_length _ _ Hp3).
  eapply repr_pipe; [by apply list_lookup_middle|lia|by eapply repr_bound| |by eapply repr_prefix].
  eapply repr_prefix; [|done]. by etrans.
Qed.

Lemma parseline_sim n :
  simulates (parsepipe buf es) tpipe n -> simulates (parseline buf es) tline n ->
  simulates (parseline buf es) tline (S n).
Proof.
  intros IHp IHl st toks Hb. cbn [parseline tline].
  eapply sim_bind; [by apply IHp|]. intros cmd c st1 toks1 Hb1 Ht1.
  eapply sim_bind; [by apply parseback_sim|]. intros cmd2 c2 st2 toks2 Hb2 [Hp2 Hr2].
  next_peek. intros s Hs.
  destruct (peeks [SEMI] toks2) eqn:Hpk; [|by split_and!].
  next_symbol. intros _ s3 Hs3. cbn [heap].
  eapply sim_bind; [by apply IHl|]. intros r c' st4 toks4 Hb4 [Hp4 Hr4]. cbn [heap] in Hp4.
  apply sim_malloc; [done|by etrans|].
  assert (Hpre : heap st4 `prefix_of` heap st4 ++ [LIST cmd2 r]) by by eexists.
  pose proof (repr_bound _ _ _ _ Hr2). pose proof (prefix_length _ _ Hp4).
  eapply repr_list; [by apply list_lookup_middle|lia|by eapply repr_bound| |by eapply repr_prefix].
  eapply repr_prefix; [|done]. by etrans.
Qed.

Lemma parser_sim n :
  simulates (parseline buf es) tline n /\ simulates (parsepipe buf es) tpipe n /\
  simulates (parseblock buf es) tblock n /\ simulates (parseexec buf es) texec n.
Proof.
  induction n as [|n (IHl & IHp & IHb & IHe)]; [by split_and!|].
  auto using parseline_sim, parsepipe_sim, parseblock_sim, parseexec_sim.
Qed.
End Sim.

(** ** NUL-termination *)

Definition zeros (buf : list Z) (l : list nat) : list Z :=
  foldl (fun buf e => <[e := 0]> buf) buf l.

Lemma zeros_app buf l l' : zeros buf (l ++ l') = zeros (zeros buf l) l'.
Proof. apply foldl_app. Qed.

Lemma zeros_out buf l i : i ∉ l -> zeros buf l !! i = buf !! i.
Proof.
  revert buf. induction l as [|e l IH]; intros buf Hi; [done|]. simpl.
  rewrite IH by set_solver. apply list_lookup_insert_ne. set_solver.
Qed.

Lemma zeros_in buf l i : i ∈ l -> (i < length buf)%nat -> zeros buf l !! i = Some 0.
Proof.
  revert buf. induction l as [|e l IH]; intros buf Hi Hlen; [set_solver|]. simpl.
  destruct (decide (i ∈ l)) as [Hin|Hin].
  - apply IH; [done|]. by rewrite length_insert.
  - rewrite zeros_out by done. assert (i = e) as -> by set_solver.
    by apply list_lookup_insert_eq.
Qed.

(** What [nulterminate] writes: a NUL at the end of every word of the tree. *)
Lemma nulterminate_runs word h p c n buf :
  repr word h p c -> (p < n)%nat ->
  exists l, nulterminate n h p buf = Some (zeros buf l) /\
    (forall e, e ∈ l -> exists q w, word q e w) /\
    repr (fun q e w => word q e w /\ e ∈ l) h p c.
Proof.
  intros Hr. revert n buf.
  induction Hr as [p argv eargv ws Hh Hw|p c q eq k f t Hh Hlt Hw Hr IH
    |p l r t t' Hh Hl Hr1 _ IH1 _ IH2|p l r t t' Hh Hl Hr1 _ IH1 _ IH2|p c t Hh Hlt Hr IH];
    intros n buf Hn; (destruct n as [|n]; [lia|]); cbn [nulterminate]; rewrite Hh.
  - exists eargv. split; [done|]. split.
    + intros e [i Hi]%list_elem_of_lookup.
      destruct (Forall3_lookup_m _ _ _ _ _ _ Hw Hi) as (q & w & _ & _ & H). eauto.
    + eapply repr_exec; [done|]. clear Hh. induction Hw; constructor.
      * split; [done|set_solver].
      * eapply Forall3_impl; [done|]. simpl. set_solver.
  - destruct (IH n buf) as (l & E & He & Hr'); [lia|]. exists (l ++ [eq]).
    rewrite E, zeros_app. split; [done|]. split.
    + intros e [H|H%list_elem_of_singleton]%elem_of_app; [auto|]. subst. eauto.
    + eapply repr_redir; [done..|split; [done|set_solver]|].
      eapply repr_mono; [|done]. simpl. set_solver.
  - destruct (IH1 n buf) as (l1 & E1 & He1 & Hr1'); [lia|].
    destruct (IH2 n (zeros buf l1)) as (l2 & E2 & He2 & Hr2'); [lia|]. exists (l1 ++ l2).
    rewrite E1, zeros_app. split; [done|]. split; [set_solver|].
    eapply repr_pipe; [done..| |]; (eapply repr_mono; [|done]); simpl; set_solver.
  - destruct (IH1 n buf) as (l1 & E1 & He1 & Hr1'); [lia|].
    destruct (IH2 n (zeros buf l1)) as (l2 & E2 & He2 & Hr2'); [lia|]. exists (l1 ++ l2).
    rewrite E1, zeros_app. split; [done|]. split; [set_solver|].
    eapply repr_list; [done..| |]; (eapply repr_mono; [|done]); simpl; set_solver.
  - destruct (IH n buf) as (l & E & He & Hr'); [lia|]. exists l.
    rewrite E. split; [done|]. split; [done|]. by eapply repr_back.
Qed.

(** A word whose end has been cleared, and whose bytes have not, reads as a C
    string. *)
Lemma cstring_lookup (b w : list Z) q :
  (forall j c, w !! j = Some c -> b !! (q + j)%nat = Some c /\ c <> 0) ->
  b !! (q + length w)%nat = Some 0 -> cstring (drop q b) = w.
Proof.
  revert q. induction w as [|c w IH]; intros q Hw Hend.
  - simpl in Hend. rewrite Nat.add_0_r in Hend. by rewrite (drop_S _ _ _ Hend).
  - destruct (Hw O c eq_refl) as [Hc Hz]. rewrite Nat.add_0_r in Hc.
    rewrite (drop_S _ _ _ Hc). simpl. destruct (Z.eqb_spec c 0); [done|]. f_equal.
    apply IH.
    + intros j c' Hj. specialize (Hw (S j) c' Hj). by rewrite <- Nat.add_succ_comm in Hw.
    + simpl in Hend. by rewrite <- Nat.add_succ_comm in Hend.
Qed.

Lemma slice_string line junk l q eq w :
  (forall e, e ∈ l -> exists q' w', slice line q' e w') ->
  slice line q eq w -> eq ∈ l ->
  cstring (drop q (zeros (line ++ 0 :: junk) l)) = w.
Proof.
  intros Hl (Hes & Hne & Hw & Hd & -> & He) Hin.
  assert (Hat : forall j c, w !! j = Some c -> line !! (q + j)%nat = Some c).
  { intros j c Hj. rewrite <- lookup_drop, Hd. by apply lookup_app_l_Some. }
  apply cstring_lookup.
  - intros j c Hj. pose proof (list.Forall_lookup_1 _ _ _ _ Hw Hj) as [Hc Hz]. split; [|done].
    rewrite zeros_out; [by apply lookup_app_l_Some, Hat|].
    intros (q' & w' & _ & _ & _ & _ & _ & He')%Hl. unfold ends in He'.
    rewrite (drop_S _ _ _ (Hat _ _ Hj)) in He'. congruence.
  - apply zeros_in; [done|]. rewrite length_app. simpl. lia.
Qed.

(** ** Theorems *)

Lemma spells_length toks l : spells toks l -> (length toks <= length l)%nat.
Proof.
  induction 1 as [|w t toks rest Hw Ht He Hs IH]; simpl; [lia|].
  destruct (text_head t Ht) as (c & l & -> & _). rewrite !length_app. simpl. lia.
Qed.

(** The test [s != es] after the last [peek] tells whether tokens are left. *)
Lemma peek_end line junk st toks :
  before line (ps st) toks ->
  exists s, peek (line ++ 0 :: junk) (length line) [] st = Ret false (PState s (heap st)) /\
    (s = length line <-> toks = []).
Proof.
  intros Hb. pose proof (skip_space line junk _ _ Hb) as Hq.
  eexists. split.
  - unfold peek. f_equal. apply andb_false_r.
  - destruct Hq as [Hq Hd]. destruct toks as [|t toks].
    + split; [done|]. intros _. apply (f_equal length) in Hd.
      rewrite length_drop in Hd. simpl in Hd. lia.
    + destruct Hd as (rest & Hd & Ht & _). destruct (text_head t Ht) as (c & l & Htext & _).
      split; [|done]. intros Hs. rewrite Hs, drop_all, Htext in Hd. done.
Qed.

(** [parsecmd] by the token parser. *)
Lemma parsecmd_tokens line junk toks n :
  Forall (fun c => c <> 0) line -> spells toks line ->
  match parsecmd n (line ++ 0 :: junk), tline n toks with
  | Parsed p h buf, TRet c [] => repr (fun q _ w => cstring (drop q buf) = w) h p c
  | Failed _, TRet c (_ :: _) => True
  | Failed m, TExit m' => m = m'
  | OutOfFuel, TNoFuel => True
  | _, _ => False
  end.
Proof.
  intros Hline Hsp. unfold parsecmd. rewrite strlen_app by done.
  assert (Hb : before line (ps (PState 0 [])) toks) by (split; [simpl; lia|done]).
  destruct (parser_sim line junk Hline n) as (Hsim & _).
  specialize (Hsim _ _ Hb). unfold bind at 1.
  destruct (parseline _ _ _ _) as [p st| |], (tline n toks) as [c toks'| |]; try done.
  destruct Hsim as (Hb' & _ & Hr).
  unfold bind. destruct (peek_end line junk st toks' Hb') as (s & -> & Hs). cbn [ps heap].
  destruct (Nat.eqb_spec s (length line)) as [E|E]; cbn [negb heap].
  - rewrite (proj1 Hs E) in *. clear toks' Hs.
    destruct (nulterminate_runs _ _ _ _ (S (length (heap st))) (line ++ 0 :: junk) Hr)
      as (l & E' & Hl & Hr'); [apply repr_bound in Hr; lia|].
    rewrite E'. eapply repr_mono; [|done]. intros q eq w [Hw Hin]. by eapply slice_string.
  - destruct toks'; [by destruct E; apply Hs|done].
Qed.

(** C20. The parser decides the grammar.  A line of any bytes but NUL spells a
    list of tokens; with fuel four times its length and four more, [parsecmd]
    either returns a command, and then the tokens derive it and the words of
    the command read as C strings from the buffer that [nulterminate] leaves,
    or reports an error, and then the tokens derive no command. *)
Theorem parsecmd_decides (line junk : list Z) (n : nat) :
  Forall (fun c => c <> 0) line -> (4 * length line + 4 <= n)%nat ->
  exists toks, spells toks line /\
  match parsecmd n (line ++ 0 :: junk) with
  | Parsed p h buf => exists c, derives Line c toks /\
      repr (fun q _ w => cstring (drop q buf) = w) h p c
  | Failed _ => forall c, ~ derives Line c toks
  | OutOfFuel => False
  end.
Proof.
  intros Hline Hn. destruct (tokens_exist line Hline) as [toks Htoks]. exists toks.
  split; [done|]. pose proof (spells_length _ _ Htoks) as Hlen.
  pose proof (parsecmd_tokens line junk toks n Hline Htoks) as H.
  assert (Hcomp : forall c, derives Line c toks -> tline n toks = TRet c []).
  { intros c Hd. pose proof (complete Line c toks Hd n [] I) as Hc.
    rewrite app_nil_r in Hc. apply Hc. simpl. lia. }
  destruct (parsecmd n _) as [p h buf|msg|].
  - destruct (tline n toks) as [c [|]| |] eqn:E; try done. exists c. split; [|done].
    destruct (token_parser_sound n) as [Hs _].
    apply Hs in E as (t & -> & Hd); [by rewrite app_nil_r|by apply spells_ok in Htoks].
  - intros c Hd. by rewrite (Hcomp c Hd) in H.
  - destruct (token_parser_fuel n) as [Hf _].
    destruct (tline n toks) eqn:E; try done. apply (Hf toks); [|lia|done].
    by apply spells_ok in Htoks.
Qed.

(** [ls > f;(cat f|wc)&] followed by old bytes of the buffer. *)
Definition sample_line : list Z :=
  [108; 115; 32; 62; 32; 102; 59; 40; 99; 97; 116; 32; 102; 124; 119; 99; 41; 38].

Definition is_parsed (r : parsed) : bool :=
  match r with Parsed _ _ _ => true | _ => false end.

Lemma parsecmd_decides_witness :
  exists toks c, spells toks sample_line /\ derives Line c toks.
Proof.
  destruct (parsecmd_decides sample_line [120; 10; 0] 76) as (toks & Hs & H).
  - repeat constructor; lia.
  - simpl. lia.
  - assert (E : is_parsed (parsecmd 76 (sample_line ++ 0 :: [120; 10; 0])) = true)
      by (vm_compute; reflexivity).
    destruct (parsecmd 76 _) as [p h buf| |]; [|done..].
    destruct H as (c & Hd & _). by exists toks, c.
Defined.
End ShTheorems.
