(* ===== verification/ShRun.v ===== *)
(** Running a command: [runcmd], [fork1] and the main loop of [user/sh.c].

    A program is the sequence of system calls it makes: each constructor of
    [prog] is a call, with what the program does next for each result; [Fork]
    has the child, the parent and the case that it fails.  [runcmd] is written
    on the heap and buffer that [parsecmd] leaves; [runtree] is the same on
    command trees.

    [execs] runs a program against descriptor tables as the kernel keeps them
    ([open], [dup] and [pipe] take the lowest free descriptor, found by
    [find_fd] of [Sysfile]) and collects what is executed, each command with
    the descriptors it starts with.  Shown: a command line is executed as
    its structure says, with every pipe end closed except the two that
    connect neighbours. *)

From S2P Require Import Prelude Sysfile Fcntl ShParse ShLex ShGrammar ShTheorems.

Module ShRun.
Import Sh Lex Grammar ShTheorems.

Inductive prog : Type :=
| SExit (status : Z)
| SExec (argv : list (list Z)) (k : prog)
| SOpen (file : list Z) (mode : Z) (k : Z -> prog)
| SClose (fd : Z) (k : prog)
| SDup (fd : Z) (k : Z -> prog)
| SPipe (k : option (Z * Z) -> prog)
| SFork (child parent failed : prog)
| SWait (k : prog)
| SChdir (dir : list Z) (k : Z -> prog)
| SPrint (msg : string) (k : prog).

Definition panic_ (msg : string) : prog := SPrint msg (SExit 1).

Definition fork1 (child parent : prog) : prog := SFork child parent (panic_ "fork").

(** The commands and their words are read from the heap and the buffer; the
    recursion follows pointers, so it takes fuel. *)
Fixpoint runcmd (n : nat) (h : list node) (buf : list Z) (p : nat) : option prog :=
  let str q := cstring (drop q buf) in
  match n with
  | O => None
  | S n =>
      match h !! p with
      | None => None
      | Some (EXEC argv _) =>
          Some (if bool_decide (argv = []) then SExit 1
                else SExec (str <$> argv) (SPrint "exec failed" (SExit 0)))
      | Some (REDIR c file _ mode fd) =>
          k ← runcmd n h buf c;
          Some (SClose fd (SOpen (str file) mode (fun r =>
            if r <? 0 then SPrint "open failed" (SExit 1) else k)))
      | Some (LIST l r) =>
          kl ← runcmd n h buf l; kr ← runcmd n h buf r;
          Some (fork1 kl (SWait kr))
      | Some (PIPE l r) =>
          kl ← runcmd n h buf l; kr ← runcmd n h buf r;
          Some (SPipe (fun p =>
            match p with
            | None => panic_ "pipe"
            | Some (p0, p1) =>
                fork1 (SClose 1 (SDup p1 (fun _ => SClose p0 (SClose p1 kl))))
                (fork1 (SClose 0 (SDup p0 (fun _ => SClose p0 (SClose p1 kr))))
                (SClose p0 (SClose p1 (SWait (SWait (SExit 0))))))
            end))
      | Some (BACK c) => k ← runcmd n h buf c; Some (fork1 k (SExit 0))
      end
  end.

(** What the child of the main loop does: [runcmd(parsecmd(buf))]. *)
Definition child (n : nat) (buf : list Z) : option prog :=
  match parsecmd n buf with
  | Parsed p h buf => runcmd (S p) h buf p
  | Failed msg => Some (panic_ msg)
  | OutOfFuel => None
  end.

(** [buf[0] == 'c' && buf[1] == 'd' && buf[2] == ' '] *)
Definition is_cd (l : list Z) : bool :=
  bool_decide (take 3 l = [99; 100; 32]).

(** [buf[strlen(buf)-1] = 0] *)
Definition chop (l : list Z) : list Z := take (length l - 1) l.

(** The main loop on the lines [getcmd] returns, where [child] is what a child
    does with a line. *)
Fixpoint main_loop (child : list Z -> prog) (input : list (list Z)) : prog :=
  match input with
  | [] => SExit 0
  | l :: input =>
      if is_cd l then
        SChdir (drop 3 (chop l)) (fun r =>
          if r <? 0 then SPrint "cannot cd" (main_loop child input)
          else main_loop child input)
      else fork1 (child l) (SWait (main_loop child input))
  end.

(** Opening the console until three descriptors are open: at most four
    rounds, as descriptors are handed out from below. *)
Definition console : list Z := [99; 111; 110; 115; 111; 108; 101].

Fixpoint open_console (n : nat) (k : prog) : prog :=
  match n with
  | O => k
  | S n =>
      SOpen console O_RDWR (fun fd =>
        if 0 <=? fd then if 3 <=? fd then SClose fd k else open_console n k else k)
  end.

Definition main (child : list Z -> prog) (input : list (list Z)) : prog :=
  open_console 4 (main_loop child input).

(** The program of a command tree. *)
Fixpoint runtree (c : cmd) : prog :=
  match c with
  | CExec [] => SExit 1
  | CExec argv => SExec argv (SPrint "exec failed" (SExit 0))
  | CRedir c k f =>
      SClose (fd_of k) (SOpen f (mode_of k) (fun fd =>
        if fd <? 0 then SPrint "open failed" (SExit 1) else runtree c))
  | CList l r => fork1 (runtree l) (SWait (runtree r))
  | CPipe l r =>
      SPipe (fun p =>
        match p with
        | None => panic_ "pipe"
        | Some (p0, p1) =>
            fork1 (SClose 1 (SDup p1 (fun _ => SClose p0 (SClose p1 (runtree l)))))
            (fork1 (SClose 0 (SDup p0 (fun _ => SClose p0 (SClose p1 (runtree r)))))
            (SClose p0 (SClose p1 (SWait (SWait (SExit 0))))))
        end)
  | CBack c => fork1 (runtree c) (SExit 0)
  end.

(** ** Descriptor tables *)

Inductive obj : Type :=
| OFile (name : list Z) (mode : Z)
| OPipeR (id : nat)
| OPipeW (id : nat).

Abbreviation table := (list (option obj)).

(** The calls on the table of a process. *)
Definition alloc (t : table) (o : obj) : option (Z * table) :=
  fd ← find_fd t 0; t ← zset t fd (Some o); Some (fd, t).

Definition close_fd (t : table) (fd : Z) : table := default t (zset t fd None).

Definition dup_fd (t : table) (fd : Z) : option (Z * table) :=
  x ← zget t fd; o ← x; alloc t o.

Definition pipe_fd (t : table) (id : nat) : option (Z * Z * table) :=
  '(r, t) ← alloc t (OPipeR id); '(w, t) ← alloc t (OPipeW id); Some (r, w, t).

Section Execs.
(** Whether a file can be opened in a mode. *)
Context (opens : list Z -> Z -> bool).

(** What a program executes, in the order in which a child runs before its
    parent goes on, where [fork] succeeds; pipes are numbered from [id]. *)
Fixpoint execs (p : prog) (t : table) (id : nat) : list (list (list Z) * table) * nat :=
  match p with
  | SExit _ => ([], id)
  | SExec argv _ => ([(argv, t)], id)
  | SOpen f m k =>
      match (if opens f m then alloc t (OFile f m) else None) with
      | Some (fd, t) => execs (k fd) t id
      | None => execs (k (-1)) t id
      end
  | SClose fd k => execs k (close_fd t fd) id
  | SDup fd k =>
      match dup_fd t fd with
      | Some (fd', t) => execs (k fd') t id
      | None => execs (k (-1)) t id
      end
  | SPipe k =>
      match pipe_fd t id with
      | Some (r, w, t) => execs (k (Some (r, w))) t (S id)
      | None => execs (k None) t id
      end
  | SFork child parent _ =>
      let '(l, id) := execs child t id in
      let '(l', id) := execs parent t id in
      (l ++ l', id)
  | SWait k => execs k t id
  | SChdir _ k => execs (k 0) t id
  | SPrint _ k => execs k t id
  end.

(** What a command line means: every command with its standard input, output
    and error. *)
Fixpoint meaning (c : cmd) (i o e : obj) (id : nat)
    : list (list (list Z) * (obj * obj * obj)) * nat :=
  match c with
  | CExec [] => ([], id)
  | CExec argv => ([(argv, (i, o, e))], id)
  | CRedir c k f =>
      if opens f (mode_of k) then
        match k with
        | RIn => meaning c (OFile f (mode_of k)) o e id
        | _ => meaning c i (OFile f (mode_of k)) e id
        end
      else ([], id)
  | CList l r =>
      let '(a, id) := meaning l i o e id in
      let '(b, id) := meaning r i o e id in
      (a ++ b, id)
  | CPipe l r =>
      let '(a, id') := meaning l i (OPipeW id) e (S id) in
      let '(b, id') := meaning r (OPipeR id) o e id' in
      (a ++ b, id')
  | CBack c => meaning c i o e id
  end.
End Execs.

Definition std (i o e : obj) (n : nat) : table := Some i :: Some o :: Some e :: replicate n None.

Definition on_std (n : nat) (x : list (list Z) * (obj * obj * obj)) : list (list Z) * table :=
  let '(argv, (i, o, e)) := x in (argv, std i o e n).

(** ** The calls on tables *)

Lemma find_fd_first (pre rest : table) k :
  Forall is_Some pre -> find_fd (pre ++ None :: rest) k = Some (k + Z.of_nat (length pre)).
Proof.
  intros Hp. revert k. induction Hp as [|x pre [o ->] _ IH]; intros k; simpl; [f_equal; lia|].
  rewrite IH. f_equal. lia.
Qed.

Lemma zset_at {A} (pre rest : list A) x y :
  zset (pre ++ x :: rest) (Z.of_nat (length pre)) y = Some (pre ++ y :: rest).
Proof.
  unfold zset. rewrite decide_True by (rewrite length_app; simpl; lia).
  rewrite Nat2Z.id. f_equal. replace (length pre) with (length pre + 0)%nat by lia.
  by rewrite insert_app_r.
Qed.

Lemma zget_at {A} (pre rest : list A) x :
  zget (pre ++ x :: rest) (Z.of_nat (length pre)) = Some x.
Proof.
  unfold zget. rewrite decide_True by lia. rewrite Nat2Z.id. by apply list_lookup_middle.
Qed.

Lemma alloc_first pre rest o :
  Forall is_Some pre ->
  alloc (pre ++ None :: rest) o = Some (Z.of_nat (length pre), pre ++ Some o :: rest).
Proof.
  intros Hp. unfold alloc. rewrite find_fd_first by done.
  cbn [mbind option_bind]. by rewrite Z.add_0_l, zset_at.
Qed.

Lemma close_at pre rest x : close_fd (pre ++ x :: rest) (Z.of_nat (length pre)) = pre ++ None :: rest.
Proof. unfold close_fd. by rewrite zset_at. Qed.

(** The tables that occur while the shell sets up a command; the descriptors
    are numerals, so these are instances up to computation. *)
Lemma close_0 x rest : close_fd (x :: rest) 0 = None :: rest.
Proof. exact (close_at [] rest x). Qed.
Lemma close_1 a x rest : close_fd (a :: x :: rest) 1 = a :: None :: rest.
Proof. exact (close_at [a] rest x). Qed.
Lemma close_3 a b c x rest : close_fd (a :: b :: c :: x :: rest) 3 = a :: b :: c :: None :: rest.
Proof. exact (close_at [a; b; c] rest x). Qed.
Lemma close_4 a b c d x rest :
  close_fd (a :: b :: c :: d :: x :: rest) 4 = a :: b :: c :: d :: None :: rest.
Proof. exact (close_at [a; b; c; d] rest x). Qed.
Lemma alloc_0 rest o : alloc (None :: rest) o = Some (0, Some o :: rest).
Proof. by apply (alloc_first []). Qed.
Lemma alloc_1 a rest o : alloc (Some a :: None :: rest) o = Some (1, Some a :: Some o :: rest).
Proof. apply (alloc_first [Some a]). by repeat constructor. Qed.
Lemma alloc_3 a b c rest o :
  alloc (Some a :: Some b :: Some c :: None :: rest) o =
  Some (3, Some a :: Some b :: Some c :: Some o :: rest).
Proof. apply (alloc_first [Some a; Some b; Some c]). by repeat constructor. Qed.
Lemma alloc_4 a b c d rest o :
  alloc (Some a :: Some b :: Some c :: Some d :: None :: rest) o =
  Some (4, Some a :: Some b :: Some c :: Some d :: Some o :: rest).
Proof. apply (alloc_first [Some a; Some b; Some c; Some d]). by repeat constructor. Qed.
Lemma get_3 (a b c x : option obj) rest : zget (a :: b :: c :: x :: rest) 3 = Some x.
Proof. exact (zget_at [a; b; c] rest x). Qed.
Lemma get_4 (a b c d x : option obj) rest : zget (a :: b :: c :: d :: x :: rest) 4 = Some x.
Proof. exact (zget_at [a; b; c; d] rest x). Qed.
#[local] Create Rewrite HintDb tables.
#[local] Hint Rewrite close_0 close_1 close_3 close_4 alloc_0 alloc_1 alloc_3 alloc_4
  get_3 get_4 : tables.
Ltac tables := repeat (autorewrite with tables; cbn [mbind option_bind]).

(** [open] after [close] of a standard descriptor takes its place. *)
Lemma reopen_std k i o e n x :
  alloc (close_fd (std i o e n) (fd_of k)) x =
  Some (fd_of k, match k with RIn => std x o e n | _ => std i x e n end).
Proof. unfold std. by destruct k; cbn [fd_of]; tables. Qed.

Definition with_pipe (i o e : obj) (id n : nat) : table :=
  Some i :: Some o :: Some e :: Some (OPipeR id) :: Some (OPipeW id) :: replicate n None.

Lemma pipe_std i o e n id :
  pipe_fd (std i o e (S (S n))) id = Some (3, 4, with_pipe i o e id n).
Proof. unfold pipe_fd, std. cbn [replicate]. by tables. Qed.

Lemma close_both i o e id n :
  close_fd (close_fd (with_pipe i o e id n) 3) 4 = std i o e (S (S n)).
Proof. unfold with_pipe. by tables. Qed.

(** The child of a pipe connects one end and closes both. *)
Lemma connect_left i o e id n :
  dup_fd (close_fd (with_pipe i o e id n) 1) 4 = Some (1, with_pipe i (OPipeW id) e id n).
Proof. unfold with_pipe, dup_fd. by tables. Qed.

Lemma connect_right i o e id n :
  dup_fd (close_fd (with_pipe i o e id n) 0) 3 = Some (0, with_pipe (OPipeR id) o e id n).
Proof. unfold with_pipe, dup_fd. by tables. Qed.

(** ** Trees and heaps *)

Lemma runcmd_tree h buf p c n :
  repr (fun q _ w => cstring (drop q buf) = w) h p c -> (p < n)%nat ->
  runcmd n h buf p = Some (runtree c).
Proof.
  intros Hr. revert n.
  induction Hr as [p argv eargv ws Hh Hw|p c q eq k f t Hh Hlt Hw Hr IH
    |p l r t t' Hh Hl Hr1 _ IH1 _ IH2|p l r t t' Hh Hl Hr1 _ IH1 _ IH2|p c t Hh Hlt Hr IH];
    intros n Hn; (destruct n as [|n]; [lia|]); cbn [runcmd]; rewrite Hh.
  - assert (ws = (fun q => cstring (drop q buf)) <$> argv) as ->.
    { clear Hh Hn. by induction Hw; csimpl; simplify_eq. }
    by destruct argv.
  - rewrite IH by lia. by rewrite Hw.
  - by rewrite IH1, IH2 by lia.
  - by rewrite IH1, IH2 by lia.
  - by rewrite IH by lia.
Qed.

(** ** Theorems *)

Section Meaning.
Context (opens : list Z -> Z -> bool).

Lemma runtree_execs c i o e n id :
  execs opens (runtree c) (std i o e (S (S n))) id =
  (on_std (S (S n)) <$> (meaning opens c i o e id).1, (meaning opens c i o e id).2).
Proof.
  revert i o e id. induction c as [[|w argv]|c IH k f|l IHl r IHr|l IHl r IHr|c IH];
    intros i o e id; cbn [runtree execs meaning fork1].
  - done.
  - done.
  - rewrite reopen_std. destruct (opens f (mode_of k)); [|done].
    by destruct k; simpl; rewrite IH.
  - rewrite pipe_std. cbn [execs fork1].
    rewrite connect_left, connect_right, !close_both. cbn [execs].
    rewrite IHl. destruct (meaning opens l _ _ _ _) as [a id1]. simpl.
    rewrite IHr. destruct (meaning opens r _ _ _ _) as [b id2]. simpl.
    by rewrite app_nil_r, fmap_app.
  - rewrite IHl. destruct (meaning opens l _ _ _ _) as [a id1]. simpl.
    rewrite IHr. destruct (meaning opens r _ _ _ _) as [b id2]. simpl.
    by rewrite fmap_app.
  - rewrite IH. destruct (meaning opens c _ _ _ _) as [a id1]. simpl. by rewrite app_nil_r.
Qed.
End Meaning.

(** The shell makes sure that descriptors 0, 1 and 2 are open: the console
    fills the free ones among them, and the one opened beyond is closed. *)
Lemma main_opens_three opens child input (l : list obj) n id :
  opens console O_RDWR = true -> (length l <= 3)%nat ->
  execs opens (main child input) ((Some <$> l) ++ replicate (3 - length l + S n) None) id =
  execs opens (main_loop child input)
    ((Some <$> l) ++ replicate (3 - length l) (Some (OFile console O_RDWR)) ++
     replicate (S n) None) id.
Proof.
  intros Ho Hl. unfold main. generalize (main_loop child input). intros k.
  assert (Hstep : forall j (l : list obj) rest,
    execs opens (open_console (S j) k) ((Some <$> l) ++ None :: rest) id =
    execs opens (let fd := Z.of_nat (length l) in if 3 <=? fd then SClose fd k else open_console j k)
      ((Some <$> l) ++ Some (OFile console O_RDWR) :: rest) id).
  { intros j l' rest. cbn [open_console execs]. rewrite Ho, alloc_first, length_fmap.
    - by destruct (Z.leb_spec 0 (Z.of_nat (length l'))); [|lia].
    - apply Forall_fmap, list.Forall_true. intros x. by eexists. }
  assert (Hlast : forall j (l : list obj) rest, length l = 3%nat ->
    execs opens (open_console (S j) k) ((Some <$> l) ++ None :: rest) id =
    execs opens k ((Some <$> l) ++ None :: rest) id).
  { intros j l' rest Hl'. rewrite Hstep. cbv zeta.
    destruct (Z.leb_spec 3 (Z.of_nat (length l'))); [|lia]. cbn [execs].
    rewrite <- (length_fmap Some l'). by rewrite close_at. }
  set (c := OFile console O_RDWR).
  destruct l as [|a [|b [|d [|]]]]; simpl in Hl; [..|lia].
  - etrans; [apply (Hstep 3%nat [])|]. etrans; [apply (Hstep 2%nat [c])|].
    etrans; [apply (Hstep 1%nat [c; c])|]. apply (Hlast 0%nat [c; c; c]). done.
  - etrans; [apply (Hstep 3%nat [a])|]. etrans; [apply (Hstep 2%nat [a; c])|].
    apply (Hlast 1%nat [a; c; c]). done.
  - etrans; [apply (Hstep 3%nat [a; b])|]. apply (Hlast 2%nat [a; b; c]). done.
  - apply (Hlast 3%nat [a; b; d]). done.
Qed.

(** C21. The shell executes what a command line means.  When the tokens of a
    line derive a command, the child of the main loop starts exactly the
    commands of that command, each with the standard input, output and error
    its redirections and pipes give it and no other descriptor open. *)
Theorem shell_runs_line (opens : list Z -> Z -> bool) (line junk : list Z) (toks : list tok)
    (c : cmd) (n m id : nat) (i o e : obj) :
  Forall (fun c => c <> 0) line -> spells toks line -> derives Line c toks ->
  (4 * length line + 4 <= n)%nat -> (2 <= m)%nat ->
  exists p, child n (line ++ 0 :: junk) = Some p /\
    execs opens p (std i o e m) id =
    (on_std m <$> (meaning opens c i o e id).1, (meaning opens c i o e id).2).
Proof.
  intros Hline Hsp Hd Hn Hm. destruct m as [|[|m]]; [lia..|].
  exists (runtree c). split; [|apply runtree_execs].
  pose proof (parsecmd_tokens line junk toks n Hline Hsp) as H.
  pose proof (complete Line c toks Hd n [] I) as Hc. rewrite app_nil_r in Hc.
  pose proof (spells_length _ _ Hsp). cbn [parser_of need] in Hc. rewrite Hc in H by lia.
  unfold child. destruct (parsecmd n _) as [p h buf|msg|]; [|done..].
  apply runcmd_tree; [done|lia].
Qed.

(** [a|b]: the output of [a] is the input of [b]. *)
Lemma shell_runs_line_witness :
  exists p, child 16 [97; 124; 98; 0] = Some p /\
    execs (fun _ _ => true) p (std (OFile [] 0) (OFile [] 1) (OFile [] 1) 13) 7 =
    ([([[97]], std (OFile [] 0) (OPipeW 7) (OFile [] 1) 13);
      ([[98]], std (OPipeR 7) (OFile [] 1) (OFile [] 1) 13)], 8%nat).
Proof.
  apply (shell_runs_line (fun _ _ => true) [97; 124; 98] [] [TWord [97]; TSym PIPE_; TWord [98]]
    (CPipe (CExec [[97]]) (CExec [[98]])) 16 13 7 (OFile [] 0) (OFile [] 1) (OFile [] 1)).
  - repeat constructor; lia.
  - apply (spells_cons [] (TWord [97]) _ [124; 98]); [constructor| | |].
    + split; [done|]. repeat constructor; lia.
    + done.
    + apply (spells_cons [] (TSym PIPE_) _ [98]); [constructor|vm_compute; set_solver|done|].
      apply (spells_cons [] (TWord [98]) _ []); [constructor| |done|apply spells_nil; constructor].
      split; [done|]. repeat constructor; lia.
  - apply (derives_back 0 _ [TWord [97]; TSym PIPE_; TWord [98]]).
    apply (derives_pipe _ _ [TWord [97]]); [|apply derives_command];
      (apply (derives_exec _ []); [repeat constructor|vm_compute; lia]).
  - simpl. lia.
  - lia.
Defined.
End ShRun.
