(* ===== verification/Umalloc.v ===== *)
(** The user-level memory allocator ([user/umalloc.c]).

    A block starts with a header of 16 bytes: the address of the next free
    block and the size of the block in headers.  The free blocks form a ring in
    address order that starts at the static header [base]; [freep] points
    somewhere into it.  The memory of the process is byte-addressed and ends at
    [brk], the size that the system call [sbrk] changes. *)

From S2P Require Import Prelude Mem.

Module Umalloc.

(** ** Headers *)

Definition HEADER : Z := 16.

Definition ptr_of (m : mem) (p : Z) : Z := ld64 m p.
Definition size_of (m : mem) (p : Z) : Z := ld_le 4 m (p + 8).
Definition put_ptr (m : mem) (p v : Z) : mem := st64 m p v.
Definition put_size (m : mem) (p v : Z) : mem := st_le 4 m (p + 8) v.

(** [p + n] for a pointer [p] to a header. *)
Definition hadd (p n : Z) : Z := u64 (p + HEADER * n).

(** ** State *)

Record heap : Type := Heap { umem : mem; brk : Z; freep : Z }.

Definition get_ptr (p : Z) : M heap Z := kgets (fun h => ptr_of (umem h) p).
Definition get_size (p : Z) : M heap Z := kgets (fun h => size_of (umem h) p).
Definition set_ptr (p v : Z) : M heap unit := kmodify (fun h => Heap (put_ptr (umem h) p v) (brk h) (freep h)).
Definition set_size (p v : Z) : M heap unit := kmodify (fun h => Heap (put_size (umem h) p v) (brk h) (freep h)).
Definition set_freep (p : Z) : M heap unit := kmodify (fun h => Heap (umem h) (brk h) p).

(** More than the number of headers below [brk], twice: a bound on the rounds
    of the loops. *)
Definition rounds (h : heap) : nat := 2 * Z.to_nat (brk h / HEADER) + 2.

(** ** [free] *)

Fixpoint free_find (k : nat) (bp p : Z) : M heap Z :=
  match k with
  | O => panic "free: does not return"
  | S k =>
      let! q := get_ptr p in
      if (p <? bp) && (bp <? q) then kret p
      else if (q <=? p) && ((p <? bp) || (bp <? q)) then kret p
      else free_find k bp q
  end.

(** The block [bp] after the free block [p]: merged with the one after it if
    they touch. *)
Definition join_next (bp p : Z) : M heap unit :=
  let! bs := get_size bp in
  let! q := get_ptr p in
  if hadd bp bs =? q then
    let! qs := get_size q in
    set_size bp (u32 (bs + qs)) ;;;
    let! x := get_ptr q in
    set_ptr bp x
  else set_ptr bp q.

Definition join_prev (bp p : Z) : M heap unit :=
  let! ps := get_size p in
  if hadd p ps =? bp then
    let! bs := get_size bp in
    set_size p (u32 (ps + bs)) ;;;
    let! x := get_ptr bp in
    set_ptr p x
  else set_ptr p bp.

Definition free (ap : Z) : M heap unit :=
  let bp := hadd ap (-1) in
  let! h := kget in
  let! p := free_find (rounds h) bp (freep h) in
  join_next bp p ;;;
  join_prev bp p ;;;
  set_freep p.

Section Malloc.
(** [base] is the address of the static header.  [grant b n] tells whether the
    kernel has the memory to let the process grow from [b] by [n] bytes. *)
Context (base : Z) (grant : Z -> Z -> bool).

(** The effect of [sys_sbrk] and [growproc] on the size of the process. *)
Definition sbrk (n : Z) : M heap Z :=
  let! h := kget in
  let new := u64 (brk h + n) in
  if 0 <? n then
    if grant (brk h) n then kput (Heap (umem h) new (freep h)) ;;; kret (brk h) else kret (-1)
  else if brk h <=? new then kret (brk h)
  else kput (Heap (umem h) new (freep h)) ;;; kret (brk h).

(** ** [malloc] *)

Definition morecore (nu : Z) : M heap Z :=
  let nu := if nu <? 4096 then 4096 else nu in
  let! p := sbrk (i32 (nu * HEADER)) in
  if p =? -1 then kret 0
  else
    set_size p nu ;;;
    free (hadd p 1) ;;;
    kgets freep.

(** The block [p] after [prevp] has [sz] units, enough for [nunits]. *)
Definition take_block (nunits prevp p sz : Z) : M heap Z :=
  let! p :=
    if sz =? nunits then
      let! x := get_ptr p in
      set_ptr prevp x ;;;
      kret p
    else
      set_size p (u32 (sz - nunits)) ;;;
      let p := hadd p (u32 (sz - nunits)) in
      set_size p nunits ;;;
      kret p in
  set_freep prevp ;;;
  kret (hadd p 1).

Fixpoint malloc_loop (k : nat) (nunits prevp p : Z) : M heap Z :=
  match k with
  | O => panic "malloc: does not return"
  | S k =>
      let! sz := get_size p in
      if nunits <=? sz then take_block nunits prevp p sz
      else
        let! f := kgets freep in
        if p =? f then
          let! q := morecore nunits in
          if q =? 0 then kret 0
          else let! n := get_ptr q in malloc_loop k nunits q n
        else let! n := get_ptr p in malloc_loop k nunits p n
  end.

Definition nunits (nbytes : Z) : Z := u32 (u64 (nbytes + HEADER - 1) / HEADER + 1).

Definition malloc (nbytes : Z) : M heap Z :=
  let! h := kget in
  (if freep h =? 0 then set_ptr base base ;;; set_freep base ;;; set_size base 0 else kret tt) ;;;
  let! prevp := kgets freep in
  let! p := get_ptr prevp in
  malloc_loop (rounds h) (nunits nbytes) prevp p.

(** ** A program that uses the allocator *)

(** The memory, and the blocks that the program has, as header and size. *)
Record client : Type := Client { chp : heap; blocks : list (Z * Z) }.

(** The program calls [malloc] and [free], and writes to its blocks. *)
Inductive cstep (c : client) : client -> Prop :=
| c_malloc n p h :
    0 <= n < 2 ^ 31 - 32 -> malloc n (chp c) = Ok p h ->
    cstep c (Client h (if p =? 0 then blocks c else (p - HEADER, nunits n) :: blocks c))
| c_free l1 b l2 h :
    blocks c = l1 ++ b :: l2 -> free (b.1 + HEADER) (chp c) = Ok tt h -> cstep c (Client h (l1 ++ l2))
| c_write b a v :
    b ∈ blocks c -> b.1 + HEADER <= a < b.1 + HEADER * b.2 ->
    cstep c (Client (Heap (st8 (umem (chp c)) a v) (brk (chp c)) (freep (chp c))) (blocks c)).

(** It may also call [sbrk] itself. *)
Inductive pstep (c : client) : client -> Prop :=
| p_alloc c' : cstep c c' -> pstep c c'
| p_sbrk n p h :
    0 <= n < 2 ^ 31 -> sbrk n (chp c) = Ok p h -> pstep c (Client h (blocks c)).

End Malloc.
End Umalloc.
