(* ===== verification/UmallocTheorems.v ===== *)
(** The free list of the user-level allocator, and [free].

    [linked] describes the ring of free blocks; [hinv] says that the free
    blocks and the blocks of the program are disjoint, lie between [base] and
    [brk], and that the free blocks are in address order with no two touching.
    [free] finds the place of the block, preserves the invariant and the bytes
    of the other blocks, and adds exactly its units to the free ones. *)

From stdpp Require Import gmap.
From S2P Require Import Prelude Mem Umalloc.
Import Umalloc.

Abbreviation blk := (Z * Z)%type.
Implicit Types (m : mem) (p q : Z) (b x y : blk) (l : list blk) (h : heap).

(** ** Loads after stores *)

Definition hsep p q : Prop := p + 16 <= q \/ q + 16 <= p.

Lemma ptr_put_ptr_eq m p v : 0 <= v < 2 ^ 64 -> ptr_of (put_ptr m p v) p = v.
Proof. apply ld64_st64_eq. Qed.

Lemma ptr_put_ptr_ne m p q v : hsep p q -> ptr_of (put_ptr m p v) q = ptr_of m q.
Proof. intros H. apply ld64_st64_ne. unfold disjoint, hsep in *. lia. Qed.

Lemma ptr_put_size m p q v : p = q \/ hsep p q -> ptr_of (put_size m p v) q = ptr_of m q.
Proof. intros H. apply (ld_st_le_ne 4 8). unfold disjoint, hsep in *. lia. Qed.

Lemma size_put_size_eq m p v : 0 <= v < 2 ^ 32 -> size_of (put_size m p v) p = v.
Proof. intros. by apply (ld_st_le_eq 4). Qed.

Lemma size_put_size_ne m p q v : hsep p q -> size_of (put_size m p v) q = size_of m q.
Proof. intros H. apply (ld_st_le_ne 4 4). unfold disjoint, hsep in *. lia. Qed.

Lemma size_put_ptr m p q v : p = q \/ hsep p q -> size_of (put_ptr m p v) q = size_of m q.
Proof. intros H. apply (ld_st_le_ne 8 4). unfold disjoint, hsep in *. lia. Qed.

Lemma put_ptr_out m p v a : a < p \/ p + 16 <= a -> put_ptr m p v a = m a.
Proof. intros H. apply st_le_out. lia. Qed.

Lemma put_size_out m p v a : a < p \/ p + 16 <= a -> put_size m p v a = m a.
Proof. intros H. apply st_le_out. lia. Qed.

(** ** The ring of free blocks *)

Definition hd_addr l (e : Z) : Z := match l with [] => e | b :: _ => b.1 end.

(** The blocks of [l] with their sizes, each pointing to the next, the last to
    [e]. *)
Fixpoint linked m l (e : Z) : Prop :=
  match l with
  | [] => True
  | b :: l => size_of m b.1 = b.2 /\ ptr_of m b.1 = hd_addr l e /\ linked m l e
  end.

Lemma hd_addr_app l1 l2 e : hd_addr (l1 ++ l2) e = hd_addr l1 (hd_addr l2 e).
Proof. by destruct l1. Qed.

Lemma linked_app m l1 l2 e : linked m (l1 ++ l2) e <-> linked m l1 (hd_addr l2 e) /\ linked m l2 e.
Proof.
  induction l1 as [|b l1 IH]; cbn [app linked]; [tauto|]. rewrite IH, hd_addr_app. tauto.
Qed.

Lemma linked_same m m' l e :
  linked m l e -> (forall b, b ∈ l -> ptr_of m' b.1 = ptr_of m b.1 /\ size_of m' b.1 = size_of m b.1) ->
  linked m' l e.
Proof.
  induction l as [|b l IH]; cbn [linked]; [done|]. intros (H1 & H2 & H3) Hs.
  destruct (Hs b ltac:(left)) as [-> ->]. split; [done|]. split; [done|]. apply IH; [done|].
  intros c Hc. apply Hs. by right.
Qed.

(** A ring can be read from any of its blocks. *)
Lemma linked_rotate m l1 x l2 e :
  hd_addr (l1 ++ x :: l2) e = e -> linked m (l1 ++ x :: l2) e -> linked m (x :: l2 ++ l1) x.1.
Proof.
  rewrite hd_addr_app, linked_app. intros Hh [H1 H2]. change (x :: l2 ++ l1) with ((x :: l2) ++ l1).
  apply linked_app. cbn [hd_addr] in *. by rewrite Hh.
Qed.

(** ** Blocks in order *)

Definition bend b : Z := b.1 + 16 * b.2.

(** [y] comes after [x] and does not touch it. *)
Definition apart x y : Prop := x.1 + 16 <= y.1 /\ bend x < y.1.

Fixpoint spaced l : Prop :=
  match l with
  | [] => True
  | b :: l => Forall (apart b) l /\ spaced l
  end.

Lemma spaced_app l1 l2 : spaced (l1 ++ l2) <-> spaced l1 /\ spaced l2 /\ Forall (fun x => Forall (apart x) l2) l1.
Proof.
  induction l1 as [|b l1 IH]; cbn [app spaced].
  - split; [intros; split_and!; auto|tauto].
  - rewrite IH, Forall_app, list.Forall_cons. tauto.
Qed.

Lemma spaced_addr l x y : spaced l -> x ∈ l -> y ∈ l -> x = y \/ hsep x.1 y.1.
Proof.
  induction l as [|b l IH]; cbn [spaced]; [by intros ? ?%not_elem_of_nil|]. intros [Hf Hs].
  rewrite !elem_of_cons. rewrite list.Forall_forall in Hf. unfold hsep.
  intros [-> |Hx] [-> |Hy]; [by left| | |by apply IH].
  - destruct (Hf y Hy). right. lia.
  - destruct (Hf x Hx). right. lia.
Qed.

Lemma spaced_split l1 x l2 :
  spaced (l1 ++ x :: l2) ->
  spaced l1 /\ spaced l2 /\ Forall (fun y => apart y x) l1 /\ Forall (apart x) l2 /\ Forall (fun y => Forall (apart y) l2) l1.
Proof.
  intros (H1 & [H2 H3] & H4)%spaced_app. split_and!; try done.
  - revert H4. apply Forall_impl. intros y [H _]%Forall_cons_1. done.
  - revert H4. apply Forall_impl. intros y [_ H]%Forall_cons_1. done.
Qed.

Lemma spaced_join l1 x l2 :
  spaced l1 -> spaced l2 -> Forall (fun y => apart y x) l1 -> Forall (apart x) l2 ->
  Forall (fun y => Forall (apart y) l2) l1 -> spaced (l1 ++ x :: l2).
Proof.
  intros H1 H2 H3 H4 H5. apply spaced_app. split; [done|]. split; [by split|].
  apply list.Forall_forall. intros y Hy. rewrite list.Forall_forall in H3, H5. apply Forall_cons; auto.
Qed.

Definition units l : Z := foldr (fun b s => b.2 + s) 0 l.

Lemma units_app l1 l2 : units (l1 ++ l2) = units l1 + units l2.
Proof. induction l1 as [|b l1 IH]; cbn [app units foldr]; [done|]. fold (units (l1 ++ l2)) (units l1). lia. Qed.

(** Blocks that are apart fill the space between them. *)
Lemma spaced_room l lo hi :
  spaced l -> Forall (fun b => lo <= b.1 /\ 1 <= b.2 /\ bend b <= hi) l -> lo <= hi ->
  lo + 16 * Z.of_nat (length l) <= hi.
Proof.
  revert lo. induction l as [|b l IH]; intros lo Hs Hb Hlo; cbn [length]; [lia|]. destruct Hs as [Hf Hs].
  apply Forall_cons_1 in Hb as [(H1 & H2 & H3) Hb].
  assert (b.1 + 16 + 16 * Z.of_nat (length l) <= hi); [|lia]. unfold bend in *. apply IH; [done| |lia].
  rewrite list.Forall_forall in Hf, Hb |- *. intros c Hc. destruct (Hf c Hc), (Hb c Hc) as (? & ? & ?). lia.
Qed.

(** ** The invariant *)

Definition bdisj x y : Prop := bend x <= y.1 \/ bend y <= x.1.

Definition ring (base : Z) l : list blk := (base, 0) :: l.

Record hinv (base : Z) (F A : list blk) h : Prop := {
  hi_base : 0 < base;
  hi_brk : base + 16 <= brk h <= 2 ^ 32;
  hi_link : linked (umem h) (ring base F) base;
  hi_freep : exists f, f ∈ ring base F /\ freep h = f.1;
  hi_spaced : spaced (ring base F);
  hi_in : Forall (fun b => base + 16 <= b.1 /\ 1 <= b.2 /\ bend b <= brk h) (F ++ A);
  hi_size : Forall (fun b => size_of (umem h) b.1 = b.2) A;
  hi_AA : ForallOrdPairs bdisj A;
  hi_FA : Forall (fun f => Forall (bdisj f) A) F
}.

Lemma header_same m m' q :
  (forall a, q <= a < q + 16 -> m' a = m a) -> ptr_of m' q = ptr_of m q /\ size_of m' q = size_of m q.
Proof. intros H. split; apply ld_le_ext; intros a Ha; apply H; lia. Qed.

Lemma linked_out m m' l e p :
  linked m l e -> (forall b, b ∈ l -> hsep p b.1) -> (forall a, a < p \/ p + 16 <= a -> m' a = m a) -> linked m' l e.
Proof.
  intros Hl Hs Hm. eapply linked_same; [exact Hl|]. intros b Hb. apply header_same. intros a Ha. apply Hm.
  specialize (Hs b Hb). unfold hsep in Hs. lia.
Qed.

Lemma hadd_small p n : 0 <= p + 16 * n < 2 ^ 64 -> hadd p n = p + 16 * n.
Proof. intros H. unfold hadd, HEADER. by apply Z.mod_small. Qed.

Lemma u32_small n : 0 <= n < 2 ^ 32 -> u32 n = n.
Proof. apply Z.mod_small. Qed.

(** ** The search in [free] *)

Section Find.
Context (base bp : Z) (h : heap) (Hbase : base < bp).

Lemma find_below l x k :
  linked (umem h) (x :: l) base -> spaced (x :: l) -> base <= x.1 -> x.1 < bp ->
  (forall y, y ∈ l -> y.1 <> bp) -> (length l < k)%nat ->
  exists l1 y l2, x :: l = l1 ++ y :: l2 /\ free_find k bp x.1 h = Ok y.1 h /\ y.1 < bp /\
    Forall (fun z => bp < z.1) l2.
Proof.
  revert x k. induction l as [|y l IH]; intros x k Hl Hs Hb Hx Hn Hk; (destruct k as [|k]; [lia|]);
    cbn [free_find]; destruct Hl as (_ & Hp & Hl); unfold get_ptr; rewrite (kbind_Ok (kgets _) _ h _ h eq_refl), Hp;
    cbn [hd_addr]; rewrite (proj2 (Z.ltb_lt x.1 bp) Hx); cbn [andb orb].
  - exists [], x, []. rewrite (proj2 (Z.ltb_ge bp base)), (proj2 (Z.leb_le base x.1)) by lia. cbn. split_and!; auto.
  - destruct Hs as [Hf Hs]. pose proof Hf as Hf'. apply Forall_cons_1 in Hf' as [Hxy _].
    destruct (Z.ltb_spec bp y.1) as [Hlt|Hge].
    + exists [], x, (y :: l). split; [done|]. split; [done|]. split; [done|]. destruct Hs as [Hs _].
      apply Forall_cons; [done|]. revert Hs. apply Forall_impl. intros z [Hz _]. lia.
    + assert (y.1 <> bp) by (apply Hn; left). unfold apart in Hxy.
      rewrite (proj2 (Z.leb_gt y.1 x.1)) by lia. cbn [andb].
      destruct (IH y k Hl Hs) as (l1 & z & l2 & E & Hr & Hz & Hf2); try lia; [intros; apply Hn; by right|cbn in Hk; lia|].
      exists (x :: l1), z, l2. by rewrite E.
Qed.

Lemma find_above l x k :
  linked (umem h) (x :: l) base -> spaced (x :: l) -> bp < x.1 ->
  free_find (S (length l) + k) bp x.1 h = free_find k bp base h.
Proof.
  revert x. induction l as [|y l IH]; intros x Hl Hs Hx; cbn [length Nat.add free_find];
    destruct Hl as (_ & Hp & Hl); unfold get_ptr; rewrite (kbind_Ok (kgets _) _ h _ h eq_refl), Hp;
    cbn [hd_addr]; rewrite (proj2 (Z.ltb_ge x.1 bp)) by lia; cbn [andb orb].
  - by rewrite (proj2 (Z.ltb_ge bp base)), andb_false_r by lia.
  - destruct Hs as [Hf Hs]. apply Forall_cons_1 in Hf as [Hxy _]. unfold apart in Hxy.
    rewrite (proj2 (Z.leb_gt y.1 x.1)) by lia. cbn [andb]. apply (IH y); [done|done|lia].
Qed.
End Find.

Lemma ring_room base F A h :
  hinv base F A h -> Z.of_nat (length (ring base F)) <= brk h / 16.
Proof.
  intros Hi. destruct (hi_spaced _ _ _ _ Hi) as [_ Hs]. pose proof (hi_in _ _ _ _ Hi) as [Hf _]%Forall_app.
  pose proof (hi_base _ _ _ _ Hi). pose proof (hi_brk _ _ _ _ Hi).
  pose proof (spaced_room F (base + 16) (brk h) Hs Hf ltac:(lia)) as Hr.
  apply Z.div_le_lower_bound; [lia|]. cbn [ring length]. lia.
Qed.

Lemma find_spec base F A h bp :
  hinv base F A h -> base < bp -> (forall y, y ∈ ring base F -> y.1 <> bp) ->
  exists (u : list blk) y (v : list blk), ring base F = u ++ y :: v /\ free_find (rounds h) bp (freep h) h = Ok y.1 h /\ y.1 < bp /\
    Forall (fun z => bp < z.1) v.
Proof.
  intros Hi Hb Hn. pose proof (ring_room _ _ _ _ Hi) as Hroom. destruct (hi_freep _ _ _ _ Hi) as (f & Hf & ->).
  pose proof (hi_link _ _ _ _ Hi) as Hl. pose proof (hi_spaced _ _ _ _ Hi) as Hs.
  assert (2 * length (ring base F) + 2 <= rounds h)%nat as Hk by (unfold rounds, HEADER; lia).
  apply list_elem_of_split in Hf as (u & v & E).
  assert (linked (umem h) (f :: v) base) as Hl2 by (rewrite E in Hl; by apply linked_app in Hl as [_ ?]).
  assert (spaced (f :: v)) as Hs2 by (rewrite E in Hs; by apply spaced_app in Hs as (_ & ? & _)).
  assert (base <= f.1) as Hbf.
  { destruct u as [|g u]; [injection E as <-; done|]. injection E as <- EF. destruct Hs as [Hs _].
    rewrite EF in Hs. apply Forall_app in Hs as [_ [Hs _]%Forall_cons_1]. unfold apart in Hs. cbn in Hs. lia. }
  assert (length (ring base F) = length u + S (length v))%nat as El by (rewrite E, length_app; done).
  assert (f.1 <> bp) as Hfn by (apply Hn; rewrite E; apply elem_of_app; right; left).
  destruct (decide (f.1 < bp)) as [Hlt|Hge].
  - destruct (find_below base bp h Hb v f (rounds h) Hl2 Hs2 Hbf Hlt) as (l1 & y & l2 & E2 & H); [| lia|].
    + intros y Hy. apply Hn. rewrite E. apply elem_of_app. right. by right.
    + exists (u ++ l1), y, l2. split; [|exact H]. rewrite E, E2. by rewrite app_assoc.
  - replace (rounds h) with (S (length v) + (rounds h - S (length v)))%nat by lia.
    rewrite (find_above base bp h Hb) by (try done; lia).
    destruct (find_below base bp h Hb F (base, 0) (rounds h - S (length v)) Hl Hs) as (l1 & y & l2 & E2 & H);
      [cbn; lia|cbn; lia| | |].
    + intros y Hy. apply Hn. by right.
    + cbn [ring length] in El, Hk. lia.
    + exists l1, y, l2. split; [exact E2|exact H].
Qed.

(** ** Disjoint blocks *)

Lemma bdisj_sym x y : bdisj x y -> bdisj y x.
Proof. unfold bdisj. tauto. Qed.

Lemma pairs_middle l1 x l2 :
  ForallOrdPairs bdisj (l1 ++ x :: l2) -> ForallOrdPairs bdisj (l1 ++ l2) /\ Forall (bdisj x) (l1 ++ l2).
Proof.
  induction l1 as [|c l1 IH]; cbn [app]; intros H; inversion_clear H as [|? ? H1 H2]; [done|].
  apply Forall_app in H1 as [H11 [H12 H13]%Forall_cons_1]. destruct (IH H2) as [IH1 IH2]. split.
  - constructor; [by apply Forall_app|done].
  - apply Forall_cons; [by apply bdisj_sym|done].
Qed.

(** The blocks [A] have the same bytes in [h] and [h']. *)
Definition keeps (A : list blk) h h' : Prop :=
  forall c a, c ∈ A -> c.1 <= a < bend c -> umem h' a = umem h a.

Lemma keeps_size A h h' :
  keeps A h h' -> Forall (fun b => 1 <= b.2) A -> Forall (fun b => size_of (umem h) b.1 = b.2) A ->
  Forall (fun b => size_of (umem h') b.1 = b.2) A.
Proof.
  intros Hk H1 H2. rewrite list.Forall_forall in H1, H2 |- *. intros c Hc. rewrite <- (H2 c Hc).
  apply header_same. intros a Ha. apply (Hk c); [done|]. specialize (H1 c Hc). unfold bend. cbv beta in *. lia.
Qed.

Lemma ring_head base F u y v l :
  ring base F = u ++ y :: v -> (y = (base, 0) -> exists l', l = y :: l') -> exists F', u ++ l = ring base F' .
Proof.
  intros E Hl. destruct u as [|x u]; cbn in *.
  - injection E as E _. destruct (Hl (eq_sym E)) as [l' ->]. exists l'. by rewrite <- E.
  - injection E as <- _. by exists (u ++ l).
Qed.

(** ** [free] *)

Section Free.
Context (base : Z) (F A1 A2 : list blk) (b : blk) (h : heap) (Hi : hinv base F (A1 ++ b :: A2) h).

Lemma freed_block : base + 16 <= b.1 /\ 1 <= b.2 /\ bend b <= brk h /\ size_of (umem h) b.1 = b.2.
Proof.
  pose proof (hi_in _ _ _ _ Hi) as [_ [_ [(H1 & H2 & H3) _]%Forall_cons_1]%Forall_app]%Forall_app.
  pose proof (hi_size _ _ _ _ Hi) as [_ [H4 _]%Forall_cons_1]%Forall_app. done.
Qed.

Lemma freed_free z : z ∈ F -> bend z <= b.1 \/ bend b <= z.1.
Proof.
  intros Hz. pose proof (proj1 (list.Forall_forall _ _) (hi_FA _ _ _ _ Hi) z Hz) as H. cbv beta in H.
  apply Forall_app in H as [_ [H _]%Forall_cons_1]. exact H.
Qed.

Lemma free_in z : z ∈ F -> base + 16 <= z.1 /\ 1 <= z.2 /\ bend z <= brk h.
Proof.
  intros Hz. pose proof (hi_in _ _ _ _ Hi) as [H _]%Forall_app. by apply (proj1 (list.Forall_forall _ _) H).
Qed.

Lemma freed_header z : z ∈ ring base F -> hsep b.1 z.1.
Proof.
  destruct freed_block as (H1 & H2 & _). intros [-> |Hz]%elem_of_cons; [right; cbn; lia|].
  destruct (free_in z Hz) as (_ & ? & _), (freed_free z Hz); unfold hsep, bend in *; lia.
Qed.

Context (u v : list blk) (y : blk) (Hring : ring base F = u ++ y :: v).
Context (Hy : y.1 < b.1) (Hv : Forall (fun z => b.1 < z.1) v).

Lemma after_free z : z ∈ v -> z ∈ F /\ bend b <= z.1.
Proof.
  intros Hz. destruct freed_block as (Hb & Hb2 & _).
  pose proof (proj1 (list.Forall_forall _ _) Hv z Hz) as Hlt. cbv beta in Hlt.
  assert (z ∈ ring base F) as [-> |HF]%elem_of_cons by (rewrite Hring; apply elem_of_app; right; by right); [cbn in *; lia|].
  split; [done|]. destruct (freed_free z HF), (free_in z HF) as (_ & ? & _); unfold bend in *; lia.
Qed.

Lemma before_free : bend y <= b.1 /\ y.1 + 16 <= b.1 /\ base <= y.1 /\ 0 <= y.2.
Proof.
  destruct freed_block as (Hb & _).
  assert (y ∈ ring base F) as HyR by (rewrite Hring; apply elem_of_app; right; left).
  apply elem_of_cons in HyR as [-> |HF]; [unfold bend in *; cbn in *; lia|].
  destruct (freed_free y HF), (free_in y HF) as (? & ? & ?), freed_block as (_ & ? & _); unfold bend in *; lia.
Qed.

(** The block after joining it with the next one, and the blocks after it. *)
Definition joined (s1 : Z) (v1 : list blk) : Prop :=
  (v1 = v /\ s1 = b.2 /\ Forall (fun z => bend b < z.1) v) \/
  exists z, v = z :: v1 /\ bend b = z.1 /\ s1 = b.2 + z.2.

Lemma next_block : v = [] \/ exists z (v1 : list blk), v = z :: v1.
Proof. destruct v; eauto. Qed.

Lemma ptr_y : ptr_of (umem h) y.1 = hd_addr v base /\ size_of (umem h) y.1 = y.2 /\ linked (umem h) v base.
Proof.
  pose proof (hi_link _ _ _ _ Hi) as Hl. rewrite Hring in Hl. apply linked_app in Hl as [_ (H1 & H2 & H3)]. done.
Qed.

Lemma addr_small q : base <= q <= brk h -> 0 <= q < 2 ^ 64.
Proof. pose proof (hi_base _ _ _ _ Hi). pose proof (hi_brk _ _ _ _ Hi). lia. Qed.

Lemma hd_small (l : list blk) : (forall z, z ∈ l -> z ∈ F) -> 0 <= hd_addr l base < 2 ^ 64.
Proof.
  intros Hl. apply addr_small. pose proof (hi_brk _ _ _ _ Hi). destruct l as [|z l]; cbn; [lia|].
  destruct (free_in z) as (? & ? & ?); [apply Hl; left|]. unfold bend in *. lia.
Qed.

Lemma spaced_v : spaced v.
Proof. pose proof (hi_spaced _ _ _ _ Hi) as Hs. rewrite Hring in Hs. by apply spaced_split in Hs as (_ & ? & _). Qed.

Lemma join_next_runs : exists m1 s1 v1,
  join_next b.1 y.1 h = Ok tt (Heap m1 (brk h) (freep h)) /\ joined s1 v1 /\ linked m1 ((b.1, s1) :: v1) base /\
  (forall a, a < b.1 \/ b.1 + 16 <= a -> m1 a = umem h a).
Proof.
  destruct freed_block as (Hb1 & Hb2 & Hb3 & Hbs), ptr_y as (Hp & _ & Hl).
  pose proof (hi_brk _ _ _ _ Hi). pose proof (hi_base _ _ _ _ Hi).
  unfold join_next, get_size, get_ptr. rewrite (kbind_Ok (kgets _) _ h _ h eq_refl), Hbs.
  rewrite (kbind_Ok (kgets _) _ h _ h eq_refl), Hp, hadd_small by (apply addr_small; unfold bend in *; lia).
  assert (forall z, z ∈ v -> hsep b.1 z.1) as Hsep.
  { intros z Hz. apply freed_header. rewrite Hring. apply elem_of_app. right. by right. }
  destruct (Z.eqb_spec (b.1 + 16 * b.2) (hd_addr v base)) as [E|Hne].
  - destruct (next_block) as [Hnil|(z & v1 & Ev)]; [rewrite Hnil in E; cbn in E; lia|].
    rewrite Ev in E, Hl, Hsep |- *. cbn [hd_addr] in E |- *. destruct Hl as (Hz1 & Hz2 & Hl).
    rewrite (kbind_Ok (kgets _) _ h _ h eq_refl), Hz1.
    destruct (after_free z) as [HzF Hz]; [rewrite Ev; left|]. destruct (free_in z HzF) as (_ & ? & Hze).
    rewrite u32_small by (unfold bend in *; lia). set (m' := put_size (umem h) b.1 (b.2 + z.2)).
    rewrite (kbind_Ok (set_size _ _) _ h tt (Heap m' (brk h) (freep h)) eq_refl).
    rewrite (kbind_Ok (kgets _) _ _ _ _ eq_refl). cbn [umem]. unfold m' at 1. rewrite ptr_put_size, Hz2 by (right; apply Hsep; left).
    assert (0 <= hd_addr v1 base < 2 ^ 64) as Hsm.
    { apply hd_small. intros c Hc. apply after_free. rewrite Ev. by right. }
    exists (put_ptr m' b.1 (hd_addr v1 base)), (b.2 + z.2), v1. split; [done|]. split; [right; by exists z|].
    assert (forall a, a < b.1 \/ b.1 + 16 <= a -> put_ptr m' b.1 (hd_addr v1 base) a = umem h a) as Hout.
    { intros a Ha. rewrite put_ptr_out by done. by apply put_size_out. }
    split; [|done]. cbn [linked fst snd]. rewrite size_put_ptr by (by left). unfold m' at 1.
    rewrite size_put_size_eq by (unfold bend in *; lia). split; [done|]. split; [by apply ptr_put_ptr_eq|].
    eapply linked_out; [exact Hl| |exact Hout]. intros c Hc. apply Hsep. by right.
  - assert (0 <= hd_addr v base < 2 ^ 64) as Hsm by (apply hd_small; intros; by apply after_free).
    exists (put_ptr (umem h) b.1 (hd_addr v base)), b.2, v. split; [done|]. split.
    { left. split; [done|]. split; [done|]. pose proof spaced_v as Hs. destruct next_block as [Hnil|(z & v1 & Ev)]; [by rewrite Hnil|].
      rewrite Ev in Hne, Hs |- *. destruct (after_free z) as [_ Hz]; [rewrite Ev; left|]. cbn in Hne. destruct Hs as [Hs _].
      apply Forall_cons; [unfold bend in *; lia|]. revert Hs. apply Forall_impl. intros c [Hc _]. unfold bend in *; lia. }
    assert (forall a, a < b.1 \/ b.1 + 16 <= a -> put_ptr (umem h) b.1 (hd_addr v base) a = umem h a) as Hout
      by (intros; by apply put_ptr_out).
    split; [|done]. cbn [linked fst snd]. rewrite size_put_ptr by (by left). split; [done|].
    split; [by apply ptr_put_ptr_eq|]. by eapply linked_out.
Qed.

Context (s1 : Z) (v1 : list blk) (Hj : joined s1 v1).

(** Where the joined block ends. *)
Lemma joined_end : b.2 <= s1 /\ b.1 + 16 * s1 <= brk h /\ Forall (apart (b.1, s1)) v1 /\ spaced v1 /\
  (forall z, z ∈ v1 -> z ∈ v) /\ units v1 + s1 = units v + b.2.
Proof.
  destruct freed_block as (Hb1 & Hb2 & Hb3 & _). pose proof spaced_v as Hs.
  destruct Hj as [(-> & -> & Hf)|(z & Ev & Hz & ->)].
  - split_and!; try done; try lia. revert Hf. apply Forall_impl. intros c Hc.
    unfold apart, bend in *. cbn. lia.
  - rewrite Ev in Hs. destruct Hs as [Hs Hs'].
    destruct (after_free z) as [HzF _]; [rewrite Ev; left|]. destruct (free_in z HzF) as (_ & Hz1 & Hz2).
    split_and!; try done; unfold bend in *; try lia.
    + revert Hs. apply Forall_impl. intros c Hc. unfold apart, bend in *. cbn. lia.
    + intros c Hc. rewrite Ev. by right.
    + rewrite Ev. cbn [units foldr]. fold (units v1). lia.
Qed.

Definition freed_ring (l : list blk) : Prop :=
  (bend y < b.1 /\ l = y :: (b.1, s1) :: v1) \/ (bend y = b.1 /\ l = (y.1, y.2 + s1) :: v1).

Lemma join_prev_runs m1 :
  linked m1 ((b.1, s1) :: v1) base -> (forall a, a < b.1 \/ b.1 + 16 <= a -> m1 a = umem h a) ->
  exists m2 l, join_prev b.1 y.1 (Heap m1 (brk h) (freep h)) = Ok tt (Heap m2 (brk h) (freep h)) /\
    freed_ring l /\ linked m2 l base /\ (forall a, a < y.1 \/ y.1 + 16 <= a -> m2 a = m1 a).
Proof.
  intros Hl1 Hm1. destruct freed_block as (Hb1 & Hb2 & Hb3 & _), ptr_y as (_ & Hys & _), before_free as (H1 & H2 & H3 & H3').
  destruct joined_end as (H4 & H5 & H6 & _ & H7 & _). pose proof (hi_brk _ _ _ _ Hi). pose proof (hi_base _ _ _ _ Hi).
  assert (size_of m1 y.1 = y.2) as Hy1.
  { rewrite <- Hys. apply header_same. intros a Ha. apply Hm1. lia. }
  assert (hsep y.1 b.1) as Hyb by (left; lia).
  assert (forall z, z ∈ v1 -> hsep y.1 z.1) as Hsep.
  { intros z Hz. destruct (after_free z) as [_ Hbz]; [by apply H7|]. unfold hsep, bend in *. lia. }
  destruct Hl1 as (Hs1 & Hp1 & Hl1). cbn [fst snd] in Hs1, Hp1.
  unfold join_prev, get_size, get_ptr. rewrite (kbind_Ok (kgets _) _ _ _ _ eq_refl). cbn [umem]. rewrite Hy1.
  rewrite hadd_small by (apply addr_small; unfold bend in *; lia).
  destruct (Z.eqb_spec (y.1 + 16 * y.2) b.1) as [E|Hne].
  - rewrite (kbind_Ok (kgets _) _ _ _ _ eq_refl). cbn [umem]. rewrite Hs1, u32_small by (unfold bend in *; lia).
    set (m' := put_size m1 y.1 (y.2 + s1)).
    rewrite (kbind_Ok (set_size _ _) _ (Heap m1 (brk h) (freep h)) tt (Heap m' (brk h) (freep h)) eq_refl).
    rewrite (kbind_Ok (kgets _) _ _ _ _ eq_refl). cbn [umem]. unfold m' at 1.
    rewrite ptr_put_size, Hp1 by (by right).
    assert (0 <= hd_addr v1 base < 2 ^ 64) as Hsm by (apply hd_small; intros; by apply after_free, H7).
    exists (put_ptr m' y.1 (hd_addr v1 base)), ((y.1, y.2 + s1) :: v1). split; [done|]. split; [by right|].
    assert (forall a, a < y.1 \/ y.1 + 16 <= a -> put_ptr m' y.1 (hd_addr v1 base) a = m1 a) as Hout.
    { intros a Ha. rewrite put_ptr_out by done. by apply put_size_out. }
    split; [|done]. cbn [linked fst snd]. rewrite size_put_ptr by (by left). unfold m' at 1.
    rewrite size_put_size_eq by (unfold bend in *; lia). split; [done|]. split; [by apply ptr_put_ptr_eq|].
    by eapply linked_out.
  - exists (put_ptr m1 y.1 b.1), (y :: (b.1, s1) :: v1). split; [done|].
    split; [left; split; [unfold bend in *; lia|done]|].
    assert (forall a, a < y.1 \/ y.1 + 16 <= a -> put_ptr m1 y.1 b.1 a = m1 a) as Hout by (intros; by apply put_ptr_out).
    split; [|done]. cbn [linked fst snd]. rewrite !size_put_ptr by (by (left + right)).
    rewrite ptr_put_ptr_eq by (apply addr_small; unfold bend in *; lia). rewrite ptr_put_ptr_ne by done.
    split_and!; try done. by eapply linked_out.
Qed.

Lemma freed_spaced l : freed_ring l -> spaced (u ++ l).
Proof.
  intros Hl. pose proof (hi_spaced _ _ _ _ Hi) as Hs. rewrite Hring in Hs.
  apply spaced_split in Hs as (S1 & _ & S3 & S4 & S5). destruct freed_block as (Hb1 & Hb2 & Hb3 & _), before_free as (H1 & H2 & _).
  destruct joined_end as (J1 & J2 & J3 & J4 & J5 & _). rewrite list.Forall_forall in S3, S4, S5, J3.
  assert (forall x, x ∈ u -> Forall (apart x) v1) as Hu.
  { intros x Hx. apply list.Forall_forall. intros z Hz. by apply (proj1 (list.Forall_forall _ _) (S5 x Hx)), J5. }
  apply spaced_app. split; [done|]. destruct Hl as [[Hlt ->]|[Heq ->]]; cbn [spaced].
  - split; [split; [|split; [|done]]|].
    + apply Forall_cons; [unfold apart; cbn; lia|]. apply list.Forall_forall. auto.
    + by apply list.Forall_forall.
    + apply list.Forall_forall. intros x Hx. specialize (S3 x Hx). cbv beta in S3.
      apply Forall_cons; [done|]. apply Forall_cons; [|auto]. unfold apart, bend in *. cbn. lia.
  - split; [split; [|done]|].
    + apply list.Forall_forall. intros z Hz. specialize (J3 z Hz). unfold apart, bend in *. cbn in *. lia.
    + apply list.Forall_forall. intros x Hx. specialize (S3 x Hx). apply Forall_cons; [exact S3|auto].
Qed.

(** A block of the new ring is an old one or covers the freed one; either way
    it overlaps what the old ones or the freed one overlapped. *)
Lemma freed_members l c :
  freed_ring l -> c ∈ u ++ l -> c ∈ ring base F \/
  base + 16 <= c.1 /\ b.2 <= c.2 /\ bend c <= brk h /\
  forall a, 1 <= a.2 -> bdisj b a -> (forall z, z ∈ F -> bdisj z a) -> bdisj c a.
Proof.
  intros Hl Hc. destruct freed_block as (Hb1 & Hb2 & Hb3 & _), before_free as (H1 & H2 & H2' & H2'').
  destruct joined_end as (J1 & J2 & _ & _ & J5 & _).
  assert (forall a, 1 <= a.2 -> bdisj b a -> (forall z, z ∈ F -> bdisj z a) -> bdisj (b.1, s1) a) as Hd.
  { intros a Ha Hba HF. destruct Hj as [(_ & -> & _)|(z & Ev & Hz & ->)]; [exact Hba|].
    destruct (after_free z) as [HzF _]; [rewrite Ev; left|]. specialize (HF z HzF).
    destruct (free_in z HzF) as (_ & ? & _). unfold bdisj, bend in *. cbn. lia. }
  assert (forall z, z ∈ v1 -> z ∈ ring base F) as Hv1.
  { intros z Hz. right. by apply after_free, J5. }
  apply elem_of_app in Hc as [Hc|Hc]; [left; rewrite Hring; apply elem_of_app; by left|].
  assert (y ∈ ring base F) as HyR by (rewrite Hring; apply elem_of_app; right; left).
  destruct Hl as [[Hlt ->]|[Heq ->]].
  - apply elem_of_cons in Hc as [-> |[-> |Hc]%elem_of_cons]; [by left| |left; auto].
    right. unfold bend. cbn. split_and!; try lia. exact Hd.
  - apply elem_of_cons in Hc as [-> |Hc]; [right|left; auto].
    assert (y ∈ F) as HyF by (apply elem_of_cons in HyR as [-> |?]; [unfold bend in Heq; cbn in Heq; lia|done]).
    destruct (free_in y HyF) as (? & ? & ?). unfold bend in *. cbn. split_and!; try lia.
    intros a Ha Hba HF. specialize (Hd a Ha Hba HF). specialize (HF y HyF). unfold bdisj, bend in *. cbn in *. lia.
Qed.

Lemma freed_starts l c : freed_ring l -> c ∈ u ++ l -> c.1 = b.1 \/ exists z, z ∈ ring base F /\ c.1 = z.1.
Proof.
  intros Hl Hc. destruct joined_end as (_ & _ & _ & _ & J5 & _).
  assert (forall z, z ∈ u \/ z = y \/ z ∈ v1 -> z ∈ ring base F) as HR by (rewrite Hring; set_solver).
  apply elem_of_app in Hc as [Hc|Hc]; [right; exists c; auto|].
  destruct Hl as [[_ ->]|[_ ->]]; rewrite !elem_of_cons in Hc.
  - destruct Hc as [-> |[-> |Hc]]; [right; exists y; auto|by left|right; exists c; auto].
  - destruct Hc as [-> |Hc]; [right; exists y; auto|right; exists c; auto].
Qed.

Lemma y_ring : y ∈ ring base F.
Proof. rewrite Hring. apply elem_of_app. right. left. Qed.

Context (l : list blk) (Hfr : freed_ring l).

Lemma freed_units : units (u ++ l) = units F + b.2.
Proof.
  change (units F) with (units (ring base F)). rewrite Hring, !units_app.
  destruct joined_end as (_ & _ & _ & _ & _ & Hu).
  destruct Hfr as [[_ ->]|[_ ->]]; cbn [units foldr fst snd]; fold (units v1); fold (units v); lia.
Qed.

Lemma freed_ring_length F' : u ++ l = ring base F' -> (length F' <= S (length F))%nat.
Proof.
  intros EF. apply (f_equal length) in EF, Hring. rewrite length_app in EF, Hring. cbn in EF, Hring.
  assert (length v1 <= length v)%nat by (destruct Hj as [(-> & _)|(z & -> & _)]; cbn; lia).
  destruct Hfr as [[_ El]|[_ El]]; rewrite El in EF; cbn in EF; lia.
Qed.

Lemma freed_covers : exists c, c ∈ u ++ l /\ b.2 <= c.2 /\ base < c.1.
Proof.
  destruct joined_end as (H & _), before_free as (_ & _ & Hyb & H2), freed_block as (Hb & _).
  destruct Hfr as [[_ ->]|[E ->]].
  - exists (b.1, s1). split; [|cbn; lia]. apply elem_of_app. right. right. left.
  - exists (y.1, y.2 + s1). split; [apply elem_of_app; right; left|]. cbn. split; [lia|].
    pose proof y_ring as [Ey|HyF]%elem_of_cons; [rewrite Ey in E; unfold bend in E; cbn in E; lia|].
    destruct (free_in y HyF). lia.
Qed.

(** The state in which [free] returns. *)
Context (m1 m2 : mem) (Hlink : linked m2 l base).
Hypothesis Hm1 : forall a, a < b.1 \/ b.1 + 16 <= a -> m1 a = umem h a.
Hypothesis Hm2 : forall a, a < y.1 \/ y.1 + 16 <= a -> m2 a = m1 a.

Let h' := Heap m2 (brk h) y.1.

Lemma others_in c : c ∈ A1 ++ A2 ->
  (base + 16 <= c.1 /\ 1 <= c.2 /\ bend c <= brk h) /\ bdisj b c /\ forall z, z ∈ F -> bdisj z c.
Proof.
  intros Hc. assert (c ∈ A1 ++ b :: A2) as Hc' by (apply elem_of_app; apply elem_of_app in Hc as [?|?]; [by left|right; by right]).
  split; [|split].
  - pose proof (hi_in _ _ _ _ Hi) as [_ H]%Forall_app. by apply (proj1 (list.Forall_forall _ _) H).
  - destruct (pairs_middle _ _ _ (hi_AA _ _ _ _ Hi)) as [_ H]. by apply (proj1 (list.Forall_forall _ _) H).
  - intros z Hz. pose proof (proj1 (list.Forall_forall _ _) (hi_FA _ _ _ _ Hi) z Hz) as H. cbv beta in H.
    by apply (proj1 (list.Forall_forall _ _) H).
Qed.

Lemma freed_keeps : keeps (A1 ++ A2) h h'.
Proof.
  intros c a Hc Ha. destruct (others_in c Hc) as ((C1 & C2 & C3) & Hbc & HF), freed_block as (_ & ? & _). cbn.
  rewrite Hm2, Hm1; [done|unfold bdisj, bend in *; lia|].
  pose proof y_ring as [Ey|HyF]%elem_of_cons; [rewrite Ey; cbn; lia|].
  specialize (HF y HyF). destruct (free_in y HyF) as (_ & ? & _). unfold bdisj, bend in *. lia.
Qed.

Lemma freed_link : linked m2 (u ++ l) base.
Proof.
  pose proof (hi_link _ _ _ _ Hi) as Hl. rewrite Hring in Hl. apply linked_app in Hl as [Hl _].
  pose proof (hi_spaced _ _ _ _ Hi) as Hs. rewrite Hring in Hs. apply spaced_split in Hs as (_ & _ & Hs & _).
  rewrite list.Forall_forall in Hs. apply linked_app. split; [|done].
  assert (hd_addr l base = y.1) as -> by (by destruct Hfr as [[_ ->]|[_ ->]]).
  eapply linked_out; [eapply linked_out; [exact Hl| |exact Hm1]| |exact Hm2]; intros c Hc.
  - apply freed_header. rewrite Hring. apply elem_of_app. by left.
  - specialize (Hs c Hc). unfold apart, hsep in *. lia.
Qed.

Lemma freed_inv F' : u ++ l = ring base F' -> hinv base F' (A1 ++ A2) h'.
Proof.
  intros EF. pose proof (freed_spaced l Hfr) as Hsp. pose proof freed_link as Hl. rewrite EF in Hsp, Hl.
  assert (forall c, c ∈ F' -> c ∈ F \/ base + 16 <= c.1 /\ b.2 <= c.2 /\ bend c <= brk h /\
    forall a, 1 <= a.2 -> bdisj b a -> (forall z, z ∈ F -> bdisj z a) -> bdisj c a) as Hmem.
  { intros c Hc. destruct (freed_members l c Hfr) as [[-> |H]%elem_of_cons|H]; [rewrite EF; by right| |by left|by right].
    destruct Hsp as [Hsp _]. pose proof (proj1 (list.Forall_forall _ _) Hsp _ Hc) as [Hx _]. cbn in Hx. lia. }
  destruct freed_block as (_ & Hb2 & _). split; try apply Hi; try done.
  - rewrite <- EF. destruct Hfr as [[_ ->]|[_ ->]]; eexists; (split; [apply elem_of_app; right; left|done]).
  - apply Forall_app. split; apply list.Forall_forall; intros c Hc; [|by apply others_in].
    destruct (Hmem c Hc) as [HF|(H1 & H2 & H3 & _)]; [by apply free_in|]. cbn. lia.
  - eapply keeps_size; [exact freed_keeps| |].
    + apply list.Forall_forall. intros c Hc. by apply others_in.
    + pose proof (hi_size _ _ _ _ Hi) as [? [_ ?]%Forall_cons_1]%Forall_app. by apply Forall_app.
  - by apply (pairs_middle _ _ _ (hi_AA _ _ _ _ Hi)).
  - apply list.Forall_forall. intros c Hc. apply list.Forall_forall. intros a Ha.
    destruct (others_in a Ha) as ((_ & ? & _) & ? & ?). destruct (Hmem c Hc) as [?|(_ & _ & _ & Hd)]; auto.
Qed.
End Free.


Lemma free_spec base F A1 b A2 h :
  hinv base F (A1 ++ b :: A2) h -> exists F' h',
  free (b.1 + HEADER) h = Ok tt h' /\ hinv base F' (A1 ++ A2) h' /\ brk h' = brk h /\
  units F' = units F + b.2 /\ (exists c, c ∈ F' /\ b.2 <= c.2) /\ keeps (A1 ++ A2) h h' /\
  (length F' <= S (length F))%nat /\ forall c, c ∈ F' -> c.1 = b.1 \/ exists z, z ∈ F /\ c.1 = z.1.
Proof.
  intros Hi. destruct (freed_block _ _ _ _ _ _ Hi) as (Hb1 & Hb2 & Hb3 & Hbs).
  pose proof (hi_brk _ _ _ _ Hi) as Hbrk. pose proof (hi_base _ _ _ _ Hi) as Hbase.
  destruct (find_spec base F _ h b.1 Hi ltac:(lia)) as (u & y & v & Hring & Efind & Hy & Hv).
  { intros z Hz. pose proof (freed_header _ _ _ _ _ _ Hi z Hz) as Hs. unfold hsep in Hs. lia. }
  destruct (join_next_runs _ _ _ _ _ _ Hi _ _ _ Hring Hv) as (m1 & s1 & v1 & E1 & Hj & Hl1 & Hm1).
  destruct (join_prev_runs _ _ _ _ _ _ Hi _ _ _ Hring Hy Hv s1 v1 Hj m1 Hl1 Hm1) as (m2 & l & E2 & Hfr & Hl2 & Hm2).
  destruct (ring_head base F u y v l Hring) as [F' EF].
  { intros ->. destruct Hfr as [[_ ->]|[H _]]; [eauto|]. unfold bend in H. cbn in H. lia. }
  assert (hinv base F' (A1 ++ A2) (Heap m2 (brk h) y.1)) as Hi' by (by eapply freed_inv).
  exists F', (Heap m2 (brk h) y.1). split_and!.
  - unfold free. rewrite hadd_small by (unfold HEADER, bend in *; lia).
    replace (b.1 + HEADER + 16 * -1) with b.1 by (unfold HEADER; lia).
    rewrite (kbind_Ok kget _ h h h eq_refl), (kbind_Ok _ _ _ _ _ Efind), (kbind_Ok _ _ _ _ _ E1), (kbind_Ok _ _ _ _ _ E2). done.
  - done.
  - done.
  - rewrite <- (freed_units _ _ _ _ _ _ Hi _ _ _ Hring Hv s1 v1 Hj l Hfr), EF. done.
  - destruct (freed_covers _ _ _ _ _ _ Hi _ _ _ Hring Hy Hv s1 v1 Hj l Hfr) as (c & Hc & H1 & H2). exists c.
    split; [|done]. rewrite EF in Hc. apply elem_of_cons in Hc as [-> |?]; [cbn in H2; lia|done].
  - by eapply freed_keeps.
  - by eapply freed_ring_length.
  - intros c Hc. destruct (freed_starts _ _ _ _ _ _ Hi _ _ _ Hring Hy Hv s1 v1 Hj l c Hfr) as [?|(z & Hz & E)];
      [rewrite EF; by right|by left|]. apply elem_of_cons in Hz as [-> |Hz]; [|right; eauto].
    destruct (hi_spaced _ _ _ _ Hi') as [Hs _]. destruct (proj1 (list.Forall_forall _ _) Hs c Hc). cbn in *. lia.
Qed.
