(* ===== verification/UmallocSafe.v ===== *)
(** Correctness of the user-level allocator.

    [malloc] returns, splits a block or asks the kernel for more memory, and
    preserves the invariant of [UmallocTheorems].  A program that uses its
    blocks as it should has disjoint blocks whose bytes only it changes; every
    call returns; and no unit of memory is lost. *)

From stdpp Require Import gmap.
From S2P Require Import Prelude Mem Umalloc UmallocTheorems.
Import Umalloc.

Implicit Types (m : mem) (p q : Z) (b c x y : blk) (l : list blk) (h : heap).

(** ** Taking a block *)

Section Take.
Context (base : Z) (F A : list blk) (h : heap) (Hi : hinv base F A h).
Context (u v : list blk) (x y : blk) (nu : Z).
Hypothesis Hring : ring base F = u ++ x :: y :: v.
Hypothesis Hnu : 1 <= nu <= y.2.

Lemma taken_free c : c ∈ F -> base + 16 <= c.1 /\ 1 <= c.2 /\ bend c <= brk h.
Proof. intros Hc. pose proof (hi_in _ _ _ _ Hi) as [H _]%Forall_app. by apply (proj1 (list.Forall_forall _ _) H). Qed.

Lemma taken_ring c : c ∈ u ++ [x] ++ v -> c ∈ ring base F.
Proof. rewrite Hring. set_solver. Qed.

Lemma taken_in : y ∈ F.
Proof.
  assert (y ∈ ring base F) as [Ey|?]%elem_of_cons by (rewrite Hring; apply elem_of_app; right; right; left); [|done].
  rewrite Ey in Hnu. cbn in Hnu. lia.
Qed.

Lemma taken_links : linked (umem h) u x.1 /\ size_of (umem h) x.1 = x.2 /\ ptr_of (umem h) x.1 = y.1 /\
  size_of (umem h) y.1 = y.2 /\ ptr_of (umem h) y.1 = hd_addr v base /\ linked (umem h) v base.
Proof.
  pose proof (hi_link _ _ _ _ Hi) as Hl. rewrite Hring in Hl.
  apply linked_app in Hl as [H1 (H2 & H3 & H4 & H5 & H6)]. done.
Qed.

(** The other blocks of the ring are clear of the block taken. *)
Lemma taken_clear c : c ∈ u ++ [x] ++ v -> c.1 + 16 <= y.1 /\ bend c < y.1 \/ bend y < c.1.
Proof.
  pose proof (hi_spaced _ _ _ _ Hi) as Hs. rewrite Hring in Hs.
  change (u ++ x :: y :: v) with (u ++ [x] ++ y :: v) in Hs. rewrite app_assoc in Hs.
  apply spaced_split in Hs as (_ & _ & H1 & H2 & _). rewrite list.Forall_forall in H1, H2.
  rewrite app_assoc. intros [Hc|Hc]%elem_of_app; [left; by apply H1|right]. by destruct (H2 c Hc).
Qed.

Lemma taken_apart c : c ∈ A -> (base + 16 <= c.1 /\ 1 <= c.2 /\ bend c <= brk h) /\ forall z, z ∈ F -> bdisj z c.
Proof.
  intros Hc. split.
  - pose proof (hi_in _ _ _ _ Hi) as [_ H]%Forall_app. by apply (proj1 (list.Forall_forall _ _) H).
  - intros z Hz. pose proof (proj1 (list.Forall_forall _ _) (hi_FA _ _ _ _ Hi) z Hz) as H.
    by apply (proj1 (list.Forall_forall _ _) H).
Qed.

Lemma taken_x : x ∈ ring base F /\ (forall c, c ∈ A -> hsep x.1 c.1 /\ (bend c <= x.1 \/ x.1 + 16 <= c.1)).
Proof.
  assert (x ∈ ring base F) as Hx by (apply taken_ring; apply elem_of_app; right; left). split; [done|].
  intros c Hc. destruct (taken_apart c Hc) as ((? & ? & ?) & Hd). unfold hsep.
  apply elem_of_cons in Hx as [-> |HF]; [cbn; lia|]. specialize (Hd x HF). destruct (taken_free x HF) as (_ & ? & _).
  unfold bdisj, bend in *. lia.
Qed.

(** The blocks that are left, with or without the rest of the one taken. *)
Definition left_ring (rest : list blk) : list blk := u ++ x :: rest ++ v.

Definition left_over (rest : list blk) b : Prop :=
  (rest = [] /\ b = y /\ nu = y.2) \/
  (rest = [(y.1, y.2 - nu)] /\ nu < y.2 /\ b = (y.1 + 16 * (y.2 - nu), nu)).

Context (rest F' : list blk) (b : blk) (Hrest : left_over rest b) (EF : left_ring rest = ring base F').

Lemma taken_spaced : spaced (ring base F').
Proof.
  pose proof (hi_spaced _ _ _ _ Hi) as Hs. rewrite Hring in Hs. rewrite <- EF. unfold left_ring.
  change (u ++ x :: y :: v) with (u ++ [x] ++ y :: v) in Hs. change (u ++ x :: rest ++ v) with (u ++ [x] ++ rest ++ v).
  rewrite app_assoc in Hs |- *. apply spaced_split in Hs as (H1 & H2 & H3 & H4 & H5).
  destruct Hrest as [(-> & _)|(-> & Hlt & _)]; [by apply spaced_app|]. cbn [app].
  apply spaced_join; try done. revert H4. apply Forall_impl. intros c Hc. unfold apart, bend in *. cbn. lia.
Qed.

Lemma taken_left c : c ∈ F' -> c ∈ F /\ c ∈ u ++ [x] ++ v \/ c.1 = y.1 /\ 1 <= c.2 /\ c.2 = y.2 - nu /\ bend c = b.1.
Proof.
  intros Hc. destruct taken_spaced as [Hs _]. pose proof (proj1 (list.Forall_forall _ _) Hs c Hc) as [Hb _]. cbn in Hb.
  assert (c ∈ left_ring rest) as Hc' by (rewrite EF; by right). unfold left_ring in Hc'.
  assert (c ∈ u ++ [x] ++ v \/ c ∈ rest) as [H|H] by set_solver; [left|right].
  - split; [|done]. apply taken_ring in H as [-> |?]%elem_of_cons; [cbn in Hb; lia|done].
  - destruct Hrest as [(-> & _)|(-> & Hlt & ->)]; [set_solver|]. apply elem_of_cons in H as [-> |?]; [|set_solver].
    unfold bend. cbn. lia.
Qed.

Lemma taken_block : b.2 = nu /\ y.1 <= b.1 /\ bend b = bend y.
Proof.
  destruct Hrest as [(_ & -> & ->)|(_ & Hlt & ->)]; unfold bend; cbn; lia.
Qed.

Lemma taken_starts c : c ∈ b :: F' -> exists z, z ∈ F /\ z.1 <= c.1.
Proof.
  pose proof taken_in as HyF. intros [-> |Hc]%elem_of_cons; [exists y; split; [done|apply taken_block]|].
  destruct (taken_left c Hc) as [[HF _]|(E & _)]; [exists c|exists y]; split; try done; lia.
Qed.

Lemma taken_inv m' :
  linked m' (left_ring rest) base -> size_of m' b.1 = b.2 ->
  keeps A h (Heap m' (brk h) x.1) -> hinv base F' (b :: A) (Heap m' (brk h) x.1).
Proof.
  intros Hl Hsz Hk. pose proof taken_in as HyF. destruct (taken_free y HyF) as (Y1 & Y2 & Y3), taken_block as (B1 & B2 & B3).
  split; try apply Hi; try done.
  - by rewrite <- EF.
  - exists x. split; [|done]. rewrite <- EF. unfold left_ring. set_solver.
  - apply taken_spaced.
  - apply Forall_app. split; [|apply Forall_cons; [cbn; lia|]]; apply list.Forall_forall; intros c Hc; [|by apply taken_apart].
    destruct (taken_left c Hc) as [[HF _]|(C1 & C2 & C3 & C4)]; [by apply taken_free|]. cbn. unfold bend in *. lia.
  - apply Forall_cons; [done|]. eapply keeps_size; [exact Hk| |apply Hi].
    apply list.Forall_forall. intros c Hc. by apply taken_apart.
  - constructor; [|apply Hi]. apply list.Forall_forall. intros c Hc. destruct (taken_apart c Hc) as [_ Hd].
    specialize (Hd y HyF). unfold bdisj, bend in *. lia.
  - apply list.Forall_forall. intros c Hc. destruct (taken_left c Hc) as [[HF Hcl]|(C1 & C2 & C3 & C4)].
    + apply Forall_cons; [destruct (taken_clear c Hcl); unfold bdisj, bend in *; lia|].
      apply list.Forall_forall. intros a Ha. by apply taken_apart.
    + apply Forall_cons; [left; lia|]. apply list.Forall_forall. intros a Ha.
      destruct (taken_apart a Ha) as [_ Hd]. specialize (Hd y HyF). unfold bdisj, bend in *. lia.
Qed.

Lemma taken_units : units F' = units F - nu.
Proof.
  change (units F') with (units (ring base F')). change (units F) with (units (ring base F)).
  rewrite <- EF, Hring. unfold left_ring. rewrite !units_app. cbn [units foldr]. fold (units v).
  change (foldr _ 0 (rest ++ v)) with (units (rest ++ v)). rewrite units_app.
  destruct Hrest as [(-> & _ & ->)|(-> & _)]; cbn; lia.
Qed.
End Take.

Lemma left_ring_head base F u v x y rest :
  ring base F = u ++ x :: y :: v -> exists F', left_ring u v x rest = ring base F'.
Proof.
  intros E. unfold left_ring. destruct u as [|z u]; cbn in *; injection E as <- _; eauto.
Qed.

Section TakeRuns.
Context (base : Z) (F A : list blk) (h : heap) (Hi : hinv base F A h).
Context (u v : list blk) (x y : blk) (nu : Z).
Hypothesis Hring : ring base F = u ++ x :: y :: v.
Hypothesis Hnu : 1 <= nu <= y.2.

Let HyF : y ∈ F := taken_in base F u v x y nu Hring Hnu.

(** The block has the right size: it leaves the ring. *)
Lemma take_exact : nu = y.2 -> let m' := put_ptr (umem h) x.1 (hd_addr v base) in
  take_block nu x.1 y.1 y.2 h = Ok (hadd y.1 1) (Heap m' (brk h) x.1) /\
  linked m' (left_ring u v x []) base /\ size_of m' y.1 = y.2 /\ keeps A h (Heap m' (brk h) x.1).
Proof.
  intros Hy m'. destruct (taken_links _ _ _ _ Hi u v x y Hring) as (L1 & L2 & L3 & L4 & L5 & L6).
  destruct (taken_x _ _ _ _ Hi u v x y nu Hring Hnu) as [HxR HxA].
  pose proof (hi_spaced _ _ _ _ Hi) as Hs. rewrite Hring in Hs.
  apply spaced_split in Hs as (_ & _ & S1 & [[Hxy _] S2]%Forall_cons_1 & _). rewrite list.Forall_forall in S1, S2.
  assert (0 <= hd_addr v base < 2 ^ 64) as Hsm.
  { pose proof (hi_brk _ _ _ _ Hi). pose proof (hi_base _ _ _ _ Hi). destruct v as [|z v'] eqn:Ev; cbn; [lia|].
    assert (z ∈ ring base F) as [-> |HzF]%elem_of_cons by (rewrite Hring; set_solver); [cbn; lia|].
    destruct (taken_free _ _ _ _ Hi z HzF) as (? & ? & ?). unfold bend in *. lia. }
  split; [|split; [|split]].
  - unfold take_block. rewrite Hy, Z.eqb_refl. unfold get_ptr. unfold kbind, kgets, set_ptr, kmodify, kret. by rewrite L5.
  - unfold left_ring. apply linked_app. split; [|split; [|split]].
    + eapply linked_out; [exact L1| |intros; by apply put_ptr_out]. intros c Hc.
      destruct (S1 c Hc). right. lia.
    + unfold m'. by rewrite size_put_ptr by (by left).
    + by apply ptr_put_ptr_eq.
    + eapply linked_out; [exact L6| |intros; by apply put_ptr_out]. intros c Hc.
      destruct (S2 c Hc). left. lia.
  - unfold m'. rewrite size_put_ptr by (right; left; lia). done.
  - intros c a Hc Ha. apply put_ptr_out. destruct (HxA c Hc) as [_ ?]. lia.
Qed.

(** The block is larger: the end of it is taken. *)
Lemma take_split : nu < y.2 -> let t := y.1 + 16 * (y.2 - nu) in
  let m' := put_size (put_size (umem h) y.1 (y.2 - nu)) t nu in
  take_block nu x.1 y.1 y.2 h = Ok (hadd t 1) (Heap m' (brk h) x.1) /\
  linked m' (left_ring u v x [(y.1, y.2 - nu)]) base /\ size_of m' t = nu /\ keeps A h (Heap m' (brk h) x.1).
Proof.
  intros Hy t m'. destruct (taken_links _ _ _ _ Hi u v x y Hring) as (L1 & L2 & L3 & L4 & L5 & L6).
  destruct (taken_free _ _ _ _ Hi y HyF) as (Y1 & Y2 & Y3).
  pose proof (hi_brk _ _ _ _ Hi). pose proof (hi_base _ _ _ _ Hi).
  assert (forall a, a < y.1 \/ bend y <= a -> m' a = umem h a) as Hout.
  { intros a Ha. unfold m'. unfold bend in *. rewrite !put_size_out by (unfold t; lia). done. }
  assert (forall l e, (forall c, c ∈ l -> c ∈ u ++ [x] ++ v) -> linked (umem h) l e -> linked m' l e) as Hk.
  { intros l e Hin Hl. eapply linked_same; [exact Hl|]. intros c Hc. apply header_same. intros a Ha. apply Hout.
    destruct (taken_clear _ _ _ _ Hi u v x y Hring c (Hin c Hc)); lia. }
  assert (hsep y.1 t /\ hsep t y.1) as [Hs1 Hs2] by (unfold hsep, t; lia).
  assert (0 <= y.2 - nu < 2 ^ 32 /\ 0 <= nu < 2 ^ 32) as [Hr1 Hr2] by (unfold bend in *; lia).
  split; [|split; [|split]].
  - unfold take_block. rewrite (proj2 (Z.eqb_neq y.2 nu)), u32_small, (hadd_small y.1) by (unfold bend in *; lia). done.
  - unfold left_ring. apply linked_app. cbn [app hd_addr]. split; [apply Hk; [set_solver|done]|].
    cbn [linked fst snd hd_addr].
    assert (linked m' [x] y.1) as (H1 & H2 & _) by (apply Hk; [set_solver|cbn; done]).
    split; [done|]. split; [done|]. unfold m' at 1 2.
    rewrite size_put_size_ne, size_put_size_eq, !ptr_put_size by (done || by (left + right)).
    split; [done|]. split; [done|]. apply Hk; [set_solver|done].
  - by apply size_put_size_eq.
  - intros c a Hc Ha. apply Hout. destruct (taken_apart _ _ _ _ Hi c Hc) as [_ Hd]. specialize (Hd y HyF).
    unfold bdisj in Hd. lia.
Qed.
End TakeRuns.

Lemma take_spec base F A h x p nu :
  hinv base F A h -> x ∈ ring base F -> ptr_of (umem h) x.1 = p -> 1 <= nu <= size_of (umem h) p ->
  exists F' b h', take_block nu x.1 p (size_of (umem h) p) h = Ok (b.1 + HEADER) h' /\ hinv base F' (b :: A) h' /\
    b.2 = nu /\ brk h' = brk h /\ units F' = units F - nu /\ keeps A h h' /\
    forall c, c ∈ b :: F' -> exists z, z ∈ F /\ z.1 <= c.1.
Proof.
  intros Hi Hx Hp Hnu. pose proof (hi_link _ _ _ _ Hi) as Hl. pose proof (hi_brk _ _ _ _ Hi). pose proof (hi_base _ _ _ _ Hi).
  apply list_elem_of_split in Hx as (u & v2 & Hring). rewrite Hring in Hl.
  apply linked_app in Hl as [_ (_ & Hp' & Hl)]. rewrite Hp in Hp'. destruct v2 as [|y v]; cbn [hd_addr] in Hp'; clear Hp; subst p.
  { exfalso. destruct (hi_link _ _ _ _ Hi) as [Hs _]. cbn [fst snd] in Hs. lia. }
  destruct Hl as (Hys & _ & _). rewrite Hys in Hnu |- *.
  destruct (taken_free _ _ _ _ Hi y (taken_in base F u v x y nu Hring Hnu)) as (Y1 & Y2 & Y3).
  destruct (decide (nu = y.2)) as [E|Hne].
  - destruct (take_exact _ _ _ _ Hi u v x y nu Hring Hnu E) as (R1 & R2 & R3 & R4).
    destruct (left_ring_head base F u v x y [] Hring) as [F' EF].
    assert (left_over y nu [] y) as Hlo by (by left).
    exists F', y. eexists. split; [rewrite R1, hadd_small by (unfold bend in *; lia); done|]. split_and!; try done.
    + by eapply taken_inv.
    + by eapply taken_units.
    + by eapply taken_starts.
  - destruct (take_split _ _ _ _ Hi u v x y nu Hring Hnu ltac:(lia)) as (R1 & R2 & R3 & R4).
    destruct (left_ring_head base F u v x y [(y.1, y.2 - nu)] Hring) as [F' EF].
    set (t := y.1 + 16 * (y.2 - nu)) in *.
    assert (left_over y nu [(y.1, y.2 - nu)] (t, nu)) as Hlo by (right; split; [done|]; split; [lia|done]).
    exists F', (t, nu). eexists. split; [rewrite R1, hadd_small by (unfold t, bend in *; lia); done|]. split_and!; try done.
    + by eapply taken_inv.
    + by eapply taken_units.
    + by eapply taken_starts.
Qed.

(** ** The search in [malloc] *)

Section Search.
Context (base : Z) (grant : Z -> Z -> bool) (h : heap) (nu : Z).

(** A round trip from the block after [freep] either finds a block that is
    large enough or comes to [freep] and asks for more memory. *)
Lemma search l x k :
  linked (umem h) (x :: l) (freep h) -> Forall (fun b => b.1 <> freep h) l -> (length l < k)%nat ->
  (exists y, y ∈ x :: l /\ nu <= size_of (umem h) (ptr_of (umem h) y.1) /\
     malloc_loop grant k nu x.1 (hd_addr l (freep h)) h =
     take_block nu y.1 (ptr_of (umem h) y.1) (size_of (umem h) (ptr_of (umem h) y.1)) h) \/
  (Forall (fun b => b.2 < nu) l /\ size_of (umem h) (freep h) < nu /\
     malloc_loop grant k nu x.1 (hd_addr l (freep h)) h =
     (let! q := morecore grant nu in
      if q =? 0 then kret 0 else let! n := get_ptr q in malloc_loop grant (k - S (length l)) nu q n) h).
Proof.
  revert x k. induction l as [|y l IH]; intros x k Hl Hf Hk; (destruct k as [|k]; [cbn in Hk; lia|]);
    cbn [malloc_loop hd_addr]; unfold get_size; rewrite (kbind_Ok (kgets _) _ h _ h eq_refl).
  - destruct Hl as (_ & Hp & _). cbn [hd_addr] in Hp. destruct (Z.leb_spec nu (size_of (umem h) (freep h))) as [Hle|Hlt].
    + left. exists x. split; [left|]. by rewrite Hp.
    + right. split; [done|]. split; [done|]. rewrite (kbind_Ok (kgets _) _ h _ h eq_refl), Z.eqb_refl.
      cbn [length]. by rewrite Nat.sub_succ, Nat.sub_0_r.
  - destruct Hl as (_ & Hp & Hl). cbn [hd_addr] in Hp. pose proof Hl as (Hs & Hpy & _).
    destruct (Z.leb_spec nu (size_of (umem h) y.1)) as [Hle|Hlt].
    + left. exists x. split; [left|]. by rewrite Hp.
    + apply Forall_cons_1 in Hf as [Hy Hf]. rewrite (kbind_Ok (kgets _) _ h _ h eq_refl), (proj2 (Z.eqb_neq _ _) Hy).
      assert ((let! n := get_ptr y.1 in malloc_loop grant k nu y.1 n) h =
        malloc_loop grant k nu y.1 (hd_addr l (freep h)) h) as -> by (by rewrite <- Hpy).
      destruct (IH y k Hl Hf ltac:(cbn in Hk; lia)) as [(z & Hz & Hle & E)|(H1 & H2 & E)].
      * left. exists z. split; [by right|]. split; [done|exact E].
      * right. split; [apply Forall_cons; [lia|done]|]. split; [done|exact E].
Qed.
End Search.

(** The search from [freep] in a heap that satisfies the invariant. *)
Lemma search_ring base grant F A h nu k :
  hinv base F A h -> (length F < k)%nat ->
  (exists y, y ∈ ring base F /\ nu <= size_of (umem h) (ptr_of (umem h) y.1) /\
     malloc_loop grant k nu (freep h) (ptr_of (umem h) (freep h)) h =
     take_block nu y.1 (ptr_of (umem h) y.1) (size_of (umem h) (ptr_of (umem h) y.1)) h) \/
  (Forall (fun b => b.2 < nu) F /\
     malloc_loop grant k nu (freep h) (ptr_of (umem h) (freep h)) h =
     (let! q := morecore grant nu in
      if q =? 0 then kret 0 else let! n := get_ptr q in malloc_loop grant (k - S (length F)) nu q n) h).
Proof.
  intros Hi Hk. destruct (hi_freep _ _ _ _ Hi) as (f & Hf & Ef). apply list_elem_of_split in Hf as (u & v & Hring).
  pose proof (hi_link _ _ _ _ Hi) as Hl. pose proof (hi_spaced _ _ _ _ Hi) as Hs. rewrite Hring in Hl, Hs.
  apply linked_rotate in Hl; [|rewrite <- Hring; done]. rewrite <- Ef in Hl.
  assert (length F = length (v ++ u)) as El.
  { apply (f_equal length) in Hring. rewrite length_app in Hring. rewrite length_app. cbn in Hring. lia. }
  apply spaced_split in Hs as (_ & _ & S1 & S2 & _). rewrite list.Forall_forall in S1, S2.
  assert (Forall (fun b => b.1 <> freep h) (v ++ u)) as Hne.
  { rewrite Ef. apply list.Forall_forall. intros c [Hc|Hc]%elem_of_app; [destruct (S2 c Hc)|destruct (S1 c Hc)]; lia. }
  pose proof Hl as (Hfs & Hp & _). rewrite <- Ef in Hp. rewrite Hp.
  destruct (search grant h nu (v ++ u) f k Hl Hne ltac:(lia)) as [(y & Hy & Hle & E)|(H1 & H2 & E)]; rewrite <- Ef in E.
  - left. exists y. split; [rewrite Hring; set_solver|done].
  - right. rewrite El. split; [|done]. apply list.Forall_forall. intros c Hc.
    assert (c ∈ ring base F) as Hc' by (by right). rewrite Hring in Hc'.
    apply elem_of_app in Hc' as [Hc'|[-> |Hc']%elem_of_cons].
    + apply (proj1 (list.Forall_forall _ _) H1). set_solver.
    + rewrite <- Hfs, <- Ef. done.
    + apply (proj1 (list.Forall_forall _ _) H1). set_solver.
Qed.

(** ** [morecore] and [malloc] *)

(** The memory below [brk] that the allocator does not own. *)
Definition foreign F A h : Z := brk h - 16 * (units F + units A).

Section Malloc.
Context (base : Z) (grant : Z -> Z -> bool).
Hypothesis Hgrant : forall a n, grant a n = true -> a + n <= 2 ^ 32.

(** The new memory as a block of the program. *)
Lemma grown_inv F A h nu :
  hinv base F A h -> 1 <= nu -> brk h + 16 * nu <= 2 ^ 32 ->
  let h' := Heap (put_size (umem h) (brk h) nu) (brk h + 16 * nu) (freep h) in
  hinv base F ((brk h, nu) :: A) h' /\ keeps A h h'.
Proof.
  intros Hi Hnu Hb h'. pose proof (hi_brk _ _ _ _ Hi). pose proof (hi_base _ _ _ _ Hi). pose proof (hi_in _ _ _ _ Hi) as Hin.
  rewrite list.Forall_forall in Hin.
  assert (keeps A h h') as Hk.
  { intros c a Hc Ha. apply put_size_out. destruct (Hin c) as (_ & _ & ?); [set_solver|]. lia. }
  assert (forall c, c ∈ F ++ A -> bend c <= brk h) as Hend by (intros c Hc; by apply Hin).
  split; [|done]. split; try apply Hi; try (cbn; lia).
  - eapply linked_out; [apply Hi| |intros a Ha; by apply put_size_out]. intros c [-> |Hc]%elem_of_cons; [right; cbn; lia|].
    destruct (Hin c) as (_ & ? & ?); [set_solver|]. right. unfold bend in *. lia.
  - apply list.Forall_forall. intros c. rewrite elem_of_app, elem_of_cons. intros Hc.
    assert (c = (brk h, nu) \/ c ∈ F ++ A) as [-> |Hc'] by set_solver; [unfold bend; cbn; lia|].
    destruct (Hin c Hc') as (? & ? & ?). cbn. lia.
  - apply Forall_cons; [apply size_put_size_eq; cbn; lia|]. eapply keeps_size; [exact Hk| |apply Hi].
    apply list.Forall_forall. intros c Hc. destruct (Hin c) as (_ & ? & _); [set_solver|done].
  - constructor; [|apply Hi]. apply list.Forall_forall. intros c Hc. right. apply Hend. set_solver.
  - pose proof (hi_FA _ _ _ _ Hi) as HFA. rewrite list.Forall_forall in HFA |- *. intros c Hc.
    apply Forall_cons; [left; apply Hend; set_solver|by apply HFA].
Qed.

Lemma freep_base F A h : hinv base F A h -> 0 < freep h.
Proof.
  intros Hi. destruct (hi_freep _ _ _ _ Hi) as (f & Hf & ->). pose proof (hi_base _ _ _ _ Hi).
  apply elem_of_cons in Hf as [-> |Hf]; [done|]. pose proof (hi_in _ _ _ _ Hi) as [H1 _]%Forall_app.
  destruct (proj1 (list.Forall_forall _ _) H1 f Hf). lia.
Qed.

Lemma morecore_spec F A h nu :
  hinv base F A h -> 1 <= nu -> 16 * nu < 2 ^ 31 ->
  morecore grant nu h = Ok 0 h \/
  exists F' h', morecore grant nu h = Ok (freep h') h' /\ hinv base F' A h' /\ (exists c, c ∈ F' /\ nu <= c.2) /\
    keeps A h h' /\ foreign F' A h' = foreign F A h /\ brk h <= brk h' /\
    (length F' <= S (length F))%nat /\ forall c, c ∈ F' -> c.1 = brk h \/ exists z, z ∈ F /\ c.1 = z.1.
Proof.
  intros Hi Hnu Hmax. pose proof (hi_brk _ _ _ _ Hi). pose proof (hi_base _ _ _ _ Hi). unfold morecore.
  set (n := if nu <? 4096 then 4096 else nu).
  assert (nu <= n /\ 1 <= n /\ 16 * n < 2 ^ 31) as (Hn1 & Hn2 & Hn3) by (unfold n; destruct (Z.ltb_spec nu 4096); lia).
  clearbody n. unfold HEADER. rewrite i32_small by lia. destruct (grant (brk h) (n * 16)) eqn:Eg.
  - right. pose proof (Hgrant _ _ Eg) as Hb.
    assert (sbrk grant (n * 16) h = Ok (brk h) (Heap (umem h) (brk h + 16 * n) (freep h))) as Es.
    { unfold sbrk. rewrite (kbind_Ok kget _ h h h eq_refl), (proj2 (Z.ltb_lt 0 (n * 16))), Eg by lia.
      unfold u64. rewrite Z.mod_small, (Z.mul_comm n) by lia. done. }
    destruct (grown_inv F A h n Hi Hn2 ltac:(lia)) as [Hi1 Hk1]. set (h1 := Heap _ _ _) in Hi1, Hk1.
    destruct (free_spec base F [] (brk h, n) A h1 Hi1) as (F' & h' & E & Hi' & Eb & Eu & (c & Hc & Hcs) & Hk & Hlen & Hst).
    exists F', h'. split_and!; try done.
    + rewrite (kbind_Ok _ _ _ _ _ Es), (proj2 (Z.eqb_neq (brk h) (-1))) by lia.
      rewrite (kbind_Ok (set_size _ _) _ (Heap (umem h) (brk h + 16 * n) (freep h)) tt h1 eq_refl), hadd_small by lia.
      rewrite Z.mul_1_r. by rewrite (kbind_Ok _ _ _ _ _ E).
    + exists c. split; [done|]. cbn in Hcs. lia.
    + intros d a Hd Ha. by rewrite (Hk d a Hd Ha), (Hk1 d a Hd Ha).
    + unfold foreign. rewrite Eb, Eu. cbn. lia.
    + rewrite Eb. cbn. lia.
  - left. unfold sbrk. rewrite (kbind_Ok _ _ h (-1) h); [done|].
    rewrite (kbind_Ok kget _ h h h eq_refl), (proj2 (Z.ltb_lt 0 (n * 16))), Eg by lia. done.
Qed.

Lemma malloc_loop_spec F A h nu k :
  hinv base F A h -> 1 <= nu -> 16 * nu < 2 ^ 31 -> (2 * length F + 2 < k)%nat ->
  malloc_loop grant k nu (freep h) (ptr_of (umem h) (freep h)) h = Ok 0 h \/
  exists F' b h', malloc_loop grant k nu (freep h) (ptr_of (umem h) (freep h)) h = Ok (b.1 + HEADER) h' /\
    hinv base F' (b :: A) h' /\ b.2 = nu /\ keeps A h h' /\ foreign F' (b :: A) h' = foreign F A h /\ brk h <= brk h' /\
    forall c, c ∈ b :: F' -> brk h <= c.1 \/ exists z, z ∈ F /\ z.1 <= c.1.
Proof.
  intros Hi Hnu Hmax Hk. destruct (search_ring base grant F A h nu k Hi ltac:(lia)) as [(y & Hy & Hle & E)|(Hno & E)]; rewrite E.
  - right. destruct (take_spec base F A h y _ nu Hi Hy eq_refl (conj Hnu Hle)) as (F' & b & h' & E' & Hi' & Eb & Er & Eu & Hkp & Hst).
    exists F', b, h'. split_and!; try done; [|lia|auto]. unfold foreign. cbn. fold (units A). lia.
  - destruct (morecore_spec F A h nu Hi Hnu Hmax) as [Em|(F1 & h1 & Em & Hi1 & (c & Hc & Hcs) & Hk1 & Ef1 & Er1 & Hl1 & Hst1)];
      rewrite (kbind_Ok _ _ _ _ _ Em); [by left|right].
    pose proof (freep_base F1 A h1 Hi1). rewrite (proj2 (Z.eqb_neq (freep h1) 0)) by lia.
    unfold get_ptr. rewrite (kbind_Ok (kgets _) _ h1 _ h1 eq_refl).
    destruct (search_ring base grant F1 A h1 nu (k - S (length F)) Hi1 ltac:(lia)) as [(y & Hy & Hle & E1)|(Hno1 & _)].
    + rewrite E1. destruct (take_spec base F1 A h1 y _ nu Hi1 Hy eq_refl (conj Hnu Hle))
        as (F' & b & h' & E' & Hi' & Eb & Er & Eu & Hkp & Hst).
      exists F', b, h'. split_and!; try done.
      * intros d a Hd Ha. by rewrite (Hkp d a Hd Ha), (Hk1 d a Hd Ha).
      * rewrite <- Ef1. unfold foreign. cbn. fold (units A). lia.
      * lia.
      * intros d Hd. destruct (Hst d Hd) as (z & Hz & Hzd). destruct (Hst1 z Hz) as [?|(z' & Hz' & ?)]; [left; lia|].
        right. exists z'. split; [done|lia].
    + exfalso. pose proof (proj1 (list.Forall_forall _ _) Hno1 c Hc) as Hlt. cbv beta in Hlt. lia.
Qed.

Lemma nunits_spec n : 0 <= n < 2 ^ 31 - 32 ->
  1 <= nunits n /\ 16 * nunits n < 2 ^ 31 /\ n <= 16 * (nunits n - 1).
Proof.
  intros Hn. unfold nunits, HEADER, u64. rewrite (Z.mod_small (n + 16 - 1)) by lia.
  pose proof (Z.div_mod (n + 16 - 1) 16 ltac:(lia)). pose proof (Z.mod_pos_bound (n + 16 - 1) 16 ltac:(lia)).
  rewrite u32_small by lia. lia.
Qed.

(** Before the first call of [malloc], or the invariant. *)
Definition uinv F A h : Prop :=
  freep h = 0 /\ F = [] /\ A = [] /\ 0 < base /\ base + 16 <= brk h <= 2 ^ 32 \/ hinv base F A h.

Lemma start_inv h : 0 < base -> base + 16 <= brk h <= 2 ^ 32 ->
  hinv base [] [] (Heap (put_size (put_ptr (umem h) base base) base 0) (brk h) base).
Proof.
  intros Hb Hr. split; try done.
  - split; [by apply size_put_size_eq|]. split; [|done]. cbn [umem fst hd_addr].
    rewrite ptr_put_size by (by left). apply ptr_put_ptr_eq. lia.
  - exists (base, 0). split; [left|done].
  - constructor.
Qed.

Lemma malloc_spec F A h n :
  uinv F A h -> 0 <= n < 2 ^ 31 - 32 ->
  (exists h', malloc base grant n h = Ok 0 h' /\ hinv base F A h' /\ brk h' = brk h /\ keeps A h h') \/
  exists F' b h', malloc base grant n h = Ok (b.1 + HEADER) h' /\ hinv base F' (b :: A) h' /\ b.2 = nunits n /\
    keeps A h h' /\ foreign F' (b :: A) h' = foreign F A h /\ brk h <= brk h' /\
    forall c, c ∈ b :: F' -> brk h <= c.1 \/ exists z, z ∈ F /\ z.1 <= c.1.
Proof.
  intros Hu Hn. destruct (nunits_spec n Hn) as (N1 & N2 & N3). unfold malloc. rewrite (kbind_Ok kget _ h h h eq_refl).
  assert (exists h1, (if freep h =? 0 then set_ptr base base ;;; set_freep base ;;; set_size base 0 else kret tt) h = Ok tt h1 /\
    hinv base F A h1 /\ brk h1 = brk h /\ keeps A h h1) as (h1 & E1 & Hi & Eb & Hk).
  { destruct Hu as [(E & -> & -> & Hb & Hr)|Hi].
    - rewrite E. eexists. split; [reflexivity|]. split; [exact (start_inv h Hb Hr)|]. split; [done|].
      by intros c a ?%not_elem_of_nil.
    - pose proof (freep_base F A h Hi). rewrite (proj2 (Z.eqb_neq (freep h) 0)) by lia. by exists h. }
  rewrite (kbind_Ok _ _ _ _ _ E1), (kbind_Ok (kgets _) _ h1 _ h1 eq_refl).
  unfold get_ptr. rewrite (kbind_Ok (kgets _) _ h1 _ h1 eq_refl).
  pose proof (ring_room _ _ _ _ Hi) as Hroom. rewrite Eb in Hroom. cbn [ring length] in Hroom.
  assert (2 * length F + 2 < rounds h)%nat as Hrounds by (unfold rounds, HEADER; lia).
  destruct (malloc_loop_spec F A h1 (nunits n) (rounds h) Hi N1 N2 Hrounds)
    as [E|(F' & b & h' & E & Hi' & Ebn & Hk' & Hf & Hr & Hst)]; rewrite E; [left|right].
  - by exists h1.
  - exists F', b, h'. split_and!; try done.
    + intros c a Hc Ha. by rewrite (Hk' c a Hc Ha), (Hk c a Hc Ha).
    + rewrite Hf. unfold foreign. by rewrite Eb.
    + by rewrite <- Eb.
    + by rewrite <- Eb.
Qed.

(** ** Programs *)

Implicit Types (d : client).

Lemma write_inv F A h b a v :
  hinv base F A h -> b ∈ A -> b.1 + HEADER <= a < b.1 + HEADER * b.2 ->
  hinv base F A (Heap (st8 (umem h) a v) (brk h) (freep h)).
Proof.
  unfold HEADER. intros Hi Hb Ha. pose proof (hi_in _ _ _ _ Hi) as Hin. rewrite list.Forall_forall in Hin.
  assert (forall c, c ∈ ring base F \/ c ∈ A -> ptr_of (st8 (umem h) a v) c.1 = ptr_of (umem h) c.1 /\
    size_of (st8 (umem h) a v) c.1 = size_of (umem h) c.1) as Hs.
  { intros c Hc. apply header_same. intros x Hx. apply st8_ne.
    destruct (Hin b) as (B1 & B2 & _); [set_solver|]. destruct Hc as [[-> |Hc]%elem_of_cons|Hc]; [cbn in *; lia|..].
    - pose proof (proj1 (list.Forall_forall _ _) (hi_FA _ _ _ _ Hi) c Hc) as Hd. cbv beta in Hd.
      pose proof (proj1 (list.Forall_forall _ _) Hd b Hb) as Hd'. destruct (Hin c) as (_ & ? & _); [set_solver|].
      unfold bdisj, bend in *. lia.
    - destruct (decide (c = b)) as [-> |Hne]; [lia|]. destruct (Hin c) as (_ & ? & _); [set_solver|].
      pose proof (hi_AA _ _ _ _ Hi) as HAA. apply list_elem_of_split in Hb as (l1 & l2 & ->).
      apply pairs_middle in HAA as [_ Hd]. assert (c ∈ l1 ++ l2) as Hc' by set_solver.
      pose proof (proj1 (list.Forall_forall _ _) Hd c Hc') as Hd'. unfold bdisj, bend in *. lia. }
  split; try apply Hi.
  - eapply linked_same; [apply Hi|]. intros c Hc. apply Hs. by left.
  - pose proof (hi_size _ _ _ _ Hi) as Hz. rewrite list.Forall_forall in Hz |- *. intros c Hc.
    rewrite <- (Hz c Hc). apply Hs. by right.
Qed.

Lemma brk_inv F A h new :
  uinv F A h -> brk h <= new <= 2 ^ 32 -> uinv F A (Heap (umem h) new (freep h)).
Proof.
  intros [(E & -> & -> & Hb & Hr)|Hi] Hn; [left; cbn; split_and!; try done; lia|right].
  split; try apply Hi.
  - pose proof (hi_brk _ _ _ _ Hi). cbn. lia.
  - pose proof (hi_in _ _ _ _ Hi) as Hin. revert Hin. apply Forall_impl. intros c (? & ? & ?). cbn. lia.
Qed.

Lemma sbrk_spec F A h n p h' :
  uinv F A h -> 0 <= n < 2 ^ 31 -> sbrk grant n h = Ok p h' -> uinv F A h' /\ brk h <= brk h' /\ umem h' = umem h.
Proof.
  intros Hu Hn. assert (0 <= brk h <= 2 ^ 32) as Hb.
  { destruct Hu as [(_ & _ & _ & ? & ?)|Hi]; [lia|]. pose proof (hi_brk _ _ _ _ Hi). pose proof (hi_base _ _ _ _ Hi). lia. }
  unfold sbrk. rewrite (kbind_Ok kget _ h h h eq_refl). unfold u64. rewrite Z.mod_small by lia.
  destruct (Z.ltb_spec 0 n) as [Hp|Hz].
  - destruct (grant (brk h) n) eqn:Eg; intros [= <- <-]; [|done]. apply Hgrant in Eg. cbn.
    split; [apply brk_inv; [done|lia]|]. split; [lia|done].
  - rewrite (proj2 (Z.leb_le _ _)) by lia. by intros [= <- <-].
Qed.

(** [lo] is where the memory of the allocator can start, [fr] the number of
    bytes below [brk] that it does not own. *)
Definition cinv (lo fr : Z) d : Prop := exists F, uinv F (blocks d) (chp d) /\ lo <= brk (chp d) /\
  Forall (fun b => lo <= b.1) (F ++ blocks d) /\ foreign F (blocks d) (chp d) = fr.

Lemma malloc_inv lo fr d n p h :
  cinv lo fr d -> 0 <= n < 2 ^ 31 - 32 -> malloc base grant n (chp d) = Ok p h ->
  cinv lo fr (Client h (if p =? 0 then blocks d else (p - HEADER, nunits n) :: blocks d)).
Proof.
  intros (F & Hu & Hlo & Hs & Hf) Hn E. rewrite list.Forall_forall in Hs.
  destruct (malloc_spec F (blocks d) (chp d) n Hu Hn) as [(h' & E' & Hi & Eb & _)|(F' & b & h' & E' & Hi & Ebn & _ & Hf' & Hr & Hst)];
    rewrite E in E'; injection E' as -> <-.
  - exists F. split; [by right|]. cbn. split; [lia|]. split; [by apply list.Forall_forall|].
    rewrite <- Hf. unfold foreign. by rewrite Eb.
  - pose proof (hi_in _ _ _ _ Hi) as Hin. apply Forall_app in Hin as [_ [(? & _) _]%Forall_cons_1].
    pose proof (hi_base _ _ _ _ Hi). unfold HEADER in *. rewrite (proj2 (Z.eqb_neq _ _)) by lia.
    replace (b.1 + 16 - 16, nunits n) with b by (destruct b; cbn in *; f_equal; lia).
    exists F'. split; [by right|]. cbn. split; [lia|]. split; [|by rewrite <- Hf]. apply list.Forall_forall. intros c Hc.
    assert (c ∈ b :: F' \/ c ∈ blocks d) as [Hc'|Hc'] by set_solver; [|apply Hs; set_solver].
    destruct (Hst c Hc') as [?|(z & Hz & ?)]; [lia|]. specialize (Hs z). cbv beta in Hs. specialize (Hs ltac:(set_solver)). lia.
Qed.

Lemma cstep_inv lo fr d d' : cinv lo fr d -> cstep base grant d d' -> cinv lo fr d'.
Proof.
  intros Hc Hstep. destruct Hstep as [n p h Hn E|l1 b l2 h Ebl E|b a v Hb Ha]; [by apply malloc_inv|..];
    destruct Hc as (F & Hu & Hlo & Hs & Hf).
  - destruct Hu as [(_ & _ & Hnil & _)|Hi]; [rewrite Ebl in Hnil; by destruct l1|].
    rewrite list.Forall_forall in Hs. rewrite Ebl in Hi, Hs, Hf.
    destruct (free_spec base F l1 b l2 (chp d) Hi) as (F' & h' & E' & Hi' & Eb & Eu & _ & _ & _ & Hst).
    rewrite E in E'. injection E' as <-. exists F'. split; [by right|]. cbn. split; [lia|]. split.
    + apply list.Forall_forall. intros c [Hc|Hc]%elem_of_app; [|apply Hs; set_solver].
      destruct (Hst c Hc) as [-> |(z & Hz & ->)]; apply Hs; set_solver.
    + rewrite <- Hf. unfold foreign. rewrite Eb, Eu, !units_app. cbn. fold (units l2). lia.
  - destruct Hu as [(_ & _ & Hnil & _)|Hi]; [rewrite Hnil in Hb; by apply not_elem_of_nil in Hb|].
    exists F. split; [right; by eapply write_inv|]. done.
Qed.

Lemma pstep_inv lo fr d d' : cinv lo fr d -> pstep base grant d d' -> exists fr', cinv lo fr' d'.
Proof.
  intros Hc [d1 Hs|n p h Hn E]; [exists fr; by eapply cstep_inv|]. destruct Hc as (F & Hu & Hlo & Hs & Hf).
  destruct (sbrk_spec F (blocks d) (chp d) n p h Hu Hn E) as (Hu' & Hr & _). eexists. exists F. split; [done|].
  cbn. split; [lia|]. split; [done|reflexivity].
Qed.

Context (h0 : heap) (Hbase : 0 < base) (Hbrk : base + 16 <= brk h0 <= 2 ^ 32) (Hfreep : freep h0 = 0).

Lemma cinv_start : cinv (brk h0) (brk h0) (Client h0 []).
Proof.
  exists []. split; [by left|]. split; [done|]. split; [done|]. unfold foreign. cbn. lia.
Qed.

Lemma reach_pstep d : reach (pstep base grant) (Client h0 []) d -> exists fr, cinv (brk h0) fr d.
Proof.
  induction 1 as [|d d' _ [fr IH] Hs]; [exists (brk h0); apply cinv_start|]. by eapply pstep_inv.
Qed.

Lemma reach_cstep d : reach (cstep base grant) (Client h0 []) d -> cinv (brk h0) (brk h0) d.
Proof. induction 1 as [|d d' _ IH Hs]; [apply cinv_start|]. by eapply cstep_inv. Qed.
End Malloc.

(** ** The claims *)

(** C13. [malloc] and [free] are correct for every program that asks for less than
    2^31 - 32 bytes at a time, frees only blocks it has, writes only into its
    blocks, and calls [sbrk] itself only to grow: both always return;
    a pointer from [malloc] is at least [n] bytes of memory of the process that
    overlap no block in use nor a header; and neither changes a byte of a block
    in use. *)
Theorem malloc_free_safe base grant h0 (d : client) :
  (forall a n, grant a n = true -> a + n <= 2 ^ 32) ->
  0 < base -> base + 16 <= brk h0 <= 2 ^ 32 -> freep h0 = 0 ->
  reach (pstep base grant) (Client h0 []) d ->
  (forall n, 0 <= n < 2 ^ 31 - 32 -> exists p h', malloc base grant n (chp d) = Ok p h' /\
     keeps (blocks d) (chp d) h' /\
     (p <> 0 -> brk h0 + HEADER <= p /\ p + n <= brk h' /\
        Forall (fun b => bend b <= p - HEADER \/ p + n <= b.1) (blocks d))) /\
  (forall l1 b l2, blocks d = l1 ++ b :: l2 -> exists h', free (b.1 + HEADER) (chp d) = Ok tt h' /\
     keeps (l1 ++ l2) (chp d) h').
Proof.
  intros Hg Hb Hr Hf0 Hd. destruct (reach_pstep base grant Hg h0 Hb Hr Hf0 d Hd) as (fr & F & Hu & Hlo & Hs & Hf). split.
  - intros n Hn. destruct (nunits_spec n Hn) as (N1 & N2 & N3).
    destruct (malloc_spec base grant Hg F _ _ n Hu Hn) as [(h' & E & _ & _ & Hk)|(F' & b & h' & E & Hi & Eb & Hk & _ & Hr' & Hst)].
    + exists 0, h'. done.
    + exists (b.1 + HEADER), h'. split; [done|]. split; [done|]. intros _. unfold HEADER.
      pose proof (hi_in _ _ _ _ Hi) as Hin. apply Forall_app in Hin as [_ [(B1 & B2 & B3) _]%Forall_cons_1].
      rewrite list.Forall_forall in Hs. split_and!.
      * destruct (Hst b ltac:(left)) as [?|(z & Hz & ?)]; [lia|]. specialize (Hs z ltac:(set_solver)). cbv beta in Hs. lia.
      * unfold bend in *. lia.
      * pose proof (hi_AA _ _ _ _ Hi) as HAA. inversion_clear HAA as [|? ? H1 _]. revert H1. apply Forall_impl.
        intros c Hc. unfold bdisj, bend in *. lia.
  - intros l1 b l2 Ebl. destruct Hu as [(_ & _ & Hnil & _)|Hi]; [rewrite Ebl in Hnil; by destruct l1|].
    rewrite Ebl in Hi. destruct (free_spec base F l1 b l2 (chp d) Hi) as (F' & h' & E & _ & _ & _ & _ & Hk & _).
    by exists h'.
Qed.

Lemma spaced_total l lo hi :
  spaced l -> Forall (fun b => lo <= b.1 /\ 1 <= b.2 /\ bend b <= hi) l -> lo <= hi -> lo + 16 * units l <= hi.
Proof.
  revert lo. induction l as [|b l IH]; intros lo Hs Hb Hlo; cbn [units foldr]; [cbn; lia|]. fold (units l). destruct Hs as [Hf Hs].
  apply Forall_cons_1 in Hb as [(H1 & H2 & H3) Hb].
  assert (bend b + 16 * units l <= hi); [|unfold bend in *; lia]. apply IH; [done| |done].
  rewrite list.Forall_forall in Hf, Hb |- *. intros c Hc. destruct (Hf c Hc), (Hb c Hc) as (? & ? & ?). lia.
Qed.

(** Blocks that are apart and fill a range are one block. *)
Lemma spaced_one l lo hi :
  spaced l -> Forall (fun b => lo <= b.1 /\ 1 <= b.2 /\ bend b <= hi) l -> lo < hi -> 16 * units l = hi - lo ->
  l = [(lo, (hi - lo) / 16)].
Proof.
  intros Hs Hb Hlo Hu. destruct l as [|b [|c l]].
  - cbn in Hu. lia.
  - apply Forall_cons_1 in Hb as [(H1 & H2 & H3) _]. cbn in Hu. unfold bend in H3. f_equal.
    destruct b as [b1 b2]; cbn in *. f_equal; [lia|]. apply Z.div_unique_exact; lia.
  - exfalso. destruct Hs as [[[_ Hbc] Hf]%Forall_cons_1 Hs]. apply Forall_cons_1 in Hb as [(H1 & H2 & H3) Hb].
    assert (c.1 + 16 * units (c :: l) <= hi) as Ht.
    { apply spaced_total; [done| |]; [|apply Forall_cons_1 in Hb as [(? & ? & ?) _]; unfold bend in *; lia].
      destruct Hs as [Hs _]. rewrite list.Forall_forall in Hs, Hb |- *. intros z Hz. destruct (Hb z Hz) as (? & ? & ?).
      apply elem_of_cons in Hz as [-> |Hz]; [lia|]. destruct (Hs z Hz). lia. }
    change (units (b :: c :: l)) with (b.2 + units (c :: l)) in Hu. unfold bend in *. lia.
Qed.

(** C40. No memory is lost or fragmented for good: when a program that never calls
    [sbrk] itself and asks [malloc] for less than 2^31 - 32 bytes at a time has freed all its blocks, the free list is a single block
    that covers everything obtained from the kernel. *)
Theorem all_freed_one_block base grant h0 (d : client) :
  (forall a n, grant a n = true -> a + n <= 2 ^ 32) ->
  0 < base -> base + 16 <= brk h0 <= 2 ^ 32 -> freep h0 = 0 ->
  reach (cstep base grant) (Client h0 []) d -> blocks d = [] -> brk (chp d) <> brk h0 ->
  let m := umem (chp d) in let lo := brk h0 in
  ptr_of m base = lo /\ ptr_of m lo = base /\ HEADER * size_of m lo = brk (chp d) - lo /\
  (freep (chp d) = base \/ freep (chp d) = lo).
Proof.
  intros Hg Hb Hr Hf0 Hd Hnil Hne m lo. unfold HEADER.
  destruct (reach_cstep base grant Hg h0 Hb Hr Hf0 d Hd) as (F & Hu & Hlo & Hs & Hf).
  unfold foreign in Hf. rewrite Hnil in Hf, Hs. rewrite app_nil_r in Hs. cbn in Hf.
  destruct Hu as [(_ & -> & _)|Hi]; [cbn in Hf; lia|].
  destruct (hi_spaced _ _ _ _ Hi) as [_ Hsp]. pose proof (hi_in _ _ _ _ Hi) as Hin. apply Forall_app in Hin as [Hin _].
  assert (F = [(lo, (brk (chp d) - lo) / 16)]) as EF.
  { apply spaced_one; [done| |unfold lo; lia|unfold lo; lia]. rewrite list.Forall_forall in Hs, Hin |- *.
    intros c Hc. destruct (Hin c Hc) as (_ & ? & ?). split; [by apply Hs|done]. }
  rewrite EF in Hf. cbn in Hf. destruct (hi_freep _ _ _ _ Hi) as (f & Hff & ->).
  destruct (hi_link _ _ _ _ Hi) as (_ & H1 & Hl). rewrite EF in H1, Hl, Hff. destruct Hl as (H2 & H3 & _).
  cbn [fst snd hd_addr] in *. fold m in H1, H2, H3. split; [done|]. split; [done|]. split; [fold lo in Hf; lia|].
  apply elem_of_cons in Hff as [-> |[-> |Hff]%elem_of_cons]; [by left|by right|by apply not_elem_of_nil in Hff].
Qed.

(** ** A program *)

Definition plenty (a n : Z) : bool := a + n <=? 2 ^ 32.

Lemma plenty_ok a n : plenty a n = true -> a + n <= 2 ^ 32.
Proof. apply Z.leb_le. Qed.

Definition data : Z := 0x2000.
Definition fresh : heap := Heap (fun _ => 0) 0x5000 0.

Lemma fresh_ok : data + 16 <= brk fresh <= 2 ^ 32.
Proof. split; by vm_compute. Qed.

Inductive action : Type := AMalloc (n : Z) | AFree (i : nat).

Definition act (a : action) (d : client) : option client :=
  match a with
  | AMalloc n =>
      match malloc data plenty n (chp d) with
      | Ok p h => if decide (0 <= n < 2 ^ 31 - 32)
                  then Some (Client h (if p =? 0 then blocks d else (p - HEADER, nunits n) :: blocks d)) else None
      | _ => None
      end
  | AFree i =>
      match blocks d !! i with
      | Some b => match free (b.1 + HEADER) (chp d) with
                  | Ok _ h => Some (Client h (take i (blocks d) ++ drop (S i) (blocks d)))
                  | _ => None
                  end
      | None => None
      end
  end.

Lemma act_step a d d' : act a d = Some d' -> cstep data plenty d d'.
Proof.
  destruct a as [n|i]; unfold act; intros H.
  - destruct (malloc data plenty n (chp d)) as [p h| |] eqn:E; [|done..]. case_decide; [|done]. injection H as <-.
    by apply c_malloc.
  - destruct (blocks d !! i) as [b|] eqn:Eb; [|done].
    destruct (free (b.1 + HEADER) (chp d)) as [[] h| |] eqn:E; [|done..]. injection H as <-.
    eapply c_free; [|exact E]. symmetry. by apply take_drop_middle.
Qed.

Fixpoint acts (l : list action) (d : client) : option client :=
  match l with [] => Some d | a :: l => match act a d with Some d' => acts l d' | None => None end end.

Lemma acts_reach (s : list action) d0 d d' : reach (cstep data plenty) d0 d -> acts s d = Some d' -> reach (cstep data plenty) d0 d'.
Proof.
  revert d. induction s as [|a s IH]; intros d Hr H; [by injection H as <-|]. cbn [acts] in H.
  destruct (act a d) as [d1|] eqn:E; [|done]. apply (IH d1); [|done]. eapply reach_step; [exact Hr|]. by apply act_step in E.
Qed.

Lemma reach_p d0 d : reach (cstep data plenty) d0 d -> reach (pstep data plenty) d0 d.
Proof. induction 1 as [|d d' _ IH Hs]; [constructor|]. eapply reach_step; [exact IH|]. by apply p_alloc. Qed.

Definition two_allocated : list action := [AMalloc 100; AMalloc 70000; AMalloc 8; AFree 1].

Lemma program_runs : exists d, acts two_allocated (Client fresh []) = Some d /\ length (blocks d) = 2%nat.
Proof.
  assert (match acts two_allocated (Client fresh []) with Some d => length (blocks d) = 2%nat | None => False end) as H
    by (vm_compute; reflexivity).
  destruct (acts two_allocated (Client fresh [])) as [d|]; [by exists d|destruct H].
Qed.

Lemma malloc_free_safe_witness : exists d, length (blocks d) = 2%nat /\
  exists p h', malloc data plenty 1000 (chp d) = Ok p h' /\ keeps (blocks d) (chp d) h'.
Proof.
  destruct program_runs as (d & E & Hl). exists d. split; [exact Hl|].
  destruct (proj1 (malloc_free_safe data plenty fresh d plenty_ok eq_refl fresh_ok
    eq_refl (reach_p _ _ (acts_reach _ _ _ _ (reach_refl _ _) E))) 1000 ltac:(lia)) as (p & h' & H1 & H2 & _).
  exists p, h'. split; [exact H1|exact H2].
Defined.

Definition all_freed : list action := two_allocated ++ [AFree 1; AFree 0].

Lemma program_frees : exists d, acts all_freed (Client fresh []) = Some d /\ blocks d = [] /\ brk (chp d) = 0x26180.
Proof.
  assert (match acts all_freed (Client fresh []) with Some d => blocks d = [] /\ brk (chp d) = 0x26180 | None => False end) as H
    by (vm_compute; split; reflexivity).
  destruct (acts all_freed (Client fresh [])) as [d|]; [by exists d|destruct H].
Qed.

Lemma all_freed_one_block_witness : exists d, brk (chp d) = 0x26180 /\
  ptr_of (umem (chp d)) data = 0x5000 /\ HEADER * size_of (umem (chp d)) 0x5000 = 0x21180.
Proof.
  destruct program_frees as (d & E & Hn & Hb). exists d. split; [exact Hb|].
  assert (brk (chp d) <> brk fresh) as Hne by (rewrite Hb; discriminate).
  destruct (all_freed_one_block data plenty fresh d plenty_ok eq_refl fresh_ok
    eq_refl (acts_reach _ _ _ _ (reach_refl _ _) E) Hn Hne) as (H1 & _ & H2 & _).
  rewrite Hb in H2. split; [exact H1|exact H2].
Defined.

(** ** Sizes near 2^32 *)

(** The argument of [sbrk] is an [int], so a request for almost 2^32 bytes
    asks the kernel for nothing: [malloc] returns a block that the process does
    not have. *)
Lemma malloc_wraps : exists h, malloc data plenty 0xfffffff0 fresh = Ok 0x5010 h /\ brk h = brk fresh.
Proof.
  assert (match malloc data plenty 0xfffffff0 fresh with Ok p h => p = 0x5010 /\ brk h = brk fresh | _ => False end) as H
    by (vm_compute; split; reflexivity).
  destruct (malloc data plenty 0xfffffff0 fresh) as [p h| |]; [|destruct H..]. destruct H as [-> ?]. by exists h.
Qed.
