(* ===== verification/Trap.v ===== *)
(** Traps and system calls ([kernel/trap.c], [kernel/sysproc.c], the dispatcher
    of [kernel/syscall.c]).

    A trap from user mode runs [usertrap] on the CPU of the process: a system
    call, a device interrupt, or a fault.  The state joins the processes with
    the clock, the Peterson locks, the trap registers of the CPU and the devices.
    System calls on files and the interrupt handlers of the devices are an
    interface, [TrapCalls], whose types say what they have to do with processes: a
    call on files sees the process that makes it and gives it new descriptors and
    a new directory, and both wake processes and go to sleep only through
    [wakeup] and [sleep].  Running the handler ends with the return to user
    mode or with the process off the CPU; a call that goes to sleep ends in
    [Sleep]. *)

From S2P Require Import Prelude Mem Kalloc Vm Proc Exec Peterson.

(** ** Registers and constants *)

Definition SSTATUS_SPP : Z := Z.shiftl 1 8.
Definition SSTATUS_SPIE : Z := Z.shiftl 1 5.
Definition SSTATUS_SIE : Z := Z.shiftl 1 1.
Definition MAKE_SATP (pagetable : Z) : Z := Z.lor (Z.shiftl 8 60) (Z.shiftr pagetable 12).
Definition UART0_IRQ : Z := 10.
Definition VIRTIO0_IRQ : Z := 1.

(** The supervisor registers of a CPU. *)
Record csrs : Type := Csrs {
  sstatus : Z; sepc : Z; scause : Z; stvec : Z; sip : Z; satp : Z; tp : Z
}.

Definition with_sstatus (r : csrs) x := Csrs x (sepc r) (scause r) (stvec r) (sip r) (satp r) (tp r).
Definition with_sepc (r : csrs) x := Csrs (sstatus r) x (scause r) (stvec r) (sip r) (satp r) (tp r).
Definition with_stvec (r : csrs) x := Csrs (sstatus r) (sepc r) (scause r) x (sip r) (satp r) (tp r).
Definition with_sip (r : csrs) x := Csrs (sstatus r) (sepc r) (scause r) (stvec r) x (satp r) (tp r).
Definition with_satp (r : csrs) x := Csrs (sstatus r) (sepc r) (scause r) (stvec r) (sip r) x (tp r).

(** [x & ~bit] on 64 bits. *)
Definition clear (x bit : Z) : Z := Z.land x (Z.lnot bit).

(** ** State *)

(** How a call on files ends, or the part of it up to a sleep: the result or the
    channel to sleep on, the descriptors and the directory of the process, and
    the channels woken on the way. *)
Record file_end : Type := FileEnd {
  fe_result : Z + chan;
  fe_ofile : list (option Z);
  fe_cwd : option Z;
  fe_woken : list chan
}.

(** The system calls on files, with the number of the process and its entry, and
    the rest of a call that has slept; [None] is a panic.  The interrupt controller
    and the handlers of the devices, with the channels they wake. *)
Class TrapCalls (F D : Type) : Type := {
  t_file_call : Z -> Z -> proc -> kstate * F -> option (file_end * (kstate * F));
  t_file_resume : Z -> proc -> kstate * F -> option (file_end * (kstate * F));
  t_claim : D -> Z * D;
  t_complete : Z -> D -> D;
  t_uartintr : D -> option (list chan * D);
  t_diskintr : D -> option (list chan * D)
}.

(** The address of an object of the files or the devices, which no process has. *)
Definition object_chan (c : chan) : chan := Chan ("&" +:+ chan_obj c) (chan_idx c).

Section Trap.
Context {F D : Type} `{ProcFiles F} `{ExecFiles F} `{TrapCalls F D}.
(** Addresses that the linker assigns. *)
Context (kend trampoline forkret kernelvec uservec userret usertrap_at : Z).

Abbreviation pworld := (@pworld F).

Record tworld : Type := TWorld {
  tproc : pworld; ticks : Z; locks : table; regs : csrs; devs : D
}.

Definition on_p {A} (m : M pworld A) : M tworld A := fun w =>
  let up x := TWorld x (ticks w) (locks w) (regs w) (devs w) in
  match m (tproc w) with
  | Ok a x => Ok a (up x)
  | Panic msg => Panic msg
  | Sleep c x => Sleep c (up x)
  end.

Definition set_devs (d : D) : M tworld unit :=
  kmodify (fun w => TWorld (tproc w) (ticks w) (locks w) (regs w) d).

Fixpoint wake_all (me : option Z) (l : list chan) : M pworld unit :=
  match l with
  | [] => kret tt
  | c :: l => wakeup me (Some (object_chan c)) ;;; wake_all me l
  end.

(** A call on files of process [i], or the part of it up to a sleep. *)
Definition file_run (i : Z) (call : proc -> kstate * F -> option (file_end * (kstate * F))) : M pworld Z :=
  let! p := get_proc i in
  let! e := on_files (fun x => match call p x with Some (e, y) => Ok e y | None => Panic "file call" end) in
  update i (fun p => with_cwd (with_ofile p (fe_ofile e)) (fe_cwd e)) ;;;
  wake_all (Some i) (fe_woken e) ;;;
  match fe_result e with
  | inl v => kret v
  | inr c => sleep i (object_chan c)
  end.

(** The handler of a device. *)
Definition dev_intr (me : option Z) (handler : D -> option (list chan * D)) : M tworld unit :=
  let! d := kgets devs in
  match handler d with
  | Some (l, d) => set_devs d ;;; on_p (wake_all me l)
  | None => panic "device"
  end.

Definition csr {A} (f : csrs -> A) : M tworld A := kgets (fun w => f (regs w)).
Definition set_csr (f : csrs -> csrs) : M tworld unit :=
  kmodify (fun w => TWorld (tproc w) (ticks w) (locks w) (f (regs w)) (devs w)).
Definition set_ticks (n : Z) : M tworld unit :=
  kmodify (fun w => TWorld (tproc w) n (locks w) (regs w) (devs w)).
Definition set_locks (t : table) : M tworld unit :=
  kmodify (fun w => TWorld (tproc w) (ticks w) t (regs w) (devs w)).

Definition intr_on : M tworld unit := set_csr (fun r => with_sstatus r (Z.lor (sstatus r) SSTATUS_SIE)).
Definition intr_off : M tworld unit := set_csr (fun r => with_sstatus r (clear (sstatus r) SSTATUS_SIE)).

(** ** The system calls of [sysproc.c] *)

Definition int_arg (i n : Z) : M tworld Z := let! x := on_p (arg_of i n) in kret (i32 x).

(** [None]: the call does not return. *)
Definition sys_exit (i : Z) : M tworld (option Z) :=
  let! n := int_arg i 0 in
  on_p (exit i n) ;;;
  kret None.

Definition sys_getpid (i : Z) : M tworld (option Z) := let! p := on_p (get_proc i) in kret (Some (p_pid p)).

Definition sys_fork (i : Z) : M tworld (option Z) :=
  let! r := on_p (fork kend trampoline forkret i) in kret (Some r).

Definition sys_wait (i : Z) : M tworld (option Z) :=
  let! p := on_p (arg_of i 0) in
  let! r := on_p (wait kend i p) in
  kret (Some r).

Definition sys_sbrk (i : Z) : M tworld (option Z) :=
  let! n := int_arg i 0 in
  let! p := on_p (get_proc i) in
  let! r := on_p (growproc kend i n) in
  kret (Some (if r <? 0 then -1 else p_sz p)).

Definition ticks_chan : chan := Chan "ticks" 0.

(** The loop of [sys_sleep]; it is run again after each wakeup.  The comparison
    is of unsigned numbers. *)
Definition sleep_loop (i ticks0 n : Z) : M tworld (option Z) :=
  let! t := kgets ticks in
  if u32 (t - ticks0) <? u32 n then
    let! k := on_p (killed i) in
    if negb (k =? 0) then kret (Some (-1))
    else on_p (sleep i ticks_chan)
  else kret (Some 0).

Definition sys_sleep (i : Z) : M tworld (option Z) :=
  let! n := int_arg i 0 in
  let! ticks0 := kgets ticks in
  sleep_loop i ticks0 n.

Definition sys_kill (i : Z) : M tworld (option Z) :=
  let! pid := int_arg i 0 in
  let! r := on_p (kill pid) in
  kret (Some r).

Definition sys_uptime : M tworld (option Z) := let! t := kgets ticks in kret (Some t).

Definition sys_peterson_create : M tworld (option Z) :=
  let! t := kgets locks in
  let r := petersonlock_create t in
  set_locks r.2 ;;;
  kret (Some r.1).

(** A call that yields goes on when the process runs again. *)
Definition lock_result (i : Z) (r : run_result) : M tworld (option Z) :=
  match r with
  | Returns v t => set_locks t ;;; kret (Some v)
  | Yields t => set_locks t ;;; on_p (yield i) ;;; ksleep (Chan "yield" i)
  | Undefined => panic "undefined access"
  end.

Definition sys_peterson_acquire (i : Z) : M tworld (option Z) :=
  let! lock_id := int_arg i 0 in
  let! role := int_arg i 1 in
  let! t := kgets locks in
  lock_result i (petersonlock_acquire t lock_id role).

Definition sys_peterson_release (i : Z) : M tworld (option Z) :=
  let! lock_id := int_arg i 0 in
  let! role := int_arg i 1 in
  let! t := kgets locks in
  lock_result i (petersonlock_release t lock_id role).

Definition sys_peterson_destroy (i : Z) : M tworld (option Z) :=
  let! lock_id := int_arg i 0 in
  let! t := kgets locks in
  let r := petersonlock_destroy t lock_id in
  set_locks r.2 ;;;
  kret (Some r.1).

(** ** The dispatcher *)

Definition file_numbers : list Z := [4; 5; 8; 9; 10; 15; 16; 17; 18; 19; 20; 21].

(** The table [syscalls]. *)
Definition syscalls (i num : Z) : option (M tworld (option Z)) :=
  match num with
  | 1 => Some (sys_fork i)
  | 2 => Some (sys_exit i)
  | 3 => Some (sys_wait i)
  | 6 => Some (sys_kill i)
  | 7 => Some (let! r := on_p (sys_exec kend trampoline i) in kret (Some r))
  | 11 => Some (sys_getpid i)
  | 12 => Some (sys_sbrk i)
  | 13 => Some (sys_sleep i)
  | 14 => Some sys_uptime
  | 22 => Some sys_peterson_create
  | 23 => Some (sys_peterson_acquire i)
  | 24 => Some (sys_peterson_release i)
  | 25 => Some (sys_peterson_destroy i)
  | _ => if decide (num ∈ file_numbers) then Some (let! r := on_p (file_run i (t_file_call i num)) in kret (Some r)) else None
  end.

(** Whether the call returns.  The message about an unknown call goes to the
    console. *)
Definition syscall (i : Z) : M tworld bool :=
  let! p := on_p (get_proc i) in
  let! a7 := on_p (on_mem (load (p_trapframe p + TF_a7))) in
  let num := i32 a7 in
  match (if 0 <? num then syscalls i num else None) with
  | Some call =>
      let! r := call in
      match r with
      | Some v => on_p (on_mem (store (p_trapframe p + TF_a0) (u64 v))) ;;; kret true
      | None => kret false
      end
  | None => on_p (on_mem (store (p_trapframe p + TF_a0) (u64 (-1)))) ;;; kret true
  end.

(** ** Interrupts *)

(** [me] is [myproc()] of the CPU that takes the interrupt. *)
Definition clockintr (me : option Z) : M tworld unit :=
  let! t := kgets ticks in
  set_ticks (u32 (t + 1)) ;;;
  on_p (wakeup me (Some ticks_chan)).

Definition devintr (me : option Z) : M tworld Z :=
  let! cause := csr scause in
  if negb (Z.land cause (Z.shiftl 1 63) =? 0) && (Z.land cause 0xff =? 9) then
    let! c := kgets (fun w => t_claim (devs w)) in
    let irq := c.1 in
    set_devs c.2 ;;;
    (if irq =? UART0_IRQ then dev_intr me t_uartintr
     else if irq =? VIRTIO0_IRQ then dev_intr me t_diskintr
     else kret tt) ;;;
    (if irq =? 0 then kret tt else let! d := kgets devs in set_devs (t_complete irq d)) ;;;
    kret 1
  else if cause =? Z.lor (Z.shiftl 1 63) 1 then
    let! hart := csr tp in
    (if hart =? 0 then clockintr me else kret tt) ;;;
    set_csr (fun r => with_sip r (clear (sip r) 2)) ;;;
    kret 2
  else kret 0.

(** ** Traps *)

(** The registers and the trap frame that the return to user mode leaves; the
    last write is the one that [userret] makes with its argument. *)
Definition usertrapret (i : Z) : M tworld unit :=
  let! p := on_p (get_proc i) in
  intr_off ;;;
  set_csr (fun r => with_stvec r (u64 (TRAMPOLINE + (uservec - trampoline)))) ;;;
  let! r := csr id in
  on_p (on_mem (store (p_trapframe p + TF_kernel_satp) (satp r))) ;;;
  on_p (on_mem (store (p_trapframe p + TF_kernel_sp) (u64 (p_kstack p + PGSIZE)))) ;;;
  on_p (on_mem (store (p_trapframe p + TF_kernel_trap) usertrap_at)) ;;;
  on_p (on_mem (store (p_trapframe p + TF_kernel_hartid) (tp r))) ;;;
  set_csr (fun r => with_sstatus r (Z.lor (clear (sstatus r) SSTATUS_SPP) SSTATUS_SPIE)) ;;;
  let! epc := on_p (on_mem (load (p_trapframe p + TF_epc))) in
  set_csr (fun r => with_sepc r epc) ;;;
  set_csr (fun r => with_satp r (MAKE_SATP (p_pagetable p))).

Inductive outcome : Type := ToUser | OffCpu.

Definition leave (i : Z) : M tworld outcome := on_p (exit i (-1)) ;;; kret OffCpu.

(** The end of [usertrap], and of a system call that has slept. *)
Definition finish (i which_dev : Z) : M tworld outcome :=
  let! k := on_p (killed i) in
  if negb (k =? 0) then leave i
  else if which_dev =? 2 then on_p (yield i) ;;; kret OffCpu
  else usertrapret i ;;; kret ToUser.

Definition usertrap (i : Z) : M tworld outcome :=
  let! status := csr sstatus in
  if negb (Z.land status SSTATUS_SPP =? 0) then panic "usertrap: not from user mode"
  else
    set_csr (fun r => with_stvec r kernelvec) ;;;
    let! p := on_p (get_proc i) in
    let! pc := csr sepc in
    on_p (on_mem (store (p_trapframe p + TF_epc) pc)) ;;;
    let! cause := csr scause in
    if cause =? 8 then
      let! k := on_p (killed i) in
      if negb (k =? 0) then leave i
      else
        let! epc := on_p (on_mem (load (p_trapframe p + TF_epc))) in
        on_p (on_mem (store (p_trapframe p + TF_epc) (u64 (epc + 4)))) ;;;
        intr_on ;;;
        let! returns := syscall i in
        if returns : bool then finish i 0 else kret OffCpu
    else
      let! which_dev := devintr (Some i) in
      if negb (which_dev =? 0) then finish i which_dev
      else on_p (setkilled i) ;;; finish i 0.

(** The registers that [kernelvec] returns with. *)
Definition kerneltrap_end (pc status : Z) : M tworld unit :=
  set_csr (fun r => with_sepc r pc) ;;;
  set_csr (fun r => with_sstatus r status).

(** A trap while in the kernel: the process that gives up the CPU, if any, in
    which case [kerneltrap_end] is run when it is scheduled again. *)
Definition kerneltrap (me : option Z) : M tworld (option Z) :=
  let! pc := csr sepc in
  let! status := csr sstatus in
  if Z.land status SSTATUS_SPP =? 0 then panic "kerneltrap: not from supervisor mode"
  else if negb (Z.land status SSTATUS_SIE =? 0) then panic "kerneltrap: interrupts enabled"
  else
    let! which_dev := devintr me in
    if which_dev =? 0 then panic "kerneltrap"
    else
      match me with
      | Some i =>
          let! p := on_p (get_proc i) in
          if (which_dev =? 2) && bool_decide (p_state p = RUNNING) then on_p (yield i) ;;; kret (Some i)
          else kerneltrap_end pc status ;;; kret None
      | None => kerneltrap_end pc status ;;; kret None
      end.
End Trap.
