(* ===== verification/TrapTheorems.v ===== *)
(** The trap path and the process table.

    Whatever the registers of a process hold when it traps, the handler acts on
    the process table only through the operations of [Proc], and it goes on only
    on the CPU it began on.  [trap_ok] states this for a part of the handler and
    is proved for each of them up to [usertrap] and [kerneltrap]. *)

From S2P Require Import Prelude Mem Kalloc Vm Proc ProcTable ProcLife Exec Peterson Trap.

(** ** Computations that do not sleep *)

Definition awake {S A} (m : M S A) : Prop := forall s c s', m s <> Sleep c s'.

Section Awake.
Context {S : Type}.

Lemma awake_ret {A} (a : A) : awake (S := S) (kret a).
Proof. by intros s c s'. Qed.

Lemma awake_panic {A} msg : awake (S := S) (A := A) (panic msg).
Proof. by intros s c s'. Qed.

Lemma awake_gets {A} (f : S -> A) : awake (kgets f).
Proof. by intros s c s'. Qed.

Lemma awake_modify (f : S -> S) : awake (kmodify f).
Proof. by intros s c s'. Qed.

Lemma awake_kopt {A} (o : option A) : awake (S := S) (kopt o).
Proof. by destruct o. Qed.

Lemma awake_bind {A B} (m : M S A) (k : A -> M S B) : awake m -> (forall a, awake (k a)) -> awake (kbind m k).
Proof. intros Hm Hk s c s'. unfold kbind. destruct (m s) as [a s1| |c1 s1] eqn:E; [apply Hk|done|by apply Hm in E]. Qed.
End Awake.

Create HintDb awake discriminated.
#[export] Hint Resolve awake_ret awake_panic awake_gets awake_modify awake_kopt : awake.
Ltac stays_awake := repeat first
  [solve [auto with awake] | apply awake_bind; [|intros ?] | progress cbv zeta | case_match].

(** ** Memory *)

Section AwakeMem.
Context (kend trampoline : Z).

Lemma awake_load a : awake (load a).
Proof. apply awake_gets. Qed.
Lemma awake_store a v : awake (store a v).
Proof. apply awake_modify. Qed.
Lemma awake_fill a c n : awake (fill a c n).
Proof. apply awake_modify. Qed.
Lemma awake_move a b n : awake (move a b n).
Proof. apply awake_modify. Qed.
Lemma awake_kalloc : awake kalloc.
Proof. intros s c s'. unfold kalloc. by case_match. Qed.
Lemma awake_kfree pa : awake (kfree kend pa).
Proof. intros s c s'. unfold kfree. by case_match. Qed.
#[local] Hint Resolve awake_load awake_store awake_fill awake_move awake_kalloc awake_kfree : awake.

Lemma awake_walk pt va alloc : awake (walk pt va alloc).
Proof.
  unfold walk. case_match; [auto with awake|]. generalize 2%nat as level. intros level. revert pt.
  induction level as [|level IH]; intros pt; cbn [walk_loop]; stays_awake.
Qed.
#[local] Hint Resolve awake_walk : awake.

Lemma awake_mappages pt va sz pa perm : awake (mappages pt va sz pa perm).
Proof.
  unfold mappages. case_match; [auto with awake|]. cbv zeta. generalize (S (Z.to_nat (u64 (PGROUNDDOWN (u64 (va + sz - 1)) - PGROUNDDOWN va) / PGSIZE))).
  intros k. generalize (PGROUNDDOWN va). intros a. revert a pa.
  induction k as [|k IH]; intros a pa; cbn [mappages_loop]; stays_awake.
Qed.

Lemma awake_uvmunmap pt va n f : awake (uvmunmap kend pt va n f).
Proof.
  unfold uvmunmap. case_match; [auto with awake|]. generalize (Z.to_nat ((u64 (va + u64 (n * PGSIZE)) - va) / PGSIZE)).
  intros k. clear. revert va. induction k as [|k IH]; intros va; cbn [uvmunmap_loop]; stays_awake.
Qed.
#[local] Hint Resolve awake_mappages awake_uvmunmap : awake.

Lemma awake_freewalk level pt : awake (freewalk kend level pt).
Proof.
  revert pt. induction level as [|level IH]; intros pt; cbn [freewalk]; (apply awake_bind; [|auto with awake]);
    generalize 512%nat as k; generalize 0 as j; intros j k; revert j; induction k as [|k IHk]; intros j;
    cbn [freewalk_loop]; stays_awake.
Qed.
#[local] Hint Resolve awake_freewalk : awake.

Lemma awake_uvmfree pt sz : awake (uvmfree kend pt sz).
Proof. unfold uvmfree. stays_awake. Qed.
#[local] Hint Resolve awake_uvmfree : awake.

Lemma awake_proc_pagetable tf : awake (proc_pagetable kend trampoline tf).
Proof. unfold proc_pagetable, uvmcreate. stays_awake. Qed.

Lemma awake_proc_freepagetable pt sz : awake (proc_freepagetable kend pt sz).
Proof. unfold proc_freepagetable. stays_awake. Qed.

Lemma awake_uvmcopy old new sz : awake (uvmcopy kend old new sz).
Proof.
  unfold uvmcopy. generalize (S (Z.to_nat (sz / PGSIZE + 1))) as k. generalize 0 as i. intros i k. revert i.
  induction k as [|k IH]; intros i; cbn [uvmcopy_loop]; stays_awake.
Qed.
End AwakeMem.
#[export] Hint Resolve awake_load awake_store awake_move awake_kalloc awake_kfree awake_proc_pagetable
  awake_proc_freepagetable awake_uvmcopy : awake.

(** ** Processes *)

(** The files operations of [fork] only count a reference. *)
Class ForkFiles (F : Type) `{ProcFiles F} : Prop := {
  f_dup_awake : forall f, awake (f_dup f);
  f_idup_awake : forall d, awake (f_idup d)
}.

Section AwakeProc.
Context {F : Type} `{!ProcFiles F, !ForkFiles F} (kend trampoline forkret : Z).

Lemma awake_on_mem {A} (m : M kstate A) : awake m -> awake (on_mem (F := F) m).
Proof. intros Hm w c w'. unfold on_mem. destruct (m _) eqn:E; [done|done|by apply Hm in E]. Qed.
Lemma awake_on_files {A} (m : M (kstate * F) A) : awake m -> awake (on_files m).
Proof. intros Hm w c w'. unfold on_files. destruct (m _) eqn:E; [done|done|by apply Hm in E]. Qed.
Lemma awake_get i : awake (get_proc (F := F) i).
Proof. intros w c w'. unfold get_proc. by case_match. Qed.
Lemma awake_put i p : awake (put_proc (F := F) i p).
Proof. intros w c w'. unfold put_proc. by case_match. Qed.
Lemma awake_update i f : awake (update (F := F) i f).
Proof. apply awake_bind; [apply awake_get|intros; apply awake_put]. Qed.
#[local] Hint Resolve awake_on_mem awake_on_files awake_get awake_put awake_update f_dup_awake f_idup_awake : awake.

Lemma awake_freeproc i : awake (freeproc (F := F) kend i).
Proof. unfold freeproc. stays_awake. Qed.
#[local] Hint Resolve awake_freeproc : awake.

Lemma awake_allocproc : awake (allocproc (F := F) kend trampoline forkret).
Proof. unfold allocproc. stays_awake; by intros w c w'. Qed.
#[local] Hint Resolve awake_allocproc : awake.

Lemma awake_dup_files l np fd : awake (dup_files (F := F) l np fd).
Proof. revert fd. induction l as [|o l IH]; intros fd; cbn [dup_files]; stays_awake. Qed.
#[local] Hint Resolve awake_dup_files : awake.

Lemma awake_fork i : awake (fork kend trampoline forkret i).
Proof. unfold fork, fork_copy, fork_adopt, fork_ready. stays_awake. Qed.
End AwakeProc.

(** ** Computations that leave the process table, also when they sleep *)

Definition still {F A} (m : M (@pworld F) A) : Prop := forall w,
  match m w with Ok _ w' => abs w' = abs w | Sleep _ w' => abs w' = abs w | Panic _ => True end.

Section Still.
Context {F : Type}.
Implicit Types w : @pworld F.

Lemma still_bind {A B} (m : M (@pworld F) A) (k : A -> M (@pworld F) B) :
  still m -> (forall a, still (k a)) -> still (kbind m k).
Proof.
  intros Hm Hk w. specialize (Hm w). unfold kbind. destruct (m w) as [a w1| |]; [|done|done].
  specialize (Hk a w1). destruct (k a w1); congruence.
Qed.

Lemma still_ret {A} (a : A) : still (F := F) (kret a).
Proof. by intros w. Qed.
Lemma still_panic {A} msg : still (F := F) (A := A) (panic msg).
Proof. by intros w. Qed.
Lemma still_kopt {A} (o : option A) : still (F := F) (kopt o).
Proof. by destruct o; intros w. Qed.
Lemma still_mem {A} (m : M kstate A) : still (F := F) (on_mem m).
Proof. intros w. unfold on_mem. by destruct (m _). Qed.
Lemma still_files `{ProcFiles F} {A} (m : M (kstate * F) A) : still (on_files m).
Proof. intros w. unfold on_files. by destruct (m _). Qed.
Lemma still_fs {A} (m : M F A) : still (on_fs m).
Proof. intros w. unfold on_fs. by destruct (m _). Qed.
Lemma still_get i : still (F := F) (get_proc i).
Proof. intros w. unfold get_proc. by destruct (zget _ _). Qed.
Lemma still_update i f : (forall p, core_of (f p) = core_of p) -> still (F := F) (update i f).
Proof.
  intros Hf w. destruct (update i f w) as [[] w'| |c w'] eqn:E; [|done|by apply update_Sleep in E].
  by apply inert_update in E.
Qed.

Lemma still_inert {A} (m : M (@pworld F) A) : still m -> inert m.
Proof. intros Hm w a w' E. specialize (Hm w). by rewrite E in Hm. Qed.
End Still.

Create HintDb still discriminated.
#[export] Hint Resolve still_ret still_panic still_kopt still_mem still_files still_fs still_get : still.
#[export] Hint Extern 2 (still (update _ _)) => apply still_update; done : still.
Ltac keeps_still := repeat first
  [solve [auto with still] | apply still_bind; [|intros ?] | progress cbv zeta | case_match].

Section ExecStill.
Context {F : Type} `{ExecFiles F} (kend trampoline : Z).

Lemma still_loadseg_loop k pt va ip off sz i : still (loadseg_loop k pt va ip off sz i).
Proof. revert i. induction k as [|k IH]; intros i; cbn [loadseg_loop]; keeps_still. Qed.
#[local] Hint Resolve still_loadseg_loop : still.

Lemma still_load_segments k pt ip off sz : still (load_segments kend k pt ip off sz).
Proof. revert off sz. induction k as [|k IH]; intros off sz; cbn [load_segments]; unfold loadseg; keeps_still. Qed.

Lemma still_push_args pt base argv sp argc us : still (F := F) (push_args pt base argv sp argc us).
Proof. revert sp argc us. induction argv as [|a argv IH]; intros sp argc us; cbn [push_args]; keeps_still. Qed.

Lemma still_bad pt sz ip : still (bad kend pt sz ip).
Proof. unfold bad. keeps_still. Qed.
#[local] Hint Resolve still_load_segments still_push_args still_bad : still.

Lemma still_setup_stack i pt entry sz path argv : still (setup_stack kend i pt entry sz path argv).
Proof. unfold setup_stack. keeps_still. Qed.
#[local] Hint Resolve still_setup_stack : still.

Lemma still_fetch_args k i uargv n argv : still (F := F) (fetch_args k i uargv n argv).
Proof. revert n argv. induction k as [|k IH]; intros n argv; cbn [fetch_args]; unfold fetchaddr_of, fetchstr_of; keeps_still. Qed.

Lemma still_free_args argv : still (F := F) (free_args kend argv).
Proof. induction argv as [|a argv IH]; cbn [free_args]; keeps_still. Qed.

Lemma still_arg i n : still (F := F) (arg_of i n).
Proof. unfold arg_of. keeps_still. Qed.
#[local] Hint Resolve still_fetch_args still_free_args still_arg : still.

Lemma still_sys_exec i : still (sys_exec kend trampoline i).
Proof. unfold sys_exec, exec, fetchstr_of. keeps_still. Qed.

Lemma still_growproc i n : still (F := F) (growproc kend i n).
Proof. unfold growproc. keeps_still. Qed.

Lemma still_killed i : still (F := F) (killed i).
Proof. unfold killed. keeps_still. Qed.

Lemma still_close_files `{!ProcFiles F} l i fd : still (close_files l i fd).
Proof.
  revert fd. induction l as [|o l IH]; intros fd; cbn [close_files]; [auto with still|].
  apply still_bind; [|auto]. case_match; [|auto with still]. apply still_bind; [auto with still|]. intros _ w.
  unfold kbind, get_proc, put_proc. destruct (zget (procs w) i) as [p|] eqn:Hp; [|done].
  unfold kopt. destruct (zset (p_ofile p) fd None); [|done]. cbn.
  destruct (zset (procs w) i _) as [t|] eqn:Ht; [|done]. apply zset_Some in Ht as [_ ->].
  rewrite abs_set_procs. apply set_core_id. exact (zget_abs w i p Hp).
Qed.
End ExecStill.
#[export] Hint Resolve still_arg still_sys_exec still_growproc still_killed : still.

(** ** Computations after which the process is on the same CPU *)

Definition stays {F A} (m : M (@pworld F) A) : Prop := forall w a w', m w = Ok a w' -> cpus w' = cpus w.

Section Stays.
Context {F : Type} `{!ProcFiles F} (kend trampoline forkret : Z).

Lemma stays_bind {A B} (m : M (@pworld F) A) (k : A -> M (@pworld F) B) :
  stays m -> (forall a, stays (k a)) -> stays (kbind m k).
Proof.
  intros Hm Hk w b w' E. apply kbind_Ok_inv in E as (a & w1 & E1 & E2).
  rewrite (Hk a w1 b w' E2). by apply (Hm w a w1).
Qed.
Lemma stays_still {A} (m : M (@pworld F) A) : still m -> stays m.
Proof. intros Hm w a w' E. apply (still_inert m Hm) in E. by apply (f_equal acpus) in E. Qed.
Lemma stays_gets {A} (f : @pworld F -> A) : stays (kgets f).
Proof. by intros w a w' [= _ <-]. Qed.
Lemma stays_put i p : stays (F := F) (put_proc i p).
Proof. intros w a w' [_ ->]%put_proc_Ok. done. Qed.
Lemma stays_update i f : stays (F := F) (update i f).
Proof. apply stays_bind; [apply stays_still; auto with still|intros; apply stays_put]. Qed.
Lemma stays_sleep {A} i c : stays (F := F) (A := A) (sleep i c).
Proof.
  intros w a w' E. apply kbind_Ok_inv in E as (? & w1 & _ & E). by apply kbind_Ok_inv in E as (? & w2 & _ & E).
Qed.
Lemma stays_pid : stays (F := F) allocpid.
Proof. by intros w a w' [= _ <-]. Qed.
Create HintDb stays discriminated.
#[local] Hint Resolve stays_gets stays_put stays_update stays_sleep stays_pid : stays.
#[local] Hint Extern 3 (stays _) => apply stays_still; solve [auto with still] : stays.
Ltac on_same_cpu := repeat first
  [solve [auto with stays] | apply stays_bind; [|intros ?] | progress cbv zeta | case_match].

Lemma stays_freeproc i : stays (F := F) (freeproc kend i).
Proof. unfold freeproc. on_same_cpu. Qed.
#[local] Hint Resolve stays_freeproc : stays.
Lemma stays_allocproc : stays (F := F) (allocproc kend trampoline forkret).
Proof. unfold allocproc. on_same_cpu. Qed.
#[local] Hint Resolve stays_allocproc : stays.
Lemma stays_dup_files l np fd : stays (F := F) (dup_files l np fd).
Proof. revert fd. induction l as [|o l IH]; intros fd; cbn [dup_files]; on_same_cpu. Qed.
#[local] Hint Resolve stays_dup_files : stays.
Lemma stays_fork_copy i : stays (fork_copy kend trampoline forkret i).
Proof. unfold fork_copy. on_same_cpu. Qed.
#[local] Hint Resolve stays_fork_copy : stays.
Lemma stays_fork i : stays (fork kend trampoline forkret i).
Proof. unfold fork, fork_adopt, fork_ready. on_same_cpu. Qed.
Lemma stays_wait i addr : stays (F := F) (wait kend i addr).
Proof. unfold wait. on_same_cpu. Qed.
Lemma stays_kill pid : stays (F := F) (kill pid).
Proof. unfold kill. on_same_cpu. Qed.
Lemma stays_wakeup me c : stays (F := F) (wakeup me c).
Proof. by intros w a w' [= _ <-]. Qed.
Lemma stays_setkilled i : stays (F := F) (setkilled i).
Proof. apply stays_update. Qed.
End Stays.

(** ** [exit] *)

Section ExitSleep.
Context {F : Type} `{!ProcFiles F}.

Definition sleeps_still {A} (m : M (@pworld F) A) : Prop := forall w c w', m w = Sleep c w' -> abs w' = abs w.

Lemma sleeps_still_bind {A B} (m : M (@pworld F) A) (k : A -> M (@pworld F) B) :
  still m -> (forall a, sleeps_still (k a)) -> sleeps_still (kbind m k).
Proof.
  intros Hm Hk w c w' E. specialize (Hm w). unfold kbind in E.
  destruct (m w) as [a w1| |c1 w1]; [|done|by injection E as <- <-]. by rewrite (Hk a w1 c w' E).
Qed.

Lemma sleeps_still_awake {A} (m : M (@pworld F) A) : awake m -> sleeps_still m.
Proof. intros Hm w c w' E. by apply Hm in E. Qed.

Lemma awake_sched i : awake (sched (F := F) i).
Proof. unfold sched. apply awake_bind; [apply awake_get|]. intros p. case_match; auto with awake. Qed.

Lemma awake_wakeup me c : awake (wakeup (F := F) me c).
Proof. apply awake_modify. Qed.

Lemma awake_reparent i : awake (reparent (F := F) i).
Proof.
  unfold reparent. generalize (Z.to_nat NPROC) as k. generalize 0 as j. intros j k. revert j.
  induction k as [|k IH]; intros j; cbn [reparent_loop]; [auto with awake|].
  apply awake_bind; [apply awake_get|]. intros pp. apply awake_bind; [|auto]. case_match; [|auto with awake].
  apply awake_bind; [auto with awake|]. intros init. apply awake_bind; [apply awake_put|]. intros _. apply awake_wakeup.
Qed.

Lemma exit_sleeps i st : sleeps_still (exit i st).
Proof.
  unfold exit. apply sleeps_still_bind; [by intros w|]. intros init.
  case_match; [by intros w|]. apply sleeps_still_bind; [auto with still|]. intros p.
  apply sleeps_still_bind; [apply still_close_files|]. intros _.
  apply sleeps_still_bind; [auto with still|]. intros d. apply sleeps_still_bind; [auto with still|]. intros _.
  apply sleeps_still_bind; [auto with still|]. intros _. apply sleeps_still_awake.
  apply awake_bind; [apply awake_reparent|]. intros _. apply awake_bind; [apply awake_get|]. intros q.
  apply awake_bind; [apply awake_wakeup|]. intros _. apply awake_bind; [apply awake_update|]. intros _. apply awake_sched.
Qed.
End ExitSleep.

(** ** The table under a trap *)

Section Table.
Context {F D : Type} `{!ProcFiles F, !ForkFiles F, !ExecFiles F, !TrapCalls F D}.
Context (kend trampoline forkret kernelvec uservec usertrap_at : Z).

Abbreviation tworld := (@tworld F D).
Abbreviation step := (pstep (F := F) kend trampoline forkret).
Implicit Types w : tworld.

Definition tstill {A} (m : M tworld A) : Prop := forall w,
  match m w with
  | Ok _ w' => abs (tproc w') = abs (tproc w)
  | Sleep _ w' => abs (tproc w') = abs (tproc w)
  | Panic _ => True
  end.

Lemma tstill_bind {A B} (m : M tworld A) (k : A -> M tworld B) :
  tstill m -> (forall a, tstill (k a)) -> tstill (kbind m k).
Proof.
  intros Hm Hk w. specialize (Hm w). unfold kbind. destruct (m w) as [a w1| |]; [|done|done].
  specialize (Hk a w1). destruct (k a w1); congruence.
Qed.
Lemma tstill_ret {A} (a : A) : tstill (kret a).
Proof. by intros w. Qed.
Lemma tstill_panic {A} msg : tstill (A := A) (panic msg).
Proof. by intros w. Qed.
Lemma tstill_gets {A} (f : tworld -> A) : tstill (kgets f).
Proof. by intros w. Qed.
Lemma tstill_csr {A} (f : csrs -> A) : tstill (csr f).
Proof. by intros w. Qed.
Lemma tstill_set_csr f : tstill (set_csr f).
Proof. by intros w. Qed.
Lemma tstill_set_ticks n : tstill (set_ticks n).
Proof. by intros w. Qed.
Lemma tstill_set_locks t : tstill (set_locks t).
Proof. by intros w. Qed.
Lemma tstill_p {A} (m : M pworld A) : still m -> tstill (on_p m).
Proof. intros Hm w. specialize (Hm (tproc w)). unfold on_p. by destruct (m _). Qed.
Lemma tstill_set_devs d : tstill (set_devs d).
Proof. by intros w. Qed.

Create HintDb tstill discriminated.
#[local] Hint Resolve tstill_ret tstill_panic tstill_gets tstill_csr tstill_set_csr tstill_set_ticks tstill_set_locks
  tstill_set_devs : tstill.
#[local] Hint Extern 2 (tstill (on_p _)) => apply tstill_p; solve [auto with still] : tstill.
Ltac keeps_tstill := repeat first
  [solve [auto with tstill] | apply tstill_bind; [|intros ?] | progress cbv zeta | case_match].

Lemma tstill_usertrapret i : tstill (usertrapret trampoline uservec usertrap_at i).
Proof. unfold usertrapret, intr_off. keeps_tstill. Qed.

Lemma tstill_int_arg i n : tstill (int_arg i n).
Proof. unfold int_arg. keeps_tstill. Qed.
#[local] Hint Resolve tstill_usertrapret tstill_int_arg : tstill.

(** What a part of the handler may do; [stay] is whether the process is still
    on its CPU afterwards. *)
Definition trap_ok {A} (pre : tworld -> Prop) (m : M tworld A) (stay : A -> bool) : Prop := forall w, pre w ->
  match m w with
  | Ok a w' => reach step (tproc w) (tproc w') /\ (stay a = true -> cpus (tproc w') = cpus (tproc w))
  | Sleep _ w' => reach step (tproc w) (tproc w')
  | Panic _ => True
  end.

Definition here i w : Prop := on_cpu (cpus (tproc w)) i.
Definition may_fork i w : Prop := here i w /\ nextpid (tproc w) < 2 ^ 31 - 1.

Lemma reach_one (x y : pworld) : step x y -> reach step x y.
Proof. intros H. eapply reach_step; [constructor|exact H]. Qed.

Lemma trap_still {A} pre (m : M tworld A) stay : tstill m -> trap_ok pre m stay.
Proof.
  intros Hm w _. specialize (Hm w). destruct (m w) as [a w'| |c w']; [|done|by apply reach_one, step_kernel].
  split; [by apply reach_one, step_kernel|]. intros _. by apply (f_equal acpus) in Hm.
Qed.

(** A prefix that leaves the table, then the rest. *)
Lemma trap_after {A B} (pre : tworld -> Prop) (m : M tworld A) (k : A -> M tworld B) stay :
  (forall w w', abs (tproc w') = abs (tproc w) -> pre w -> pre w') ->
  tstill m -> (forall a, trap_ok pre (k a) stay) -> trap_ok pre (kbind m k) stay.
Proof.
  intros Hpre Hm Hk w Hw. specialize (Hm w). unfold kbind.
  destruct (m w) as [a w1| |c w1]; [|done|by apply reach_one, step_kernel].
  specialize (Hk a w1 (Hpre w w1 Hm Hw)). apply (step_kernel (F := F) kend trampoline forkret) in Hm as Hs.
  destruct (k a w1) as [b w2| |c w2]; [|done|].
  - destruct Hk as [H1 H2]. split; [by eapply reach_trans; [apply reach_one; exact Hs|]|].
    intros Hb. rewrite (H2 Hb). by apply (f_equal acpus) in Hm.
  - by eapply reach_trans; [apply reach_one; exact Hs|].
Qed.

(** A part that keeps the process on its CPU, then the rest. *)
Lemma trap_then {A B} (pre pre2 : tworld -> Prop) (m : M tworld A) (k : A -> M tworld B) (s1 : A -> bool) stay :
  (forall w w', cpus (tproc w') = cpus (tproc w) -> pre w -> pre2 w') -> trap_ok pre m s1 ->
  (forall a, s1 a = true -> trap_ok pre2 (k a) stay) ->
  (forall a, s1 a = false -> exists b, k a = kret b /\ stay b = false) -> trap_ok pre (kbind m k) stay.
Proof.
  intros Hpre Hm Hk Hk2 w Hw. specialize (Hm w Hw). unfold kbind.
  destruct (m w) as [a w1| |c w1]; [|done|done]. destruct Hm as [R1 C1]. destruct (s1 a) eqn:Ea.
  - specialize (Hk a Ea w1 (Hpre w w1 (C1 eq_refl) Hw)).
    destruct (k a w1) as [b w2| |c w2]; [|done|by eapply reach_trans].
    destruct Hk as [R2 C2]. split; [by eapply reach_trans|]. intros Hb. rewrite (C2 Hb). by apply C1.
  - destruct (Hk2 a Ea) as (b & -> & Hb). cbn. split; [done|]. by rewrite Hb.
Qed.

Lemma here_cpus i w w' : cpus (tproc w') = cpus (tproc w) -> here i w -> here i w'.
Proof. intros E. unfold here. by rewrite E. Qed.

Lemma may_fork_cpus i w w' : cpus (tproc w') = cpus (tproc w) -> may_fork i w -> here i w'.
Proof. intros E [Hw _]. by eapply here_cpus. Qed.

Definition anywhere w : Prop := True.

(** ** The parts of the handler *)

Lemma trap_p {A} (pre : tworld -> Prop) (m : M pworld A) (stay : A -> bool) :
  (forall w, pre w -> match m (tproc w) with
    | Ok a x => step (tproc w) x /\ (stay a = true -> cpus x = cpus (tproc w))
    | Sleep _ x => step (tproc w) x
    | Panic _ => True end) -> trap_ok pre (on_p m) stay.
Proof.
  intros Hm w Hw. specialize (Hm w Hw). unfold on_p. destruct (m (tproc w)); cbn; [|done|by apply reach_one].
  destruct Hm. split; [by apply reach_one|done].
Qed.

(** The result of a part is passed on. *)
Lemma trap_map {A B} pre (m : M tworld A) (f : A -> B) (s1 : A -> bool) stay :
  trap_ok pre m s1 -> (forall a, stay (f a) = true -> s1 a = true) -> trap_ok pre (let! a := m in kret (f a)) stay.
Proof.
  intros Hm Hf w Hw. specialize (Hm w Hw). unfold kbind, kret. destruct (m w); [|done|done].
  destruct Hm as [H1 H2]. split; [done|]. auto.
Qed.

Lemma update_get i f (x : @pworld F) r y :
  update i f x = Ok r y -> exists p, zget (procs x) i = Some p /\ zget (procs y) i = Some (f p).
Proof.
  intros (p & Hp & -> & _)%update_Ok. exists p. split; [done|]. cbn. by rewrite (zget_insert _ _ _ _ p Hp), decide_True.
Qed.

(** [fork] without interruption is its three steps. *)
Lemma fork_reach i (x y : @pworld F) r :
  on_cpu (cpus x) i -> nextpid x < 2 ^ 31 - 1 -> fork kend trampoline forkret i x = Ok r y -> reach step x y.
Proof.
  intros Hi Hn E. apply kbind_Ok_inv in E as (o & x1 & E1 & E).
  assert (reach step x x1) as R1 by (by eapply reach_one, step_fork_copy).
  apply fork_copy_effect in E1 as Ha. destruct o as [[np pid]|]; [|by injection E as <- <-].
  assert (cpus x1 = cpus x) as Hc by (by apply stays_fork_copy in E1).
  apply kbind_Ok_inv in E as ([] & x2 & E2 & E). apply kbind_Ok_inv in E as ([] & x3 & E3 & [= _ <-]).
  remember (abs x1) as a1 eqn:Ea. remember (Some (np, pid)) as o eqn:Eo.
  destruct Ha as [| |j p Hf Hp Hs]; [done|done|]. injection Eo as -> _.
  pose proof (zget_set_core (abs x) np (Core USED (p_chan p) (nextpid x) (p_parent p) (p_killed p)) _ (zget_abs _ _ _ Hp)) as Hg.
  apply (f_equal cores) in Ea. cbn [cores set_next] in Ea. rewrite Ea in Hg.
  apply zget_abs_inv in Hg as (q & Hq & Hcore). injection Hcore as Hst _ _ _ _.
  assert (zget (procs x2) np = Some (with_parent q (Some i))) as Hq2.
  { apply update_get in E2 as (q' & Hq' & Hq2). rewrite Hq in Hq'. by injection Hq' as <-. }
  eapply reach_trans; [exact R1|]. eapply reach_step; [eapply reach_one|].
  - eapply (step_fork_adopt _ _ _ _ i np q); [by rewrite Hc|done..].
  - by eapply (step_fork_ready _ _ _ _ np).
Qed.

Lemma trap_fork i : trap_ok (may_fork i) (on_p (fork kend trampoline forkret i)) (fun _ => true).
Proof.
  intros w [Hh Hn]. unfold on_p.
  destruct (fork _ _ _ i (tproc w)) as [r x| |c x] eqn:E; [|done|by apply awake_fork in E]. cbn.
  split; [by eapply fork_reach|]. intros _. by apply stays_fork in E.
Qed.

Lemma trap_exit i st : trap_ok (here i) (on_p (exit i st)) (fun _ => false).
Proof.
  apply trap_p. intros w Hh. destruct (exit i st (tproc w)) as [[] x| |c x] eqn:E; [|done|].
  - split; [by eapply step_exit|done].
  - apply step_kernel. by apply exit_sleeps in E.
Qed.

Lemma trap_wait i addr : trap_ok (here i) (on_p (wait kend i addr)) (fun _ => true).
Proof.
  apply trap_p. intros w Hh. destruct (wait kend i addr (tproc w)) as [r x| |c x] eqn:E; [|done|by eapply step_wait_sleep].
  split; [by eapply step_wait|]. intros _. by apply stays_wait in E.
Qed.

Lemma trap_kill i pid : trap_ok (here i) (on_p (kill pid)) (fun _ => true).
Proof.
  apply trap_p. intros w Hh. destruct (kill pid (tproc w)) as [r x| |c x] eqn:E; [|done|].
  - split; [by eapply step_kill|]. intros _. by apply stays_kill in E.
  - unfold kill, kbind, kgets in E. destruct (find_pid _ _ _); [|done].
    destruct (update _ _ _) eqn:Eu; [done|done|by apply update_Sleep in Eu].
Qed.

Lemma trap_sleep i c {A} : chan_obj c <> "proc" -> trap_ok (A := A) (here i) (on_p (sleep i c)) (fun _ => true).
Proof.
  intros Hc. apply trap_p. intros w Hh. destruct (sleep i c (tproc w)) as [r x| |c' x] eqn:E; [|done|].
  - exfalso. apply kbind_Ok_inv in E as (? & w1 & _ & E). by apply kbind_Ok_inv in E as (? & w2 & _ & E).
  - assert (sleep (A := unit) i c (tproc w) = Sleep c x) as Es.
    { unfold sleep, kbind in *. destruct (update _ _ _) as [? w1| |c1 w1] eqn:Eu; [|done|by apply update_Sleep in Eu].
      destruct (sched i w1) as [? w2| |c2 w2] eqn:Ed; [|done|by apply awake_sched in Ed]. by injection E as _ <-. }
    by eapply step_sleep.
Qed.

Lemma awake_yield i : awake (yield (F := F) i).
Proof. unfold yield. apply awake_bind; [apply awake_update|]. intros _. apply awake_sched. Qed.

Lemma trap_yield i : trap_ok (here i) (on_p (yield i)) (fun _ => false).
Proof.
  apply trap_p. intros w Hh. destruct (yield i (tproc w)) as [[] x| |c x] eqn:E; [|done|by apply awake_yield in E].
  split; [by eapply step_yield|done].
Qed.

Lemma trap_setkilled i : trap_ok (here i) (on_p (setkilled i)) (fun _ => true).
Proof.
  apply trap_p. intros w Hh. destruct (setkilled i (tproc w)) as [[] x| |c x] eqn:E; [|done|by apply update_Sleep in E].
  split; [by eapply step_setkilled|]. intros _. by apply stays_setkilled in E.
Qed.

Lemma trap_wakeup me c : trap_ok anywhere (on_p (wakeup me (Some c))) (fun _ => true).
Proof. apply trap_p. intros w Hh. cbn. split; [by eapply step_wakeup|done]. Qed.

Lemma here_same i w w' : abs (tproc w') = abs (tproc w) -> here i w -> here i w'.
Proof. intros E. unfold here. by rewrite (f_equal acpus E : cpus (tproc w') = cpus (tproc w)). Qed.

Lemma may_fork_same i w w' : abs (tproc w') = abs (tproc w) -> may_fork i w -> may_fork i w'.
Proof.
  intros E [H1 H2]. split; [by eapply here_same|]. by rewrite (f_equal anext E : nextpid (tproc w') = nextpid (tproc w)).
Qed.

Lemma trap_weaken {A} i (m : M tworld A) stay : trap_ok (here i) m stay -> trap_ok (may_fork i) m stay.
Proof. intros Hm w [Hw _]. by apply Hm. Qed.

Ltac after := eapply trap_after; [by apply here_same|solve [keeps_tstill]|intros ?].

Definition returned (r : option Z) : bool := bool_decide (is_Some r).

Lemma trap_lock_result i r : trap_ok (here i) (lock_result i r) returned.
Proof.
  destruct r as [v t|t|]; cbn [lock_result]; [apply trap_still; keeps_tstill| |by apply trap_still; keeps_tstill].
  after. intros w Hw. pose proof (trap_yield i w Hw) as Hy. unfold kbind.
  destruct (on_p (yield i) w) as [[] w1| |c w1]; cbn; [by destruct Hy|done|done].
Qed.

Lemma trap_sleep_loop i t n : trap_ok (here i) (sleep_loop i t n) returned.
Proof.
  unfold sleep_loop. after. case_match; [|apply trap_still; auto with tstill]. after.
  case_match; [apply trap_still; auto with tstill|].
  intros w Hw. pose proof (trap_sleep i ticks_chan (A := option Z) ltac:(done) w Hw) as Hs.
  destruct (on_p _ w) as [r w'| |c w']; [|done|done]. destruct Hs as [H1 H2]. auto.
Qed.

Lemma trap_wake_all me l : trap_ok anywhere (on_p (wake_all me l)) (fun _ => true).
Proof.
  induction l as [|c l IH]; [by apply trap_still, tstill_p|]. intros w _.
  pose proof (trap_wakeup me (object_chan c) w I) as H1. cbn [wake_all]. unfold on_p, kbind in *. cbn in *.
  destruct H1 as [R1 C1]. specialize (IH (TWorld (set_procs (tproc w) (imap (wake1 me (Some (object_chan c))) (procs (tproc w))))
    (ticks w) (locks w) (regs w) (devs w)) I). cbn in IH.
  destruct (wake_all me l _) as [u x| |c' x]; cbn in *; [|done|by eapply reach_trans].
  destruct IH as [R2 C2]. split; [by eapply reach_trans|]. intros _. rewrite (C2 eq_refl). by apply C1.
Qed.

Lemma on_p_bind {A B} (m : M pworld A) (k : A -> M pworld B) w :
  on_p (kbind m k) w = kbind (on_p m) (fun a => on_p (k a)) w.
Proof. unfold on_p, kbind. by destruct (m (tproc w)). Qed.

Lemma trap_on_bind {A B} pre (m : M pworld A) (k : A -> M pworld B) stay :
  trap_ok pre (kbind (on_p m) (fun a => on_p (k a))) stay -> trap_ok pre (on_p (kbind m k)) stay.
Proof. intros Hm w Hw. rewrite on_p_bind. by apply Hm. Qed.

Lemma trap_file_run i call : trap_ok (here i) (on_p (file_run i call)) (fun _ => true).
Proof.
  unfold file_run. do 3 (apply trap_on_bind; after).
  apply trap_on_bind. eapply (trap_then _ (here i) _ _ (fun _ => true)); [by apply here_cpus| | |done].
  - intros w _. by apply trap_wake_all.
  - intros _ _. destruct (fe_result _) as [v|c]; [|by apply trap_sleep]. by apply trap_still, tstill_p, still_ret.
Qed.

Lemma trap_file i num : trap_ok (here i) (let! r := on_p (file_run i (t_file_call i num)) in kret (Some r)) returned.
Proof. apply (trap_map _ _ _ (fun _ => true)); [|done]. apply trap_file_run. Qed.

Lemma trap_sys_exit i : trap_ok (here i) (sys_exit i) returned.
Proof. unfold sys_exit. after. apply (trap_map _ _ (fun _ => None) (fun _ => false)); [apply trap_exit|done]. Qed.

Lemma trap_sys_wait i : trap_ok (here i) (sys_wait kend i) returned.
Proof. unfold sys_wait. after. apply (trap_map _ _ Some (fun _ => true)); [apply trap_wait|done]. Qed.

Lemma trap_sys_kill i : trap_ok (here i) (sys_kill i) returned.
Proof. unfold sys_kill. after. apply (trap_map _ _ Some (fun _ => true)); [apply trap_kill|done]. Qed.

Lemma trap_sys_sleep i : trap_ok (here i) (sys_sleep i) returned.
Proof. unfold sys_sleep. after. after. apply trap_sleep_loop. Qed.

Lemma trap_sys_acquire i : trap_ok (here i) (sys_peterson_acquire i) returned.
Proof. unfold sys_peterson_acquire. do 3 after. apply trap_lock_result. Qed.

Lemma trap_sys_release i : trap_ok (here i) (sys_peterson_release i) returned.
Proof. unfold sys_peterson_release. do 3 after. apply trap_lock_result. Qed.

Lemma trap_syscalls i num call :
  syscalls kend trampoline forkret i num = Some call -> trap_ok (may_fork i) call returned.
Proof.
  intros E. destruct (decide (num = 1)) as [-> |Hn].
  { injection E as <-. apply (trap_map _ _ _ (fun _ => true)); [apply trap_fork|done]. }
  apply trap_weaken. unfold syscalls in E.
  repeat case_match; try done; injection E as <-;
    first [apply trap_file|apply trap_sys_exit|apply trap_sys_wait|apply trap_sys_kill|apply trap_sys_sleep
          |apply trap_sys_acquire|apply trap_sys_release
          |apply trap_still; unfold sys_getpid, sys_sbrk, sys_uptime, sys_peterson_create, sys_peterson_destroy; keeps_tstill].
Qed.

Lemma trap_syscall i : trap_ok (may_fork i) (syscall kend trampoline forkret i) id.
Proof.
  unfold syscall. do 2 (eapply trap_after; [by apply may_fork_same|solve [keeps_tstill]|intros ?]). cbv zeta.
  destruct (if 0 <? i32 a0 then _ else None) as [call|] eqn:E; [|apply trap_still; keeps_tstill].
  eapply (trap_then _ (here i)).
  - apply may_fork_cpus.
  - apply (trap_syscalls i (i32 a0)). by case_match.
  - intros [v|]; [|done]. intros _. apply trap_still. keeps_tstill.
  - intros [v|]; [done|]. intros _. by exists false.
Qed.

Ltac from_anywhere := eapply trap_after; [done|solve [keeps_tstill]|intros ?].

Lemma trap_dev_intr me handler : trap_ok anywhere (dev_intr me handler) (fun _ => true).
Proof.
  unfold dev_intr. from_anywhere. destruct (handler a) as [[l d]|]; [|apply trap_still; auto with tstill].
  from_anywhere. apply trap_wake_all.
Qed.

Lemma trap_devintr me : trap_ok anywhere (devintr me) (fun _ => true).
Proof.
  unfold devintr. from_anywhere. case_match; [|case_match; [|apply trap_still; auto with tstill]].
  - do 2 from_anywhere. eapply (trap_then _ anywhere _ _ (fun _ => true)); [done| |intros ? _; apply trap_still; keeps_tstill|done].
    case_match; [|case_match; [|apply trap_still; auto with tstill]]; apply trap_dev_intr.
  - from_anywhere. eapply (trap_then _ anywhere _ _ (fun _ => true)); [done| |intros ? _; apply trap_still; keeps_tstill|done].
    case_match; [|apply trap_still; auto with tstill]. unfold clockintr. do 2 from_anywhere. apply trap_wakeup.
Qed.

Lemma trap_from_anywhere {A} pre (m : M tworld A) stay : trap_ok anywhere m stay -> trap_ok pre m stay.
Proof. intros Hm w _. by apply Hm. Qed.

Lemma trap_leave i : trap_ok (here i) (leave i) (fun _ => false).
Proof. unfold leave. apply (trap_map _ _ (fun _ => OffCpu) (fun _ => false)); [apply trap_exit|done]. Qed.

Lemma trap_usertrapret i : trap_ok (here i) (usertrapret trampoline uservec usertrap_at i) (fun _ => true).
Proof. apply trap_still. keeps_tstill. Qed.

Lemma trap_finish i d : trap_ok (here i) (finish trampoline uservec usertrap_at i d) (fun _ => false).
Proof.
  unfold finish. after. case_match; [apply trap_leave|]. case_match; [|apply trap_still; keeps_tstill].
  apply (trap_map _ _ (fun _ => OffCpu) (fun _ => false)); [apply trap_yield|done].
Qed.

Lemma trap_usertrap i :
  trap_ok (may_fork i) (usertrap kend trampoline forkret kernelvec uservec usertrap_at i) (fun _ => false).
Proof.
  unfold usertrap. eapply trap_after; [by apply may_fork_same|solve [keeps_tstill]|intros status].
  case_match; [apply trap_still; auto with tstill|].
  do 5 (eapply trap_after; [by apply may_fork_same|solve [keeps_tstill]|intros ?]). case_match.
  - eapply trap_after; [by apply may_fork_same|solve [keeps_tstill]|intros k]. case_match; [apply trap_weaken, trap_leave|].
    do 3 (eapply trap_after; [by apply may_fork_same|solve [unfold intr_on; keeps_tstill]|intros ?]).
    eapply (trap_then _ (here i)); [apply may_fork_cpus|apply trap_syscall|intros [] ?; [apply trap_finish|done]|].
    intros [] Hf; [done|]. by exists OffCpu.
  - apply trap_weaken.
    eapply (trap_then _ (here i) _ _ (fun _ => true)); [apply here_cpus|apply trap_from_anywhere, trap_devintr| |done]. intros d _.
    case_match; [apply trap_finish|]. eapply (trap_then _ (here i) _ _ (fun _ => true)); [apply here_cpus|apply trap_setkilled| |done].
    intros _ _. apply trap_finish.
Qed.

Definition on_me (me : option Z) w : Prop := match me with Some i => here i w | None => True end.

Lemma trap_kerneltrap me : trap_ok (on_me me) (kerneltrap me) (fun _ => false).
Proof.
  assert (forall w w', abs (tproc w') = abs (tproc w) -> on_me me w -> on_me me w') as Hsame.
  { intros w w' E. destruct me; [by apply here_same|done]. }
  unfold kerneltrap. do 2 (eapply trap_after; [exact Hsame|solve [keeps_tstill]|intros ?]).
  case_match; [apply trap_still; auto with tstill|]. case_match; [apply trap_still; auto with tstill|].
  eapply (trap_then _ (on_me me) _ _ (fun _ => true)); [|apply trap_from_anywhere, trap_devintr| |done].
  { intros w w' E. destruct me; [by apply here_cpus|done]. }
  intros d _. case_match; [apply trap_still; auto with tstill|].
  destruct me as [i|]; [|apply trap_still; unfold kerneltrap_end; keeps_tstill]. cbn [on_me].
  after. case_match; [|apply trap_still; unfold kerneltrap_end; keeps_tstill].
  apply (trap_map _ _ (fun _ => Some i) (fun _ => false)); [apply trap_yield|done].
Qed.
End Table.
