(* ===== verification/TrapDevices.v ===== *)
(** The devices behind the trap handler.

    An instance of the interface [TrapCalls] of [Trap] in which the interrupt
    handlers are those of the UART with the console ([uartintr] of
    [kernel/uart.c], modelled in [Console]) and of the disk ([virtio_disk_intr],
    modelled in [Virtio]).  The interrupt controller is the list of the interrupts
    that are pending; the UART has a receive queue.  There are no files: a call on
    them returns -1. *)

From S2P Require Import Prelude Kalloc Proc Uart Console Virtio Trap.

Record devices : Type := Devices {
  plic : list Z;
  rx : list Z;
  tty_cons : cons;
  tty_uart : uart;
  drive : disk
}.

(** The channels of [wakeup] in the two handlers. *)
Definition cons_r_chan : chan := Chan "cons.r" 0.
Definition uart_tx_chan : chan := Chan "uart_tx_r" 0.
Definition disk_chan (b : Z) : chan := Chan "disk" b.

Definition event_chan (ev : event) : list chan := if ev is Wakeup_r then [cons_r_chan] else [].

(** The callers that slept before and do not any more. *)
Definition disk_woken (d d' : disk) : list chan :=
  (fun x => disk_chan x.1) <$> filter (fun x => asleep d' !! x.1 = None) (map_to_list (asleep d)).

Definition uart_handler (d : devices) : option (list chan * devices) :=
  let '(s, u, evs, wake) := uartintr (rx d) 0 (tty_cons d) (tty_uart d) in
  Some (concat (event_chan <$> evs) ++ (if wake : bool then [uart_tx_chan] else []),
        Devices (plic d) [] s u (drive d)).

Definition disk_handler (d : devices) : option (list chan * devices) :=
  match virtio_disk_intr (drive d) with
  | Ok _ k => Some (disk_woken (drive d) k, Devices (plic d) (rx d) (tty_cons d) (tty_uart d) k)
  | _ => None
  end.

Definition claim (d : devices) : Z * devices :=
  match plic d with
  | [] => (0, d)
  | irq :: l => (irq, Devices l (rx d) (tty_cons d) (tty_uart d) (drive d))
  end.

Definition fails {F : Type} (p : proc) (x : kstate * F) : option (file_end * (kstate * F)) :=
  Some (FileEnd (inl (-1)) (p_ofile p) (p_cwd p) [], x).

Definition xv6_devices : TrapCalls unit devices :=
  {| t_file_call _ _ := fails; t_file_resume _ := fails; t_claim := claim; t_complete _ d := d;
     t_uartintr := uart_handler; t_diskintr := disk_handler |}.

(** The line [hi] waits in the UART. *)
Definition typed_hi : devices :=
  Devices [UART0_IRQ] [104; 105; 13] cons_boot uart_boot
    (vd (vboot (fun _ => []) (fun _ => VBuf 0 0 []) (replicate 8 true))).
