(* ===== verification/TrapSafe.v ===== *)
(** What a trap leaves.

    The process-table invariant holds through every trap from user mode and
    every interrupt of the kernel, whatever system call with whatever arguments a
    process makes; and the handler ends in one of the ways it should. *)

From S2P Require Import Prelude Mem Kalloc Vm Proc ProcTable ProcLife Exec MachineTypes ExecCall Peterson Trap TrapTheorems TrapDevices.

(** ** The machine *)

Section Machine.
Context {F D : Type} `{!ProcFiles F, !ForkFiles F, !ExecFiles F, !TrapCalls F D}.
Context (kend trampoline forkret kernelvec uservec usertrap_at : Z).

Abbreviation tworld := (@tworld F D).
Abbreviation trap := (usertrap kend trampoline forkret kernelvec uservec usertrap_at).
Implicit Types w : tworld.

(** A trap of a process that is on a CPU, run without interruption; an interrupt
    of the kernel; [sys_sleep] and the calls on files going on after a wakeup; the
    end of a trap whose system call has slept or was interrupted, and the return
    to user mode of a process that has yielded; the scheduler and every step of a
    process call, which is how a call that others interleave with is run; and user
    code or another CPU with its own registers. *)
Inductive mstep w : tworld -> Prop :=
| m_trap i o w' : may_fork i w -> trap i w = Ok o w' -> mstep w w'
| m_trap_sleeps i c w' : may_fork i w -> trap i w = Sleep c w' -> mstep w w'
| m_interrupt me r w' : on_me me w -> kerneltrap me w = Ok r w' -> mstep w w'
| m_sleep_again i t n r w' : here i w -> sleep_loop i t n w = Ok r w' -> mstep w w'
| m_sleep_on i t n c w' : here i w -> sleep_loop i t n w = Sleep c w' -> mstep w w'
| m_file_again i r w' : here i w -> on_p (file_run i (t_file_resume i)) w = Ok r w' -> mstep w w'
| m_file_on i c w' : here i w -> on_p (file_run i (t_file_resume i)) w = Sleep c w' -> mstep w w'
| m_end i d o w' : here i w -> finish trampoline uservec usertrap_at i d w = Ok o w' -> mstep w w'
| m_back i r w' : here i w -> usertrapret trampoline uservec usertrap_at i w = Ok r w' -> mstep w w'
| m_process x : pstep kend trampoline forkret (tproc w) x ->
    mstep w (TWorld x (ticks w) (locks w) (regs w) (devs w))
| m_registers r : mstep w (TWorld (tproc w) (ticks w) (locks w) r (devs w)).

Lemma mstep_reach w w' : mstep w w' -> reach (pstep kend trampoline forkret) (tproc w) (tproc w').
Proof.
  intros [i o w1 Hp E|i c w1 Hp E|me r w1 Hp E|i t n r w1 Hp E|i t n c w1 Hp E|i r w1 Hp E|i c w1 Hp E|i d o w1 Hp E|i r w1 Hp E|x Hs|r].
  - pose proof (trap_usertrap kend trampoline forkret kernelvec uservec usertrap_at i w Hp) as H. rewrite E in H. apply H.
  - pose proof (trap_usertrap kend trampoline forkret kernelvec uservec usertrap_at i w Hp) as H. by rewrite E in H.
  - pose proof (trap_kerneltrap kend trampoline forkret me w Hp) as H. rewrite E in H. apply H.
  - pose proof (trap_sleep_loop kend trampoline forkret i t n w Hp) as H. rewrite E in H. apply H.
  - pose proof (trap_sleep_loop kend trampoline forkret i t n w Hp) as H. by rewrite E in H.
  - pose proof (trap_file_run kend trampoline forkret i (t_file_resume i) w Hp) as H. rewrite E in H. apply H.
  - pose proof (trap_file_run kend trampoline forkret i (t_file_resume i) w Hp) as H. by rewrite E in H.
  - pose proof (trap_finish kend trampoline forkret uservec usertrap_at i d w Hp) as H. rewrite E in H. apply H.
  - pose proof (trap_usertrapret kend trampoline forkret uservec usertrap_at i w Hp) as H. rewrite E in H. apply H.
  - by apply reach_one.
  - constructor.
Qed.

Lemma reach_ainv x y :
  reach (pstep (F := F) kend trampoline forkret) x y -> ainv (abs x) -> ainv (abs y).
Proof.
  intros Hr Hx. revert y Hr. apply (reach_inv _ (fun z => ainv (abs z))); [done|]. intros s s'. apply table_step.
Qed.
End Machine.

(** ** How a trap ends *)

Section Outcome.
Context {F D : Type} `{!ProcFiles F, !ExecFiles F, !TrapCalls F D}.
Context (kend trampoline forkret kernelvec uservec usertrap_at : Z).

Abbreviation tworld := (@tworld F D).
Implicit Types w : tworld.

(** Process [i] has exited with status [st]. *)
Definition zombie (st i : Z) w : Prop :=
  ~ on_cpu (cpus (tproc w)) i /\
  exists p, zget (procs (tproc w)) i = Some p /\ p_state p = ZOMBIE /\ p_xstate p = st.

(** No CPU runs it, and it has exited or waits for one. *)
Definition gone i w : Prop :=
  ~ on_cpu (cpus (tproc w)) i /\
  exists p, zget (procs (tproc w)) i = Some p /\ (p_state p = ZOMBIE \/ p_state p = RUNNABLE).

(** The state in which the processor goes back to the program. *)
Record in_user i w : Prop := {
  iu_mode : Z.testbit (sstatus (regs w)) 8 = false;
  iu_enabled : Z.testbit (sstatus (regs w)) 5 = true;
  iu_masked : Z.testbit (sstatus (regs w)) 1 = false;
  iu_vector : stvec (regs w) = u64 (TRAMPOLINE + (uservec - trampoline));
  iu_proc : exists p, zget (procs (tproc w)) i = Some p /\ p_killed p = 0 /\
    sepc (regs w) = ld64 (kmem (kpages (tproc w))) (p_trapframe p + TF_epc) /\
    satp (regs w) = MAKE_SATP (p_pagetable p) /\
    ld64 (kmem (kpages (tproc w))) (p_trapframe p + TF_kernel_sp) = u64 (p_kstack p + PGSIZE)
}.

Lemma on_p_Ok {A} (m : M pworld A) w a w' :
  on_p m w = Ok a w' -> m (tproc w) = Ok a (tproc w') /\ regs w' = regs w.
Proof. unfold on_p. destruct (m (tproc w)); [|done|done]. by intros [= <- <-]. Qed.

Lemma sched_Ok i (x : @pworld F) r y : sched i x = Ok r y -> procs y = procs x /\ ~ on_cpu (cpus y) i.
Proof.
  intros E. apply kbind_Ok_inv in E as (p & x1 & [-> _]%get_proc_Ok & E). case_decide; [done|]. injection E as <- <-.
  split; [done|]. by intros [k [_ ?]%zget_off].
Qed.

Lemma exit_zombie i st w r w' : on_p (exit i st) w = Ok r w' -> zombie st i w'.
Proof.
  intros [E _]%on_p_Ok. unfold exit in E. apply kbind_Ok_inv in E as (init & x1 & _ & E). case_decide; [done|].
  do 8 (apply kbind_Ok_inv in E as (? & ? & _ & E)).
  apply kbind_Ok_inv in E as (? & xz & (p & _ & Hp)%update_get & [E Hc]%sched_Ok).
  split; [done|]. exists (with_state (with_xstate p st) ZOMBIE). by rewrite E.
Qed.

Lemma leave_zombie i w o w' : leave i w = Ok o w' -> o = OffCpu /\ zombie (-1) i w'.
Proof.
  intros E. apply kbind_Ok_inv in E as (? & w1 & E1%exit_zombie & [= <- <-]). done.
Qed.

Lemma zombie_gone st i w : zombie st i w -> gone i w.
Proof. intros (Hc & p & Hp & Hs & _). split; [done|]. exists p. auto. Qed.

Lemma yield_gone i w r w' : on_p (yield i) w = Ok r w' -> gone i w'.
Proof.
  intros [E _]%on_p_Ok. apply kbind_Ok_inv in E as (? & x1 & (p & _ & Hp)%update_get & [E Hc]%sched_Ok).
  split; [done|]. exists (with_state p RUNNABLE). rewrite E. split; [done|]. by right.
Qed.

Lemma testbit_clear x n k : 0 <= n -> 0 <= k -> Z.testbit (clear x (Z.shiftl 1 n)) k = if decide (k = n) then false else Z.testbit x k.
Proof.
  intros Hn Hk. unfold clear. rewrite Z.land_spec, Z.lnot_spec, Z.shiftl_1_l by done.
  destruct (decide (k = n)) as [-> |Hne].
  - rewrite Z.pow2_bits_true by done. apply andb_false_r.
  - rewrite Z.pow2_bits_false by congruence. apply andb_true_r.
Qed.

Lemma testbit_set x n k : 0 <= n -> 0 <= k ->
  Z.testbit (Z.lor x (Z.shiftl 1 n)) k = if decide (k = n) then true else Z.testbit x k.
Proof.
  intros Hn Hk. rewrite Z.lor_spec, Z.shiftl_1_l. destruct (decide (k = n)) as [-> |Hne].
  - rewrite Z.pow2_bits_true by done. apply orb_true_r.
  - rewrite Z.pow2_bits_false by congruence. apply orb_false_r.
Qed.

(** *** Single steps *)

Abbreviation memory w := (kmem (kpages (tproc w))).

Lemma set_csr_Ok f w r w' : set_csr f w = Ok r w' -> regs w' = f (regs w) /\ tproc w' = tproc w.
Proof. by intros [= _ <-]. Qed.

Lemma csr_Ok {A} (f : csrs -> A) w a w' : csr f w = Ok a w' -> a = f (regs w) /\ w' = w.
Proof. by intros [= <- <-]. Qed.

Lemma store_Ok a v w r w' :
  on_p (on_mem (store a v)) w = Ok r w' ->
  regs w' = regs w /\ procs (tproc w') = procs (tproc w) /\ memory w' = st64 (memory w) a v.
Proof. by intros [= _ <-]. Qed.

Lemma on_load_Ok a w v w' : on_p (on_mem (load a)) w = Ok v w' -> v = ld64 (memory w) a /\ w' = w.
Proof. intros [= <- <-]. split; [done|]. by destruct w as [[]]. Qed.

Lemma get_Ok i w p w' : on_p (get_proc i) w = Ok p w' -> zget (procs (tproc w)) i = Some p /\ w' = w.
Proof.
  unfold on_p, get_proc. destruct (zget _ _) as [q|]; [|done]. intros [= <- <-]. split; [done|]. by destruct w.
Qed.

Lemma killed_Ok i w k w' :
  on_p (killed i) w = Ok k w' -> w' = w /\ exists p, zget (procs (tproc w)) i = Some p /\ k = p_killed p.
Proof.
  unfold on_p, killed, kbind, get_proc. destruct (zget _ _) as [q|]; [|done]. intros [= <- <-].
  split; [by destruct w|]. by exists q.
Qed.

Lemma usertrapret_user i p w r w' :
  zget (procs (tproc w)) i = Some p -> p_killed p = 0 ->
  usertrapret trampoline uservec usertrap_at i w = Ok r w' ->
  in_user i w' /\ sepc (regs w') = ld64 (memory w) (p_trapframe p + TF_epc).
Proof.
  intros Hp Hk E. unfold usertrapret in E.
  apply kbind_Ok_inv in E as (q & w0 & [Hq ->]%get_Ok & E). rewrite Hp in Hq. injection Hq as <-.
  apply kbind_Ok_inv in E as (? & w1 & [R1 P1]%set_csr_Ok & E). apply kbind_Ok_inv in E as (? & w2 & [R2 P2]%set_csr_Ok & E).
  apply kbind_Ok_inv in E as (rr & w3 & [-> ->]%csr_Ok & E).
  apply kbind_Ok_inv in E as (? & w4 & (R4 & P4 & M4)%store_Ok & E). apply kbind_Ok_inv in E as (? & w5 & (R5 & P5 & M5)%store_Ok & E).
  apply kbind_Ok_inv in E as (? & w6 & (R6 & P6 & M6)%store_Ok & E). apply kbind_Ok_inv in E as (? & w7 & (R7 & P7 & M7)%store_Ok & E).
  apply kbind_Ok_inv in E as (? & w8 & [R8 P8]%set_csr_Ok & E). apply kbind_Ok_inv in E as (epc & w9 & [-> ->]%on_load_Ok & E).
  apply kbind_Ok_inv in E as (? & w10 & [R10 P10]%set_csr_Ok & [R11 P11]%set_csr_Ok).
  assert (procs (tproc w') = procs (tproc w)) as HP by congruence.
  assert (sstatus (regs w') = Z.lor (clear (clear (sstatus (regs w)) SSTATUS_SIE) SSTATUS_SPP) SSTATUS_SPIE) as HS.
  { rewrite R11, R10, R8, R7, R6, R5, R4, R2, R1. done. }
  assert (sepc (regs w') = ld64 (memory w) (p_trapframe p + TF_epc)) as HE.
  { rewrite R11, R10. cbn [sepc with_sepc with_satp]. rewrite P8, M7, M6, M5, M4, P2, P1.
    by rewrite !ld64_st64_ne by (unfold disjoint, TF_kernel_hartid, TF_kernel_trap, TF_kernel_sp, TF_kernel_satp, TF_epc; lia). }
  split; [|exact HE]. split; try (rewrite HS; unfold SSTATUS_SIE, SSTATUS_SPP, SSTATUS_SPIE; rewrite testbit_set, ?testbit_clear by done; done).
  - rewrite R11, R10, R8, R7, R6, R5, R4, R2. done.
  - exists p. rewrite HP. split; [done|]. split; [done|].
    assert (memory w' = memory w7) as HM by (by rewrite P11, P10, P8).
    split; [|split].
    + rewrite HM, <- P8, R11, R10. done.
    + by rewrite R11.
    + rewrite HM, M7, M6, M5. rewrite !ld64_st64_ne by (unfold disjoint, TF_kernel_hartid, TF_kernel_trap, TF_kernel_sp; lia).
      apply ld64_st64_eq. apply Z.mod_pos_bound. done.
Qed.

(** *** What leaves the trap frames alone *)

Definition frame i w : option Z := p_trapframe <$> zget (procs (tproc w)) i.

Definition framed {A} (m : M tworld A) : Prop := forall w a w', m w = Ok a w' ->
  memory w' = memory w /\ forall i, frame i w' = frame i w.

Lemma framed_bind {A B} (m : M tworld A) (k : A -> M tworld B) :
  framed m -> (forall a, framed (k a)) -> framed (kbind m k).
Proof.
  intros Hm Hk w b w' (a & w1 & [M1 F1]%Hm & [M2 F2]%Hk)%kbind_Ok_inv. split; [congruence|].
  intros i. by rewrite F2.
Qed.

Lemma framed_ret {A} (a : A) : framed (kret a).
Proof. by intros w b w' [= _ <-]. Qed.
Lemma framed_panic {A} msg : framed (panic (A := A) msg).
Proof. done. Qed.
Lemma framed_sleep {A} c : framed (ksleep (A := A) c).
Proof. done. Qed.
Lemma framed_gets {A} (f : tworld -> A) : framed (kgets f).
Proof. by intros w b w' [= _ <-]. Qed.
Lemma framed_csr {A} (f : csrs -> A) : framed (csr f).
Proof. by intros w b w' [= _ <-]. Qed.
Lemma framed_set_csr f : framed (set_csr f).
Proof. by intros w b w' [= _ <-]. Qed.
Lemma framed_set_ticks n : framed (set_ticks n).
Proof. by intros w b w' [= _ <-]. Qed.
Lemma framed_set_locks t : framed (set_locks t).
Proof. by intros w b w' [= _ <-]. Qed.
Lemma framed_set_devs d : framed (set_devs d).
Proof. by intros w b w' [= _ <-]. Qed.
Lemma framed_get j : framed (on_p (get_proc j)).
Proof. by intros w b w' [_ ->]%get_Ok. Qed.
Lemma framed_load a : framed (on_p (on_mem (load a))).
Proof. by intros w b w' [_ ->]%on_load_Ok. Qed.
Lemma framed_killed j : framed (on_p (killed j)).
Proof. by intros w b w' [-> _]%killed_Ok. Qed.

Lemma framed_update j f : (forall p, p_trapframe (f p) = p_trapframe p) -> framed (on_p (update j f)).
Proof.
  intros Hf w b w' [(p & Hp & E & _)%update_Ok _]%on_p_Ok. rewrite E. split; [done|]. intros i.
  unfold frame. rewrite E. cbn. rewrite (zget_insert _ _ _ _ p Hp). case_decide; [subst|done]. rewrite Hp. cbn. by rewrite Hf.
Qed.

Lemma framed_wakeup me c : framed (on_p (wakeup me c)).
Proof.
  intros w b w' [= _ <-]. split; [done|]. intros i. unfold frame. cbn. rewrite zget_imap.
  destruct (zget _ i) as [p|]; [|done]. cbn. unfold wake1. by repeat case_decide.
Qed.

Lemma framed_on_bind {A B} (m : M pworld A) (k : A -> M pworld B) :
  framed (on_p m) -> (forall a, framed (on_p (k a))) -> framed (on_p (kbind m k)).
Proof. intros Hm Hk w b w'. rewrite on_p_bind. by apply framed_bind. Qed.

Lemma framed_on_gets {A} (f : pworld -> A) : framed (on_p (kgets f)).
Proof. intros w b w' [= _ <-]. by destruct w. Qed.
Lemma framed_on_panic {A} msg : framed (on_p (panic (A := A) msg)).
Proof. done. Qed.
Lemma framed_on_ret {A} (a : A) : framed (on_p (kret a)).
Proof. intros w b w' [= _ <-]. by destruct w. Qed.

Lemma framed_wake_all me l : framed (on_p (wake_all me l)).
Proof.
  induction l as [|c l IH]; [apply framed_on_ret|]. apply framed_on_bind; [apply framed_wakeup|]. done.
Qed.

Create HintDb framed discriminated.
#[local] Hint Resolve framed_ret framed_panic framed_sleep framed_gets framed_csr framed_set_csr framed_set_ticks
  framed_set_locks framed_set_devs framed_get framed_load framed_killed framed_wakeup framed_wake_all framed_on_ret
  framed_on_gets framed_on_panic : framed.
Ltac keeps_frames := repeat first
  [solve [auto with framed] | apply framed_update; intros ?; cbv zeta; by repeat case_match
  | apply framed_bind; [|intros ?] | apply framed_on_bind; [|intros ?] | progress cbv zeta | progress case_match | done].

Lemma framed_arg i n : framed (on_p (arg_of i n)).
Proof. unfold arg_of. keeps_frames. Qed.

Lemma framed_int_arg i n : framed (int_arg i n).
Proof. unfold int_arg. apply framed_bind; [apply framed_arg|]. intros. apply framed_ret. Qed.
#[local] Hint Resolve framed_int_arg : framed.

Lemma framed_devintr me : framed (devintr me).
Proof. unfold devintr, dev_intr, clockintr. keeps_frames. Qed.

Lemma framed_setkilled i : framed (on_p (setkilled i)).
Proof. unfold setkilled. keeps_frames. Qed.

(** The calls that change no memory but their result. *)
Definition quiet (num : Z) : bool := bool_decide (num ∈ [6; 11; 13; 14; 22; 23; 24; 25]).

Lemma framed_sched i : framed (on_p (sched i)).
Proof.
  unfold sched. apply framed_on_bind; [apply framed_get|]. intros p. case_decide; [apply framed_on_panic|].
  by intros w b w' [= _ <-].
Qed.
#[local] Hint Resolve framed_sched : framed.

Lemma framed_lock_result i r : framed (lock_result i r).
Proof. destruct r; cbn [lock_result]; unfold yield; keeps_frames. Qed.

Lemma framed_on_sleep {A} i c : framed (on_p (sleep (A := A) i c)).
Proof.
  intros w a w' [E _]%on_p_Ok. by repeat (apply kbind_Ok_inv in E as (? & ? & _ & E)).
Qed.
#[local] Hint Resolve framed_lock_result framed_on_sleep : framed.

Lemma framed_quiet i num call :
  quiet num = true -> syscalls kend trampoline forkret i num = Some call -> framed call.
Proof.
  intros Hq%bool_decide_eq_true E. repeat (apply list.elem_of_cons in Hq as [-> |Hq]); [..|by apply elem_of_nil in Hq];
    injection E as <-; unfold sys_kill, kill, sys_getpid, sys_sleep, sleep_loop, sys_uptime, sys_peterson_create,
      sys_peterson_acquire, sys_peterson_release, sys_peterson_destroy; keeps_frames.
Qed.

(** *** The handler *)

Lemma sys_sleep_some i w w' : sys_sleep i w <> Ok None w'.
Proof.
  intros E. unfold sys_sleep in E. do 2 (apply kbind_Ok_inv in E as (? & ? & _ & E)). unfold sleep_loop in E.
  apply kbind_Ok_inv in E as (? & ? & _ & E). case_match; [|done].
  apply kbind_Ok_inv in E as (? & ? & _ & E). case_match; [done|]. apply on_p_Ok in E as [E _].
  by repeat (apply kbind_Ok_inv in E as (? & ? & _ & E)).
Qed.

Lemma lock_result_some i r w w' : lock_result i r w <> Ok None w'.
Proof. intros E. destruct r; repeat (apply kbind_Ok_inv in E as (? & ? & _ & E)); done. Qed.

Lemma sys_exit_none i w w' : sys_exit i w = Ok None w' -> exists st, zombie st i w'.
Proof.
  intros E. apply kbind_Ok_inv in E as (st & w1 & _ & E). apply kbind_Ok_inv in E as (? & w2 & E2%exit_zombie & [= <-]). eauto.
Qed.

(** [exit] is the only call that does not return. *)
Lemma syscalls_none i num call w w' :
  syscalls kend trampoline forkret i num = Some call -> call w = Ok None w' -> exists st, zombie st i w'.
Proof.
  unfold syscalls. intros Hc E. repeat case_match; try done; injection Hc as <-;
    try (by apply sys_exit_none in E); try (by apply sys_sleep_some in E);
    unfold sys_fork, sys_wait, sys_kill, sys_getpid, sys_sbrk, sys_uptime, sys_peterson_create,
      sys_peterson_acquire, sys_peterson_release, sys_peterson_destroy in E; exfalso;
    repeat (apply kbind_Ok_inv in E as (? & ? & _ & E));
    first [done | by apply lock_result_some in E].
Qed.

Lemma syscall_false i w w' : syscall kend trampoline forkret i w = Ok false w' -> exists st, zombie st i w'.
Proof.
  intros E. unfold syscall in E. apply kbind_Ok_inv in E as (? & ? & _ & E).
  apply kbind_Ok_inv in E as (a7 & ? & _ & E). cbv zeta in E.
  destruct (if 0 <? _ then _ else None) as [call|] eqn:Hc.
  - apply kbind_Ok_inv in E as ([v|] & w1 & E1 & E); [by apply kbind_Ok_inv in E as (? & ? & _ & E)|].
    injection E as <-. revert E1. apply (syscalls_none i (i32 a7)). by case_match.
  - by apply kbind_Ok_inv in E as (? & ? & _ & E).
Qed.

(** A system call of process [p], whose frame holds the number of the call: it
    starts with the program counter after the [ecall], and the program goes on
    there if the call changes no memory, and for every call where the frame says
    after it. *)
Definition after_call i p w w' : Prop :=
  (exists ws wr q, syscall kend trampoline forkret i ws = Ok true wr /\ procs (tproc ws) = procs (tproc w) /\
     ld64 (memory ws) (p_trapframe p + TF_epc) = u64 (sepc (regs w) + 4) /\
     zget (procs (tproc wr)) i = Some q /\ sepc (regs w') = ld64 (memory wr) (p_trapframe q + TF_epc)) /\
  let num := i32 (ld64 (memory w) (p_trapframe p + TF_a7)) in
  (quiet num = true \/ syscalls kend trampoline forkret i num = None \/ num <= 0 ->
   sepc (regs w') = u64 (sepc (regs w) + 4)).

(** Where the program goes on after the trap. *)
Definition resumes i w w' : Prop := forall p,
  zget (procs (tproc w)) i = Some p -> 0 <= sepc (regs w) < 2 ^ 64 ->
  (scause (regs w) = 8 -> after_call i p w w') /\
  (scause (regs w) <> 8 -> sepc (regs w') = sepc (regs w)).

Definition well_ended (i : Z) (o : outcome) w w' : Prop :=
  match o with ToUser => in_user i w' /\ resumes i w w' | OffCpu => gone i w' end.

Lemma finish_ended i d w o w' : finish trampoline uservec usertrap_at i d w = Ok o w' ->
  match o with
  | ToUser => in_user i w' /\ exists p, zget (procs (tproc w)) i = Some p /\
      sepc (regs w') = ld64 (memory w) (p_trapframe p + TF_epc)
  | OffCpu => gone i w'
  end.
Proof.
  intros E. apply kbind_Ok_inv in E as (k & w1 & (-> & p & Hp & ->)%killed_Ok & E).
  case_match eqn:Hk; [by apply leave_zombie in E as [-> E%zombie_gone]|].
  case_match; apply kbind_Ok_inv in E as (? & w2 & E1 & [= <- <-]).
  - by eapply yield_gone.
  - apply negb_false_iff, Z.eqb_eq in Hk. destruct (usertrapret_user i p w _ _ Hp Hk E1) as [Hu Hpc].
    split; [done|]. by exists p.
Qed.

(** The program counter in the frame of [i], kept by what keeps the frames. *)
Lemma frame_pc i p q w w' :
  memory w' = memory w -> (forall i, frame i w' = frame i w) ->
  zget (procs (tproc w)) i = Some p -> zget (procs (tproc w')) i = Some q ->
  ld64 (memory w') (p_trapframe q + TF_epc) = ld64 (memory w) (p_trapframe p + TF_epc).
Proof.
  intros HM HF Hp Hq. specialize (HF i). unfold frame in HF. rewrite Hp, Hq in HF. cbn in HF. injection HF as HF.
  by rewrite HM, HF.
Qed.

(** A quiet call, or a number that names none, changes only the result. *)
Lemma syscall_quiet i p q w r w' :
  zget (procs (tproc w)) i = Some p -> zget (procs (tproc w')) i = Some q ->
  (let num := i32 (ld64 (memory w) (p_trapframe p + TF_a7)) in
   quiet num = true \/ syscalls kend trampoline forkret i num = None \/ num <= 0) ->
  syscall kend trampoline forkret i w = Ok r w' -> r = true ->
  ld64 (memory w') (p_trapframe q + TF_epc) = ld64 (memory w) (p_trapframe p + TF_epc).
Proof.
  intros Hp Hq Hnum E ->. unfold syscall in E.
  apply kbind_Ok_inv in E as (p' & w1 & [Hp' ->]%get_Ok & E). rewrite Hp in Hp'. injection Hp' as <-.
  apply kbind_Ok_inv in E as (a7 & w1 & [-> ->]%on_load_Ok & E). cbv zeta in *.
  set (num := i32 _) in *.
  assert (forall v w1, procs (tproc w1) = procs (tproc w1) -> memory w1 = memory w -> (forall i, frame i w1 = frame i w) ->
    (on_p (on_mem (store (p_trapframe p + TF_a0) v)) ;;; kret true) w1 = Ok true w' ->
    ld64 (memory w') (p_trapframe q + TF_epc) = ld64 (memory w) (p_trapframe p + TF_epc)) as Hend.
  { intros v w1 _ HM HF E1. apply kbind_Ok_inv in E1 as (? & w2 & (_ & P2 & M2)%store_Ok & [= <-]).
    specialize (HF i). unfold frame in HF. rewrite <- P2, Hp, Hq in HF. cbn in HF. injection HF as HF.
    rewrite M2, HM, HF. apply ld64_st64_ne. unfold disjoint, TF_a0, TF_epc. lia. }
  destruct (Z.ltb_spec 0 num) as [Hpos|Hneg]; [|by eapply Hend].
  destruct (syscalls _ _ _ i num) as [call|] eqn:Hc; [|by eapply Hend].
  destruct Hnum as [Hq'|[Hn|Hn]]; [|done|lia].
  apply kbind_Ok_inv in E as (o & w1 & E1 & E). destruct (framed_quiet i num call Hq' Hc _ _ _ E1) as [HM HF].
  destruct o as [v|]; [|done]. by eapply Hend.
Qed.

(** *** Faults *)

(** An exception that is not the system call. *)
Definition fault (cause : Z) : Prop := cause <> 8 /\ Z.testbit cause 63 = false.

Lemma devintr_fault me w r w' : fault (scause (regs w)) -> devintr me w = Ok r w' -> r = 0 /\ w' = w.
Proof.
  intros [_ Hb] E. unfold devintr in E. apply kbind_Ok_inv in E as (c & w1 & [-> ->]%csr_Ok & E).
  assert (Z.land (scause (regs w)) (Z.shiftl 1 63) = 0) as H0.
  { apply Z.bits_inj'. intros k Hk. rewrite Z.land_spec, Z.shiftl_1_l, Z.bits_0.
    destruct (decide (k = 63)) as [-> |Hne]; [by rewrite Hb|]. rewrite Z.pow2_bits_false by lia. apply andb_false_r. }
  rewrite H0 in E. cbn in E. destruct (Z.eqb_spec (scause (regs w)) (Z.lor (Z.shiftl 1 63) 1)) as [Hc|].
  - by rewrite Hc in Hb.
  - by injection E as <- <-.
Qed.

Lemma finish_killed i d p w o w' :
  zget (procs (tproc w)) i = Some p -> p_killed p <> 0 ->
  finish trampoline uservec usertrap_at i d w = Ok o w' -> o = OffCpu /\ zombie (-1) i w'.
Proof.
  intros Hp Hk E. apply kbind_Ok_inv in E as (k & w1 & (-> & q & Hq & ->)%killed_Ok & E).
  rewrite Hp in Hq. injection Hq as <-. destruct (Z.eqb_spec (p_killed p) 0); [done|]. by eapply leave_zombie.
Qed.

Lemma setkilled_Ok i w r w' :
  on_p (setkilled i) w = Ok r w' -> exists p, zget (procs (tproc w')) i = Some p /\ p_killed p <> 0.
Proof. intros [E _]%on_p_Ok. apply update_get in E as (p & _ & Hp). eexists. split; [exact Hp|]. done. Qed.

(** A trap that ends, from the test of the mode on. *)
Lemma usertrap_begins i w o w' :
  usertrap kend trampoline forkret kernelvec uservec usertrap_at i w = Ok o w' ->
  exists w1 p, procs (tproc w1) = procs (tproc w) /\ zget (procs (tproc w)) i = Some p /\
    scause (regs w1) = scause (regs w) /\
    memory w1 = st64 (memory w) (p_trapframe p + TF_epc) (sepc (regs w)) /\
    (if scause (regs w) =? 8 then
       if negb (p_killed p =? 0) then leave i
       else
         let! epc := on_p (on_mem (load (p_trapframe p + TF_epc))) in
         on_p (on_mem (store (p_trapframe p + TF_epc) (u64 (epc + 4)))) ;;;
         intr_on ;;;
         let! returns := syscall kend trampoline forkret i in
         if returns : bool then finish trampoline uservec usertrap_at i 0 else kret OffCpu
     else
       let! which_dev := devintr (Some i) in
       if negb (which_dev =? 0) then finish trampoline uservec usertrap_at i which_dev
       else on_p (setkilled i) ;;; finish trampoline uservec usertrap_at i 0) w1 = Ok o w'.
Proof.
  intros E. unfold usertrap in E. apply kbind_Ok_inv in E as (? & w0 & [-> ->]%csr_Ok & E). case_match; [done|].
  apply kbind_Ok_inv in E as (? & w1 & [R1 P1]%set_csr_Ok & E).
  apply kbind_Ok_inv in E as (p & w2 & [Hp ->]%get_Ok & E). rewrite P1 in Hp.
  apply kbind_Ok_inv in E as (? & w3 & [-> ->]%csr_Ok & E).
  apply kbind_Ok_inv in E as (? & w4 & (R4 & P4 & M4)%store_Ok & E).
  apply kbind_Ok_inv in E as (? & w5 & [-> ->]%csr_Ok & E).
  assert (scause (regs w4) = scause (regs w)) as HC by (by rewrite R4, R1).
  exists w4, p. split; [by rewrite P4, P1|]. split; [done|]. split; [done|].
  split; [by rewrite M4, P1, R1|]. rewrite HC in E.
  destruct (_ =? 8); [|exact E].
  apply kbind_Ok_inv in E as (k & w6 & (-> & q & Hq & ->)%killed_Ok & E).
  rewrite P4, P1, Hp in Hq. injection Hq as <-. exact E.
Qed.
End Outcome.

(** ** Sleeping *)

(** A negative count is compared as a large unsigned number: such a call does not
    return 0 in the first 2^31 ticks. *)
Lemma sleep_negative {F D} i t0 n (w w' : @tworld F D) :
  - 2 ^ 31 <= n < 0 -> u32 (ticks w - t0) < 2 ^ 31 -> sleep_loop i t0 n w <> Ok (Some 0) w'.
Proof.
  intros Hn Ht E. unfold sleep_loop in E. apply kbind_Ok_inv in E as (t & w1 & [= <- <-] & E).
  assert (u32 n = n + 2 ^ 32) as Hu.
  { unfold u32. rewrite <- (Z_mod_plus_full n 1), Z.mod_small; lia. }
  destruct (Z.ltb_spec (u32 (ticks w - t0)) (u32 n)); [|lia].
  apply kbind_Ok_inv in E as (k & w2 & _ & E). case_match; [done|]. apply on_p_Ok in E as [E _].
  by repeat (apply kbind_Ok_inv in E as (? & ? & _ & E)).
Qed.


(** *** A machine with its devices *)

Lemma no_files_fork : @ForkFiles unit no_files.
Proof. split; intros ?; apply awake_ret. Qed.

(** The registers at an interrupt of a device and at a load from a bad address. *)
Definition at_interrupt : csrs := Csrs 0 0x1000 (2 ^ 63 + 9) 0 0 0 0.
Definition at_fault : csrs := Csrs 0 0x1000 13 0 0 0 0.

Abbreviation many_trap := (@usertrap unit devices no_files one_file xv6_devices many_end 0x80007000 0 1 2 3).

Definition traps_from {F D} (trap : Z -> M (@tworld F D) outcome) (t : table) (r : csrs) (d : D)
    (b : res (@pworld F) unit) : bool :=
  match b with
  | Ok _ x =>
      bool_decide (zget (cpus x) 0 = Some (Some 0)) && (nextpid x <? 2 ^ 31 - 1) &&
      match trap 0 (TWorld x 0 t r d) with Ok ToUser _ => true | _ => false end
  | _ => false
  end.

Lemma traps_from_spec {F D} `{!ProcFiles F} kend trampoline forkret m f
    (trap : Z -> M (@tworld F D) outcome) t r d :
  traps_from trap t r d ((userinit kend trampoline forkret ;;; run 0 0) (boot m f)) = true ->
  exists x0 x, userinit kend trampoline forkret (boot m f) = Ok tt x0 /\
  pstep kend trampoline forkret x0 x /\ may_fork 0 (TWorld x 0 t r d) /\
  exists w, trap 0 (TWorld x 0 t r d) = Ok ToUser w.
Proof.
  intros H. destruct (boot_runs kend trampoline forkret m f) as (x0 & x & E0 & E & Hs).
  { by destruct (kbind _ _ _). }
  rewrite (kbind_Ok _ _ _ _ _ E0), E in H. cbn in H.
  apply andb_true_iff in H as [[Hc%bool_decide_eq_true Hn%Z.ltb_lt]%andb_true_iff Ht].
  exists x0, x. split; [done|]. split; [done|]. split; [by split; [exists 0|]|].
  destruct (trap 0 _) as [[] w| |]; try done. by exists w.
Qed.

(** A line is typed while the first process runs. *)
Lemma first_trap :
  traps_from many_trap zeroed_table at_interrupt typed_hi
    ((userinit (H := no_files) many_end 0x80007000 0 ;;; run 0 0) (boot many_pages tt)) = true.
Proof. vm_compute. reflexivity. Qed.


Section Ends.
Context {F D : Type} `{!ProcFiles F, !ExecFiles F, !TrapCalls F D}.
Context (kend trampoline forkret kernelvec uservec usertrap_at : Z).
Implicit Types w : @tworld F D.
Abbreviation memory w := (kmem (kpages (tproc w))).
Abbreviation well_ended := (well_ended kend trampoline forkret uservec).
Abbreviation finish := (finish trampoline uservec usertrap_at).

(** The branch of a system call. *)
Lemma call_ended i p w w1 o w' :
  procs (tproc w1) = procs (tproc w) -> zget (procs (tproc w)) i = Some p -> scause (regs w) = 8 ->
  memory w1 = st64 (memory w) (p_trapframe p + TF_epc) (sepc (regs w)) ->
  (let! epc := on_p (on_mem (load (p_trapframe p + TF_epc))) in
   on_p (on_mem (store (p_trapframe p + TF_epc) (u64 (epc + 4)))) ;;;
   intr_on ;;;
   let! returns := syscall kend trampoline forkret i in
   if returns : bool then finish i 0 else kret OffCpu) w1 = Ok o w' ->
  well_ended i o w w'.
Proof.
  intros HP Hp H8 HM E.
  apply kbind_Ok_inv in E as (epc & w2 & [-> ->]%on_load_Ok & E).
  apply kbind_Ok_inv in E as (? & w3 & (_ & P3 & M3)%store_Ok & E).
  apply kbind_Ok_inv in E as (? & ws & [_ P4]%set_csr_Ok & E).
  apply kbind_Ok_inv in E as ([] & wr & Ec & E).
  2: { injection E as <- <-. apply syscall_false in Ec as [st Hz]. by eapply zombie_gone. }
  apply finish_ended in E. destruct o; [|done]. destruct E as (Hu & q & Hq & Hpc). split; [done|].
  intros p' Hp' Hrange. rewrite Hp in Hp'. injection Hp' as <-. split; [|done]. intros _.
  assert (procs (tproc ws) = procs (tproc w)) as HPs by (rewrite P4; congruence).
  assert (ld64 (memory ws) (p_trapframe p + TF_epc) = u64 (sepc (regs w) + 4)) as Hslot.
  { rewrite P4, M3, HM, ld64_st64_eq; [by rewrite ld64_st64_eq|]. apply Z.mod_pos_bound. done. }
  split; [by exists ws, wr, q|]. intros num Hn. rewrite Hpc.
  rewrite (syscall_quiet kend trampoline forkret i p q ws true wr); [done|by rewrite HPs|done| |done|done].
  assert (ld64 (memory ws) (p_trapframe p + TF_a7) = ld64 (memory w) (p_trapframe p + TF_a7)) as ->; [|done].
  rewrite P4, M3, HM. by rewrite !ld64_st64_ne by (unfold disjoint, TF_epc, TF_a7; lia).
Qed.

(** The branch of an interrupt, with the process killed or not before the end. *)
Lemma intr_ended i p d w w1 w2 o w' :
  procs (tproc w1) = procs (tproc w) -> zget (procs (tproc w)) i = Some p -> scause (regs w) <> 8 ->
  memory w1 = st64 (memory w) (p_trapframe p + TF_epc) (sepc (regs w)) ->
  memory w2 = memory w1 -> (forall i, frame i w2 = frame i w1) ->
  finish i d w2 = Ok o w' -> well_ended i o w w'.
Proof.
  intros HP Hp H8 HM HM2 HF E. apply finish_ended in E. destruct o; [|done].
  destruct E as (Hu & q & Hq & Hpc). split; [done|].
  intros p' Hp' Hrange. rewrite Hp in Hp'. injection Hp' as <-. split; [done|]. intros _.
  rewrite Hpc, (frame_pc i p q w1 w2 HM2 HF); [|by rewrite HP|done]. by rewrite HM, ld64_st64_eq.
Qed.
End Ends.


(** A child of the first process runs on CPU 1. *)
Definition child_runs : res (@pworld unit) unit :=
  (userinit (H := no_files) many_end 0x80007000 0 ;;; run 0 0 ;;;
   allocproc many_end 0x80007000 0 ;;;
   update 1 (fun p => with_state (with_cwd (with_parent p (Some 0)) (Some 0)) RUNNABLE) ;;;
   run 1 1) (boot many_pages tt).

Definition ends_from {F D} (trap : Z -> M (@tworld F D) outcome) (i : Z) (t : table) (r : csrs) (d : D)
    (b : res (@pworld F) unit) : bool :=
  match b with
  | Ok _ x => is_ok (trap i (TWorld x 0 t r d))
  | _ => false
  end.

Lemma ends_from_spec {F D} (trap : Z -> M (@tworld F D) outcome) i t r d b :
  ends_from trap i t r d b = true -> exists x o w, trap i (TWorld x 0 t r d) = Ok o w.
Proof.
  destruct b as [u x| |]; [|done|done]. cbn. destruct (trap i _) as [o w| |] eqn:E; [|done|done]. eauto.
Qed.

(** It faults. *)
Lemma child_ends : ends_from many_trap 1 zeroed_table at_fault typed_hi child_runs = true.
Proof. vm_compute. reflexivity. Qed.

